(* ===== verification/_CoqProject ===== *)
-Q . S2P
Prelude.v
GoStrings.v
GoTime.v
Tiers.v
TierRules.v
TierEval.v
TierFacts.v
TierUnknown.v
TierFiles.v
DestNames.v
SyncPlan.v
SyncPlanFacts.v
SyncPlanProps.v
SyncGuard.v
SyncPlanPaths.v
SyncPlanKept.v
DestFS.v
FileRecords.v
LinkManifest.v
SyncExec.v
SyncSweep.v
ExecLogic.v
SyncExecSafe.v
WorldLogic.v
SyncRetention.v
SyncVerify.v
SyncRun.v
SyncRunLogic.v
LinkManifestWrite.v
SyncRunSafe.v
SyncPlanned.v
CatalogExclude.v
CatalogScan.v
CatalogSight.v
CatalogScanProps.v
VersionRetention.v
ResticTags.v
ResticKeep.v
BwLimit.v
JobParams.v
JobQueue.v
JobManager.v
Schedules.v
Scheduler.v
Limiter.v
