(* ===== verification/Prelude.v ===== *)
(** * Bunkarr: a verification development

    Bunkarr backs up media servers: it scans sources (the file trees of a media
    library), decides with rules which files each destination gets (tiers), and
    copies them with its own engine ([filecopy]) or with restic or rclone, in jobs
    that a manager runs and a scheduler queues. This library models the parts of
    [src/internal] that decide: what is protected, what a sync does, what retention
    deletes, when transfers run, which job runs when. Their inputs (rows of the
    database, answers of the file systems, readings of the clock) are arguments, so
    the theorems hold for every input. A Go map is a [gmap]; where the code ranges
    over a map, the order is an argument of the definition. An [int64] is a [Z], and
    the arithmetic that can overflow is written with its wrap-around ([i64] in
    Prelude). A string is its bytes. A function that returns an error returns a
    [result]; the messages are constructors, without their texts.

    ** Parts

    Foundations.
    - Prelude: results, int64, option and list lemmas, sorting with a comparison.
    - GoStrings: [strings], [unicode/utf8] and [path] as far as the code uses them.
    - GoTime: civil dates, weekdays, ISO weeks and [time.Date] in a location (a
      function from instants to UTC offsets).

    Tiers (package [tiers]): which files a destination must hold.
    - Tiers: the data ([tiers.go], [facts.go]): tiers ordered by protection,
      tri-state results, rules, facts of a file, decisions.
    - TierRules: the field table, validation and compilation of rules ([fields.go]).
    - TierEval: the evaluator ([evaluate.go]). Its theorems: which rule decides, with
      exactly which reasons, and that settling unknown conditions never raises the
      tier; the default is a full copy (D1); and two things modelling showed, the
      overflow of "older than n days" and the fallback of the file's age.
    - TierFacts: attribution of files to *arr items and irreplaceable flags
      ([load.go], [resolve.go]): a file counts as unmanaged only when it provably
      lies outside every *arr that counts for its source.
    - TierUnknown: both together: caches that go stale never lower the protection of a
      file (S14), with the one exception modelling showed (an *arr flag that reaches a
      file only through its item).
    - TierFiles: the decisions of a source ([engine.go]): hardlink groups and
      sidecars never lower a file's protection, and the order of the maps is
      irrelevant.

    Sync (package [syncer]): what one sync does at a destination.
    - DestNames: which names a destination can store (S11) and which modification
      times are equal ([filecopy/names.go], [ops.go]), the plan's index of names.
    - SyncPlan: [sourcePlanner] ([plan.go], [tiers.go]) with its heap of items.
    - SyncPlanFacts: the trace of a plan, which the proofs use.
    - SyncPlanProps: a vanished record is handled exactly once, a move is a proven rename, every file is written at most
      once, planning fails only for its fatal errors, a source in sync plans nothing,
      the items run in a safe order.
    - SyncPlanPaths: where the items of a plan write: a pending item has the path of a record
      or one that passed [NameCheck].
    - SyncPlanKept: kept files are never touched (S15): which items of a plan may have to
      do with the record or the path of a kept file, its hardlinks included.
    - SyncGuard: the mass-change guard ([guards.go], S10b): when a plan is over the limits
      and what is held then, exactly.
    - DestFS: the file tree of a destination (names, inodes, directories) and what
      the calls of [os.Root] do to it; the path checks and retention names of
      [filecopy].
    - FileRecords: the rows of [destination_files] and their writes ([store.go]), with
      what a write does to the other rows and that the ids stay unique.
    - LinkManifest: the hardlink manifest ([manifest.go]) and its reader: every link comes
      back, whatever bytes its paths have.
    - SyncExec: the execution of the items ([exec.go], [identity.go], [settle] of
      [reconcile.go]) with the operations of [filecopy] it uses ([copy.go],
      [ops.go]), as programs over a world (tree, records, items) whose calls may
      fail at every point; every change of the world is noted. It also has the store of a
      job's items ([jobqueue/items.go]).
    - SyncSweep: what a job does first with what stopped jobs left ([reconcile.go]): it
      finishes the items of their retention directories and settles the intents.
    - ExecLogic: the logic of these programs (an invariant of every state on the way,
      [pres] and [hoare]) and the specification of every operation of SyncExec and
      SyncSweep.
    - SyncExecSafe: its results: whatever fails, and however often the process dies and
      a job is tried again, settling and executing lose no content ([nothing_lost]); a
      copy that succeeds is recorded as it is; the loop over the batches ends; what
      settling an intent leaves; a job that settles without a warning leaves no intent.
    - WorldLogic: a smaller logic for jobs that do little to the destination: programs
      that keep an invariant of the world ([sat]), and programs that only look.
    - SyncRetention: the retention job of a destination ([retention.go]) with [Expire] of
      [filecopy]: it deletes only expired files of linked sources that no flag covers
      and no live row needs, a row goes only after its file, and the plan is exact.
    - SyncVerify: the verify job ([verify.go]) with [VerifyFile] of [filecopy]: its plan is
      exact (its sample holds the share that was verified longest ago), it changes no
      file, and it marks a row missing only when its file, or that
      of a hardlink with the same content, is not as recorded.

    - SyncRun: a sync job as a whole ([sync.go], [planner.go], [tiers.go]): [sync_run] chooses
      the sources, plans each with what it reads of it (over SyncPlan and SyncGuard), stores
      the items in batches, checks the free space and holds what does not fit, executes
      (SyncExec) and writes the hardlink manifest; an interrupted plan is made anew, a
      complete one resumed.
    - SyncRunLogic: which worlds planning leads through.
    - LinkManifestWrite: the manifest is replaced in one step.
    - SyncRunSafe: a dry run changes nothing; and over every sequence of attempts at a sync
      job, each cut off anywhere, no content at the destination is lost
      ([sync_loses_nothing]): SyncPlanPaths says where the items of its plans may write,
      ExecLogic that executing and settling lose nothing, and [gives] (the invariant of
      ExecLogic for programs that add items) composes them.
    - SyncPlanned: a plan is stored whole and in order or does not count, and what it leaves to
      copy fits in the free space.

    Catalog (package [catalog]): what a source holds.
    - CatalogExclude: the exclude patterns ([exclude.go]) with [path.Match], and that the
      patterns of a source, as they are written, exclude what they say.
    - CatalogScan: a full scan of a source ([scan.go], [group.go]): the checks of its
      root, the walk, the comparison with the catalog, the hardlink groups, and the
      transactions, each of which may fail. What the file system answers is a tree of
      answers, one for everything the scan looks at.
    - CatalogSight: what there is to see in such a tree, as a relation, and that the walk
      collects exactly that, each file once.
    - CatalogScanProps: a scan that succeeds leaves exactly what it saw; one that fails, is
      refused or dies marks nothing deleted; the hardlink groups join names of one file;
      and, as modelling showed, an entry whose lstat fails counts as gone.

    Retention: what is deleted.
    - VersionRetention: versions of config backups ([snapshots/keep.go]) and
      manifests ([manifest/prune.go]).
    - ResticTags: the tags of restic snapshots and their groups ([tags.go]).
    - ResticKeep: the keep set and the forget requests ([keep.go]), with the groups
      of ResticTags.

    Transfers: BwLimit, the timetable of bandwidth limits and transfer windows
    ([engines/bwlimit], [engines/window.go]). At a fixed offset from UTC the
    timetable is unambiguous, and the next change, the end and the next opening of a
    window are exact; what holds at every location is stated for every location.

    Jobs (packages [jobs] and [jobqueue]).
    - JobParams: types, parameters, specs, canonical form, validation and lock keys
      ([contract.go], [jobqueue.go]): canonical parameters are equal exactly when
      they ask for the same work.
    - JobQueue: the jobs table ([store.go], [coalesce.go], [defer.go]): an enqueue
      loses no work; the life of a job over every sequence of transactions, each of
      which does exactly its move.
    - JobManager: the dispatcher, the running jobs, holds, cancellation and shutdown
      ([manager.go]) as a step relation over JobQueue: no two running jobs share a
      lock key, a dispatch pass that nothing interrupts starts, fails or leaves each
      job for a stated reason, the outcome of a runner decides how its job ends.
    - Schedules and Scheduler: the schedules table and its fires ([schedules.go],
      [scheduler.go]) over JobQueue and JobParams: fire times increase, the due
      schedules fire exactly once, a fire loses no work and is skipped only for a
      stated reason.

    Limiter: the limit on failed logins ([auth/limiter.go]).

    ** Parameters

    [strings.ToLower] (CatalogExclude), [strings.EqualFold] (TierEval) and [unicode.SimpleFold] (DestNames), whose tables
    are data of the Go library; the cron library (Schedules, Scheduler), of which the
    theorems use that the next activation is later than the time asked for; the file
    systems a planner reads (SyncPlan), which may answer differently at every read;
    SHA-256 and the environment of an execution (SyncExec): which calls the system
    refuses, what the source holds, which transactions fail, the clock, cancellation; what an
    attempt at a sync finds (SyncRun): its sources, their live files, the tier engine, the
    free space;
    the outcomes of runners (JobManager); the order of ranges over maps.

    ** Bounds and fuel

    Recursion is structural, except that a loop without a structure carries fuel
    which is a bound on its rounds: the bytes of a string (its runes, the directories
    above a path), one more than the items (the guard's loop over dependents, each
    round of which but the last holds one), what a dispatch pass still has to look
    at, one more than the items of a job (the batches of a phase, of a sweep, of expiries, of
    checks and of what is held) or than the rows (the pages of [eachLive]), the
    files of a scan (the batches of its transactions), the bytes of a glob, eight steps for the orbit
    of a case fold (Unicode's have at most four). Theorems state that the loop has ended
    with the result of the unbounded one ([dispatch_leaves_only_blocked],
    [guard_holds_exactly], [batches_end], [verify_plan_exact]). The nine days of
    [NextChange] and its like are the code's own bound, proved to be enough because
    a timetable repeats every week.

    ** Not modelled

    Errors of the database (every transaction is a function of the tables), except
    where the code's answer to them matters (the start of a job). Texts of messages,
    logs, progress and notifications. The JSON text of parameters and rules (a JSON
    value is a tree, in Tiers; canonical parameters stand for their encoding). Job history that is pruned
    is only pruned with ids that no live object holds, since the rows' ids may be used
    again. Summer time in the theorems that say "at a fixed offset". In the execution
    of a sync: the end of a transfer window during an item, the flags that follow a
    move, the probe of the destination's inode numbers before it ([prepareIdentity]: what it
    found is given with the capabilities), page caches and the durability of what fsync was called for (a crash keeps
    every change made before it); the tree is case sensitive. Of sync jobs: targeted syncs and the
    files they wait for, transfer windows, a destination that is not mounted, the check of
    inode numbers, summaries. Of the loading of facts: the providers (watches,
    requests, collections), whose facts stay empty. Of a job's end: a database that refuses
    the transaction that records it. The drivers of restic
    and rclone, child processes and HTTP clients, which are I/O.
    Next, in this order: targeted syncs and scans, the restic pattern files. *)
From stdpp Require Export base gmap strings list sorting pretty.
From Stdlib Require Export ZArith Lia.
#[export] Set Default Goal Selector "!".
Open Scope Z_scope.

(** ** Results of fallible Go code

    A Go function returning [(T, error)] is a [result]: [Ok v] for a nil error,
    [Err e] otherwise (the value returned next to a non-nil error is never used
    by the callers modelled here). *)

Inductive result (E A : Type) : Type :=
| Ok (a : A)
| Err (e : E).
Arguments Ok {E A} a.
Arguments Err {E A} e.

Definition rbind {E A B} (m : result E A) (k : A → result E B) : result E B :=
  match m with
  | Ok a => k a
  | Err e => Err e
  end.

Definition is_ok {E A} (m : result E A) : bool :=
  match m with Ok _ => true | Err _ => false end.

Declare Scope go_scope.
Delimit Scope go_scope with go.
Notation "'let?' x ':=' m 'in' k" := (rbind m (λ x, k))
  (at level 10, x pattern, m at level 100, k at level 200) : go_scope.
Notation "'guard?' b 'else' e ';' k" := (if b then k else Err e)
  (at level 10, b at level 100, e at level 100, k at level 200) : go_scope.
Open Scope go_scope.

Lemma rbind_ok {E A B} (m : result E A) (k : A → result E B) b :
  rbind m k = Ok b ↔ ∃ a, m = Ok a ∧ k a = Ok b.
Proof. destruct m; simpl; naive_solver. Qed.

Lemma rbind_err {E A B} (m : result E A) (k : A → result E B) e :
  rbind m k = Err e ↔ m = Err e ∨ ∃ a, m = Ok a ∧ k a = Err e.
Proof. destruct m; simpl; naive_solver. Qed.

#[export] Instance result_eq_dec {E A} `{EqDecision E, EqDecision A} : EqDecision (result E A).
Proof. solve_decision. Defined.

(** [mapM_r f l] runs [f] over [l] left to right and stops at the first error. *)
Fixpoint mapM_r {E A B} (f : A → result E B) (l : list A) : result E (list B) :=
  match l with
  | [] => Ok []
  | a :: l => let? b := f a in let? bs := mapM_r f l in Ok (b :: bs)
  end.

Lemma mapM_r_ok {E A B} (f : A → result E B) l bs :
  mapM_r f l = Ok bs ↔ Forall2 (λ a b, f a = Ok b) l bs.
Proof.
  revert bs. induction l as [|a l IH]; intros bs; simpl.
  - split; [intros [= <-]; constructor | by inversion 1].
  - rewrite rbind_ok. setoid_rewrite rbind_ok. split.
    + intros (b & Hb & bs' & Hbs & [= <-]). constructor; [done|]. by apply IH.
    + inversion 1; subst. naive_solver.
Qed.

(** ** Machine integers and durations

    [i64 z] is the value of the Go int64 expression whose exact value is [z]
    (two's complement wrap-around). [dsub] is [time.Time.Sub], which saturates
    instead of wrapping. Instants are nanoseconds since the Unix epoch. *)

Definition min_i64 : Z := -2^63.
Definition max_i64 : Z := 2^63 - 1.
Definition i64 (z : Z) : Z := (z + 2^63) mod 2^64 - 2^63.
Definition in_i64 (z : Z) : Prop := min_i64 ≤ z ≤ max_i64.

Lemma i64_id z : in_i64 z → i64 z = z.
Proof. unfold in_i64, i64, min_i64, max_i64. intros. rewrite Z.mod_small; lia. Qed.

Lemma i64_range z : in_i64 (i64 z).
Proof.
  unfold in_i64, i64, min_i64, max_i64.
  pose proof (Z.mod_pos_bound (z + 2^63) (2^64) ltac:(lia)). lia.
Qed.

Definition time := Z.
Definition duration := Z.
Definition ns_per_sec : Z := 1000000000.
Definition ns_per_min : Z := 60 * ns_per_sec.
Definition ns_per_hour : Z := 3600 * ns_per_sec.
(** [zero_time] is the instant of Go's zero [time.Time] (1 January of year 1). *)
Definition zero_time : time := -62135596800 * ns_per_sec.

Definition dsub (t u : time) : duration := Z.max min_i64 (Z.min max_i64 (t - u)).

Lemma dsub_exact t u : in_i64 (t - u) → dsub t u = t - u.
Proof. unfold in_i64, dsub, min_i64, max_i64. lia. Qed.

(** ** Stable sorting ([slices.SortStableFunc], and [slices.SortFunc] where no
    two elements compare equal)

    [cmp a b > 0] means that [a] goes after [b]. *)

Section isort.
Context {A : Type} (cmp : A → A → Z).

Fixpoint insert_sorted (x : A) (l : list A) : list A :=
  match l with
  | [] => [x]
  | y :: l' => if cmp x y <=? 0 then x :: l else y :: insert_sorted x l'
  end.

Definition isort (l : list A) : list A := foldr insert_sorted [] l.

Lemma insert_sorted_perm x l : insert_sorted x l ≡ₚ x :: l.
Proof.
  induction l as [|y l IH]; simpl; [done|].
  case_match; [done|]. rewrite IH. by constructor.
Qed.

Lemma isort_perm l : isort l ≡ₚ l.
Proof. induction l as [|x l IH]; simpl; [done|]. by rewrite insert_sorted_perm, IH. Qed.

Lemma isort_elem x l : x ∈ isort l ↔ x ∈ l.
Proof. by rewrite isort_perm. Qed.

Lemma isort_length l : length (isort l) = length l.
Proof. by rewrite isort_perm. Qed.

Definition cmp_le (a b : A) : Prop := cmp a b ≤ 0.

(** What a Go comparison function promises: it is total and transitive. *)
Class Ordering : Prop := {
  cmp_total a b : cmp a b ≤ 0 ∨ cmp b a ≤ 0;
  cmp_trans a b c : cmp a b ≤ 0 → cmp b c ≤ 0 → cmp a c ≤ 0;
}.

Lemma insert_sorted_sorted `{Ordering} x l :
  StronglySorted cmp_le l → StronglySorted cmp_le (insert_sorted x l).
Proof.
  induction 1 as [|y l Hs IH Hall]; simpl; [repeat constructor|].
  destruct (Z.leb_spec (cmp x y) 0) as [Hle|Hgt].
  - constructor; [by constructor|]. constructor; [done|].
    eapply Forall_impl; [exact Hall|]. intros z Hz. by eapply cmp_trans.
  - constructor; [done|]. rewrite insert_sorted_perm. constructor; [|done].
    destruct (cmp_total x y); unfold cmp_le; lia.
Qed.

Lemma isort_sorted `{Ordering} l : StronglySorted cmp_le (isort l).
Proof. induction l; simpl; [constructor|]. by apply insert_sorted_sorted. Qed.
End isort.

(** Sorting by a key is stable: equal keys stay in the order [R] they came in. *)
Lemma isort_key_stable {A} (k : A → Z) (R : A → A → Prop) l :
  StronglySorted R l →
  StronglySorted (λ a b, k a < k b ∨ (k a = k b ∧ R a b)) (isort (λ a b, k a - k b) l).
Proof.
  induction 1 as [|x l Hs IH Hall]; simpl; [constructor|].
  assert (Hx : Forall (R x) (isort (λ a b, k a - k b) l)) by (by rewrite isort_perm).
  clear Hall Hs. induction IH as [|y l' Hs' IH' Hall']; simpl; [repeat constructor|].
  inversion Hx as [|? ? Hxy Hx']; subst. destruct (Z.leb_spec (k x - k y) 0) as [Hle|Hgt].
  - constructor; [by constructor|]. constructor; [destruct (decide (k x = k y)); [by right|left; lia]|].
    rewrite Forall_forall in *. intros z Hz. specialize (Hall' z Hz). specialize (Hx' z Hz).
    destruct (decide (k x = k z)); [by right|left; lia].
  - constructor; [by apply IH'|]. rewrite insert_sorted_perm. constructor; [left; lia|done].
Qed.

Lemma sorted_weaken {A} (R S : A → A → Prop) l : (∀ a b, R a b → S a b) → StronglySorted R l → StronglySorted S l.
Proof. intros H. induction 1 as [|a l Hs IH Hall]; constructor; [done|]. eapply Forall_impl; [exact Hall|]. auto. Qed.

(** [cmp_of c] is a Go three-way comparison ([cmp.Compare], [time.Compare]). *)
Definition zcmp (a b : Z) : Z :=
  match a ?= b with Lt => -1 | Eq => 0 | Gt => 1 end.

Lemma zcmp_spec a b : (zcmp a b ≤ 0 ↔ a ≤ b) ∧ (zcmp a b = 0 ↔ a = b) ∧ (zcmp a b < 0 ↔ a < b).
Proof. unfold zcmp. destruct (Z.compare_spec a b); lia. Qed.

(** [then_cmp c d] is Go's [if c != 0 { return c }; return d]. *)
Definition then_cmp (c d : Z) : Z := if c =? 0 then d else c.

(** A lexicographic comparison of two integer keys is an [Ordering]. *)
Lemma lex_ordering {A} (f g : A → Z) (cmp : A → A → Z) :
  (∀ a b, cmp a b = then_cmp (zcmp (f a) (f b)) (zcmp (g a) (g b))) → Ordering cmp.
Proof.
  intros Hc. unfold then_cmp in Hc.
  assert (Hle : ∀ a b, cmp a b ≤ 0 ↔ f a < f b ∨ (f a = f b ∧ g a ≤ g b)).
  { intros a b. rewrite Hc. pose proof (zcmp_spec (f a) (f b)). pose proof (zcmp_spec (g a) (g b)).
    destruct (Z.eqb_spec (zcmp (f a) (f b)) 0); lia. }
  split; intros *; rewrite !Hle; lia.
Qed.

#[export] Instance zcmp_ordering : Ordering zcmp.
Proof.
  split.
  - intros a b. pose proof (zcmp_spec a b). pose proof (zcmp_spec b a). lia.
  - intros a b d. pose proof (zcmp_spec a b). pose proof (zcmp_spec b d). pose proof (zcmp_spec a d). lia.
Qed.

(** ** List lemmas shared by the components *)

Lemma filter_bool_elem {A} (p : A → bool) (l : list A) x :
  x ∈ List.filter p l ↔ x ∈ l ∧ p x = true.
Proof. by rewrite !list_elem_of_In, List.filter_In. Qed.

Lemma existsb_elem {A} (p : A → bool) (l : list A) :
  existsb p l = true ↔ ∃ x, x ∈ l ∧ p x = true.
Proof. rewrite existsb_exists. by setoid_rewrite list_elem_of_In. Qed.

Lemma existsb_false {A} (p : A → bool) (l : list A) :
  existsb p l = false ↔ ∀ x, x ∈ l → p x = false.
Proof.
  rewrite <- not_true_iff_false, existsb_elem. split.
  - intros H x Hx. destruct (p x) eqn:E; [|done]. naive_solver.
  - intros H (x & Hx & E). specialize (H x Hx). congruence.
Qed.

Lemma forallb_elem {A} (p : A → bool) (l : list A) :
  forallb p l = true ↔ ∀ x, x ∈ l → p x = true.
Proof. rewrite forallb_forall. by setoid_rewrite list_elem_of_In. Qed.

Lemma concat_fmap_elem {A B} (g : A → list B) (l : list A) x :
  x ∈ concat (g <$> l) ↔ ∃ a, a ∈ l ∧ x ∈ g a.
Proof.
  induction l as [|a l IH]; [set_solver|]. cbn [fmap list_fmap concat].
  rewrite elem_of_app, IH. set_solver.
Qed.

(** The number of elements with a property. *)
Definition count {A} (p : A → bool) (l : list A) : nat := length (List.filter p l).

Lemma count_app {A} (p : A → bool) l k : count p (l ++ k) = (count p l + count p k)%nat.
Proof. unfold count. by rewrite List.filter_app, length_app. Qed.

Lemma count_fmap {A B} (p : B → bool) (f : A → B) l : count p (f <$> l) = count (λ x, p (f x)) l.
Proof. unfold count. induction l as [|a l IH]; simpl; [done|]. destruct (p (f a)); simpl; by rewrite <-IH. Qed.

Lemma count_ext {A} (p q : A → bool) l : (∀ x, x ∈ l → p x = q x) → count p l = count q l.
Proof.
  unfold count. induction l as [|a l IH]; intros H; simpl; [done|].
  rewrite (H a) by set_solver. destruct (q a); simpl; rewrite IH; set_solver.
Qed.

Lemma count_le {A} (p q : A → bool) l : (∀ x, x ∈ l → p x = true → q x = true) → (count p l ≤ count q l)%nat.
Proof.
  unfold count. induction l as [|a l IH]; intros H; simpl; [done|].
  assert (IH' := IH ltac:(set_solver)). destruct (p a) eqn:E; [rewrite H by set_solver; simpl; lia|].
  destruct (q a); simpl; lia.
Qed.

Lemma count_lt {A} (p q : A → bool) l x :
  (∀ x, x ∈ l → p x = true → q x = true) → x ∈ l → p x = false → q x = true → (count p l < count q l)%nat.
Proof.
  induction l as [|a l IH]; intros H Hx Hp Hq; [set_solver|].
  assert (Hle : (count p l ≤ count q l)%nat) by (apply count_le; set_solver).
  apply elem_of_cons in Hx as [->|Hx].
  - unfold count in *. simpl. rewrite Hp, Hq. simpl. lia.
  - assert (IH' := IH ltac:(set_solver) Hx Hp Hq). unfold count in *. simpl.
    destruct (p a) eqn:E; [rewrite H by set_solver; simpl; lia|]. destruct (q a); simpl; lia.
Qed.

Lemma count_bound {A} (p : A → bool) l : (count p l ≤ length l)%nat.
Proof. unfold count. apply List.filter_length_le. Qed.

Lemma count_zero {A} (p : A → bool) l : count p l = 0%nat ↔ ∀ x, x ∈ l → p x = false.
Proof.
  unfold count. induction l as [|a l IH]; simpl; [set_solver|].
  destruct (p a) eqn:E; simpl; [|rewrite IH; set_solver].
  split; [done|]. intros H. rewrite H in E by set_solver. done.
Qed.

Lemma count_concat_zero {A B} (p : B → bool) (g : A → list B) l :
  (∀ a, a ∈ l → count p (g a) = 0%nat) → count p (concat (g <$> l)) = 0%nat.
Proof.
  intros H. apply count_zero. intros x (a & Ha & Hx)%concat_fmap_elem. specialize (H a Ha).
  rewrite count_zero in H. by apply H.
Qed.

(** Only one element of a list without duplicates (by the key [k]) contributes. *)
Lemma count_concat_one {A B K} (p : B → bool) (g : A → list B) (k : A → K) l a0 :
  NoDup (k <$> l) → a0 ∈ l → (∀ a, a ∈ l → k a ≠ k a0 → count p (g a) = 0%nat) →
  count p (concat (g <$> l)) = count p (g a0).
Proof.
  induction l as [|a l IH]; [set_solver|]. intros Hnd Ha0 H. inversion Hnd as [|? ? Hk Hl]; subst.
  rewrite fmap_cons. cbn [concat]. rewrite count_app. apply elem_of_cons in Ha0 as [->|Ha0].
  - rewrite count_concat_zero; [lia|]. intros x Hx. apply H; [set_solver|]. intros E. apply Hk. rewrite <-E. set_solver.
  - rewrite IH by (try done; intros; apply H; set_solver). rewrite H; [lia|set_solver|].
    intros E. apply Hk. rewrite E. set_solver.
Qed.

Lemma NoDup_fmap_inj_on {A K} (k : A → K) (l : list A) a b : NoDup (k <$> l) → a ∈ l → b ∈ l → k a = k b → a = b.
Proof.
  intros Hl Ha Hb E. apply list_elem_of_lookup in Ha as [i Hi], Hb as [j Hj]. assert (i = j) as ->; [|congruence].
  eapply NoDup_lookup; [exact Hl|rewrite list_lookup_fmap, Hi; simpl; reflexivity|rewrite list_lookup_fmap, Hj; simpl; congruence].
Qed.
Lemma filter_sublist {A} (p : A → bool) (l : list A) : List.filter p l `sublist_of` l.
Proof. induction l as [|a l IH]; simpl; [constructor|]. destruct (p a); by constructor. Qed.
Lemma find_app {A} (p : A → bool) (l k : list A) : List.find p (l ++ k)%list = match List.find p l with Some x => Some x | None => List.find p k end.
Proof. induction l as [|x l IH]; simpl; [done|]. by destruct (p x). Qed.
Lemma find_fmap {A} (p : A → bool) (g : A → A) (l : list A) : (∀ x, p (g x) = p x) → List.find p (g <$> l) = g <$> List.find p l.
Proof. intros Hg. induction l as [|x l IH]; simpl; [done|]. rewrite Hg. by destruct (p x). Qed.
Lemma filter_all {A} (f : A → bool) l : (∀ x, x ∈ l → f x = true) → List.filter f l = l.
Proof. induction l as [|x l IH]; intros Hf; simpl; [done|]. rewrite Hf, IH; [done| |left]. intros y Hy. apply Hf. by right. Qed.
Lemma filter_none {A} (f : A → bool) l : (∀ x, x ∈ l → f x = false) → List.filter f l = [].
Proof. induction l as [|x l IH]; intros Hf; simpl; [done|]. rewrite Hf; [|left]. apply IH. intros y Hy. apply Hf. by right. Qed.
Lemma Forall2_fmap_on {A B} (R S : A → B → Prop) (g : B → B) l l' :
  Forall2 R l l' → (∀ a b, a ∈ l → b ∈ l' → R a b → S a (g b)) → Forall2 S l (g <$> l').
Proof.
  induction 1 as [|a b l l' Ha Hl IH]; intros Hg; simpl; constructor; [apply Hg; [left|left|done]|].
  apply IH. intros x y Hx Hy. apply Hg; by right.
Qed.
Lemma NoDup_fmap_count {A K} `{EqDecision K} (k : A → K) l :
  NoDup (k <$> l) ↔ ∀ x, (count (λ a, bool_decide (k a = x)) l ≤ 1)%nat.
Proof.
  induction l as [|a l IH]; [split; [intros; unfold count; simpl; lia|constructor]|].
  rewrite fmap_cons, NoDup_cons, IH.
  assert (Hin : k a ∉ k <$> l ↔ count (λ b, bool_decide (k b = k a)) l = 0%nat).
  { rewrite count_zero, list_elem_of_fmap. setoid_rewrite bool_decide_eq_false. naive_solver. }
  rewrite Hin. unfold count. cbn [List.filter]. split.
  - intros [H0 H] x. case_bool_decide as E; [simpl in *; subst x; rewrite H0; lia|apply H].
  - intros H. split.
    + specialize (H (k a)). rewrite bool_decide_eq_true_2 in H by done. simpl in H. lia.
    + intros x. specialize (H x). case_bool_decide; simpl in *; lia.
Qed.

(** [mem x l] is [slices.Contains]. *)
Definition mem {A} `{EqDecision A} (x : A) (l : list A) : bool := bool_decide (x ∈ l).

Lemma mem_spec {A} `{EqDecision A} (x : A) l : mem x l = true ↔ x ∈ l.
Proof. unfold mem. by rewrite bool_decide_eq_true. Qed.

(** ** Automation *)

(** [case_steps] destructs every [match] and [if] of the goal, closing what is
    trivial on the way. *)
Ltac case_steps :=
  repeat (case_match || case_decide || case_bool_decide); simplify_eq/=; try done.

(** [inv_ok H] turns [H : m = Ok _], for a chain of binds and guards, into the
    equations of its steps. *)
Ltac inv_ok H :=
  repeat first
    [ progress simplify_eq/=
    | match type of H with
      | rbind _ _ = Ok _ => let a := fresh "a" in let Ha := fresh "Ha" in
          apply rbind_ok in H; destruct H as (a & Ha & H)
      | (if ?b then _ else _) = Ok _ => let E := fresh "E" in destruct b eqn:E; try discriminate H
      | match ?m with _ => _ end = Ok _ => let E := fresh "E" in destruct m eqn:E; try discriminate H
      end ].

Create HintDb bunkarr.
#[export] Hint Resolve isort_perm i64_range insert_sorted_perm : bunkarr.
Create Rewrite HintDb bunkarr.
#[export] Hint Rewrite @isort_elem @isort_length @mem_spec : bunkarr.
