(* ===== verification/GoStrings.v ===== *)
(** * Go strings and slash-separated paths

    The parts of [strings], [unicode/utf8] and [path] the modelled code uses.
    A Go string is a sequence of bytes: a [string] whose characters are bytes.
    Decoding follows [utf8.DecodeRuneInString] (an invalid byte is one rune of
    one byte), [trim_space] follows [strings.TrimSpace] with the Unicode
    [White_Space] set, and [path_clean] follows [path.Clean]. *)
From stdpp Require Import base list strings.
From S2P Require Import Prelude.
From Stdlib Require Import Ascii String.
Open Scope string_scope.
Open Scope Z_scope.

Definition byte_of (c : ascii) : Z := Z.of_nat (nat_of_ascii c).
Definition chr (z : Z) : ascii := ascii_of_nat (Z.to_nat z).
Definition slen (s : string) : Z := Z.of_nat (String.length s).
Definition bytes (s : string) : list ascii := list_ascii_of_string s.
Definition of_bytes (l : list ascii) : string := string_of_list_ascii l.

Lemma of_bytes_bytes s : of_bytes (bytes s) = s.
Proof. apply string_of_list_ascii_of_string. Qed.
Lemma bytes_of_bytes l : bytes (of_bytes l) = l.
Proof. apply list_ascii_of_string_of_list_ascii. Qed.
Lemma bytes_inj s t : bytes s = bytes t → s = t.
Proof. intros H. by rewrite <-(of_bytes_bytes s), H, of_bytes_bytes. Qed.
Lemma bytes_app s t : bytes (s +:+ t) = (bytes s ++ bytes t)%list.
Proof. induction s as [|c s IH]; simpl; [done|]. by f_equal. Qed.
Lemma length_bytes s : List.length (bytes s) = String.length s.
Proof. induction s; simpl; congruence. Qed.
Lemma of_bytes_app l k : of_bytes (l ++ k)%list = of_bytes l +:+ of_bytes k.
Proof. apply bytes_inj. by rewrite bytes_app, !bytes_of_bytes. Qed.

(** ** Prefixes, suffixes, searches *)

Fixpoint bprefix (p l : list ascii) : option (list ascii) :=
  match p, l with
  | [], _ => Some l
  | c :: p, d :: l => if decide (c = d) then bprefix p l else None
  | _ :: _, [] => None
  end.

Lemma bprefix_spec p l r : bprefix p l = Some r ↔ l = (p ++ r)%list.
Proof.
  revert l. induction p as [|c p IH]; intros l; simpl; [naive_solver|].
  destruct l as [|d l]; [naive_solver|]. case_decide; subst; [rewrite IH|]; naive_solver.
Qed.

(** [cut_prefix] is [strings.CutPrefix]. *)
Definition cut_prefix (s p : string) : option string := of_bytes <$> bprefix (bytes p) (bytes s).
Definition has_prefix (s p : string) : bool := bool_decide (is_Some (bprefix (bytes p) (bytes s))).
Definition has_suffix (s p : string) : bool :=
  bool_decide (is_Some (bprefix (reverse (bytes p)) (reverse (bytes s)))).

Lemma cut_prefix_spec s p r : cut_prefix s p = Some r ↔ s = p +:+ r.
Proof.
  unfold cut_prefix. rewrite fmap_Some. setoid_rewrite bprefix_spec. split.
  - intros (l & Hl & ->). apply bytes_inj. by rewrite bytes_app, bytes_of_bytes.
  - intros ->. exists (bytes r). by rewrite bytes_app, of_bytes_bytes.
Qed.

Lemma has_prefix_spec s p : has_prefix s p = true ↔ ∃ r, s = p +:+ r.
Proof.
  unfold has_prefix. rewrite bool_decide_eq_true. split.
  - intros [l Hl]. exists (of_bytes l). apply cut_prefix_spec. unfold cut_prefix. by rewrite Hl.
  - intros [r Hr]. apply cut_prefix_spec in Hr. unfold cut_prefix in Hr. destruct (bprefix _ _); [by eexists|done].
Qed.

(** [has_byte c s] is [strings.ContainsRune] (or [IndexByte >= 0]) for an ASCII
    character; [contains_any s cs] is [strings.ContainsAny] for ASCII [cs]. *)
Definition has_byte (c : ascii) (s : string) : bool := mem c (bytes s).
Definition contains_any (s cs : string) : bool := existsb (λ c, mem c (bytes cs)) (bytes s).

(** [split_on c l]: [strings.Split] by a one-byte separator. *)
Fixpoint split_on (c : ascii) (l : list ascii) : list (list ascii) :=
  match l with
  | [] => [[]]
  | d :: l =>
      let r := split_on c l in
      if decide (c = d) then [] :: r
      else match r with
           | [] => [[d]]
           | w :: ws => (d :: w) :: ws
           end
  end.

(** [join_with c ws]: [strings.Join] with a one-byte separator. *)
Fixpoint join_with (c : ascii) (ws : list (list ascii)) : list ascii :=
  match ws with
  | [] => []
  | [w] => w
  | w :: ws => (w ++ c :: join_with c ws)%list
  end.

Lemma split_on_nonempty c l : split_on c l ≠ [].
Proof. destruct l as [|d l]; simpl; [done|]. case_decide; [done|]. by destruct (split_on c l). Qed.

Lemma join_split c l : join_with c (split_on c l) = l.
Proof.
  induction l as [|d l IH]; simpl; [done|].
  pose proof (split_on_nonempty c l) as Hne.
  case_decide; subst; destruct (split_on _ l) as [|w ws]; try done; simpl in *.
  - by rewrite IH.
  - destruct ws; simpl in *; by rewrite IH.
Qed.

Definition slash : ascii := "/"%char.

Definition split_slash (s : string) : list string := of_bytes <$> split_on slash (bytes s).

(** [join_strings sep l]: [strings.Join]. *)
Fixpoint join_strings (sep : string) (l : list string) : string :=
  match l with
  | [] => ""
  | [s] => s
  | s :: l => s +:+ sep +:+ join_strings sep l
  end.

(** ** UTF-8

    [decode_rune l] is the rune [utf8.DecodeRuneInString] finds at the start of
    [l] and the number of its bytes; an invalid encoding is [(0xFFFD, 1)]. *)

Definition rune_error : Z := 65533.

Definition cont_in (lo hi : Z) (c : ascii) : bool := (lo <=? byte_of c) && (byte_of c <=? hi).

Definition decode_rune (l : list ascii) : Z * nat :=
  match l with
  | [] => (rune_error, 0%nat)
  | c0 :: l =>
      let b0 := byte_of c0 in
      if b0 <? 128 then (b0, 1%nat)
      else
        match l with
        | c1 :: l1 =>
            if (194 <=? b0) && (b0 <=? 223) then
              if cont_in 128 191 c1 then ((b0 - 192) * 64 + (byte_of c1 - 128), 2%nat)
              else (rune_error, 1%nat)
            else match l1 with
            | c2 :: l2 =>
                if (224 <=? b0) && (b0 <=? 239) then
                  let lo := if b0 =? 224 then 160 else 128 in
                  let hi := if b0 =? 237 then 159 else 191 in
                  if cont_in lo hi c1 && cont_in 128 191 c2
                  then ((b0 - 224) * 4096 + (byte_of c1 - 128) * 64 + (byte_of c2 - 128), 3%nat)
                  else (rune_error, 1%nat)
                else match l2 with
                | c3 :: _ =>
                    if (240 <=? b0) && (b0 <=? 244) then
                      let lo := if b0 =? 240 then 144 else 128 in
                      let hi := if b0 =? 244 then 143 else 191 in
                      if cont_in lo hi c1 && cont_in 128 191 c2 && cont_in 128 191 c3
                      then ((b0 - 240) * 262144 + (byte_of c1 - 128) * 4096
                            + (byte_of c2 - 128) * 64 + (byte_of c3 - 128), 4%nat)
                      else (rune_error, 1%nat)
                    else (rune_error, 1%nat)
                | [] => (rune_error, 1%nat)
                end
            | [] => (rune_error, 1%nat)
            end
        | [] => (rune_error, 1%nat)
        end
  end.

(** The runes of a string, as a [range] loop yields them. The fuel is the number
    of bytes: every rune has at least one. *)
Fixpoint runes_fuel (n : nat) (l : list ascii) : list Z :=
  match n, l with
  | S n, _ :: _ => let '(r, k) := decode_rune l in r :: runes_fuel n (drop k l)
  | _, _ => []
  end.
Definition runes (s : string) : list Z := runes_fuel (String.length s) (bytes s).
Definition rune_count (s : string) : Z := Z.of_nat (List.length (runes s)).

Lemma decode_rune_size l : l ≠ [] → (1 ≤ snd (decode_rune l) ≤ List.length l)%nat.
Proof. destruct l as [|c0 l]; [done|]. intros _. unfold decode_rune. case_steps; simpl in *; lia. Qed.

(** The UTF-8 encoding of a rune ([utf8.AppendRune]). *)
Definition encode_rune (r : Z) : list ascii :=
  if r <? 128 then [chr r]
  else if r <? 2048 then [chr (192 + r / 64); chr (128 + r mod 64)]
  else if r <? 65536 then [chr (224 + r / 4096); chr (128 + r / 64 mod 64); chr (128 + r mod 64)]
  else [chr (240 + r / 262144); chr (128 + r / 4096 mod 64); chr (128 + r / 64 mod 64); chr (128 + r mod 64)].

(** ** Trimming *)

(** The Unicode white space code points ([unicode.IsSpace]). *)
Definition space_runes : list Z :=
  [9; 10; 11; 12; 13; 32; 133; 160; 5760; 8192; 8193; 8194; 8195; 8196; 8197; 8198; 8199; 8200;
   8201; 8202; 8232; 8233; 8239; 8287; 12288].
Definition space_encodings : list (list ascii) := encode_rune <$> space_runes.

Fixpoint strip_one (ws : list (list ascii)) (l : list ascii) : option (list ascii) :=
  match ws with
  | [] => None
  | w :: ws => match bprefix w l with Some r => Some r | None => strip_one ws l end
  end.
Fixpoint strip_all (ws : list (list ascii)) (n : nat) (l : list ascii) : list ascii :=
  match n with
  | O => l
  | S n => match strip_one ws l with Some r => strip_all ws n r | None => l end
  end.
(** [trim_space] is [strings.TrimSpace]: a white space rune is recognised at the
    start by its encoding and at the end by its reversed encoding (what
    [utf8.DecodeLastRune] decodes). The fuel is the number of bytes. *)
Definition trim_space (s : string) : string :=
  let l := bytes s in
  let l := strip_all space_encodings (List.length l) l in
  of_bytes (reverse (strip_all (reverse <$> space_encodings) (List.length l) (reverse l))).

Example trim_space_ex : trim_space "  a b	 " = "a b".
Proof. vm_compute. reflexivity. Qed.

(** ** Numbers *)

Definition is_digit (c : ascii) : bool := (48 <=? byte_of c) && (byte_of c <=? 57).
Definition digits_value (l : list ascii) : Z := foldl (λ n c, n * 10 + (byte_of c - 48)) 0 l.

(** ** Slash-separated paths *)

(** One step of [path.Clean] over the components; [acc] is the cleaned prefix,
    last component first. *)
Definition clean_step (rooted : bool) (acc : list (list ascii)) (w : list ascii) : list (list ascii) :=
  if decide (w = []) then acc
  else if decide (w = bytes ".") then acc
  else if decide (w = bytes "..") then
    match acc with
    | [] => if rooted then [] else [w]
    | a :: acc' => if decide (a = bytes "..") then w :: acc else acc'
    end
  else w :: acc.

Definition path_clean (s : string) : string :=
  let l := bytes s in
  let rooted := match l with c :: _ => bool_decide (c = slash) | [] => false end in
  let ws := reverse (foldl (clean_step rooted) [] (split_on slash l)) in
  let body := join_with slash ws in
  if rooted then of_bytes (slash :: body)
  else if decide (body = []) then "." else of_bytes body.

(** [path.Join]: empty elements are ignored. *)
Definition path_join (es : list string) : string :=
  match List.filter (λ e, negb (bool_decide (e = ""))) es with
  | [] => ""
  | es => path_clean (join_strings "/" es)
  end.

(** [path.Dir]: everything before the last slash, cleaned. *)
Definition path_dir (s : string) : string :=
  match reverse (split_on slash (bytes s)) with
  | _ :: w :: ws => path_clean (of_bytes (join_with slash (reverse (w :: ws)) ++ [slash])%list)
  | _ => path_clean ""
  end.

(** [path.Dir] shortens a path until it reaches ["/"] or ["."]: the size of a
    list of components counts a slash after each, the empty ones apart. *)
Fixpoint comps_size (empties : bool) (ws : list (list ascii)) : nat :=
  match ws with
  | [] => 0
  | w :: ws => (if decide (w = []) then Nat.b2n empties else S (List.length w)) + comps_size empties ws
  end.

Lemma comps_size_app e ws us : comps_size e (ws ++ us) = (comps_size e ws + comps_size e us)%nat.
Proof. induction ws; simpl; lia. Qed.

Lemma comps_size_mono ws : (comps_size false ws ≤ comps_size true ws)%nat.
Proof. induction ws as [|w ws IH]; simpl; [done|]. case_decide; simpl; lia. Qed.

Lemma split_on_size c l : comps_size true (split_on c l) = S (List.length l).
Proof.
  induction l as [|d l IH]; simpl; [done|].
  destruct (decide (c = d)); simpl; [by rewrite IH|].
  destruct (split_on c l) as [|w ws]; simpl in *; [lia|]. destruct w; simpl in *; lia.
Qed.

Lemma split_on_snoc c l : split_on c (l ++ [c]) = (split_on c l ++ [[]])%list.
Proof.
  induction l as [|d l IH]; simpl; [by rewrite decide_True by done|].
  rewrite IH. case_decide; [done|]. pose proof (split_on_nonempty c l). by destruct (split_on c l).
Qed.

Lemma clean_steps_size rooted ws acc :
  (comps_size true (foldl (clean_step rooted) acc ws) ≤ comps_size true acc + comps_size false ws)%nat.
Proof.
  revert acc. induction ws as [|w ws IH]; intros acc; simpl; [lia|].
  etrans; [apply IH|]. unfold clean_step.
  destruct w as [|c w]; simpl; [lia|].
  case_decide; [lia|]. case_decide; [|simpl; lia].
  destruct acc as [|a acc]; [destruct rooted; simpl; lia|]. case_decide; simpl; repeat case_decide; simpl; lia.
Qed.

Lemma join_with_size c ws : (List.length (join_with c ws) ≤ pred (comps_size true ws))%nat.
Proof.
  induction ws as [|w ws IH]; simpl; [lia|].
  destruct ws as [|u ws]; [case_decide; subst; simpl; lia|].
  rewrite length_app. cbn [List.length].
  assert (1 ≤ comps_size true (u :: ws))%nat by (simpl; case_decide; simpl; lia).
  case_decide; subst; cbn [List.length Nat.b2n]; lia.
Qed.

Lemma path_clean_not_empty s : path_clean s ≠ "".
Proof.
  unfold path_clean. set (b := match bytes s with [] => _ | _ => _ end). destruct b; [done|].
  case_decide as E; [done|]. by destruct (join_with slash _).
Qed.

Lemma dir_comps_size (l : list ascii) :
  (comps_size false (split_on slash (l ++ [slash])) ≤
   if match (l ++ [slash])%list with [] => false | c :: _ => bool_decide (c = slash) end
   then List.length l else S (List.length l))%nat.
Proof.
  rewrite split_on_snoc, comps_size_app. simpl. rewrite Nat.add_0_r.
  pose proof (split_on_size slash l) as Hl. pose proof (comps_size_mono (split_on slash l)) as Hm.
  destruct l as [|c l]; cbn [app]; [by vm_compute; lia|].
  case_bool_decide as Hc; [|lia]. subst c. cbn [split_on]. rewrite decide_True by done.
  pose proof (split_on_size slash l). pose proof (comps_size_mono (split_on slash l)). simpl. lia.
Qed.

Lemma comps_size_reverse e ws : comps_size e (reverse ws) = comps_size e ws.
Proof. induction ws as [|w ws IH]; [done|]. rewrite reverse_cons, comps_size_app, IH. simpl. lia. Qed.

Lemma path_dir_not_empty s : path_dir s ≠ "".
Proof. unfold path_dir. repeat case_match; apply path_clean_not_empty. Qed.

Lemma clean_dir_shorter (l : list ascii) :
  let p := path_clean (of_bytes (l ++ [slash])%list) in p = "/" ∨ p = "." ∨ (String.length p ≤ List.length l)%nat.
Proof.
  unfold path_clean. rewrite bytes_of_bytes. pose proof (dir_comps_size l) as Hd.
  set (r := match (l ++ [slash])%list with [] => false | c :: _ => bool_decide (c = slash) end) in *.
  set (ws := foldl (clean_step r) [] (split_on slash (l ++ [slash])%list)).
  assert (Hws : (comps_size true (reverse ws) ≤ (if r then List.length l else S (List.length l)))%nat).
  { rewrite comps_size_reverse. etrans; [apply clean_steps_size|]. exact Hd. }
  pose proof (join_with_size slash (reverse ws)) as Hj. destruct r; simpl.
  - rewrite <-length_bytes, bytes_of_bytes. destruct (join_with slash (reverse ws)) eqn:E; [by left|].
    right. right. simpl in *. lia.
  - case_decide; [by right; left|]. right. right. rewrite <-length_bytes, bytes_of_bytes. lia.
Qed.

Lemma join_with_snoc c ps w : ps ≠ [] → join_with c (ps ++ [w]) = (join_with c ps ++ c :: w)%list.
Proof.
  induction ps as [|v ps IH]; intros Hne; [done|]. destruct ps as [|x ps]; [done|].
  change (join_with c ((v :: x :: ps) ++ [w])) with (v ++ c :: join_with c ((x :: ps) ++ [w]))%list.
  rewrite IH by done. simpl. by rewrite <-app_assoc.
Qed.

Lemma path_dir_shorter p :
  path_dir p = "/" ∨ path_dir p = "." ∨ (String.length (path_dir p) < String.length p)%nat.
Proof.
  unfold path_dir. destruct (reverse _) as [|w ws] eqn:E; [by right; left|].
  destruct ws as [|u ws]; [by right; left|].
  assert (Hp : bytes p = (join_with slash (reverse (u :: ws)) ++ slash :: w)%list).
  { rewrite <-(join_split slash (bytes p)), <-(reverse_involutive (split_on _ _)), E.
    rewrite reverse_cons. apply join_with_snoc. intros H%(f_equal reverse). by rewrite reverse_involutive in H. }
  destruct (clean_dir_shorter (join_with slash (reverse (u :: ws)))) as [H|[H|H]]; [by left|by right; left|].
  right. right. rewrite <-(length_bytes p), Hp, length_app. simpl. lia.
Qed.

(** The clean relative paths the stores hold: non-empty components, no [.] or [..]. *)
Definition clean_comp (w : list ascii) : bool :=
  negb (bool_decide (w = [])) && negb (bool_decide (w = bytes ".")) && negb (bool_decide (w = bytes "..")).
Definition clean_rel (s : string) : bool := forallb clean_comp (split_on slash (bytes s)).

Example path_clean_ex1 : path_clean "a//b/./c/../d/" = "a/b/d". Proof. vm_compute. reflexivity. Qed.
Example path_clean_ex2 : path_clean "/../a/.." = "/". Proof. vm_compute. reflexivity. Qed.
Example path_clean_ex3 : path_clean "../../x" = "../../x". Proof. vm_compute. reflexivity. Qed.
Example path_dir_ex1 : path_dir "a/b/c.mkv" = "a/b". Proof. vm_compute. reflexivity. Qed.
Example path_dir_ex2 : path_dir "c.mkv" = ".". Proof. vm_compute. reflexivity. Qed.
Example path_dir_ex3 : path_dir "/c" = "/". Proof. vm_compute. reflexivity. Qed.
Example path_join_ex : path_join ["lib"; ""; "a/b"] = "lib/a/b". Proof. vm_compute. reflexivity. Qed.

(** ** Case folding

    [strings.EqualFold] on strings of ASCII letters. The Unicode folding table
    is data of the standard library; the definitions that fold take the
    comparison as an argument and the witnesses use this one. *)
Definition lower (c : ascii) : ascii :=
  if (65 <=? byte_of c) && (byte_of c <=? 90) then chr (byte_of c + 32) else c.
Definition ascii_equal_fold (s t : string) : bool := bool_decide (lower <$> bytes s = lower <$> bytes t).

(** ** Decimal numbers

    [pretty] of stdpp is the [%d] verb and [strconv.FormatInt] in base 10. *)
Lemma digits_value_snoc l c : digits_value (l ++ [c]) = digits_value l * 10 + (byte_of c - 48).
Proof. unfold digits_value. by rewrite foldl_snoc. Qed.

Lemma pretty_N_char_digit n : (n < 10)%N →
  is_digit (pretty_N_char n) = true ∧ byte_of (pretty_N_char n) - 48 = Z.of_N n ∧ (n ≠ 0%N → pretty_N_char n ≠ "0"%char).
Proof.
  intros Hn. assert (Hc : n = 0%N ∨ n = 1%N ∨ n = 2%N ∨ n = 3%N ∨ n = 4%N ∨ n = 5%N ∨ n = 6%N ∨ n = 7%N ∨ n = 8%N ∨ n = 9%N) by lia.
  repeat destruct Hc as [->|Hc]; try (subst n); by vm_compute.
Qed.

Lemma pretty_N_go_digits x : ∀ s, ∃ l, bytes (pretty_N_go x s) = (l ++ bytes s)%list ∧
  forallb is_digit l = true ∧ digits_value l = Z.of_N x ∧ ((0 < x)%N → ∃ c l', l = c :: l' ∧ c ≠ "0"%char).
Proof.
  induction (N.lt_wf_0 x) as [x _ IH]. intros s. destruct (decide (0 < x)%N) as [Hx|Hx].
  - rewrite pretty_N_go_step by done.
    destruct (IH (x `div` 10)%N ltac:(apply N.div_lt; lia) (String (pretty_N_char (x `mod` 10)) s)) as (l & Hl & Hd & Hv & Hne).
    pose proof (N.mod_lt x 10 ltac:(done)) as Hm. destruct (pretty_N_char_digit _ Hm) as (Hcd & Hcv & Hc0).
    pose proof (N.div_mod x 10 ltac:(done)) as Hdm.
    exists (l ++ [pretty_N_char (x `mod` 10)])%list. split_and!.
    + rewrite Hl. simpl. by rewrite <-app_assoc.
    + rewrite forallb_app, Hd. simpl. by rewrite Hcd.
    + rewrite digits_value_snoc, Hv, Hcv. lia.
    + intros _. destruct (decide (0 < x `div` 10)%N) as [Hq|Hq].
      * destruct (Hne Hq) as (c & l' & -> & Hc). by eexists c, _.
      * destruct l as [|c l']; [by eexists _, []; split; [done|]; apply Hc0; lia|].
        exists c, (l' ++ [pretty_N_char (x `mod` 10)])%list. split; [done|]. intros ->.
        exfalso. assert (Hz : (x `div` 10 = 0)%N) by lia. rewrite Hz, pretty_N_go_0 in Hl. simpl in Hl.
        apply (f_equal (@List.length ascii)) in Hl. simpl in Hl. rewrite length_app in Hl. simpl in Hl. lia.
  - assert (x = 0%N) as -> by lia. exists []. rewrite pretty_N_go_0. split_and!; done.
Qed.

Lemma pretty_digits n : 0 < n →
  forallb is_digit (bytes (pretty n)) = true ∧ digits_value (bytes (pretty n)) = n ∧
  ∃ c l, bytes (pretty n) = c :: l ∧ c ≠ "0"%char ∧ is_digit c = true.
Proof.
  intros Hn. destruct n as [|p|p]; [lia| |lia].
  change (pretty (Zpos p)) with (pretty_N_go (Npos p) "").
  destruct (pretty_N_go_digits (Npos p) "") as (l & Hl & Hd & Hv & Hne). rewrite Hl, app_nil_r. simpl in Hv.
  split_and!; [done|done|]. destruct (Hne ltac:(lia)) as (c & l' & -> & Hc). exists c, l'. split_and!; [done|done|].
  by apply andb_true_iff in Hd as [? _].
Qed.

Lemma byte_of_inj c d : byte_of c = byte_of d → c = d.
Proof.
  unfold byte_of. intros H. apply Nat2Z.inj in H. rewrite <-(ascii_nat_embedding c), H. apply ascii_nat_embedding.
Qed.

Lemma digits_value_nonneg l : forallb is_digit l = true → 0 ≤ digits_value l.
Proof.
  induction l as [|c l IH] using rev_ind; [done|]. rewrite forallb_app, digits_value_snoc. simpl.
  intros [Hl Hc%andb_true_iff]%andb_true_iff. destruct Hc as [Hc _]. specialize (IH Hl).
  unfold is_digit in Hc. lia.
Qed.

Lemma digits_value_pos c l : c ≠ "0"%char → forallb is_digit (c :: l) = true → 0 < digits_value (c :: l).
Proof.
  intros Hc. induction l as [|d l IH] using rev_ind; intros Hd.
  - unfold digits_value. cbn [foldl forallb] in *. unfold is_digit in Hd.
    assert (byte_of c ≠ 48) by (intros E; apply Hc, byte_of_inj; by rewrite E). lia.
  - rewrite app_comm_cons, forallb_app in Hd. apply andb_true_iff in Hd as [Hl Hd]. simpl in Hd.
    rewrite app_comm_cons, digits_value_snoc. specialize (IH Hl). unfold is_digit in Hd. lia.
Qed.

(** A number has one decimal form without a leading zero. *)
Lemma digits_value_inj l k :
  head l ≠ Some "0"%char → head k ≠ Some "0"%char → forallb is_digit l = true → forallb is_digit k = true →
  digits_value l = digits_value k → l = k.
Proof.
  revert k. induction l as [|c l IH] using rev_ind; intros k; destruct k as [|d k _] using rev_ind; [done|..].
  - intros _ Hk _ Hd Hv. exfalso. destruct k as [|e k]; simpl in Hk.
    + pose proof (digits_value_pos d [] ltac:(naive_solver) Hd). change (digits_value []) with 0 in Hv. simpl in *. lia.
    + pose proof (digits_value_pos e (k ++ [d]) ltac:(naive_solver) Hd). change (digits_value []) with 0 in Hv. simpl in *. lia.
  - intros Hk _ Hd _ Hv. exfalso. destruct l as [|e l]; simpl in Hk.
    + pose proof (digits_value_pos c [] ltac:(naive_solver) Hd). change (digits_value []) with 0 in Hv. simpl in *. lia.
    + pose proof (digits_value_pos e (l ++ [c]) ltac:(naive_solver) Hd). change (digits_value []) with 0 in Hv. simpl in *. lia.
  - intros Hl Hk Hdl Hdk Hv. rewrite forallb_app in Hdl, Hdk. apply andb_true_iff in Hdl as [Hdl Hc].
    apply andb_true_iff in Hdk as [Hdk Hd]. simpl in Hc, Hd. rewrite !digits_value_snoc in Hv.
    unfold is_digit in Hc, Hd.
    assert (Hcd : byte_of c = byte_of d ∧ digits_value l = digits_value k) by lia. destruct Hcd as [Hcd Hv'].
    apply byte_of_inj in Hcd as ->. f_equal. apply IH; [by destruct l|by destruct k|done|done|done].
Qed.

(** ** Comparison

    [cmp.Compare] on strings: by bytes. *)
Fixpoint bytes_cmp (l k : list ascii) : Z :=
  match l, k with
  | [], [] => 0
  | [], _ :: _ => -1
  | _ :: _, [] => 1
  | c :: l, d :: k => then_cmp (zcmp (byte_of c) (byte_of d)) (bytes_cmp l k)
  end.
Definition str_cmp (s t : string) : Z := bytes_cmp (bytes s) (bytes t).

Lemma then_zcmp a b d : then_cmp (zcmp a b) d ≤ 0 ↔ a < b ∨ (a = b ∧ d ≤ 0).
Proof. unfold then_cmp. pose proof (zcmp_spec a b). destruct (Z.eqb_spec (zcmp a b) 0); lia. Qed.

Lemma bytes_cmp_total l k : bytes_cmp l k ≤ 0 ∨ bytes_cmp k l ≤ 0.
Proof.
  revert k. induction l as [|c l IH]; intros [|d k]; simpl; try lia. rewrite !then_zcmp. specialize (IH k). lia.
Qed.
Lemma bytes_cmp_trans l k m : bytes_cmp l k ≤ 0 → bytes_cmp k m ≤ 0 → bytes_cmp l m ≤ 0.
Proof.
  revert k m. induction l as [|c l IH]; intros [|d k] [|e m]; simpl; try lia. rewrite !then_zcmp.
  intros [|[? H1]] [|[? H2]]; try lia. specialize (IH k m H1 H2). lia.
Qed.
Lemma bytes_cmp_antisym l k : bytes_cmp l k ≤ 0 → bytes_cmp k l ≤ 0 → l = k.
Proof.
  revert k. induction l as [|c l IH]; intros [|d k]; simpl; try lia; [done|]. rewrite !then_zcmp.
  intros [|[H1 H2]] [|[H4 H3]]; try lia. apply byte_of_inj in H1 as ->. f_equal. by apply IH.
Qed.
Definition str_le (s t : string) : Prop := str_cmp s t ≤ 0.
Lemma str_le_antisym s t : str_le s t → str_le t s → s = t.
Proof. intros H1 H2. by apply bytes_inj, bytes_cmp_antisym. Qed.

(** Ordering by an integer key, then by a string key. *)
Lemma lex_str_ordering {A} (f : A → Z) (g : A → string) (cmp : A → A → Z) :
  (∀ a b, cmp a b ≤ 0 ↔ f a < f b ∨ (f a = f b ∧ str_le (g a) (g b))) → Ordering cmp.
Proof.
  intros Hc. split.
  - intros a b. rewrite !Hc. pose proof (bytes_cmp_total (bytes (g a)) (bytes (g b))). unfold str_le, str_cmp. lia.
  - intros a b c. rewrite !Hc. intros [|[? H1]] [|[? H2]]; try (left; lia). right. split; [lia|].
    by eapply bytes_cmp_trans.
Qed.
