(* ===== verification/GoTime.v ===== *)
(** * GoTime: the calendar of Go's [time] package

    What the sources use of [time.Time]: the civil date and time of day of an
    instant in a location, its weekday and ISO week, and [time.Date]. A location
    is the function from an instant (seconds since the epoch) to its offset from
    UTC in seconds. *)
From stdpp Require Import base list.
From S2P Require Import Prelude.
Open Scope Z_scope.

Definition location := Z → Z.
Definition UTC : location := λ _, 0.

Definition sec_per_day : Z := 86400.
Definition unix (t : time) : Z := t / ns_per_sec.

(** The seconds of the wall clock, and its day number (1 January 1970 is day 0). *)
Definition local_seconds (loc : location) (t : time) : Z := unix t + loc (unix t).
Definition local_day (loc : location) (t : time) : Z := local_seconds loc t / sec_per_day.

(** The proleptic Gregorian date of a day number: years are counted from 1 March,
    in eras of 400 years. *)
Record civil := mkCivil { cv_year : Z; cv_month : Z; cv_day : Z }.

Definition civil_of_day (n : Z) : civil :=
  let z := n + 719468 in
  let era := z / 146097 in
  let doe := z mod 146097 in
  let yoe := (doe - doe / 1460 + doe / 36524 - doe / 146096) / 365 in
  let doy := doe - (365 * yoe + yoe / 4 - yoe / 100) in
  let mp := (5 * doy + 2) / 153 in
  let m := if mp <? 10 then mp + 3 else mp - 9 in
  mkCivil (yoe + era * 400 + (if m <=? 2 then 1 else 0)) m (doy - (153 * mp + 2) / 5 + 1).

Definition day_of_civil (y m d : Z) : Z :=
  let y := if m <=? 2 then y - 1 else y in
  let era := y / 400 in
  let yoe := y mod 400 in
  let doy := (153 * (if 2 <? m then m - 3 else m + 9) + 2) / 5 + d - 1 in
  let doe := yoe * 365 + yoe / 4 - yoe / 100 + doy in
  era * 146097 + doe - 719468.

(** Sunday is 0 ([time.Weekday]). *)
Definition weekday_of_day (n : Z) : Z := (n + 4) mod 7.
Definition Weekday (loc : location) (t : time) : Z := weekday_of_day (local_day loc t).

Definition Date (loc : location) (t : time) : civil := civil_of_day (local_day loc t).

(** [ISOWeek]: the week of the Thursday of the same week. *)
Definition iso_week_of_day (n : Z) : Z * Z :=
  let d := 4 - weekday_of_day n in
  let d := if d =? 4 then -3 else d in
  let thursday := n + d in
  let y := cv_year (civil_of_day thursday) in
  (y, (thursday - day_of_civil y 1 1) / 7 + 1).
Definition ISOWeek (loc : location) (t : time) : Z * Z := iso_week_of_day (local_day loc t).

(** Minutes since local midnight. *)
Definition minute_of_day (loc : location) (t : time) : Z := local_seconds loc t mod sec_per_day / 60.

(** ** The calendar is a bijection *)
Lemma yoe_bounds doe : 0 ≤ doe < 146097 →
  let yoe := (doe - doe / 1460 + doe / 36524 - doe / 146096) / 365 in
  0 ≤ yoe ≤ 399 ∧ 0 ≤ doe - (365 * yoe + yoe / 4 - yoe / 100) ≤ 365.
Proof.
  intros H yoe. subst yoe.
  assert (Hc : (doe / 146096 = 0 /\ doe < 146096) \/ (doe / 146096 = 1 /\ doe = 146096)) by (destruct (decide (doe < 146096)); [left; split; [apply Z.div_small; lia|done]|right; assert (doe = 146096) as -> by lia; done]).
  destruct Hc as [[-> Hc]|[_ ->]]; [|repeat split; vm_compute; congruence].
  pose proof (Z.div_mod doe 36524 ltac:(lia)). pose proof (Z.mod_pos_bound doe 36524 ltac:(lia)).
  set (c := doe / 36524) in *. set (r := doe mod 36524) in *.
  pose proof (Z.div_mod doe 1460 ltac:(lia)). pose proof (Z.mod_pos_bound doe 1460 ltac:(lia)).
  set (q := doe / 1460) in *. set (s := doe mod 1460) in *. clearbody q s r c.
  set (x := doe - q + c - 0).
  pose proof (Z.div_mod x 365 ltac:(lia)). pose proof (Z.mod_pos_bound x 365 ltac:(lia)).
  set (y := x / 365) in *. set (u := x mod 365) in *. clearbody y u. subst x.
  pose proof (Z.div_mod y 4 ltac:(lia)). pose proof (Z.mod_pos_bound y 4 ltac:(lia)).
  set (y4 := y / 4) in *. set (m4 := y mod 4) in *.
  pose proof (Z.div_mod y 100 ltac:(lia)). pose proof (Z.mod_pos_bound y 100 ltac:(lia)).
  set (y1 := y / 100) in *. set (m1 := y mod 100) in *. clearbody y4 m4 y1 m1.
  assert (0 <= y <= 399) by lia. split; [lia|].
  assert (Hc' : c = 0 \/ c = 1 \/ c = 2 \/ c = 3) by lia.
  assert (Hc'' : y1 = 0 \/ y1 = 1 \/ y1 = 2 \/ y1 = 3) by lia.
  destruct Hc' as [->|[->|[->| ->]]]; destruct Hc'' as [->|[->|[->| ->]]]; try lia.
Qed.

(** A day number is the number of its date, and days are counted on through the end
    of a month. *)
Lemma day_of_civil_shift y m d k : day_of_civil y m (d + k) = day_of_civil y m d + k.
Proof. unfold day_of_civil. lia. Qed.

Lemma day_of_civil_of_day n : let c := civil_of_day n in day_of_civil (cv_year c) (cv_month c) (cv_day c) = n.
Proof.
  cbv zeta. unfold civil_of_day. cbn [cv_year cv_month cv_day].
  set (z := n + 719468). pose proof (Z.div_mod z 146097 ltac:(lia)) as Hz. pose proof (Z.mod_pos_bound z 146097 ltac:(lia)) as Hb.
  set (era := z / 146097) in *. set (doe := z mod 146097) in *. clearbody era doe.
  destruct (yoe_bounds doe Hb) as [Hy Hd].
  set (yoe := (doe - doe / 1460 + doe / 36524 - doe / 146096) / 365) in *. clearbody yoe.
  set (doy := doe - (365 * yoe + yoe / 4 - yoe / 100)) in *.
  pose proof (Z.div_mod (5 * doy + 2) 153 ltac:(lia)) as Hm. pose proof (Z.mod_pos_bound (5 * doy + 2) 153 ltac:(lia)) as Hmb.
  set (mp := (5 * doy + 2) / 153) in *. set (r := (5 * doy + 2) mod 153) in *. clearbody mp r.
  assert (Hmp : 0 ≤ mp ≤ 11) by lia. unfold day_of_civil.
  assert (Hera : (yoe + era * 400) / 400 = era) by (rewrite Z.div_add by lia; rewrite Z.div_small by lia; lia).
  assert (Hyoe : (yoe + era * 400) mod 400 = yoe) by (rewrite Z.mod_add by lia; apply Z.mod_small; lia).
  destruct (Z.ltb_spec mp 10).
  - rewrite (proj2 (Z.leb_gt (mp + 3) 2)), (proj2 (Z.ltb_lt 2 (mp + 3))) by lia.
    rewrite Z.add_0_r, Hera, Hyoe. replace (mp + 3 - 3) with mp by lia. lia.
  - rewrite (proj2 (Z.leb_le (mp - 9) 2)), (proj2 (Z.ltb_ge 2 (mp - 9))) by lia.
    replace (yoe + era * 400 + 1 - 1) with (yoe + era * 400) by lia.
    rewrite Hera, Hyoe. replace (mp - 9 + 9) with mp by lia. lia.
Qed.

(** [time.Date] at the second: the day may lie outside the month. The code looks up
    the offset at the wall clock read as UTC, and again at the instant this gives
    (the same lookup when that instant is in the same period of the zone). *)
Definition at_offset (loc : location) (u : Z) : Z := u - loc (u - loc u).
Definition MakeDate (loc : location) (y m d h mi : Z) : time :=
  at_offset loc (day_of_civil y m d * sec_per_day + h * 3600 + mi * 60) * ns_per_sec.

Example date_epoch : Date UTC 0 = mkCivil 1970 1 1. Proof. vm_compute. reflexivity. Qed.
Example date_leap : civil_of_day (day_of_civil 2024 2 29) = mkCivil 2024 2 29. Proof. vm_compute. reflexivity. Qed.
Example date_old : civil_of_day (day_of_civil 1 1 1) = mkCivil 1 1 1. Proof. vm_compute. reflexivity. Qed.
Example weekday_2026 : weekday_of_day (day_of_civil 2026 7 25) = 6. Proof. vm_compute. reflexivity. Qed.
Example iso_53 : iso_week_of_day (day_of_civil 2021 1 3) = (2020, 53). Proof. vm_compute. reflexivity. Qed.
Example iso_1 : iso_week_of_day (day_of_civil 2024 12 30) = (2025, 1). Proof. vm_compute. reflexivity. Qed.
