(* ===== verification/Tiers.v ===== *)
(** * Tiers: the data of the tier engine

    The types and small functions of [internal/tiers/tiers.go] and [facts.go]:
    tiers ordered by protection, tri-state results, rules, reasons, decisions
    and the facts of a file. *)
From stdpp Require Import base gmap list strings.
From S2P Require Import Prelude GoStrings.
Open Scope string_scope.
Open Scope Z_scope.

(** ** JSON values

    [json.RawMessage] values are modelled by the JSON value they encode. A
    number carries the float64 [json.Unmarshal] decodes its literal to, as the
    pair [(m, e)] meaning [m * 2^e], or [None] when the literal is outside the
    range of float64 (decoding it is an error). *)
#[warnings="-register-all"]
Inductive json :=
| JNull
| JBool (b : bool)
| JStr (s : string)
| JNum (v : option (Z * Z))
| JArr (l : list json)
| JObj (l : list (string * json)).

(** A JSON number literal written in decimal for an integer that float64 holds exactly. *)
Definition jint (n : Z) : json := JNum (Some (n, 0)).

(** ** Tiers *)

Inductive tier :=
| Full
| Manifest
| Skip
| OtherTier (s : string).
#[export] Instance tier_eq_dec : EqDecision tier.
Proof. solve_decision. Defined.

Definition tier_string (t : tier) : string :=
  match t with Full => "full" | Manifest => "manifest" | Skip => "skip" | OtherTier s => s end.

Definition Valid (t : tier) : bool := bool_decide (t = Full) || bool_decide (t = Manifest) || bool_decide (t = Skip).

Definition Protection (t : tier) : Z :=
  match t with
  | Full => 3
  | Manifest => 2
  | Skip => 1
  | OtherTier _ => 0
  end.

Inductive match_mode :=
| MatchAll
| MatchAny
| OtherMatch (s : string).
#[export] Instance match_mode_eq_dec : EqDecision match_mode.
Proof. solve_decision. Defined.

(** ** Tri-state truth values (S14) *)

Inductive Result :=
| RFalse
| RTrue
| RUnknown.
#[export] Instance Result_eq_dec : EqDecision Result.
Proof. solve_decision. Defined.

Definition Not (r : Result) : Result :=
  match r with
  | RTrue => RFalse
  | RFalse => RTrue
  | RUnknown => RUnknown
  end.

Definition resultOf (b : bool) : Result := if b then RTrue else RFalse.

Definition Result_String (r : Result) : string :=
  match r with RTrue => "true" | RFalse => "false" | RUnknown => "unknown" end.

(** [UnmarshalJSON] of a [Result]; [None] is the decoding error. *)
Definition Result_MarshalJSON (r : Result) : json := JStr (Result_String r).
Definition Result_UnmarshalJSON (j : json) : option Result :=
  match j with
  | JStr s =>
      if decide (s = "true") then Some RTrue
      else if decide (s = "false") then Some RFalse
      else if decide (s = "unknown") then Some RUnknown
      else None
  | _ => None
  end.

(** ** Conditions and rules *)

Record Condition := mkCondition {
  c_Field : string;
  c_Op : string;
  (** [None] is the absent value (an empty [RawMessage]) *)
  c_Value : option json;
}.

Record Rule := mkRule {
  r_ID : Z;
  r_Priority : Z;
  r_Name : string;
  r_Enabled : bool;
  r_Match : match_mode;
  r_Conditions : list Condition;
  r_Action : tier;
  (** [None] is nil: every destination *)
  r_DestinationIDs : option (list Z);
}.

Definition AppliesAt (r : Rule) (destID : Z) : bool :=
  match r_DestinationIDs r with
  | None => true
  | Some ids => existsb (Z.eqb destID) ids
  end.

Record RuleInput := mkRuleInput {
  in_ID : Z;
  in_Name : string;
  (** [None]: absent *)
  in_Enabled : option bool;
  (** [OtherMatch ""]: absent *)
  in_Match : match_mode;
  in_Conditions : list Condition;
  in_Action : tier;
  in_DestinationIDs : option (list Z);
}.

Definition enabled (i : RuleInput) : bool :=
  match in_Enabled i with None => true | Some b => b end.

Definition match_of (i : RuleInput) : match_mode :=
  match in_Match i with
  | OtherMatch s => if decide (s = "") then MatchAll else OtherMatch s
  | m => m
  end.

(** ** Facts *)

Record ExternalIDs := mkExternalIDs {
  x_TMDB : Z;
  x_IMDB : string;
  x_TVDB : Z;
  x_TVMaze : Z;
  x_MBID : string;
}.

Record ArrItemFacts := mkArrItemFacts {
  ai_IntegrationID : Z;
  ai_App : string;
  ai_ItemID : Z;
  ai_Kind : string;
  ai_ArrID : Z;
  ai_Title : string;
  ai_Year : Z;
  ai_ExternalIDs : ExternalIDs;
  ai_Tags : list string;
  ai_QualityProfile : string;
  ai_QualityProfileID : Z;
  ai_RootFolder : string;
  ai_Monitored : bool;
  ai_Genres : list string;
  ai_Folder : string;
}.

(** [ArrFacts.State] with the fields that go with it: the loader ([load.go])
    sets [Item] exactly for the state item and [Why] exactly for unknown. *)
Inductive ArrState :=
| ArrItem (it : ArrItemFacts)
| ArrUnmanaged
| ArrUnknown (why : string).

Record ArrFacts := mkArrFacts {
  a_State : ArrState;
  a_IntegrationID : Z;
  a_ByFolder : bool;
  a_FileID : Z;
  a_DateAdded : option time;
  a_Quality : string;
}.

Record PlexFacts := mkPlexFacts {
  px_Known : bool;
  px_Why : string;
  px_IntegrationID : Z;
  px_Section : string;
  px_AddedAt : option time;
}.

Record WatchFacts := mkWatchFacts {
  w_Known : bool;
  w_Why : string;
  w_IntegrationID : Z;
  w_Plays : Z;
  w_LastWatched : option time;
  w_LowerBound : bool;
}.

Record RequestFacts := mkRequestFacts {
  q_Requested : Result;
  q_Why : string;
  q_IntegrationID : Z;
  q_Users : list Z;
}.

Record MaintainerrFacts := mkMaintainerrFacts {
  m_Pending : Result;
  m_Why : string;
  m_IntegrationID : Z;
  m_DeleteAfter : option time;
}.

Record Facts := mkFacts {
  f_FileID : Z;
  f_SourceID : Z;
  f_RelPath : string;
  f_Size : Z;
  f_MtimeNs : Z;
  f_Group : string;
  f_FirstSeenAt : time;
  f_LocalPath : string;
  f_Arr : ArrFacts;
  f_Plex : option PlexFacts;
  f_Watch : option WatchFacts;
  f_Requests : option RequestFacts;
  f_Maintainerr : option MaintainerrFacts;
  f_Flags : list Z;
  f_Follows : string;
}.

(** ** Reasons and decisions *)

Record ReasonSource := mkReasonSource { s_Kind : string; s_IntegrationID : Z }.

(** [Reason.Actual] (an [any]): what the condition compared. *)
Inductive actual :=
| ANone
| ABool (b : bool)
| AInt (n : Z)
| AStr (s : string)
| AStrs (l : list string)
| AInts (l : list Z)
| ATime (t : option time).

Record Reason := mkReason {
  re_RuleID : Z;
  re_ConditionIndex : Z;
  re_Field : string;
  re_Op : string;
  re_Value : option json;
  re_Actual : actual;
  re_Result : Result;
  re_Source : ReasonSource;
  re_Why : string;
}.

Record Decision := mkDecision {
  d_Tier : tier;
  d_RuleID : Z;
  d_RuleName : string;
  d_Reasons : list Reason;
  d_Unknown : list Reason;
  d_UnknownPromoted : bool;
  d_Revision : Z;
  d_Follows : string;
}.

Definition FallbackRuleName : string := "no rule matched".
Definition IrreplaceableRuleName : string := "irreplaceable".

Definition FallbackDecision (revision : Z) : Decision :=
  mkDecision Full 0 FallbackRuleName [] [] false revision "".

(** [UnknownWhy]: the first non-empty [Why] of an unknown reason of the
    decision, then of its unknown conditions. *)
Definition UnknownWhy (d : Decision) : string :=
  match List.find (λ r, bool_decide (re_Result r = RUnknown) && negb (bool_decide (re_Why r = ""))) (d_Reasons d) with
  | Some r => re_Why r
  | None =>
      match List.find (λ r, negb (bool_decide (re_Why r = ""))) (d_Unknown d) with
      | Some r => re_Why r
      | None => "a fact is unknown"
      end
  end.

(** [Summary]; [quote] is the [%q] verb of the standard library's [fmt]. *)
Definition Summary (quote : string → string) (d : Decision) : string :=
  tier_string (d_Tier d) +:+
  (if (d_RuleID d =? 0) && bool_decide (d_RuleName d = IrreplaceableRuleName) then " (irreplaceable)"
   else if d_RuleID d =? 0 then " (" +:+ FallbackRuleName +:+ ")"
   else " (rule " +:+ quote (d_RuleName d) +:+ ")") +:+
  (if d_UnknownPromoted d then "; unknown: " +:+ UnknownWhy d else "") +:+
  (if decide (d_Follows d = "") then "" else "; follows " +:+ d_Follows d).

(** [moreProtective] (evaluate.go): the more protective decision, [a] on a tie. *)
Definition moreProtective (a b : Decision) : Decision :=
  if Protection (d_Tier a) <? Protection (d_Tier b) then b else a.

(** ** Lemmas *)

Lemma Protection_range t : 0 ≤ Protection t ≤ 3.
Proof. destruct t; simpl; lia. Qed.

Lemma Protection_full t : Protection t = 3 ↔ t = Full.
Proof. by destruct t. Qed.

Lemma Protection_valid t : Valid t = true ↔ 0 < Protection t.
Proof. unfold Valid. by destruct t. Qed.

Lemma Not_involutive r : Not (Not r) = r.
Proof. by destruct r. Qed.

Lemma Not_unknown r : Not r = RUnknown ↔ r = RUnknown.
Proof. by destruct r. Qed.

Lemma resultOf_true b : resultOf b = RTrue ↔ b = true.
Proof. by destruct b. Qed.

Lemma resultOf_not_unknown b : resultOf b ≠ RUnknown.
Proof. by destruct b. Qed.

#[export] Hint Resolve resultOf_not_unknown Protection_range : bunkarr.
