(* ===== verification/TierRules.v ===== *)
(** * TierRules: condition fields, validation and compilation of tier rules

    [internal/tiers/fields.go]: the table of fields, [compileCondition] (which
    validates one condition and decodes its value), [normalizeInput],
    [Validate], [compile] and [draftRules]. The text of a [ValidationError] is
    one constructor of [verr] per message. *)
From stdpp Require Import base gmap list strings pretty.
From Stdlib Require Import Ascii.
From S2P Require Import Prelude GoStrings Tiers.
Open Scope string_scope.
Open Scope Z_scope.

(** ** Fields and operators *)

Definition FieldArrManaged := "arr.managed".
Definition FieldArrTag := "arr.tag".
Definition FieldArrQualityProfile := "arr.qualityProfile".
Definition FieldArrRootFolder := "arr.rootFolder".
Definition FieldArrMonitored := "arr.monitored".
Definition FieldPlexSection := "plex.section".
Definition FieldSource := "source".
Definition FieldFileSize := "file.size".
Definition FieldFileAge := "file.age".
Definition FieldMediaGenre := "media.genre".
Definition FieldSeerrRequested := "seerr.requested".
Definition FieldSeerrRequestedBy := "seerr.requestedBy".
Definition FieldTautulliPlayCount := "tautulli.playCount".
Definition FieldTautulliLastWatch := "tautulli.lastWatched".
Definition FieldMaintainerrPending := "maintainerr.pendingDelete".
Definition FieldFlagIrreplaceable := "flag.irreplaceable".

Definition OpIs := "is".
Definition OpIsNot := "isNot".
Definition OpHas := "has".
Definition OpHasNot := "hasNot".
Definition OpGt := "gt".
Definition OpGte := "gte".
Definition OpLt := "lt".
Definition OpLte := "lte".
Definition OpEq := "eq".
Definition OpOlderThan := "olderThan".
Definition OpNewerThan := "newerThan".
Definition OpNever := "never".
Definition OpIn := "in".
Definition OpNotIn := "notIn".

Inductive ValueType := ValueBool | ValueString | ValueInt | ValueInts.

Definition SourceCatalog := "catalog".
Definition SourceArr := "arr".
Definition SourcePlex := "plex".
Definition SourceTautulli := "tautulli".
Definition SourceSeerr := "seerr".
Definition SourceMaintainerr := "maintainerr".
Definition SourceFlag := "flag".

Record FieldSpec := mkFieldSpec {
  fs_Field : string;
  fs_Label : string;
  fs_Ops : list string;
  fs_ValueType : ValueType;
  fs_NoValueOps : list string;
  fs_Unit : string;
  fs_Source : string;
  fs_provided : bool;
}.

Definition fieldSpecs : list FieldSpec := [
  mkFieldSpec FieldArrTag "*arr tag" [OpHas; OpHasNot] ValueString [] "" SourceArr false;
  mkFieldSpec FieldArrQualityProfile "*arr quality profile" [OpIs; OpIsNot] ValueString [] "" SourceArr false;
  mkFieldSpec FieldArrRootFolder "*arr root folder" [OpIs; OpIsNot] ValueString [] "" SourceArr false;
  mkFieldSpec FieldArrMonitored "Monitored in the *arr" [OpIs] ValueBool [] "" SourceArr false;
  mkFieldSpec FieldArrManaged "Managed by an *arr" [OpIs] ValueBool [] "" SourceArr false;
  mkFieldSpec FieldMediaGenre "Genre" [OpHas; OpHasNot] ValueString [] "" SourceArr false;
  mkFieldSpec FieldSource "Source" [OpIs; OpIsNot] ValueInt [] "" SourceCatalog false;
  mkFieldSpec FieldFileSize "File size" [OpGt; OpGte; OpLt; OpLte] ValueInt [] "bytes" SourceCatalog false;
  mkFieldSpec FieldFileAge "Added" [OpOlderThan; OpNewerThan] ValueInt [] "days" SourceCatalog false;
  mkFieldSpec FieldPlexSection "Plex library" [OpIs; OpIsNot] ValueString [] "" SourcePlex false;
  mkFieldSpec FieldSeerrRequested "Requested in Seerr" [OpIs] ValueBool [] "" SourceSeerr true;
  mkFieldSpec FieldSeerrRequestedBy "Requested by (Seerr)" [OpIn; OpNotIn] ValueInts [] "" SourceSeerr true;
  mkFieldSpec FieldTautulliPlayCount "Play count (Tautulli)" [OpGt; OpGte; OpLt; OpLte; OpEq] ValueInt [] "plays" SourceTautulli true;
  mkFieldSpec FieldTautulliLastWatch "Last watched (Tautulli)" [OpOlderThan; OpNewerThan; OpNever] ValueInt [OpNever] "days" SourceTautulli true;
  mkFieldSpec FieldMaintainerrPending "Pending deletion in Maintainerr" [OpIs] ValueBool [] "" SourceMaintainerr true;
  mkFieldSpec FieldFlagIrreplaceable "Flagged irreplaceable" [OpIs] ValueBool [] "" SourceFlag false ].

(** [specOf]: [None] is the zero spec with [false]. *)
Definition specOf (field : string) : option FieldSpec :=
  List.find (λ s, bool_decide (fs_Field s = field)) fieldSpecs.

(** ** Errors *)

Inductive verr :=
| UnknownField (field : string)
| UnsupportedOp (field op : string) (ops : list string)
| TakesNoValue (field op : string)
| NeedsValue (field op : string)
| WrongValue (field want : string)
| NeedsName
| NameTooLong
| BadMatch (m : match_mode)
| BadAction (t : tier)
| TooManyConditions
| BadDestination (id : Z)
| BadRuleID (id : Z)
| TooManyRules
| RepeatedRuleID (id : Z).

Record ValidationError := mkValidationError {
  ve_RuleIndex : Z;
  ve_ConditionIndex : Z;
  ve_Msg : verr;
}.

(** ** Decoded conditions *)

Record cond := mkCond {
  co_Condition : Condition;
  co_b : bool;
  co_s : string;
  co_n : Z;
  co_ints : list Z;
}.

Definition co_Field (c : cond) := c_Field (co_Condition c).
Definition co_Op (c : cond) := c_Op (co_Condition c).
Definition co_Value (c : cond) := c_Value (co_Condition c).

(** [maxInt] is [math.MaxInt64 / 2] as the float64 constant it is compared as. *)
Definition maxInt : Z := 2^62.
Definition MaxRules : Z := 100.
Definition MaxConditions : Z := 32.
Definition MaxNameLen : Z := 100.

(** The integer a float64 [m * 2^e] equals, when [f = math.Trunc(f)]. *)
Definition float_int (v : Z * Z) : option Z :=
  let '(m, e) := v in
  if 0 <=? e then Some (m * 2^e)
  else if m mod 2^(-e) =? 0 then Some (m / 2^(-e)) else None.

(** [json.Unmarshal] into a [[]float64]: a null element leaves 0. *)
Fixpoint unmarshal_floats (l : list json) : option (list (Z * Z)) :=
  match l with
  | [] => Some []
  | JNum (Some f) :: l => cons f <$> unmarshal_floats l
  | JNull :: l => cons (0, 0) <$> unmarshal_floats l
  | _ :: _ => None
  end.

(** [trimSlash]: drops trailing slashes while more than one byte is left; on the
    reversed bytes. *)
Fixpoint drop_slashes (r : list ascii) : list ascii :=
  match r with
  | c :: r' => match r' with
               | [] => r
               | _ :: _ => if decide (c = slash) then drop_slashes r' else r
               end
  | [] => []
  end.
Definition trimSlash (p : string) : string := of_bytes (reverse (drop_slashes (reverse (bytes p)))).

(** The value of a non-empty run of decimal digits that int64 holds. *)
Definition parse_digits (l : list ascii) : option Z :=
  if bool_decide (l = []) || negb (forallb is_digit l) then None
  else let n := digits_value l in if n <=? max_i64 then Some n else None.

(** [parseSection] splits ["<plexIntegrationId>:<sectionKey>"]. [fmt.Sscanf]
    accepts more texts for the number than [fmt.Sprint] prints; the comparison
    with the printed number leaves the canonical ones. *)
Fixpoint split_colon (l : list ascii) : option (list ascii * list ascii) :=
  match l with
  | [] => None
  | c :: l => if decide (c = ":"%char) then Some ([], l)
              else match split_colon l with Some (a, b) => Some (c :: a, b) | None => None end
  end.

Definition parseSection (s : string) : option (Z * string) :=
  match split_colon (bytes s) with
  | None | Some ([], _) | Some (_, []) => None
  | Some (a, b) =>
      match parse_digits a with
      | None => None
      | Some pid =>
          if (pid <? 1) || negb (bool_decide (pretty pid = of_bytes a)) then None
          else
            let key := trim_space (of_bytes b) in
            if bool_decide (key = "") || has_byte slash key || has_byte (chr 0) key || (64 <? slen key)
            then None else Some (pid, key)
      end
  end.

Definition printSection (pid : Z) (key : string) : string := pretty pid +:+ ":" +:+ key.

(** The distinct elements of a list in order of first appearance (the
    [slices.Contains] loop). *)
Definition dedup (l : list Z) : list Z :=
  foldl (λ acc x, if mem x acc then acc else (acc ++ [x])%list) [] l.

(** [canonicalValue] re-encodes a decoded value. *)
Definition canonicalValue (t : ValueType) (c : cond) : json :=
  match t with
  | ValueBool => JBool (co_b c)
  | ValueString => JStr (co_s c)
  | ValueInt => jint (co_n c)
  | ValueInts => JArr (jint <$> co_ints c)
  end.

Definition pos_id (v : Z * Z) : option Z :=
  match float_int v with
  | Some n => if (n <? 1) || (maxInt <? n) then None else Some n
  | None => None
  end.

(** The decoding of a value by its type ([switch spec.ValueType]); [None] is the
    error [wrong]. *)
Definition decodeValue (field : string) (t : ValueType) (raw : json) (out : cond) : result string cond :=
  match t with
  | ValueBool =>
      match raw with
      | JBool b => Ok (mkCond (co_Condition out) b (co_s out) (co_n out) (co_ints out))
      | _ => Err "true or false"
      end
  | ValueString =>
      match raw with
      | JStr s0 =>
          let s := trim_space s0 in
          if bool_decide (s = "") || (1024 <? rune_count s)
          then Err "a non-empty string of at most 1024 characters"
          else
            let? s := (if bool_decide (field = FieldPlexSection) then
                         match parseSection s with
                         | Some (pid, key) => Ok (printSection pid key)
                         | None => Err "<plexIntegrationId>:<sectionKey>, e.g. 1:2"
                         end
                       else Ok s) in
            let s := if bool_decide (field = FieldArrRootFolder) then trimSlash s else s in
            Ok (mkCond (co_Condition out) (co_b out) s (co_n out) (co_ints out))
      | _ => Err "a string"
      end
  | ValueInt =>
      match raw with
      | JNum (Some v) =>
          match float_int v with
          | Some n =>
              if (n <? 0) || (maxInt <? n) then Err "a whole number of at least 0"
              else if bool_decide (field = FieldSource) && (n <? 1) then Err "a source id"
              else Ok (mkCond (co_Condition out) (co_b out) (co_s out) n (co_ints out))
          | None => Err "a whole number of at least 0"
          end
      | _ => Err "a whole number of at least 0"
      end
  | ValueInts =>
      match raw with
      | JArr l =>
          match unmarshal_floats l with
          | Some fs =>
              if (Z.of_nat (length fs) =? 0) || (1000 <? Z.of_nat (length fs))
              then Err "a list of 1 to 1000 ids"
              else match mapM pos_id fs with
                   | Some ns => Ok (mkCond (co_Condition out) (co_b out) (co_s out) (co_n out) (isort zcmp (dedup ns)))
                   | None => Err "a list of positive ids"
                   end
          | None => Err "a list of 1 to 1000 ids"
          end
      | _ => Err "a list of 1 to 1000 ids"
      end
  end.

Definition is_null (v : option json) : bool :=
  match v with None | Some JNull => true | _ => false end.

Definition with_value (c : cond) (v : option json) : cond :=
  mkCond (mkCondition (co_Field c) (co_Op c) v) (co_b c) (co_s c) (co_n c) (co_ints c).

Definition compileCondition (c : Condition) (rule index : Z) : result ValidationError cond :=
  let invalid e := Err (mkValidationError rule index e) in
  let out := mkCond c false "" 0 [] in
  match specOf (c_Field c) with
  | None => invalid (UnknownField (c_Field c))
  | Some spec =>
      if negb (mem (c_Op c) (fs_Ops spec)) then invalid (UnsupportedOp (c_Field c) (c_Op c) (fs_Ops spec))
      else if mem (c_Op c) (fs_NoValueOps spec) then
        if negb (is_null (c_Value c)) then invalid (TakesNoValue (c_Field c) (c_Op c))
        else Ok (with_value out None)
      else match c_Value c with
      | None | Some JNull => invalid (NeedsValue (c_Field c) (c_Op c))
      | Some raw =>
          match decodeValue (c_Field c) (fs_ValueType spec) raw out with
          | Err want => invalid (WrongValue (c_Field c) want)
          | Ok out => Ok (with_value out (Some (canonicalValue (fs_ValueType spec) out)))
          end
      end
  end.

(** ** Rules *)

Record compiledRule := mkCompiledRule { cr_Rule : Rule; cr_conds : list cond }.

Fixpoint compileConditions (cs : list Condition) (i j : Z) : result ValidationError (list cond) :=
  match cs with
  | [] => Ok []
  | c :: cs => let? cc := compileCondition c i j in let? r := compileConditions cs i (j + 1) in Ok (cc :: r)
  end.

Definition normalizeDestinations (i : Z) (ids : option (list Z)) : result ValidationError (option (list Z)) :=
  match ids with
  | None => Ok None
  | Some ids =>
      match List.find (λ id, id <? 1) ids with
      | Some id => Err (mkValidationError i (-1) (BadDestination id))
      | None => Ok (Some (isort zcmp (dedup ids)))
      end
  end.

Definition normalizeInput (inp : RuleInput) (i : Z) : result ValidationError (RuleInput * list cond) :=
  let invalid e := mkValidationError i (-1) e in
  let name := trim_space (in_Name inp) in
  guard? negb (bool_decide (name = "")) else invalid NeedsName;
  guard? rune_count name <=? MaxNameLen else invalid NameTooLong;
  let m := match_of inp in
  guard? bool_decide (m = MatchAll) || bool_decide (m = MatchAny) else invalid (BadMatch m);
  guard? Valid (in_Action inp) else invalid (BadAction (in_Action inp));
  guard? Z.of_nat (length (in_Conditions inp)) <=? MaxConditions else invalid TooManyConditions;
  let? conds := compileConditions (in_Conditions inp) i 0 in
  let? ids := normalizeDestinations i (in_DestinationIDs inp) in
  guard? 0 <=? in_ID inp else invalid (BadRuleID (in_ID inp));
  Ok (mkRuleInput (in_ID inp) name (in_Enabled inp) m (co_Condition <$> conds) (in_Action inp) ids, conds).

(** The loop of [Validate] from position [i] with the ids seen so far. *)
Fixpoint validateFrom (rules : list RuleInput) (i : Z) (seen : gset Z) : result ValidationError (list RuleInput) :=
  match rules with
  | [] => Ok []
  | inp :: rules =>
      let? (n, _) := normalizeInput inp i in
      guard? (in_ID n =? 0) || bool_decide (in_ID n ∉ seen) else mkValidationError i (-1) (RepeatedRuleID (in_ID n));
      let seen := if in_ID n =? 0 then seen else {[in_ID n]} ∪ seen in
      let? out := validateFrom rules (i + 1) seen in
      Ok (n :: out)
  end.

Definition Validate (rules : list RuleInput) : result ValidationError (list RuleInput) :=
  guard? Z.of_nat (length rules) <=? MaxRules else mkValidationError (-1) (-1) TooManyRules;
  validateFrom rules 0 ∅.

(** [compile]: a stored condition that no longer validates evaluates unknown. *)
Definition compileStored (i j : Z) (c : Condition) : cond :=
  match compileCondition c i j with
  | Ok cc => cc
  | Err _ => mkCond (mkCondition (c_Field c) "invalid" (c_Value c)) false "" 0 []
  end.
Definition compile (rules : list Rule) : list compiledRule :=
  imap (λ i r, mkCompiledRule r (imap (λ j c, compileStored (Z.of_nat i) (Z.of_nat j) c) (r_Conditions r))) rules.

Definition draftRules (ins : list RuleInput) : list Rule :=
  imap (λ i r,
    let id := if in_ID r =? 0 then - (Z.of_nat i + 1) else in_ID r in
    mkRule id (Z.of_nat i + 1) (in_Name r) (enabled r) (match_of r) (in_Conditions r) (in_Action r) (in_DestinationIDs r)) ins.
