(* ===== verification/TierEval.v ===== *)
(** * TierEval: the tier evaluator

    [internal/tiers/evaluate.go]. The evaluator is pure, as in the source: the
    rules, the revision and the time are fixed, and [Decide] reads nothing but
    its arguments. [equal_fold] is [strings.EqualFold] (its case-folding table is
    data of the standard library); the theorems hold for every such function. *)
From stdpp Require Import base gmap list strings pretty.
From S2P Require Import Prelude GoStrings Tiers TierRules.
Open Scope string_scope.
Open Scope Z_scope.

Record Evaluator := mkEvaluator {
  e_rules : list compiledRule;
  e_revision : Z;
  e_now : time;
}.

Definition NewEvaluator (rules : list Rule) (revision : Z) (now : time) : Evaluator :=
  mkEvaluator (compile (List.filter r_Enabled rules)) revision now.

Definition Applies (e : Evaluator) (destID : Z) : bool :=
  existsb (λ r, AppliesAt (cr_Rule r) destID) (e_rules e).

Section evaluator.
Context (equal_fold : string → string → bool).

(** ** Reasons *)

Definition set_result (r : Reason) (act : actual) (res : Result) : Reason :=
  mkReason (re_RuleID r) (re_ConditionIndex r) (re_Field r) (re_Op r) (re_Value r) act res (re_Source r) (re_Why r).
Definition set_source (r : Reason) (kind : string) (id : Z) : Reason :=
  mkReason (re_RuleID r) (re_ConditionIndex r) (re_Field r) (re_Op r) (re_Value r) (re_Actual r) (re_Result r)
    (mkReasonSource kind id) (re_Why r).
Definition set_integration (r : Reason) (id : Z) : Reason := set_source r (s_Kind (re_Source r)) id.

Definition unknownOf (r : Reason) (why : string) : Reason :=
  mkReason (re_RuleID r) (re_ConditionIndex r) (re_Field r) (re_Op r) (re_Value r) (re_Actual r) RUnknown (re_Source r) why.

Definition negated (op : string) (res : Result) : Result :=
  if bool_decide (op = OpIsNot) || bool_decide (op = OpHasNot) || bool_decide (op = OpNotIn) then Not res else res.

Definition containsFold (l : list string) (s : string) : bool := existsb (λ x, equal_fold x s) l.

Definition isf (c : cond) (f : string) : bool := bool_decide (co_Field c = f).
Definition iso (c : cond) (op : string) : bool := bool_decide (co_Op c = op).

(** ** *arr facts *)

Definition evalArr (c : cond) (f : Facts) (r : Reason) : Reason :=
  let a := f_Arr f in
  let r := set_integration r (a_IntegrationID a) in
  if isf c FieldArrManaged then
    match a_State a with
    | ArrItem _ => set_result r (ABool true) (resultOf (co_b c))
    | ArrUnmanaged => set_result r (ABool false) (resultOf (negb (co_b c)))
    | ArrUnknown why => unknownOf r why
    end
  else
    match a_State a with
    | ArrUnknown why => unknownOf r why
    | ArrUnmanaged =>
        if isf c FieldMediaGenre then unknownOf r "no *arr item holds this file"
        else set_result r (AStr "unmanaged") (negated (co_Op c) RFalse)
    | ArrItem it =>
        if isf c FieldArrTag then
          set_result r (AStrs (ai_Tags it)) (negated (co_Op c) (resultOf (containsFold (ai_Tags it) (co_s c))))
        else if isf c FieldArrQualityProfile then
          if bool_decide (ai_QualityProfile it = "") then
            unknownOf (set_result r (AInt (ai_QualityProfileID it)) (re_Result r))
              ("quality profile #" +:+ pretty (ai_QualityProfileID it) +:+ " is not in the " +:+ ai_App it +:+ " index")
          else set_result r (AStr (ai_QualityProfile it))
                 (negated (co_Op c) (resultOf (equal_fold (ai_QualityProfile it) (co_s c))))
        else if isf c FieldArrRootFolder then
          set_result r (AStr (ai_RootFolder it))
            (negated (co_Op c) (resultOf (bool_decide (trimSlash (ai_RootFolder it) = co_s c))))
        else if isf c FieldArrMonitored then
          set_result r (ABool (ai_Monitored it)) (negated (co_Op c) (resultOf (Bool.eqb (ai_Monitored it) (co_b c))))
        else if isf c FieldMediaGenre then
          set_result r (AStrs (ai_Genres it)) (negated (co_Op c) (resultOf (containsFold (ai_Genres it) (co_s c))))
        else set_result r (re_Actual r) (negated (co_Op c) RFalse)
    end.

(** ** Catalog facts *)

Definition addedAt (f : Facts) : time :=
  match a_DateAdded (f_Arr f) with
  | Some t => t
  | None =>
      match f_Plex f with
      | Some p => match px_Known p, px_AddedAt p with
                  | true, Some t => t
                  | _, _ => f_FirstSeenAt f
                  end
      | None => f_FirstSeenAt f
      end
  end.

Definition compareInt (op : string) (got want : Z) : Result :=
  if decide (op = OpGt) then resultOf (want <? got)
  else if decide (op = OpGte) then resultOf (want <=? got)
  else if decide (op = OpLt) then resultOf (got <? want)
  else if decide (op = OpLte) then resultOf (got <=? want)
  else if decide (op = OpEq) then resultOf (got =? want)
  else RUnknown.

(** [time.Duration(n) * 24 * time.Hour]: two int64 products. *)
Definition days (n : Z) : duration := i64 (i64 (n * 24) * ns_per_hour).

Definition evalCatalog (now : time) (c : cond) (f : Facts) (r : Reason) : Reason :=
  let '(act, res) :=
    if isf c FieldSource then (AInt (f_SourceID f), resultOf (f_SourceID f =? co_n c))
    else if isf c FieldFileSize then (AInt (f_Size f), compareInt (co_Op c) (f_Size f) (co_n c))
    else if isf c FieldFileAge then
      let added := addedAt f in
      let age := dsub now added in
      let limit := days (co_n c) in
      (ATime (Some added), resultOf (if iso c OpOlderThan then limit <? age else age <? limit))
    else (re_Actual r, RFalse) in
  set_result r act (negated (co_Op c) res).

(** ** Provider facts *)

Definition evalPlex (c : cond) (f : Facts) (r : Reason) : Reason :=
  match f_Plex f with
  | None => unknownOf r "the file's Plex library is not known: set the source's Plex library"
  | Some p =>
      let r := set_integration r (px_IntegrationID p) in
      if negb (px_Known p) then unknownOf r (px_Why p)
      else set_result r (AStr (px_Section p)) (negated (co_Op c) (resultOf (bool_decide (px_Section p = co_s c))))
  end.

Definition notProvided (app : string) : string := "Bunkarr does not read " +:+ app +:+ " facts yet".

Definition evalSeerr (c : cond) (f : Facts) (r : Reason) : Reason :=
  match f_Requests f with
  | None => unknownOf r (notProvided "Seerr")
  | Some q =>
      let r := set_integration r (q_IntegrationID q) in
      let req := bool_decide (q_Requested q = RTrue) in
      if bool_decide (q_Requested q = RUnknown) then unknownOf r (q_Why q)
      else if isf c FieldSeerrRequested then set_result r (ABool req) (resultOf (Bool.eqb req (co_b c)))
      else if isf c FieldSeerrRequestedBy then
        set_result r (AInts (q_Users q))
          (negated (co_Op c) (resultOf (req && existsb (λ u, mem u (co_ints c)) (q_Users q))))
      else r
  end.

Definition lowerBound : string :=
  "play history is turned off for a user or this library, so the count is only a lower bound".

Definition evalTautulli (now : time) (c : cond) (f : Facts) (r : Reason) : Reason :=
  match f_Watch f with
  | None => unknownOf r (notProvided "Tautulli")
  | Some w =>
      let r := set_integration r (w_IntegrationID w) in
      if negb (w_Known w) then unknownOf r (w_Why w)
      else if isf c FieldTautulliPlayCount then
        let res := compareInt (co_Op c) (w_Plays w) (co_n c) in
        let r := set_result r (AInt (w_Plays w)) (re_Result r) in
        if w_LowerBound w && (iso c OpLt || iso c OpLte || iso c OpEq || negb (bool_decide (res = RTrue)))
        then unknownOf r lowerBound
        else set_result r (AInt (w_Plays w)) res
      else
        let act := ATime (w_LastWatched w) in
        let r := set_result r act (re_Result r) in
        let limit := days (co_n c) in
        if w_LowerBound w then
          match w_LastWatched w with
          | Some t => if iso c OpNewerThan && (dsub now t <? limit) then set_result r act RTrue else unknownOf r lowerBound
          | None => unknownOf r lowerBound
          end
        else
          match w_LastWatched w with
          | None =>
              if w_Plays w =? 0 then set_result r act (resultOf (negb (iso c OpNewerThan)))
              else if iso c OpNever then set_result r act RFalse
              else unknownOf r "Tautulli counts plays of this file but has no date for them"
          | Some t =>
              if iso c OpNever then set_result r act RFalse
              else if iso c OpOlderThan then set_result r act (resultOf (limit <? dsub now t))
              else set_result r act (resultOf (dsub now t <? limit))
          end
  end.

Definition evalMaintainerr (c : cond) (f : Facts) (r : Reason) : Reason :=
  match f_Maintainerr f with
  | None => unknownOf r (notProvided "Maintainerr")
  | Some m =>
      let r := set_integration r (m_IntegrationID m) in
      let pending := bool_decide (m_Pending m = RTrue) in
      if bool_decide (m_Pending m = RUnknown) then unknownOf r (m_Why m)
      else
        let act := match m_DeleteAfter m with Some t => ATime (Some t) | None => ABool pending end in
        set_result r act (resultOf (Bool.eqb pending (co_b c)))
  end.

(** ** Conditions and rules *)

Definition evalCondition (now : time) (c : cond) (f : Facts) : Reason :=
  let kind := match specOf (co_Field c) with Some s => fs_Source s | None => "" end in
  let r := mkReason 0 0 (co_Field c) (co_Op c) (co_Value c) ANone RFalse (mkReasonSource kind 0) "" in
  if iso c "invalid" then unknownOf r "the condition is not valid in this version of Bunkarr"
  else if decide (kind = SourceArr) then evalArr c f r
  else if decide (kind = SourceCatalog) then evalCatalog now c f r
  else if decide (kind = SourcePlex) then evalPlex c f r
  else if decide (kind = SourceSeerr) then evalSeerr c f r
  else if decide (kind = SourceTautulli) then evalTautulli now c f r
  else if decide (kind = SourceMaintainerr) then evalMaintainerr c f r
  else if decide (kind = SourceFlag) then
    set_result r (AInts (f_Flags f)) (resultOf (Bool.eqb (negb (bool_decide (f_Flags f = []))) (co_b c)))
  else unknownOf r "unknown field".

Definition at_rule (id : Z) (i : nat) (r : Reason) : Reason :=
  mkReason id (Z.of_nat i) (re_Field r) (re_Op r) (re_Value r) (re_Actual r) (re_Result r) (re_Source r) (re_Why r).

Definition count_result (res : Result) (rs : list Reason) : Z :=
  Z.of_nat (length (List.filter (λ r, bool_decide (re_Result r = res)) rs)).

Definition combine (m : match_mode) (trues falses n : Z) : Result :=
  if decide (m = MatchAny) then
    if 0 <? trues then RTrue else if falses =? n then RFalse else RUnknown
  else
    if 0 <? falses then RFalse else if trues =? n then RTrue else RUnknown.

Definition evalRule (now : time) (r : compiledRule) (f : Facts) : Result * list Reason :=
  match cr_conds r with
  | [] => (RTrue, [])
  | cs =>
      let reasons := imap (λ i c, at_rule (r_ID (cr_Rule r)) i (evalCondition now c f)) cs in
      (combine (r_Match (cr_Rule r)) (count_result RTrue reasons) (count_result RFalse reasons) (Z.of_nat (length cs)),
       reasons)
  end.

Definition filterReasons (rs : list Reason) (want : Result) : list Reason :=
  List.filter (λ r, bool_decide (re_Result r = want)) rs.

(** ** Decide *)

Definition irreplaceableDecision (revision : Z) (f : Facts) : Decision :=
  mkDecision Full 0 IrreplaceableRuleName
    [mkReason 0 (-1) FieldFlagIrreplaceable OpIs (Some (JBool true)) (AInts (f_Flags f)) RTrue (mkReasonSource SourceFlag 0) ""]
    [] false revision "".

(** The loop over the rules; [promo] is the most protective unknown rule so far
    with its unknown reasons, [unknown] the unknown reasons so far. *)
Fixpoint decideRules (e : Evaluator) (destID : Z) (f : Facts) (rs : list compiledRule)
    (promo : option (Rule * list Reason)) (unknown : list Reason) : Decision :=
  match rs with
  | [] => mkDecision Full 0 FallbackRuleName [] unknown false (e_revision e) ""
  | r :: rs =>
      if negb (AppliesAt (cr_Rule r) destID) then decideRules e destID f rs promo unknown
      else
        let '(res, reasons) := evalRule (e_now e) r f in
        match res with
        | RTrue =>
            let plain := mkDecision (r_Action (cr_Rule r)) (r_ID (cr_Rule r)) (r_Name (cr_Rule r))
                           (filterReasons reasons RTrue) unknown false (e_revision e) "" in
            match promo with
            | Some (p, preasons) =>
                if Protection (r_Action (cr_Rule r)) <? Protection (r_Action p)
                then mkDecision (r_Action p) (r_ID p) (r_Name p) preasons unknown true (e_revision e) ""
                else plain
            | None => plain
            end
        | RUnknown =>
            let u := filterReasons reasons RUnknown in
            let promo' := match promo with
                          | None => Some (cr_Rule r, u)
                          | Some (p, _) => if Protection (r_Action p) <? Protection (r_Action (cr_Rule r))
                                           then Some (cr_Rule r, u) else promo
                          end in
            decideRules e destID f rs promo' (unknown ++ u)%list
        | RFalse => decideRules e destID f rs promo unknown
        end
  end.

Definition Decide (e : Evaluator) (destID : Z) (f : Facts) : Decision :=
  if negb (bool_decide (f_Flags f = [])) then irreplaceableDecision (e_revision e) f
  else decideRules e destID f (e_rules e) None [].
End evaluator.

(** * Theorems *)

(** ** Tri-state logic

    [refines r s]: the value [r] may still turn out to be [s]. *)
Definition refines (r s : Result) : Prop := r = RUnknown ∨ r = s.

#[export] Instance refines_refl : Reflexive refines.
Proof. by right. Qed.

(** Counting a value in a list of results. *)
Definition count_of (v : Result) (rs : list Result) : Z :=
  Z.of_nat (length (List.filter (λ r, bool_decide (r = v)) rs)).

Lemma count_of_cons v r rs : count_of v (r :: rs) = count_of v rs + (if decide (r = v) then 1 else 0).
Proof. unfold count_of. simpl. case_bool_decide; case_decide; simpl; (lia || done). Qed.

Lemma count_of_bounds v rs : 0 ≤ count_of v rs ≤ Z.of_nat (length rs).
Proof. induction rs as [|r rs IH]; [done|]. rewrite count_of_cons. simpl. case_decide; lia. Qed.

Lemma count_of_pos v rs : 0 < count_of v rs ↔ v ∈ rs.
Proof.
  induction rs as [|r rs IH]; [split; [done | set_solver]|].
  rewrite count_of_cons, elem_of_cons, <-IH. pose proof (count_of_bounds v rs).
  case_decide; naive_solver lia.
Qed.

Lemma count_of_all v rs : count_of v rs = Z.of_nat (length rs) ↔ Forall (λ r, r = v) rs.
Proof.
  induction rs as [|r rs IH]; [done|].
  rewrite count_of_cons, Forall_cons, <-IH. pose proof (count_of_bounds v rs). simpl.
  case_decide; naive_solver lia.
Qed.

Definition combine_results (m : match_mode) (rs : list Result) : Result :=
  combine m (count_of RTrue rs) (count_of RFalse rs) (Z.of_nat (length rs)).

Lemma combine_all m rs : m ≠ MatchAny →
  combine_results m rs =
    if decide (RFalse ∈ rs) then RFalse
    else if decide (Forall (λ r, r = RTrue) rs) then RTrue else RUnknown.
Proof.
  intros Hm. unfold combine_results, combine. rewrite decide_False by done.
  pose proof (count_of_pos RFalse rs). pose proof (count_of_all RTrue rs).
  repeat case_decide; destruct (Z.ltb_spec 0 (count_of RFalse rs));
    destruct (Z.eqb_spec (count_of RTrue rs) (Z.of_nat (length rs)));
    rewrite <-?Z.nlt_ge in *; first [done | exfalso; tauto].
Qed.

Lemma combine_any rs :
  combine_results MatchAny rs =
    if decide (RTrue ∈ rs) then RTrue
    else if decide (Forall (λ r, r = RFalse) rs) then RFalse else RUnknown.
Proof.
  unfold combine_results, combine. rewrite decide_True by done.
  pose proof (count_of_pos RTrue rs). pose proof (count_of_all RFalse rs).
  repeat case_decide; destruct (Z.ltb_spec 0 (count_of RTrue rs));
    destruct (Z.eqb_spec (count_of RFalse rs) (Z.of_nat (length rs)));
    rewrite <-?Z.nlt_ge in *; first [done | exfalso; tauto].
Qed.

(** Learning the values of unknown conditions never turns a decided rule around. *)
Lemma combine_refines m rs rs' :
  Forall2 refines rs rs' → refines (combine_results m rs) (combine_results m rs').
Proof.
  intros H.
  assert (Hin : ∀ v, v ≠ RUnknown → v ∈ rs → v ∈ rs').
  { intros v Hv. clear -H Hv. induction H as [|r r' rs rs' Hr H IH]; [done|].
    rewrite !elem_of_cons. intros [->|Hx]; [|by right; apply IH]. left. by destruct Hr as [|<-]. }
  assert (Hall : ∀ v, v ≠ RUnknown → Forall (λ r, r = v) rs → Forall (λ r, r = v) rs').
  { intros v Hv. clear -H Hv. induction H as [|r r' rs rs' Hr H IH]; [done|].
    rewrite !Forall_cons. intros [-> Hx]. split; [by destruct Hr as [|<-]|by apply IH]. }
  assert (Hnone : ∀ v w, v ≠ w → Forall (λ r, r = v) rs' → w ∉ rs').
  { intros v w Hv Hf Hw. rewrite Forall_forall in Hf. by specialize (Hf _ Hw). }
  destruct (decide (m = MatchAny)) as [->|Hm].
  - rewrite !combine_any. repeat case_decide; unfold refines; naive_solver.
  - rewrite !combine_all by done. repeat case_decide; unfold refines; naive_solver.
Qed.

Section decide_facts.
Context (equal_fold : string → string → bool).
#[local] Abbreviation evalCondition := (evalCondition equal_fold).
#[local] Abbreviation evalRule := (evalRule equal_fold).
#[local] Abbreviation decideRules := (decideRules equal_fold).
#[local] Abbreviation Decide := (Decide equal_fold).

(** The results of a rule's conditions, in order. *)
Definition cond_results (now : time) (f : Facts) (cs : list cond) : list Result :=
  (λ c, re_Result (evalCondition now c f)) <$> cs.

Lemma imap_at_rule_results now f id cs :
  re_Result <$> imap (λ i c, at_rule id i (evalCondition now c f)) cs = cond_results now f cs.
Proof. unfold cond_results. rewrite fmap_imap. apply imap_const. Qed.

Lemma count_result_of v rs : count_result v rs = count_of v (re_Result <$> rs).
Proof.
  unfold count_result, count_of. f_equal. induction rs as [|r rs IH]; [done|]. simpl.
  case_bool_decide; simpl; by rewrite IH.
Qed.

Definition rule_result (now : time) (r : compiledRule) (f : Facts) : Result := fst (evalRule now r f).

Lemma rule_result_spec now r f :
  rule_result now r f =
    if decide (cr_conds r = []) then RTrue
    else combine_results (r_Match (cr_Rule r)) (cond_results now f (cr_conds r)).
Proof.
  unfold rule_result, evalRule. destruct (cr_conds r) as [|c cs] eqn:E; [done|].
  rewrite decide_False by done. cbn [fst]. rewrite !count_result_of, imap_at_rule_results.
  unfold combine_results. f_equal. unfold cond_results. by rewrite length_fmap.
Qed.

(** The knowledge of [f'] extends the knowledge of [f] for the rules of [e]. *)
Definition knows_more (e : Evaluator) (f f' : Facts) : Prop :=
  ∀ r c, r ∈ e_rules e → c ∈ cr_conds r →
    refines (re_Result (evalCondition (e_now e) c f)) (re_Result (evalCondition (e_now e) c f')).

Lemma rule_refines e f f' r :
  knows_more e f f' → r ∈ e_rules e → refines (rule_result (e_now e) r f) (rule_result (e_now e) r f').
Proof.
  intros Hk Hr. rewrite !rule_result_spec. case_decide; [done|].
  apply combine_refines. unfold cond_results.
  apply Forall2_fmap. apply Forall2_same_length_lookup_2; [done|].
  intros i c c' Hc Hc'. simplify_eq. eapply Hk; [done|]. by eapply list_elem_of_lookup_2.
Qed.

(** The action of the pending promotion, as a protection (0: none). *)
Definition promo_level (p : option (Rule * list Reason)) : Z :=
  match p with Some (r, _) => Protection (r_Action r) | None => 0 end.

(** The tier of a decision does not depend on the collected reasons. *)
Lemma decideRules_full e d f rs p u :
  Protection (d_Tier (decideRules e d f rs p u)) ≤ 3.
Proof. apply Protection_range. Qed.

(** Only the level of the pending promotion matters for the protection of the
    decision: this is its recursion. *)
Fixpoint decide_level (now : time) (d : Z) (f : Facts) (rs : list compiledRule) (p : Z) : Z :=
  match rs with
  | [] => 3
  | r :: rs =>
      if negb (AppliesAt (cr_Rule r) d) then decide_level now d f rs p
      else match rule_result now r f with
           | RTrue => Z.max p (Protection (r_Action (cr_Rule r)))
           | RUnknown => decide_level now d f rs (Z.max p (Protection (r_Action (cr_Rule r))))
           | RFalse => decide_level now d f rs p
           end
  end.

Lemma decideRules_level e d f rs p u :
  Protection (d_Tier (decideRules e d f rs p u)) = decide_level (e_now e) d f rs (promo_level p).
Proof.
  revert p u. induction rs as [|r rs IH]; intros p u; [done|].
  cbn [TierEval.decideRules decide_level]. destruct (AppliesAt (cr_Rule r) d); cbn [negb]; [|apply IH].
  unfold rule_result. destruct (evalRule (e_now e) r f) as [res reasons]; cbn [fst].
  pose proof (Protection_range (r_Action (cr_Rule r))).
  destruct res; [apply IH| |rewrite IH; f_equal]; destruct p as [[p pr]|]; cbn [promo_level];
    try (pose proof (Protection_range (r_Action p))).
  - case_match; cbn [d_Tier]; lia.
  - cbn [d_Tier]. lia.
  - case_match; cbn [promo_level]; lia.
  - lia.
Qed.

Lemma decide_level_range now d f rs p : 0 ≤ p ≤ 3 → 0 ≤ decide_level now d f rs p ≤ 3.
Proof.
  revert p. induction rs as [|r rs IH]; intros p Hp; simpl; [lia|].
  pose proof (Protection_range (r_Action (cr_Rule r))).
  repeat case_match; try apply IH; lia.
Qed.

Lemma decide_level_ge now d f rs p : p ≤ 3 → p ≤ decide_level now d f rs p.
Proof.
  revert p. induction rs as [|r rs IH]; intros p Hp; simpl; [lia|].
  pose proof (Protection_range (r_Action (cr_Rule r))).
  repeat case_match; try apply IH; try lia.
  specialize (IH (p `max` Protection (r_Action (cr_Rule r)))). lia.
Qed.

Lemma decide_level_mono now d f f' rs p p' :
  (∀ r, r ∈ rs → refines (rule_result now r f) (rule_result now r f')) →
  p' ≤ p ≤ 3 → 0 ≤ p' → decide_level now d f' rs p' ≤ decide_level now d f rs p.
Proof.
  revert p p'. induction rs as [|r rs IH]; intros p p' Hr Hp Hp'; simpl; [lia|].
  assert (Hrs : ∀ r', r' ∈ rs → refines (rule_result now r' f) (rule_result now r' f')).
  { intros. apply Hr. by right. }
  pose proof (Protection_range (r_Action (cr_Rule r))).
  case_match; [by apply IH|].
  destruct (Hr r (list_elem_of_here _ _)) as [->| <-].
  - destruct (rule_result now r f').
    + apply IH; [done|lia|lia].
    + etransitivity; [|apply decide_level_ge; lia]. lia.
    + apply IH; [done|lia|lia].
  - destruct (rule_result now r f); [by apply IH|lia|apply IH; [done|lia|lia]].
Qed.

(** Facts [f'] that only settle what is unknown for [f], and are covered by a flag only
    if [f] is, decide at most the protection [f] has. *)
Lemma settled_not_higher (e : Evaluator) (destID : Z) (f f' : Facts) :
  knows_more e f f' → (f_Flags f = [] → f_Flags f' = []) →
  Protection (d_Tier (Decide e destID f')) ≤ Protection (d_Tier (Decide e destID f)).
Proof.
  intros Hmore Hflags. unfold Decide. destruct (decide (f_Flags f = [])) as [E|E].
  - rewrite E, (Hflags E). simpl. rewrite !decideRules_level.
    apply decide_level_mono; [|simpl; lia|simpl; lia]. intros r Hr. by apply rule_refines.
  - rewrite (bool_decide_eq_false_2 (f_Flags f = []) E). simpl. apply Protection_range.
Qed.

(** ** What decides: the functional specification of [Decide] *)

(** The rules evaluated at a destination, in order. *)
Definition applying (e : Evaluator) (destID : Z) : list compiledRule :=
  List.filter (λ r, AppliesAt (cr_Rule r) destID) (e_rules e).

Lemma decideRules_applying e d f rs p u :
  decideRules e d f rs p u = decideRules e d f (List.filter (λ r, AppliesAt (cr_Rule r) d) rs) p u.
Proof.
  revert p u. induction rs as [|r rs IH]; intros p u; [done|]. simpl.
  destruct (AppliesAt (cr_Rule r) d) eqn:E; simpl; [|by rewrite IH]. rewrite E. simpl.
  destruct (evalRule (e_now e) r f) as [[] reasons]; try apply IH; done.
Qed.

(** The conditions of a rule that have the result [v], as reasons: with the rule and the
    place of the condition. *)
Definition rule_reasons (now : time) (f : Facts) (v : Result) (r : compiledRule) : list Reason :=
  filter (λ x, re_Result x = v)
    (imap (λ i c, let x := evalCondition now c f in
       mkReason (r_ID (cr_Rule r)) (Z.of_nat i) (re_Field x) (re_Op x) (re_Value x) (re_Actual x) (re_Result x) (re_Source x) (re_Why x))
       (cr_conds r)).
(** Why the rules [rs] are unknown. *)
Definition unknowns (now : time) (f : Facts) (rs : list compiledRule) : list Reason :=
  flat_map (λ r, if decide (rule_result now r f = RUnknown) then rule_reasons now f RUnknown r else []) rs.
(** [cr] is the first of the most protective unknown rules of [rs]. *)
Definition promoted_rule (now : time) (f : Facts) (rs : list compiledRule) (cr : compiledRule) : Prop :=
  ∃ before after, rs = (before ++ cr :: after)%list ∧ rule_result now cr f = RUnknown ∧
    (∀ q, q ∈ before → rule_result now q f = RUnknown → Protection (r_Action (cr_Rule q)) < Protection (r_Action (cr_Rule cr))) ∧
    (∀ q, q ∈ after → rule_result now q f = RUnknown → Protection (r_Action (cr_Rule q)) ≤ Protection (r_Action (cr_Rule cr))).

Lemma evalRule_reasons now r f v : filterReasons (snd (evalRule now r f)) v = rule_reasons now f v r.
Proof.
  assert (Hl : ∀ l : list Reason, filterReasons l v = filter (λ x, re_Result x = v) l).
  { unfold filterReasons. induction l as [|x l IH]; [done|]. rewrite filter_cons. simpl. case_bool_decide; case_decide; by rewrite IH. }
  rewrite Hl. unfold rule_reasons, evalRule. by destruct (cr_conds r).
Qed.

(** The state of the loop after rules [pre] of which none is true. *)
Definition promo_after (now : time) (f : Facts) (pre : list compiledRule) (p : option (Rule * list Reason)) : Prop :=
  match p with
  | None => ∀ q, q ∈ pre → rule_result now q f ≠ RUnknown
  | Some (r, rs) => ∃ cr, promoted_rule now f pre cr ∧ r = cr_Rule cr ∧ rs = rule_reasons now f RUnknown cr
  end.

Lemma unknowns_snoc now f pre r : unknowns now f (pre ++ [r]) =
  (unknowns now f pre ++ (if decide (rule_result now r f = RUnknown) then rule_reasons now f RUnknown r else []))%list.
Proof. unfold unknowns. rewrite flat_map_app. simpl. by rewrite app_nil_r. Qed.

(** One step of the loop keeps [promo_after]. *)
Lemma promo_after_step now f pre r p :
  rule_result now r f = RUnknown → promo_after now f pre p →
  promo_after now f (pre ++ [r])
    (match p with
     | None => Some (cr_Rule r, rule_reasons now f RUnknown r)
     | Some (q, _) => if Protection (r_Action q) <? Protection (r_Action (cr_Rule r))
                      then Some (cr_Rule r, rule_reasons now f RUnknown r) else p
     end).
Proof.
  intros Hr Hp. destruct p as [[q qr]|]; simpl in *.
  - destruct Hp as (cr & (b & a & -> & Hu & Hb & Ha) & -> & ->). destruct (Z.ltb_spec (Protection (r_Action (cr_Rule cr))) (Protection (r_Action (cr_Rule r)))).
    + exists r. split; [|done]. exists (b ++ cr :: a)%list, []. split; [done|]. split; [done|]. split; [|set_solver].
      intros x [Hx|[ -> |Hx]%elem_of_cons]%elem_of_app Hxu; [specialize (Hb x Hx Hxu); lia|done|specialize (Ha x Hx Hxu); lia].
    + exists cr. split; [|done]. exists b, (a ++ [r])%list. split; [by rewrite <-app_assoc|]. split; [done|]. split; [done|].
      intros x [Hx| ->%list_elem_of_singleton]%elem_of_app Hxu; [by apply Ha|lia].
  - exists r. split; [|done]. exists pre, []. split; [done|]. split; [done|]. split; [|set_solver]. intros x Hx Hxu. by destruct (Hp x Hx).
Qed.

Lemma promo_after_false now f pre r p :
  rule_result now r f = RFalse → promo_after now f pre p → promo_after now f (pre ++ [r]) p.
Proof.
  intros Hr. destruct p as [[q qr]|]; simpl.
  - intros (cr & (b & a & -> & Hu & Hb & Ha) & -> & ->). exists cr. split; [|done]. exists b, (a ++ [r])%list.
    split; [by rewrite <-app_assoc|]. split; [done|]. split; [done|]. intros x [Hx| ->%list_elem_of_singleton]%elem_of_app Hxu; [by apply Ha|congruence].
  - intros H q [Hq| ->%list_elem_of_singleton]%elem_of_app; [by apply H|by rewrite Hr].
Qed.

(** The whole decision when [r] is the first true rule, after the rules [pre]. *)
Definition decided_by (e : Evaluator) (f : Facts) (pre : list compiledRule) (r : compiledRule) (D : Decision) : Prop :=
  let now := e_now e in
  let why := unknowns now f pre in
  let takes cr v promoted := mkDecision (r_Action (cr_Rule cr)) (r_ID (cr_Rule cr)) (r_Name (cr_Rule cr)) (rule_reasons now f v cr) why promoted (e_revision e) "" in
  let stronger q := rule_result now q f = RUnknown ∧ Protection (r_Action (cr_Rule r)) < Protection (r_Action (cr_Rule q)) in
  ((∀ q, q ∈ pre → ¬ stronger q) ∧ D = takes r RTrue false) ∨
  (∃ p, promoted_rule now f pre p ∧ stronger p ∧ D = takes p RUnknown true).

Lemma decideRules_true e d f done_ pre r post p :
  Forall (λ r, AppliesAt (cr_Rule r) d = true) (pre ++ r :: post) →
  Forall (λ r, rule_result (e_now e) r f ≠ RTrue) pre → rule_result (e_now e) r f = RTrue →
  promo_after (e_now e) f done_ p →
  decided_by e f (done_ ++ pre) r (decideRules e d f (pre ++ r :: post) p (unknowns (e_now e) f done_)).
Proof.
  intros Ha Hpre Hr. revert done_ p. induction pre as [|x pre IH]; intros done_ p Hp.
  - apply Forall_cons in Ha as [Ha _]. rewrite app_nil_r. simpl. rewrite Ha. simpl.
    rewrite (surjective_pairing (evalRule (e_now e) r f)). change (fst _) with (rule_result (e_now e) r f). rewrite Hr, evalRule_reasons.
    unfold decided_by. cbv zeta. destruct p as [[q qr]|]; simpl in Hp.
    + destruct Hp as (cr & Hpr & -> & ->). pose proof Hpr as (b & a & -> & Hu & Hb & Hc).
      destruct (Z.ltb_spec (Protection (r_Action (cr_Rule r))) (Protection (r_Action (cr_Rule cr)))); [by right; exists cr|].
      left. split; [|done]. intros y [Hy|[ -> |Hy]%elem_of_cons]%elem_of_app [Hyu Hyl]; [specialize (Hb y Hy Hyu)|..|specialize (Hc y Hy Hyu)]; lia.
    + left. split; [|done]. intros y Hy [Hyu _]. by destruct (Hp y Hy).
  - apply Forall_cons in Ha as [Hx Ha]. apply Forall_cons in Hpre as [Hnt Hpre].
    replace (done_ ++ x :: pre)%list with ((done_ ++ [x]) ++ pre)%list by (by rewrite <-app_assoc).
    simpl. rewrite Hx. simpl. rewrite (surjective_pairing (evalRule (e_now e) x f)). change (fst _) with (rule_result (e_now e) x f).
    rewrite !evalRule_reasons. specialize (IH Ha Hpre (done_ ++ [x])%list). rewrite unknowns_snoc in IH.
    destruct (rule_result (e_now e) x f) eqn:E; [|done|].
    + rewrite decide_False, app_nil_r in IH by done. by apply IH, promo_after_false.
    + rewrite decide_True in IH by done. by apply IH, promo_after_step.
Qed.

(** C17: What decides a file that no flag covers: of the rules applying at the
    destination, in order, let [r] be the first that is true. It decides, unless
    an unknown rule before it is more protective: then the first of the most protective
    ones decides and the decision is marked [UnknownPromoted]. The reasons listed are
    exactly the deciding rule's true conditions, or its unknown ones when promoted, and
    with them go the unknown conditions of every unknown rule before [r]. *)
Theorem decide_first_true (e : Evaluator) (destID : Z) (f : Facts) (pre post : list compiledRule) (r : compiledRule)
    (Hflags : f_Flags f = []) (Hrules : applying e destID = (pre ++ r :: post)%list)
    (Hpre : Forall (λ r, rule_result (e_now e) r f ≠ RTrue) pre) (Hr : rule_result (e_now e) r f = RTrue) :
  decided_by e f pre r (Decide e destID f).
Proof.
  unfold Decide. rewrite Hflags. simpl. rewrite decideRules_applying. fold (applying e destID). rewrite Hrules.
  apply (decideRules_true e destID f [] pre r post None); [|done|done|by intros q Hq%elem_of_nil].
  rewrite <-Hrules. apply Forall_forall. intros x. unfold applying. rewrite filter_bool_elem. tauto.
Qed.

Lemma decideRules_none e d f rs p u :
  Forall (λ r, rule_result (e_now e) r f ≠ RTrue ∨ AppliesAt (cr_Rule r) d = false) rs →
  ∃ u', decideRules e d f rs p u = mkDecision Full 0 FallbackRuleName [] u' false (e_revision e) "".
Proof.
  intros H. revert p u. induction H as [|r rs Hr H IH]; intros p u; simpl; [by eexists|].
  destruct (AppliesAt (cr_Rule r) d) eqn:E; simpl; [|apply IH].
  unfold rule_result in Hr. destruct (evalRule (e_now e) r f) as [[] reasons]; simpl in Hr; try apply IH.
  by destruct Hr.
Qed.

(** The default is to copy (D1): a file covered by an irreplaceable flag is
    full at every destination whatever the rules say, and so is a file for which
    no enabled rule applying at the destination is true; such a decision is a
    built-in one (rule id 0) and never unknown-promoted. *)
Theorem decide_default_full (e : Evaluator) (destID : Z) (f : Facts)
    (H : f_Flags f ≠ [] ∨ Forall (λ r, rule_result (e_now e) r f ≠ RTrue) (applying e destID)) :
  d_Tier (Decide e destID f) = Full ∧ d_RuleID (Decide e destID f) = 0 ∧
  d_UnknownPromoted (Decide e destID f) = false ∧
  d_RuleName (Decide e destID f) = (if decide (f_Flags f = []) then FallbackRuleName else IrreplaceableRuleName).
Proof.
  unfold Decide. destruct (decide (f_Flags f = [])) as [E|E].
  - rewrite E. simpl. rewrite decideRules_applying. fold (applying e destID).
    destruct H as [H|H]; [done|].
    destruct (decideRules_none e destID f (applying e destID) None []) as [u' ->]; [|done].
    eapply Forall_impl; [exact H|]. auto.
  - by rewrite (bool_decide_eq_false_2 (f_Flags f = []) E).
Qed.

(** A stored condition that no longer validates can only be unknown. *)
Lemma invalid_condition_unknown now i j c f err :
  compileCondition c i j = Err err → re_Result (evalCondition now (compileStored i j c) f) = RUnknown.
Proof. intros H. unfold compileStored. rewrite H. done. Qed.
End decide_facts.

(** ** Ages in days *)

Lemma days_exact n : 0 ≤ n ≤ 106751 → days n = n * 24 * ns_per_hour.
Proof.
  intros H. unfold days. rewrite (i64_id (n * 24)) by (unfold in_i64, min_i64, max_i64; lia).
  apply i64_id. unfold in_i64, min_i64, max_i64, ns_per_hour, ns_per_sec. lia.
Qed.

Lemma days_wraps n : 106752 ≤ n ≤ 213503 → days n = n * 24 * ns_per_hour - 2^64.
Proof.
  intros H. unfold days. rewrite (i64_id (n * 24)) by (unfold in_i64, min_i64, max_i64; lia).
  unfold i64, ns_per_hour, ns_per_sec.
  rewrite (Z.mod_eq _ (2^64)) by lia.
  assert (Hq : (n * 24 * (3600 * 1000000000) + 2 ^ 63) / 2 ^ 64 = 1); [|rewrite Hq; lia].
  symmetry. apply Z.div_unique with (n * 24 * (3600 * 1000000000) + 2 ^ 63 - 2^64); lia.
Qed.

Definition older_than (n : Z) : cond := mkCond (mkCondition FieldFileAge OpOlderThan (Some (jint n))) false "" n [].

(** The values a condition on days is compiled with. *)
Lemma older_than_compiles n :
  compileCondition (mkCondition FieldFileAge OpOlderThan (Some (jint n))) 0 0 =
    if (n <? 0) || (maxInt <? n) then compileCondition (mkCondition FieldFileAge OpOlderThan (Some (jint n))) 0 0 else Ok (older_than n).
Proof.
  assert (Hf : float_int (n, 0) = Some n) by (simpl; f_equal; lia).
  destruct (_ || _) eqn:E; [done|]. unfold compileCondition. cbn [c_Field c_Op c_Value].
  let s := eval vm_compute in (specOf FieldFileAge) in change (specOf FieldFileAge) with s.
  cbn -[float_int Z.ltb maxInt]. by rewrite Hf, E.
Qed.

(** C18: "Added more than [n] days ago" compares the file's age with [n] days for [n] up to
    106751. [compileCondition] accepts every [n] from 0 to 2^62, but from 106752 days on
    the limit [time.Duration(n) * 24 * time.Hour] overflows: up to 213503 days it is
    negative, and the condition is true for every file that is not dated in the future,
    however new. *)
Theorem file_age_older_than (equal_fold : string → string → bool) (now : time) (f : Facts) (n : Z) :
  (0 ≤ n ≤ 2^62 → compileCondition (mkCondition FieldFileAge OpOlderThan (Some (jint n))) 0 0 = Ok (older_than n)) ∧
  (0 ≤ n ≤ 106751 →
   re_Result (evalCondition equal_fold now (older_than n) f) = resultOf (n * 24 * ns_per_hour <? dsub now (addedAt f))) ∧
  (106752 ≤ n ≤ 213503 → addedAt f ≤ now → re_Result (evalCondition equal_fold now (older_than n) f) = RTrue).
Proof.
  assert (He : re_Result (evalCondition equal_fold now (older_than n) f) = resultOf (days n <? dsub now (addedAt f)))
    by reflexivity.
  split_and!; intros Hn.
  - rewrite older_than_compiles, (proj2 (Z.ltb_ge n 0)), (proj2 (Z.ltb_ge maxInt n)) by (unfold maxInt; lia). done.
  - by rewrite He, days_exact.
  - intros Hnow. rewrite He, days_wraps by done. apply resultOf_true, Z.ltb_lt.
    unfold dsub, min_i64, max_i64, ns_per_hour, ns_per_sec. lia.
Qed.

(** Concrete facts for the witnesses: a file with a known Radarr item, and the
    same file while the Radarr cache is stale. *)
Module Samples.
Definition item : ArrItemFacts :=
  mkArrItemFacts 1 "Radarr" 7 "movie" 70 "Night of the Living Dead" 1968 (mkExternalIDs 10331 "" 0 0 "")
    ["horror"] "HD-1080p" 4 "/movies/" true ["Horror"] "/data/movies/Night".
Definition day : Z := 24 * ns_per_hour.
Definition known_arr : ArrFacts := mkArrFacts (ArrItem item) 1 false 70 (Some (1000 * day)) "Bluray-1080p".
Definition stale_arr : ArrFacts := mkArrFacts (ArrUnknown "Radarr cache is 31 h old") 1 false 70 None "".
Definition file (a : ArrFacts) : Facts :=
  mkFacts 11 2 "Night/night.mkv" 4000 (900 * day) "" (100 * day) "/data/movies/Night/night.mkv" a None None None None [] "".
Definition rule (id : Z) (cs : list Condition) (t : tier) : Rule := mkRule id id "" true MatchAll cs t None.
Definition tagged : Condition := mkCondition FieldArrTag OpHas (Some (JStr "bunkarr-full")).
Definition recent : Condition := mkCondition FieldFileAge OpNewerThan (Some (jint 30)).
(** the preset "Manifest by default" *)
Definition spec_preset : Evaluator :=
  NewEvaluator [rule 1 [tagged] Full; rule 2 [] Manifest] 5 (1010 * day).
(** recent files full, the rest manifest *)
Definition recent_full : Evaluator :=
  NewEvaluator [rule 1 [recent] Full; rule 2 [] Manifest] 5 (1010 * day).
End Samples.

Lemma decide_first_true_witness :
  decided_by ascii_equal_fold Samples.spec_preset (Samples.file Samples.stale_arr)
    (take 1 (e_rules Samples.spec_preset)) (mkCompiledRule (Samples.rule 2 [] Manifest) [])
    (Decide ascii_equal_fold Samples.spec_preset 3 (Samples.file Samples.stale_arr)).
Proof.
  apply (decide_first_true ascii_equal_fold Samples.spec_preset 3 (Samples.file Samples.stale_arr)
           (take 1 (e_rules Samples.spec_preset)) [] (mkCompiledRule (Samples.rule 2 [] Manifest) [])).
  - reflexivity.
  - vm_compute. reflexivity.
  - repeat constructor. vm_compute. done.
  - reflexivity.
Defined.

Lemma decide_default_full_witness :
  d_Tier (Decide ascii_equal_fold (NewEvaluator [] 5 0) 3 (Samples.file Samples.known_arr)) = Full.
Proof. apply (decide_default_full ascii_equal_fold (NewEvaluator [] 5 0) 3). right. constructor. Defined.

Lemma file_age_older_than_witness :
  compileCondition (mkCondition FieldFileAge OpOlderThan (Some (jint 150000))) 0 0 = Ok (older_than 150000) ∧
  re_Result (evalCondition ascii_equal_fold (1010 * Samples.day) (older_than 400) (Samples.file Samples.known_arr)) = RFalse ∧
  re_Result (evalCondition ascii_equal_fold (1010 * Samples.day) (older_than 150000) (Samples.file Samples.known_arr)) = RTrue.
Proof.
  pose proof (file_age_older_than ascii_equal_fold (1010 * Samples.day) (Samples.file Samples.known_arr)) as H.
  split_and!; [apply (H 150000)|rewrite (proj1 (proj2 (H 400)))|apply (H 150000)]; vm_compute; by repeat split.
Defined.

(** A stale *arr cache does not make [file.age] unknown: the age falls back
    to the catalog's first sight of the file, which is another known value. So a
    file that a fresh cache makes full can lose that protection when the cache
    goes stale, with no condition unknown and nothing promoted. *)
Theorem stale_cache_lowers_file_age (equal_fold : string → string → bool) :
  ∃ (e : Evaluator) (a : ArrFacts) (f : ArrFacts → Facts),
    a_State a = ArrUnknown "Radarr cache is 31 h old" ∧
    d_Tier (Decide equal_fold e 3 (f Samples.known_arr)) = Full ∧
    d_Tier (Decide equal_fold e 3 (f a)) = Manifest ∧
    d_Unknown (Decide equal_fold e 3 (f a)) = [] ∧ d_UnknownPromoted (Decide equal_fold e 3 (f a)) = false.
Proof. exists Samples.recent_full, Samples.stale_arr, Samples.file. vm_compute. done. Qed.
