(* ===== verification/TierFacts.v ===== *)
(** * TierFacts: which *arr item a file belongs to, and which flags cover it

    The pure part of [internal/tiers/load.go] and [resolve.go]: attribution of
    the live files of a source to *arr items (by exact path, as sidecars of a
    media file, or by folder), and the resolution of irreplaceable flags. The
    rows and indexes that [newContext] reads from the database are the fields of
    [factContext]; a Go map is a [gmap], a map of slices keeps the slice order. *)
From stdpp Require Import base gmap list strings pretty.
From Stdlib Require Import Ascii.
From S2P Require Import Prelude GoStrings Tiers TierRules.
Open Scope string_scope.
Open Scope Z_scope.

Record itemInfo := mkItemInfo { ii_facts : ArrItemFacts; ii_folder : string }.

Record Freshness := mkFreshness { fr_Fresh : bool; fr_Reason : string }.
Definition stale : Freshness := mkFreshness false "".

Record DeletedArr := mkDeletedArr { da_Name : string; da_App : string }.

(** The fields of [factContext] the attribution reads. *)
Record factContext := mkFactContext {
  (** names of the integrations, by id ([ints]) *)
  fc_names : gmap Z string;
  fc_arrInts : list Z;
  fc_fresh : gmap Z Freshness;
  fc_items : gmap Z itemInfo;
  fc_folders : gmap string (list itemInfo);
  fc_roots : gmap string (list Z);
  fc_unmapped : gmap Z (list string);
  fc_unmappedItems : gmap Z (list string);
  fc_deletedFolders : gmap string (list DeletedArr);
  fc_deletedUnmapped : list DeletedArr;
}.

(** The fields of [catalog.Source] the attribution reads. *)
Record Source := mkSource {
  src_ID : Z;
  src_Path : string;
  src_ArrIntegrationID : option Z;
  src_PlexIntegrationID : option Z;
  src_PlexSectionID : string;
}.

(** [mediaindex.File]: an *arr file at a local path. *)
Record ArrFile := mkArrFile {
  af_IntegrationID : Z;
  af_ItemID : Z;
  af_ArrFileID : Z;
  af_LocalPath : string;
  af_Size : Z;
  af_DateAdded : option time;
  af_Quality : string;
}.

Record catalogRow := mkCatalogRow {
  row_id : Z;
  row_rel : string;
  row_size : Z;
  row_mtimeNs : Z;
  row_group : string;
  row_firstSeen : time;
}.

Definition arrIntegrations (fc : factContext) (src : Source) : list Z :=
  match src_ArrIntegrationID src with Some id => [id] | None => fc_arrInts fc end.

Definition counts (src : Source) (id : Z) : bool :=
  match src_ArrIntegrationID src with Some i => i =? id | None => true end.

Definition appName (fc : factContext) (id : Z) : string :=
  match fc_names fc !! id with Some n => n | None => "integration " +:+ pretty id end.

Definition slice {K A} `{Countable K} (m : gmap K (list A)) (k : K) : list A :=
  match m !! k with Some l => l | None => [] end.

Definition under (p dir : string) : bool :=
  bool_decide (dir = "") || bool_decide (p = dir) || has_prefix p (dir +:+ "/").

(** ** Attribution by exact path *)

Definition arr_unknown (id : Z) (why : string) : ArrFacts := mkArrFacts (ArrUnknown why) id false 0 None "".

Definition exactArr (fc : factContext) (f_size : Z) (rows : list ArrFile) : ArrFacts :=
  match rows with
  | [] => arr_unknown 0 ""
  | r :: _ =>
      if negb (forallb (λ x, af_IntegrationID x =? af_IntegrationID r) rows) then
        let names := foldl (λ acc x, let n := appName fc (af_IntegrationID x) in
                                     if mem n acc then acc else (acc ++ [n])%list) [] rows in
        arr_unknown 0 ("two *arr integrations claim this file (" +:+ join_strings ", " names +:+ ")")
      else
        let id := af_IntegrationID r in
        let unknown why := mkArrFacts (ArrUnknown why) id false (af_ArrFileID r) None "" in
        if negb (af_Size r =? f_size) then
          unknown (appName fc id +:+ "'s file at this path has another size (" +:+ pretty (af_Size r)
                   +:+ " bytes; the catalog has " +:+ pretty f_size +:+ ")")
        else
          match fc_items fc !! af_ItemID r with
          | None => unknown (appName fc id +:+ " no longer has the item of this file")
          | Some info =>
              let fr := default stale (fc_fresh fc !! id) in
              if negb (fr_Fresh fr) then unknown (fr_Reason fr)
              else mkArrFacts (ArrItem (ii_facts info)) id false (af_ArrFileID r) (af_DateAdded r) (af_Quality r)
          end
  end.

(** ** Sidecars *)

(** [path.Base] of a clean, non-empty path: what follows its last slash. *)
Definition path_base (s : string) : string :=
  match reverse (split_on slash (bytes s)) with
  | w :: _ => if decide (w = []) then "." else of_bytes w
  | [] => "."
  end.

(** The prefixes of a name that end before one of its dots, longest first, except
    the empty one ([strings.LastIndexByte] repeatedly, while the index is
    positive). *)
Fixpoint dot_prefixes_rev (r : list ascii) : list (list ascii) :=
  match r with
  | [] => []
  | c :: r => if decide (c = "."%char) then
                match r with [] => [] | _ => reverse r :: dot_prefixes_rev r end
              else dot_prefixes_rev r
  end.
Definition dot_prefixes (s : string) : list string := of_bytes <$> dot_prefixes_rev (reverse (bytes s)).

(** A name without its extension ([LastIndexByte > 0]). *)
Definition stem_of (rel : string) : string :=
  let b := path_base rel in
  match dot_prefixes b with p :: _ => p | [] => b end.

(** [mediaStems]: the files the *arr knows, by stem; the first of a stem wins. *)
Definition mediaStems (siblings : list Facts) (hasRow : Facts → bool) : gmap string Facts :=
  foldl (λ m f, if hasRow f then
                  match m !! stem_of (f_RelPath f) with Some _ => m | None => <[stem_of (f_RelPath f) := f]> m end
                else m) ∅ siblings.

(** [mediaFileOf]; pointers to facts are compared by the catalog file id. *)
Fixpoint first_stem (f : Facts) (stems : gmap string Facts) (names : list string) : option Facts :=
  match names with
  | [] => None
  | n :: names =>
      match stems !! n with
      | Some m => if f_FileID m =? f_FileID f then first_stem f stems names else Some m
      | None => first_stem f stems names
      end
  end.
Definition mediaFileOf (f : Facts) (stems : gmap string Facts) : option Facts :=
  first_stem f stems (dot_prefixes (path_base (f_RelPath f))).

(** ** Attribution by folder *)

(** The folders [folderArr] walks: [path.Dir] until ["/"] or ["."]. The fuel is
    the length of the path ([ancestors_end] shows it is enough). *)
Fixpoint ancestors_from (n : nat) (d : string) : list string :=
  d :: (if bool_decide (d = "/") || bool_decide (d = ".") then []
        else match n with S n => ancestors_from n (path_dir d) | O => [] end).
Definition ancestors (p : string) : list string := ancestors_from (String.length p) (path_dir p).

(** The first folder in which [here] finds something. *)
Fixpoint first_some {A B} (here : A → option B) (l : list A) : option B :=
  match l with
  | [] => None
  | a :: l => match here a with Some b => Some b | None => first_some here l end
  end.

Definition deletedWhy (d : DeletedArr) : string :=
  da_Name d +:+ " (" +:+ da_App d +:+ "), which managed this folder, was deleted; the file stays unknown until you confirm its removal (Settings → Tiers, Deleted *arr integrations)".

Definition unmappedWhy (name : string) (roots : list string) : string :=
  name +:+ "'s root folder " +:+ join_strings ", " roots +:+ " has no path mapping, so Bunkarr cannot tell whether this file is in it (add a path mapping for it)".

Definition unmappedItemsWhy (name : string) (folders : list string) : string :=
  let n := length folders in
  let '(shown, more) :=
    if (3 <? n)%nat then (take 3 folders, " and " +:+ pretty (Z.of_nat (n - 3)) +:+ " more") else (folders, "") in
  name +:+ " has items in folders no path mapping covers (" +:+ join_strings ", " shown +:+ more
  +:+ "), so Bunkarr cannot tell whether this file is in one of them (add a path mapping for them)".

(** The attribution to an item folder, if a counted item has its folder at [d]. *)
Definition item_folder (fc : factContext) (src : Source) (d : string) : option ArrFacts :=
  match List.filter (λ it, counts src (ai_IntegrationID (ii_facts it))) (slice (fc_folders fc) d) with
  | [] => None
  | it :: here =>
      let id := ai_IntegrationID (ii_facts it) in
      if negb (forallb (λ x, ai_IntegrationID (ii_facts x) =? id) here)
      then Some (arr_unknown 0 "two *arr integrations claim this file's folder")
      else
        let fr := default stale (fc_fresh fc !! id) in
        if negb (fr_Fresh fr) then Some (mkArrFacts (ArrUnknown (fr_Reason fr)) id true 0 None "")
        else Some (mkArrFacts (ArrItem (ii_facts it)) id true 0 None "")
  end.

Definition deleted_counts (src : Source) : bool := bool_decide (src_ArrIntegrationID src = None).

(** Unknown inside an *arr root folder or a deleted *arr's folder. *)
Definition root_folder (fc : factContext) (src : Source) (d : string) : option ArrFacts :=
  match List.find (counts src) (slice (fc_roots fc) d) with
  | Some id => Some (arr_unknown id ("no " +:+ appName fc id
                 +:+ " item holds this file (it may be an import that is not indexed yet)"))
  | None =>
      match deleted_counts src, slice (fc_deletedFolders fc) d with
      | true, del :: _ => Some (arr_unknown 0 (deletedWhy del))
      | _, _ => None
      end
  end.

Definition stale_integration (fc : factContext) (id : Z) : option ArrFacts :=
  let fr := match fc_fresh fc !! id with
            | Some fr => fr
            | None => mkFreshness false ("integration " +:+ pretty id +:+ " does not exist")
            end in
  if negb (fr_Fresh fr) then Some (arr_unknown id (fr_Reason fr)) else None.

Definition unmapped_integration (fc : factContext) (id : Z) : option ArrFacts :=
  match slice (fc_unmapped fc) id, slice (fc_unmappedItems fc) id with
  | (_ :: _) as u, _ => Some (arr_unknown id (unmappedWhy (appName fc id) u))
  | [], (_ :: _) as u => Some (arr_unknown id (unmappedItemsWhy (appName fc id) u))
  | [], [] => None
  end.

Definition unmanaged : ArrFacts := mkArrFacts ArrUnmanaged 0 false 0 None "".

Definition folderArr (fc : factContext) (localPath : string) (src : Source) : ArrFacts :=
  match first_some (item_folder fc src) (ancestors localPath) with
  | Some a => a
  | None =>
      match first_some (root_folder fc src) (ancestors localPath) with
      | Some a => a
      | None =>
          match first_some (stale_integration fc) (arrIntegrations fc src) with
          | Some a => a
          | None =>
              match first_some (unmapped_integration fc) (arrIntegrations fc src) with
              | Some a => a
              | None =>
                  match deleted_counts src, fc_deletedUnmapped fc with
                  | true, del :: _ => arr_unknown 0 (deletedWhy del)
                  | _, _ => unmanaged
                  end
              end
          end
      end
  end.

(** ** Irreplaceable flags *)

Definition KindMovie := "movie".
Definition KindSeries := "series".
Definition KindArtist := "artist".
Definition FlagKindArr := "arr".
Definition FlagKindPath := "path".

(** The stored flag (the fields resolution reads). *)
Record Flag := mkFlag {
  fl_ID : Z;
  fl_Kind : string;
  fl_ArrKind : string;
  fl_ExternalIDs : ExternalIDs;
  fl_Last : option (Z * string);      (** LastSourceID and LastRelPath, when both are set *)
  fl_Path : option (Z * string);      (** SourceID and RelPath, when both are set *)
}.

Definition sharesID (kind : string) (a b : ExternalIDs) : bool :=
  let imdb := negb (bool_decide (x_IMDB a = "")) && bool_decide (x_IMDB a = x_IMDB b) in
  if decide (kind = KindMovie) then
    if negb (x_TMDB a =? 0) then x_TMDB a =? x_TMDB b else imdb
  else if decide (kind = KindSeries) then
    if negb (x_TVDB a =? 0) then x_TVDB a =? x_TVDB b
    else if negb (x_TMDB a =? 0) then x_TMDB a =? x_TMDB b else imdb
  else if decide (kind = KindArtist) then
    negb (bool_decide (x_MBID a = "")) && bool_decide (x_MBID a = x_MBID b)
  else false.

Definition hasFlagID (kind : string) (ids : ExternalIDs) : bool :=
  let imdb := negb (bool_decide (x_IMDB ids = "")) in
  if decide (kind = KindMovie) then negb (x_TMDB ids =? 0) || imdb
  else if decide (kind = KindSeries) then negb (x_TVDB ids =? 0) || negb (x_TMDB ids =? 0) || imdb
  else if decide (kind = KindArtist) then negb (bool_decide (x_MBID ids = ""))
  else false.

Definition flagIDText (kind : string) (ids : ExternalIDs) : string :=
  if bool_decide (kind = KindMovie) && negb (x_TMDB ids =? 0) then "tmdb " +:+ pretty (x_TMDB ids)
  else if bool_decide (kind = KindSeries) && negb (x_TVDB ids =? 0) then "tvdb " +:+ pretty (x_TVDB ids)
  else if bool_decide (kind = KindArtist) && negb (bool_decide (x_MBID ids = "")) then "mbid " +:+ x_MBID ids
  else if negb (x_TMDB ids =? 0) then "tmdb " +:+ pretty (x_TMDB ids)
  else if negb (bool_decide (x_IMDB ids = "")) then "imdb " +:+ x_IMDB ids
  else "no external id".

(** [resolvedFlag]: [rf_path] is [hasPath] with [sourceID] and [rel]. *)
Record resolvedFlag := mkResolvedFlag {
  rf_flag : Flag;
  rf_items : list itemInfo;
  rf_path : option (Z * string);
  rf_resolved : bool;
  rf_reason : string;
  rf_folder : option (Z * string);
}.

Definition item_cmp (a b : itemInfo) : Z := zcmp (ai_ItemID (ii_facts a)) (ai_ItemID (ii_facts b)).

Section resolve.
(** [catalog.Locator.Locate]: the source locations of a local path; and [%q]. *)
Context (locate : string → list (Z * string)) (quote : string → string).

(** The located folder of the first item whose folder lies inside a source. *)
Definition located_folder (items : list itemInfo) : option (Z * string) :=
  first_some (λ it, if bool_decide (ii_folder it = "") then None
                    else match locate (ii_folder it) with
                         | (sid, rel) :: _ => if bool_decide (rel = "") then None else Some (sid, rel)
                         | [] => None
                         end) items.

Definition resolveFlag (fc : factContext) (f : Flag) : resolvedFlag :=
  if decide (fl_Kind f = FlagKindPath) then mkResolvedFlag f [] (fl_Path f) false "" None
  else if decide (fl_Kind f = FlagKindArr) then
    let items := isort item_cmp
      (List.filter (λ it, bool_decide (ai_Kind (ii_facts it) = fl_ArrKind f)
                          && sharesID (fl_ArrKind f) (fl_ExternalIDs f) (ai_ExternalIDs (ii_facts it)))
         (snd <$> map_to_list (fc_items fc))) in
    match items with
    | _ :: _ => mkResolvedFlag f items None true "" (located_folder items)
    | [] =>
        let reason := "no item with " +:+ flagIDText (fl_ArrKind f) (fl_ExternalIDs f) in
        match fl_Last f with
        | Some (sid, rel) => mkResolvedFlag f [] (Some (sid, rel)) false (reason +:+ "; it covers its last folder " +:+ quote rel) None
        | None => mkResolvedFlag f [] None false reason None
        end
    end
  else mkResolvedFlag f [] None false "" None.

Definition resolveFlags (fc : factContext) (flags : list Flag) : list resolvedFlag := resolveFlag fc <$> flags.
End resolve.

Definition covers_path (rf : resolvedFlag) (sourceID : Z) (rel : string) : bool :=
  match rf_path rf with
  | Some (sid, dir) => (sourceID =? sid) && under rel dir
  | None => false
  end.

Definition covers (rf : resolvedFlag) (f : Facts) : bool :=
  covers_path rf (f_SourceID f) (f_RelPath f) ||
  existsb (λ it,
    (negb (bool_decide (ii_folder it = "")) && under (f_LocalPath f) (ii_folder it)) ||
    match a_State (f_Arr f) with
    | ArrItem i => ai_ItemID i =? ai_ItemID (ii_facts it)
    | _ => false
    end) (rf_items rf).

(** [coversPath] (a retained record's path, before its expiry). *)
Definition coversPath (rf : resolvedFlag) (sourceID : Z) (rel sourcePath : string) : bool :=
  covers_path rf sourceID rel ||
  (negb (bool_decide (sourcePath = "")) &&
   existsb (λ it, negb (bool_decide (ii_folder it = "")) && under (path_join [sourcePath; rel]) (ii_folder it)) (rf_items rf)).

(** ** The facts of a source's files

    [loadFacts] with [dirs] nil, from the rows of the source's live files in path
    order and the *arr files under the source's path. The facts of the providers
    are filled in by code outside this file. *)

Definition with_arr (f : Facts) (a : ArrFacts) (follows : string) : Facts :=
  mkFacts (f_FileID f) (f_SourceID f) (f_RelPath f) (f_Size f) (f_MtimeNs f) (f_Group f) (f_FirstSeenAt f)
    (f_LocalPath f) a (f_Plex f) (f_Watch f) (f_Requests f) (f_Maintainerr f) (f_Flags f) follows.

Definition with_plex_flags (f : Facts) (p : option PlexFacts) (flags : list Z) : Facts :=
  mkFacts (f_FileID f) (f_SourceID f) (f_RelPath f) (f_Size f) (f_MtimeNs f) (f_Group f) (f_FirstSeenAt f)
    (f_LocalPath f) (f_Arr f) p (f_Watch f) (f_Requests f) (f_Maintainerr f) flags (f_Follows f).

Definition fact_of_row (src : Source) (r : catalogRow) : Facts :=
  mkFacts (row_id r) (src_ID src) (row_rel r) (row_size r) (row_mtimeNs r) (row_group r) (row_firstSeen r)
    (path_join [src_Path src; row_rel r]) (arr_unknown 0 "") None None None None [] "".

Definition rows_here (src : Source) (arr : list ArrFile) (f : Facts) : list ArrFile :=
  List.filter (λ a, bool_decide (af_LocalPath a = f_LocalPath f) && counts src (af_IntegrationID a)) arr.

Definition has_row (src : Source) (arr : list ArrFile) (f : Facts) : bool :=
  negb (bool_decide (rows_here src arr f = [])).

(** Pass 1. *)
Definition pass1 (fc : factContext) (src : Source) (arr : list ArrFile) (f : Facts) : Facts :=
  if has_row src arr f then with_arr f (exactArr fc (f_Size f) (rows_here src arr f)) "" else f.

(** Pass 2, for the files without an *arr file. *)
Definition pass2 (fc : factContext) (src : Source) (arr : list ArrFile) (facts : list Facts) (f : Facts) : Facts :=
  if has_row src arr f then f
  else
    let siblings := List.filter (λ g, bool_decide (path_dir (f_RelPath g) = path_dir (f_RelPath f))) facts in
    match mediaFileOf f (mediaStems siblings (has_row src arr)) with
    | Some m => with_arr f (f_Arr m) (f_RelPath m)
    | None => with_arr f (folderArr fc (f_LocalPath f) src) ""
    end.

Definition plex_facts (src : Source) : option PlexFacts :=
  match src_PlexIntegrationID src with
  | Some id => if bool_decide (src_PlexSectionID src = "") then None
               else Some (mkPlexFacts true "" id (pretty id +:+ ":" +:+ src_PlexSectionID src) None)
  | None => None
  end.

Definition loadFacts (fc : factContext) (flags : list resolvedFlag) (src : Source) (rows : list catalogRow) (arr : list ArrFile) : list Facts :=
  let facts := pass1 fc src arr <$> (fact_of_row src <$> rows) in
  let facts := pass2 fc src arr facts <$> facts in
  (λ f, with_plex_flags f (plex_facts src) ((λ rf, fl_ID (rf_flag rf)) <$> List.filter (λ rf, covers rf f) flags)) <$> facts.

(** ** Theorems *)

Lemma first_some_none {A B} (here : A → option B) l : first_some here l = None ↔ ∀ a, a ∈ l → here a = None.
Proof.
  induction l as [|a l IH]; simpl; [set_solver|].
  destruct (here a) eqn:E; split.
  - done.
  - intros H. specialize (H a (list_elem_of_here _ _)). congruence.
  - intros H x. rewrite elem_of_cons. intros [->|Hx]; [done|]. by apply IH.
  - intros H. apply IH. intros x Hx. apply H. by right.
Qed.

Lemma find_none {A} (p : A → bool) l : List.find p l = None ↔ ∀ a, a ∈ l → p a = false.
Proof.
  split.
  - intros H a Ha. apply list_elem_of_In in Ha. by eapply List.find_none.
  - intros H. destruct (List.find p l) eqn:E; [|done]. apply List.find_some in E as [Hin Hp].
    rewrite (H _ (proj2 (list_elem_of_In _ _) Hin)) in Hp. done.
Qed.

(** The fuel is enough: the folders end with the root or the current folder. *)
Lemma ancestors_end p : ∃ l d, ancestors p = (l ++ [d])%list ∧ (d = "/" ∨ d = ".").
Proof.
  unfold ancestors. assert (Hle : path_dir p = "/" ∨ path_dir p = "." ∨ (String.length (path_dir p) ≤ String.length p)%nat)
    by (pose proof (path_dir_shorter p); intuition lia).
  pose proof (path_dir_not_empty p) as Hn0. revert Hle Hn0. generalize (path_dir p) as d, (String.length p) as n.
  clear p. intros d n. revert d. induction n as [|n IH]; intros d Hd Hne; simpl.
  - exists [], d. split; [by case_match|]. destruct Hd as [?|[?|Hd]]; [by eauto|by eauto|].
    destruct d; simpl in *; [done|lia].
  - destruct (bool_decide (d = "/") || bool_decide (d = ".")) eqn:E.
    + exists [], d. split; [done|]. apply orb_true_iff in E as [E|E]; apply bool_decide_eq_true in E; auto.
    + apply orb_false_iff in E as [E1 E2]. apply bool_decide_eq_false in E1, E2.
      destruct (IH (path_dir d)) as (l & e & -> & He); [|apply path_dir_not_empty|by exists (d :: l), e].
      pose proof (path_dir_shorter d). intuition lia.
Qed.

(** Everything that has to hold for a file to be unmanaged. *)
Definition provably_outside (fc : factContext) (localPath : string) (src : Source) : Prop :=
  (∀ id, id ∈ arrIntegrations fc src →
     (∃ fr, fc_fresh fc !! id = Some fr ∧ fr_Fresh fr = true) ∧
     slice (fc_unmapped fc) id = [] ∧ slice (fc_unmappedItems fc) id = []) ∧
  (∀ d, d ∈ ancestors localPath →
     (∀ it, it ∈ slice (fc_folders fc) d → counts src (ai_IntegrationID (ii_facts it)) = false) ∧
     (∀ id, id ∈ slice (fc_roots fc) d → counts src id = false) ∧
     (src_ArrIntegrationID src = None → slice (fc_deletedFolders fc) d = [])) ∧
  (src_ArrIntegrationID src = None → fc_deletedUnmapped fc = []).

Lemma item_folder_none fc src d :
  item_folder fc src d = None ↔ ∀ it, it ∈ slice (fc_folders fc) d → counts src (ai_IntegrationID (ii_facts it)) = false.
Proof.
  unfold item_folder. destruct (List.filter _ _) as [|x l] eqn:E.
  - split; [|done]. intros _ it Hit. destruct (counts src _) eqn:C; [|done].
    assert (Hx : it ∈ List.filter (λ it, counts src (ai_IntegrationID (ii_facts it))) (slice (fc_folders fc) d))
      by (by apply filter_bool_elem). rewrite E in Hx. set_solver.
  - split; [case_steps|]. intros H.
    assert (Hx : x ∈ List.filter (λ it, counts src (ai_IntegrationID (ii_facts it))) (slice (fc_folders fc) d))
      by (rewrite E; by left). apply filter_bool_elem in Hx as [Hx Hc]. by rewrite (H _ Hx) in Hc.
Qed.

Lemma root_folder_none fc src d :
  root_folder fc src d = None ↔
    (∀ id, id ∈ slice (fc_roots fc) d → counts src id = false) ∧
    (src_ArrIntegrationID src = None → slice (fc_deletedFolders fc) d = []).
Proof.
  unfold root_folder, deleted_counts. rewrite <-find_none. destruct (List.find _ _); [naive_solver|].
  case_bool_decide; destruct (slice (fc_deletedFolders fc) d); naive_solver.
Qed.

Lemma stale_integration_none fc id :
  stale_integration fc id = None ↔ ∃ fr, fc_fresh fc !! id = Some fr ∧ fr_Fresh fr = true.
Proof. unfold stale_integration. destruct (fc_fresh fc !! id) as [[[] r]|]; naive_solver. Qed.

Lemma unmapped_integration_none fc id :
  unmapped_integration fc id = None ↔ slice (fc_unmapped fc) id = [] ∧ slice (fc_unmappedItems fc) id = [].
Proof. unfold unmapped_integration. repeat case_match; naive_solver. Qed.

(** No early return of [folderArr] reports the state unmanaged. *)
Lemma early_not_unmanaged fc src d id :
  item_folder fc src d ≠ Some unmanaged ∧ root_folder fc src d ≠ Some unmanaged ∧
  stale_integration fc id ≠ Some unmanaged ∧ unmapped_integration fc id ≠ Some unmanaged.
Proof.
  unfold item_folder, root_folder, stale_integration, unmapped_integration, unmanaged, arr_unknown.
  split_and!; repeat case_match; congruence.
Qed.

Lemma first_some_some {A B} (here : A → option B) l b : first_some here l = Some b → ∃ a, a ∈ l ∧ here a = Some b.
Proof.
  induction l as [|a l IH]; simpl; [done|]. destruct (here a) eqn:E.
  - intros [= <-]. exists a. split; [by left|done].
  - intros (x & Hx & Hb)%IH. exists x. split; [by right|done].
Qed.

(** C19: A file is unmanaged (every arr.* condition false, which a rule may use to
    copy less) exactly when it provably lies outside the *arrs that count for its source
    (the one the source names, or else all of them): each of these has a fresh cache and no
    unmapped root or item folder, no folder above the file is an item folder or a root
    folder of one of them and, when the source names no *arr, no deleted *arr had a folder
    above the file or an unmapped one (S14). *)
Theorem unmanaged_iff_provably_outside (fc : factContext) (localPath : string) (src : Source) :
  folderArr fc localPath src = unmanaged ↔ provably_outside fc localPath src.
Proof.
  assert (Hout : provably_outside fc localPath src ↔
    first_some (item_folder fc src) (ancestors localPath) = None ∧
    first_some (root_folder fc src) (ancestors localPath) = None ∧
    first_some (stale_integration fc) (arrIntegrations fc src) = None ∧
    first_some (unmapped_integration fc) (arrIntegrations fc src) = None ∧
    (src_ArrIntegrationID src = None → fc_deletedUnmapped fc = [])).
  { unfold provably_outside. rewrite !first_some_none.
    setoid_rewrite item_folder_none. setoid_rewrite root_folder_none.
    setoid_rewrite stale_integration_none. setoid_rewrite unmapped_integration_none. firstorder. }
  rewrite Hout. unfold folderArr, deleted_counts.
  pose proof (early_not_unmanaged fc src) as Hearly.
  destruct (first_some (item_folder fc src) _) as [a|] eqn:E1.
  { apply first_some_some in E1 as (d & _ & E1). destruct (Hearly d 0) as (H & _). split; [intros ->; done|by intros [? _]]. }
  destruct (first_some (root_folder fc src) _) as [a|] eqn:E2.
  { apply first_some_some in E2 as (d & _ & E2). destruct (Hearly d 0) as (_ & H & _). split; [intros ->; done|by intros (_ & ? & _)]. }
  destruct (first_some (stale_integration fc) _) as [a|] eqn:E3.
  { apply first_some_some in E3 as (i & _ & E3). destruct (Hearly "" i) as (_ & _ & H & _).
    split; [intros ->; done|by intros (_ & _ & ? & _)]. }
  destruct (first_some (unmapped_integration fc) _) as [a|] eqn:E4.
  { apply first_some_some in E4 as (i & _ & E4). destruct (Hearly "" i) as (_ & _ & _ & H).
    split; [intros ->; done|by intros (_ & _ & _ & ? & _)]. }
  clear. unfold unmanaged, arr_unknown.
  case_bool_decide; destruct (fc_deletedUnmapped fc); split; naive_solver.
Qed.
