(* ===== verification/TierUnknown.v ===== *)
(** * TierUnknown: what is unknown never lowers protection

    The composition of the loading of facts ([internal/tiers/load.go], [resolve.go]) with
    the evaluator ([evaluate.go]): what happens to the tier of a file when the cache of an
    *arr goes stale. The facts then differ only in what the *arrs say, and that is unknown. *)
From stdpp Require Import base gmap list strings.
From S2P Require Import Prelude GoStrings Tiers TierRules TierEval TierFacts.
Open Scope string_scope.
Open Scope Z_scope.

(** ** Facts that know less *)

(** [fc] is [fc'] after some of its caches went stale. *)
Definition gone_stale (fc fc' : factContext) : Prop :=
  fc = mkFactContext (fc_names fc') (fc_arrInts fc') (fc_fresh fc) (fc_items fc') (fc_folders fc') (fc_roots fc')
         (fc_unmapped fc') (fc_unmappedItems fc') (fc_deletedFolders fc') (fc_deletedUnmapped fc') ∧
  (∀ id fr, fc_fresh fc !! id = Some fr → fr_Fresh fr = true → fc_fresh fc' !! id = Some fr).

Definition arr_less (a a' : ArrFacts) : Prop := a = a' ∨ ∃ why, a_State a = ArrUnknown why.
(** [f] is [f'] but for what the *arrs say, which may be unknown for [f]. *)
Definition known_less (f f' : Facts) : Prop := f' = with_arr f (f_Arr f') (f_Follows f) ∧ arr_less (f_Arr f) (f_Arr f').

#[export] Instance known_less_refl : Reflexive known_less.
Proof. intros []. split; [done|by left]. Qed.

(** The first thing found is the same, or unknown. *)
Lemma first_some_less {A} (here here' : A → option ArrFacts) l :
  (∀ x, option_Forall2 arr_less (here x) (here' x)) → option_Forall2 arr_less (first_some here l) (first_some here' l).
Proof.
  intros Hx. induction l as [|x l IH]; simpl; [constructor|]. by destruct (Hx x); [constructor|].
Qed.

Section stale.
Context (fc fc' : factContext) (src : Source).
Hypothesis Hgone : gone_stale fc fc'.

Lemma stale_same : fc_items fc = fc_items fc' ∧ fc_folders fc = fc_folders fc' ∧ fc_names fc = fc_names fc'.
Proof. destruct Hgone as [E _]. rewrite E. done. Qed.
Lemma still_fresh id : fr_Fresh (default stale (fc_fresh fc !! id)) = true → fc_fresh fc' !! id = fc_fresh fc !! id.
Proof. destruct Hgone as [_ H]. destruct (fc_fresh fc !! id) as [fr|] eqn:E; simpl; [|done]. by intros Hf%(H _ _ E). Qed.

Lemma exactArr_less size rows : arr_less (exactArr fc size rows) (exactArr fc' size rows).
Proof.
  destruct stale_same as (Ei & _ & En). unfold exactArr, appName. rewrite Ei, En.
  destruct rows as [|r rows]; [by left|]. destruct (negb _); [by left|]. cbv zeta. destruct (negb (_ =? size)); [by left|].
  destruct (fc_items fc' !! _); [|by left]. destruct (fr_Fresh (default stale (fc_fresh fc !! _))) eqn:E; simpl; [|right; eauto].
  rewrite (still_fresh _ E), E. by left.
Qed.

Lemma item_folder_less d : option_Forall2 arr_less (item_folder fc src d) (item_folder fc' src d).
Proof.
  destruct stale_same as (_ & Ef & _). unfold item_folder. rewrite Ef. destruct (List.filter _ _) as [|x l]; [constructor|].
  destruct (negb (forallb _ _)); [constructor; by left|]. cbv zeta.
  destruct (fr_Fresh (default stale (fc_fresh fc !! _))) eqn:E; simpl.
  - rewrite (still_fresh _ E), E. constructor. by left.
  - destruct (negb _); constructor; right; eauto.
Qed.

Lemma folderArr_less p : arr_less (folderArr fc p src) (folderArr fc' p src).
Proof.
  unfold folderArr. destruct (first_some_less _ _ (ancestors p) item_folder_less) as [a a' Ha|]; [done|].
  assert (Hr : root_folder fc src = root_folder fc' src ∧ unmapped_integration fc = unmapped_integration fc' ∧
    fc_deletedUnmapped fc = fc_deletedUnmapped fc' ∧ arrIntegrations fc src = arrIntegrations fc' src).
  { destruct Hgone as [E _]. rewrite E. done. }
  destruct Hr as (-> & -> & -> & ->). destruct (first_some (root_folder fc' src) _); [by left|].
  destruct (first_some (stale_integration fc) _) as [a|] eqn:E.
  - right. apply first_some_some in E as (id & _ & E). unfold stale_integration in E. case_match; [|done].
    injection E as <-. simpl. eauto.
  - assert (first_some (stale_integration fc') (arrIntegrations fc' src) = None) as ->; [|by left].
    apply first_some_none. intros id Hid. rewrite first_some_none in E. apply E, stale_integration_none in Hid as (fr & Hfr & Hfresh).
    apply stale_integration_none. exists fr. split; [|done]. by apply Hgone.
Qed.

(** *** Sidecars *)

Lemma less_same f f' : known_less f f' →
  f_FileID f = f_FileID f' ∧ f_RelPath f = f_RelPath f' ∧ f_LocalPath f = f_LocalPath f' ∧ f_SourceID f = f_SourceID f' ∧ f_Size f = f_Size f'.
Proof. intros [-> _]. done. Qed.

Lemma stems_less (h h' : Facts → bool) l l' (m m' : gmap string Facts) :
  (∀ f f', known_less f f' → h f = h' f') → Forall2 known_less l l' →
  (∀ k, option_Forall2 known_less (m !! k) (m' !! k)) →
  ∀ k, option_Forall2 known_less
    (foldl (λ m f, if h f then match m !! stem_of (f_RelPath f) with Some _ => m | None => <[stem_of (f_RelPath f) := f]> m end else m) m l !! k)
    (foldl (λ m f, if h' f then match m !! stem_of (f_RelPath f) with Some _ => m | None => <[stem_of (f_RelPath f) := f]> m end else m) m' l' !! k).
Proof.
  intros Hh Hl. revert m m'. induction Hl as [|f f' l l' Hf Hl IH]; intros m m' Hm; simpl; [done|]. apply IH. intros k.
  rewrite <-(Hh f f' Hf). destruct (h f); [|done]. destruct (less_same f f' Hf) as (_ & <- & _).
  destruct (Hm (stem_of (f_RelPath f))); [done|]. destruct (decide (k = stem_of (f_RelPath f))) as [->|Hk].
  - rewrite !lookup_insert_eq. by constructor.
  - rewrite !lookup_insert_ne by done. done.
Qed.
Lemma first_stem_less f f' stems stems' names : known_less f f' →
  (∀ k : string, option_Forall2 known_less (stems !! k) (stems' !! k)) →
  option_Forall2 known_less (first_stem f stems names) (first_stem f' stems' names).
Proof.
  intros Hf Hs. induction names as [|n names IH]; simpl; [constructor|]. destruct (Hs n) as [g g' Hg|]; [|done].
  destruct (less_same _ _ Hf) as (<- & _), (less_same _ _ Hg) as (<- & _). destruct (_ =? _); [done|by constructor].
Qed.

Context (arr : list ArrFile).
Lemma has_row_less f f' : known_less f f' → has_row src arr f = has_row src arr f'.
Proof. intros Hf. unfold has_row, rows_here. by destruct (less_same _ _ Hf) as (_ & _ & -> & _). Qed.
Lemma pass1_less f : known_less (pass1 fc src arr f) (pass1 fc' src arr f).
Proof. unfold pass1. destruct (has_row src arr f); [|done]. split; [done|]. simpl. apply exactArr_less. Qed.
Lemma pass2_less l l' f f' : Forall2 known_less l l' → known_less f f' → known_less (pass2 fc src arr l f) (pass2 fc' src arr l' f').
Proof.
  intros Hl Hf. unfold pass2. rewrite <-(has_row_less _ _ Hf). destruct (has_row src arr f); [done|].
  destruct (less_same _ _ Hf) as (_ & Er & Ep & _).
  assert (Hsib : Forall2 known_less
    (List.filter (λ g, bool_decide (path_dir (f_RelPath g) = path_dir (f_RelPath f))) l)
    (List.filter (λ g, bool_decide (path_dir (f_RelPath g) = path_dir (f_RelPath f'))) l')).
  { rewrite <-Er. clear -Hl. induction Hl as [|g g' l l' Hg Hl IH]; simpl; [done|]. destruct (less_same _ _ Hg) as (_ & <- & _).
    destruct (bool_decide _); [by constructor|done]. }
  unfold mediaFileOf. rewrite <-Er. cbv zeta.
  assert (Hstems : ∀ k, option_Forall2 known_less
    (mediaStems (List.filter (λ g, bool_decide (path_dir (f_RelPath g) = path_dir (f_RelPath f))) l) (has_row src arr) !! k)
    (mediaStems (List.filter (λ g, bool_decide (path_dir (f_RelPath g) = path_dir (f_RelPath f))) l') (has_row src arr) !! k)).
  { rewrite <-Er in Hsib. apply stems_less; [apply has_row_less|done|]. intros k. rewrite !lookup_empty. constructor. }
  destruct (first_stem_less f f' _ _ (dot_prefixes (path_base (f_RelPath f))) Hf Hstems) as [m m' Hm|].
  - destruct Hm as [Em Ha]. destruct Hf as [-> _]. destruct (less_same m m' (conj Em Ha)) as (_ & <- & _). by split.
  - destruct Hf as [-> _]. split; [done|]. simpl. apply folderArr_less.
Qed.
End stale.

Definition flag_ids (flags : list resolvedFlag) (f : Facts) : list Z := (λ rf, fl_ID (rf_flag rf)) <$> List.filter (λ rf, covers rf f) flags.
(** The facts before the flags are looked up. *)
Definition attributed (fc : factContext) (src : Source) (rows : list catalogRow) (arr : list ArrFile) : list Facts :=
  let facts := pass1 fc src arr <$> (fact_of_row src <$> rows) in pass2 fc src arr facts <$> facts.
Lemma loadFacts_flags fc flags src rows arr :
  loadFacts fc flags src rows arr = (λ f, with_plex_flags f (plex_facts src) (flag_ids flags f)) <$> attributed fc src rows arr.
Proof. done. Qed.
Lemma attributed_less fc fc' src rows arr : gone_stale fc fc' → Forall2 known_less (attributed fc src rows arr) (attributed fc' src rows arr).
Proof.
  intros Hg. unfold attributed. cbv zeta. set (l := pass1 fc src arr <$> _). set (l' := pass1 fc' src arr <$> _).
  assert (Hl : Forall2 known_less l l').
  { unfold l, l'. induction rows as [|r rows' IH]; simpl; [constructor|]. constructor; [by apply pass1_less|done]. }
  clearbody l l'. apply Forall2_fmap. eapply Forall2_impl; [exact Hl|]. intros f f' Hf. by apply pass2_less.
Qed.

(** ** Flags *)

(** A flag covers the file only as a file of its *arr item: it lies neither under the
    flag's path nor under the folder of the item. *)
Definition covered_by_item_only (flags : list resolvedFlag) (f : Facts) : Prop :=
  ∃ rf it i, rf ∈ flags ∧ it ∈ rf_items rf ∧ a_State (f_Arr f) = ArrItem i ∧ ai_ItemID i = ai_ItemID (ii_facts it) ∧
    covers_path rf (f_SourceID f) (f_RelPath f) = false ∧ (ii_folder it = "" ∨ under (f_LocalPath f) (ii_folder it) = false).

Lemma covers_less rf flags f f' : known_less f f' → rf ∈ flags → covers rf f' = true → covers rf f = true ∨ covered_by_item_only flags f'.
Proof.
  intros Hf Hin Hc. destruct (covers rf f) eqn:E; [by left|]. right. destruct (less_same _ _ Hf) as (_ & Er & Ep & Es & _).
  unfold covers in *. rewrite orb_false_iff in E. destruct E as [E1 E2]. rewrite Er, Es in E1. rewrite E1 in Hc. simpl in Hc.
  apply existsb_elem in Hc as (it & Hit & Hc). rewrite existsb_false in E2. specialize (E2 it Hit). rewrite Ep, orb_false_iff in E2. destruct E2 as [E2 _].
  rewrite E2 in Hc. simpl in Hc. destruct (a_State (f_Arr f')) as [i| |] eqn:Ea; try done.
  exists rf, it, i. split_and!; try done; [by apply Z.eqb_eq|]. apply andb_false_iff in E2 as [E2|E2]; [left|by right].
  by apply negb_false_iff, bool_decide_eq_true in E2.
Qed.
Lemma flags_less flags f f' : known_less f f' → flag_ids flags f = [] → flag_ids flags f' = [] ∨ covered_by_item_only flags f'.
Proof.
  intros Hf Hn. unfold flag_ids in *. apply fmap_nil_inv in Hn. destruct (List.filter (λ rf, covers rf f') flags) as [|rf l] eqn:E; [by left|].
  right. assert (Hin : rf ∈ List.filter (λ rf, covers rf f') flags) by (rewrite E; by left). apply filter_bool_elem in Hin as [Hin Hc].
  destruct (covers_less rf flags f f' Hf Hin Hc) as [H|H]; [|done].
  assert (Hx : rf ∈ List.filter (λ rf, covers rf f) flags) by (by apply filter_bool_elem). rewrite Hn in Hx. by apply elem_of_nil in Hx.
Qed.

(** ** What the rules see *)

Lemma condition_less equal_fold now c f f' : known_less f f' → co_Field c ≠ FieldFileAge →
  refines (re_Result (evalCondition equal_fold now c f)) (re_Result (evalCondition equal_fold now c f')).
Proof.
  intros [Hf Ha] Hc. unfold evalCondition. cbv zeta. destruct (iso c "invalid"); [by left|]. repeat case_decide; try done; try by (rewrite Hf; right).
  - unfold evalArr. cbv zeta. destruct Ha as [<-|[why ->]]; [by right|]. left. by destruct (isf c FieldArrManaged).
  - right. rewrite Hf. unfold evalCatalog. destruct (isf c FieldSource), (isf c FieldFileSize); try done.
    unfold isf. by rewrite (bool_decide_eq_false_2 (co_Field c = FieldFileAge)).
Qed.

Section decide.
Context (equal_fold : string → string → bool) (e : Evaluator) (destID : Z).
#[local] Abbreviation tier_of f := (Protection (d_Tier (Decide equal_fold e destID f))).
Definition no_file_age : Prop := ∀ r c, r ∈ e_rules e → c ∈ cr_conds r → co_Field c ≠ FieldFileAge.

Lemma stale_not_lower fc fc' flags src rows arr i f f' :
  gone_stale fc fc' → no_file_age → loadFacts fc flags src rows arr !! i = Some f → loadFacts fc' flags src rows arr !! i = Some f' →
  tier_of f' ≤ tier_of f ∨ (f_Flags f = [] ∧ covered_by_item_only flags f').
Proof.
  intros Hg Hage. rewrite !loadFacts_flags, !list_lookup_fmap. pose proof (attributed_less fc fc' src rows arr Hg) as Hall.
  destruct (attributed fc src rows arr !! i) as [g|] eqn:Eg; [|done]. simpl. intros [= <-].
  destruct (Forall2_lookup_l _ _ _ _ _ Hall Eg) as (g' & -> & Hless). simpl. intros [= <-].
  destruct (decide (flag_ids flags g = [])) as [Hn|Hn].
  - destruct (flags_less flags g g' Hless Hn) as [Hn'|Hitem]; [|by right]. left. apply settled_not_higher; [|done].
    intros r c Hr Hc. apply condition_less; [|by eapply Hage]. rewrite Hn, Hn'. destruct Hless as [-> Ha]. by split.
  - left. unfold Decide at 2. simpl. rewrite (bool_decide_eq_false_2 (flag_ids flags g = []) Hn). apply Protection_range.
Qed.
End decide.

(** ** The theorem *)


(** ** Witness: a tagged movie whose Radarr cache goes stale *)

Module Stale.
Definition info : itemInfo := mkItemInfo Samples.item "/data/movies/Night".
Definition loose : itemInfo := mkItemInfo Samples.item "".
Definition context (fresh : bool) (it : itemInfo) : factContext :=
  mkFactContext {[1 := "Radarr"]} [1] {[1 := mkFreshness fresh "Radarr cache is 31 h old"]} {[7 := it]}
    (if decide (ii_folder it = "") then ∅ else {[ii_folder it := [it]]}) {["/data/movies" := [1]]} ∅ ∅ ∅ [].
Definition source : Source := mkSource 2 "/data/movies" None None "".
Definition rows : list catalogRow := [mkCatalogRow 11 "Night/night.mkv" 4000 (900 * Samples.day) "" (100 * Samples.day)].
Definition files : list ArrFile := [mkArrFile 1 7 70 "/data/movies/Night/night.mkv" 4000 None "Bluray-1080p"].
Definition load (fresh : bool) (it : itemInfo) (flags : list resolvedFlag) : list Facts := loadFacts (context fresh it) flags source rows files.
Definition flag : Flag := mkFlag 5 FlagKindArr KindMovie (mkExternalIDs 10331 "" 0 0 "") None None.
Definition resolved (it : itemInfo) : list resolvedFlag := resolveFlags (λ _, []) (λ s, s) (context true it) [flag].
Definition tier_of (f : option Facts) : option Z := (λ f, Protection (d_Tier (Decide ascii_equal_fold Samples.spec_preset 3 f))) <$> f.
End Stale.

Lemma context_stale it : gone_stale (Stale.context false it) (Stale.context true it).
Proof.
  split; [done|]. simpl. intros id fr [<- <-]%lookup_singleton_Some. done.
Qed.


(** The exception is real: an *arr item whose folder no path mapping covers keeps its
    files flagged only while its cache is fresh. When the cache goes stale the flag covers
    nothing, and a rule that is true for every file decides. *)
Theorem stale_cache_drops_flag :
  let facts fresh := Stale.load fresh Stale.loose (Stale.resolved Stale.loose) !! 0%nat in
  (rf_resolved <$> Stale.resolved Stale.loose) = [true] ∧
  f_Flags <$> facts true = Some [5] ∧ Stale.tier_of (facts true) = Some (Protection Full) ∧
  f_Flags <$> facts false = Some [] ∧
  (λ f, d_Tier (Decide ascii_equal_fold (NewEvaluator [Samples.rule 2 [] Manifest] 5 0) 3 f)) <$> facts false = Some Manifest.
Proof. vm_compute. done. Qed.
