(* ===== verification/TierFiles.v ===== *)
(** * TierFiles: the decisions of a whole source ([internal/tiers/engine.go])

    [decideFiles]: hardlink groups take their most protective decision, sidecars
    take their media file's. A Go map is ranged over in an unspecified order: the
    order is an argument, and the decisions do not depend on it. *)
From stdpp Require Import base gmap list strings.
From S2P Require Import Prelude GoStrings Tiers TierRules TierEval TierFacts.
Open Scope string_scope.
Open Scope Z_scope.

Definition with_follows (d : Decision) (rel : string) : Decision :=
  mkDecision (d_Tier d) (d_RuleID d) (d_RuleName d) (d_Reasons d) (d_Unknown d) (d_UnknownPromoted d) (d_Revision d) rel.

(** The zero [Decision] (a missing key of a Go map). *)
Definition zero_decision : Decision := mkDecision (OtherTier "") 0 "" [] [] false 0 "".

Abbreviation decisions := (gmap Z Decision).

Definition prot_at (out : decisions) (f : Facts) : Z :=
  Protection (d_Tier (default zero_decision (out !! f_FileID f))).

(** The first member with the most protective decision. *)
Definition best_of (out : decisions) (members : list Facts) : option Facts :=
  foldl (λ best m,
    match out !! f_FileID m with
    | None => best
    | Some d =>
        match best with
        | None => Some m
        | Some b => if prot_at out b <? Protection (d_Tier d) then Some m else Some b
        end
    end) None members.

Definition raise_member (b : Facts) (out : decisions) (m : Facts) : decisions :=
  match out !! f_FileID m with
  | Some d =>
      if Protection (d_Tier d) <? prot_at out b
      then <[f_FileID m := with_follows (default zero_decision (out !! f_FileID b)) (f_RelPath b)]> out
      else out
  | None => out
  end.

(** One round of the loop of [unify]. *)
Definition unify_group (out : decisions) (members : list Facts) : decisions :=
  match best_of out members with
  | None => out
  | Some b => foldl (raise_member b) out members
  end.

Definition add_group (m : gmap string (list Facts)) (f : Facts) : gmap string (list Facts) :=
  if bool_decide (f_Group f = "") then m else <[f_Group f := (slice m (f_Group f) ++ [f])%list]> m.
Definition groups_of (facts : list Facts) : gmap string (list Facts) := foldl add_group ∅ facts.

(** [unify], ranging over the groups in the order of the names [order]. *)
Definition unify (facts : list Facts) (order : list string) (out : decisions) : decisions :=
  foldl (λ out g, unify_group out (slice (groups_of facts) g)) out order.

Definition by_rel (facts : list Facts) : gmap string Facts :=
  foldl (λ m f, <[f_RelPath f := f]> m) ∅ facts.

(** Whether a file is decided by the evaluator (no media file to follow, or a
    flag of its own). *)
Definition own_decision (f : Facts) : bool :=
  bool_decide (f_Follows f = "") || negb (bool_decide (f_Flags f = [])).

Section decide_files.
Context (equal_fold : string → string → bool) (ev : Evaluator) (destID : Z).

Definition decide_own (out : decisions) (f : Facts) : decisions :=
  if own_decision f then <[f_FileID f := Decide equal_fold ev destID f]> out else out.

Definition decide_sidecar (rels : gmap string Facts) (out : decisions) (f : Facts) : decisions :=
  if own_decision f then out
  else
    let d := match rels !! f_Follows f with
             | Some m => default zero_decision (out !! f_FileID m)
             | None => FallbackDecision (e_revision ev)
             end in
    <[f_FileID f := with_follows d (f_Follows f)]> out.

Definition decideFiles (order1 order2 : list string) (facts : list Facts) : decisions :=
  let out := foldl decide_own ∅ facts in
  let out := unify facts order1 out in
  let out := foldl (decide_sidecar (by_rel facts)) out facts in
  unify facts order2 out.
End decide_files.

(** [SourceDecisions] (the fields [Decide] and [ArrDateAdded] read; a nil pointer
    is [None]). *)
Record SourceDecisions := mkSourceDecisions {
  sd_Revision : Z;
  sd_byFile : decisions;
  sd_arrAdded : gmap string time;
}.

Definition SourceDecisions_Decide (d : option SourceDecisions) (fileID : Z) : Decision :=
  match d with
  | None => FallbackDecision 0
  | Some d => match sd_byFile d !! fileID with Some dec => dec | None => FallbackDecision (sd_Revision d) end
  end.

Definition ArrDateAdded (d : option SourceDecisions) (rel : string) : option time :=
  match d with None => None | Some d => sd_arrAdded d !! rel end.

(** ** One group *)

Lemma with_follows_tier d s : d_Tier (with_follows d s) = d_Tier d.
Proof. done. Qed.

Lemma best_of_snoc out ms m :
  best_of out (ms ++ [m]) =
    match out !! f_FileID m with
    | None => best_of out ms
    | Some d => match best_of out ms with
                | None => Some m
                | Some b => if prot_at out b <? Protection (d_Tier d) then Some m else Some b
                end
    end.
Proof. unfold best_of. rewrite foldl_snoc. done. Qed.

(** The best member is a decided one, at least as protective as every other. *)
Lemma best_of_spec out ms :
  match best_of out ms with
  | None => ∀ m, m ∈ ms → out !! f_FileID m = None
  | Some b => b ∈ ms ∧ is_Some (out !! f_FileID b) ∧
      ∀ m d, m ∈ ms → out !! f_FileID m = Some d → Protection (d_Tier d) ≤ prot_at out b
  end.
Proof.
  induction ms as [|m ms IH] using rev_ind; [by set_solver|].
  rewrite best_of_snoc. destruct (out !! f_FileID m) as [d|] eqn:E.
  - assert (Hm : prot_at out m = Protection (d_Tier d)) by (unfold prot_at; by rewrite E).
    destruct (best_of out ms) as [b|].
    + destruct IH as (Hb & Hs & Hall). destruct (Z.ltb_spec (prot_at out b) (Protection (d_Tier d))) as [Hlt|Hge].
      * split_and!; [set_solver|by rewrite E|]. intros x dx Hx Ex. rewrite Hm.
        apply elem_of_app in Hx as [Hx| ->%list_elem_of_singleton]; [|naive_solver].
        specialize (Hall _ _ Hx Ex). lia.
      * split_and!; [set_solver|done|]. intros x dx Hx Ex.
        apply elem_of_app in Hx as [Hx| ->%list_elem_of_singleton]; [eauto|]. simplify_eq. lia.
    + split_and!; [set_solver|by rewrite E|]. intros x dx Hx Ex. rewrite Hm.
      apply elem_of_app in Hx as [Hx| ->%list_elem_of_singleton]; [by rewrite IH in Ex|]. by simplify_eq.
  - destruct (best_of out ms) as [b|].
    + destruct IH as (Hb & Hs & Hall). split_and!; [set_solver|done|]. intros x dx Hx Ex.
      apply elem_of_app in Hx as [Hx| ->%list_elem_of_singleton]; [eauto|congruence].
    + intros x Hx. apply elem_of_app in Hx as [Hx| ->%list_elem_of_singleton]; [eauto|done].
Qed.

(** What [unify_group] makes of the decision of a file. *)
Definition unified (out : decisions) (ms : list Facts) (id : Z) : option Decision :=
  match best_of out ms, out !! id with
  | Some b, Some d =>
      if bool_decide (id ∈ f_FileID <$> ms) && (Protection (d_Tier d) <? prot_at out b)
      then Some (with_follows (default zero_decision (out !! f_FileID b)) (f_RelPath b)) else Some d
  | _, o => o
  end.

Lemma raise_member_best b out m :
  raise_member b out m !! f_FileID b = out !! f_FileID b.
Proof.
  unfold raise_member. destruct (out !! f_FileID m) as [d|] eqn:E; [|done].
  destruct (Z.ltb_spec (Protection (d_Tier d)) (prot_at out b)); [|done].
  destruct (decide (f_FileID m = f_FileID b)) as [Heq|]; [|by rewrite lookup_insert_ne].
  unfold prot_at in *. rewrite <-Heq, E in *. simpl in *. lia.
Qed.

Lemma raise_all_lookup b ms out id :
  foldl (raise_member b) out ms !! id =
    match out !! id with
    | Some d => if bool_decide (id ∈ f_FileID <$> ms) && (Protection (d_Tier d) <? prot_at out b)
                then Some (with_follows (default zero_decision (out !! f_FileID b)) (f_RelPath b)) else Some d
    | None => None
    end.
Proof.
  induction ms as [|m ms IH] using rev_ind.
  { cbn [foldl]. rewrite bool_decide_false by set_solver. by destruct (out !! id). }
  rewrite foldl_snoc. set (out' := foldl (raise_member b) out ms) in *.
  assert (Hb : out' !! f_FileID b = out !! f_FileID b).
  { unfold out'. clear. induction ms as [|x ms IH] using rev_ind; [done|].
    by rewrite foldl_snoc, raise_member_best, IH. }
  assert (Hp : prot_at out' b = prot_at out b) by (unfold prot_at; by rewrite Hb).
  rewrite fmap_app. unfold raise_member. destruct (decide (f_FileID m = id)) as [<-|Hne].
  - rewrite IH. destruct (out !! f_FileID m) as [d|] eqn:E; [|by rewrite IH].
    rewrite (bool_decide_true (f_FileID m ∈ (_ ++ _)%list)) by set_solver. simpl.
    destruct (Z.ltb_spec (Protection (d_Tier d)) (prot_at out b)) as [Hlt|Hge]; simpl.
    + rewrite andb_true_r. case_bool_decide; simpl; rewrite Hp.
      * rewrite (proj2 (Z.ltb_ge _ _)); [done|].
        unfold prot_at. lia.
      * rewrite (proj2 (Z.ltb_lt _ _) Hlt). by rewrite lookup_insert_eq, Hb.
    + rewrite andb_false_r, Hp. simpl. by rewrite (proj2 (Z.ltb_ge _ _) Hge), IH, andb_false_r.
  - assert (Hin : bool_decide (id ∈ ((f_FileID <$> ms) ++ (f_FileID <$> [m]))%list) = bool_decide (id ∈ f_FileID <$> ms)).
    { apply bool_decide_ext. rewrite elem_of_app. set_solver. }
    rewrite Hin, <-IH. repeat case_match; try done; by rewrite lookup_insert_ne.
Qed.

Lemma unify_group_lookup out ms id : unify_group out ms !! id = unified out ms id.
Proof.
  unfold unify_group, unified. destruct (best_of out ms); [apply raise_all_lookup|].
  by destruct (out !! id).
Qed.

Lemma unified_outside out ms id : id ∉ f_FileID <$> ms → unified out ms id = out !! id.
Proof.
  intros Hid. unfold unified. rewrite bool_decide_false by done. by destruct (best_of out ms), (out !! id).
Qed.

(** A decided member ends with a tier that some member had, at least as protective
    as every member's. *)
Lemma unified_spec out ms f d :
  f ∈ ms → out !! f_FileID f = Some d →
  ∃ d', unified out ms (f_FileID f) = Some d' ∧
    (∃ m dm, m ∈ ms ∧ out !! f_FileID m = Some dm ∧ d_Tier d' = d_Tier dm) ∧
    (∀ m dm, m ∈ ms → out !! f_FileID m = Some dm → Protection (d_Tier dm) ≤ Protection (d_Tier d')).
Proof.
  intros Hf Hd. unfold unified. pose proof (best_of_spec out ms) as Hb.
  destruct (best_of out ms) as [b|]; [|by rewrite Hb in Hd].
  destruct Hb as (Hin & [db Hdb] & Hall). rewrite Hd, Hdb. unfold prot_at in Hall |- *. rewrite Hdb in Hall |- *. simpl in *.
  rewrite bool_decide_true by set_solver. simpl.
  destruct (Z.ltb_spec (Protection (d_Tier d)) (Protection (d_Tier db))) as [Hlt|Hge].
  - eexists. split_and!; [done|by exists b, db|]. exact Hall.
  - exists d. split_and!; [done|by exists f, d|]. intros m dm Hm Hdm. specialize (Hall _ _ Hm Hdm). lia.
Qed.

Lemma best_of_agree out out' ms :
  (∀ m, m ∈ ms → out' !! f_FileID m = out !! f_FileID m) → best_of out' ms = best_of out ms.
Proof.
  induction ms as [|m ms IH] using rev_ind; intros H; [done|].
  rewrite !best_of_snoc, IH by set_solver. rewrite (H m) by set_solver.
  destruct (out !! f_FileID m); [|done]. pose proof (best_of_spec out ms) as Hb.
  destruct (best_of out ms) as [b|]; [|done]. unfold prot_at. by rewrite (H b) by set_solver.
Qed.

Lemma unified_agree out out' ms id :
  (∀ m, m ∈ ms → out' !! f_FileID m = out !! f_FileID m) → out' !! id = out !! id →
  unified out' ms id = unified out ms id.
Proof.
  intros H Hid. unfold unified. rewrite (best_of_agree out out') by done. rewrite Hid.
  pose proof (best_of_spec out ms) as Hb. destruct (best_of out ms) as [b|]; [|done].
  unfold prot_at. by rewrite (H b) by set_solver.
Qed.

(** ** All groups *)

Definition members (facts : list Facts) (g : string) : list Facts :=
  if decide (g = "") then [] else List.filter (λ f, bool_decide (f_Group f = g)) facts.

Lemma members_elem facts g f : f ∈ members facts g ↔ f ∈ facts ∧ f_Group f = g ∧ g ≠ "".
Proof.
  unfold members. case_decide; [set_solver|]. rewrite filter_bool_elem, bool_decide_eq_true. naive_solver.
Qed.

Lemma groups_of_lookup facts g : groups_of facts !! g = match members facts g with [] => None | l => Some l end.
Proof.
  induction facts as [|f facts IH] using rev_ind; [unfold members; by case_decide|].
  unfold groups_of in *. rewrite foldl_snoc. unfold add_group at 1.
  assert (Hm : members (facts ++ [f]) g =
    (members facts g ++ (if bool_decide (f_Group f = g) && negb (bool_decide (g = "")) then [f] else []))%list).
  { unfold members. destruct (decide (g = "")); [by rewrite (bool_decide_true (g = "")), andb_false_r by done|].
    rewrite List.filter_app. simpl. rewrite (bool_decide_false (g = "")) by done. simpl. by rewrite andb_true_r. }
  rewrite Hm. clear Hm. destruct (decide (f_Group f = g)) as [<-|Hne].
  - rewrite (bool_decide_true (f_Group f = f_Group f)) by done. destruct (bool_decide (f_Group f = "")); simpl.
    + by rewrite app_nil_r, IH.
    + rewrite lookup_insert_eq. unfold slice. rewrite IH. by destruct (members facts (f_Group f)).
  - rewrite (bool_decide_false (f_Group f = g)) by done. simpl. rewrite app_nil_r.
    case_bool_decide; [done|]. by rewrite lookup_insert_ne.
Qed.

Lemma slice_groups_of facts g : slice (groups_of facts) g = members facts g.
Proof. unfold slice. rewrite groups_of_lookup. by destruct (members facts g). Qed.

(** An order in which a Go [range] visits the keys of a map. *)
Definition range_order {A} (m : gmap string A) (order : list string) : Prop := order ≡ₚ (map_to_list m).*1.

Lemma range_order_elem {A} (m : gmap string A) order k : range_order m order → k ∈ order ↔ is_Some (m !! k).
Proof.
  intros ->. rewrite list_elem_of_fmap. split.
  - intros ([k' a] & -> & H%elem_of_map_to_list). by eexists.
  - intros [a H%elem_of_map_to_list]. by exists (k, a).
Qed.

Lemma range_order_nodup {A} (m : gmap string A) order : range_order m order → NoDup order.
Proof. intros ->. apply NoDup_fst_map_to_list. Qed.

Section all_groups.
Context (facts : list Facts) (Hids : NoDup (f_FileID <$> facts)).

Lemma ids_inj f g : f ∈ facts → g ∈ facts → f_FileID f = f_FileID g → f = g.
Proof.
  clear -Hids. induction facts as [|x l IH]; [set_solver|].
  inversion Hids as [|? ? Hx Hl]; subst. rewrite !elem_of_cons.
  intros [->|Hf] [->|Hg] E; [done| | |by apply IH];
    exfalso; apply Hx, list_elem_of_fmap; by eauto.
Qed.

Lemma unify_outside order out id : id ∉ f_FileID <$> facts → unify facts order out !! id = out !! id.
Proof.
  intros Hid. revert out. induction order as [|g order IH]; intros out; [done|].
  simpl. etrans; [apply IH|]. rewrite unify_group_lookup, slice_groups_of. apply unified_outside.
  contradict Hid. apply list_elem_of_fmap in Hid as (m & -> & Hm%members_elem). apply list_elem_of_fmap. naive_solver.
Qed.

Lemma unify_group_other out g f :
  f ∈ facts → f_Group f ≠ g → unify_group out (slice (groups_of facts) g) !! f_FileID f = out !! f_FileID f.
Proof.
  intros Hf Hg. rewrite unify_group_lookup, slice_groups_of. apply unified_outside.
  intros (m & E & Hm)%list_elem_of_fmap. apply members_elem in Hm as (Hm & <- & _).
  apply Hg. by rewrite (ids_inj f m).
Qed.

Lemma unify_lookup_gen order out f :
  NoDup order → f ∈ facts →
  unify facts order out !! f_FileID f =
    if decide (f_Group f ∈ order) then unified out (members facts (f_Group f)) (f_FileID f) else out !! f_FileID f.
Proof.
  intros Hnd Hf. revert out. induction Hnd as [|g order Hg Hnd IH]; intros out.
  { rewrite decide_False by set_solver. done. }
  change (unify facts (g :: order) out) with (unify facts order (unify_group out (slice (groups_of facts) g))).
  rewrite IH. destruct (decide (f_Group f = g)) as [<-|Hne].
  - rewrite (decide_False (P := f_Group f ∈ order)), (decide_True (P := f_Group f ∈ f_Group f :: order)) by set_solver.
    by rewrite unify_group_lookup, slice_groups_of.
  - rewrite (decide_ext (f_Group f ∈ g :: order) (f_Group f ∈ order)) by set_solver.
    case_decide; [|by apply unify_group_other]. apply unified_agree; [|by apply unify_group_other].
    intros m (Hm & E & _)%members_elem. apply unify_group_other; congruence.
Qed.

Lemma unify_lookup order out f :
  range_order (groups_of facts) order → f ∈ facts →
  unify facts order out !! f_FileID f = unified out (members facts (f_Group f)) (f_FileID f).
Proof.
  intros Ho Hf. rewrite unify_lookup_gen by eauto using range_order_nodup.
  case_decide as Hin; [done|]. rewrite unified_outside; [done|].
  intros (m & E & Hm)%list_elem_of_fmap. apply Hin, (range_order_elem _ _ _ Ho).
  rewrite groups_of_lookup. destruct (members facts (f_Group f)); [set_solver|by eexists].
Qed.

Lemma unify_order order order' out :
  range_order (groups_of facts) order → range_order (groups_of facts) order' →
  unify facts order out = unify facts order' out.
Proof.
  intros Ho Ho'. apply map_eq. intros id. destruct (decide (id ∈ f_FileID <$> facts)) as [Hin|Hout].
  - apply list_elem_of_fmap in Hin as (f & -> & Hf). by rewrite !unify_lookup.
  - by rewrite !unify_outside.
Qed.

(** A decided file of a group, after the unification. *)
Lemma unify_spec order out f d :
  range_order (groups_of facts) order → f ∈ facts → out !! f_FileID f = Some d →
  ∃ d', unify facts order out !! f_FileID f = Some d' ∧
    Protection (d_Tier d) ≤ Protection (d_Tier d') ∧
    (∃ m dm, m ∈ facts ∧ out !! f_FileID m = Some dm ∧ d_Tier d' = d_Tier dm) ∧
    (∀ m dm, m ∈ facts → f_Group m = f_Group f → f_Group f ≠ "" → out !! f_FileID m = Some dm →
       Protection (d_Tier dm) ≤ Protection (d_Tier d')) ∧
    (f_Group f ≠ "" → ∃ m dm, m ∈ facts ∧ f_Group m = f_Group f ∧ out !! f_FileID m = Some dm ∧ d_Tier d' = d_Tier dm).
Proof.
  intros Ho Hf Hd. rewrite unify_lookup by done. destruct (decide (f_Group f = "")) as [E|E].
  - exists d. unfold members. rewrite decide_True by done. rewrite unified_outside by set_solver.
    split_and!; [done|lia|by exists f, d|done|done].
  - destruct (unified_spec out (members facts (f_Group f)) f d) as (d' & -> & (m & dm & Hm & Hdm & Ht) & Hall);
      [by apply members_elem|done|].
    apply members_elem in Hm as (Hm & Hg & _). exists d'. split_and!; [done| |by exists m, dm| |by exists m, dm].
    + eapply Hall; [|done]. by apply members_elem.
    + intros x dx Hx Hgx _ Hdx. eapply Hall; [|done]. by apply members_elem.
Qed.
End all_groups.

(** ** The two passes over the files *)

Section decide_files_facts.
Context (equal_fold : string → string → bool) (ev : Evaluator) (destID : Z) (facts : list Facts).
Context (Hids : NoDup (f_FileID <$> facts)) (Hrels : NoDup (f_RelPath <$> facts)).
#[local] Abbreviation Decide := (Decide equal_fold ev destID).
#[local] Abbreviation decide_own := (decide_own equal_fold ev destID).
#[local] Abbreviation decide_sidecar := (decide_sidecar ev).

(** A file another one follows is in the list and follows no file itself (what
    [loadFacts] produces: [loadFacts_follows]). *)
Definition follows_ok : Prop :=
  ∀ f, f ∈ facts → f_Follows f ≠ "" → ∃ m, m ∈ facts ∧ f_RelPath m = f_Follows f ∧ f_Follows m = "".

Lemma own_of_media m : f_Follows m = "" → own_decision m = true.
Proof. intros E. unfold own_decision. by rewrite bool_decide_true by done. Qed.

Lemma own_pass f :
  f ∈ facts → foldl decide_own ∅ facts !! f_FileID f = if own_decision f then Some (Decide f) else None.
Proof.
  intros Hf. assert (Hgen : ∀ l out, NoDup (f_FileID <$> l) → (∀ g, g ∈ l → out !! f_FileID g = None) →
    f ∈ l → foldl decide_own out l !! f_FileID f = if own_decision f then Some (Decide f) else None).
  2: { by apply Hgen. }
  clear. intros l. induction l as [|x l IH] using rev_ind; intros out Hnd Hout Hf; [set_solver|].
  rewrite fmap_app in Hnd. apply NoDup_app in Hnd as (Hnd & Hx & _). rewrite foldl_snoc. unfold TierFiles.decide_own at 1.
  apply elem_of_app in Hf as [Hf| ->%list_elem_of_singleton].
  - assert (f_FileID x ≠ f_FileID f) by (intros E; apply (Hx (f_FileID f)); [set_solver|]; rewrite <-E; set_solver).
    destruct (own_decision x); [rewrite lookup_insert_ne by done|]; apply IH; set_solver.
  - destruct (own_decision x); [by rewrite lookup_insert_eq|].
    assert (Hskip : ∀ k, k ∉ f_FileID <$> l → foldl decide_own out l !! k = out !! k).
    { clear. intros k. induction l as [|y l IH] using rev_ind; intros Hk; [done|].
      rewrite foldl_snoc. unfold TierFiles.decide_own at 1. rewrite fmap_app in Hk.
      destruct (own_decision y); [rewrite lookup_insert_ne by set_solver|]; apply IH; set_solver. }
    rewrite Hskip; [set_solver|]. intros Hin. apply (Hx _ Hin). set_solver.
Qed.

Lemma by_rel_lookup m : m ∈ facts → by_rel facts !! f_RelPath m = Some m.
Proof.
  clear Hids. unfold by_rel. induction facts as [|x l IH] using rev_ind; [set_solver|].
  rewrite fmap_app in Hrels. apply NoDup_app in Hrels as (Hnd & Hx & _). rewrite foldl_snoc.
  intros [Hm| ->%list_elem_of_singleton]%elem_of_app; [|by rewrite lookup_insert_eq].
  rewrite lookup_insert_ne; [by apply IH|]. intros E. apply (Hx (f_RelPath m)); [set_solver|]. rewrite <-E. set_solver.
Qed.

(** The sidecars' pass leaves the files the evaluator decided alone, and gives a
    sidecar its media file's decision. *)
Lemma sidecar_pass out f :
  follows_ok → f ∈ facts →
  foldl (decide_sidecar (by_rel facts)) out facts !! f_FileID f =
    if own_decision f then out !! f_FileID f
    else match by_rel facts !! f_Follows f with
         | Some m => Some (with_follows (default zero_decision (out !! f_FileID m)) (f_Follows f))
         | None => Some (with_follows (FallbackDecision (e_revision ev)) (f_Follows f))
         end.
Proof.
  intros Hok Hf.
  assert (Hown : ∀ l m, l ⊆ facts → m ∈ facts → own_decision m = true →
    foldl (decide_sidecar (by_rel facts)) out l !! f_FileID m = out !! f_FileID m).
  { intros l m Hl Hm Hom. induction l as [|y l IH] using rev_ind; [done|].
    rewrite foldl_snoc. unfold TierFiles.decide_sidecar at 1. destruct (own_decision y) eqn:Ey; [apply IH; set_solver|].
    rewrite lookup_insert_ne; [apply IH; set_solver|]. intros E.
    assert (y = m) by (apply (ids_inj facts Hids); [set_solver..|done]). congruence. }
  destruct (own_decision f) eqn:Ef; [by apply Hown|].
  assert (Hfol : f_Follows f ≠ "") by (intros E; unfold own_decision in Ef; by rewrite bool_decide_true in Ef).
  destruct (Hok f Hf Hfol) as (m & Hm & Hr & Hfm). rewrite <-Hr, by_rel_lookup by done. rewrite Hr.
  assert (Hgen : ∀ l, l ⊆ facts → f ∈ l → foldl (decide_sidecar (by_rel facts)) out l !! f_FileID f =
    Some (with_follows (default zero_decision (out !! f_FileID m)) (f_Follows f))).
  2: { by apply Hgen. }
  intros l. induction l as [|y l IH] using rev_ind; intros Hl Hin; [set_solver|].
  rewrite foldl_snoc. unfold TierFiles.decide_sidecar at 1. destruct (decide (f_FileID y = f_FileID f)) as [E|Hne].
  - apply (ids_inj facts Hids) in E as ->; [|set_solver|done].
    rewrite Ef, lookup_insert_eq, <-Hr, by_rel_lookup by done. rewrite Hown; [done|set_solver|done|by apply own_of_media].
  - assert (y ≠ f) by congruence.
    destruct (own_decision y); [|rewrite lookup_insert_ne by done]; apply IH; set_solver.
Qed.
End decide_files_facts.

(** ** What [loadFacts] produces *)

Lemma mediaStems_elem sib row s m :
  mediaStems sib row !! s = Some m → m ∈ sib ∧ row m = true.
Proof.
  unfold mediaStems. revert m. induction sib as [|f sib IH] using rev_ind; intros m; [done|].
  rewrite foldl_snoc. destruct (row f) eqn:Er; [|intros H; destruct (IH _ H); set_solver].
  destruct (_ !! stem_of (f_RelPath f)) eqn:El; [intros H; destruct (IH _ H); set_solver|].
  destruct (decide (stem_of (f_RelPath f) = s)) as [<-|Hne].
  - rewrite lookup_insert_eq. intros [= <-]. set_solver.
  - rewrite lookup_insert_ne by done. intros H. destruct (IH _ H); set_solver.
Qed.

Lemma mediaFileOf_elem f sib row m : mediaFileOf f (mediaStems sib row) = Some m → m ∈ sib ∧ row m = true.
Proof.
  unfold mediaFileOf. induction (dot_prefixes _) as [|n names IH]; simpl; [done|].
  destruct (_ !! n) eqn:E; [|done]. case_match; [done|]. intros [= <-]. by eapply mediaStems_elem.
Qed.

Section load_facts.
Context (fc : factContext) (flags : list resolvedFlag) (src : Source) (rows : list catalogRow) (arr : list ArrFile).

Lemma pass1_same f :
  f_RelPath (pass1 fc src arr f) = f_RelPath f ∧ f_FileID (pass1 fc src arr f) = f_FileID f ∧
  has_row src arr (pass1 fc src arr f) = has_row src arr f ∧
  (f_Follows f = "" → f_Follows (pass1 fc src arr f) = "").
Proof. unfold pass1. by destruct (has_row src arr f) eqn:E. Qed.

Lemma pass2_same l f :
  f_RelPath (pass2 fc src arr l f) = f_RelPath f ∧ f_FileID (pass2 fc src arr l f) = f_FileID f.
Proof. unfold pass2. destruct (has_row src arr f); [done|]. by destruct (mediaFileOf _ _). Qed.

Lemma loadFacts_ids : f_FileID <$> loadFacts fc flags src rows arr = row_id <$> rows.
Proof.
  unfold loadFacts. rewrite <-!list_fmap_compose. apply list_fmap_ext. intros i r _. simpl.
  rewrite (proj2 (pass2_same _ _)). by rewrite (proj1 (proj2 (pass1_same _))).
Qed.

Lemma loadFacts_rels : f_RelPath <$> loadFacts fc flags src rows arr = row_rel <$> rows.
Proof.
  unfold loadFacts. rewrite <-!list_fmap_compose. apply list_fmap_ext. intros i r _. simpl.
  rewrite (proj1 (pass2_same _ _)). by rewrite (proj1 (pass1_same _)).
Qed.

(** A sidecar follows a file of the list that has an *arr file of its own. *)
Lemma loadFacts_follows : follows_ok (loadFacts fc flags src rows arr).
Proof.
  unfold follows_ok, loadFacts. intros f (g & -> & Hg)%list_elem_of_fmap. simpl.
  apply list_elem_of_fmap in Hg as (h & -> & Hh). unfold pass2. destruct (has_row src arr h) eqn:Eh.
  - apply list_elem_of_fmap in Hh as (r0 & -> & Hr). apply list_elem_of_fmap in Hr as (r & -> & Hr).
    by rewrite (proj2 (proj2 (proj2 (pass1_same _)))).
  - destruct (mediaFileOf _ _) as [m|] eqn:Em; [|done]. intros _. simpl.
    apply mediaFileOf_elem in Em as [Hm Hrow]. apply filter_bool_elem in Hm as [Hm _].
    eexists. split; [apply list_elem_of_fmap; eexists; split; [done|]; apply list_elem_of_fmap; by exists m|].
    simpl. unfold pass2. rewrite Hrow. split; [done|].
    apply list_elem_of_fmap in Hm as (r0 & -> & Hr). apply list_elem_of_fmap in Hr as (r & -> & Hr).
    by apply pass1_same.
Qed.
End load_facts.

(** ** Theorems *)

Section theorems.
Context (equal_fold : string → string → bool) (ev : Evaluator) (destID : Z).

Lemma decideFiles_steps facts o1 o2 f :
  NoDup (f_FileID <$> facts) → NoDup (f_RelPath <$> facts) → follows_ok facts →
  range_order (groups_of facts) o1 → range_order (groups_of facts) o2 → f ∈ facts →
  let out2 := foldl (decide_sidecar ev (by_rel facts)) (unify facts o1 (foldl (decide_own equal_fold ev destID) ∅ facts)) facts in
  ∃ d2 d, out2 !! f_FileID f = Some d2 ∧ decideFiles equal_fold ev destID o1 o2 facts !! f_FileID f = Some d ∧
    Protection (d_Tier d2) ≤ Protection (d_Tier d) ∧
    (∃ m, m ∈ facts ∧ d_Tier d2 = d_Tier (Decide equal_fold ev destID m)) ∧
    (∀ m, m ∈ facts → (if own_decision f then m = f else f_RelPath m = f_Follows f) →
       Protection (d_Tier (Decide equal_fold ev destID m)) ≤ Protection (d_Tier d2)).
Proof.
  intros Hids Hrels Hok H1 H2 Hf out2.
  set (out1 := unify facts o1 (foldl (decide_own equal_fold ev destID) ∅ facts)) in *.
  assert (Hown : ∀ m, m ∈ facts → own_decision m = true → ∃ d1, out1 !! f_FileID m = Some d1 ∧
    Protection (d_Tier (Decide equal_fold ev destID m)) ≤ Protection (d_Tier d1) ∧
    ∃ x, x ∈ facts ∧ d_Tier d1 = d_Tier (Decide equal_fold ev destID x)).
  { intros m Hm Ho. pose proof (own_pass equal_fold ev destID facts Hids m Hm) as E. rewrite Ho in E.
    destruct (unify_spec facts Hids o1 _ m _ H1 Hm E) as (d1 & Hd1 & Hp & (x & dx & Hx & Edx & Et) & _).
    exists d1. split_and!; [done|done|]. exists x. split; [done|].
    pose proof (own_pass equal_fold ev destID facts Hids x Hx) as Ex. rewrite Ex in Edx.
    destruct (own_decision x); [|done]. by simplify_eq. }
  assert (Hout2 : ∃ d2, out2 !! f_FileID f = Some d2 ∧
    (∃ m, m ∈ facts ∧ d_Tier d2 = d_Tier (Decide equal_fold ev destID m)) ∧
    (∀ m, m ∈ facts → (if own_decision f then m = f else f_RelPath m = f_Follows f) →
       Protection (d_Tier (Decide equal_fold ev destID m)) ≤ Protection (d_Tier d2))).
  { unfold out2. rewrite (sidecar_pass ev facts Hids Hrels) by done. destruct (own_decision f) eqn:Ef.
    - destruct (Hown f Hf Ef) as (d1 & Hd1 & Hp & x & Hx & Et). exists d1. split_and!; [done|by exists x|]. by intros m _ ->.
    - assert (Hfol : f_Follows f ≠ "") by (intros E; unfold own_decision in Ef; by rewrite bool_decide_true in Ef).
      destruct (Hok f Hf Hfol) as (m & Hm & Hr & Hfm). rewrite <-Hr, (by_rel_lookup facts Hrels) by done.
      destruct (Hown m Hm (own_of_media m Hfm)) as (d1 & Hd1 & Hp & x & Hx & Et).
      exists (with_follows d1 (f_RelPath m)). rewrite Hd1. split_and!; [done|by exists x|].
      intros m' Hm' Hr'. pose proof (by_rel_lookup facts Hrels m Hm) as E1.
      pose proof (by_rel_lookup facts Hrels m' Hm') as E2. rewrite Hr' in E2. rewrite E1 in E2. by simplify_eq. }
  destruct Hout2 as (d2 & Hd2 & Hex & Hall).
  destruct (unify_spec facts Hids o2 _ f _ H2 Hf Hd2) as (d & Hd & Hp & _). by exists d2, d.
Qed.

(** C20. Whatever order Go ranges over the hardlink groups in, the decisions of a
    source's files ([decideFiles] on what [loadFacts] produces) are these: every
    file is decided; a file covered by an irreplaceable flag is full; a file is at
    least as well protected as its own decision (a sidecar: as its media file's)
    and has a tier the rules gave to some file of the source; and all names of a
    hardlink group get the same tier protection. *)
Theorem decideFiles_protects (fc : factContext) (flags : list resolvedFlag) (src : Source) (rows : list catalogRow)
    (arr : list ArrFile) (o1 o2 : list string)
    (Hids : NoDup (row_id <$> rows)) (Hrels : NoDup (row_rel <$> rows))
    (H1 : range_order (groups_of (loadFacts fc flags src rows arr)) o1)
    (H2 : range_order (groups_of (loadFacts fc flags src rows arr)) o2) :
  let facts := loadFacts fc flags src rows arr in
  let out := decideFiles equal_fold ev destID o1 o2 facts in
  (∀ f, f ∈ facts → ∃ d, out !! f_FileID f = Some d ∧
     (f_Flags f ≠ [] → d_Tier d = Full) ∧
     (∀ m, m ∈ facts → (if own_decision f then m = f else f_RelPath m = f_Follows f) →
        Protection (d_Tier (Decide equal_fold ev destID m)) ≤ Protection (d_Tier d)) ∧
     (∃ m, m ∈ facts ∧ d_Tier d = d_Tier (Decide equal_fold ev destID m))) ∧
  (∀ f g, f ∈ facts → g ∈ facts → f_Group f = f_Group g → f_Group f ≠ "" → prot_at out f = prot_at out g).
Proof.
  intros facts out. rewrite <-(loadFacts_ids fc flags src rows arr) in Hids.
  rewrite <-(loadFacts_rels fc flags src rows arr) in Hrels. fold facts in Hids, Hrels, H1, H2.
  pose proof (loadFacts_follows fc flags src rows arr) as Hok. fold facts in Hok.
  assert (Hst : ∀ f, f ∈ facts → _) by (intros f; exact (decideFiles_steps facts o1 o2 f Hids Hrels Hok H1 H2)).
  cbv zeta in Hst. fold out in Hst. split.
  - intros f Hf. destruct (Hst f Hf) as (d2 & d & Hd2 & Hd & Hp & _ & Hall).
    destruct (unify_spec facts Hids o2 _ f _ H2 Hf Hd2) as (d' & Hd' & _ & (x & dx & Hx & Edx & Et) & _).
    unfold out in Hd |- *. unfold decideFiles in Hd |- *. rewrite Hd' in Hd. simplify_eq. exists d. split_and!; [done|..].
    + intros Hfl. apply Protection_full. pose proof (Protection_range (d_Tier d)).
      assert (Ho : own_decision f = true) by (unfold own_decision; rewrite (bool_decide_false (f_Flags f = [])) by done; apply orb_true_r).
      rewrite Ho in Hall. specialize (Hall f Hf eq_refl). unfold Decide in Hall. rewrite bool_decide_false in Hall by done.
      simpl in Hall. lia.
    + intros m Hm Hr. specialize (Hall m Hm Hr). lia.
    + destruct (Hst x Hx) as (dx2 & _ & Hdx2 & _ & _ & (m & Hm & Em) & _). exists m. split; [done|]. congruence.
  - intros f g Hf Hg E Hne. destruct (Hst f Hf) as (d2 & _ & Hd2 & _). destruct (Hst g Hg) as (e2 & _ & He2 & _).
    destruct (unify_spec facts Hids o2 _ f _ H2 Hf Hd2) as (d & Hd & _ & _ & Hda & Hdm).
    destruct (unify_spec facts Hids o2 _ g _ H2 Hg He2) as (e & He & _ & _ & Hea & Hem).
    unfold prot_at, out, decideFiles. rewrite Hd, He. simpl.
    destruct (Hdm Hne) as (x & dx & Hx & Gx & Ex & Tx). destruct Hem as (y & dy & Hy & Gy & Ey & Ty); [congruence|].
    specialize (Hda y dy Hy). specialize (Hea x dx Hx). rewrite Tx, Ty in *.
    apply Z.le_antisymm; [apply Hea|apply Hda]; congruence.
Qed.

(** Go ranges over the map of hardlink groups in an unspecified order, twice:
    the decisions do not depend on it. *)
Theorem decideFiles_deterministic (facts : list Facts) (o1 o2 o1' o2' : list string) (Hids : NoDup (f_FileID <$> facts))
    (H1 : range_order (groups_of facts) o1) (H2 : range_order (groups_of facts) o2)
    (H1' : range_order (groups_of facts) o1') (H2' : range_order (groups_of facts) o2') :
  decideFiles equal_fold ev destID o1 o2 facts = decideFiles equal_fold ev destID o1' o2' facts.
Proof. unfold decideFiles. by rewrite (unify_order facts Hids o1 o1'), (unify_order facts Hids o2 o2'). Qed.
End theorems.

(** A source with a film under two hardlinked names, of which the *arr knows one,
    its subtitle, and a loose extra that is flagged. *)
Module SourceSample.
Definition src : Source := mkSource 2 "/data/movies" None None "".
Definition rows : list catalogRow :=
  [mkCatalogRow 11 "Night/night.mkv" 4000 0 "g1" 0; mkCatalogRow 12 "Night/night.nl.srt" 10 0 "" 0;
   mkCatalogRow 13 "import/night.mkv" 4000 0 "g1" 0; mkCatalogRow 14 "extra/home.mkv" 500 0 "" 0].
Definition arr : list ArrFile := [mkArrFile 1 7 70 "/data/movies/Night/night.mkv" 4000 None "Bluray-1080p"].
Definition fc : factContext :=
  mkFactContext {[1 := "Radarr"]} [1] {[1 := mkFreshness true ""]} {[7 := mkItemInfo Samples.item "/data/movies/Night"]}
    {["/data/movies/Night" := [mkItemInfo Samples.item "/data/movies/Night"]]} {["/data/movies" := [1]]} ∅ ∅ ∅ [].
Definition flags : list resolvedFlag := [mkResolvedFlag (mkFlag 5 FlagKindPath "" (mkExternalIDs 0 "" 0 0 "") None (Some (2, "extra")))
  [] (Some (2, "extra")) false "" None].
Definition untagged : Condition := mkCondition FieldArrTag OpHas (Some (JStr "horror")).
(** horror goes to the manifest only, what is left is skipped *)
Definition ev : Evaluator := NewEvaluator [Samples.rule 1 [untagged] Manifest; Samples.rule 2 [] Skip] 5 0.
Definition out : decisions := decideFiles ascii_equal_fold ev 3 ["g1"] ["g1"] (loadFacts fc flags src rows arr).

(** The import copy has unknown *arr facts: it is not skipped; the subtitle
    follows its film; the flagged extra is full. *)
Example tiers : (λ id, d_Tier <$> out !! id) <$> [11; 12; 13; 14] = [Some Manifest; Some Manifest; Some Manifest; Some Full].
Proof. vm_compute. reflexivity. Qed.
End SourceSample.

Lemma decideFiles_protects_witness :
  ∃ d, SourceSample.out !! 12 = Some d ∧ 2 ≤ Protection (d_Tier d).
Proof.
  assert (H : _) by (refine (proj1 (decideFiles_protects ascii_equal_fold SourceSample.ev 3 SourceSample.fc SourceSample.flags
    SourceSample.src SourceSample.rows SourceSample.arr ["g1"] ["g1"] _ _ _ _)
    (nth 1 (loadFacts SourceSample.fc SourceSample.flags SourceSample.src SourceSample.rows SourceSample.arr)
       (fact_of_row SourceSample.src (mkCatalogRow 0 "" 0 0 "" 0))) _);
    [apply (bool_decide_unpack _); vm_compute; exact I ..| | | ];
    [vm_compute; reflexivity..|apply list_elem_of_In, nth_In; vm_compute; lia]).
  destruct H as (d & Hd & _ & Hall & _). exists d. split; [exact Hd|].
  pose proof (Hall (nth 0 (loadFacts SourceSample.fc SourceSample.flags SourceSample.src SourceSample.rows SourceSample.arr)
       (fact_of_row SourceSample.src (mkCatalogRow 0 "" 0 0 "" 0)))) as H2.
  etrans; [|apply H2; [apply list_elem_of_In, nth_In; vm_compute; lia|vm_compute; reflexivity]].
  vm_compute. discriminate.
Defined.

Lemma decideFiles_deterministic_witness :
  decideFiles ascii_equal_fold SourceSample.ev 3 ["g1"] ["g1"] (loadFacts SourceSample.fc SourceSample.flags SourceSample.src SourceSample.rows SourceSample.arr)
  = SourceSample.out.
Proof.
  apply (decideFiles_deterministic ascii_equal_fold SourceSample.ev 3 _ ["g1"] ["g1"] ["g1"] ["g1"]);
    [apply (bool_decide_unpack _); vm_compute; exact I|vm_compute; reflexivity..].
Defined.
