(* ===== verification/DestNames.v ===== *)
(** * DestNames: names and times at a destination

    [internal/engines/filecopy/names.go] (what a destination can store, S11),
    [MtimeMatch] of [ops.go], and the [nameIndex] of [internal/syncer/plan.go]
    (which paths a plan may create). *)
From stdpp Require Import base gmap list strings.
From Stdlib Require Import Ascii.
From S2P Require Import Prelude GoStrings.
Open Scope string_scope.
Open Scope Z_scope.

Record Capabilities := mkCapabilities {
  Hardlinks : bool;
  UnstableInodes : bool;
  CaseInsensitive : bool;
  InvalidChars : string;
  TrailingDotSpace : bool;
  MtimeGranularityNs : Z;
  EnforcesModes : bool;
  FSType : string;
  CheckedAt : time;
  ProbeVersion : Z;
}.

Definition probe_version : Z := 1.
Definition Current (c : Capabilities) : bool := probe_version <=? ProbeVersion c.
Definition InodeIdentity (c : Capabilities) : bool := Current c && negb (UnstableInodes c).

(** ** Names ([NameCheck]) *)

Definition MetaDir : string := ".bunkarr".
Definition TempPrefix : string := ".bunkarr-tmp-".
Definition MaxNameBytes : Z := 255.
Definition MaxPathBytes : Z := 4000.
Definition IsTempName (base : string) : bool := has_prefix base TempPrefix.

(** [utf16Len]: a rune beyond the basic plane takes two units. *)
Definition utf16Len (s : string) : Z :=
  foldr (λ r n, (if r <? 65536 then 1 else 2) + n) 0 (runes s).

(** Why a name cannot be stored ([ErrNameNotStorable], without its text). *)
Inductive name_error :=
| EmptyPath
| PathTooLong (n : Z)
| EmptyComponent
| RelativeComponent (comp : string)
| ReservedMeta
| ReservedTemp
| NameTooLong (comp : string)
| HasNUL
| InvalidChar (r : Z)
| TrailingChar (comp : string).

Definition str_len (s : string) : Z := Z.of_nat (String.length s).

Definition comp_check (first : bool) (comp : string) (caps : Capabilities) : result name_error unit :=
  guard? negb (bool_decide (comp = "")) else EmptyComponent;
  guard? negb (bool_decide (comp = ".") || bool_decide (comp = "..")) else RelativeComponent comp;
  guard? negb (first && bool_decide (comp = MetaDir)) else ReservedMeta;
  guard? negb (IsTempName comp) else ReservedTemp;
  guard? negb ((MaxNameBytes <? str_len comp) || (MaxNameBytes <? utf16Len comp)) else NameTooLong comp;
  guard? negb (has_byte "000" comp) else HasNUL;
  match List.find (λ r, mem r (runes (InvalidChars caps))) (runes comp) with
  | Some r => Err (InvalidChar r)
  | None =>
      guard? TrailingDotSpace caps || negb (has_suffix comp "." || has_suffix comp " ") else TrailingChar comp;
      Ok tt
  end.

Fixpoint comps_check (first : bool) (comps : list string) (caps : Capabilities) : result name_error unit :=
  match comps with
  | [] => Ok tt
  | c :: comps => let? _ := comp_check first c caps in comps_check false comps caps
  end.

Definition NameCheck (rel : string) (caps : Capabilities) : result name_error unit :=
  guard? negb (bool_decide (rel = "")) else EmptyPath;
  guard? negb (MaxPathBytes <? str_len rel) else PathTooLong (str_len rel);
  comps_check true (split_slash rel) caps.

(** ** Case folding *)

Section fold.
(** [unicode.SimpleFold], a table of the standard library: the next rune of the
    orbit of runes that are equal under simple case folding. *)
Context (simple_fold : Z → Z).

(** [foldRune]. Orbits have at most four runes; the fuel is [orbit_fuel]. *)
Definition orbit_fuel : nat := 8.
Fixpoint fold_orbit (n : nat) (r f m : Z) : Z :=
  match n with
  | O => m
  | S n => if f =? r then m else fold_orbit n r (simple_fold f) (if f <? m then f else m)
  end.
Definition foldRune (r : Z) : Z := fold_orbit orbit_fuel r (simple_fold r) r.

Definition FoldKey (rel : string) : string :=
  of_bytes (concat (encode_rune <$> (foldRune <$> runes rel))).

(** ** The paths a plan may create ([nameIndex]) *)

Record nameIndex := mkNameIndex {
  ni_caps : Capabilities;
  ni_foreign : gset string;
  ni_folded : gmap string string;
}.

Definition newNameIndex (caps : Capabilities) : nameIndex := mkNameIndex caps ∅ ∅.

Definition ni_add (n : nameIndex) (rel : string) : nameIndex :=
  if negb (CaseInsensitive (ni_caps n)) then n
  else
    let k := FoldKey rel in
    match ni_folded n !! k with
    | Some _ => n
    | None => mkNameIndex (ni_caps n) (ni_foreign n) (<[k := rel]> (ni_folded n))
    end.

Definition addRecord (n : nameIndex) (rel : string) (foreign : bool) : nameIndex :=
  ni_add (if foreign then mkNameIndex (ni_caps n) ({[rel]} ∪ ni_foreign n) (ni_folded n) else n) rel.

(** Why a path cannot be created. *)
Inductive create_error :=
| NotStorable (rel : string) (e : name_error)
| ForeignPath (rel : string)
| CaseCollision (rel other : string).

Definition ni_check (n : nameIndex) (rel self : string) : result create_error unit :=
  match NameCheck rel (ni_caps n) with
  | Err e => Err (NotStorable rel e)
  | Ok _ =>
      if bool_decide (rel ∈ ni_foreign n) then Err (ForeignPath rel)
      else if CaseInsensitive (ni_caps n) then
        match ni_folded n !! FoldKey rel with
        | Some other =>
            if bool_decide (other ≠ rel) && bool_decide (other ≠ self) then Err (CaseCollision rel other) else Ok tt
        | None => Ok tt
        end
      else Ok tt
  end.
End fold.

(** ** Modification times *)

Definition MtimeMatch (a b granularityNs windowSec : Z) : bool :=
  let d := i64 (a - b) in
  let d := if d <? 0 then i64 (- d) else d in
  let g := if granularityNs <? 1 then 1 else granularityNs in
  (d <? g) || (d <=? i64 (windowSec * ns_per_sec)).
