(* ===== verification/SyncPlan.v ===== *)
(** * SyncPlan: what a sync plans for one source

    [sourcePlanner] of [internal/syncer/plan.go] with its tier part
    ([internal/syncer/tiers.go]): the live catalog of a source is compared with
    its live destination records and becomes a list of items.

    The planner mutates shared items through pointers (an item's [after], its
    reason, its lost links): items live in a heap, a pointer is an index of it.
    Every item is appended to one of the planner's lists when it is created; here
    it carries the name of that list, and a list is the items that carry its name
    in order of creation. Files are compared by pointer in the code: a path stands
    for the pointer (paths are unique in a source, ids among records).

    The filesystems and the job's context are read through an oracle that may
    answer differently at every read: the planner counts its reads. *)
From stdpp Require Import base gmap list strings.
From S2P Require Import Prelude GoStrings Tiers DestNames.
Open Scope string_scope.
Open Scope Z_scope.

(** ** Data *)

Inductive State := StatePresent | StateLinked | StateLinkRecorded | StateMissing | StateRetained.
#[export] Instance State_eq_dec : EqDecision State.
Proof. solve_decision. Defined.

Definition Live (s : State) : bool := negb (bool_decide (s = StateRetained)).

(** A destination record (the fields the planner reads). *)
Record Rec := mkRec {
  r_ID : Z;
  r_SourceID : Z;
  r_RelPath : string;
  r_SourceRelPath : string;
  r_Size : Z;
  r_MtimeNs : Z;
  r_LinkOf : Z;
  r_State : State;
  r_CopiedAt : option time;
}.

Record planFile := mkPlanFile {
  pf_id : Z;
  pf_rel : string;
  pf_size : Z;
  pf_mtimeNs : Z;
  pf_group : string;
  pf_rec : option Rec;
  pf_unchanged : bool;
  pf_dec : option Decision;
  pf_replaced : bool;
}.

Inductive ItemAction :=
| ActionCopy | ActionUpdate | ActionMove | ActionAdopt | ActionLink | ActionPromote | ActionRetain
| ActionExpire | ActionVerify | ActionBackup | ActionSkip.
#[export] Instance ItemAction_eq_dec : EqDecision ItemAction.
Proof. solve_decision. Defined.

(** [jobs.ItemStatus]; [NoStatus] is the empty string (a planned item). *)
Inductive ItemStatus := NoStatus | ItemPending | ItemDone | ItemFailed | ItemSkipped | ItemHeld.
#[export] Instance ItemStatus_eq_dec : EqDecision ItemStatus.
Proof. solve_decision. Defined.

Inductive Reason_ :=
| RNone | RNew | RChanged | RReplacedInPlace | RRepair | RRenamed | RVanished | RHardlink | RRelink | RAdopt
| RKept | RNotCopied | RReleased.
#[export] Instance Reason__eq_dec : EqDecision Reason_.
Proof. solve_decision. Defined.

(** What the primary of a promote is afterwards ([Detail.For]). *)
Inductive for_what := ForNone | ForRetain | ForUpdate.

(** [Detail], the fields set at planning. *)
Record Detail := mkDetail {
  dt_SourceID : Z;
  dt_Source : string;
  dt_Size : Z;
  dt_MtimeNs : Z;
  dt_Group : string;
  dt_RecordID : Z;
  dt_OldSize : Z;
  dt_From : string;
  dt_FromSource : string;
  dt_Primary : string;
  dt_TargetID : Z;
  dt_For : for_what;
  dt_Reason : Reason_;
  dt_Displace : bool;
  dt_Tier : option Decision;
  dt_TierRevision : Z;
  dt_Note : string;
  dt_LostLinks : list Z;
}.

(** The message of an item (its text is not modelled). *)
Inductive item_error :=
| NoError
| CannotCreate (e : create_error)
| NotRegular (dest : string)
| HeldByGuard (changes : Z)
| HeldShrink (newSize oldSize : Z)
| HeldWith (rel : string) (action : ItemAction).

(** The planner list an item is appended to. *)
Inductive plan_list := LPromotes | LMoves | LPuts | LLinks | LRetains | LReleases | LSkips.
#[export] Instance plan_list_eq_dec : EqDecision plan_list.
Proof. solve_decision. Defined.

Record planItem := mkItem {
  it_list : plan_list;
  it_action : ItemAction;
  it_rel : string;
  it_fileID : Z;
  it_bytes : Z;
  it_d : Detail;
  it_status : ItemStatus;
  it_errMsg : item_error;
  it_change : bool;
  it_shrink : bool;
  it_unknownWhy : string;
  it_after : option nat;
}.

Record TierCount := mkTierCount { tc_Files : Z; tc_Bytes : Z }.
Definition tc_zero : TierCount := mkTierCount 0 0.
Definition tc_add (c : TierCount) (size : Z) : TierCount := mkTierCount (i64 (tc_Files c + 1)) (i64 (tc_Bytes c + size)).

Record TierStats := mkTierStats { ts_Full : TierCount; ts_Manifest : TierCount; ts_Skip : TierCount; ts_UnknownPromoted : TierCount }.

(** The release plan ([all], or the records the confirmed preview listed). *)
Record releasedRecord := mkReleasedRecord {
  w_sourceID : Z;
  w_relPath : string;
  w_sourceRelPath : string;
  w_size : Z;
  w_mtimeNs : Z;
}.
Record releasePlan := mkReleasePlan {
  rp_all : bool;
  rp_allowed : gmap Z releasedRecord;
  rp_revision : Z;
}.

Record replaceCheck := mkReplaceCheck { rc_id : Z; rc_size : Z; rc_mtimeNs : Z; rc_copiedAt : time; rc_added : time }.

(** [destinations.Settings], the fields the planner reads. *)
Inductive AdoptMode := AdoptSizeMtime | AdoptSizeHash | AdoptOff.
#[export] Instance AdoptMode_eq_dec : EqDecision AdoptMode.
Proof. solve_decision. Defined.
Record Settings := mkSettings {
  AdoptExisting : AdoptMode;
  MtimeWindowSec : Z;
  MaxChangePercent : Z;
  MaxChangeFiles : Z;
}.

(** [filecopy.Stat]; [st_Regular] is [Mode.IsRegular()]. *)
Record Stat := mkStat { st_Size : Z; st_MtimeNs : Z; st_Regular : bool }.

(** An error of a filesystem read, as [filecopy.Classify] sorts it. *)
Inductive fs_error := FatalError | OtherError.

Inductive plan_error := Cancelled | FatalRead (path : string).

(** What the planner reads: [planFS] and [ctx.Err], at the n-th read. *)
Record reads := mkReads {
  sourceHeadTail : nat → string → result fs_error string;
  destHeadTail : nat → string → result fs_error string;
  destStat : nat → string → result fs_error (option Stat);
  ctx_done : nat → bool;
}.

(** ** The planner's state

    [p_heap] holds the items of all lists; [p_reads] counts the reads. *)
Record planner := mkPlanner {
  p_reads : nat;
  p_names : nameIndex;
  p_heap : list planItem;
  p_itemOf : gmap string nat;
  p_promoteFor : gmap Z nat;
  p_warnings : list item_error;
  p_deferred : Z;
  p_nonFullNew : list planFile;
  p_stats : TierStats;
  p_kept : TierCount;
  p_released : TierCount;
  p_staleFiles : Z;
  p_replaceChecked : list replaceCheck;
}.

Definition M (A : Type) : Type := planner → result plan_error (A * planner).
Definition ret {A} (a : A) : M A := λ s, Ok (a, s).
Definition bind {A B} (m : M A) (k : A → M B) : M B :=
  λ s, match m s with Ok (a, s) => k a s | Err e => Err e end.
Definition fail {A} (e : plan_error) : M A := λ _, Err e.
Definition modify (f : planner → planner) : M unit := λ s, Ok (tt, f s).
Definition gets {A} (f : planner → A) : M A := λ s, Ok (f s, s).

Declare Scope plan_scope.
Delimit Scope plan_scope with plan.
Notation "'let*' x ':=' m 'in' k" := (bind m (λ x, k))
  (at level 10, x pattern, m at level 100, k at level 200) : plan_scope.
Notation "m ;; k" := (bind m (λ _, k)) (at level 100, k at level 200, right associativity) : plan_scope.
Open Scope plan_scope.

(** [for _, a := range l { f(a) }] *)
Fixpoint for_each {A} (l : list A) (f : A → M unit) : M unit :=
  match l with
  | [] => ret tt
  | a :: l => f a ;; for_each l f
  end.

(** The same with a local variable of the loop's function. *)
Fixpoint for_fold {A L} (l : list A) (v : L) (f : L → A → M L) : M L :=
  match l with
  | [] => ret v
  | a :: l => let* v := f v a in for_fold l v f
  end.

Definition upd_heap (h : list planItem) (s : planner) : planner :=
  mkPlanner (p_reads s) (p_names s) h (p_itemOf s) (p_promoteFor s) (p_warnings s) (p_deferred s) (p_nonFullNew s)
    (p_stats s) (p_kept s) (p_released s) (p_staleFiles s) (p_replaceChecked s).
Definition upd_reads (n : nat) (s : planner) : planner :=
  mkPlanner n (p_names s) (p_heap s) (p_itemOf s) (p_promoteFor s) (p_warnings s) (p_deferred s) (p_nonFullNew s)
    (p_stats s) (p_kept s) (p_released s) (p_staleFiles s) (p_replaceChecked s).
Definition upd_names (n : nameIndex) (s : planner) : planner :=
  mkPlanner (p_reads s) n (p_heap s) (p_itemOf s) (p_promoteFor s) (p_warnings s) (p_deferred s) (p_nonFullNew s)
    (p_stats s) (p_kept s) (p_released s) (p_staleFiles s) (p_replaceChecked s).
Definition upd_itemOf (m : gmap string nat) (s : planner) : planner :=
  mkPlanner (p_reads s) (p_names s) (p_heap s) m (p_promoteFor s) (p_warnings s) (p_deferred s) (p_nonFullNew s)
    (p_stats s) (p_kept s) (p_released s) (p_staleFiles s) (p_replaceChecked s).
Definition upd_promoteFor (m : gmap Z nat) (s : planner) : planner :=
  mkPlanner (p_reads s) (p_names s) (p_heap s) (p_itemOf s) m (p_warnings s) (p_deferred s) (p_nonFullNew s)
    (p_stats s) (p_kept s) (p_released s) (p_staleFiles s) (p_replaceChecked s).
Definition warn (e : item_error) : M unit := modify (λ s,
  mkPlanner (p_reads s) (p_names s) (p_heap s) (p_itemOf s) (p_promoteFor s) (p_warnings s ++ [e]) (p_deferred s) (p_nonFullNew s)
    (p_stats s) (p_kept s) (p_released s) (p_staleFiles s) (p_replaceChecked s)).
Definition defer_one : M unit := modify (λ s,
  mkPlanner (p_reads s) (p_names s) (p_heap s) (p_itemOf s) (p_promoteFor s) (p_warnings s) (i64 (p_deferred s + 1)) (p_nonFullNew s)
    (p_stats s) (p_kept s) (p_released s) (p_staleFiles s) (p_replaceChecked s)).
Definition add_nonFullNew (f : planFile) : M unit := modify (λ s,
  mkPlanner (p_reads s) (p_names s) (p_heap s) (p_itemOf s) (p_promoteFor s) (p_warnings s) (p_deferred s) (p_nonFullNew s ++ [f])
    (p_stats s) (p_kept s) (p_released s) (p_staleFiles s) (p_replaceChecked s)).
Definition set_stats (t : TierStats) (s : planner) : planner :=
  mkPlanner (p_reads s) (p_names s) (p_heap s) (p_itemOf s) (p_promoteFor s) (p_warnings s) (p_deferred s) (p_nonFullNew s)
    t (p_kept s) (p_released s) (p_staleFiles s) (p_replaceChecked s).
Definition add_kept (size : Z) : M unit := modify (λ s,
  mkPlanner (p_reads s) (p_names s) (p_heap s) (p_itemOf s) (p_promoteFor s) (p_warnings s) (p_deferred s) (p_nonFullNew s)
    (p_stats s) (tc_add (p_kept s) size) (p_released s) (p_staleFiles s) (p_replaceChecked s)).
Definition add_released (size : Z) : M unit := modify (λ s,
  mkPlanner (p_reads s) (p_names s) (p_heap s) (p_itemOf s) (p_promoteFor s) (p_warnings s) (p_deferred s) (p_nonFullNew s)
    (p_stats s) (p_kept s) (tc_add (p_released s) size) (p_staleFiles s) (p_replaceChecked s)).
Definition add_stale : M unit := modify (λ s,
  mkPlanner (p_reads s) (p_names s) (p_heap s) (p_itemOf s) (p_promoteFor s) (p_warnings s) (p_deferred s) (p_nonFullNew s)
    (p_stats s) (p_kept s) (p_released s) (i64 (p_staleFiles s + 1)) (p_replaceChecked s)).
Definition add_replaceChecked (c : replaceCheck) : M unit := modify (λ s,
  mkPlanner (p_reads s) (p_names s) (p_heap s) (p_itemOf s) (p_promoteFor s) (p_warnings s) (p_deferred s) (p_nonFullNew s)
    (p_stats s) (p_kept s) (p_released s) (p_staleFiles s) (p_replaceChecked s ++ [c])).

(** [append] of a new item to its list: the pointer to it. *)
Definition emit (it : planItem) : M nat := λ s, Ok (length (p_heap s), upd_heap (p_heap s ++ [it])%list s).
(** A write through a pointer. *)
Definition edit (i : nat) (f : planItem → planItem) : M unit := modify (λ s, upd_heap (alter f i (p_heap s)) s).
Definition set_itemOf (rel : string) (i : nat) : M unit := modify (λ s, upd_itemOf (<[rel := i]> (p_itemOf s)) s).
Definition set_promoteFor (id : Z) (i : nat) : M unit := modify (λ s, upd_promoteFor (<[id := i]> (p_promoteFor s)) s).

(** Item updates. *)
Definition with_after (a : option nat) (it : planItem) : planItem :=
  mkItem (it_list it) (it_action it) (it_rel it) (it_fileID it) (it_bytes it) (it_d it) (it_status it) (it_errMsg it)
    (it_change it) (it_shrink it) (it_unknownWhy it) a.
Definition with_change (b : bool) (it : planItem) : planItem :=
  mkItem (it_list it) (it_action it) (it_rel it) (it_fileID it) (it_bytes it) (it_d it) (it_status it) (it_errMsg it)
    b (it_shrink it) (it_unknownWhy it) (it_after it).
Definition with_d (d : Detail) (it : planItem) : planItem :=
  mkItem (it_list it) (it_action it) (it_rel it) (it_fileID it) (it_bytes it) d (it_status it) (it_errMsg it)
    (it_change it) (it_shrink it) (it_unknownWhy it) (it_after it).
Definition with_action (a : ItemAction) (it : planItem) : planItem :=
  mkItem (it_list it) a (it_rel it) (it_fileID it) (it_bytes it) (it_d it) (it_status it) (it_errMsg it)
    (it_change it) (it_shrink it) (it_unknownWhy it) (it_after it).
Definition with_unknown (why : string) (it : planItem) : planItem :=
  mkItem (it_list it) (it_action it) (it_rel it) (it_fileID it) (it_bytes it) (it_d it) (it_status it) (it_errMsg it)
    (it_change it) (it_shrink it) why (it_after it).
Definition with_status (st : ItemStatus) (e : item_error) (it : planItem) : planItem :=
  mkItem (it_list it) (it_action it) (it_rel it) (it_fileID it) (it_bytes it) (it_d it) st e
    (it_change it) (it_shrink it) (it_unknownWhy it) (it_after it).
(** [planItem.fail] *)
Definition fail_item (e : item_error) (it : planItem) : planItem := with_status ItemFailed e it.

Definition with_reason (r : Reason_) (d : Detail) : Detail :=
  mkDetail (dt_SourceID d) (dt_Source d) (dt_Size d) (dt_MtimeNs d) (dt_Group d) (dt_RecordID d) (dt_OldSize d) (dt_From d)
    (dt_FromSource d) (dt_Primary d) (dt_TargetID d) (dt_For d) r (dt_Displace d) (dt_Tier d) (dt_TierRevision d) (dt_Note d) (dt_LostLinks d).
Definition with_record (id oldSize : Z) (d : Detail) : Detail :=
  mkDetail (dt_SourceID d) (dt_Source d) (dt_Size d) (dt_MtimeNs d) (dt_Group d) id oldSize (dt_From d)
    (dt_FromSource d) (dt_Primary d) (dt_TargetID d) (dt_For d) (dt_Reason d) (dt_Displace d) (dt_Tier d) (dt_TierRevision d) (dt_Note d) (dt_LostLinks d).
Definition with_from (from fromSource : string) (d : Detail) : Detail :=
  mkDetail (dt_SourceID d) (dt_Source d) (dt_Size d) (dt_MtimeNs d) (dt_Group d) (dt_RecordID d) (dt_OldSize d) from
    fromSource (dt_Primary d) (dt_TargetID d) (dt_For d) (dt_Reason d) (dt_Displace d) (dt_Tier d) (dt_TierRevision d) (dt_Note d) (dt_LostLinks d).
Definition with_primary (rel : string) (d : Detail) : Detail :=
  mkDetail (dt_SourceID d) (dt_Source d) (dt_Size d) (dt_MtimeNs d) (dt_Group d) (dt_RecordID d) (dt_OldSize d) (dt_From d)
    (dt_FromSource d) rel (dt_TargetID d) (dt_For d) (dt_Reason d) (dt_Displace d) (dt_Tier d) (dt_TierRevision d) (dt_Note d) (dt_LostLinks d).
Definition with_displace (d : Detail) : Detail :=
  mkDetail (dt_SourceID d) (dt_Source d) (dt_Size d) (dt_MtimeNs d) (dt_Group d) (dt_RecordID d) (dt_OldSize d) (dt_From d)
    (dt_FromSource d) (dt_Primary d) (dt_TargetID d) (dt_For d) (dt_Reason d) true (dt_Tier d) (dt_TierRevision d) (dt_Note d) (dt_LostLinks d).
Definition with_note (n : string) (d : Detail) : Detail :=
  mkDetail (dt_SourceID d) (dt_Source d) (dt_Size d) (dt_MtimeNs d) (dt_Group d) (dt_RecordID d) (dt_OldSize d) (dt_From d)
    (dt_FromSource d) (dt_Primary d) (dt_TargetID d) (dt_For d) (dt_Reason d) (dt_Displace d) (dt_Tier d) (dt_TierRevision d) n (dt_LostLinks d).
Definition with_lost (ids : list Z) (d : Detail) : Detail :=
  mkDetail (dt_SourceID d) (dt_Source d) (dt_Size d) (dt_MtimeNs d) (dt_Group d) (dt_RecordID d) (dt_OldSize d) (dt_From d)
    (dt_FromSource d) (dt_Primary d) (dt_TargetID d) (dt_For d) (dt_Reason d) (dt_Displace d) (dt_Tier d) (dt_TierRevision d) (dt_Note d) ids.

(** ** The operations *)

Definition full (f : planFile) : bool :=
  match pf_dec f with None => true | Some d => bool_decide (d_Tier d = Full) end.

Definition shrinks (newSize oldSize : Z) : bool :=
  (newSize <? oldSize) && ((newSize =? 0) || (i64 (newSize * 2) <? oldSize)).

Definition matches (w : releasedRecord) (r : Rec) : bool :=
  (w_sourceID w =? r_SourceID r) && bool_decide (w_relPath w = r_RelPath r)
  && bool_decide (w_sourceRelPath w = r_SourceRelPath r) && (w_size w =? r_Size r) && (w_mtimeNs w =? r_MtimeNs r).

Definition adoptable (s : Settings) (caps : Capabilities) (st : Stat) (size mtimeNs : Z) : bool :=
  if negb (st_Regular st) || negb (st_Size st =? size) then false
  else match AdoptExisting s with
       | AdoptSizeMtime => MtimeMatch (st_MtimeNs st) mtimeNs (MtimeGranularityNs caps) (MtimeWindowSec s)
       | AdoptSizeHash => true
       | AdoptOff => false
       end.

Definition pickTarget (d0 : Rec) (surv : list Rec) : Rec :=
  default d0 (List.find (λ d, bool_decide (r_State d = StateLinked)) (d0 :: surv)).

(** The configuration of a planner (the fields of [sourcePlanner] that [plan]
    does not change). [quote] is the [%q] verb. *)
Record config := mkConfig {
  c_sourceID : Z;
  c_destFolder : string;
  c_caps : Capabilities;
  c_settings : Settings;
  c_simple_fold : Z → Z;
  c_quote : string → string;
  c_targeted : bool;
  c_dryRun : bool;
  c_release : option releasePlan;
  c_arrAdded : option (string → option time);
  c_updateKept : bool;
  c_recs : list Rec;
  c_reads : reads;
}.

(** [moveFrom]: the record a file moves from, by the file's path. *)
Abbreviation moves := (gmap string Rec).

Section operations.
Context (c : config).

Definition destPath (sourceRel : string) : string := path_join [c_destFolder c; sourceRel].
Definition mtimeEqual (a b : Z) : bool := MtimeMatch a b (MtimeGranularityNs (c_caps c)) 0.

Definition tick : M nat := λ s, Ok (p_reads s, upd_reads (S (p_reads s)) s).
Definition read_source (rel : string) : M (result fs_error string) :=
  let* n := tick in ret (sourceHeadTail (c_reads c) n rel).
Definition read_dest (rel : string) : M (result fs_error string) :=
  let* n := tick in ret (destHeadTail (c_reads c) n rel).
Definition stat_dest (rel : string) : M (result fs_error (option Stat)) :=
  let* n := tick in ret (destStat (c_reads c) n rel).
Definition check_ctx : M unit := let* n := tick in if ctx_done (c_reads c) n then fail Cancelled else ret tt.

(** *** Reading the source's files *)

Definition recBySrc (rel : string) : option Rec :=
  foldl (λ o r, if bool_decide (r_SourceRelPath r = rel) then Some r else o) None (c_recs c).
(** [p.deps[id]]: the live dependents of a primary. *)
Definition deps (id : Z) : list Rec :=
  List.filter (λ d, negb (r_LinkOf d =? 0) && (r_LinkOf d =? id)) (c_recs c).

Definition replacedInPlace (f : planFile) (r : Rec) : M bool :=
  match c_arrAdded c, r_CopiedAt r with
  | Some arrAdded, Some copied =>
      if negb (bool_decide (r_State r = StatePresent)) then ret false
      else match arrAdded (pf_rel f) with
      | Some added =>
          if negb (copied <? added) then ret false
          else
            let* sh := read_source (pf_rel f) in
            match sh with
            | Err _ => ret false
            | Ok sh =>
                let* dh := read_dest (r_RelPath r) in
                match dh with
                | Err _ => ret false
                | Ok dh =>
                    if negb (bool_decide (sh = dh)) then ret true
                    else add_replaceChecked (mkReplaceCheck (r_ID r) (r_Size r) (r_MtimeNs r) copied added) ;; ret false
                end
            end
      | None => ret false
      end
  | _, _ => ret false
  end.

Definition countTier (f : planFile) : M unit :=
  match pf_dec f with
  | None => ret tt
  | Some d =>
      modify (λ s,
        let t := p_stats s in
        let n := pf_size f in
        set_stats (match d_Tier d with
                   | Full => mkTierStats (tc_add (ts_Full t) n) (ts_Manifest t) (ts_Skip t)
                               (if d_UnknownPromoted d then tc_add (ts_UnknownPromoted t) n else ts_UnknownPromoted t)
                   | Manifest => mkTierStats (ts_Full t) (tc_add (ts_Manifest t) n) (ts_Skip t) (ts_UnknownPromoted t)
                   | _ => mkTierStats (ts_Full t) (ts_Manifest t) (tc_add (ts_Skip t) n) (ts_UnknownPromoted t)
                   end) s)
  end.

Definition with_rec (f : planFile) (r : option Rec) (unchanged replaced : bool) : planFile :=
  mkPlanFile (pf_id f) (pf_rel f) (pf_size f) (pf_mtimeNs f) (pf_group f) r unchanged (pf_dec f) replaced.
Definition with_group (g : string) (f : planFile) : planFile :=
  mkPlanFile (pf_id f) (pf_rel f) (pf_size f) (pf_mtimeNs f) g (pf_rec f) (pf_unchanged f) (pf_dec f) (pf_replaced f).

(** The body of [plan]'s loop over the files: the file with its record. *)
Definition match_record (f : planFile) : M planFile :=
  let* f := match recBySrc (pf_rel f) with
            | None => ret f
            | Some r =>
                let unchanged := negb (bool_decide (r_State r = StateMissing)) && (r_Size r =? pf_size f)
                                 && mtimeEqual (r_MtimeNs r) (pf_mtimeNs f) in
                if unchanged && full f then
                  let* rep := replacedInPlace f r in
                  ret (if rep : bool then with_rec f (Some r) false true else with_rec f (Some r) true (pf_replaced f))
                else ret (with_rec f (Some r) unchanged (pf_replaced f))
            end in
  countTier f ;; ret f.

Fixpoint match_records (files : list planFile) : M (list planFile) :=
  match files with
  | [] => ret []
  | f :: files => let* f := match_record f in let* files := match_records files in ret (f :: files)
  end.

Definition in_group (g : string) (files : list planFile) : list planFile :=
  List.filter (λ f, bool_decide (pf_group f = g)) files.

(** A hardlink group with fewer than two names here is a single file. *)
Definition drop_singles (files : list planFile) : list planFile :=
  (λ f, if (length (in_group (pf_group f) files) <? 2)%nat then with_group "" f else f) <$> files.

Section planned.
(** The files with their records, by path. *)
Context (files : list planFile).

Definition byRel (rel : string) : option planFile :=
  foldl (λ o f, if bool_decide (pf_rel f = rel) then Some f else o) None files.

Definition has_rec (f : planFile) : bool := match pf_rec f with Some _ => true | None => false end.

Definition vanished : list Rec :=
  List.filter (λ r, negb (existsb (λ f, match pf_rec f with Some x => r_ID x =? r_ID r | None => false end) files)) (c_recs c).

Definition keptChanged (f : planFile) : bool :=
  match pf_rec f with
  | Some r => c_updateKept c && negb (pf_unchanged f) && (bool_decide (r_State r = StatePresent) || bool_decide (r_State r = StateLinked))
  | None => false
  end.

(** The file of a record, when it is still there with the recorded content. *)
Definition still_there (d : Rec) : bool :=
  match byRel (r_SourceRelPath d) with
  | Some f => match pf_rec f with Some x => (r_ID x =? r_ID d) && pf_unchanged f | None => false end
  | None => false
  end.

Definition surviving (r : Rec) : list Rec :=
  List.filter (λ d, (bool_decide (r_State d = StateLinked) || bool_decide (r_State d = StateLinkRecorded)) && still_there d)
    (deps (r_ID r)).

(** *** Items *)

Definition fileDetail (f : planFile) (reason : Reason_) : Detail :=
  mkDetail (c_sourceID c) (pf_rel f) (pf_size f) (pf_mtimeNs f) (pf_group f) 0 0 "" "" "" 0 ForNone reason false (pf_dec f) 0 "" [].

Definition retain (v : Rec) : M nat :=
  emit (mkItem LRetains ActionRetain (r_RelPath v) (r_ID v) (r_Size v)
    (mkDetail (c_sourceID c) (r_SourceRelPath v) (r_Size v) (r_MtimeNs v) "" (r_ID v) 0 "" "" "" 0 ForNone RVanished false None 0 "" [])
    NoStatus NoError true false "" None).

Definition promote (v t : Rec) (what : for_what) : M nat :=
  emit (mkItem LPromotes ActionPromote (r_RelPath t) (r_ID v) 0
    (mkDetail (c_sourceID c) (r_SourceRelPath t) (r_Size v) (r_MtimeNs v) "" (r_ID v) 0 (r_RelPath v) "" "" (r_ID t) what RHardlink false None 0 "" [])
    NoStatus NoError false false "" None).

Definition update (f : planFile) (r : Rec) : M nat :=
  let d := with_record (r_ID r) (r_Size r) (fileDetail f (if pf_replaced f then RReplacedInPlace else RChanged)) in
  let* it := emit (mkItem LPuts ActionUpdate (r_RelPath r) (pf_id f) (pf_size f) d NoStatus NoError true
                     (shrinks (pf_size f) (r_Size r)) "" None) in
  set_itemOf (pf_rel f) it ;; ret it.

Definition unknown_why (f : planFile) : string :=
  match pf_dec f with Some d => if d_UnknownPromoted d then UnknownWhy d else "" | None => "" end.
Definition unknown_promoted (f : planFile) : bool :=
  match pf_dec f with Some d => d_UnknownPromoted d | None => false end.

Definition repair (f : planFile) (r : Rec) : M unit :=
  let d := with_record (r_ID r) (r_Size r) (fileDetail f RRepair) in
  let* it := emit (mkItem LPuts ActionCopy (r_RelPath r) (pf_id f) (pf_size f) d NoStatus NoError false
                     (shrinks (pf_size f) (r_Size r)) (unknown_why f) None) in
  set_itemOf (pf_rel f) it.

(** [names.check] and then [names.add], or a failed item and a warning. *)
Definition create (dest self : string) (i : nat) : M bool :=
  let* n := gets p_names in
  match ni_check (c_simple_fold c) n dest self with
  | Err e => edit i (fail_item (CannotCreate e)) ;; warn (CannotCreate e) ;; ret false
  | Ok _ => modify (λ s, upd_names (ni_add (c_simple_fold c) (p_names s) dest) s) ;; ret true
  end.

Definition move (f : planFile) (v : Rec) : M unit :=
  let dest := destPath (pf_rel f) in
  let d := with_from (r_RelPath v) (r_SourceRelPath v) (with_record (r_ID v) 0 (fileDetail f RRenamed)) in
  let* it := emit (mkItem LMoves ActionMove dest (pf_id f) (pf_size f) d NoStatus NoError false false "" None) in
  create dest (r_RelPath v) it ;;
  set_itemOf (pf_rel f) it.

Definition link (f prim : planFile) (r : option Rec) : M nat :=
  let dest := destPath (pf_rel f) in
  let d := with_primary (pf_rel prim) (fileDetail f RHardlink) in
  match r with
  | Some r =>
      let missing := bool_decide (r_State r = StateMissing) in
      let d := with_reason RRelink (with_record (r_ID r) (if missing then 0 else r_Size r) d) in
      emit (mkItem LLinks ActionLink (r_RelPath r) (pf_id f) 0 d NoStatus NoError (negb missing)
              (negb missing && shrinks (pf_size f) (r_Size r)) "" None)
  | None =>
      let* it := emit (mkItem LLinks ActionLink dest (pf_id f) 0 d NoStatus NoError false false "" None) in
      create dest "" it ;; ret it
  end.

Definition unknownCopy (it : nat) (f : planFile) : M unit :=
  if unknown_promoted f
  then edit it (λ x, if bool_decide (it_action x = ActionCopy) then with_unknown (unknown_why f) (with_change true x) else x)
  else ret tt.

Definition newFile (f : planFile) : M unit :=
  let dest := destPath (pf_rel f) in
  let* it := emit (mkItem LPuts ActionCopy dest (pf_id f) (pf_size f) (fileDetail f RNew) NoStatus NoError false false "" None) in
  set_itemOf (pf_rel f) it ;;
  let* ok := create dest "" it in
  if negb ok then ret tt
  else
    let* st := stat_dest dest in
    match st with
    | Err FatalError => fail (FatalRead dest)
    | Err OtherError => ret tt
    | Ok None => unknownCopy it f
    | Ok (Some st) =>
        if negb (st_Regular st) then edit it (fail_item (NotRegular dest)) ;; warn (NotRegular dest)
        else if adoptable (c_settings c) (c_caps c) st (pf_size f) (pf_mtimeNs f) then
          edit it (λ x, with_action ActionAdopt (with_d (with_reason RAdopt (it_d x)) x))
        else edit it (λ x, with_d (with_displace (it_d x)) x) ;; unknownCopy it f
    end.

Definition summary (f : planFile) : string :=
  match pf_dec f with Some d => Summary (c_quote c) d | None => "" end.

Definition tierItem (f : planFile) (reason : Reason_) (r : option Rec) : M unit :=
  if negb (c_dryRun c) then ret tt
  else
    let d := fileDetail f reason in
    let '(d, rel) :=
      match r with
      | Some r => (with_note ("kept at the destination: " +:+ summary f) (with_record (r_ID r) 0 d), r_RelPath r)
      | None => (with_note ("not copied: " +:+ summary f) d, destPath (pf_rel f))
      end in
    emit (mkItem LSkips ActionSkip rel (pf_id f) (pf_size f) d NoStatus NoError false false "" None) ;; ret tt.

Definition release_item (f : planFile) (r : Rec) (rev : Z) : M unit :=
  emit (mkItem LReleases ActionRetain (r_RelPath r) (r_ID r) (r_Size r)
    (mkDetail (c_sourceID c) (pf_rel f) (r_Size r) (r_MtimeNs r) "" (r_ID r) 0 "" "" "" 0 ForNone RReleased false (pf_dec f) rev "" [])
    NoStatus NoError true false "" None) ;;
  add_released (r_Size r).

Definition dec_revision (f : planFile) : Z := match pf_dec f with Some d => d_Revision d | None => 0 end.

Definition keep (f : planFile) (r : Rec) : M unit :=
  if bool_decide (r_State r = StateMissing) then ret tt
  else
    add_kept (pf_size f) ;;
    tierItem f RKept (Some r) ;;
    match c_release c with
    | None => ret tt
    | Some rp =>
        if rp_all rp then release_item f r (dec_revision f)
        else match rp_allowed rp !! r_ID r with
             | Some w =>
                 if negb (matches w r) then ret tt
                 else if negb (dec_revision f =? rp_revision rp) then add_stale
                 else release_item f r (rp_revision rp)
             | None => ret tt
             end
    end.

(** *** Renames *)

(** The candidates of one file, in order; [srcHash] is the head/tail hash of the
    source file once it is read. *)
Fixpoint try_moves (f : planFile) (cands : list Rec) (srcHash : string) (moved : gset Z) : M (option Rec) :=
  match cands with
  | [] => ret None
  | v :: cands =>
      if bool_decide (r_ID v ∈ moved) then try_moves f cands srcHash moved
      else
        check_ctx ;;
        let* h := if bool_decide (srcHash = "") then read_source (pf_rel f) else ret (Ok srcHash) in
        match h with
        | Err FatalError => fail (FatalRead (pf_rel f))
        | Err OtherError => ret None
        | Ok h =>
            let* dh := read_dest (r_RelPath v) in
            match dh with
            | Err FatalError => fail (FatalRead (r_RelPath v))
            | Err OtherError => try_moves f cands h moved
            | Ok dh => if bool_decide (dh = h) then ret (Some v) else try_moves f cands h moved
            end
        end
  end.

Definition in_pool (v : Rec) : bool := bool_decide (r_State v = StatePresent) || bool_decide (r_State v = StateLinked).

(** Whether the pairing considers [f]: no record, and no other name of its group
    that holds the content. *)
Definition considered (f : planFile) : bool :=
  if has_rec f then false
  else if bool_decide (pf_group f = "") then true
  else match in_group (pf_group f) files with
       | m0 :: _ => bool_decide (pf_rel m0 = pf_rel f) && negb (existsb has_rec (in_group (pf_group f) files))
       | [] => true
       end.

Definition pair_move (st : moves * gset Z) (f : planFile) : M (moves * gset Z) :=
  let '(moveFrom, moved) := st in
  if negb (considered f) then ret st
  else
    let cands := List.filter (λ v, in_pool v && (r_Size v =? pf_size f) && (r_MtimeNs v =? pf_mtimeNs f)) vanished in
    let* v := try_moves f cands "" moved in
    match v with
    | Some v => ret (<[pf_rel f := v]> moveFrom, {[r_ID v]} ∪ moved)
    | None => ret st
    end.

Definition pairMoves : M (moves * gset Z) :=
  if bool_decide (List.filter in_pool vanished = []) then ret (∅, ∅)
  else for_fold files (∅, ∅) pair_move.

(** *** Vanished records *)

(** [promoteTarget] and [needRepair], the ids in them. *)
Definition plan_sets := (gset Z * gset Z)%type.

Definition planVanished (v : Rec) (st : plan_sets) : M plan_sets :=
  let '(promoteTarget, needRepair) := st in
  if bool_decide (r_State v = StateLinkRecorded) then retain v ;; ret st
  else
    let surv := surviving v in
    if bool_decide (r_State v = StateMissing) then
      retain v ;; ret (promoteTarget, list_to_set (r_ID <$> surv) ∪ needRepair)
    else match surv with
    | d0 :: rest =>
        let t := pickTarget d0 rest in
        let* pr := promote v t ForRetain in
        (if bool_decide (r_State t = StateLinked) then let* i := retain v in edit pr (with_after (Some i))
         else edit pr (with_change true)) ;;
        ret ({[r_ID t]} ∪ promoteTarget, needRepair)
    | [] => retain v ;; ret st
    end.

(** The folders that get new content (a targeted sync, D14). *)
Definition fresh_dirs (moveFrom : moves) : list string :=
  (λ f, path_dir (pf_rel f)) <$>
    List.filter (λ f, match moveFrom !! pf_rel f with Some _ => true | None => full f && (negb (has_rec f) || negb (pf_unchanged f)) end) files.

Definition plan_vanished_one (moveFrom : moves) (moved : gset Z) (st : plan_sets) (v : Rec) : M plan_sets :=
  if bool_decide (r_ID v ∈ moved) then ret st
  else if c_targeted c && negb (mem (path_dir (r_SourceRelPath v)) (fresh_dirs moveFrom)) then defer_one ;; ret st
  else planVanished v st.

(** *** Changed and damaged primaries *)

Definition promote_changed (pt : gset Z) (f : planFile) : M (gset Z) :=
  match pf_rec f with
  | None => ret pt
  | Some r =>
      if pf_unchanged f || negb (bool_decide (r_State r = StatePresent)) || negb (full f || keptChanged f) then ret pt
      else match surviving r with
           | [] => ret pt
           | d0 :: rest =>
               let t := pickTarget d0 rest in
               let* pr := promote r t ForUpdate in
               set_promoteFor (r_ID r) pr ;;
               ret ({[r_ID t]} ∪ pt)
           end
  end.

(** [lost] and [needRepair]. *)
Definition lost_sets := (gmap Z (list Z) * gset Z)%type.

Definition damaged_dependent (f : planFile) (r : Rec) (st : lost_sets) (d : Rec) : M lost_sets :=
  let '(lost, needRepair) := st in
  let restored := full f && (pf_size f =? r_Size d) && mtimeEqual (pf_mtimeNs f) (r_MtimeNs d) in
  let recorded := bool_decide (r_State d = StateLinkRecorded) in
  match byRel (r_SourceRelPath d) with
  | None => ret st
  | Some df =>
      if negb (full df) then
        ret (if full f && recorded && negb restored
             then (<[r_ID r := (default [] (lost !! r_ID r) ++ [r_ID d])%list]> lost, needRepair) else st)
      else if recorded && negb restored && negb (bool_decide (r_ID d ∈ needRepair)) then
        repair df d ;; ret (lost, {[r_ID d]} ∪ needRepair)
      else ret st
  end.

Definition damaged_primary (st : lost_sets) (f : planFile) : M lost_sets :=
  match pf_rec f with
  | Some r =>
      if bool_decide (r_State r = StateMissing) then for_fold (surviving r) st (damaged_dependent f r) else ret st
  | None => ret st
  end.

Definition first_match (members : list planFile) (tests : list (planFile → bool)) : option planFile :=
  foldr (λ ok rest, match List.find ok members with Some m => Some m | None => rest end) (head members) tests.

Definition rec_state_in (f : planFile) (l : list State) : bool :=
  match pf_rec f with Some r => mem (r_State r) l | None => false end.

Definition choosePrimary (members : list planFile) (promoteTarget : gset Z) (moveFrom : moves) : option planFile :=
  first_match members
    [(λ m, rec_state_in m [StatePresent] && pf_unchanged m);
     (λ m, match pf_rec m with Some r => bool_decide (r_ID r ∈ promoteTarget) | None => false end);
     (λ m, rec_state_in m [StatePresent; StateMissing]);
     (λ m, match moveFrom !! pf_rel m with Some _ => true | None => false end)].

(** The hardlinks of damaged primaries that are linked again. *)
Definition relink_ids : gset Z :=
  list_to_set (concat ((λ f,
    match pf_rec f with
    | Some r =>
        if bool_decide (r_State r = StateMissing) && full f
        then r_ID <$> List.filter (λ d, bool_decide (r_State d = StateLinked) && still_there d) (deps (r_ID r))
        else []
    | None => []
    end) <$> files)).

(** *** The files *)

Record plan_env := mkPlanEnv {
  e_moveFrom : moves;
  e_promoteTarget : gset Z;
  e_needRepair : gset Z;
  e_relink : gset Z;
}.

Definition primary_of (e : plan_env) (f : planFile) : planFile :=
  if bool_decide (pf_group f = "") then f
  else default f (choosePrimary (in_group (pf_group f) files) (e_promoteTarget e) (e_moveFrom e)).

(** [pr.after = it] for the promote that saves the record's content. *)
Definition after_promote (r : Rec) (it : nat) : M unit :=
  let* pf := gets p_promoteFor in
  match pf !! r_ID r with Some pr => edit pr (with_after (Some it)) | None => ret tt end.

(** A full file (or, with [updateKept], a kept one whose source changed): the
    link item that waits for its primary, if it gets one. *)
Definition plan_full (e : plan_env) (f : planFile) : M (option nat) :=
  let prim := primary_of e f in
  let same := bool_decide (pf_rel prim = pf_rel f) in
  let link_it (r : option Rec) := let* it := link f prim r in ret (Some it) in
  match pf_rec f with
  | None =>
      match e_moveFrom e !! pf_rel f with
      | Some v => move f v ;; ret None
      | None => if same then newFile f ;; ret None else link_it None
      end
  | Some r =>
      if bool_decide (r_ID r ∈ e_needRepair e) then
        let* io := gets p_itemOf in
        match io !! pf_rel f with Some _ => ret None | None => repair f r ;; ret None end
      else if bool_decide (r_ID r ∈ e_relink e) then
        if same then repair f r ;; ret None
        else
          let* it := link f prim (Some r) in
          edit it (λ x, with_d (with_reason RRepair (it_d x)) (with_change false x)) ;;
          ret (Some it)
      else if bool_decide (r_State r = StateMissing) then
        if same then repair f r ;; ret None else link_it (Some r)
      else if pf_unchanged f then ret None
      else if same then let* up := update f r in after_promote r up ;; ret None
      else let* it := link f prim (Some r) in after_promote r it ;; ret (Some it)
  end.

Definition plan_file (e : plan_env) (links : list (nat * string)) (f : planFile) : M (list (nat * string)) :=
  check_ctx ;;
  if full f || keptChanged f then
    (if full f then ret tt else add_kept (pf_size f)) ;;
    let* it := plan_full e f in
    ret (match it with Some i => (links ++ [(i, pf_rel (primary_of e f))])%list | None => links end)
  else
    (match pf_rec f with
     | None => match e_moveFrom e !! pf_rel f with
               | Some v => move f v
               | None => add_nonFullNew f ;; tierItem f RNotCopied None
               end
     | Some r => keep f r
     end) ;;
    ret links.

Definition set_after (l : nat * string) : M unit :=
  let* io := gets p_itemOf in edit (fst l) (with_after (io !! snd l)).

Definition set_lost (lost : gmap Z (list Z)) (i : nat) : M unit :=
  edit i (λ x,
    if bool_decide (it_list x = LPuts) || bool_decide (it_list x = LLinks) then
      match lost !! dt_RecordID (it_d x) with
      | Some ((_ :: _) as ids) => with_d (with_lost ids (it_d x)) x
      | _ => x
      end
    else x).

(** [plan] after the files are matched with their records. *)
Definition plan_rest : M unit :=
  let* mv := pairMoves in
  let '(moveFrom, moved) := mv in
  let* st := for_fold vanished (∅, ∅) (plan_vanished_one moveFrom moved) in
  let '(pt, nr) := st in
  let* pt := for_fold files pt promote_changed in
  let* st := for_fold files (∅, nr) damaged_primary in
  let '(lost, nr) := st in
  let* links := for_fold files [] (plan_file (mkPlanEnv moveFrom pt nr relink_ids)) in
  for_each links set_after ;;
  let* h := gets p_heap in
  for_each (seq 0 (length h)) (set_lost lost).
End planned.

Definition start (names : nameIndex) : planner :=
  mkPlanner 0 names [] ∅ ∅ [] 0 [] (mkTierStats tc_zero tc_zero tc_zero tc_zero) tc_zero tc_zero 0 [].

(** [sourcePlanner.plan] *)
Definition plan (live : list planFile) : M unit :=
  let* files := match_records live in
  plan_rest (drop_singles files).

(** *** The plan in execution order *)

Definition list_of (l : plan_list) (h : list planItem) : list nat :=
  List.filter (λ i, match h !! i with Some it => bool_decide (it_list it = l) | None => false end) (seq 0 (length h)).

Definition release_rank (h : list planItem) (i : nat) : Z :=
  match h !! i with
  | None => 2
  | Some it =>
      match foldl (λ o r, if r_ID r =? dt_RecordID (it_d it) then Some (r_State r) else o) None (c_recs c) with
      | Some StateLinkRecorded => 0
      | Some StateLinked => 1
      | _ => 2
      end
  end.

Definition sortReleases (h : list planItem) (l : list nat) : list nat :=
  isort (λ a b, release_rank h a - release_rank h b) l.

Definition items (h : list planItem) : list nat :=
  (list_of LPromotes h ++ list_of LMoves h ++ list_of LPuts h ++ list_of LLinks h ++ list_of LRetains h
   ++ sortReleases h (list_of LReleases h) ++ list_of LSkips h)%list.
End operations.
