(* ===== verification/SyncPlanFacts.v ===== *)
(** * SyncPlanFacts: what [sourcePlanner.plan] guarantees

    The proofs look at a plan through its trace: for every item, the list it is
    in, the record and the file it is about, its destination path, and whether it
    stands for a vanished name. No later write through a pointer changes these,
    so a plan's trace is the concatenation of the traces of its steps. *)
From stdpp Require Import base gmap list strings.
From S2P Require Import Prelude GoStrings Tiers DestNames SyncPlan.
Open Scope string_scope.
Open Scope Z_scope.

Record skel := mkSkel {
  sk_list : plan_list;
  sk_rec : Z;
  sk_src : string;
  sk_rel : string;
  sk_stands : bool;
}.

Definition skel_of (it : planItem) : skel :=
  mkSkel (it_list it) (dt_RecordID (it_d it)) (dt_Source (it_d it)) (it_rel it)
    (bool_decide (it_list it = LPromotes) && it_change it).

Definition tr (s : planner) : list skel := skel_of <$> p_heap s.

(** Items that write a file's content. *)
Definition writes (x : skel) : bool := mem (sk_list x) [LPuts; LMoves].

(** [itemOf] knows exactly the files whose content some item writes. *)
Definition itemOf_ok (s : planner) : Prop :=
  ∀ rel, is_Some (p_itemOf s !! rel) ↔ ∃ x, x ∈ tr s ∧ writes x = true ∧ sk_src x = rel.

(** [emits m Q]: when [m] ends without an error in a good state, it has appended
    items with a trace [Q] allows (given the trace before and the result). *)
Definition emits {A} (m : M A) (Q : list skel → A → list skel → Prop) : Prop :=
  ∀ s a s', itemOf_ok s → m s = Ok (a, s') → itemOf_ok s' ∧ ∃ l, tr s' = (tr s ++ l)%list ∧ Q (tr s) a l.

Definition silent {A} (m : M A) : Prop := emits m (λ _ _ l, l = []).

Lemma emits_weaken {A} (m : M A) (Q Q' : list skel → A → list skel → Prop) :
  emits m Q → (∀ t a l, Q t a l → Q' t a l) → emits m Q'.
Proof. intros H HQ s a s' Hi Hm. destruct (H s a s' Hi Hm) as (? & l & ? & ?). eauto. Qed.

Lemma emits_ret {A} (a : A) (Q : list skel → A → list skel → Prop) : (∀ t, Q t a []) → emits (ret a) Q.
Proof. intros H s b s' Hi [= <- <-]. split; [done|]. exists []. by rewrite app_nil_r. Qed.

Lemma emits_fail {A} e (Q : list skel → A → list skel → Prop) : emits (fail e) Q.
Proof. intros s a s' Hi [=]. Qed.

Lemma emits_bind {A B} (m : M A) (k : A → M B) Q R :
  emits m Q →
  (∀ a, emits (k a) (λ t b l2, ∀ t0 l1, t = (t0 ++ l1)%list → Q t0 a l1 → R t0 b (l1 ++ l2)%list)) →
  emits (bind m k) R.
Proof.
  intros Hm Hk s b s' Hi E. unfold bind in E. destruct (m s) as [[a s1]|] eqn:E1; [|done].
  destruct (Hm _ _ _ Hi E1) as (Hi1 & l1 & H1 & HQ). destruct (Hk a _ _ _ Hi1 E) as (Hi2 & l2 & H2 & HR).
  split; [done|]. exists (l1 ++ l2)%list. rewrite H2, H1, app_assoc. split; [done|]. by apply (HR (tr s) l1).
Qed.

(** The common case: the first part emits nothing. *)
Lemma emits_silent_bind {A B} (m : M A) (k : A → M B) R :
  silent m → (∀ a, emits (k a) R) → emits (bind m k) R.
Proof.
  intros Hm Hk. eapply emits_bind; [exact Hm|]. intros a. eapply emits_weaken; [apply Hk|].
  simpl. intros t b l H t0 l1 -> ->. by rewrite app_nil_r in H.
Qed.

Lemma emits_bind_silent {A B} (m : M A) (k : A → M B) (R : list skel → B → list skel → Prop) Q :
  emits m Q → (∀ a, silent (k a)) → (∀ t a b l, Q t a l → R t b l) → emits (bind m k) R.
Proof.
  intros Hm Hk HR. eapply emits_bind; [exact Hm|]. intros a. eapply emits_weaken; [apply Hk|].
  simpl. intros t b l -> t0 l1 -> H. rewrite app_nil_r. eauto.
Qed.

(** A loop, by induction on the part of the list that is done. *)
Lemma emits_for_fold {A L} (l : list A) (v : L) (f : L → A → M L) (J : list A → L → list skel → list skel → Prop) :
  (∀ t, J [] v t []) →
  (∀ done a todo v, l = (done ++ a :: todo)%list →
     emits (f v a) (λ t v' l2, ∀ t0 l1, t = (t0 ++ l1)%list → J done v t0 l1 → J (done ++ [a])%list v' t0 (l1 ++ l2)%list)) →
  emits (for_fold l v f) (λ t v' tl, J l v' t tl).
Proof.
  intros H0 Hf.
  assert (Hgen : ∀ todo done v, l = (done ++ todo)%list →
    emits (for_fold todo v f) (λ t v' l2, ∀ t0 l1, t = (t0 ++ l1)%list → J done v t0 l1 → J l v' t0 (l1 ++ l2)%list)).
  { intros todo. induction todo as [|a todo IH]; intros done w Hl; simpl.
    - apply emits_ret. intros t t0 l1 _ HJ. rewrite app_nil_r in Hl |- *. by subst.
    - eapply emits_bind; [by apply (Hf done a todo)|]. intros w'.
      eapply emits_weaken; [apply (IH (done ++ [a])%list); by rewrite <-app_assoc|].
      simpl. intros t v2 l2 H t1 l1 -> HQ t0 l0 -> HJ. rewrite (app_assoc l0). apply H; [by rewrite app_assoc|]. by apply HQ. }
  eapply emits_weaken; [apply (Hgen l [] v eq_refl)|]. simpl. intros t v' tl H. apply (H t []); [by rewrite app_nil_r|done].
Qed.

(** A loop without a variable that matters: every round emits its own trace. *)
Lemma emits_for_fold_concat {A L} (l : list A) (v : L) (f : L → A → M L) (g : A → list skel) :
  (∀ v a, a ∈ l → emits (f v a) (λ _ _ tl, tl = g a)) →
  emits (for_fold l v f) (λ _ _ tl, tl = concat (g <$> l)).
Proof.
  intros Hf. apply (emits_for_fold l v f (λ done _ _ tl, tl = concat (g <$> done))); [done|].
  intros done a todo w ->. eapply emits_weaken; [apply Hf; set_solver|].
  simpl. intros t w' tl -> t0 l1 _ ->. rewrite fmap_app, concat_app. simpl. by rewrite app_nil_r.
Qed.

(** [quiet m]: no item, no write to [itemOf]; [registers rel m]: the same, but
    [itemOf] may learn the file [rel], and does. *)
Definition quiet {A} (m : M A) : Prop :=
  ∀ s a s', m s = Ok (a, s') → tr s' = tr s ∧ p_itemOf s' = p_itemOf s.

Definition registers {A} (rel : string) (m : M A) : Prop :=
  ∀ s a s', m s = Ok (a, s') → tr s' = tr s ∧
    ∀ r, is_Some (p_itemOf s' !! r) ↔ is_Some (p_itemOf s !! r) ∨ r = rel.

Lemma quiet_silent {A} (m : M A) : quiet m → silent m.
Proof.
  intros H s a s' Hi E. destruct (H _ _ _ E) as [Ht Ho]. split; [|exists []; by rewrite app_nil_r].
  intros rel. rewrite Ho, Ht. apply Hi.
Qed.

Lemma quiet_ret {A} (a : A) : quiet (ret a).
Proof. by intros s b s' [= <- <-]. Qed.
Lemma quiet_fail {A} e : quiet (A := A) (fail e).
Proof. intros s b s' [=]. Qed.
Lemma quiet_bind {A B} (m : M A) (k : A → M B) : quiet m → (∀ a, quiet (k a)) → quiet (bind m k).
Proof.
  intros Hm Hk s b s' E. unfold bind in E. destruct (m s) as [[a s1]|] eqn:E1; [|done].
  destruct (Hm _ _ _ E1), (Hk _ _ _ _ E). split; congruence.
Qed.
Lemma quiet_modify f : (∀ s, p_heap (f s) = p_heap s ∧ p_itemOf (f s) = p_itemOf s) → quiet (modify f).
Proof. intros H s a s' [= <- <-]. destruct (H s) as [Hh Ho]. unfold tr. by rewrite Hh. Qed.
Lemma quiet_gets {A} (f : planner → A) : quiet (gets f).
Proof. by intros s a s' [= <- <-]. Qed.
Lemma quiet_tick : quiet tick.
Proof. by intros s a s' [= <- <-]. Qed.
Lemma quiet_for_each {A} (l : list A) (f : A → M unit) : (∀ a, quiet (f a)) → quiet (for_each l f).
Proof. intros H. induction l; simpl; [apply quiet_ret|by apply quiet_bind]. Qed.

Lemma alter_skel (f : planItem → planItem) (i : nat) (h : list planItem) :
  (∀ x, skel_of (f x) = skel_of x) → skel_of <$> alter f i h = skel_of <$> h.
Proof.
  intros Hf. apply list_eq. intros j. rewrite !list_lookup_fmap. destruct (decide (i = j)) as [<-|Hne].
  - rewrite list_lookup_alter_eq. destruct (h !! i); simpl; congruence.
  - by rewrite list_lookup_alter_ne.
Qed.

Lemma quiet_edit i f : (∀ x, skel_of (f x) = skel_of x) → quiet (edit i f).
Proof. intros Hf s a s' [= <- <-]. split; [|done]. by apply alter_skel. Qed.

Lemma registers_set rel i : registers rel (set_itemOf rel i).
Proof.
  intros s a s' [= <- <-]. split; [done|]. intros r. simpl. destruct (decide (r = rel)) as [->|Hne].
  - rewrite lookup_insert_eq. naive_solver.
  - rewrite lookup_insert_ne by done. naive_solver.
Qed.
Lemma registers_after {A B} rel (m : M A) (k : A → M B) : quiet m → (∀ a, registers rel (k a)) → registers rel (bind m k).
Proof.
  intros Hm Hk s b s' E. unfold bind in E. destruct (m s) as [[a s1]|] eqn:E1; [|done].
  destruct (Hm _ _ _ E1) as [Ht Ho], (Hk _ _ _ _ E) as [Ht' Ho']. rewrite <-Ho. split; [congruence|done].
Qed.
Lemma registers_before {A B} rel (m : M A) (k : A → M B) : registers rel m → (∀ a, quiet (k a)) → registers rel (bind m k).
Proof.
  intros Hm Hk s b s' E. unfold bind in E. destruct (m s) as [[a s1]|] eqn:E1; [|done].
  destruct (Hm _ _ _ E1) as [Ht Ho], (Hk _ _ _ _ E) as [Ht' Ho']. rewrite Ho'. split; [congruence|done].
Qed.

Lemma tr_emit it s : tr (upd_heap (p_heap s ++ [it])%list s) = (tr s ++ [skel_of it])%list.
Proof. unfold tr. simpl. by rewrite fmap_app. Qed.

(** An item of a list that writes no content. *)
Lemma emits_emit it : writes (skel_of it) = false → emits (emit it) (λ _ _ l, l = [skel_of it]).
Proof.
  intros Hw s a s' Hi [= <- <-]. rewrite tr_emit. split; [|by eexists].
  intros rel. rewrite tr_emit. simpl. rewrite (Hi rel). split; intros (x & Hx & Hwx & Hr).
  - exists x. split; [set_solver|done].
  - apply elem_of_app in Hx as [Hx| ->%list_elem_of_singleton]; [eauto|congruence].
Qed.

(** An item that writes a file's content, and [itemOf] learns it. *)
Lemma emits_put {A} it (k : nat → M A) :
  writes (skel_of it) = true → (∀ i, registers (sk_src (skel_of it)) (k i)) →
  emits (let* i := emit it in k i) (λ _ _ l, l = [skel_of it]).
Proof.
  intros Hw Hk s a s' Hi E. unfold bind, emit in E. destruct (Hk _ _ _ _ E) as [Ht Ho]. simpl in Ho.
  rewrite tr_emit in Ht. split; [|by eexists]. intros rel. rewrite Ho, Ht. split.
  - intros [(x & Hx & Hwx & Hr)%Hi| ->]; [exists x; split; [set_solver|done]|].
    exists (skel_of it). split; [set_solver|done].
  - intros (x & [Hx| ->%list_elem_of_singleton]%elem_of_app & Hwx & Hr); [|by right]. left. apply Hi. eauto.
Qed.

(** Quiet as long as the pointer [i] is to an item that is not a promote (only a
    promote's [change] is in the trace). *)
Definition not_promote (i : nat) (s : planner) : Prop :=
  ∃ x, tr s !! i = Some x ∧ sk_list x ≠ LPromotes.
Definition quiet_on {A} (i : nat) (m : M A) : Prop :=
  ∀ s a s', not_promote i s → m s = Ok (a, s') → tr s' = tr s ∧ p_itemOf s' = p_itemOf s.

Lemma quiet_quiet_on {A} i (m : M A) : quiet m → quiet_on i m.
Proof. intros H s a s' _. apply H. Qed.
Lemma quiet_on_bind {A B} i (m : M A) (k : A → M B) : quiet_on i m → (∀ a, quiet_on i (k a)) → quiet_on i (bind m k).
Proof.
  intros Hm Hk s b s' Hi E. unfold bind in E. destruct (m s) as [[a s1]|] eqn:E1; [|done].
  destruct (Hm _ _ _ Hi E1) as [Ht Ho]. destruct (Hk a s1 b s') as [Ht' Ho']; [by unfold not_promote; rewrite Ht|done|].
  split; congruence.
Qed.
Lemma quiet_on_edit i f :
  (∀ x, it_list x ≠ LPromotes → skel_of (f x) = skel_of x) → quiet_on i (edit i f).
Proof.
  intros Hf s a s' (x & Hx & Hl) [= <- <-]. split; [|done]. unfold tr in *. simpl.
  apply list_eq. intros j. rewrite !list_lookup_fmap in *. destruct (decide (i = j)) as [<-|Hne].
  - rewrite list_lookup_alter_eq. destruct (p_heap s !! i) as [it|]; [|done]. simpl in *. simplify_eq.
    f_equal. by apply Hf.
  - by rewrite list_lookup_alter_ne.
Qed.

(** A new item, and quiet steps on it. *)
Lemma emits_emit_on {A} it (k : nat → M A) :
  writes (skel_of it) = false → it_list it ≠ LPromotes → (∀ i, quiet_on i (k i)) →
  emits (let* i := emit it in k i) (λ _ _ l, l = [skel_of it]).
Proof.
  intros Hw Hl Hk s a s' Hi E. destruct (emits_emit it Hw s _ _ Hi eq_refl) as (Hi1 & _).
  unfold bind, emit in E. eapply Hk in E as [Ht Ho].
  - rewrite tr_emit in Ht. split; [|by eexists]. intros rel. rewrite Ho, Ht, <-tr_emit. apply Hi1.
  - exists (skel_of it). rewrite tr_emit. split; [|done].
    rewrite lookup_app_r by (unfold tr; by rewrite length_fmap). unfold tr. by rewrite length_fmap, Nat.sub_diag.
Qed.

Lemma emits_put_on {A} it rel (k : nat → M A) :
  writes (skel_of it) = true → sk_src (skel_of it) = rel → (∀ i, quiet_on i (k i)) →
  emits (let* i := emit it in set_itemOf rel i ;; k i) (λ _ _ l, l = [skel_of it]).
Proof.
  intros Hw <- Hk s a s' Hi E.
  destruct (emits_put it (λ i, set_itemOf (sk_src (skel_of it)) i) Hw (λ i, registers_set _ i) s _ _ Hi eq_refl) as (Hi1 & _).
  unfold bind, emit in E. simpl in E. eapply Hk in E as [Ht Ho].
  - change (tr (upd_itemOf _ _)) with (tr (upd_heap (p_heap s ++ [it])%list s)) in Ht. rewrite tr_emit in Ht.
    split; [|by eexists]. intros rel. rewrite Ho, Ht, <-tr_emit. apply Hi1.
  - exists (skel_of it). change (tr (upd_itemOf _ _)) with (tr (upd_heap (p_heap s ++ [it])%list s)). rewrite tr_emit. split.
    + rewrite lookup_app_r by (unfold tr; by rewrite length_fmap). unfold tr. by rewrite length_fmap, Nat.sub_diag.
    + intros E'. unfold writes in Hw. rewrite E' in Hw. by vm_compute in Hw.
Qed.

#[export] Hint Resolve quiet_silent quiet_ret quiet_fail quiet_gets quiet_tick registers_set : bunkarr.

(** Solves [quiet m] for an [m] made of quiet steps, whatever it branches on. *)
Ltac quiet :=
  repeat first
    [ done
    | apply quiet_ret | apply quiet_fail | apply quiet_gets | apply quiet_tick
    | apply quiet_edit; intros []; reflexivity
    | apply quiet_modify; intros []; split; reflexivity
    | apply quiet_bind; [|intros ?]
    | progress unfold read_source, read_dest, stat_dest, check_ctx, warn, defer_one, add_nonFullNew, add_kept, add_released, add_stale, add_replaceChecked, set_promoteFor
    | case_match ].

(** ** The traces of the operations *)

Section traces.
Context (c : config).

Lemma quiet_replacedInPlace f r : quiet (replacedInPlace c f r).
Proof. unfold replacedInPlace. quiet. Qed.

Lemma quiet_match_record f : quiet (match_record c f).
Proof.
  unfold match_record, countTier. apply quiet_bind; [|intros; quiet].
  case_match; [|quiet]. case_match; [|quiet]. apply quiet_bind; [apply quiet_replacedInPlace|intros; quiet].
Qed.

Lemma quiet_match_records files : quiet (match_records c files).
Proof.
  induction files as [|f files IH]; simpl; [quiet|].
  apply quiet_bind; [apply quiet_match_record|intros]. apply quiet_bind; [done|intros; quiet].
Qed.

Lemma quiet_try_moves f cands h moved : quiet (try_moves c f cands h moved).
Proof.
  revert h. induction cands as [|v cands IH]; intros h; simpl; [quiet|].
  case_match; [done|]. apply quiet_bind; [quiet|intros _]. apply quiet_bind; [quiet|intros [e|e]].
  - destruct e; quiet.
  - quiet.
Qed.

Definition retain_skel (v : Rec) : skel := mkSkel LRetains (r_ID v) (r_SourceRelPath v) (r_RelPath v) false.
Definition promote_skel (v t : Rec) (stands : bool) : skel :=
  mkSkel LPromotes (r_ID v) (r_SourceRelPath t) (r_RelPath t) stands.
Definition put_skel (f : planFile) (r : Rec) : skel := mkSkel LPuts (r_ID r) (pf_rel f) (r_RelPath r) false.
Definition new_skel (f : planFile) : skel := mkSkel LPuts 0 (pf_rel f) (destPath c (pf_rel f)) false.
Definition move_skel (f : planFile) (v : Rec) : skel := mkSkel LMoves (r_ID v) (pf_rel f) (destPath c (pf_rel f)) false.
Definition link_skel (f : planFile) (r : option Rec) : skel :=
  mkSkel LLinks (match r with Some r => r_ID r | None => 0 end) (pf_rel f)
    (match r with Some r => r_RelPath r | None => destPath c (pf_rel f) end) false.
Definition skip_skel (f : planFile) (r : option Rec) : skel :=
  mkSkel LSkips (match r with Some r => r_ID r | None => 0 end) (pf_rel f)
    (match r with Some r => r_RelPath r | None => destPath c (pf_rel f) end) false.
Definition release_skel (f : planFile) (r : Rec) : skel := mkSkel LReleases (r_ID r) (pf_rel f) (r_RelPath r) false.

Lemma quiet_create dest self i : quiet (create c dest self i).
Proof. unfold create. quiet. Qed.

Lemma emits_retain v : emits (retain c v) (λ _ _ l, l = [retain_skel v]).
Proof. by apply emits_emit. Qed.

Lemma emits_promote v t w : emits (promote c v t w) (λ _ _ l, l = [promote_skel v t false]).
Proof. by apply emits_emit. Qed.

Lemma emits_update f r : emits (update c f r) (λ _ _ l, l = [put_skel f r]).
Proof. apply emits_put; [done|]. intros i. apply registers_before; [apply registers_set|intros; quiet]. Qed.

Lemma emits_repair f r : emits (repair c f r) (λ _ _ l, l = [put_skel f r]).
Proof. apply emits_put; [done|]. intros i. apply registers_set. Qed.

Lemma emits_move f v : emits (move c f v) (λ _ _ l, l = [move_skel f v]).
Proof.
  apply emits_put; [done|]. intros i. apply registers_after; [apply quiet_create|]. intros _. apply registers_set.
Qed.

Lemma emits_link f prim r : emits (link c f prim r) (λ _ _ l, l = [link_skel f r]).
Proof.
  unfold link. destruct r as [r|]; [by apply emits_emit|].
  eapply emits_bind_silent; [by apply emits_emit| |by simpl].
  intros i. apply quiet_silent, quiet_bind; [apply quiet_create|intros; quiet].
Qed.

Lemma skel_change b x : it_list x ≠ LPromotes → skel_of (with_change b x) = skel_of x.
Proof. intros H. unfold skel_of. simpl. by rewrite bool_decide_false. Qed.

Lemma quiet_on_unknownCopy it f : quiet_on it (unknownCopy it f).
Proof.
  unfold unknownCopy. case_match; [|by apply quiet_quiet_on; quiet]. apply quiet_on_edit.
  intros x Hx. case_match; [|done]. exact (skel_change true x Hx).
Qed.

Lemma emits_newFile f : emits (newFile c f) (λ _ _ l, l = [new_skel f]).
Proof.
  unfold newFile. apply emits_put_on; [done..|]. intros i.
  apply quiet_on_bind; [apply quiet_quiet_on, quiet_create|intros ok].
  case_match; [by apply quiet_quiet_on; quiet|]. apply quiet_on_bind; [apply quiet_quiet_on; quiet|].
  intros [[st|]|e]; [| apply quiet_on_unknownCopy |apply quiet_quiet_on; quiet].
  case_match; [apply quiet_quiet_on; quiet|]. case_match.
  - by apply quiet_on_edit.
  - apply quiet_on_bind; [by apply quiet_on_edit|intros; apply quiet_on_unknownCopy].
Qed.

Lemma emits_relink f prim r :
  emits (let* it := link c f prim (Some r) in
         edit it (λ x, with_d (with_reason RRepair (it_d x)) (with_change false x)) ;; ret (Some it))
    (λ _ _ l, l = [link_skel f (Some r)]).
Proof.
  unfold link. apply emits_emit_on; [done..|]. intros i.
  apply quiet_on_bind; [|intros; apply quiet_quiet_on; quiet]. apply quiet_on_edit. intros x Hx. exact (skel_change false x Hx).
Qed.

Lemma emits_tierItem f w r : emits (tierItem c f w r) (λ _ _ l, l = if c_dryRun c then [skip_skel f r] else []).
Proof.
  unfold tierItem. destruct (c_dryRun c); simpl; [|by apply emits_ret].
  destruct r as [r|]; (eapply emits_bind_silent; [by apply emits_emit|intros; apply quiet_silent; quiet|by simpl]).
Qed.

Lemma emits_release_item f r rev : emits (release_item c f r rev) (λ _ _ l, l = [release_skel f r]).
Proof.
  unfold release_item. eapply emits_bind_silent; [by apply emits_emit|intros; apply quiet_silent; quiet|by simpl].
Qed.

(** What a release plan allows: every kept record of a dry run, in a real run the
    records the confirmed preview listed, unchanged and decided at its revision. *)
Definition release_allowed (f : planFile) (r : Rec) : bool :=
  match c_release c with
  | None => false
  | Some rp => rp_all rp ||
      match rp_allowed rp !! r_ID r with
      | Some w => matches w r && (dec_revision f =? rp_revision rp)
      | None => false
      end
  end.

Definition keep_trace (f : planFile) (r : Rec) : list skel :=
  if bool_decide (r_State r = StateMissing) then []
  else ((if c_dryRun c then [skip_skel f (Some r)] else []) ++ (if release_allowed f r then [release_skel f r] else []))%list.

Lemma emits_keep f r : emits (keep c f r) (λ _ _ l, l = keep_trace f r).
Proof.
  unfold keep, keep_trace. case_bool_decide; [by apply emits_ret|].
  apply emits_silent_bind; [apply quiet_silent; quiet|intros _].
  eapply emits_bind; [apply emits_tierItem|]. intros u.
  eapply (emits_weaken _ (λ _ _ l, l = if release_allowed f r then [release_skel f r] else [])).
  2: { simpl. by intros t b l -> t0 l1 -> ->. }
  unfold release_allowed. destruct (c_release c) as [rp|]; [|by apply emits_ret].
  destruct (rp_all rp); simpl; [apply emits_release_item|].
  destruct (rp_allowed rp !! r_ID r) as [w|]; [|by apply emits_ret].
  destruct (matches w r); simpl; [|by apply emits_ret].
  destruct (dec_revision f =? rp_revision rp); simpl; [apply emits_release_item|apply quiet_silent; quiet].
Qed.
End traces.

(** ** The traces of the phases *)

(** A step's result satisfies [P]. *)
Definition returns {A} (m : M A) (P : A → Prop) : Prop := ∀ s a s', m s = Ok (a, s') → P a.

Lemma returns_ret {A} (a : A) (P : A → Prop) : P a → returns (ret a) P.
Proof. by intros H s b s' [= <- <-]. Qed.
Lemma returns_fail {A} e (P : A → Prop) : returns (fail e) P.
Proof. intros s b s' [=]. Qed.
Lemma returns_bind {A B} (m : M A) (k : A → M B) P Q :
  returns m P → (∀ a, P a → returns (k a) Q) → returns (bind m k) Q.
Proof.
  intros Hm Hk s b s' E. unfold bind in E. destruct (m s) as [[a s1]|] eqn:E1; [|done]. eapply Hk; eauto.
Qed.
Lemma returns_any {A} (m : M A) : returns m (λ _, True).
Proof. done. Qed.
Lemma returns_for_fold {A L} (l : list A) (v : L) (f : L → A → M L) (J : list A → L → Prop) :
  J [] v → (∀ done a todo v, l = (done ++ a :: todo)%list → J done v → returns (f v a) (J (done ++ [a])%list)) →
  returns (for_fold l v f) (J l).
Proof.
  intros H0 Hf.
  assert (Hgen : ∀ todo done v, l = (done ++ todo)%list → J done v → returns (for_fold todo v f) (J l)).
  { intros todo. induction todo as [|a todo IH]; intros done w Hl HJ; simpl.
    - rewrite app_nil_r in Hl. subst. by apply returns_ret.
    - eapply returns_bind; [by eapply Hf|]. intros w' Hw'. apply (IH (done ++ [a])%list); [by rewrite <-app_assoc|done]. }
  by apply (Hgen l []).
Qed.
Lemma emits_and_returns {A} (m : M A) Q P : emits m Q → returns m P → emits m (λ t a l, (Q t a l ∧ P a)).
Proof. intros H HP s a s' Hi E. destruct (H s a s' Hi E) as (? & l & ? & ?). split; [done|]. eauto. Qed.

Section phases.
Context (c : config) (files : list planFile).
Context (Hrels : NoDup (pf_rel <$> files)).

(** *** Moves *)

(** A pairing the planner may make. *)
Record paired (f : planFile) (v : Rec) : Prop := {
  paired_file : f ∈ files;
  paired_new : pf_rec f = None;
  paired_vanished : v ∈ vanished c files;
  paired_state : r_State v = StatePresent ∨ r_State v = StateLinked;
  paired_size : r_Size v = pf_size f;
  paired_mtime : r_MtimeNs v = pf_mtimeNs f;
  paired_hash : ∃ n m h, sourceHeadTail (c_reads c) n (pf_rel f) = Ok h ∧ destHeadTail (c_reads c) m (r_RelPath v) = Ok h;
}.

Record moves_ok (mv : moves * gset Z) : Prop := {
  mo_paired rel v : mv.1 !! rel = Some v → ∃ f, pf_rel f = rel ∧ paired f v;
  mo_moved id : id ∈ mv.2 ↔ ∃ rel v, mv.1 !! rel = Some v ∧ r_ID v = id;
  mo_inj rel rel' v v' : mv.1 !! rel = Some v → mv.1 !! rel' = Some v' → r_ID v = r_ID v' → rel = rel';
}.

Lemma try_moves_returns f cands h moved :
  h = "" ∨ (∃ n, sourceHeadTail (c_reads c) n (pf_rel f) = Ok h) →
  returns (try_moves c f cands h moved) (λ o, ∀ v, o = Some v → (v ∈ cands) ∧ (r_ID v ∉ moved) ∧
    (∃ n m h, sourceHeadTail (c_reads c) n (pf_rel f) = Ok h ∧ destHeadTail (c_reads c) m (r_RelPath v) = Ok h)).
Proof.
  revert h. induction cands as [|v cands IH]; intros h Hh; simpl; [by apply returns_ret|].
  case_bool_decide as Hm.
  { intros s a s' E x ->. destruct (IH h Hh _ _ _ E x eq_refl) as (? & ? & ?). split; [by right|done]. }
  eapply returns_bind; [apply returns_any|intros _ _].
  apply (returns_bind _ _ (λ r, ∀ h', r = Ok h' → ∃ n, sourceHeadTail (c_reads c) n (pf_rel f) = Ok h')).
  { case_bool_decide as Eh; [|apply returns_ret; intros h' [= <-]; destruct Hh; [done|done]].
    intros s r s' [= <- <-] h' E. by eexists. }
  intros [h'|e] Hr; [|destruct e; [apply returns_fail|by apply returns_ret]].
  apply (returns_bind _ _ (λ r, ∀ d, r = Ok d → ∃ m, destHeadTail (c_reads c) m (r_RelPath v) = Ok d)).
  { intros s r s' [= <- <-] d E. by eexists. }
  intros [d|e] Hd.
  - case_bool_decide as Edh.
    + subst. apply returns_ret. intros x [= <-]. split; [by left|]. split; [done|].
      destruct (Hr h' eq_refl) as [n Hn], (Hd h' eq_refl) as [m Hm']. by exists n, m, h'.
    + intros s a s' E x ->. destruct (IH h' ltac:(right; by apply Hr) _ _ _ E x eq_refl) as (? & ? & ?). split; [by right|done].
  - destruct e; [apply returns_fail|].
    intros s a s' E x ->. destruct (IH h' ltac:(right; by apply Hr) _ _ _ E x eq_refl) as (? & ? & ?). split; [by right|done].
Qed.

Lemma considered_new f : considered files f = true → pf_rec f = None.
Proof. unfold considered, has_rec. by destruct (pf_rec f). Qed.

Lemma pair_move_returns done f todo st :
  files = (done ++ f :: todo)%list →
  moves_ok st ∧ (∀ rel, is_Some (st.1 !! rel) → rel ∈ pf_rel <$> done) →
  returns (pair_move c files st f) (λ st, moves_ok st ∧ (∀ rel, is_Some (st.1 !! rel) → rel ∈ pf_rel <$> (done ++ [f])%list)).
Proof.
  intros Hfs [Hst Hdone]. assert (Hf : f ∈ files) by (rewrite Hfs; set_solver).
  assert (Hdone' : ∀ rel, is_Some (st.1 !! rel) → rel ∈ pf_rel <$> (done ++ [f])%list) by (intros; rewrite fmap_app; set_solver).
  destruct st as [mv moved]. unfold pair_move.
  assert (Hfresh : mv !! pf_rel f = None).
  { apply eq_None_not_Some. intros Hin. apply (Hdone (pf_rel f)) in Hin. rewrite Hfs, fmap_app in Hrels.
    apply NoDup_app in Hrels as (_ & Hx & _). apply (Hx _ Hin). set_solver. }
  destruct (considered files f) eqn:Hc; simpl; [|by apply returns_ret].
  eapply returns_bind; [apply try_moves_returns; by left|]. intros [v|] Hv; [|by apply returns_ret].
  apply returns_ret. destruct (Hv v eq_refl) as (Hin & Hnm & Hh).
  apply filter_bool_elem in Hin as [Hin Hp]. rewrite !andb_true_iff, !Z.eqb_eq in Hp. destruct Hp as [[Hp Hsz] Hmt].
  assert (Hpair : paired f v).
  { split; [done|by apply considered_new|done| |done|done|done].
    unfold in_pool in Hp. rewrite orb_true_iff, !bool_decide_eq_true in Hp. done. }
  destruct Hst as [Hpd Hmd Hinj]. simpl in *. split; [split; simpl|].
  - intros rel w. destruct (decide (pf_rel f = rel)) as [<-|Hne].
    + rewrite lookup_insert_eq. intros [= <-]. by exists f.
    + rewrite lookup_insert_ne by done. apply Hpd.
  - intros id. rewrite elem_of_union, elem_of_singleton. split.
    + intros [->|Hid]; [exists (pf_rel f), v; by rewrite lookup_insert_eq|].
      apply Hmd in Hid as (rel & w & Hw & Hid). exists rel, w.
      rewrite lookup_insert_ne; [done|]. congruence.
    + intros (rel & w & Hw & <-). destruct (decide (pf_rel f = rel)) as [<-|Hne].
      * rewrite lookup_insert_eq in Hw. simplify_eq. by left.
      * rewrite lookup_insert_ne in Hw by done. right. apply Hmd. eauto.
  - intros rel rel' w w' Hw Hw' E.
    destruct (decide (pf_rel f = rel)) as [<-|Hne], (decide (pf_rel f = rel')) as [<-|Hne']; [done|..].
    + rewrite lookup_insert_eq in Hw. rewrite lookup_insert_ne in Hw' by done. simplify_eq.
      destruct Hnm. apply Hmd. eauto.
    + rewrite lookup_insert_eq in Hw'. rewrite lookup_insert_ne in Hw by done. simplify_eq.
      destruct Hnm. apply Hmd. eauto.
    + rewrite lookup_insert_ne in Hw, Hw' by done. eauto.
  - simpl. intros rel. destruct (decide (pf_rel f = rel)) as [<-|Hne]; [intros _; rewrite fmap_app; set_solver|].
    rewrite lookup_insert_ne by done. apply Hdone'.
Qed.

Lemma pairMoves_returns : returns (pairMoves c files) moves_ok.
Proof.
  assert (H0 : moves_ok (∅, ∅)) by (split; simpl; set_solver).
  unfold pairMoves. case_bool_decide; [by apply returns_ret|]. intros s st s' E.
  refine (proj1 (returns_for_fold files _ _ (λ done st, moves_ok st ∧ (∀ rel, is_Some (st.1 !! rel) → rel ∈ pf_rel <$> done)) _ _ s st s' E)).
  - split; [done|]. intros rel [? H']. by simpl in H'.
  - intros. by eapply pair_move_returns.
Qed.

Lemma quiet_for_fold {A L} (l : list A) (v : L) (f : L → A → M L) : (∀ v a, quiet (f v a)) → quiet (for_fold l v f).
Proof. intros H. revert v. induction l; intros v; simpl; [apply quiet_ret|by apply quiet_bind]. Qed.

Lemma quiet_pairMoves : quiet (pairMoves c files).
Proof.
  unfold pairMoves. case_bool_decide; [quiet|]. apply quiet_for_fold. intros [mv moved] f. unfold pair_move.
  case_match; [quiet|]. apply quiet_bind; [apply quiet_try_moves|]. intros []; quiet.
Qed.

(** *** Vanished records *)

Definition vanished_item_trace (v : Rec) : list skel :=
  if bool_decide (r_State v = StateLinkRecorded) || bool_decide (r_State v = StateMissing) then [retain_skel v]
  else match surviving c files v with
       | d0 :: rest =>
           let t := pickTarget d0 rest in
           if bool_decide (r_State t = StateLinked) then [promote_skel v t false; retain_skel v] else [promote_skel v t true]
       | [] => [retain_skel v]
       end.

Definition deferred (moveFrom : moves) (v : Rec) : bool :=
  c_targeted c && negb (mem (path_dir (r_SourceRelPath v)) (fresh_dirs files moveFrom)).

Definition vanished_trace (mv : moves * gset Z) (v : Rec) : list skel :=
  if bool_decide (r_ID v ∈ mv.2) || deferred mv.1 v then [] else vanished_item_trace v.

Lemma emits_promote_change v t w :
  emits (let* pr := promote c v t w in edit pr (with_change true)) (λ _ _ l, l = [promote_skel v t true]).
Proof.
  intros s a s' Hi E.
  assert (Hs : tr s' = (tr s ++ [promote_skel v t true])%list ∧ p_itemOf s' = p_itemOf s).
  { inversion E; subst. unfold tr. simpl. split; [|done].
    rewrite <-(Nat.add_0_r (length (p_heap s))), alter_app_r. by rewrite fmap_app. }
  destruct Hs as [Ht Ho]. split; [|by eexists]. intros rel. rewrite Ho, Ht, (Hi rel).
  split; intros (x & Hx & Hw & Hr).
  - exists x. split; [set_solver|done].
  - apply elem_of_app in Hx as [Hx| ->%list_elem_of_singleton]; [eauto|by vm_compute in Hw].
Qed.

Lemma emits_planVanished v st : emits (planVanished c files v st) (λ _ _ l, l = vanished_item_trace v).
Proof.
  destruct st as [pt nr]. unfold planVanished, vanished_item_trace.
  case_bool_decide; simpl; [eapply emits_bind_silent; [apply emits_retain|intros; apply quiet_silent; quiet|by simpl]|].
  case_bool_decide; [eapply emits_bind_silent; [apply emits_retain|intros; apply quiet_silent; quiet|by simpl]|].
  destruct (surviving c files v) as [|d0 rest];
    [eapply emits_bind_silent; [apply emits_retain|intros; apply quiet_silent; quiet|by simpl]|].
  case_bool_decide.
  - eapply emits_bind; [apply emits_promote|]. intros pr.
    apply (emits_bind_silent _ _ _ (λ _ _ l, l = [retain_skel v])).
    + eapply emits_bind_silent; [apply emits_retain|intros; apply quiet_silent; quiet|by simpl].
    + intros. apply quiet_silent. quiet.
    + simpl. by intros t u _ l -> t0 l1 -> ->.
  - intros s a s' Hi E. unfold bind at 1 in E. destruct (promote _ _ _ _ s) as [[pr s1]|] eqn:E1; [|done].
    unfold bind in E. destruct (edit pr (with_change true) s1) as [[u s2]|] eqn:E2; [|done]. inversion E; subst.
    apply (emits_promote_change v (pickTarget d0 rest) ForRetain s u s' Hi). unfold bind. by rewrite E1.
Qed.

Lemma emits_vanished mv l st :
  emits (for_fold l st (plan_vanished_one c files mv.1 mv.2)) (λ _ _ tl, tl = concat (vanished_trace mv <$> l)).
Proof.
  apply emits_for_fold_concat. intros st' v _. unfold plan_vanished_one, vanished_trace, deferred.
  case_bool_decide; simpl; [by apply emits_ret|]. destruct (c_targeted c && _); [|apply emits_planVanished].
  apply quiet_silent. quiet.
Qed.

(** The names that need a copy of their own because their vanished primary was
    missing at the destination. *)
Definition repairs_ok (nr : gset Z) : Prop :=
  ∀ id, id ∈ nr → ∃ v d, v ∈ vanished c files ∧ r_State v = StateMissing ∧ d ∈ surviving c files v ∧ r_ID d = id.

Lemma vanished_returns mf md :
  returns (for_fold (vanished c files) (∅, ∅) (plan_vanished_one c files mf md)) (λ st, repairs_ok st.2).
Proof.
  clear Hrels.
  intros s st s' E. refine (returns_for_fold (vanished c files) _ _ (λ _ st, repairs_ok st.2) _ _ s st s' E); [done|].
  intros done v todo [pt nr] Hl Hnr. assert (Hv : v ∈ vanished c files) by (rewrite Hl; set_solver). clear Hl.
  unfold plan_vanished_one. case_bool_decide; [by apply returns_ret|].
  case_match; [eapply returns_bind; [apply returns_any|]; intros; by apply returns_ret|].
  unfold planVanished. case_bool_decide; [eapply returns_bind; [apply returns_any|]; intros; by apply returns_ret|].
  case_bool_decide as Hm.
  - eapply returns_bind; [apply returns_any|]. intros _ _. apply returns_ret. intros id Hid. simpl in Hid.
    apply elem_of_union in Hid as [Hid|Hid]; [|by apply Hnr].
    apply elem_of_list_to_set, list_elem_of_fmap in Hid as (d & -> & Hd). by exists v, d.
  - destruct (surviving c files v); [eapply returns_bind; [apply returns_any|]; intros; by apply returns_ret|].
    eapply returns_bind; [apply returns_any|]. intros pr _. eapply returns_bind; [apply returns_any|].
    intros _ _. by apply returns_ret.
Qed.

(** *** Changed and damaged primaries *)

Definition changed_trace (f : planFile) : list skel :=
  match pf_rec f with
  | None => []
  | Some r =>
      if pf_unchanged f || negb (bool_decide (r_State r = StatePresent)) || negb (full f || keptChanged c f) then []
      else match surviving c files r with
           | [] => []
           | d0 :: rest => [promote_skel r (pickTarget d0 rest) false]
           end
  end.

Lemma emits_changed pt : emits (for_fold files pt (promote_changed c files)) (λ _ _ tl, tl = concat (changed_trace <$> files)).
Proof.
  apply emits_for_fold_concat. intros v f _. unfold promote_changed, changed_trace.
  destruct (pf_rec f) as [r|]; [|by apply emits_ret]. case_match; [by apply emits_ret|].
  destruct (surviving c files r); [by apply emits_ret|].
  eapply emits_bind_silent; [apply emits_promote|intros; apply quiet_silent; quiet|by simpl].
Qed.

(** The links of damaged primaries that get their own copy: the file and its
    record. *)
Record damaged_link (df : planFile) (d : Rec) : Prop := {
  dl_file : byRel files (r_SourceRelPath d) = Some df;
  dl_full : full df = true;
  dl_surviving : ∃ f r, f ∈ files ∧ pf_rec f = Some r ∧ r_State r = StateMissing ∧ d ∈ surviving c files r;
}.

Definition link_ids (ps : list (planFile * Rec)) : list Z := (λ p, r_ID p.2) <$> ps.

(** What the phase has done: it repaired the links [ps], each once, and knows
    them as repaired ([nr0]: the ids that were to be repaired before). *)
Record damaged_ok (nr0 : gset Z) (nr : gset Z) (ps : list (planFile * Rec)) : Prop := {
  dk_links : Forall (λ p, damaged_link p.1 p.2) ps;
  dk_once : NoDup (link_ids ps);
  dk_new id : id ∈ link_ids ps → id ∉ nr0;
  dk_ids id : id ∈ nr ↔ id ∈ nr0 ∨ id ∈ link_ids ps;
}.

Lemma link_ids_snoc ps p : link_ids (ps ++ [p]) = (link_ids ps ++ [r_ID p.2])%list.
Proof. unfold link_ids. by rewrite fmap_app. Qed.

Definition damaged_step (nr0 : gset Z) (st st' : lost_sets) (l : list skel) : Prop :=
  ∀ ps, damaged_ok nr0 st.2 ps → ∃ ps', l = (λ p, put_skel p.1 p.2) <$> ps' ∧ damaged_ok nr0 st'.2 (ps ++ ps')%list.

Lemma damaged_step_refl nr0 st st' : st.2 = st'.2 → damaged_step nr0 st st' [].
Proof. intros E ps H. exists []. rewrite app_nil_r, <-E. done. Qed.
Lemma damaged_step_trans nr0 st1 st2 st3 l1 l2 :
  damaged_step nr0 st1 st2 l1 → damaged_step nr0 st2 st3 l2 → damaged_step nr0 st1 st3 (l1 ++ l2)%list.
Proof.
  intros H1 H2 ps H. destruct (H1 ps H) as (ps1 & -> & Hk). destruct (H2 _ Hk) as (ps2 & -> & Hk').
  exists (ps1 ++ ps2)%list. by rewrite fmap_app, app_assoc.
Qed.

Lemma damaged_loop {A} nr0 (l : list A) st (f : lost_sets → A → M lost_sets) :
  (∀ a st, a ∈ l → emits (f st a) (λ _ st' tl, damaged_step nr0 st st' tl)) →
  emits (for_fold l st f) (λ _ st' tl, damaged_step nr0 st st' tl).
Proof.
  intros Hf. apply (emits_for_fold l st f (λ _ st' _ tl, damaged_step nr0 st st' tl)).
  - intros. by apply damaged_step_refl.
  - intros done a todo w ->. eapply emits_weaken; [apply Hf; set_solver|].
    simpl. intros t w' tl H t0 l1 _ H1. by eapply damaged_step_trans.
Qed.

Lemma emits_damaged_dependent nr0 f r st d :
  f ∈ files → pf_rec f = Some r → r_State r = StateMissing → d ∈ surviving c files r →
  emits (damaged_dependent c files f r st d) (λ _ st' tl, damaged_step nr0 st st' tl).
Proof.
  intros Hf Hr Hm Hd. destruct st as [lost nr]. unfold damaged_dependent.
  destruct (byRel files (r_SourceRelPath d)) as [df|] eqn:Hdf; [|apply emits_ret; intros; by apply damaged_step_refl].
  destruct (full df) eqn:Hfull; simpl.
  2: { apply emits_ret. intros. apply damaged_step_refl. by case_match. }
  case_match eqn:E; [|apply emits_ret; intros; by apply damaged_step_refl].
  apply andb_true_iff in E as [_ E%negb_true_iff%bool_decide_eq_false].
  eapply emits_bind; [apply emits_repair|]. intros u. apply emits_ret.
  intros t t0 l1 _ -> ps Hk. exists [(df, d)]. split; [done|]. destruct Hk as [Hl Ho Hn Hi]. simpl in *.
  assert (Hnew : (r_ID d ∉ nr0) ∧ (r_ID d ∉ link_ids ps)) by (rewrite Hi in E; tauto).
  split; rewrite ?link_ids_snoc; simpl.
  - apply Forall_app. split; [done|]. constructor; [|done]. split; [done|done|]. by exists f, r.
  - apply NoDup_app. split; [done|]. split; [|by apply NoDup_singleton].
    intros id Hid ->%list_elem_of_singleton. tauto.
  - intros id. intros [Hid| ->%list_elem_of_singleton]%elem_of_app; [by apply Hn|tauto].
  - intros id. rewrite elem_of_app, elem_of_union, Hi, elem_of_singleton, list_elem_of_singleton. simpl. tauto.
Qed.

Lemma emits_damaged nr0 lost :
  emits (for_fold files (lost, nr0) (damaged_primary c files)) (λ _ st tl, ∃ ps,
    tl = (λ p, put_skel p.1 p.2) <$> ps ∧ damaged_ok nr0 st.2 ps).
Proof.
  eapply emits_weaken.
  - apply (damaged_loop nr0). intros f st Hf. unfold damaged_primary.
    destruct (pf_rec f) as [r|] eqn:Hr; [|apply emits_ret; intros; by apply damaged_step_refl].
    case_bool_decide as Hm; [|apply emits_ret; intros; by apply damaged_step_refl].
    apply damaged_loop. intros d st' Hd. by eapply emits_damaged_dependent.
  - intros t st tl H. destruct (H []) as (ps & -> & Hk); [|by exists ps].
    split; simpl; [constructor|constructor|set_solver|set_solver].
Qed.
(** *** The files *)

Definition written (t : list skel) (rel : string) : bool :=
  existsb (λ x, writes x && bool_decide (sk_src x = rel)) t.

Definition full_trace (e : plan_env) (f : planFile) (done : bool) : list skel :=
  let same := bool_decide (pf_rel (primary_of files e f) = pf_rel f) in
  match pf_rec f with
  | None =>
      match e_moveFrom e !! pf_rel f with
      | Some v => [move_skel c f v]
      | None => if same then [new_skel c f] else [link_skel c f None]
      end
  | Some r =>
      let put_or_link := if same then [put_skel f r] else [link_skel c f (Some r)] in
      if bool_decide (r_ID r ∈ e_needRepair e) then if done then [] else [put_skel f r]
      else if bool_decide (r_ID r ∈ e_relink e) then put_or_link
      else if bool_decide (r_State r = StateMissing) then put_or_link
      else if pf_unchanged f then [] else put_or_link
  end.

Definition file_trace (e : plan_env) (f : planFile) (done : bool) : list skel :=
  if full f || keptChanged c f then full_trace e f done
  else match pf_rec f with
       | None => match e_moveFrom e !! pf_rel f with
                 | Some v => [move_skel c f v]
                 | None => if c_dryRun c then [skip_skel c f None] else []
                 end
       | Some r => keep_trace c f r
       end.

Lemma emits_itemOf : emits (gets p_itemOf) (λ t io l, l = [] ∧ ∀ rel, is_Some (io !! rel) ↔ written t rel = true).
Proof.
  intros s a s' Hi [= <- <-]. split; [done|]. exists []. rewrite app_nil_r. split; [done|]. split; [done|].
  intros rel. rewrite (Hi rel). unfold written. rewrite existsb_elem. setoid_rewrite andb_true_iff.
  by setoid_rewrite bool_decide_eq_true.
Qed.

(** One item, and nothing that matters after it. *)
Lemma emits_then {A B} (m : M A) (k : A → M B) l :
  emits m (λ _ _ tl, tl = l) → (∀ a, quiet (k a)) → emits (bind m k) (λ _ _ tl, tl = l).
Proof. intros Hm Hk. eapply emits_bind_silent; [exact Hm|intros; by apply quiet_silent|by simpl]. Qed.

Lemma quiet_after_promote r it : quiet (after_promote r it).
Proof. unfold after_promote. quiet. Qed.

Lemma emits_plan_full e f : emits (plan_full c files e f) (λ t _ l, l = full_trace e f (written t (pf_rel f))).
Proof.
  unfold plan_full, full_trace. set (prim := primary_of files e f).
  destruct (pf_rec f) as [r|].
  - case_bool_decide.
    { eapply emits_bind; [apply emits_itemOf|]. intros io.
      eapply (emits_weaken _ (λ _ _ l, l = match io !! pf_rel f with Some _ => [] | None => [put_skel f r] end)).
      - case_match; [by apply emits_ret|]. apply emits_then; [apply emits_repair|intros; quiet].
      - intros t o l -> t0 l1 -> [-> Hio]. simpl. specialize (Hio (pf_rel f)).
        destruct (written t0 (pf_rel f)), (io !! pf_rel f); try done; exfalso;
          [by destruct (proj2 Hio eq_refl)|by assert (false = true) by (by apply Hio)]. }
    case_bool_decide.
    { case_bool_decide; [apply emits_then; [apply emits_repair|intros; quiet]|apply emits_relink]. }
    case_bool_decide.
    { case_bool_decide; (apply emits_then; [apply emits_repair || apply emits_link|intros; quiet]). }
    case_match; [by apply emits_ret|].
    case_bool_decide.
    + apply emits_then; [apply emits_update|]. intros up. apply quiet_bind; [apply quiet_after_promote|intros; quiet].
    + apply emits_then; [apply emits_link|]. intros it. apply quiet_bind; [apply quiet_after_promote|intros; quiet].
  - destruct (e_moveFrom e !! pf_rel f) as [v|]; [apply emits_then; [apply emits_move|intros; quiet]|].
    case_bool_decide; (apply emits_then; [apply emits_newFile || apply emits_link|intros; quiet]).
Qed.

Lemma emits_plan_file e links f :
  emits (plan_file c files e links f) (λ t _ l, l = file_trace e f (written t (pf_rel f))).
Proof.
  unfold plan_file, file_trace. apply emits_silent_bind; [apply quiet_silent; quiet|intros _].
  destruct (full f || keptChanged c f).
  - apply emits_silent_bind; [apply quiet_silent; quiet|intros _].
    eapply emits_bind_silent; [apply emits_plan_full|intros; apply quiet_silent; quiet|by simpl].
  - destruct (pf_rec f) as [r|]; [apply emits_then; [apply emits_keep|intros; quiet]|].
    destruct (e_moveFrom e !! pf_rel f) as [v|]; [apply emits_then; [apply emits_move|intros; quiet]|].
    apply emits_then; [|intros; quiet].
    apply emits_silent_bind; [apply quiet_silent; quiet|intros _]. apply emits_tierItem.
Qed.

(** The items of a file are about that file. *)
Lemma file_trace_src e f d x : x ∈ file_trace e f d → sk_src x = pf_rel f.
Proof.
  clear Hrels. unfold file_trace, full_trace, keep_trace. intros Hx. repeat case_match; set_solver.
Qed.

Lemma emits_files e :
  emits (for_fold files [] (plan_file c files e))
    (λ t _ tl, tl = concat ((λ f, file_trace e f (written t (pf_rel f))) <$> files)).
Proof.
  apply (emits_for_fold files [] _ (λ done _ t tl, tl = concat ((λ f, file_trace e f (written t (pf_rel f))) <$> done))); [done|].
  intros done f todo links Hfs. eapply emits_weaken; [apply emits_plan_file|].
  simpl. intros t links' l -> t0 l1 -> ->. rewrite fmap_app, concat_app. simpl. rewrite app_nil_r. do 2 f_equal.
  unfold written. rewrite existsb_app.
  match goal with |- (?a || ?b)%bool = ?a => enough (b = false) as -> by apply orb_false_r end.
  apply existsb_false. intros x (g & Hg & Hx)%concat_fmap_elem.
  apply file_trace_src in Hx. rewrite Hx. apply andb_false_iff. right. apply bool_decide_eq_false. intros E.
  rewrite Hfs, fmap_app in Hrels. apply NoDup_app in Hrels as (_ & Hn & _). apply (Hn (pf_rel g)); [set_solver|].
  rewrite E. set_solver.
Qed.
End phases.

(** ** The whole plan *)

Section whole.
Context (c : config).

Lemma quiet_set_after l : quiet (set_after l).
Proof. unfold set_after. quiet. Qed.

Lemma quiet_set_lost lost i : quiet (set_lost lost i).
Proof. apply quiet_edit. intros x. repeat case_match; done. Qed.

(** The traces of the phases before the files, which decide whether a damaged
    link was repaired already. *)
Definition plan_trace (files : list planFile) (mv : moves * gset Z) (ps : list (planFile * Rec)) (e : plan_env) : list skel :=
  (concat (vanished_trace c files mv <$> vanished c files) ++
   concat (changed_trace c files <$> files) ++
   ((λ p, put_skel p.1 p.2) <$> ps) ++
   concat ((λ f, file_trace c files e f (mem (pf_rel f) ((λ p, pf_rel p.1) <$> ps))) <$> files))%list.

Lemma written_app t t' rel : written (t ++ t') rel = written t rel || written t' rel.
Proof. apply existsb_app. Qed.

Lemma written_none t rel : (∀ x, x ∈ t → sk_list x ∈ [LPromotes; LRetains]) → written t rel = false.
Proof.
  intros H. apply existsb_false. intros x Hx. specialize (H x Hx). unfold writes.
  destruct (sk_list x); try done; exfalso; set_solver.
Qed.

Lemma vanished_trace_lists files mv v x : x ∈ vanished_trace c files mv v → sk_list x ∈ [LPromotes; LRetains].
Proof. unfold vanished_trace, vanished_item_trace. intros Hx. repeat case_match; set_solver. Qed.

Lemma changed_trace_lists files f x : x ∈ changed_trace c files f → sk_list x = LPromotes.
Proof. unfold changed_trace. intros Hx. repeat case_match; set_solver. Qed.

Lemma written_puts ps rel : written ((λ p, put_skel p.1 p.2) <$> ps) rel = mem rel ((λ p, pf_rel p.1) <$> ps).
Proof.
  apply eq_true_iff_eq. rewrite mem_spec. unfold written. rewrite existsb_elem. split.
  - intros (x & (p & -> & Hp)%list_elem_of_fmap & Hw). apply andb_true_iff in Hw as [_ Hw%bool_decide_eq_true].
    apply list_elem_of_fmap. by exists p.
  - intros (p & -> & Hp)%list_elem_of_fmap. exists (put_skel p.1 p.2). split; [apply list_elem_of_fmap; by exists p|].
    by apply andb_true_iff; rewrite bool_decide_eq_true.
Qed.

Lemma plan_rest_trace files s u s' :
  NoDup (pf_rel <$> files) → itemOf_ok s → tr s = [] → plan_rest c files s = Ok (u, s') →
  ∃ mv ps e, moves_ok c files mv ∧ (∃ nr0, repairs_ok c files nr0 ∧ damaged_ok c files nr0 (e_needRepair e) ps) ∧ e_moveFrom e = mv.1 ∧
    e_relink e = relink_ids c files ∧ tr s' = plan_trace files mv ps e.
Proof.
  intros Hrels Hi Ht E.
  assert (Hem : emits (plan_rest c files) (λ t _ l, t = [] → ∃ mv ps e,
    moves_ok c files mv ∧ (∃ nr0, repairs_ok c files nr0 ∧ damaged_ok c files nr0 (e_needRepair e) ps) ∧ e_moveFrom e = mv.1 ∧
    e_relink e = relink_ids c files ∧ l = plan_trace files mv ps e)).
  { unfold plan_rest. eapply emits_bind.
    { apply emits_and_returns; [apply quiet_silent, quiet_pairMoves|by apply pairMoves_returns]. }
    intros [mf md]. eapply emits_bind; [exact (emits_and_returns _ _ _ (emits_vanished c files Hrels (mf, md) (vanished c files) (∅, ∅)) (vanished_returns c files mf md))|].
    intros [pt nr0]. eapply emits_bind; [by apply emits_changed|]. intros pt'.
    eapply emits_bind; [by apply emits_damaged|]. intros [lost nr].
    eapply (emits_bind_silent _ _ _ (λ t _ l, l = concat ((λ f, file_trace c files (mkPlanEnv mf pt' nr (relink_ids c files)) f (written t (pf_rel f))) <$> files)));
      [by apply emits_files| |].
    - intros links. apply quiet_silent, quiet_bind; [apply quiet_for_each, quiet_set_after|intros _].
      apply quiet_bind; [quiet|intros h]. apply quiet_for_each, quiet_set_lost.
    - simpl. intros t _ [] l -> t3 l3 -> (ps & -> & Hd) t2 l2 -> -> t1 l1 -> [-> Hnr] t0 l0 -> [-> Hmv] ->.
      exists (mf, md), ps, (mkPlanEnv mf pt' nr (relink_ids c files)). split_and!; [done|by exists nr0|done|done|].
      unfold plan_trace. simpl. do 3 f_equal. f_equal. apply list_fmap_ext. intros i f _. f_equal.
      rewrite !written_app, (written_none (concat (vanished_trace _ _ _ <$> _))), (written_none (concat (changed_trace _ _ <$> _))), written_puts.
      + done.
      + intros x (g & _ & Hx)%concat_fmap_elem. rewrite (changed_trace_lists _ _ _ Hx). set_solver.
      + intros x (g & _ & Hx)%concat_fmap_elem. by eapply vanished_trace_lists. }
  destruct (Hem s u s' Hi E) as (_ & l & Hl & H). rewrite Ht in Hl. simpl in Hl. rewrite Hl. by apply H.
Qed.
End whole.
