(* ===== verification/SyncPlanProps.v ===== *)
(** * SyncPlanProps: the promises of a sync plan

    The properties of [sourcePlanner.plan] (SyncPlan), from the trace of a plan
    (SyncPlanFacts): a vanished record is handled exactly once, only proven renames become moves, every full file that
    needs it gets one writing item, a source in sync gets an empty plan. *)
From stdpp Require Import base gmap list strings.
From S2P Require Import Prelude GoStrings Tiers DestNames SyncPlan SyncPlanFacts.
Open Scope string_scope.
Open Scope Z_scope.

(** What the stores promise the planner: ids and paths are unique, and the
    files come without a record. *)
Record inputs_ok (c : config) (live : list planFile) : Prop := {
  in_rels : NoDup (pf_rel <$> live);
  in_ids : NoDup (r_ID <$> c_recs c);
  in_srcs : NoDup (r_SourceRelPath <$> c_recs c);
  in_pos : Forall (λ r, 0 < r_ID r) (c_recs c);
  in_fresh : Forall (λ f, pf_rec f = None ∧ pf_replaced f = false) live;
}.

Definition inputs_okb (c : config) (live : list planFile) : bool :=
  bool_decide (NoDup (pf_rel <$> live)) && bool_decide (NoDup (r_ID <$> c_recs c))
  && bool_decide (NoDup (r_SourceRelPath <$> c_recs c)) && forallb (λ r, 0 <? r_ID r) (c_recs c)
  && forallb (λ f, negb (has_rec f) && negb (pf_replaced f)) live.

Lemma inputs_okb_ok c live : inputs_okb c live = true → inputs_ok c live.
Proof.
  unfold inputs_okb. rewrite !andb_true_iff, !bool_decide_eq_true, !forallb_elem.
  intros [[[[H1 H2] H3] H4] H5]. split; [done|done|done|..]; apply Forall_forall.
  - intros r Hr. by apply Z.ltb_lt, H4.
  - intros f Hf. specialize (H5 f Hf). unfold has_rec in H5. by destruct (pf_rec f), (pf_replaced f).
Qed.

(** The record has the file's size and mtime and is not known to be missing. *)
Definition same_version (c : config) (f : planFile) (r : Rec) : bool :=
  negb (bool_decide (r_State r = StateMissing)) && (r_Size r =? pf_size f) && mtimeEqual c (r_MtimeNs r) (pf_mtimeNs f).

(** The file at the destination is still the one that was copied: when an *arr added the
    file after its copy was made, the heads and tails of the two agree whenever both can
    be read. *)
Definition not_swapped (c : config) (f : planFile) : Prop :=
  ∀ arrAdded added r copied, c_arrAdded c = Some arrAdded → arrAdded (pf_rel f) = Some added → recBySrc c (pf_rel f) = Some r →
    r_State r = StatePresent → r_CopiedAt r = Some copied → copied < added →
    ∀ n m sh dh, sourceHeadTail (c_reads c) n (pf_rel f) = Ok sh → destHeadTail (c_reads c) m (r_RelPath r) = Ok dh → sh = dh.
Lemma no_arr_not_swapped c f : c_arrAdded c = None → not_swapped c f.
Proof. intros Hn a ad r co Ha. congruence. Qed.

(** A file after it was matched with its record: [unchanged] says that the record
    holds its version, unless the file was replaced in place (a full file whose
    head and tail differ from the backup's). *)
Record matched (c : config) (f f' : planFile) : Prop := {
  ma_id : pf_id f' = pf_id f;
  ma_rel : pf_rel f' = pf_rel f;
  ma_size : pf_size f' = pf_size f;
  ma_mtime : pf_mtimeNs f' = pf_mtimeNs f;
  ma_dec : pf_dec f' = pf_dec f;
  ma_rec : pf_rec f' = recBySrc c (pf_rel f);
  ma_unchanged : pf_unchanged f' = match recBySrc c (pf_rel f) with
                                   | Some r => same_version c f r && negb (pf_replaced f')
                                   | None => pf_unchanged f
                                   end;
  ma_replaced : full f = false ∨ not_swapped c f → pf_replaced f' = pf_replaced f;
}.

Section matching.
Context (c : config).

Lemma replacedInPlace_false f r : recBySrc c (pf_rel f) = Some r → returns (replacedInPlace c f r) (λ b, not_swapped c f → b = false).
Proof.
  intros Hr. unfold replacedInPlace. destruct (c_arrAdded c) as [arr|] eqn:Ea; [|by apply returns_ret]. destruct (r_CopiedAt r) as [copied|] eqn:Ec; [|by apply returns_ret].
  case_bool_decide as Hst; simpl; [|by apply returns_ret]. destruct (arr (pf_rel f)) as [added|] eqn:Ead; [|by apply returns_ret].
  destruct (Z.ltb_spec copied added) as [Hlt|]; simpl; [|by apply returns_ret].
  apply (returns_bind _ _ (λ sh, ∀ h, sh = Ok h → ∃ n, sourceHeadTail (c_reads c) n (pf_rel f) = Ok h)).
  { intros s a s' E. unfold read_source, bind, tick, ret in E. injection E as <- _. eauto. }
  intros [sh|] Hsh; [|by apply returns_ret].
  apply (returns_bind _ _ (λ dh, ∀ h, dh = Ok h → ∃ n, destHeadTail (c_reads c) n (r_RelPath r) = Ok h)).
  { intros s a s' E. unfold read_dest, bind, tick, ret in E. injection E as <- _. eauto. }
  intros [dh|] Hdh; [|by apply returns_ret]. case_bool_decide as Heq; simpl.
  - eapply returns_bind; [apply returns_any|]. intros _ _. by apply returns_ret.
  - apply returns_ret. intros Hn. destruct Heq. destruct (Hsh sh eq_refl) as [n En], (Hdh dh eq_refl) as [m Em]. by eapply (Hn arr added r copied).
Qed.

Lemma match_record_matched f :
  pf_rec f = None → pf_replaced f = false → returns (match_record c f) (matched c f).
Proof.
  intros Hr Hrep. unfold match_record. eapply (returns_bind _ _ (matched c f)).
  2: { intros f' Hm. eapply returns_bind; [apply returns_any|]. intros _ _. by apply returns_ret. }
  destruct (recBySrc c (pf_rel f)) as [r|] eqn:E; [|apply returns_ret; split; rewrite ?E; done].
  case_match eqn:Eu.
  - apply andb_true_iff in Eu as [Eu Ef]. fold (same_version c f r) in Eu.
    assert (Hrp : returns (replacedInPlace c f r) (λ b, not_swapped c f → b = false)) by (by apply replacedInPlace_false).
    eapply returns_bind; [exact Hrp|]. intros [] Hb; apply returns_ret; split; simpl; rewrite ?E, ?Eu, ?Hrep; try done.
    intros [Hx|Hx]; [congruence|by apply Hb].
  - apply returns_ret. split; simpl; rewrite ?E, ?Hrep, ?andb_true_r; done.
Qed.

Lemma match_records_matched live :
  Forall (λ f, pf_rec f = None ∧ pf_replaced f = false) live →
  returns (match_records c live) (λ files, Forall2 (matched c) live files).
Proof.
  induction 1 as [|f live [Hr Hp] _ IH]; simpl; [by apply returns_ret|].
  eapply returns_bind; [by apply match_record_matched|]. intros f' Hf'.
  eapply returns_bind; [exact IH|]. intros fs Hfs. apply returns_ret. by constructor.
Qed.

(** The files a plan works on. *)
Definition planned (live files : list planFile) : Prop :=
  ∃ fs, Forall2 (matched c) live fs ∧ files = drop_singles fs.

Lemma drop_singles_elem fs f' : f' ∈ drop_singles fs → ∃ f, f ∈ fs ∧ (f' = f ∨ f' = with_group "" f).
Proof. unfold drop_singles. intros (f & -> & Hf)%list_elem_of_fmap. exists f. case_match; auto. Qed.

Lemma drop_singles_rels fs : pf_rel <$> drop_singles fs = pf_rel <$> fs.
Proof. unfold drop_singles. rewrite <-list_fmap_compose. apply list_fmap_ext. intros i f _. simpl. by case_match. Qed.

Lemma planned_rels live files : planned live files → pf_rel <$> files = pf_rel <$> live.
Proof.
  intros (fs & Hm & ->). rewrite drop_singles_rels. induction Hm as [|f f' live fs Hf Hm IH]; [done|].
  rewrite !fmap_cons, IH. f_equal. apply Hf.
Qed.

Lemma matched_with_group f f' : matched c f f' → matched c f (with_group "" f').
Proof. intros []. by split. Qed.

Lemma planned_elem live files f' : planned live files → f' ∈ files → ∃ f, f ∈ live ∧ matched c f f'.
Proof.
  intros (fs & Hm & ->) (g & Hg & Hf')%drop_singles_elem.
  apply list_elem_of_lookup in Hg as [i Hi]. destruct (Forall2_lookup_r _ _ _ _ _ Hm Hi) as (f & Hf & Hfg).
  exists f. split; [by eapply list_elem_of_lookup_2|]. destruct Hf' as [->| ->]; [done|by apply matched_with_group].
Qed.

Lemma planned_live live files f : planned live files → f ∈ live → ∃ f', f' ∈ files ∧ matched c f f'.
Proof.
  intros (fs & Hm & ->) Hf. apply list_elem_of_lookup in Hf as [i Hi].
  destruct (Forall2_lookup_l _ _ _ _ _ Hm Hi) as (g & Hg & Hfg). apply list_elem_of_lookup_2 in Hg.
  eexists. split; [unfold drop_singles; apply list_elem_of_fmap; by exists g|].
  case_match; [by apply matched_with_group|done].
Qed.

(** ** Records *)

Lemma recBySrc_spec rel r :
  NoDup (r_SourceRelPath <$> c_recs c) → recBySrc c rel = Some r ↔ r ∈ c_recs c ∧ r_SourceRelPath r = rel.
Proof.
  unfold recBySrc. revert r. induction (c_recs c) as [|x l IH] using rev_ind; intros r Hnd; [set_solver|].
  rewrite fmap_app in Hnd. apply NoDup_app in Hnd as (Hnd & Hx & _). rewrite foldl_snoc.
  case_bool_decide as E.
  - split; [intros [= <-]; set_solver|]. intros [[Hr| ->%list_elem_of_singleton]%elem_of_app Er]; [|done].
    destruct (Hx (r_SourceRelPath r)); [set_solver|]. rewrite Er, <-E. set_solver.
  - rewrite IH by done. split; [set_solver|]. intros [[Hr| ->%list_elem_of_singleton]%elem_of_app Er]; done.
Qed.

Lemma recs_inj r r' : NoDup (r_ID <$> c_recs c) → r ∈ c_recs c → r' ∈ c_recs c → r_ID r = r_ID r' → r = r'.
Proof.
  intros Hnd. induction (c_recs c) as [|x l IH]; [set_solver|].
  inversion Hnd as [|? ? Hx Hl]; subst. intros Hr Hr' E. apply elem_of_cons in Hr as [->|Hr], Hr' as [->|Hr']; auto.
  - destruct Hx. rewrite E. set_solver.
  - destruct Hx. rewrite <-E. set_solver.
Qed.

(** The vanished records are those with no file at their source path. *)
Lemma vanished_spec live files v :
  inputs_ok c live → planned live files →
  v ∈ vanished c files ↔ v ∈ c_recs c ∧ ∀ f, f ∈ live → pf_rel f ≠ r_SourceRelPath v.
Proof.
  intros [_ Hids Hsrcs _ _] Hp. unfold vanished. rewrite filter_bool_elem, negb_true_iff, existsb_false.
  split; intros [Hv H]; (split; [done|]).
  - intros f Hf E. destruct (planned_live _ _ _ Hp Hf) as (f' & Hf' & Hm). specialize (H f' Hf').
    rewrite (ma_rec _ _ _ Hm), (proj2 (recBySrc_spec _ v Hsrcs)) in H by done. apply Z.eqb_neq in H. done.
  - intros f' Hf'. destruct (planned_elem _ _ _ Hp Hf') as (f & Hf & Hm). rewrite (ma_rec _ _ _ Hm).
    destruct (recBySrc c (pf_rel f)) as [r|] eqn:E; [|done]. apply recBySrc_spec in E as [Hr E]; [|done].
    apply Z.eqb_neq. intros Eid. apply (recs_inj r v) in Eid as ->; [|done..]. by eapply H.
Qed.

(** A plan, as its trace. *)
Record plan_result (live : list planFile) (s : planner) (files : list planFile) (mv : moves * gset Z)
    (ps : list (planFile * Rec)) (e : plan_env) : Prop := {
  pr_planned : planned live files;
  pr_rels : NoDup (pf_rel <$> files);
  pr_moves : moves_ok c files mv;
  pr_damaged : ∃ nr0, repairs_ok c files nr0 ∧ damaged_ok c files nr0 (e_needRepair e) ps;
  pr_from : e_moveFrom e = mv.1;
  pr_relink : e_relink e = relink_ids c files;
  pr_trace : tr s = plan_trace c files mv ps e;
}.

Lemma plan_has_trace live names u s :
  inputs_ok c live → plan c live (start names) = Ok (u, s) → ∃ files mv ps e, plan_result live s files mv ps e.
Proof.
  intros Hok E. unfold plan, bind in E. destruct (match_records c live (start names)) as [[fs s1]|] eqn:E1; [|done].
  destruct (quiet_match_records c live _ _ _ E1) as [Ht Ho]. simpl in Ht, Ho.
  pose proof (match_records_matched live (in_fresh _ _ Hok) _ _ _ E1) as Hm.
  assert (Hp : planned live (drop_singles fs)) by (by exists fs).
  assert (Hr : NoDup (pf_rel <$> drop_singles fs)) by (rewrite (planned_rels _ _ Hp); apply Hok).
  destruct (plan_rest_trace c (drop_singles fs) s1 u s Hr) as (mv & ps & e & ? & ? & ? & ? & ?); [|done|done|].
  { intros rel. rewrite Ho, Ht. split; [intros [? H]; by simpl in H|]. intros (x & Hx & _). set_solver. }
  exists (drop_singles fs), mv, ps, e. by split.
Qed.

(** ** Whose record an item is about *)

Context (live files : list planFile) (Hok : inputs_ok c live) (Hp : planned live files).

Lemma files_inj f g : f ∈ files → g ∈ files → pf_rel f = pf_rel g → f = g.
Proof.
  assert (Hnd : NoDup (pf_rel <$> files)) by (rewrite (planned_rels _ _ Hp); apply Hok).
  revert Hnd. clear. induction files as [|x l IH]; intros Hnd; [set_solver|].
  inversion Hnd as [|? ? Hx Hl]; subst. intros Hf Hg E. apply elem_of_cons in Hf as [->|Hf], Hg as [->|Hg]; auto.
  - destruct Hx. rewrite E. set_solver.
  - destruct Hx. rewrite <-E. set_solver.
Qed.

Lemma file_rec f r : f ∈ files → pf_rec f = Some r → r ∈ c_recs c ∧ r_SourceRelPath r = pf_rel f.
Proof.
  intros Hf Hr. destruct (planned_elem _ _ _ Hp Hf) as (g & Hg & Hm). rewrite (ma_rec _ _ _ Hm) in Hr.
  rewrite (ma_rel _ _ _ Hm). by apply recBySrc_spec; [apply Hok|].
Qed.

Lemma file_rec_inj f g r r' :
  f ∈ files → g ∈ files → pf_rec f = Some r → pf_rec g = Some r' → r_ID r = r_ID r' → f = g ∧ r = r'.
Proof.
  intros Hf Hg Hr Hr' E. destruct (file_rec f r Hf Hr) as [H1 H2], (file_rec g r' Hg Hr') as [H3 H4].
  assert (r = r') as -> by (eapply recs_inj; eauto; apply Hok). split; [|done]. apply files_inj; congruence.
Qed.

Lemma vanished_not_file v f r : v ∈ vanished c files → f ∈ files → pf_rec f = Some r → r_ID v ≠ r_ID r.
Proof.
  unfold vanished. rewrite filter_bool_elem, negb_true_iff, existsb_false. intros [_ H] Hf Hr E.
  specialize (H f Hf). rewrite Hr in H. apply Z.eqb_neq in H. done.
Qed.

Lemma vanished_rec v : v ∈ vanished c files → v ∈ c_recs c.
Proof. unfold vanished. by intros [? _]%filter_bool_elem. Qed.

Lemma byRel_file rel f : byRel files rel = Some f → f ∈ files ∧ pf_rel f = rel.
Proof.
  unfold byRel. clear. induction files as [|x l IH] using rev_ind; [done|].
  rewrite foldl_snoc. case_bool_decide as E; [intros [= <-]; set_solver|]. intros H. destruct (IH H). set_solver.
Qed.

(** A surviving dependent: its file is there, with it as an up-to-date record. *)
Lemma surviving_file v d :
  d ∈ surviving c files v →
  d ∈ c_recs c ∧ r_LinkOf d = r_ID v ∧ (r_State d = StateLinked ∨ r_State d = StateLinkRecorded) ∧
  ∃ f r, f ∈ files ∧ byRel files (r_SourceRelPath d) = Some f ∧ pf_rec f = Some r ∧ r_ID r = r_ID d ∧ pf_unchanged f = true.
Proof.
  unfold surviving, deps. rewrite !filter_bool_elem. intros [[Hd Hl] Hs].
  apply andb_true_iff in Hl as [_ Hl%Z.eqb_eq]. apply andb_true_iff in Hs as [Hst Hs].
  rewrite orb_true_iff, !bool_decide_eq_true in Hst. unfold still_there in Hs.
  destruct (byRel files (r_SourceRelPath d)) as [f|] eqn:E; [|done]. destruct (pf_rec f) as [r|] eqn:Er; [|done].
  apply andb_true_iff in Hs as [Hid%Z.eqb_eq Hu]. destruct (byRel_file _ _ E) as [Hf _].
  split_and!; [done|done|done|]. by exists f, r.
Qed.

Lemma pickTarget_elem d0 rest : pickTarget d0 rest ∈ d0 :: rest.
Proof.
  unfold pickTarget. destruct (List.find _ _) as [t|] eqn:E; simpl; [|by left].
  apply List.find_some in E as [E _]. by apply list_elem_of_In.
Qed.

(** The record an item of a file's own step is about. *)
Lemma file_trace_rec mv e g d x :
  moves_ok c files mv → e_moveFrom e = mv.1 → x ∈ file_trace c files e g d →
  sk_rec x = 0 ∨ (∃ v, v ∈ vanished c files ∧ sk_rec x = r_ID v ∧ sk_list x = LMoves ∧ mv.1 !! pf_rel g = Some v) ∨
  (∃ r, pf_rec g = Some r ∧ sk_rec x = r_ID r).
Proof.
  intros Hmv Hfrom Hx. rewrite <-Hfrom. unfold file_trace, full_trace, keep_trace in Hx.
  repeat case_match; try set_solver; apply list_elem_of_singleton in Hx as ->; simpl; right; left;
    match goal with H : e_moveFrom e !! _ = Some ?v |- _ =>
      exists v; split_and!; try done; rewrite Hfrom in H; destruct (mo_paired _ _ _ Hmv _ _ H) as (? & _ & Hpd); apply Hpd end.
Qed.

Lemma damaged_link_file nr0 nr ps p :
  damaged_ok c files nr0 nr ps → p ∈ ps →
  p.1 ∈ files ∧ full p.1 = true ∧ pf_unchanged p.1 = true ∧ pf_rel p.1 = r_SourceRelPath p.2 ∧ pf_rec p.1 = Some p.2.
Proof.
  intros [Hl _ _ _] Hin. rewrite Forall_forall in Hl. destruct (Hl p Hin) as [Hb Hf (f & r & _ & _ & _ & Hs)].
  destruct (surviving_file r p.2 Hs) as (Hd & _ & _ & f' & r' & Hf' & Hb' & Hr' & Hid & Hu).
  rewrite Hb in Hb'. injection Hb' as <-. destruct (byRel_file _ _ Hb) as [_ Hrel].
  split_and!; [done|done|done|done|]. destruct (file_rec p.1 r' Hf' Hr') as [Hin' _].
  rewrite Hr'. f_equal. eapply recs_inj; eauto. apply Hok.
Qed.

Lemma trace_about_file s mv ps e f r x :
  plan_result live s files mv ps e → f ∈ files → pf_rec f = Some r → x ∈ tr s → sk_rec x = r_ID r →
  x ∈ changed_trace c files f ∨ (full f = true ∧ pf_unchanged f = true ∧ x = put_skel f r) ∨
  x ∈ file_trace c files e f (mem (pf_rel f) ((λ p, pf_rel p.1) <$> ps)).
Proof.
  intros [_ _ Hmv (nr0 & _ & Hd) Hfrom _ Ht] Hf Hr Hx Hid. rewrite Ht in Hx.
  assert (Hpos : 0 < r_ID r).
  { destruct (file_rec f r Hf Hr) as [Hin _]. pose proof (in_pos _ _ Hok) as H. rewrite Forall_forall in H. by apply H. }
  unfold plan_trace in Hx. rewrite !elem_of_app, !concat_fmap_elem in Hx. destruct Hx as [Hx|[Hx|[Hx|Hx]]].
  - destruct Hx as (v & Hv & Hx). exfalso. eapply (vanished_not_file v f r); eauto. rewrite <-Hid.
    unfold vanished_trace, vanished_item_trace in Hx. repeat case_match; set_solver.
  - destruct Hx as (g & Hg & Hx). left. unfold changed_trace in Hx. destruct (pf_rec g) as [r'|] eqn:Hr'; [|set_solver].
    assert (E : r_ID r' = r_ID r) by (repeat case_match; set_solver).
    destruct (file_rec_inj g f r' r Hg Hf Hr' Hr E) as [-> ->]. unfold changed_trace. by rewrite Hr.
  - apply list_elem_of_fmap in Hx as (p & -> & Hin). right. left.
    destruct (damaged_link_file _ _ _ _ Hd Hin) as (Hpf & Hful & Hun & _ & Hpr). simpl in Hid.
    destruct (file_rec_inj p.1 f p.2 r Hpf Hf Hpr Hr Hid) as [<- <-]. done.
  - destruct Hx as (g & Hg & Hx). destruct (file_trace_rec _ _ _ _ _ Hmv Hfrom Hx) as [H0|[(v & Hv & Hvid & _)|(r' & Hr' & Hrid)]].
    + lia.
    + exfalso. eapply (vanished_not_file v f r); eauto. congruence.
    + destruct (file_rec_inj g f r' r Hg Hf Hr' Hr) as [-> ->]; [congruence|]. by right; right.
Qed.
End matching.

(** ** Theorems *)

Lemma in_heap s it : it ∈ p_heap s → skel_of it ∈ tr s.
Proof. intros H. apply list_elem_of_fmap. by exists it. Qed.

(** ** Vanished records *)

(** An item that takes care of a vanished record: it moves it to its new name,
    retires it, or gives its content to another name in its place. *)
Definition handles (id : Z) (it : planItem) : bool :=
  (dt_RecordID (it_d it) =? id) &&
  (mem (it_list it) [LMoves; LRetains] || (bool_decide (it_list it = LPromotes) && it_change it)).

Definition sk_handles (id : Z) (x : skel) : bool :=
  (sk_rec x =? id) && (mem (sk_list x) [LMoves; LRetains] || sk_stands x).

Lemma count_handles id s : count (handles id) (p_heap s) = count (sk_handles id) (tr s).
Proof. unfold tr. by rewrite count_fmap. Qed.

Lemma count_vanished_item c files v :
  r_ID v ≠ 0 → count (sk_handles (r_ID v)) (vanished_item_trace c files v) = 1%nat.
Proof.
  intros _. unfold vanished_item_trace.
  assert (Hr : count (sk_handles (r_ID v)) [retain_skel v] = 1%nat) by (unfold count, sk_handles; simpl; by rewrite Z.eqb_refl).
  assert (Hp : ∀ t, count (sk_handles (r_ID v)) [promote_skel v t true] = 1%nat) by (intros; unfold count, sk_handles; simpl; by rewrite Z.eqb_refl).
  assert (Hq : ∀ t, count (sk_handles (r_ID v)) [promote_skel v t false; retain_skel v] = 1%nat).
  { intros. unfold count, sk_handles; simpl. rewrite Z.eqb_refl. done. }
  repeat case_match; done.
Qed.

Lemma vanished_trace_rec c files mv v x : x ∈ vanished_trace c files mv v → sk_rec x = r_ID v.
Proof. unfold vanished_trace, vanished_item_trace. intros Hx. repeat case_match; set_solver. Qed.

Lemma vanished_nodup c live files : inputs_ok c live → NoDup (r_ID <$> vanished c files).
Proof.
  intros Hok. pose proof (in_ids _ _ Hok) as H. unfold vanished. revert H.
  generalize (λ r, negb (existsb (λ f, match pf_rec f with Some x => r_ID x =? r_ID r | None => false end) files)) as p.
  intros p. induction (c_recs c) as [|r l IH]; [done|]. rewrite fmap_cons. inversion 1 as [|? ? Hr Hl]; subst. simpl.
  case_match; [|by apply IH]. rewrite fmap_cons. constructor; [|by apply IH].
  contradict Hr. apply list_elem_of_fmap in Hr as (r' & -> & [Hr' _]%filter_bool_elem). set_solver.
Qed.

(** Only the file of a move gets it, and only one. *)
Lemma count_file_trace c live files mv e f d id :
  inputs_ok c live → planned c live files → moves_ok c files mv → e_moveFrom e = mv.1 → f ∈ files →
  count (sk_handles id) (file_trace c files e f d) =
    match mv.1 !! pf_rel f with Some v => if r_ID v =? id then 1%nat else 0%nat | None => 0%nat end.
Proof.
  intros Hok Hp Hmv Hfrom Hf. rewrite <-Hfrom.
  destruct (e_moveFrom e !! pf_rel f) as [v|] eqn:Ev.
  - rewrite Hfrom in Ev. destruct (mo_paired _ _ _ Hmv _ _ Ev) as (g & Hg & [Hgf Hn _ _ _ _ _]).
    assert (g = f) as -> by (eapply files_inj; eauto). rewrite <-Hfrom in Ev.
    unfold file_trace, full_trace. rewrite Hn, Ev. destruct (full f || _); unfold count, sk_handles; simpl;
      destruct (r_ID v =? id); done.
  - apply count_zero. intros x Hx. unfold sk_handles.
    enough (Hl : mem (sk_list x) [LMoves; LRetains] = false ∧ sk_stands x = false) by (destruct Hl as [-> ->]; apply andb_false_r).
    unfold file_trace, full_trace, keep_trace in Hx. rewrite Ev in Hx.
    repeat case_match; try (by apply elem_of_nil in Hx);
      repeat first [apply list_elem_of_singleton in Hx as -> | apply elem_of_app in Hx as [Hx|Hx]];
      try (by apply elem_of_nil in Hx); done.
Qed.

(** The moves of a plan are the pairings. *)
Lemma trace_moves c files mv ps e x :
  moves_ok c files mv → e_moveFrom e = mv.1 → x ∈ plan_trace c files mv ps e → sk_list x = LMoves →
  ∃ f v, f ∈ files ∧ mv.1 !! pf_rel f = Some v ∧ sk_src x = pf_rel f ∧ sk_rec x = r_ID v ∧ sk_rel x = destPath c (pf_rel f).
Proof.
  intros Hmv Hfrom Hx Hl. unfold plan_trace in Hx. rewrite !elem_of_app, !concat_fmap_elem in Hx.
  destruct Hx as [(w & _ & Hx%vanished_trace_lists)|[(w & _ & Hx%changed_trace_lists)|[Hx|(f & Hf & Hx)]]].
  - rewrite Hl in Hx. set_solver.
  - congruence.
  - by apply list_elem_of_fmap in Hx as (p & -> & _).
  - exists f. rewrite <-Hfrom. unfold file_trace, full_trace, keep_trace in Hx.
    repeat case_match; try (by apply elem_of_nil in Hx);
      repeat first [apply list_elem_of_singleton in Hx as -> | apply elem_of_app in Hx as [Hx|Hx]];
      try (by apply elem_of_nil in Hx); try done; by eexists.
Qed.

(** C22. No vanished record is lost or retired twice: for a live record whose
    source path has no file any more, exactly one item moves it to its new name,
    retires it, or promotes another name in its place. Only a targeted sync may
    leave it alone, and then every full file of its folder has an up-to-date
    record and no move goes there (D14: the folder gets no new content). *)
Theorem vanished_handled_once (c : config) (live : list planFile) (names : nameIndex) (s : planner) (v : Rec)
    (Hok : inputs_ok c live) (Hplan : plan c live (start names) = Ok (tt, s))
    (Hv : v ∈ c_recs c) (Hgone : ∀ f, f ∈ live → pf_rel f ≠ r_SourceRelPath v) :
  count (handles (r_ID v)) (p_heap s) = 1%nat ∨
  (count (handles (r_ID v)) (p_heap s) = 0%nat ∧ c_targeted c = true ∧
   (∀ f, f ∈ live → path_dir (pf_rel f) = path_dir (r_SourceRelPath v) → full f = true →
      ∃ r, recBySrc c (pf_rel f) = Some r ∧ same_version c f r = true) ∧
   (∀ it, it ∈ p_heap s → it_list it = LMoves → path_dir (dt_Source (it_d it)) ≠ path_dir (r_SourceRelPath v))).
Proof.
  destruct (plan_has_trace _ _ _ _ _ Hok Hplan) as (files & mv & ps & e & Hres).
  destruct Hres as [Hp Hrels Hmv Hd Hfrom Hrel Htr]. rewrite count_handles, Htr. unfold plan_trace.
  assert (Hvan : v ∈ vanished c files) by (by apply (vanished_spec c live files v Hok Hp)).
  assert (Hid0 : r_ID v ≠ 0) by (pose proof (in_pos _ _ Hok) as H; rewrite Forall_forall in H; specialize (H v Hv); lia).
  rewrite !count_app, (count_concat_one _ _ r_ID _ v), (count_concat_zero _ (changed_trace c files)).
  2: { intros f Hf. apply count_zero. intros x Hx. unfold sk_handles, changed_trace in *.
       repeat case_match; try (by apply elem_of_nil in Hx). apply list_elem_of_singleton in Hx as ->. apply andb_false_r. }
  2: { by eapply vanished_nodup. }
  2: { done. }
  2: { intros w _ Hne. apply count_zero. intros x Hx. unfold sk_handles. rewrite (vanished_trace_rec _ _ _ _ _ Hx).
       by rewrite (proj2 (Z.eqb_neq _ _)). }
  rewrite (proj2 (count_zero _ ((λ p : planFile * Rec, put_skel p.1 p.2) <$> ps))).
  2: { intros x (p & -> & _)%list_elem_of_fmap. apply andb_false_r. }
  set (g := λ f, file_trace c files e f _).
  assert (Hg : ∀ f, f ∈ files → count (sk_handles (r_ID v)) (g f) =
    match mv.1 !! pf_rel f with Some w => if r_ID w =? r_ID v then 1%nat else 0%nat | None => 0%nat end)
    by (intros; by eapply count_file_trace).
  destruct (decide (r_ID v ∈ mv.2)) as [Hmoved|Hnot].
  - left. apply (mo_moved _ _ _ Hmv) in Hmoved as (rel & w & Hw & Hwid).
    destruct (mo_paired _ _ _ Hmv _ _ Hw) as (f & <- & Hpf).
    rewrite (count_concat_one _ g pf_rel files f Hrels (paired_file _ _ _ _ Hpf)).
    + rewrite Hg by apply Hpf. rewrite Hw, Hwid, Z.eqb_refl. unfold vanished_trace. rewrite bool_decide_true; [done|].
      apply (mo_moved _ _ _ Hmv). eauto.
    + intros f' Hf' Hne. rewrite Hg by done. destruct (mv.1 !! pf_rel f') as [w'|] eqn:Ew'; [|done].
      destruct (Z.eqb_spec (r_ID w') (r_ID v)) as [E|]; [|done]. destruct Hne. eapply (mo_inj _ _ _ Hmv); eauto. congruence.
  - assert (Hfiles : count (sk_handles (r_ID v)) (concat (g <$> files)) = 0%nat).
    { apply count_concat_zero. intros f Hf. rewrite Hg by done. destruct (mv.1 !! pf_rel f) as [w|] eqn:Ew; [|done].
      destruct (Z.eqb_spec (r_ID w) (r_ID v)) as [E|]; [|done]. destruct Hnot. apply (mo_moved _ _ _ Hmv). eauto. }
    rewrite Hfiles. unfold vanished_trace. rewrite bool_decide_false by done. simpl.
    destruct (deferred c files mv.1 v) eqn:Hdef; [right|left; by rewrite count_vanished_item].
    unfold deferred in Hdef. apply andb_true_iff in Hdef as [Htg Hfr%negb_true_iff].
    assert (Hfresh : path_dir (r_SourceRelPath v) ∉ fresh_dirs files mv.1) by (intros Hin%mem_spec; congruence).
    split_and!; [done|done|..].
    + intros f Hf Hdir Hful. destruct (planned_live _ _ _ _ Hp Hf) as (f' & Hf' & Hm).
      destruct (recBySrc c (pf_rel f)) as [r|] eqn:Er.
      * exists r. split; [done|]. destruct (same_version c f r) eqn:Esv; [done|]. exfalso. apply Hfresh. unfold fresh_dirs.
        apply list_elem_of_fmap. exists f'. rewrite (ma_rel _ _ _ Hm). split; [done|]. apply filter_bool_elem. split; [done|].
        case_match; [done|]. unfold full, has_rec. rewrite (ma_dec _ _ _ Hm), (ma_rec _ _ _ Hm), (ma_unchanged _ _ _ Hm), Er, Esv.
        unfold full in Hful. by rewrite Hful.
      * exfalso. apply Hfresh. unfold fresh_dirs. apply list_elem_of_fmap. exists f'. rewrite (ma_rel _ _ _ Hm).
        split; [done|]. apply filter_bool_elem. split; [done|]. case_match; [done|].
        unfold full, has_rec. rewrite (ma_dec _ _ _ Hm), (ma_rec _ _ _ Hm), Er. unfold full in Hful. by rewrite Hful.
    + intros it Hit Hl Hdir. apply in_heap in Hit. rewrite Htr in Hit.
      destruct (trace_moves c files mv ps e (skel_of it) Hmv Hfrom Hit Hl) as (f & w & Hf & Hw & Hsrc & _).
      apply Hfresh. unfold fresh_dirs. apply list_elem_of_fmap. exists f. simpl in Hsrc. rewrite <-Hsrc. split; [done|].
      apply filter_bool_elem. by rewrite Hw.
Qed.

(** ** Renames *)

(** C23. A move is a proven rename: its file has no record; the record it moves is
    live, holds content and has no file at its source path any more; sizes and
    modification times are equal, and the head/tail hashes the planner read of
    the source file and of the backup are equal. *)
Theorem moves_are_renames (c : config) (live : list planFile) (names : nameIndex) (s : planner)
    (Hok : inputs_ok c live) (Hplan : plan c live (start names) = Ok (tt, s))
    (it : planItem) (Hit : it ∈ p_heap s) (Hmove : it_list it = LMoves) :
  ∃ f v, f ∈ live ∧ recBySrc c (pf_rel f) = None ∧
    v ∈ c_recs c ∧ (∀ g, g ∈ live → pf_rel g ≠ r_SourceRelPath v) ∧ (r_State v = StatePresent ∨ r_State v = StateLinked) ∧
    r_Size v = pf_size f ∧ r_MtimeNs v = pf_mtimeNs f ∧
    (∃ n m h, sourceHeadTail (c_reads c) n (pf_rel f) = Ok h ∧ destHeadTail (c_reads c) m (r_RelPath v) = Ok h) ∧
    dt_Source (it_d it) = pf_rel f ∧ dt_RecordID (it_d it) = r_ID v ∧ it_rel it = destPath c (pf_rel f).
Proof.
  destruct (plan_has_trace _ _ _ _ _ Hok Hplan) as (files & mv & ps & e & [Hp Hrels Hmv Hd Hfrom Hrel Htr]).
  apply in_heap in Hit. rewrite Htr in Hit.
  destruct (trace_moves c files mv ps e (skel_of it) Hmv Hfrom Hit Hmove) as (f' & v & Hf' & Hv & Hsrc & Hrec & Hdst).
  destruct (mo_paired _ _ _ Hmv _ _ Hv) as (g & Hg & [Hgf Hn Hvan Hst Hsz Hmt Hh]).
  assert (g = f') as -> by (by eapply (files_inj c live)).
  destruct (planned_elem _ _ _ _ Hp Hf') as (f & Hf & Hm). apply (vanished_spec c live files v Hok Hp) in Hvan as [Hvr Hgone].
  exists f, v. rewrite <-(ma_rec _ _ _ Hm), <-(ma_rel _ _ _ Hm), <-(ma_size _ _ _ Hm), <-(ma_mtime _ _ _ Hm).
  simpl in *. split_and!; done.
Qed.

(** ** What is written *)

(** An item that gives a file its content at the destination. *)
Definition writes_for (rel : string) (it : planItem) : bool :=
  mem (it_list it) [LMoves; LPuts; LLinks] && bool_decide (dt_Source (it_d it) = rel).
Definition sk_writes_for (rel : string) (x : skel) : bool :=
  mem (sk_list x) [LMoves; LPuts; LLinks] && bool_decide (sk_src x = rel).

Lemma count_writes rel s : count (writes_for rel) (p_heap s) = count (sk_writes_for rel) (tr s).
Proof. unfold tr. by rewrite count_fmap. Qed.

Lemma count_one {A} (p : A → bool) x : p x = true → count p [x] = 1%nat.
Proof. intros H. unfold count. simpl. by rewrite H. Qed.
Lemma count_none {A} (p : A → bool) x : p x = false → count p [x] = 0%nat.
Proof. intros H. unfold count. simpl. by rewrite H. Qed.

Lemma writes_own rel l id r b : mem l [LMoves; LPuts; LLinks] = true → sk_writes_for rel (mkSkel l id rel r b) = true.
Proof. intros H. unfold sk_writes_for. simpl. rewrite H. by apply bool_decide_eq_true. Qed.

(** How many writing items a full file's own step emits. *)
Lemma count_full_trace c files e f d :
  count (sk_writes_for (pf_rel f)) (full_trace c files e f d) =
    match pf_rec f with
    | None => 1%nat
    | Some r =>
        if bool_decide (r_ID r ∈ e_needRepair e) then (if d then 0%nat else 1%nat)
        else if bool_decide (r_ID r ∈ e_relink e) then 1%nat
        else if bool_decide (r_State r = StateMissing) then 1%nat
        else if pf_unchanged f then 0%nat else 1%nat
    end.
Proof.
  unfold full_trace.
  assert (Hp : ∀ r, count (sk_writes_for (pf_rel f)) [put_skel f r] = 1%nat) by (intros; by apply count_one, writes_own).
  assert (Hl : ∀ r, count (sk_writes_for (pf_rel f)) [link_skel c f r] = 1%nat) by (intros; by apply count_one, writes_own).
  assert (Hn : count (sk_writes_for (pf_rel f)) [new_skel c f] = 1%nat) by (by apply count_one, writes_own).
  assert (Hm : ∀ v, count (sk_writes_for (pf_rel f)) [move_skel c f v] = 1%nat) by (intros; by apply count_one, writes_own).
  repeat case_match; done.
Qed.

Lemma count_keep_trace c f r : count (sk_writes_for (pf_rel f)) (keep_trace c f r) = 0%nat.
Proof.
  unfold keep_trace. case_bool_decide; [done|]. rewrite count_app.
  repeat case_match; rewrite ?count_none by done; done.
Qed.

Lemma count_file_writes c files e f d :
  (count (sk_writes_for (pf_rel f)) (file_trace c files e f d) ≤ 1)%nat.
Proof.
  unfold file_trace. case_match.
  - rewrite count_full_trace. repeat case_match; lia.
  - destruct (pf_rec f) as [r|]; [by rewrite count_keep_trace; lia|].
    repeat case_match; [by rewrite count_one by (by apply writes_own); lia|by rewrite count_none by done; lia|unfold count; simpl; lia].
Qed.

(** The writing items of a plan for a file: the early repair of a damaged link,
    or those of the file's own step. *)
Lemma count_plan_writes c live s files mv ps e f :
  inputs_ok c live → plan_result c live s files mv ps e → f ∈ files →
  count (sk_writes_for (pf_rel f)) (tr s) =
    if mem (pf_rel f) ((λ p, pf_rel p.1) <$> ps) then 1%nat
    else count (sk_writes_for (pf_rel f)) (file_trace c files e f false).
Proof.
  intros Hok [Hp Hrels Hmv (nr0 & _ & Hd) Hfrom Hrel Htr] Hf. rewrite Htr. unfold plan_trace.
  rewrite !count_app, (count_concat_zero _ (vanished_trace c files mv)), (count_concat_zero _ (changed_trace c files)).
  2: { intros g _. apply count_zero. intros x Hx%changed_trace_lists. unfold sk_writes_for. by rewrite Hx. }
  2: { intros g _. apply count_zero. intros x Hx%vanished_trace_lists. unfold sk_writes_for.
       apply elem_of_cons in Hx as [->|Hx]; [done|]. by apply list_elem_of_singleton in Hx as ->. }
  rewrite (count_concat_one _ _ pf_rel files f Hrels Hf).
  2: { intros g _ Hne. apply count_zero. intros x Hx%file_trace_src. unfold sk_writes_for. rewrite Hx.
       rewrite bool_decide_false by done. apply andb_false_r. }
  destruct (mem (pf_rel f) _) eqn:Em.
  - apply mem_spec, list_elem_of_fmap in Em as (p & Erel & Hin).
    assert (Hps : ∀ q, q ∈ ps → q.1 ∈ files ∧ full q.1 = true ∧ pf_unchanged q.1 = true ∧ pf_rel q.1 = r_SourceRelPath q.2 ∧ pf_rec q.1 = Some q.2)
      by (intros q Hq; exact (damaged_link_file c live files Hok Hp nr0 _ ps q Hd Hq)).
    destruct (Hps p Hin) as (Hpf & Hful & Hun & _ & Hpr). assert (p.1 = f) as <- by (by eapply (files_inj c live)).
    assert (H1 : count (sk_writes_for (pf_rel p.1)) ((λ q, put_skel q.1 q.2) <$> ps) = 1%nat).
    { replace ((λ q, put_skel q.1 q.2) <$> ps) with (concat ((λ q, [put_skel q.1 q.2]) <$> ps))
        by (clear; induction ps as [|q ps IH]; [done|]; rewrite !fmap_cons; cbn [concat app]; by f_equal).
      rewrite (count_concat_one _ _ (λ q, r_ID q.2) ps p (dk_once _ _ _ _ _ Hd) Hin); [by apply count_one, writes_own|].
      intros q Hq Hne. apply count_none. unfold sk_writes_for. simpl. apply bool_decide_eq_false. intros Eq. apply Hne.
      destruct (Hps q Hq) as (Hqf & _ & _ & _ & Hqr). assert (q.1 = p.1) as Ef by (by eapply (files_inj c live)). congruence. }
    rewrite H1. unfold file_trace. rewrite Hful. simpl. rewrite count_full_trace, Hpr.
    rewrite bool_decide_true; [done|]. apply (dk_ids _ _ _ _ _ Hd). right. apply list_elem_of_fmap. by exists p.
  - rewrite (proj2 (count_zero _ ((λ p, put_skel p.1 p.2) <$> ps))); [done|].
    intros x (p & -> & Hin)%list_elem_of_fmap. unfold sk_writes_for. simpl. apply bool_decide_eq_false. intros E.
    apply not_true_iff_false in Em. apply Em, mem_spec, list_elem_of_fmap. by exists p.
Qed.

(** A name whose content is to be restored is an unchanged dependent of a primary
    that is missing at the destination. *)
Lemma needs_repair c live s files mv ps e id :
  inputs_ok c live → plan_result c live s files mv ps e → id ∈ e_needRepair e ∪ e_relink e →
  ∃ d p, d ∈ c_recs c ∧ r_ID d = id ∧ p ∈ c_recs c ∧ r_ID p = r_LinkOf d ∧ r_State p = StateMissing ∧
    (r_State d = StateLinked ∨ r_State d = StateLinkRecorded).
Proof.
  intros Hok [Hp _ _ (nr0 & Hnr & [Hl _ _ Hi]) _ Hrel _] Hid. rewrite Hrel in Hid.
  apply elem_of_union in Hid as [Hid|Hid]; [apply Hi in Hid as [Hid|Hid]|].
  - destruct (Hnr id Hid) as (v & d & Hv & Hm & Hd & <-).
    destruct (surviving_file c files v d Hd) as (Hdr & Hlo & Hst & _). exists d, v.
    split_and!; try done. unfold vanished in Hv. by apply filter_bool_elem in Hv as [? _].
  - apply list_elem_of_fmap in Hid as (q & -> & Hq). rewrite Forall_forall in Hl.
    destruct (Hl q Hq) as [_ _ (g & r & Hg & Hr & Hm & Hd)].
    destruct (surviving_file c files r q.2 Hd) as (Hdr & Hlo & Hst & _). exists q.2, r.
    split_and!; try done. by eapply (file_rec c live).
  - unfold relink_ids in Hid. apply elem_of_list_to_set, concat_fmap_elem in Hid as (g & Hg & Hid).
    destruct (pf_rec g) as [r|] eqn:Hr; [|set_solver]. case_match eqn:E; [|set_solver].
    apply andb_true_iff in E as [E%bool_decide_eq_true _]. apply list_elem_of_fmap in Hid as (d & -> & Hd).
    unfold deps in Hd. rewrite !filter_bool_elem, !andb_true_iff, bool_decide_eq_true, Z.eqb_eq in Hd.
    exists d, r. destruct Hd as [[Hd [_ Hlo]] [Hst _]]. split_and!; try done; [by eapply (file_rec c live)|by left].
Qed.

(** C24. Every file is written at most once. A full file without a record, or
    whose record does not hold its version (another size or mtime, or missing at
    the destination), is written exactly once: moved, adopted, copied, updated,
    repaired or linked. A file whose record holds its version is left alone,
    except when the record is a link of a primary that is missing (checked here
    without the same-path replacement check of the *arrs). *)
Theorem files_written_once (c : config) (live : list planFile) (names : nameIndex) (s : planner) (f : planFile)
    (Hok : inputs_ok c live) (Hplan : plan c live (start names) = Ok (tt, s)) (Hf : f ∈ live) :
  (count (writes_for (pf_rel f)) (p_heap s) ≤ 1)%nat ∧
  (full f = true → (∀ r, recBySrc c (pf_rel f) = Some r → same_version c f r = false) →
   count (writes_for (pf_rel f)) (p_heap s) = 1%nat) ∧
  (∀ r, recBySrc c (pf_rel f) = Some r → same_version c f r = true → c_arrAdded c = None →
   (∀ p, p ∈ c_recs c → r_ID p = r_LinkOf r → r_State p ≠ StateMissing) →
   count (writes_for (pf_rel f)) (p_heap s) = 0%nat).
Proof.
  destruct (plan_has_trace _ _ _ _ _ Hok Hplan) as (files & mv & ps & e & Hres).
  pose proof (pr_planned _ _ _ _ _ _ _ Hres) as Hp. destruct (planned_live _ _ _ _ Hp Hf) as (f' & Hf' & Hm).
  rewrite <-(ma_rel _ _ _ Hm), count_writes, (count_plan_writes c live s files mv ps e f' Hok Hres Hf').
  pose proof (count_file_writes c files e f' false) as Hle.
  assert (Hrf : pf_replaced f = false) by (pose proof (in_fresh _ _ Hok) as H; rewrite Forall_forall in H; by apply H).
  split; [by case_match; lia|]. split.
  - intros Hful Hrec. destruct (mem _ _); [done|]. unfold file_trace.
    assert (full f' = true) as -> by (unfold full in *; by rewrite (ma_dec _ _ _ Hm)). simpl. rewrite count_full_trace.
    rewrite (ma_rec _ _ _ Hm), (ma_unchanged _ _ _ Hm). rewrite (ma_rel _ _ _ Hm) in Hrec.
    destruct (recBySrc c (pf_rel f)) as [r|] eqn:Er; [|done]. rewrite (Hrec r) by done. simpl. by repeat case_match.
  - rewrite (ma_rel _ _ _ Hm). intros r Hr Hsv Harr Hprim.
    assert (Hun : pf_unchanged f' = true).
    { rewrite (ma_unchanged _ _ _ Hm), Hr, Hsv, (ma_replaced _ _ _ Hm), Hrf by (right; by apply no_arr_not_swapped). done. }
    assert (Hr' : pf_rec f' = Some r) by (by rewrite (ma_rec _ _ _ Hm)).
    destruct (file_rec c live files Hok Hp f' r Hf' Hr') as [Hrin _].
    assert (Hno : r_ID r ∉ e_needRepair e ∪ e_relink e).
    { intros (d & p & Hd & Hid & Hpin & Hlo & Hst & _)%(needs_repair c live s files mv ps e _ Hok Hres).
      assert (d = r) as -> by (eapply recs_inj; eauto; apply Hok). by eapply Hprim. }
    rewrite not_elem_of_union in Hno. destruct Hno as [Hn1 Hn2].
    assert (Hmem : mem (pf_rel f) ((λ p, pf_rel p.1) <$> ps) = false).
    { apply not_true_iff_false. intros (p & Erel & Hin)%mem_spec%list_elem_of_fmap.
      destruct (pr_damaged _ _ _ _ _ _ _ Hres) as (nr0 & _ & Hd).
      destruct (damaged_link_file c live files Hok Hp nr0 _ ps p Hd Hin) as (Hpf & _ & _ & _ & Hpr).
      assert (p.1 = f') as Ef by (eapply (files_inj c live); eauto; by rewrite (ma_rel _ _ _ Hm)).
      apply Hn1, (dk_ids _ _ _ _ _ Hd). right. apply list_elem_of_fmap. exists p. split; [|done]. congruence. }
    rewrite Hmem, <-(ma_rel _ _ _ Hm). unfold file_trace. destruct (full f' || keptChanged c f').
    + rewrite count_full_trace, Hr', Hun, !bool_decide_false; try done. intros E. unfold same_version in Hsv. by rewrite E in Hsv.
    + rewrite Hr'. apply count_keep_trace.
Qed.

(** ** Errors and termination *)

(** Why a plan may fail: the job was cancelled, or a read failed fatally. *)
Definition explained (c : config) (e : plan_error) : Prop :=
  match e with
  | Cancelled => ∃ n, ctx_done (c_reads c) n = true
  | FatalRead p =>
      (∃ n, sourceHeadTail (c_reads c) n p = Err FatalError) ∨
      (∃ n, destHeadTail (c_reads c) n p = Err FatalError) ∨
      (∃ n, destStat (c_reads c) n p = Err FatalError)
  end.

Section errors.
Context (c : config).

(** [m] fails only with an explained error. *)
Definition fails_well {A} (m : M A) : Prop := ∀ s e, m s = Err e → explained c e.

Lemma fw_ok {A} (m : M A) : (∀ s, ∃ r, m s = Ok r) → fails_well m.
Proof. intros H s e E. destruct (H s). congruence. Qed.
Lemma fw_bind {A B} (m : M A) (k : A → M B) : fails_well m → (∀ a, fails_well (k a)) → fails_well (bind m k).
Proof.
  intros Hm Hk s e E. unfold bind in E. destruct (m s) as [[a s1]|e'] eqn:E1; [by eapply Hk|].
  inversion E; subst. by eapply Hm.
Qed.
Lemma fw_bind_ret {A B} (m : M A) (k : A → M B) (P : A → Prop) :
  fails_well m → returns m P → (∀ a, P a → fails_well (k a)) → fails_well (bind m k).
Proof.
  intros Hm HP Hk s e E. unfold bind in E. destruct (m s) as [[a s1]|e'] eqn:E1; [by eapply Hk; eauto|].
  inversion E; subst. by eapply Hm.
Qed.
Lemma fw_for_fold {A L} (l : list A) (v : L) (f : L → A → M L) : (∀ v a, fails_well (f v a)) → fails_well (for_fold l v f).
Proof. intros H. revert v. induction l; intros v; simpl; [apply fw_ok; by eexists|by apply fw_bind]. Qed.
Lemma fw_for_each {A} (l : list A) (f : A → M unit) : (∀ a, fails_well (f a)) → fails_well (for_each l f).
Proof. intros H. induction l; simpl; [apply fw_ok; by eexists|by apply fw_bind]. Qed.
Lemma fw_check_ctx : fails_well (check_ctx c).
Proof. intros s e E. unfold check_ctx, bind, tick in E. simpl in E. case_match eqn:Ed; inversion E; subst. by eexists. Qed.

Ltac fw_step :=
  first
    [ done
    | apply fw_check_ctx
    | apply fw_ok; intros; eexists; reflexivity
    | apply fw_for_fold; intros | apply fw_for_each; intros
    | apply fw_bind; [|intros]
    | case_match ].
Ltac fw := repeat fw_step.

Lemma fw_try_moves f cands h moved : fails_well (try_moves c f cands h moved).
Proof.
  revert h. induction cands as [|v cands IH]; intros h; simpl; [fw|].
  case_match; [apply IH|]. apply fw_bind; [fw|intros _].
  apply (fw_bind_ret _ _ (λ r, r = Err FatalError → ∃ n, sourceHeadTail (c_reads c) n (pf_rel f) = Err FatalError)).
  - fw.
  - case_match; [|by apply returns_ret]. intros s r s' [= <- <-] E. by eexists.
  - intros [h'|[]] Hr; [| |fw].
    + apply (fw_bind_ret _ _ (λ r, r = Err FatalError → ∃ n, destHeadTail (c_reads c) n (r_RelPath v) = Err FatalError)).
      * fw.
      * intros s r s' [= <- <-] E. by eexists.
      * intros [d|[]] Hd; [fw| |by apply IH].
        intros s e [= <-]. right. left. by apply Hd.
    + intros s e [= <-]. left. by apply Hr.
Qed.

Lemma fw_create dest self i : fails_well (create c dest self i).
Proof. unfold create. fw. Qed.

Lemma fw_newFile f : fails_well (newFile c f).
Proof.
  unfold newFile. apply fw_bind; [fw|intros i]. apply fw_bind; [fw|intros _].
  apply fw_bind; [apply fw_create|intros ok]. case_match; [fw|].
  apply (fw_bind_ret _ _ (λ r, r = Err FatalError → ∃ n, destStat (c_reads c) n (destPath c (pf_rel f)) = Err FatalError)).
  - fw.
  - intros s r s' [= <- <-] E. by eexists.
  - intros [[st|]|[]] Hr; unfold unknownCopy; fw. intros s e [= <-]. right. right. by apply Hr.
Qed.

Lemma fw_link f prim r : fails_well (link c f prim r).
Proof. unfold link. destruct r; [fw|]. apply fw_bind; [fw|intros]. apply fw_bind; [apply fw_create|intros; fw]. Qed.
Lemma fw_move f v : fails_well (move c f v).
Proof. unfold move. apply fw_bind; [fw|intros]. apply fw_bind; [apply fw_create|intros; fw]. Qed.

Lemma fw_keep f r : fails_well (keep c f r).
Proof. unfold keep, tierItem, release_item. fw. Qed.

Lemma fw_replacedInPlace f r : fails_well (replacedInPlace c f r).
Proof. unfold replacedInPlace. fw. Qed.

Lemma fw_match_records live : fails_well (match_records c live).
Proof.
  induction live as [|f live IH]; simpl; [fw|]. apply fw_bind; [|intros; apply fw_bind; [exact IH|intros; fw]].
  unfold match_record. apply fw_bind; [|intros; unfold countTier; fw].
  case_match; [|fw]. case_match; [|fw]. apply fw_bind; [apply fw_replacedInPlace|intros; fw].
Qed.

Lemma fw_plan_full files e f : fails_well (plan_full c files e f).
Proof.
  unfold plan_full, repair, update, after_promote.
  repeat first [apply fw_link | apply fw_move | apply fw_newFile | fw_step].
Qed.

Lemma fw_plan_rest files : fails_well (plan_rest c files).
Proof.
  unfold plan_rest. apply fw_bind.
  { unfold pairMoves. case_match; [fw|]. apply fw_for_fold. intros [mv moved] f. unfold pair_move. case_match; [fw|].
    apply fw_bind; [apply fw_try_moves|intros; fw]. }
  intros [mf md]. apply fw_bind.
  { apply fw_for_fold. intros [pt nr] v. unfold plan_vanished_one, planVanished, retain, promote. fw. }
  intros [pt nr]. apply fw_bind; [apply fw_for_fold; intros; unfold promote_changed, promote; fw|intros pt'].
  apply fw_bind.
  { apply fw_for_fold. intros st f. unfold damaged_primary. case_match; [|fw]. case_match; [|fw].
    apply fw_for_fold. intros [lost nr'] d. unfold damaged_dependent, repair. fw. }
  intros [lost nr']. apply fw_bind; [|intros; unfold set_after, set_lost; fw].
  apply fw_for_fold. intros links f. unfold plan_file. apply fw_bind; [apply fw_check_ctx|intros].
  case_match.
  - apply fw_bind; [fw|intros]. apply fw_bind; [apply fw_plan_full|intros; fw].
  - apply fw_bind; [|intros; fw]. unfold tierItem. repeat first [apply fw_keep | apply fw_move | fw_step].
Qed.
End errors.

(** Planning always ends, and fails only for a reason: the job was cancelled,
    or a read of the source or of the destination failed fatally. Every other
    read error leaves a plan (the file is copied, or its copy reports it). *)
Theorem plan_fails_only_fatally (c : config) (live : list planFile) (names : nameIndex) :
  (∀ e, plan c live (start names) = Err e → explained c e) ∧
  ((∀ n, ctx_done (c_reads c) n = false) →
   (∀ n p, sourceHeadTail (c_reads c) n p ≠ Err FatalError ∧ destHeadTail (c_reads c) n p ≠ Err FatalError ∧
           destStat (c_reads c) n p ≠ Err FatalError) →
   ∃ s, plan c live (start names) = Ok (tt, s)).
Proof.
  assert (H : fails_well c (plan c live)).
  { unfold plan. apply fw_bind; [apply fw_match_records|intros; apply fw_plan_rest]. }
  split; [by apply H|]. intros Hctx Hreads. destruct (plan c live (start names)) as [[[] s]|e] eqn:E; [by eexists|].
  specialize (H _ _ E). destruct e as [|p]; simpl in H.
  - destruct H as [n Hn]. rewrite Hctx in Hn. done.
  - destruct H as [[n Hn]|[[n Hn]|[n Hn]]]; destruct (Hreads n p) as (? & ? & ?); done.
Qed.

(** ** A source in sync *)

(** Every record has its file, every file has a record with its version. *)
Record in_sync (c : config) (live : list planFile) : Prop := {
  sy_recs r : r ∈ c_recs c → ∃ f, f ∈ live ∧ pf_rel f = r_SourceRelPath r;
  sy_files f : f ∈ live → ∃ r, recBySrc c (pf_rel f) = Some r ∧ same_version c f r = true;
  sy_same f : f ∈ live → full f = true → not_swapped c f;
}.

Lemma trace_nil s : tr s = [] → p_heap s = [].
Proof. unfold tr. by destruct (p_heap s). Qed.

(** C25: Syncing again is a no-op: when every file has a record with its version
    and every record its file, a real run without a release plans nothing at all,
    whatever the tiers, groups and links are. A full file that an *arr added after its copy
    was made counts as its version as long as the heads and tails that are read of the file
    and of its copy agree. *)
Theorem in_sync_plans_nothing (c : config) (live : list planFile) (names : nameIndex) (s : planner)
    (Hok : inputs_ok c live) (Hsync : in_sync c live)
    (Hdry : c_dryRun c = false) (Hrel : c_release c = None)
    (Hplan : plan c live (start names) = Ok (tt, s)) :
  items c (p_heap s) = [].
Proof.
  destruct (plan_has_trace _ _ _ _ _ Hok Hplan) as (files & mv & ps & e & Hres).
  pose proof Hres as [Hp Hrels Hmv Hd Hfrom Hrl Htr].
  assert (Hf : ∀ f, f ∈ files → ∃ r, pf_rec f = Some r ∧ pf_unchanged f = true ∧ r_State r ≠ StateMissing).
  { intros f Hf. destruct (planned_elem _ _ _ _ Hp Hf) as (g & Hg & Hm). destruct (sy_files _ _ Hsync g Hg) as (r & Hr & Hsv).
    exists r. rewrite (ma_rec _ _ _ Hm), (ma_unchanged _ _ _ Hm), Hr, Hsv, (ma_replaced _ _ _ Hm) by (destruct (full g) eqn:Eg; [right; by apply Hsync|by left]).
    pose proof (in_fresh _ _ Hok) as H. rewrite Forall_forall in H. destruct (H g Hg) as [_ ->].
    split_and!; [done|done|]. intros E. unfold same_version in Hsv. by rewrite E in Hsv. }
  assert (Hrec : ∀ r, r ∈ c_recs c → r_State r ≠ StateMissing).
  { intros r Hr Hm. destruct (sy_recs _ _ Hsync r Hr) as (g & Hg & Hrelg). destruct (planned_live _ _ _ _ Hp Hg) as (f & Hff & Hma).
    destruct (Hf f Hff) as (r' & Hr' & _ & Hnm). rewrite (ma_rec _ _ _ Hma), Hrelg in Hr'.
    rewrite (proj2 (recBySrc_spec c _ r (in_srcs _ _ Hok))) in Hr' by done. naive_solver. }
  assert (Hno : ∀ id, id ∉ e_needRepair e ∪ e_relink e).
  { intros id (d & p & _ & _ & Hpin & _ & Hst & _)%(needs_repair c live s files mv ps e _ Hok Hres). by eapply Hrec. }
  assert (E : p_heap s = []); [|by rewrite E]. apply trace_nil. rewrite Htr. unfold plan_trace.
  assert (vanished c files = []) as ->.
  { destruct (vanished c files) as [|v l] eqn:Ev; [done|]. exfalso.
    assert (Hv : v ∈ vanished c files) by (rewrite Ev; by left). apply (vanished_spec c live files v Hok Hp) in Hv as [Hv Hg].
    destruct (sy_recs _ _ Hsync v Hv) as (g & Hgl & Hgr). by apply (Hg g). }
  assert (ps = []) as ->.
  { destruct ps as [|q l]; [done|]. exfalso. destruct Hd as (nr0 & _ & Hd). apply (Hno (r_ID q.2)), elem_of_union_l.
    apply (dk_ids _ _ _ _ _ Hd). right. by left. }
  assert (Hcat : ∀ g : planFile → list skel, (∀ f, f ∈ files → g f = []) → concat (g <$> files) = []).
  { clear. induction files as [|f l IH]; intros g H; [done|]. rewrite fmap_cons. cbn [concat].
    rewrite H, IH by set_solver. done. }
  rewrite (Hcat (changed_trace c files)), Hcat; [done|..].
  - intros f Hin. destruct (Hf f Hin) as (r & Hr & Hun & Hst). unfold file_trace. case_match.
    + unfold full_trace. rewrite Hr, Hun, !bool_decide_false; [done|done|..]; intros Hid; apply (Hno (r_ID r)); set_solver.
    + rewrite Hr. unfold keep_trace, release_allowed. rewrite Hdry, Hrel. by case_match.
  - intros f Hin. destruct (Hf f Hin) as (r & Hr & Hun & Hst). unfold changed_trace. by rewrite Hr, Hun.
Qed.

(** ** Execution order *)

Definition list_rank (l : plan_list) : Z :=
  match l with LPromotes => 0 | LMoves => 1 | LPuts => 2 | LLinks => 3 | LRetains => 4 | LReleases => 5 | LSkips => 6 end.
Definition rank_at (h : list planItem) (i : nat) : Z :=
  match h !! i with Some it => list_rank (it_list it) | None => 7 end.
(** [release_rank] among the releases. *)
Definition sub_rank (c : config) (h : list planItem) (i : nat) : Z :=
  if rank_at h i =? 5 then release_rank c h i else 0.

(** The order two items run in: by list, releases by rank, then as planned. *)
Definition runs_before (c : config) (h : list planItem) (i j : nat) : Prop :=
  rank_at h i < rank_at h j ∨ (rank_at h i = rank_at h j ∧ sub_rank c h i < sub_rank c h j) ∨
  (rank_at h i = rank_at h j ∧ sub_rank c h i = sub_rank c h j ∧ (i < j)%nat).

Lemma list_of_elem h l i : i ∈ list_of l h ↔ ∃ it, h !! i = Some it ∧ it_list it = l.
Proof.
  unfold list_of. rewrite filter_bool_elem, elem_of_seq. destruct (h !! i) as [it|] eqn:E.
  - rewrite bool_decide_eq_true. apply lookup_lt_Some in E. split; [intros [_ H]; eauto|].
    intros (it' & [= <-] & ->). split; [lia|done].
  - split; [by intros []|]. by intros (? & ? & _).
Qed.

Lemma filter_seq_sorted (p : nat → bool) a n : StronglySorted lt (List.filter p (seq a n)).
Proof.
  revert a. induction n as [|n IH]; intros a; simpl; [constructor|]. destruct (p a); [|apply IH].
  constructor; [apply IH|]. apply Forall_forall. intros x [Hx _]%filter_bool_elem. apply elem_of_seq in Hx. lia.
Qed.

Lemma StronglySorted_app_intro {A} (R : A → A → Prop) l k :
  StronglySorted R l → StronglySorted R k → (∀ x y, x ∈ l → y ∈ k → R x y) → StronglySorted R (l ++ k).
Proof.
  induction 1 as [|x l Hs IH Hall]; intros Hk H; simpl; [done|]. constructor; [apply IH; [done|set_solver]|].
  apply Forall_app. split; [done|]. apply Forall_forall. intros y Hy. apply H; [by left|done].
Qed.

Lemma StronglySorted_weaken {A} (R R' : A → A → Prop) l :
  (∀ x y, x ∈ l → y ∈ l → R x y → R' x y) → StronglySorted R l → StronglySorted R' l.
Proof.
  intros H Hs. induction Hs as [|x l Hs IH Hall]; constructor; [apply IH; set_solver|].
  rewrite Forall_forall in *. intros y Hy. apply H; [by left|by right|by apply Hall].
Qed.

(** One list of the plan. *)
Lemma list_of_sorted c h l : l ≠ LReleases → StronglySorted (runs_before c h) (list_of l h).
Proof.
  intros Hl. eapply StronglySorted_weaken; [|apply filter_seq_sorted].
  intros x y (it & Hit & Ht)%list_of_elem (jt & Hjt & Hu)%list_of_elem Hlt.
  right; right. unfold sub_rank, rank_at. rewrite Hit, Hjt, Ht, Hu. by destruct l.
Qed.

Lemma releases_sorted c h : StronglySorted (runs_before c h) (sortReleases c h (list_of LReleases h)).
Proof.
  eapply StronglySorted_weaken; [|apply isort_key_stable, filter_seq_sorted].
  intros x y Hx Hy. apply isort_elem, list_of_elem in Hx as (it & Hit & Ht).
  apply isort_elem, list_of_elem in Hy as (jt & Hjt & Hu).
  unfold runs_before, sub_rank, rank_at. rewrite Hit, Hjt, Ht, Hu. simpl. lia.
Qed.

Lemma list_rank_inj l l' : list_rank l = list_rank l' → l = l'.
Proof. by destruct l, l'. Qed.

(** A list of the plan in the order it runs in, and all of them. *)
Definition part (c : config) (h : list planItem) (l : plan_list) : list nat :=
  if bool_decide (l = LReleases) then sortReleases c h (list_of l h) else list_of l h.
Definition all_lists : list plan_list := [LPromotes; LMoves; LPuts; LLinks; LRetains; LReleases; LSkips].

Lemma items_parts c h : items c h = concat (part c h <$> all_lists).
Proof. unfold items, part. simpl. by rewrite app_nil_r. Qed.

Lemma part_elem c h l i : i ∈ part c h l ↔ ∃ it, h !! i = Some it ∧ it_list it = l.
Proof. unfold part, sortReleases. case_bool_decide; [rewrite isort_elem|]; apply list_of_elem. Qed.

Lemma part_sorted c h l : StronglySorted (runs_before c h) (part c h l).
Proof. unfold part. case_bool_decide; [subst; apply releases_sorted|by apply list_of_sorted]. Qed.

Lemma parts_sorted c h ls :
  StronglySorted (λ a b, list_rank a < list_rank b) ls → StronglySorted (runs_before c h) (concat (part c h <$> ls)).
Proof.
  induction 1 as [|l ls Hs IH Hall]; [constructor|]. rewrite fmap_cons. cbn [concat].
  apply StronglySorted_app_intro; [apply part_sorted|done|].
  intros x y (it & Hit & <-)%part_elem (l' & Hl' & Hy)%concat_fmap_elem. apply part_elem in Hy as (jt & Hjt & <-).
  rewrite Forall_forall in Hall. left. unfold rank_at. rewrite Hit, Hjt. by apply Hall.
Qed.

Lemma items_sorted c h : StronglySorted (runs_before c h) (items c h).
Proof.
  rewrite items_parts. apply parts_sorted. unfold all_lists.
  repeat (constructor; [|repeat constructor]). constructor.
Qed.

(** The plan's items run in the order promote, move, copy/update/adopt, link,
    retain, release, skip; inside a list in the order they were planned, except
    that the releases run recorded-only links first, then hardlinks, then the
    files (a primary after the links that need its content). Every planned item
    is in the list exactly once. *)
Theorem items_in_order (c : config) (h : list planItem) :
  items c h ≡ₚ seq 0 (length h) ∧ StronglySorted (runs_before c h) (items c h).
Proof.
  pose proof (items_sorted c h) as Hs. split; [|done].
  apply NoDup_Permutation; [|apply NoDup_seq|].
  - induction Hs as [|x l Hs IH Hall]; constructor; [|done]. intros Hx.
    rewrite Forall_forall in Hall. specialize (Hall x Hx). unfold runs_before in Hall. lia.
  - intros i. rewrite items_parts, concat_fmap_elem, elem_of_seq. setoid_rewrite part_elem. split.
    + intros (l & _ & it & Hit & _). apply lookup_lt_Some in Hit. lia.
    + intros [_ Hi]. destruct (lookup_lt_is_Some_2 h i Hi) as [it Hit]. exists (it_list it).
      split; [|by exists it]. unfold all_lists. destruct (it_list it); set_solver.
Qed.

(** ** A sample plan

    A renamed film, an updated one, a film that is kept (not full any more) and
    whose source changed, a vanished film with a surviving hardlink, a new
    hardlink group. *)
Module PlanSample.
Definition manifest : Decision := mkDecision Manifest 2 "rest" [] [] false 5 "".
Definition file (id : Z) (rel : string) (size mtime : Z) (group : string) (dec : option Decision) : planFile :=
  mkPlanFile id rel size mtime group None false dec false.
Definition rec (id : Z) (rel : string) (size mtime link : Z) (st : State) : Rec :=
  mkRec id 1 ("films/" +:+ rel) rel size mtime link st (Some 0).
Definition fs : reads := mkReads (λ _ _, Ok "hash") (λ _ _, Ok "hash") (λ _ _, Ok None) (λ _, false).
Definition caps : Capabilities := mkCapabilities true false false "" true 1 true "ext4" 0 1.
Definition cfg (recs : list Rec) : config :=
  mkConfig 1 "films" caps (mkSettings AdoptSizeMtime 0 20 500) (λ r, r) (λ s, s) false false None None false recs fs.
Definition recs : list Rec :=
  [rec 1 "a/old.mkv" 100 5 0 StatePresent; rec 2 "b.mkv" 50 5 0 StatePresent; rec 3 "c.mkv" 70 1 0 StatePresent;
   rec 4 "c2.mkv" 70 1 3 StateLinked; rec 5 "kept.mkv" 80 1 0 StatePresent].
Definition live : list planFile :=
  [file 11 "a/new.mkv" 100 5 "" None; file 12 "b.mkv" 20 9 "" None; file 13 "c2.mkv" 70 1 "" None;
   file 16 "kept.mkv" 90 2 "" (Some manifest); file 14 "new.mkv" 5 5 "g" None; file 15 "new2.mkv" 5 5 "g" None].
Definition state : planner :=
  match plan (cfg recs) live (start (newNameIndex caps)) with Ok (_, s) => s | Err _ => start (newNameIndex caps) end.

Example planned : (λ i, (λ it, (it_action it, it_rel it)) <$> p_heap state !! i) <$> items (cfg recs) (p_heap state) =
  [Some (ActionPromote, "films/c2.mkv"); Some (ActionMove, "films/a/new.mkv"); Some (ActionUpdate, "films/b.mkv");
   Some (ActionCopy, "films/new.mkv"); Some (ActionLink, "films/new2.mkv"); Some (ActionRetain, "films/c.mkv")].
Proof. vm_compute. reflexivity. Qed.

Definition synced : list planFile := [file 12 "b.mkv" 50 5 "" None; file 16 "kept.mkv" 80 1 "" (Some manifest)].
Definition arr_cfg : config :=
  mkConfig 1 "films" caps (mkSettings AdoptSizeMtime 0 20 500) (λ r, r) (λ s, s) false false None (Some (λ _, Some 100)) false
    [rec 2 "b.mkv" 50 5 0 StatePresent; rec 5 "kept.mkv" 80 1 0 StatePresent] fs.
Definition synced_recs : list Rec := [rec 2 "b.mkv" 50 5 0 StatePresent; rec 5 "kept.mkv" 80 1 0 StatePresent].
End PlanSample.

Lemma vanished_handled_once_witness :
  count (handles 3) (p_heap PlanSample.state) = 1%nat.
Proof.
  destruct (vanished_handled_once (PlanSample.cfg PlanSample.recs) PlanSample.live (newNameIndex PlanSample.caps) PlanSample.state
    (PlanSample.rec 3 "c.mkv" 70 1 0 StatePresent)) as [H|(_ & H & _)].
  - apply inputs_okb_ok. vm_compute. reflexivity.
  - vm_compute. reflexivity.
  - apply list_elem_of_In. vm_compute. tauto.
  - intros f Hf. apply list_elem_of_In in Hf. vm_compute in Hf. repeat destruct Hf as [<-|Hf]; done.
  - exact H.
  - discriminate H.
Defined.

Lemma moves_are_renames_witness :
  ∃ f v, f ∈ PlanSample.live ∧ v ∈ PlanSample.recs ∧ r_Size v = pf_size f ∧ pf_rel f = "a/new.mkv".
Proof.
  assert (Hit : ∃ it, it ∈ p_heap PlanSample.state ∧ it_list it = LMoves ∧ dt_Source (it_d it) = "a/new.mkv").
  { assert (E : (λ it, (it_list it, dt_Source (it_d it))) <$> p_heap PlanSample.state !! 2%nat = Some (LMoves, "a/new.mkv"))
      by (vm_compute; reflexivity).
    destruct (p_heap PlanSample.state !! 2%nat) as [it|] eqn:Ei; [|discriminate E]. simpl in E. injection E as El Es.
    exists it. split; [exact (list_elem_of_lookup_2 _ 2%nat it Ei)|split; [exact El|exact Es]]. }
  destruct Hit as (it & Hin & Hl & Hs).
  destruct (moves_are_renames (PlanSample.cfg PlanSample.recs) PlanSample.live (newNameIndex PlanSample.caps) PlanSample.state)
    with (it := it) as (f & v & Hf & _ & Hv & _ & _ & Hsz & _ & _ & Hsrc & _).
  - apply inputs_okb_ok. vm_compute. reflexivity.
  - vm_compute. reflexivity.
  - exact Hin.
  - exact Hl.
  - exists f, v. split; [exact Hf|]. split; [exact Hv|]. split; [exact Hsz|]. rewrite <-Hsrc. exact Hs.
Defined.

Lemma files_written_once_witness :
  count (writes_for "b.mkv") (p_heap PlanSample.state) = 1%nat ∧ count (writes_for "c2.mkv") (p_heap PlanSample.state) = 0%nat.
Proof.
  split.
  - refine (proj1 (proj2 (files_written_once (PlanSample.cfg PlanSample.recs) PlanSample.live (newNameIndex PlanSample.caps)
      PlanSample.state (PlanSample.file 12 "b.mkv" 20 9 "" None) _ _ _)) _ _).
    + apply inputs_okb_ok. vm_compute. reflexivity.
    + vm_compute. reflexivity.
    + apply list_elem_of_In. vm_compute. tauto.
    + reflexivity.
    + intros r Hr. vm_compute in Hr. injection Hr as <-. vm_compute. reflexivity.
  - refine (proj2 (proj2 (files_written_once (PlanSample.cfg PlanSample.recs) PlanSample.live (newNameIndex PlanSample.caps)
      PlanSample.state (PlanSample.file 13 "c2.mkv" 70 1 "" None) _ _ _))
      (PlanSample.rec 4 "c2.mkv" 70 1 3 StateLinked) _ _ _ _).
    + apply inputs_okb_ok. vm_compute. reflexivity.
    + vm_compute. reflexivity.
    + apply list_elem_of_In. vm_compute. tauto.
    + vm_compute. reflexivity.
    + vm_compute. reflexivity.
    + reflexivity.
    + intros p Hp Hid. apply list_elem_of_In in Hp. vm_compute in Hp. repeat destruct Hp as [<-|Hp]; done.
Defined.

Lemma plan_fails_only_fatally_witness :
  ∃ s, plan (PlanSample.cfg PlanSample.recs) PlanSample.live (start (newNameIndex PlanSample.caps)) = Ok (tt, s).
Proof. apply plan_fails_only_fatally; intros; done. Defined.

(** An *arr added every file after its copy was made. *)
Lemma in_sync_plans_nothing_witness :
  ∃ s, plan PlanSample.arr_cfg PlanSample.synced (start (newNameIndex PlanSample.caps)) = Ok (tt, s) ∧
    length (p_replaceChecked s) = 1%nat ∧ items PlanSample.arr_cfg (p_heap s) = [].
Proof.
  set (s := match plan PlanSample.arr_cfg PlanSample.synced (start (newNameIndex PlanSample.caps)) with
            | Ok (_, s) => s | Err _ => start (newNameIndex PlanSample.caps) end).
  assert (Hplan : plan PlanSample.arr_cfg PlanSample.synced (start (newNameIndex PlanSample.caps)) = Ok (tt, s)) by (vm_compute; reflexivity).
  exists s. split; [exact Hplan|]. split; [vm_compute; reflexivity|].
  apply (in_sync_plans_nothing PlanSample.arr_cfg PlanSample.synced (newNameIndex PlanSample.caps)).
  - apply inputs_okb_ok. vm_compute. reflexivity.
  - split.
    + intros r Hr. apply list_elem_of_In in Hr. vm_compute in Hr. destruct Hr as [<-|[<-|[]]].
      * exists (PlanSample.file 12 "b.mkv" 50 5 "" None). split; [apply list_elem_of_In; left; reflexivity|reflexivity].
      * exists (PlanSample.file 16 "kept.mkv" 80 1 "" (Some PlanSample.manifest)).
        split; [apply list_elem_of_In; right; left; reflexivity|reflexivity].
    + intros f Hf. apply list_elem_of_In in Hf. vm_compute in Hf. destruct Hf as [<-|[<-|[]]].
      * exists (PlanSample.rec 2 "b.mkv" 50 5 0 StatePresent). split; vm_compute; reflexivity.
      * exists (PlanSample.rec 5 "kept.mkv" 80 1 0 StatePresent). split; vm_compute; reflexivity.
    + intros f _ _ a added r copied _ _ _ _ _ _ n m sh dh Es Ed. simpl in Es, Ed. congruence.
  - reflexivity.
  - reflexivity.
  - exact Hplan.
Defined.
