(* ===== verification/SyncGuard.v ===== *)
(** * SyncGuard: the mass-change guard ([internal/syncer/guards.go], S10b)

    [applyGuard] holds the items of a plan: all its changes when they exceed the
    limits, always the updates that shrink a file, and what depends on a held
    item. The items are a list of pointers into the planner's heap (SyncPlan). *)
From stdpp Require Import base gmap list strings.
From S2P Require Import Prelude GoStrings Tiers DestNames SyncPlan.
Open Scope string_scope.
Open Scope Z_scope.

Definition minHeldChanges : Z := 20.

Record guardResult := mkGuardResult { g_changes : Z; g_held : Z; g_limited : bool }.

(** The heap and the number of items held so far. *)
Definition hold (i : nat) (why : item_error) (st : list planItem * Z) : list planItem * Z :=
  (alter (with_status ItemHeld why) i st.1, i64 (st.2 + 1)).

Definition no_status (it : planItem) : bool := bool_decide (it_status it = NoStatus).

Definition countChanges (h : list planItem) (items : list nat) : Z :=
  foldl (λ n i, match h !! i with Some it => if it_change it && no_status it then i64 (n + 1) else n | None => n end) 0 items.

(** The first loop: the items that are held for themselves. *)
Definition hold_direct (limited : bool) (changes : Z) (st : list planItem * Z) (i : nat) : list planItem * Z :=
  match st.1 !! i with
  | Some it =>
      if negb (no_status it) then st
      else if limited && it_change it then hold i (HeldByGuard changes) st
      else if it_shrink it then hold i (HeldShrink (dt_Size (it_d it)) (dt_OldSize (it_d it))) st
      else st
  | None => st
  end.

Definition held_at (h : list planItem) (i : nat) : bool :=
  match h !! i with Some it => bool_decide (it_status it = ItemHeld) | None => false end.

(** One round of the second loop: the items whose [after] is held. *)
Definition hold_dependents (st : list planItem * Z * bool) (i : nat) : list planItem * Z * bool :=
  let '(h, n, changed) := st in
  match h !! i with
  | Some it =>
      match it_after it with
      | Some j =>
          if no_status it && held_at h j then
            match h !! j with
            | Some jt => (hold i (HeldWith (it_rel jt) (it_action jt)) (h, n), true)
            | None => st
            end
          else st
      | None => st
      end
  | None => st
  end.

(** [for changed := true; changed; { ... }]; the fuel is one more than the number
    of items: every round but the last holds one. *)
Fixpoint hold_loop (fuel : nat) (items : list nat) (st : list planItem * Z) : list planItem * Z :=
  match fuel with
  | O => st
  | S fuel =>
      let '(h, n, changed) := foldl hold_dependents (st, false) items in
      if changed : bool then hold_loop fuel items (h, n) else (h, n)
  end.

Definition applyGuard (h : list planItem) (items : list nat) (liveFiles : Z) (s : Settings) (allowChanges : bool)
    : guardResult * list planItem :=
  let changes := countChanges h items in
  if allowChanges then (mkGuardResult changes 0 false, h)
  else
    let pct := MaxChangePercent s in
    let limited := ((i64 (pct * liveFiles) <? i64 (changes * 100)) && (minHeldChanges <? changes)) || (MaxChangeFiles s <? changes) in
    let st := foldl (hold_direct limited changes) (h, 0) items in
    let st := hold_loop (S (length items)) items st in
    (mkGuardResult changes st.2 limited, st.1).

(** ** Specification *)

Section guard.
Context (h : list planItem) (items : list nat) (limited : bool).

(** What is held for itself, and with what it depends on. *)
Definition pending (it : planItem) : Prop := it_status it = NoStatus.

Inductive must_hold : nat → Prop :=
| hold_change i it : i ∈ items → h !! i = Some it → pending it → (limited && it_change it) || it_shrink it = true → must_hold i
| hold_with_before i it j jt : i ∈ items → h !! i = Some it → pending it → it_after it = Some j →
    h !! j = Some jt → it_status jt = ItemHeld → must_hold i
| hold_with i it j : i ∈ items → h !! i = Some it → pending it → it_after it = Some j → must_hold j → must_hold i.

(** A heap the guard may have made: the items it holds must be held, all others
    are as planned. *)
Definition guarded (h' : list planItem) : Prop :=
  ∀ i, h' !! i = h !! i ∨ (must_hold i ∧ ∃ it why, h !! i = Some it ∧ h' !! i = Some (with_status ItemHeld why it)).

Lemma guarded_refl : guarded h.
Proof. by left. Qed.

Lemma guarded_hold h' i why n :
  guarded h' → must_hold i → guarded (hold i why (h', n)).1.
Proof.
  intros Hg Hm j. simpl. destruct (decide (i = j)) as [<-|Hne]; [|by rewrite list_lookup_alter_ne; [apply Hg|]].
  right. split; [done|]. rewrite list_lookup_alter_eq.
  assert (Hit : ∃ it, h !! i = Some it) by (inversion Hm; eauto). destruct Hit as [it Hit].
  exists it, why. split; [done|].
  destruct (Hg i) as [->|(_ & it' & why' & Hi & ->)]; [by rewrite Hit|].
  rewrite Hit in Hi. by simplify_eq.
Qed.

Lemma guarded_held h' i it j :
  guarded h' → i ∈ items → h !! i = Some it → pending it → it_after it = Some j → held_at h' j = true → must_hold i.
Proof.
  unfold held_at. intros Hg Hi Hit Hp Ha Hh. destruct (Hg j) as [E|(Hm & _)]; [|by eapply hold_with].
  rewrite E in Hh. destruct (h !! j) as [jt|] eqn:Ej; [|done]. apply bool_decide_eq_true in Hh. by eapply hold_with_before.
Qed.

Lemma guarded_pending h' i it : guarded h' → h' !! i = Some it → pending it → h !! i = Some it.
Proof.
  intros Hg Hi Hp. destruct (Hg i) as [E|(_ & it' & why & _ & E)]; [congruence|].
  rewrite Hi in E. simplify_eq. by unfold pending in Hp.
Qed.

Lemma guarded_lookup h' i it : guarded h' → h !! i = Some it →
  h' !! i = Some it ∨ (must_hold i ∧ ∃ why, h' !! i = Some (with_status ItemHeld why it)).
Proof.
  intros Hg Hi. destruct (Hg i) as [->|(Hm & it' & why & E & ->)]; [by left|]. right. split; [done|].
  exists why. congruence.
Qed.

Lemma no_status_true it : no_status it = true ↔ pending it.
Proof. apply bool_decide_eq_true. Qed.

(** *** The first loop *)

Lemma hold_direct_guarded changes st i :
  i ∈ items → guarded st.1 → guarded (hold_direct limited changes st i).1.
Proof.
  intros Hi Hg. unfold hold_direct. destruct (st.1 !! i) as [it|] eqn:E; [|done].
  destruct (no_status it) eqn:En; simpl; [|done]. apply no_status_true in En.
  pose proof (guarded_pending _ _ _ Hg E En) as Eh.
  destruct (limited && it_change it) eqn:Ec.
  - destruct st. apply guarded_hold; [done|]. eapply hold_change; eauto. by rewrite Ec.
  - destruct (it_shrink it) eqn:Es; [|done]. destruct st. apply guarded_hold; [done|].
    eapply hold_change; eauto. rewrite Es. apply orb_true_r.
Qed.

Lemma held_stays i why st j : held_at st.1 j = true → held_at (hold i why st).1 j = true.
Proof.
  unfold held_at, hold. simpl. destruct (decide (i = j)) as [<-|Hne]; [|by rewrite list_lookup_alter_ne].
  rewrite list_lookup_alter_eq. by destruct (st.1 !! i).
Qed.

Lemma hold_direct_stays changes st i j : held_at st.1 j = true → held_at (hold_direct limited changes st i).1 j = true.
Proof. intros H. unfold hold_direct. repeat case_match; try done; by apply held_stays. Qed.

(** After the first loop, what must be held for itself is held. *)
Lemma direct_loop changes l st :
  l ⊆ items → guarded st.1 →
  let st' := foldl (hold_direct limited changes) st l in
  guarded st'.1 ∧ (∀ j, held_at st.1 j = true → held_at st'.1 j = true) ∧
  (∀ i it, i ∈ l → h !! i = Some it → pending it → (limited && it_change it) || it_shrink it = true → held_at st'.1 i = true).
Proof.
  revert st. induction l as [|i l IH]; intros st Hl Hg; simpl; [split_and!; [done|done|set_solver]|].
  destruct (IH (hold_direct limited changes st i)) as (IH1 & IH2 & IH3); [set_solver|by apply hold_direct_guarded; [set_solver|]|].
  split_and!; [done|intros j Hj; by apply IH2, hold_direct_stays|].
  intros j it [->|Hj]%elem_of_cons Hit Hp Hd; [|by eapply IH3]. apply IH2.
  destruct (guarded_lookup _ _ _ Hg Hit) as [E|(_ & why & E)].
  - unfold hold_direct. rewrite E, (proj2 (no_status_true it)) by done. simpl.
    destruct (limited && it_change it); [|simpl in Hd; rewrite Hd]; unfold held_at, hold; simpl;
      by rewrite list_lookup_alter_eq, E.
  - apply hold_direct_stays. unfold held_at. by rewrite E.
Qed.

(** *** The second loop *)

Definition pendings (h' : list planItem) : nat :=
  count (λ i, match h' !! i with Some it => no_status it | None => false end) items.

Lemma dependents_round l st ch :
  l ⊆ items → guarded st.1 →
  let '(h', n', ch') := foldl hold_dependents (st, ch) l in
  guarded h' ∧ (∀ j, held_at st.1 j = true → held_at h' j = true) ∧
  (ch' = false → ch = false ∧ h' = st.1 ∧ n' = st.2 ∧
     ∀ i it j, i ∈ l → h' !! i = Some it → pending it → it_after it = Some j → held_at h' j = false) ∧
  (ch' = true → ch = true ∨ (pendings h' < pendings st.1)%nat) ∧ (pendings h' ≤ pendings st.1)%nat.
Proof.
  revert st ch. induction l as [|i l IH]; intros [h1 n1] ch Hl Hg; cbn [foldl fst snd].
  { split_and!; [done|done|set_solver|by left|done]. }
  assert (Hstep : hold_dependents (h1, n1, ch) i = (h1, n1, ch) ∧
      (∀ it j, h1 !! i = Some it → pending it → it_after it = Some j → held_at h1 j = false) ∨
    ∃ it j why, h1 !! i = Some it ∧ pending it ∧ it_after it = Some j ∧ held_at h1 j = true ∧
      hold_dependents (h1, n1, ch) i = (hold i why (h1, n1), true)).
  { unfold hold_dependents. destruct (h1 !! i) as [it|] eqn:Ei; [|left; by split].
    destruct (it_after it) as [j|] eqn:Ea; [|left; split; [done|]; naive_solver].
    destruct (no_status it) eqn:En; simpl; [|left; split; [done|]; intros it' j' [= <-] Hp%no_status_true; congruence].
    destruct (held_at h1 j) eqn:Ej; [|left; split; [done|]; naive_solver].
    pose proof Ej as Ej'. unfold held_at in Ej'. destruct (h1 !! j) as [jt|]; [|done].
    right. exists it, j, (HeldWith (it_rel jt) (it_action jt)). apply no_status_true in En. by split_and!. }
  destruct Hstep as [[-> Hno]|(it & j & why & Hit & Hp & Ha & Hj & ->)].
  - specialize (IH (h1, n1) ch ltac:(set_solver) Hg). destruct (foldl hold_dependents _ l) as [[h' n'] ch'].
    simpl in *. destruct IH as (I1 & I2 & I3 & I4 & I5). split_and!; [done|done| |done|done].
    intros Hc. destruct (I3 Hc) as (-> & -> & -> & Hall). split_and!; [done|done|done|].
    intros k it j [->|Hk]%elem_of_cons; [apply Hno|by apply Hall].
  - assert (Hm : must_hold i).
    { eapply (guarded_held h1); [done|set_solver|by eapply guarded_pending|done..]. }
    specialize (IH (hold i why (h1, n1)) true ltac:(set_solver) (guarded_hold h1 i why n1 Hg Hm)).
    destruct (foldl hold_dependents _ l) as [[h' n'] ch']. destruct IH as (I1 & I2 & I3 & I4 & I5).
    assert (Hlt : (pendings (hold i why (h1, n1)).1 < pendings h1)%nat).
    { unfold pendings. apply (count_lt _ _ _ i).
      - intros x _. simpl. destruct (decide (i = x)) as [<-|Hne]; [|by rewrite list_lookup_alter_ne].
        rewrite list_lookup_alter_eq, Hit. done.
      - set_solver.
      - simpl. by rewrite list_lookup_alter_eq, Hit.
      - rewrite Hit. by apply no_status_true. }
    split_and!; [done|intros k Hk; by apply I2, (held_stays i why (h1, n1))|intros Hc; by destruct (I3 Hc)|right; simpl; lia|simpl; lia].
Qed.

Lemma hold_loop_spec fuel st :
  guarded st.1 → (pendings st.1 < fuel)%nat →
  let st' := hold_loop fuel items st in
  guarded st'.1 ∧ (∀ j, held_at st.1 j = true → held_at st'.1 j = true) ∧
  (∀ i it j, i ∈ items → st'.1 !! i = Some it → pending it → it_after it = Some j → held_at st'.1 j = false).
Proof.
  revert st. induction fuel as [|fuel IH]; intros st Hg Hf; [lia|]. simpl.
  pose proof (dependents_round items st false ltac:(done) Hg) as Hr.
  destruct (foldl hold_dependents (st, false) items) as [[h' n'] ch']. destruct Hr as (I1 & I2 & I3 & I4 & I5).
  destruct ch'.
  - destruct (IH (h', n') I1) as (J1 & J2 & J3); [simpl; destruct (I4 eq_refl); [done|lia]|].
    split_and!; [done|intros j Hj; by apply J2, I2|done].
  - destruct (I3 eq_refl) as (_ & -> & -> & Hall). simpl. split_and!; [done|done|done].
Qed.

(** What must be held is held at the end. *)
Lemma must_hold_held h' :
  guarded h' →
  (∀ j jt, h !! j = Some jt → it_status jt = ItemHeld → held_at h' j = true) →
  (∀ i it, i ∈ items → h !! i = Some it → pending it → (limited && it_change it) || it_shrink it = true → held_at h' i = true) →
  (∀ i it j, i ∈ items → h' !! i = Some it → pending it → it_after it = Some j → held_at h' j = false) →
  ∀ i, must_hold i → held_at h' i = true.
Proof.
  intros Hg Hb Hd Hc. induction 1 as [i it Hi Hit Hp Hw|i it j jt Hi Hit Hp Ha Hj Hs|i it j Hi Hit Hp Ha Hm IH]; [by eapply Hd|..].
  all: destruct (guarded_lookup _ _ _ Hg Hit) as [E|(_ & why & E)]; [|by unfold held_at; rewrite E].
  - pose proof (Hb _ _ Hj Hs) as H1. rewrite (Hc _ _ _ Hi E Hp Ha) in H1. done.
  - rewrite (Hc _ _ _ Hi E Hp Ha) in IH. done.
Qed.
End guard.

(** ** Theorems *)

Lemma applyGuard_guarded h items live s :
  let r := applyGuard h items live s false in
  guarded h items (g_limited r.1) r.2 ∧ (∀ i, must_hold h items (g_limited r.1) i → held_at r.2 i = true).
Proof.
  unfold applyGuard. simpl. set (changes := countChanges h items). set (limited := (_ || _)).
  pose proof (direct_loop h items limited changes items (h, 0) ltac:(done) (guarded_refl _ _ _)) as (D1 & D2 & D3).
  set (st := foldl (hold_direct limited changes) (h, 0) items) in *.
  assert (Hfuel : (pendings items st.1 < S (length items))%nat) by (unfold pendings; pose proof (count_bound (λ i, match st.1 !! i with Some it => no_status it | None => false end) items); lia).
  destruct (hold_loop_spec h items limited _ st D1 Hfuel) as (L1 & L2 & L3).
  split; [exact L1|]. eapply must_hold_held; [exact L1| | |exact L3].
  - intros j jt Hj Hs. apply L2, D2. unfold held_at. simpl. rewrite Hj. by apply bool_decide_eq_true.
  - intros i it Hi Hit Hp Hw. by eapply L2, D3.
Qed.

Lemma countChanges_count h items :
  Z.of_nat (length items) < 2^63 →
  countChanges h items = Z.of_nat (count (λ i, match h !! i with Some it => it_change it && no_status it | None => false end) items).
Proof.
  unfold countChanges. set (p := λ i, match h !! i with Some it => it_change it && no_status it | None => false end).
  induction items as [|i l IH] using rev_ind; intros Hl; [done|].
  rewrite length_app in Hl. simpl in Hl. rewrite foldl_snoc, IH, count_app by lia.
  pose proof (count_bound p l) as Hb.
  assert (Hi : (match h !! i with Some it => if it_change it && no_status it then i64 (Z.of_nat (count p l) + 1) else Z.of_nat (count p l)
                | None => Z.of_nat (count p l) end) = if p i then i64 (Z.of_nat (count p l) + 1) else Z.of_nat (count p l))
    by (unfold p; destruct (h !! i); done).
  rewrite Hi. unfold count at 4. simpl. destruct (p i); simpl; [|lia].
  rewrite i64_id; [lia|]. unfold in_i64, min_i64, max_i64. lia.
Qed.

(** The changes of a plan that can run, and the limits on them: more than so many percent of
    the source's live files and more than 20, or more than so many files. *)
Definition planned_changes (h : list planItem) (items : list nat) : Z :=
  Z.of_nat (length (omap (λ i, it ← h !! i; if decide (it_change it = true ∧ it_status it = NoStatus) then Some i else None) items)).
Definition over_limits (n live : Z) (s : Settings) : Prop := (MaxChangePercent s * live < 100 * n ∧ 20 < n) ∨ MaxChangeFiles s < n.

Lemma changes_counted h items : planned_changes h items = Z.of_nat (count (λ i, match h !! i with Some it => it_change it && no_status it | None => false end) items).
Proof.
  unfold planned_changes, count. f_equal. induction items as [|i l IH]; [done|]. cbn [List.filter omap list_omap].
  destruct (h !! i) as [it|]; cbn [mbind option_bind]; [|exact IH]. pose proof (no_status_true it) as Hs. destruct (decide _) as [[Hc Hp]|Hno].
  - rewrite Hc, (proj2 Hs Hp). cbn [andb length]. by f_equal.
  - destruct (it_change it), (no_status it); simpl; try exact IH. destruct Hno. split; [done|by apply Hs].
Qed.
Lemma guard_counts h items live s : Z.of_nat (length items) < 2^56 → in_i64 (MaxChangePercent s * live) →
  let r := (applyGuard h items live s false).1 in
  let n := planned_changes h items in g_changes r = n ∧ (g_limited r = true ↔ over_limits n live s).
Proof.
  intros Hlen Hpct r n. unfold r, applyGuard. simpl. rewrite countChanges_count by lia. unfold n. rewrite changes_counted.
  set (p := λ i, match h !! i with Some it => it_change it && no_status it | None => false end). split; [done|].
  pose proof (count_bound p items) as Hb. rewrite (i64_id (_ * 100)), (i64_id (MaxChangePercent s * live)) by (try done; unfold in_i64, min_i64, max_i64; lia).
  rewrite orb_true_iff, andb_true_iff, !Z.ltb_lt. unfold over_limits, minHeldChanges. lia.
Qed.

(** C27: The guard holds exactly what it must: without [allowChanges] an item of
    the plan is held if and only if it is pending and is a change of a plan over
    the limits, or a shrinking update, or depends (through any chain of [after]
    pointers) on an item that is held; every other item is left as planned. A plan is over
    the limits when its pending changes are more than [maxChangePercent] of the live files
    and more than 20, or more than [maxChangeFiles]. The loop over the dependents always
    ends. With [allowChanges] nothing is held. (The products fit in 64 bits.) *)
Theorem guard_holds_exactly (h : list planItem) (items : list nat) (live : Z) (s : Settings)
    (Hlen : Z.of_nat (length items) < 2^56) (Hpct : in_i64 (MaxChangePercent s * live)) :
  let r := applyGuard h items live s false in
  let n := planned_changes h items in
  ∃ limited : bool, (limited = true ↔ over_limits n live s) ∧ g_limited r.1 = limited ∧ g_changes r.1 = n ∧
  (∀ i, ¬ must_hold h items limited i → r.2 !! i = h !! i) ∧
  (∀ i, must_hold h items limited i → ∃ it why, h !! i = Some it ∧ r.2 !! i = Some (with_status ItemHeld why it)) ∧
  applyGuard h items live s true = (mkGuardResult n 0 false, h).
Proof.
  pose proof (applyGuard_guarded h items live s) as [Hg Hh]. cbv zeta in *. destruct (guard_counts h items live s Hlen Hpct) as [Hn Hl].
  exists (g_limited (applyGuard h items live s false).1). split; [done|]. split; [done|]. split; [done|].
  set (r := applyGuard h items live s false) in *. split_and!.
  - intros i Hno. destruct (Hg i) as [E|[Hm _]]; [done|]. by destruct Hno.
  - intros i Hm. destruct (Hg i) as [E|[_ (it & why & Hit & E)]]; [|by exists it, why].
    exfalso. specialize (Hh i Hm). unfold held_at in Hh. rewrite E in Hh.
    inversion Hm; simplify_eq; match goal with H : h !! i = Some _, Hp : pending _ |- _ => rewrite H in Hh; apply bool_decide_eq_true in Hh; unfold pending in Hp; congruence end.
  - rewrite <-Hn. done.
Qed.

(** What a sync may change without the user's consent (S10b): after the guard
    no shrinking update is left to run, and the changes left to run are none, or
    at most [maxChangeFiles] and at most the larger of 20 and [maxChangePercent]
    of the live files. *)
Theorem guard_bounds_changes (h : list planItem) (items : list nat) (live : Z) (s : Settings)
    (Hlen : Z.of_nat (length items) < 2^56) (Hpct : in_i64 (MaxChangePercent s * live)) :
  let r := applyGuard h items live s false in
  let left := countChanges r.2 items in
  (∀ i it, i ∈ items → r.2 !! i = Some it → it_status it = NoStatus → it_shrink it = false) ∧
  (left = 0 ∨
   (left ≤ MaxChangeFiles s ∧ (left ≤ minHeldChanges ∨ left * 100 ≤ MaxChangePercent s * live))).
Proof.
  intros r left. pose proof (applyGuard_guarded h items live s) as [Hg Hh]. cbv zeta in Hg, Hh. fold r in Hg, Hh.
  assert (Hpend : ∀ i it, i ∈ items → r.2 !! i = Some it → it_status it = NoStatus →
    h !! i = Some it ∧ (g_limited r.1 && it_change it) || it_shrink it = false).
  { intros i it Hi Hit Hp. pose proof (guarded_pending _ _ _ _ _ _ Hg Hit Hp) as Hi0. split; [done|].
    apply not_true_iff_false. intros Hw. specialize (Hh i (hold_change h items _ i it Hi Hi0 Hp Hw)).
    unfold held_at in Hh. rewrite Hit, Hp in Hh. done. }
  split.
  { intros i it Hi Hit Hp. destruct (Hpend i it Hi Hit Hp) as [_ H]. by apply orb_false_iff in H as [_ ?]. }
  assert (Hlen' : Z.of_nat (length items) < 2^63) by lia.
  unfold left. rewrite countChanges_count by done.
  set (q := λ i, match r.2 !! i with Some it => it_change it && no_status it | None => false end).
  destruct (g_limited r.1) eqn:Hlim.
  - left. enough (count q items = 0%nat) by lia. apply count_zero. intros i Hi. unfold q.
    destruct (r.2 !! i) as [it|] eqn:Hit; [|done]. destruct (no_status it) eqn:En; [|by rewrite andb_false_r].
    apply no_status_true in En. destruct (Hpend i it Hi Hit En) as [_ H]. apply orb_false_iff in H as [H _].
    simpl in H. by rewrite H.
  - right. set (p := λ i, match h !! i with Some it => it_change it && no_status it | None => false end).
    assert (Hle : (count q items ≤ count p items)%nat).
    { apply count_le. intros i Hi. unfold q, p. destruct (r.2 !! i) as [it|] eqn:Hit; [|done].
      intros Hc. apply andb_true_iff in Hc as [Hc En]. pose proof En as En'. apply no_status_true in En.
      destruct (Hpend i it Hi Hit En) as [-> _]. by rewrite Hc, En'. }
    unfold r, applyGuard in Hlim. simpl in Hlim. rewrite countChanges_count in Hlim by done. fold p in Hlim.
    pose proof (count_bound p items) as Hb.
    rewrite (i64_id (Z.of_nat (count p items) * 100)), (i64_id (MaxChangePercent s * live)) in Hlim
      by (try done; unfold in_i64, min_i64, max_i64; lia).
    apply orb_false_iff in Hlim as [H1 H2]. apply Z.ltb_ge in H2. apply andb_false_iff in H1 as [H1|H1]; apply Z.ltb_ge in H1; lia.
Qed.

(** A plan of 30 updates and a promote that waits for the first, in a source of
    100 files: over the limits, all of it is held. *)
Module GuardSample.
Definition det : Detail := mkDetail 1 "a" 10 0 "" 1 10 "" "" "" 0 ForNone RChanged false None 0 "" [].
Definition up : planItem := mkItem LPuts ActionUpdate "a" 1 10 det NoStatus NoError true false "" None.
Definition pr : planItem := mkItem LPromotes ActionPromote "b" 1 0 det NoStatus NoError false false "" (Some 0%nat).
Definition heap : list planItem := (repeat up 30 ++ [pr])%list.
Definition settings : Settings := mkSettings AdoptSizeMtime 0 20 500.

Example all_held : (fst (applyGuard heap (seq 0 31) 100 settings false), held_at (snd (applyGuard heap (seq 0 31) 100 settings false)) 30)
  = (mkGuardResult 30 31 true, true).
Proof. vm_compute. reflexivity. Qed.
End GuardSample.

Lemma guard_bounds_changes_witness :
  countChanges (snd (applyGuard GuardSample.heap (seq 0 31) 100 GuardSample.settings false)) (seq 0 31) ≤ 500.
Proof.
  destruct (guard_bounds_changes GuardSample.heap (seq 0 31) 100 GuardSample.settings) as [_ [H|[H _]]].
  - reflexivity.
  - split; discriminate.
  - rewrite H. discriminate.
  - exact H.
Defined.

Lemma guard_holds_exactly_witness :
  ∃ limited : bool, (limited = true ↔ over_limits 30 100 GuardSample.settings) ∧
    (∀ i, must_hold GuardSample.heap (seq 0 31) limited i →
       ∃ it why, GuardSample.heap !! i = Some it ∧ (applyGuard GuardSample.heap (seq 0 31) 100 GuardSample.settings false).2 !! i = Some (with_status ItemHeld why it)).
Proof.
  assert (Hlen : Z.of_nat (length (seq 0 31)) < 2^56) by reflexivity.
  assert (Hpct : in_i64 (MaxChangePercent GuardSample.settings * 100)) by (split; discriminate).
  destruct (guard_holds_exactly GuardSample.heap (seq 0 31) 100 GuardSample.settings Hlen Hpct) as (limited & Hl & _ & _ & _ & Hm & _).
  exists limited. split; [exact Hl|exact Hm].
Defined.
