(* ===== verification/SyncPlanPaths.v ===== *)
(** * SyncPlanPaths: where the items of a plan write

    What every item of a plan has, whatever the planner read: a path that a record has or that
    passed [NameCheck], unless it failed; and what it says of unknown tiers. *)
From stdpp Require Import base gmap list strings.
From S2P Require Import Prelude GoStrings Tiers DestNames SyncPlan SyncPlanFacts SyncPlanProps SyncGuard.
Open Scope string_scope.
Open Scope Z_scope.

(** Programs that leave the heap and what the destination can hold. *)
Definition heapless {A} (m : M A) : Prop := ∀ s a s', m s = Ok (a, s') → p_heap s' = p_heap s ∧ ni_caps (p_names s') = ni_caps (p_names s).
Lemma heapless_bind {A B} (m : M A) (k : A → M B) : heapless m → (∀ a, heapless (k a)) → heapless (bind m k).
Proof.
  intros Hm Hk s b s' E. unfold bind in E. destruct (m s) as [[a s1]|] eqn:E1; [|done].
  destruct (Hm _ _ _ E1), (Hk _ _ _ _ E). split; congruence.
Qed.
(** Steps that keep the heap, whatever they branch on. *)
Ltac heapless :=
  repeat first
    [ done
    | apply heapless_bind; [|intros ?]
    | progress unfold read_source, read_dest, stat_dest, check_ctx, warn, defer_one, add_nonFullNew, add_kept, add_released, add_stale, add_replaceChecked,
        set_promoteFor, set_itemOf
    | by intros ? ? ? [= <- <-]
    | match goal with |- heapless (if _ then _ else _) => case_match | |- heapless (match _ with _ => _ end) => case_match end ].

Lemma heapless_for_fold {A L} (l : list A) (v : L) (f : L → A → M L) : (∀ v a, heapless (f v a)) → heapless (for_fold l v f).
Proof. intros Hf. revert v. induction l as [|x l IH]; intros v; simpl; [heapless|]. apply heapless_bind; [apply Hf|]. intros. apply IH. Qed.

Section paths.
Context (c : config) (known : string → Prop).

Definition promoted (d : SyncPlan.Detail) : Prop := ∃ x, dt_Tier d = Some x ∧ d_UnknownPromoted x = true.
Record item_ok (it : planItem) : Prop := mkItemOk {
  io_path : it_status it = NoStatus → known (it_rel it);
  io_unknown : it_unknownWhy it ≠ "" → it_action it = ActionCopy ∧ promoted (it_d it);
  io_status : it_status it = NoStatus ∨ it_status it = ItemFailed;
}.
Definition caps_ok (s : planner) : Prop := ni_caps (p_names s) = c_caps c.
Definition heap_ok (s : planner) : Prop := Forall item_ok (p_heap s) ∧ caps_ok s.

(** From a heap whose items are ok, [m] leads to one, and its result has [Q]. *)
Definition lays {A} (m : M A) (Q : A → Prop) : Prop := ∀ s a s', heap_ok s → m s = Ok (a, s') → heap_ok s' ∧ Q a.
Definition lays_any {A} (m : M A) : Prop := lays m (λ _, True).

Lemma lays_weaken {A} (m : M A) (Q Q' : A → Prop) : lays m Q → (∀ a, Q a → Q' a) → lays m Q'.
Proof. intros Hm HQ s a s' Hs E. destruct (Hm s a s' Hs E). auto. Qed.
Lemma lays_ret {A} (a : A) (Q : A → Prop) : Q a → lays (ret a) Q.
Proof. by intros HQ s b s' Hs [= <- <-]. Qed.
Lemma lays_fail {A} e (Q : A → Prop) : lays (fail e) Q.
Proof. by intros s b s' Hs [=]. Qed.
Lemma lays_bind {A B} (m : M A) (k : A → M B) Q R : lays m Q → (∀ a, Q a → lays (k a) R) → lays (bind m k) R.
Proof.
  intros Hm Hk s b s' Hs E. unfold bind in E. destruct (m s) as [[a s1]|] eqn:E1; [|done].
  destruct (Hm _ _ _ Hs E1) as [Hs1 Ha]. by eapply Hk.
Qed.
Lemma lays_then {A B} (m : M A) (k : A → M B) R : lays_any m → (∀ a, lays (k a) R) → lays (bind m k) R.
Proof. intros Hm Hk. eapply lays_bind; [exact Hm|]. intros a _. apply Hk. Qed.
Lemma lays_heapless {A} (m : M A) : heapless m → lays_any m.
Proof. intros Hm s a s' [Hs Hc] E. destruct (Hm _ _ _ E) as [E1 E2]. unfold heap_ok, caps_ok. by rewrite E1, E2. Qed.
Lemma lays_for_fold {A L} (l : list A) (v : L) (f : L → A → M L) : (∀ v a, a ∈ l → lays_any (f v a)) → lays_any (for_fold l v f).
Proof.
  revert v. induction l as [|a l IH]; intros v Hf; simpl; [by apply lays_ret|].
  apply lays_then; [apply Hf; left|]. intros v'. apply IH. intros ? ? Hin. apply Hf. by right.
Qed.
Lemma lays_for_each {A} (l : list A) (f : A → M unit) : (∀ a, lays_any (f a)) → lays_any (for_each l f).
Proof. intros Hf. induction l as [|a l IH]; simpl; [by apply lays_ret|]. by apply lays_then. Qed.
Lemma lays_emit it : item_ok it → lays_any (emit it).
Proof. intros Hit s a s' [Hs Hc] [= <- <-]. split; [|done]. split; [|done]. simpl. apply Forall_app. split; [done|by constructor]. Qed.
Lemma lays_edit i f : (∀ x, item_ok x → item_ok (f x)) → lays_any (edit i f).
Proof. intros Hf s a s' [Hs Hc] [= <- <-]. split; [|done]. split; [|done]. simpl. apply Forall_alter; [done|]. intros x _. apply Hf. Qed.

(** *** The item made last *)

Lemma alter_last {A} (f : A → A) h x : alter f (length h) (h ++ [x])%list = (h ++ [f x])%list.
Proof. rewrite <-(Nat.add_0_r (length h)), alter_app_r. done. Qed.

Definition made (P : planItem → Prop) (i : nat) (s : planner) : Prop :=
  caps_ok s ∧ ∃ h x, p_heap s = (h ++ [x])%list ∧ i = length h ∧ Forall item_ok h ∧ P x.
Definition makes {A} (i : nat) (P : planItem → Prop) (m : M A) (P' : A → planItem → Prop) : Prop :=
  ∀ s a s', made P i s → m s = Ok (a, s') → made (P' a) i s'.
Lemma lays_make {A} it (k : nat → M A) (P : planItem → Prop) (P' : A → planItem → Prop) : P it → (∀ i, makes i P (k i) P') → (∀ a x, P' a x → item_ok x) →
  lays_any (bind (emit it) k).
Proof.
  intros Hit Hk HP s a s' [Hs Hc] E. unfold bind, emit in E. edestruct (Hk (length (p_heap s))) as (Hc' & h & x & Eh & _ & Hh & Hx); [|exact E|].
  { split; [done|]. by exists (p_heap s), it. }
  split; [|done]. split; [|done]. rewrite Eh. apply Forall_app. split; [done|]. constructor; [by eapply HP|done].
Qed.
Lemma makes_bind {A B} i P (m : M A) (k : A → M B) P' R : makes i P m P' → (∀ a, makes i (P' a) (k a) R) → makes i P (bind m k) R.
Proof. intros Hm Hk s b s' Hs E. unfold bind in E. destruct (m s) as [[a s1]|] eqn:E1; [|done]. eapply Hk; [|exact E]. by eapply Hm. Qed.
Lemma makes_heapless {A} i P (m : M A) : heapless m → makes i P m (λ _, P).
Proof. intros Hm s a s' (Hc & h & x & Eh & Hi & Hh & Hx) E. destruct (Hm _ _ _ E) as [E1 E2]. split; [by unfold caps_ok; rewrite E2|]. exists h, x. by rewrite E1. Qed.
Lemma makes_ret {A} i (P : planItem → Prop) (a : A) (P' : A → planItem → Prop) : (∀ x, P x → P' a x) → makes i P (ret a) P'.
Proof. intros HP s b s' (Hc & h & x & Eh & Hi & Hh & Hx) [= <- <-]. split; [done|]. exists h, x. auto. Qed.
Lemma makes_fail {A} i P e (P' : A → planItem → Prop) : makes i P (fail e) P'.
Proof. by intros s b s' _ [=]. Qed.
Lemma makes_edit i (P P' : planItem → Prop) f : (∀ x, P x → P' (f x)) → makes i P (edit i f) (λ _, P').
Proof.
  intros Hf s a s' (Hc & h & x & Eh & -> & Hh & Hx) [= <- <-]. split; [done|]. exists h, (f x). split_and!; [|done..|auto].
  simpl. by rewrite Eh, alter_last.
Qed.
(** Name checks: the path can be stored, or the item has failed. *)
Definition checked_item (P : planItem → Prop) (ok : bool) (x : planItem) : Prop :=
  if ok then P x ∧ NameCheck (it_rel x) (c_caps c) = Ok tt else ∃ y e, P y ∧ x = fail_item e y.
Lemma ni_add_caps fold n rel : ni_caps (ni_add fold n rel) = ni_caps n.
Proof. unfold ni_add. destruct (negb _); [done|]. by destruct (ni_folded n !! _). Qed.
Lemma makes_create i (P : planItem → Prop) dest self : (∀ x, P x → it_rel x = dest) → makes i P (create c dest self i) (checked_item P).
Proof.
  intros Hrel s a s' Hm. pose proof (proj1 Hm) as Hc. revert Hm. unfold create, bind, gets, modify, ret, warn. cbn -[ni_check].
  destruct (ni_check _ _ _ _) as [[]|e] eqn:E; cbn -[ni_check].
  - intros (_ & h & x & Eh & Hi & Hh & Hx) [= <- <-]. split; [unfold caps_ok; simpl; by rewrite ni_add_caps|]. exists h, x. split_and!; [done..|].
    split; [done|]. rewrite (Hrel _ Hx), <-Hc. unfold ni_check in E. by destruct (NameCheck _ _) as [[]|].
  - intros Hm [= <- <-].
    destruct (makes_edit i P (λ x, checked_item P false x) (fail_item (CannotCreate e)) ltac:(intros x Hx; by exists x, (CannotCreate e)) s tt _ Hm eq_refl)
      as (_ & h & x & Eh & Hi & Hh & Hx). split; [done|]. by exists h, x.
Qed.

(** ** The operations *)

Context (files : list planFile).
Hypothesis recs_known : ∀ r, r ∈ c_recs c → known (r_RelPath r).
Hypothesis files_known : ∀ f, f ∈ files → NameCheck (destPath c (pf_rel f)) (c_caps c) = Ok tt → known (destPath c (pf_rel f)).
Hypothesis files_recs : ∀ f r, f ∈ files → pf_rec f = Some r → r ∈ c_recs c.
Hypothesis real_run : c_dryRun c = false.

Lemma deps_recs id d : d ∈ deps c id → d ∈ c_recs c.
Proof. intros [Hd _]%filter_bool_elem. done. Qed.
Lemma surviving_recs r d : d ∈ surviving c files r → d ∈ c_recs c.
Proof. intros [Hd _]%filter_bool_elem. by eapply deps_recs. Qed.
Lemma vanished_recs v : v ∈ vanished c files → v ∈ c_recs c.
Proof. by intros [Hv _]%filter_bool_elem. Qed.
Lemma pickTarget_in d0 l : pickTarget d0 l ∈ (d0 :: l)%list.
Proof. unfold pickTarget. destruct (List.find _ _) as [x|] eqn:E; simpl; [|left]. apply find_some in E as [E _]. by apply list_elem_of_In. Qed.

Lemma item_at it : it_status it = NoStatus → known (it_rel it) → it_unknownWhy it = "" → item_ok it.
Proof. intros Hs Hk Hu. split; [done| |by left]. by rewrite Hu. Qed.
Lemma item_failed it e : item_ok it → item_ok (fail_item e it).
Proof. intros [_ Hu _]. split; [done|done|by right]. Qed.
Lemma checked_ok (P : planItem → Prop) ok x : (∀ y, P y → it_status y = NoStatus → NameCheck (it_rel y) (c_caps c) = Ok tt → known (it_rel y)) →
  (∀ y, P y → it_unknownWhy y = "" ∧ it_status y = NoStatus) → checked_item P ok x → item_ok x.
Proof.
  intros Hk Hn. destruct ok; simpl; [intros [Hx Hc]; destruct (Hn _ Hx); apply item_at; auto|].
  intros (y & e & Hy & ->). destruct (Hn _ Hy) as [Hu _]. split; [done| |by right]. simpl. by rewrite Hu.
Qed.

Lemma lays_retain v : v ∈ c_recs c → lays_any (retain c v).
Proof. intros Hv. apply lays_emit, item_at; [done|by apply recs_known|done]. Qed.
Lemma lays_promote v t what : t ∈ c_recs c → lays_any (promote c v t what).
Proof. intros Ht. apply lays_emit, item_at; [done|by apply recs_known|done]. Qed.
Lemma lays_update f r : r ∈ c_recs c → lays_any (update c f r).
Proof. intros Hr. apply lays_then; [apply lays_emit, item_at; [done|apply recs_known; by auto|done]|]. intros i. apply lays_heapless. heapless. Qed.
Lemma unknown_why_promoted f reason : unknown_why f ≠ "" → promoted (fileDetail c f reason).
Proof.
  unfold unknown_why, promoted. intros H. simpl. destruct (pf_dec f) as [d|]; [|done]. exists d. split; [done|]. by destruct (d_UnknownPromoted d).
Qed.
Lemma lays_repair f r : r ∈ c_recs c → lays_any (repair c f r).
Proof.
  intros Hr. apply lays_then; [|intros i; apply lays_heapless; heapless]. apply lays_emit. split; simpl; [by intros; apply recs_known| |by left].
  intros Hu. split; [done|]. by apply unknown_why_promoted.
Qed.
Lemma lays_move f v : f ∈ files → lays_any (move c f v).
Proof.
  intros Hf. set (P x := it_rel x = destPath c (pf_rel f) ∧ it_unknownWhy x = "" ∧ it_status x = NoStatus).
  apply (lays_make _ _ P (λ _ x, ∃ ok, checked_item P ok x)); [by repeat split| |].
  - intros i. eapply makes_bind; [apply makes_create; by intros x []|]. intros ok s a s' Hm E.
    destruct (makes_heapless i _ (set_itemOf (pf_rel f) i) ltac:(heapless) s a s' Hm E) as (Hc & h & x & ? & ? & ? & ?). split; [done|]. exists h, x. eauto.
  - intros _ x [ok Hx]. eapply checked_ok; [| |exact Hx]; [|by intros y (_ & ? & ?)]. intros y (-> & _ & _) _. by apply files_known.
Qed.
Lemma lays_link f prim r : f ∈ files → (∀ q, r = Some q → q ∈ c_recs c) → lays_any (link c f prim r).
Proof.
  intros Hf Hr. unfold link. destruct r as [r|]; [apply lays_emit, item_at; [done|apply recs_known; by auto|done]|].
  set (P x := it_rel x = destPath c (pf_rel f) ∧ it_unknownWhy x = "" ∧ it_status x = NoStatus).
  apply (lays_make _ _ P (λ _ x, ∃ ok, checked_item P ok x)); [by repeat split| |].
  - intros i. eapply makes_bind; [apply makes_create; by intros x []|]. intros ok. apply makes_ret. eauto.
  - intros _ x [ok Hx]. eapply checked_ok; [| |exact Hx]; [|by intros y (_ & ? & ?)]. intros y (-> & _ & _) _. by apply files_known.
Qed.

(** A new file: its item is checked, then becomes an adoption, a displacement or a copy. *)
Definition new_item (f : planFile) (x : planItem) : Prop :=
  it_rel x = destPath c (pf_rel f) ∧ it_status x = NoStatus ∧ it_action x = ActionCopy ∧ it_unknownWhy x = "" ∧ dt_Tier (it_d x) = pf_dec f.
Lemma lays_newFile f : f ∈ files → lays_any (newFile c f).
Proof.
  intros Hf. apply (lays_make _ _ (new_item f) (λ _, item_ok)); [by repeat split| |done]. intros i.
  assert (Hok : ∀ ok x, checked_item (new_item f) ok x → item_ok x).
  { intros ok x. apply checked_ok; [|by intros y (_ & ? & _ & ? & _)]. intros y (-> & _) _. by apply files_known. }
  apply (makes_bind _ _ _ _ (λ _, new_item f)); [apply makes_heapless; heapless|]. intros _.
  eapply makes_bind; [apply makes_create; by intros x []|]. intros [|]; [|by apply makes_ret; eauto]. simpl.
  eapply makes_bind; [apply makes_heapless; heapless|]. intros st.
  assert (Hcopy : ∀ P, (∀ x, P x → new_item f x ∧ item_ok x) → makes i P (unknownCopy i f) (λ _, item_ok)).
  { intros P HP. unfold unknownCopy. destruct (unknown_promoted f) eqn:Eu; [|apply makes_ret; intros x Hx; by apply HP]. apply makes_edit.
    intros x Hx. destruct (HP x Hx) as ((Hr & Hst & Ha & Hw & Hd) & [Hk _ Hs]). rewrite Ha, bool_decide_eq_true_2 by done.
    split; simpl; [done| |done]. intros _. split; [done|]. unfold promoted, unknown_promoted in *. rewrite Hd. destruct (pf_dec f) as [d|]; [by exists d|done]. }
  assert (Htrue : ∀ x, checked_item (new_item f) true x → new_item f x ∧ item_ok x) by (intros x Hx; split; [apply Hx|by apply (Hok true)]).
  destruct st as [[st|]|[|]]; [|by apply Hcopy|by apply makes_fail|by apply makes_ret; intros x Hx; apply Htrue].
  destruct (negb _).
  { apply (makes_bind _ _ _ _ (λ _, item_ok)); [apply makes_edit; intros x Hx; by apply item_failed, Htrue|]. intros _. apply makes_heapless. heapless. }
  destruct (adoptable _ _ _ _ _).
  { apply makes_edit. intros x Hx. destruct (Htrue x Hx) as ((Hr & Hst & Ha & Hw & Hd) & [Hk _ Hs]). split; simpl; [done| |done]. by rewrite Hw. }
  apply (makes_bind _ _ _ _ (λ _ x, new_item f x ∧ item_ok x)); [|intros _; by apply Hcopy].
  apply makes_edit. intros x Hx. destruct (Htrue x Hx) as ((Hr & Hst & Ha & Hw & Hd) & [Hk Hu Hs]). split; [by repeat split|]. split; simpl; [done| |done]. by rewrite Hw.
Qed.

Lemma lays_tierItem f why r : lays_any (tierItem c f why r).
Proof. unfold tierItem. rewrite real_run. by apply lays_ret. Qed.
Lemma lays_release_item f r rev : r ∈ c_recs c → lays_any (release_item c f r rev).
Proof.
  intros Hr. apply lays_then; [apply lays_emit, item_at; [done|by apply recs_known|done]|]. intros i. apply lays_heapless. heapless.
Qed.
Lemma lays_keep f r : r ∈ c_recs c → lays_any (keep c f r).
Proof.
  intros Hr. unfold keep. case_bool_decide; [by apply lays_ret|]. apply lays_then; [apply lays_heapless; heapless|]. intros _.
  apply lays_then; [apply lays_tierItem|]. intros _. destruct (c_release c) as [rp|]; [|by apply lays_ret].
  destruct (rp_all rp); [by apply lays_release_item|]. destruct (rp_allowed rp !! _) as [w|]; [|by apply lays_ret].
  destruct (negb (matches w r)); [by apply lays_ret|]. destruct (negb _); [apply lays_heapless; heapless|by apply lays_release_item].
Qed.

(** The edits of items that are there. *)
Lemma with_after_ok a x : item_ok x → item_ok (with_after a x).
Proof. by intros [? ? ?]. Qed.
Lemma with_change_ok b x : item_ok x → item_ok (with_change b x).
Proof. by intros [? ? ?]. Qed.
Lemma with_d_ok d x : (promoted (it_d x) → promoted d) → item_ok x → item_ok (with_d d x).
Proof. intros Hd [? Hu ?]. split; [done| |done]. intros Hw. destruct (Hu Hw). split; [done|by apply Hd]. Qed.

Lemma lays_planVanished v st : v ∈ c_recs c → lays_any (planVanished c files v st).
Proof.
  intros Hv. unfold planVanished. destruct st as [pt nr]. assert (Hret := lays_retain v Hv).
  case_bool_decide; [apply lays_then; [done|intros; by apply lays_ret]|]. case_bool_decide; [apply lays_then; [done|intros; by apply lays_ret]|].
  destruct (surviving c files v) as [|d0 rest] eqn:Es; [apply lays_then; [done|intros; by apply lays_ret]|].
  assert (Ht : pickTarget d0 rest ∈ c_recs c) by (apply (surviving_recs v); rewrite Es; apply pickTarget_in).
  apply lays_then; [by apply lays_promote|]. intros pr. apply lays_then; [|intros; by apply lays_ret].
  case_bool_decide; [apply lays_then; [done|]; intros i|]; apply lays_edit; intros; [by apply with_after_ok|by apply with_change_ok].
Qed.
Lemma lays_vanished_one mf mv st v : v ∈ c_recs c → lays_any (plan_vanished_one c files mf mv st v).
Proof.
  intros Hv. unfold plan_vanished_one. case_bool_decide; [by apply lays_ret|]. destruct (_ && _); [|by apply lays_planVanished].
  apply lays_heapless. heapless.
Qed.
Lemma lays_promote_changed pt f : f ∈ files → lays_any (promote_changed c files pt f).
Proof.
  intros Hf. unfold promote_changed. destruct (pf_rec f) as [r|]; [|by apply lays_ret]. destruct (_ || _ || _); [by apply lays_ret|].
  destruct (surviving c files r) as [|d0 rest] eqn:Es; [by apply lays_ret|].
  assert (Ht : pickTarget d0 rest ∈ c_recs c) by (apply (surviving_recs r); rewrite Es; apply pickTarget_in).
  apply lays_then; [by apply lays_promote|]. intros pr. apply lays_heapless. heapless.
Qed.
Lemma lays_damaged_primary st f : f ∈ files → lays_any (damaged_primary c files st f).
Proof.
  intros Hf. unfold damaged_primary. destruct (pf_rec f) as [r|] eqn:Er; [|by apply lays_ret]. case_bool_decide; [|by apply lays_ret].
  apply lays_for_fold. intros [lost nr] d Hd%surviving_recs. unfold damaged_dependent. destruct (byRel _ _) as [df|]; [|by apply lays_ret].
  destruct (negb (full df)); [by apply lays_ret|]. destruct (_ && _ && _); [|by apply lays_ret].
  apply lays_then; [by apply lays_repair|]. intros _. by apply lays_ret.
Qed.

Lemma lays_after_promote r i : lays_any (after_promote r i).
Proof.
  apply lays_then; [apply lays_heapless; heapless|]. intros pf. destruct (pf !! r_ID r); [|by apply lays_ret].
  apply lays_edit. intros; by apply with_after_ok.
Qed.
Lemma lays_plan_full e f : f ∈ files → lays_any (plan_full c files e f).
Proof.
  intros Hf. unfold plan_full.
  assert (Hlink : ∀ r, (∀ q, r = Some q → q ∈ c_recs c) → lays_any (let* it := link c f (primary_of files e f) r in ret (Some it))).
  { intros r Hr. apply lays_then; [by apply lays_link|]. intros; by apply lays_ret. }
  assert (Hthen : ∀ m : M unit, lays_any m → lays_any (m ;; ret (None (A := nat)))) by (intros m Hm; apply lays_then; [done|intros; by apply lays_ret]).
  destruct (pf_rec f) as [r|] eqn:Er.
  - assert (Hr : r ∈ c_recs c) by (by eapply files_recs). assert (Hs : ∀ q, Some r = Some q → q ∈ c_recs c) by (by intros ? [= <-]).
    pose proof (lays_repair f r Hr) as Hrep.
    case_bool_decide.
    { apply lays_then; [apply lays_heapless; heapless|]. intros io. destruct (io !! pf_rel f); [by apply lays_ret|by apply Hthen]. }
    case_bool_decide.
    { case_bool_decide; [by apply Hthen|]. apply lays_then; [by apply lays_link|]. intros it. apply lays_then; [|intros; by apply lays_ret].
      apply lays_edit. intros x Hx. apply with_d_ok; [done|]. by apply with_change_ok. }
    case_bool_decide; [case_bool_decide; [by apply Hthen|by apply Hlink]|]. destruct (pf_unchanged f); [by apply lays_ret|].
    case_bool_decide.
    + apply lays_then; [by apply lays_update|]. intros up. apply Hthen, lays_after_promote.
    + apply lays_then; [by apply lays_link|]. intros it. apply lays_then; [apply lays_after_promote|]. intros; by apply lays_ret.
  - destruct (e_moveFrom e !! pf_rel f); [by apply Hthen, lays_move|]. case_bool_decide; [by apply Hthen, lays_newFile|by apply Hlink].
Qed.
Lemma lays_plan_file e links f : f ∈ files → lays_any (plan_file c files e links f).
Proof.
  intros Hf. unfold plan_file. apply lays_then; [apply lays_heapless; heapless|]. intros _. destruct (_ || _).
  - apply lays_then; [apply lays_heapless; heapless|]. intros _. apply lays_then; [by apply lays_plan_full|]. intros; by apply lays_ret.
  - apply lays_then; [|intros; by apply lays_ret]. destruct (pf_rec f) as [r|] eqn:Er; [apply lays_keep; by eapply files_recs|].
    destruct (e_moveFrom e !! pf_rel f); [by apply lays_move|]. apply lays_then; [apply lays_heapless; heapless|]. intros _. apply lays_tierItem.
Qed.

Lemma heapless_try_moves f cands h mv : heapless (try_moves c f cands h mv).
Proof.
  revert h. induction cands as [|v cands IH]; intros h; simpl; [heapless|]. heapless; apply IH.
Qed.
Lemma heapless_pairMoves : heapless (pairMoves c files).
Proof.
  unfold pairMoves. case_bool_decide; [heapless|]. apply heapless_for_fold. intros [mf mv] f. unfold pair_move. destruct (negb _); [heapless|].
  apply heapless_bind; [apply heapless_try_moves|]. intros [v|]; heapless.
Qed.

(** The whole plan of files that have their records. *)
Lemma lays_plan_rest : lays_any (plan_rest c files).
Proof.
  unfold plan_rest. apply lays_then; [apply lays_heapless, heapless_pairMoves|]. intros [mf mv].
  apply lays_then; [apply lays_for_fold; intros st v Hv%vanished_recs; by apply lays_vanished_one|]. intros [pt nr].
  apply lays_then; [apply lays_for_fold; intros; by apply lays_promote_changed|]. intros pt'.
  apply lays_then; [apply lays_for_fold; intros; by apply lays_damaged_primary|]. intros [lost nr'].
  apply lays_then; [apply lays_for_fold; intros; by apply lays_plan_file|]. intros links.
  apply lays_then; [apply lays_for_each; intros l; apply lays_then; [apply lays_heapless; heapless|]; intros; apply lays_edit; intros; by apply with_after_ok|].
  intros _. apply lays_then; [apply lays_heapless; heapless|]. intros h. apply lays_for_each. intros i. apply lays_edit. intros x Hx.
  destruct (_ || _); [|done]. destruct (lost !! _) as [[|]|]; [done| |done]. by apply with_d_ok.
Qed.
End paths.

(** ** The plan of a source *)

Lemma recBySrc_in c rel r : recBySrc c rel = Some r → r ∈ c_recs c.
Proof.
  unfold recBySrc. induction (c_recs c) as [|x l IH] using rev_ind; [done|]. rewrite foldl_snoc, elem_of_app.
  case_bool_decide; [intros [= ->]; right; by left|left; by apply IH].
Qed.
Lemma heapless_match_records c files : heapless (match_records c files).
Proof.
  induction files as [|f files IH]; simpl; [heapless|]. apply heapless_bind; [|intros; apply heapless_bind; [done|intros; heapless]].
  unfold match_record, countTier. apply heapless_bind; [|intros; heapless]. destruct (recBySrc _ _); [|heapless]. cbv zeta.
  case_match; [|heapless]. apply heapless_bind; [unfold replacedInPlace; heapless|intros; heapless].
Qed.

Section plan.
Context (c : config) (known : string → Prop) (live : list planFile).
Hypothesis recs_known : ∀ r, r ∈ c_recs c → known (r_RelPath r).
Hypothesis live_known : ∀ f, f ∈ live → NameCheck (destPath c (pf_rel f)) (c_caps c) = Ok tt → known (destPath c (pf_rel f)).
Hypothesis fresh : Forall (λ f, pf_rec f = None ∧ pf_replaced f = false) live.
Hypothesis real_run : c_dryRun c = false.

Lemma plan_heap names u s : ni_caps names = c_caps c → plan c live (start names) = Ok (u, s) → heap_ok c known s.
Proof.
  intros Hn E. unfold plan, bind in E. destruct (match_records c live (start names)) as [[fs s1]|] eqn:E1; [|done].
  destruct (heapless_match_records _ _ _ _ _ E1) as [Eh Ec]. pose proof (match_records_matched c live fresh _ _ _ E1) as Hm.
  assert (Hp : planned c live (drop_singles fs)) by (by exists fs).
  edestruct (lays_plan_rest c known (drop_singles fs) recs_known) as [Hs _]; [| |done| |exact E|exact Hs].
  - intros f (g & Hg & Hf)%(planned_elem _ _ _ _ Hp). rewrite (ma_rel _ _ _ Hf). by apply live_known.
  - intros f r (g & Hg & Hf)%(planned_elem _ _ _ _ Hp). rewrite (ma_rec _ _ _ Hf). apply recBySrc_in.
  - unfold heap_ok, caps_ok. rewrite Eh, Ec. by split; [constructor|].
Qed.
(** What the guard holds is not pending either. *)
Lemma guard_heap h ids n s allow i it : Forall (item_ok known) h → (applyGuard h ids n s allow).2 !! i = Some it →
  it_status it ≠ ItemPending ∧ (it_status it = NoStatus → item_ok known it).
Proof.
  intros Hh Hi. rewrite Forall_forall in Hh.
  assert (Hplan : h !! i = Some it → it_status it ≠ ItemPending ∧ (it_status it = NoStatus → item_ok known it)).
  { intros Hit. assert (Hok : item_ok known it) by (by eapply Hh, list_elem_of_lookup_2). split; [|done]. by destruct Hok as [_ _ [->| ->]]. }
  destruct allow; [by apply Hplan|]. destruct (applyGuard_guarded h ids n s) as [Hg _]. destruct (Hg i) as [E|(_ & x & why & _ & E)].
  - apply Hplan. congruence.
  - rewrite Hi in E. by injection E as ->.
Qed.
End plan.
