(* ===== verification/SyncPlanKept.v ===== *)
(** * SyncPlanKept: what a plan does about the files that are kept

    Every item of a plan with the records and the paths it mentions, from which follows what
    a plan can do about a file that is not full at the destination but has a record there
    (S15): nothing but what keeps its content. *)
From stdpp Require Import base gmap list strings.
From S2P Require Import Prelude GoStrings Tiers DestNames SyncPlan SyncPlanFacts SyncPlanProps SyncPlanPaths.
Open Scope string_scope.
Open Scope Z_scope.

(** ** What an item mentions *)

Section mentions.
Context (c : config) (live : list planFile).

(** [t] is a hardlink of the record [v], its name is still there, with the version of [t]. *)
Definition holds (v t : Rec) : Prop :=
  t ∈ c_recs c ∧ r_LinkOf t = r_ID v ∧ (r_State t = StateLinked ∨ r_State t = StateLinkRecorded) ∧
  ∃ g, g ∈ live ∧ pf_rel g = r_SourceRelPath t ∧ same_version c g t = true.
(** The full file [g] comes back in another version than the damaged primary [v] and its hardlink [t] had. *)
Definition replaces (g : planFile) (v t : Rec) : Prop :=
  g ∈ live ∧ full g = true ∧ recBySrc c (pf_rel g) = Some v ∧ r_State v = StateMissing ∧ r_State t = StateLinkRecorded ∧ holds v t ∧
  ¬ (pf_size g = r_Size t ∧ mtimeEqual c (pf_mtimeNs g) (r_MtimeNs t) = true).
Definition lost_by (primary id : Z) : Prop := ∃ g v t, replaces g v t ∧ primary = r_ID v ∧ id = r_ID t.

(** A promote is about a primary and gives its content to a hardlink of it. Another item is
    about one record, at its path, or about one file, at the path it has at the destination. *)
Record told (it : planItem) : Prop := mkTold {
  td_promote : it_list it = LPromotes →
    ∃ v t, v ∈ c_recs c ∧ holds v t ∧ dt_RecordID (it_d it) = r_ID v ∧ dt_TargetID (it_d it) = r_ID t ∧ it_rel it = r_RelPath t;
  td_other : it_list it ≠ LPromotes → dt_TargetID (it_d it) = 0 ∧
    ((∃ v, v ∈ c_recs c ∧ dt_RecordID (it_d it) = r_ID v ∧ it_rel it = r_RelPath v) ∨
     (∃ g, g ∈ live ∧ dt_Source (it_d it) = pf_rel g ∧ it_rel it = destPath c (pf_rel g)));
  td_lost id : id ∈ dt_LostLinks (it_d it) → lost_by (dt_RecordID (it_d it)) id;
}.

(** Edits that leave what an item mentions. *)
Lemma told_edit f it : it_list (f it) = it_list it → it_rel (f it) = it_rel it → dt_RecordID (it_d (f it)) = dt_RecordID (it_d it) →
  dt_TargetID (it_d (f it)) = dt_TargetID (it_d it) → dt_Source (it_d (f it)) = dt_Source (it_d it) → dt_LostLinks (it_d (f it)) = dt_LostLinks (it_d it) →
  told it → told (f it).
Proof. intros E1 E2 E3 E4 E5 E6 [Hp Ho Hl]. split; by rewrite ?E1, ?E2, ?E3, ?E4, ?E5, ?E6. Qed.

Definition tells {A} (m : M A) : Prop := ∀ s a s', Forall told (p_heap s) → m s = Ok (a, s') → Forall told (p_heap s').
Lemma tells_bind {A B} (m : M A) (k : A → M B) : tells m → (∀ a, tells (k a)) → tells (bind m k).
Proof. intros Hm Hk s b s' Hs E. unfold bind in E. destruct (m s) as [[a s1]|] eqn:E1; [|done]. eapply Hk; [|exact E]. by eapply Hm. Qed.
Lemma tells_bind_ret {A B} (m : M A) (k : A → M B) (P : A → Prop) : tells m → returns m P → (∀ a, P a → tells (k a)) → tells (bind m k).
Proof.
  intros Hm Hr Hk s b s' Hs E. unfold bind in E. destruct (m s) as [[a s1]|] eqn:E1; [|done]. eapply Hk; [by eapply Hr| |exact E]. by eapply Hm.
Qed.
Lemma tells_heapless {A} (m : M A) : heapless m → tells m.
Proof. intros Hm s a s' Hs E. destruct (Hm _ _ _ E) as [-> _]. done. Qed.
Lemma tells_emit it : told it → tells (emit it).
Proof. intros Hit s a s' Hs [= <- <-]. simpl. apply Forall_app. split; [done|by constructor]. Qed.
Lemma tells_edit i f : (∀ x, told x → told (f x)) → tells (edit i f).
Proof. intros Hf s a s' Hs [= <- <-]. simpl. apply Forall_alter; [done|]. intros x _. apply Hf. Qed.
Lemma tells_edit_same i f : (∀ x, it_list (f x) = it_list x ∧ it_rel (f x) = it_rel x ∧ dt_RecordID (it_d (f x)) = dt_RecordID (it_d x) ∧
    dt_TargetID (it_d (f x)) = dt_TargetID (it_d x) ∧ dt_Source (it_d (f x)) = dt_Source (it_d x) ∧ dt_LostLinks (it_d (f x)) = dt_LostLinks (it_d x)) →
  tells (edit i f).
Proof. intros Hf. apply tells_edit. intros x. destruct (Hf x) as (? & ? & ? & ? & ? & ?). by apply told_edit. Qed.
Lemma tells_for_fold {A L} (l : list A) (v : L) (f : L → A → M L) : (∀ v a, a ∈ l → tells (f v a)) → tells (for_fold l v f).
Proof.
  revert v. induction l as [|a l IH]; intros v Hf; simpl; [by apply tells_heapless; heapless|].
  apply tells_bind; [apply Hf; left|]. intros v'. apply IH. intros ? ? Hin. apply Hf. by right.
Qed.
Lemma tells_for_each {A} (l : list A) (f : A → M unit) : (∀ a, tells (f a)) → tells (for_each l f).
Proof. intros Hf. induction l as [|a l IH]; simpl; [by apply tells_heapless; heapless|]. by apply tells_bind. Qed.

Lemma told_record it v : it_list it ≠ LPromotes → v ∈ c_recs c → dt_RecordID (it_d it) = r_ID v → it_rel it = r_RelPath v →
  dt_TargetID (it_d it) = 0 → dt_LostLinks (it_d it) = [] → told it.
Proof. intros Hl Hv Hid Hrel Ht Hn. split; [done| |rewrite Hn; by intros ? ?%elem_of_nil]. intros _. split; [done|]. left. eauto. Qed.
Lemma told_file it g : it_list it ≠ LPromotes → g ∈ live → dt_Source (it_d it) = pf_rel g → it_rel it = destPath c (pf_rel g) →
  dt_TargetID (it_d it) = 0 → dt_LostLinks (it_d it) = [] → told it.
Proof. intros Hl Hv Hid Hrel Ht Hn. split; [done| |rewrite Hn; by intros ? ?%elem_of_nil]. intros _. split; [done|]. right. eauto. Qed.

(** Programs of heapless steps and edits that leave what an item mentions. *)
Ltac tells :=
  repeat first
    [ done
    | apply tells_bind; [|intros ?]
    | progress unfold check_ctx, warn, defer_one, add_nonFullNew, add_kept, add_released, add_stale
    | apply tells_edit_same; intros ?; split_and!; (reflexivity || by case_match)
    | by apply tells_heapless; heapless
    | match goal with |- tells (if _ then _ else _) => case_match | |- tells (match _ with _ => _ end) => case_match end ].

Context (files : list planFile) (Hok : inputs_ok c live) (Hplanned : planned c live files).

Lemma file_source f : f ∈ files → ∃ g, g ∈ live ∧ pf_rel f = pf_rel g.
Proof. intros Hf. destruct (planned_elem _ _ _ _ Hplanned Hf) as (g & Hg & Hm). exists g. split; [done|apply Hm]. Qed.
Lemma file_record f r : f ∈ files → pf_rec f = Some r → r ∈ c_recs c.
Proof. intros Hf Hr. by apply (file_rec c live files Hok Hplanned f). Qed.
Lemma surviving_holds v t : t ∈ surviving c files v → holds v t.
Proof.
  intros Hs. destruct (surviving_file c files v t Hs) as (Ht & Hl & Hst & f & r & Hf & _ & Hr & Hid & Hu).
  destruct (file_rec c live files Hok Hplanned f r Hf Hr) as [Hin Hsrc]. assert (r = t) as -> by (eapply recs_inj; eauto; apply Hok).
  destruct (planned_elem _ _ _ _ Hplanned Hf) as (g & Hg & Hm). split_and!; [done..|]. exists g. split; [done|]. split; [by rewrite Hsrc, (ma_rel _ _ _ Hm)|].
  rewrite (ma_unchanged _ _ _ Hm) in Hu. rewrite <-(ma_rec _ _ _ Hm), Hr in Hu. by apply andb_true_iff in Hu as [Hu _].
Qed.
Lemma target_holds v d0 rest : surviving c files v = d0 :: rest → holds v (pickTarget d0 rest).
Proof. intros Es. apply surviving_holds. rewrite Es. apply pickTarget_in. Qed.

(** *** The operations *)

Lemma tells_retain v : v ∈ c_recs c → tells (retain c v).
Proof. intros Hv. by eapply tells_emit, told_record. Qed.
Lemma tells_promote v t what : v ∈ c_recs c → holds v t → tells (promote c v t what).
Proof. intros Hv Ht. apply tells_emit. split; [|done|by intros ? ?%elem_of_nil]. intros _. by exists v, t. Qed.
Lemma tells_update f r : r ∈ c_recs c → tells (update c f r).
Proof. intros Hr. apply tells_bind; [by eapply tells_emit, told_record|]. intros i. tells. Qed.
Lemma tells_repair f r : r ∈ c_recs c → tells (repair c f r).
Proof. intros Hr. apply tells_bind; [by eapply tells_emit, told_record|]. intros i. tells. Qed.
Lemma tells_create dest self i : tells (create c dest self i).
Proof.
  unfold create. apply tells_bind; [by apply tells_heapless; heapless|]. intros n. destruct (ni_check _ _ _ _); [|tells].
  apply tells_heapless. intros s1 u1 s2 [= <- <-]. split; [done|]. simpl. apply ni_add_caps.
Qed.
Lemma tells_move f v : f ∈ files → tells (move c f v).
Proof.
  intros Hf. destruct (file_source f Hf) as (g & Hg & E). unfold move. apply tells_bind; [eapply tells_emit, (told_file _ g); simpl; congruence|]. intros i.
  apply tells_bind; [apply tells_create|]. intros _. tells.
Qed.
Lemma tells_link f prim r : f ∈ files → (∀ q, r = Some q → q ∈ c_recs c) → tells (link c f prim r).
Proof.
  intros Hf Hr. destruct (file_source f Hf) as (g & Hg & E). unfold link. destruct r as [r|]; [by eapply tells_emit, (told_record _ r); auto|].
  apply tells_bind; [eapply tells_emit, (told_file _ g); simpl; congruence|]. intros i. apply tells_bind; [apply tells_create|]. intros _. tells.
Qed.
Lemma tells_newFile f : f ∈ files → tells (newFile c f).
Proof.
  intros Hf. destruct (file_source f Hf) as (g & Hg & E). unfold newFile. apply tells_bind; [eapply tells_emit, (told_file _ g); simpl; congruence|]. intros i.
  apply tells_bind; [tells|]. intros _. apply tells_bind; [apply tells_create|]. intros ok. destruct (negb ok); [tells|].
  apply tells_bind; [tells|]. intros st. unfold unknownCopy. tells.
Qed.
Lemma tells_tierItem f why r : f ∈ files → (∀ q, r = Some q → q ∈ c_recs c) → tells (tierItem c f why r).
Proof.
  intros Hf Hr. destruct (file_source f Hf) as (g & Hg & E). unfold tierItem. destruct (negb _); [tells|]. destruct r as [r|]; (apply tells_bind; [|intros; tells]).
  - by eapply tells_emit, (told_record _ r); auto.
  - eapply tells_emit, (told_file _ g); simpl; congruence.
Qed.
Lemma tells_keep f r : f ∈ files → r ∈ c_recs c → tells (keep c f r).
Proof.
  intros Hf Hr. unfold keep. case_bool_decide; [tells|]. apply tells_bind; [tells|]. intros _.
  apply tells_bind; [by apply tells_tierItem; [|intros ? [= <-]]|]. intros _.
  assert (Hrel : ∀ rev, tells (release_item c f r rev)).
  { intros rev. apply tells_bind; [by eapply tells_emit, told_record|]. intros i. tells. }
  destruct (c_release c) as [rp|]; [|tells]. destruct (rp_all rp); [done|]. destruct (rp_allowed rp !! _) as [w|]; [|tells].
  destruct (negb (matches w r)); [tells|]. destruct (negb _); [tells|done].
Qed.
Lemma tells_vanished_one mf mv st v : v ∈ c_recs c → tells (plan_vanished_one c files mf mv st v).
Proof.
  intros Hv. unfold plan_vanished_one. case_bool_decide; [tells|]. destruct (_ && _); [tells|]. unfold planVanished. destruct st as [pt nr].
  pose proof (tells_retain v Hv) as Hret. case_bool_decide; [tells|]. case_bool_decide; [tells|].
  destruct (surviving c files v) as [|d0 rest] eqn:Es; [tells|]. apply tells_bind; [by apply tells_promote, target_holds|]. intros pr. tells.
Qed.
Lemma tells_promote_changed pt f : f ∈ files → tells (promote_changed c files pt f).
Proof.
  intros Hf. unfold promote_changed. destruct (pf_rec f) as [r|] eqn:Er; [|tells]. destruct (_ || _ || _); [tells|].
  destruct (surviving c files r) as [|d0 rest] eqn:Es; [tells|]. apply tells_bind; [apply tells_promote; [by eapply file_record|by apply target_holds]|]. intros pr. tells.
Qed.
Lemma tells_after_promote r i : tells (after_promote r i).
Proof. unfold after_promote. tells. Qed.
Lemma tells_plan_full e f : f ∈ files → tells (plan_full c files e f).
Proof.
  intros Hf. unfold plan_full.
  assert (Hlink : ∀ r, (∀ q, r = Some q → q ∈ c_recs c) → tells (link c f (primary_of files e f) r)) by (intros; by apply tells_link).
  destruct (pf_rec f) as [r|] eqn:Er.
  - assert (Hr : r ∈ c_recs c) by (by eapply file_record). assert (Hs : ∀ q, Some r = Some q → q ∈ c_recs c) by (by intros ? [= <-]).
    pose proof (tells_repair f r Hr) as Hrep. pose proof (Hlink _ Hs) as Hl. pose proof (tells_update f r Hr). pose proof (tells_after_promote r) as Ha. tells.
    all: by apply tells_heapless; heapless.
  - specialize (Hlink None ltac:(done)). pose proof (tells_newFile f Hf). pose proof (λ v, tells_move f v Hf). tells.
Qed.
Lemma tells_plan_file e links f : f ∈ files → tells (plan_file c files e links f).
Proof.
  intros Hf. unfold plan_file. apply tells_bind; [tells|]. intros _. destruct (_ || _).
  - apply tells_bind; [tells|]. intros _. apply tells_bind; [by apply tells_plan_full|]. intros it. tells.
  - apply tells_bind; [|intros _; tells]. destruct (pf_rec f) as [r|] eqn:Er; [apply tells_keep; [done|by eapply file_record]|].
    destruct (e_moveFrom e !! pf_rel f); [by apply tells_move|]. apply tells_bind; [tells|]. intros _. by apply tells_tierItem.
Qed.

(** *** Damaged primaries *)

(** The hardlinks that lose their content, by the primary. *)
Definition losses (lost : gmap Z (list Z)) : Prop := ∀ primary ids id, lost !! primary = Some ids → id ∈ ids → lost_by primary id.

Lemma damaged_dependent_losses f r st d : f ∈ files → pf_rec f = Some r → r_State r = StateMissing → d ∈ surviving c files r →
  losses st.1 → returns (damaged_dependent c files f r st d) (λ st', losses st'.1).
Proof.
  intros Hf Hr Hm Hd Hl. destruct st as [lost nr]. unfold damaged_dependent. destruct (byRel files _) as [df|]; [|by apply returns_ret].
  destruct (negb (full df)).
  2: { destruct (_ && _); [|by apply returns_ret]. eapply returns_bind; [apply returns_any|]. intros _ _. by apply returns_ret. }
  apply returns_ret. destruct (full f && _ && _) eqn:E; [|done]. simpl. rewrite !andb_true_iff, bool_decide_eq_true, negb_true_iff in E. destruct E as [[Hful Hst] Hnot].
  destruct (planned_elem _ _ _ _ Hplanned Hf) as (g & Hg & Hgf).
  assert (Hnew : lost_by (r_ID r) (r_ID d)).
  { exists g, r, d. split; [|done]. rewrite Hful in Hnot. simpl in Hnot. split_and!; try done.
    - unfold full. by rewrite <-(ma_dec _ _ _ Hgf).
    - by rewrite <-(ma_rec _ _ _ Hgf).
    - by apply surviving_holds.
    - rewrite <-(ma_size _ _ _ Hgf), <-(ma_mtime _ _ _ Hgf). intros [Hs Ht]. by rewrite Ht, (proj2 (Z.eqb_eq _ _) Hs) in Hnot. }
  intros p ids id. destruct (decide (p = r_ID r)) as [->|Hp].
  - rewrite lookup_insert_eq. intros [= <-] [Hin|Hin]%elem_of_app; [|by apply list_elem_of_singleton in Hin as ->].
    destruct (lost !! r_ID r) as [old|] eqn:Eo; [|by apply elem_of_nil in Hin]. by eapply (Hl _ old).
  - rewrite lookup_insert_ne by done. apply Hl.
Qed.
Lemma damaged_losses l st : (∀ f, f ∈ l → f ∈ files) → losses st.1 → returns (for_fold l st (damaged_primary c files)) (λ st', losses st'.1).
Proof.
  intros Hl Hst. apply (returns_for_fold l st _ (λ _ st', losses st'.1)); [done|]. intros done f todo st' -> Hst'. unfold damaged_primary.
  destruct (pf_rec f) as [r|] eqn:Er; [|by apply returns_ret]. case_bool_decide; [|by apply returns_ret].
  apply (returns_for_fold _ st' _ (λ _ st', losses st'.1)); [done|]. intros l1 d l2 st2 E Hst2. apply damaged_dependent_losses; try done; [apply Hl; set_solver|].
  rewrite E. set_solver.
Qed.
Lemma tells_damaged_primary st f : f ∈ files → tells (damaged_primary c files st f).
Proof.
  intros Hf. unfold damaged_primary. destruct (pf_rec f) as [r|] eqn:Er; [|tells]. case_bool_decide; [|tells].
  apply tells_for_fold. intros [lost nr] d Hd%surviving_recs. unfold damaged_dependent. destruct (byRel _ _) as [df|]; [|tells].
  destruct (negb (full df)); [tells|]. destruct (_ && _ && _); [|tells]. apply tells_bind; [by apply tells_repair|]. intros _. tells.
Qed.
Lemma tells_set_lost lost i : losses lost → tells (set_lost lost i).
Proof.
  intros Hl. apply tells_edit. intros x Hx. destruct (_ || _); [|done]. destruct (lost !! _) as [[|id ids]|] eqn:E; [done| |done].
  destruct Hx as [Hp Ho _]. split; [done|done|]. intros j Hj. simpl. by eapply Hl.
Qed.

Lemma tells_plan_rest : tells (plan_rest c files).
Proof.
  unfold plan_rest. apply tells_bind; [apply tells_heapless, heapless_pairMoves|]. intros [mf mv].
  apply tells_bind; [apply tells_for_fold; intros st v Hv%vanished_recs; by apply tells_vanished_one|]. intros [pt nr].
  apply tells_bind; [apply tells_for_fold; intros; by apply tells_promote_changed|]. intros pt'.
  eapply tells_bind_ret; [apply tells_for_fold; intros; by apply tells_damaged_primary|apply damaged_losses; [done|by intros ? ? ?]|].
  intros [lost nr'] Hlost. apply tells_bind; [apply tells_for_fold; intros; by apply tells_plan_file|]. intros links.
  apply tells_bind; [apply tells_for_each; intros l; unfold set_after; tells|].
  intros _. apply tells_bind; [tells|]. intros h. apply tells_for_each. intros i. by apply tells_set_lost.
Qed.
End mentions.

(** The items of a plan. *)
Lemma plan_told c live names u s : inputs_ok c live → plan c live (start names) = Ok (u, s) → Forall (told c live) (p_heap s).
Proof.
  intros Hok E. unfold plan, bind in E. destruct (match_records c live (start names)) as [[fs s1]|] eqn:E1; [|done].
  destruct (heapless_match_records _ _ _ _ _ E1) as [Eh _].
  assert (Hp : planned c live (drop_singles fs)).
  { exists fs. split; [|done]. by eapply (match_records_matched c live (in_fresh _ _ Hok)). }
  eapply (tells_plan_rest c live (drop_singles fs) Hok Hp); [|exact E]. rewrite Eh. constructor.
Qed.

(** ** The theorem *)

Lemma vanished_retain c files mv v x : x ∈ vanished_trace c files mv v → sk_list x ≠ LPromotes → x = retain_skel v.
Proof.
  unfold vanished_trace, vanished_item_trace. intros Hx Hl. repeat case_match; try (by apply elem_of_nil in Hx);
    repeat (apply elem_of_cons in Hx as [->|Hx]; [done|]); by apply elem_of_nil in Hx.
Qed.
(** The own items of a kept file, among those about its name or its record. *)
Lemma own_item c live s files mv ps e f r x :
  inputs_ok c live → plan_result c live s files mv ps e → f ∈ files → pf_rec f = Some r → full f = false → keptChanged c f = false →
  x ∈ tr s → sk_list x ≠ LPromotes → sk_src x = pf_rel f ∨ sk_rec x = r_ID r → x ∈ keep_trace c f r.
Proof.
  intros Hok Hres Hf Hr Hful Hk Hx Hl Hown. pose proof Hres as [Hp _ Hmv (nr0 & _ & Hd) Hfrom _ Ht].
  assert (Hfile : ∀ d, file_trace c files e f d = keep_trace c f r) by (intros d; unfold file_trace; by rewrite Hful, Hk, Hr).
  destruct Hown as [Hsrc|Hrec].
  2: { destruct (trace_about_file c live files Hok Hp s mv ps e f r x Hres Hf Hr Hx Hrec) as [Hc|[(Hc & _)|Hc]]; [|congruence|by rewrite Hfile in Hc].
    by destruct Hl; eapply changed_trace_lists. }
  rewrite Ht in Hx. unfold plan_trace in Hx. rewrite !elem_of_app, !concat_fmap_elem in Hx. destruct Hx as [Hx|[Hx|[Hx|Hx]]].
  - destruct Hx as (v & Hv & Hx). exfalso. destruct (file_rec c live files Hok Hp f r Hf Hr) as [_ Hs].
    apply vanished_retain in Hx as ->; [|done]. assert (Hsv : r_SourceRelPath v = pf_rel f) by done.
    destruct (planned_elem _ _ _ _ Hp Hf) as (g & Hg & Hm). eapply (vanished_spec c live files v Hok Hp) in Hv as [_ Hv].
    apply (Hv g Hg). by rewrite Hsv, (ma_rel _ _ _ Hm).
  - destruct Hx as (g & _ & Hx). destruct Hl. by eapply changed_trace_lists.
  - apply list_elem_of_fmap in Hx as (p & -> & Hin). exfalso. destruct (damaged_link_file c live files Hok Hp _ _ _ _ Hd Hin) as (Hpf & Hful' & _).
    simpl in Hsrc. assert (p.1 = f) as E by (by eapply (files_inj c live files Hok Hp)). congruence.
  - destruct Hx as (g & Hg & Hx). pose proof (file_trace_src _ _ _ _ _ _ Hx) as Hs. assert (g = f) as -> by (eapply (files_inj c live files Hok Hp); congruence).
    by rewrite Hfile in Hx.
Qed.

(** What keeping a file emits. *)
Lemma keep_trace_about c f f' r it : pf_dec f' = pf_dec f → skel_of it ∈ keep_trace c f' r →
  (it_list it = LSkips ∧ c_dryRun c = true) ∨ (it_list it = LReleases ∧ release_allowed c f r = true ∧ r_State r ≠ StateMissing).
Proof.
  intros Hdec Hx. unfold keep_trace in Hx.
  assert (Hrel : release_allowed c f' r = release_allowed c f r) by (unfold release_allowed, dec_revision; by rewrite Hdec).
  rewrite Hrel in Hx. case_bool_decide; [by apply elem_of_nil in Hx|]. apply elem_of_app in Hx as [Hx|Hx]; case_match; try (by apply elem_of_nil in Hx);
    apply list_elem_of_singleton in Hx; inversion Hx; auto.
Qed.


(** ** Witness: the primary of a kept hardlink is gone *)

Module KeptSample.
Definition live : list planFile := [PlanSample.file 13 "c2.mkv" 70 1 "" (Some PlanSample.manifest)].
Definition recs : list Rec := [PlanSample.rec 3 "c.mkv" 70 1 0 StatePresent; PlanSample.rec 4 "c2.mkv" 70 1 3 StateLinked].
Definition kept : Rec := PlanSample.rec 4 "c2.mkv" 70 1 3 StateLinked.
Definition state : planner :=
  match plan (PlanSample.cfg recs) live (start (newNameIndex PlanSample.caps)) with Ok (_, s) => s | Err _ => start (newNameIndex PlanSample.caps) end.
End KeptSample.

Example kept_promoted : (λ it, (it_action it, it_rel it, dt_TargetID (it_d it), dt_RecordID (it_d it))) <$> p_heap KeptSample.state =
  [(ActionPromote, "films/c2.mkv", 4, 3); (ActionRetain, "films/c.mkv", 0, 3)].
Proof. vm_compute. reflexivity. Qed.

