(* ===== verification/DestFS.v ===== *)
(** * DestFS: the files at a destination

    The file tree under a destination's root as the sources use it through [os.Root]
    ([internal/engines/filecopy]): names, inodes with hardlinks, directories. It is
    case sensitive. Every operation here is what a call does when the system does not
    refuse it; refusals (a full disk, a lost mount, missing permissions) are added by
    the programs that call it (SyncExec). *)
From stdpp Require Import base gmap list strings pretty.
From Stdlib Require Import Ascii.
From S2P Require Import Prelude GoStrings DestNames.
Open Scope string_scope.
Open Scope Z_scope.

(** ** More of [path] *)

Definition comps (s : string) : list (list ascii) := split_on slash (bytes s).

(** [path.Base]: the last component that is not empty. *)
Definition path_base (s : string) : string :=
  if bool_decide (s = "") then "."
  else match last (List.filter (λ w, negb (bool_decide (w = []))) (comps s)) with
       | Some w => of_bytes w
       | None => "/"
       end.

(** [path.Split]: the part up to the last slash, and the rest. *)
Definition path_split (s : string) : list ascii * list ascii :=
  match reverse (comps s) with
  | w :: x :: ws => ((join_with slash (reverse (x :: ws)) ++ [slash])%list, w)
  | w :: [] => ([], w)
  | [] => ([], [])
  end.

Definition dot : ascii := "."%char.

(** A base name without its extension ([path.Ext]), and the extension. *)
Definition split_ext (base : list ascii) : list ascii * list ascii :=
  match reverse (split_on dot base) with
  | e :: x :: ws => (join_with dot (reverse (x :: ws)), dot :: e)
  | _ => (base, [])
  end.

Definition suffixed (p : string) (n : Z) : string :=
  if n =? 0 then p
  else
    let (dir, base) := path_split p in
    let (stem, ext) := split_ext base in
    let (stem, ext) := if bool_decide (ext = base) then (base, []) else (stem, ext) in
    of_bytes (dir ++ stem ++ dot :: bytes (pretty n) ++ ext)%list.

Example suffixed_ex1 : suffixed "a/movie.mkv" 1 = "a/movie.1.mkv". Proof. vm_compute. reflexivity. Qed.
Example suffixed_ex2 : suffixed "a.b/.hidden" 12 = "a.b/.hidden.12". Proof. vm_compute. reflexivity. Qed.
Example path_base_ex : path_base "a/b.mkv" = "b.mkv". Proof. vm_compute. reflexivity. Qed.

(** [checkRel], [checkWritable] *)
Definition checkRel (rel : string) : bool :=
  negb (bool_decide (rel = "") || bool_decide (rel = ".") || has_prefix rel "/" || negb (bool_decide (path_clean rel = rel))
        || has_byte "000" rel || bool_decide (rel = "..") || has_prefix rel "../").
Definition MarkerRel : string := ".bunkarr/destination.json".
Definition RetentionRoot : string := ".bunkarr/retention".
Definition checkWritable (rel : string) : bool :=
  checkRel rel && negb (bool_decide (rel = MetaDir) || bool_decide (rel = MarkerRel)).
Definition is_temp (rel : string) : bool := IsTempName (path_base rel).

(** [checkRetentionDir] *)
Definition checkRetentionDir (dir : string) : bool :=
  checkRel dir &&
  match cut_prefix dir (RetentionRoot +:+ "/") with
  | Some rest => negb (bool_decide (rest = "")) && negb (has_byte "/" rest)
  | None => false
  end.

(** ** The tree *)

Inductive node := NFile (ino : Z) | NDir | NOther.
#[export] Instance node_eq_dec : EqDecision node.
Proof. solve_decision. Defined.
Record inode := mkInode { n_data : string; n_mtime : Z }.

Record fs := mkFS {
  f_tree : gmap string node;
  f_inodes : gmap Z inode;
  f_next : Z;
}.

(** What a system call fails with, as far as the code tells errors apart:
    [EStorage] is one of [fatalErrnos], [EPerm] matches [fs.ErrPermission]. *)
Inductive errno := ENoEnt | ENotDir | EExist | EIsDir | ENotEmpty | EPerm | EStorage | EInval.
#[export] Instance errno_eq_dec : EqDecision errno.
Proof. solve_decision. Defined.

Inductive file_mode := ModeRegular | ModeDir | ModeOther.
#[export] Instance file_mode_eq_dec : EqDecision file_mode.
Proof. solve_decision. Defined.

(** [filecopy.Stat] *)
Record FStat := mkFStat {
  fs_Size : Z;
  fs_MtimeNs : Z;
  fs_Mode : file_mode;
  fs_Dev : Z;
  fs_Ino : Z;
  fs_Nlink : Z;
}.
Definition Regular (st : FStat) : bool := bool_decide (fs_Mode st = ModeRegular).

(** The size of a file is the number of its bytes. *)
Definition data_size (c : string) : Z := Z.of_nat (String.length c).

Definition parentDir (rel : string) : string := path_dir rel.
Definition is_dir (f : fs) (d : string) : bool := bool_decide (d = ".") || bool_decide (f_tree f !! d = Some NDir).

(** The directories above a path, nearest first. *)
Fixpoint parents_from (fuel : nat) (d : string) : list string :=
  match fuel with
  | 0%nat => []
  | S fuel => if bool_decide (d = ".") || bool_decide (d = "/") then [] else d :: parents_from fuel (path_dir d)
  end.
Definition parents (p : string) : list string := parents_from (S (String.length p)) (path_dir p).

Definition not_dir (f : fs) (d : string) : bool :=
  match f_tree f !! d with Some NDir => false | Some _ => true | None => false end.

(** Why a path that has no entry is not found. *)
Definition absent (f : fs) (p : string) : errno := if existsb (not_dir f) (parents p) then ENotDir else ENoEnt.

Definition stat_of (f : fs) (nlink : Z) (n : node) : FStat :=
  match n with
  | NFile i =>
      let x := default (mkInode "" 0) (f_inodes f !! i) in
      mkFStat (data_size (n_data x)) (n_mtime x) ModeRegular 0 i nlink
  | NDir => mkFStat 0 0 ModeDir 0 0 nlink
  | NOther => mkFStat 0 0 ModeOther 0 0 nlink
  end.

(** [Lstat]; the link count is what the file system chooses to say. *)
Definition os_lstat (nlink : Z) (f : fs) (p : string) : result errno FStat :=
  match f_tree f !! p with
  | Some n => Ok (stat_of f nlink n)
  | None => Err (absent f p)
  end.

Definition set_tree (t : gmap string node) (f : fs) : fs := mkFS t (f_inodes f) (f_next f).

(** [MkdirAll]: from the top, until a component is not a directory. *)
Definition mkdir_one (r : result errno fs) (d : string) : result errno fs :=
  match r with
  | Ok f =>
      match f_tree f !! d with
      | Some NDir => Ok f
      | Some _ => Err ENotDir
      | None => Ok (set_tree (<[d := NDir]> (f_tree f)) f)
      end
  | Err e => Err e
  end.
Definition os_mkdir_all (f : fs) (d : string) : result errno fs := foldl mkdir_one (Ok f) (reverse (d :: parents d)).

(** [link(2)] *)
Definition os_link (f : fs) (old new : string) : result errno fs :=
  match f_tree f !! old with
  | None => Err (absent f old)
  | Some NDir => Err EPerm
  | Some n =>
      if bool_decide (is_Some (f_tree f !! new)) then Err EExist
      else if negb (is_dir f (parentDir new)) then Err ENoEnt
      else Ok (set_tree (<[new := n]> (f_tree f)) f)
  end.

(** [rename(2)] of something that is not a directory: two names of one file stay. *)
Definition os_rename (f : fs) (old new : string) : result errno fs :=
  match f_tree f !! old with
  | None => Err (absent f old)
  | Some NDir => Err EInval
  | Some n =>
      if negb (is_dir f (parentDir new)) then Err ENoEnt
      else match f_tree f !! new with
           | Some NDir => Err EIsDir
           | Some m => if bool_decide (m = n) && negb (bool_decide (n = NOther)) then Ok f
                       else Ok (set_tree (<[new := n]> (delete old (f_tree f))) f)
           | None => Ok (set_tree (<[new := n]> (delete old (f_tree f))) f)
           end
  end.

(** [renameat2] with [RENAME_NOREPLACE]. *)
Definition os_rename_noreplace (f : fs) (old new : string) : result errno fs :=
  if bool_decide (is_Some (f_tree f !! new)) then Err EExist else os_rename f old new.

Definition dir_empty (f : fs) (d : string) : bool :=
  negb (existsb (λ q, bool_decide (path_dir q = d)) (map_to_list (f_tree f)).*1).

(** [Remove]: [unlink(2)], or [rmdir(2)] for a directory. *)
Definition os_remove (f : fs) (p : string) : result errno fs :=
  match f_tree f !! p with
  | None => Err (absent f p)
  | Some NDir => if dir_empty f p then Ok (set_tree (delete p (f_tree f)) f) else Err ENotEmpty
  | Some _ => Ok (set_tree (delete p (f_tree f)) f)
  end.

(** [open(2)] with [O_CREAT|O_EXCL]: a new empty file. *)
Definition os_create (now : time) (f : fs) (p : string) : result errno fs :=
  if bool_decide (is_Some (f_tree f !! p)) then Err EExist
  else if negb (is_dir f (parentDir p)) then Err ENoEnt
  else Ok (mkFS (<[p := NFile (f_next f)]> (f_tree f)) (<[f_next f := mkInode "" now]> (f_inodes f)) (f_next f + 1)).

Definition edit_inode (g : inode → inode) (f : fs) (p : string) : fs :=
  match f_tree f !! p with
  | Some (NFile i) => mkFS (f_tree f) (alter g i (f_inodes f)) (f_next f)
  | _ => f
  end.
(** A write appends to the file opened; [Chtimes] sets the modification time. *)
Definition os_append (chunk : string) : fs → string → fs := edit_inode (λ x, mkInode (n_data x +:+ chunk) (n_mtime x)).
Definition os_chtimes (mtime : Z) : fs → string → fs := edit_inode (λ x, mkInode (n_data x) mtime).

(** [Readdirnames] *)
Definition os_readdirnames (f : fs) (d : string) : result errno (list string) :=
  if is_dir f d then Ok (path_base <$> List.filter (λ q, bool_decide (path_dir q = d)) (map_to_list (f_tree f)).*1)
  else Err (absent f d).

(** The bytes of a regular file. *)
Definition data_at (f : fs) (p : string) : option string :=
  match f_tree f !! p with
  | Some (NFile i) => n_data <$> f_inodes f !! i
  | _ => None
  end.

(** Every name of a file has its inode, numbers are positive, and the next is new. *)
Record fs_ok (f : fs) : Prop := mkFSOk {
  ok_inode : ∀ p i, f_tree f !! p = Some (NFile i) → is_Some (f_inodes f !! i);
  ok_fresh : ∀ i, is_Some (f_inodes f !! i) → 0 < i < f_next f;
  ok_next : 0 < f_next f;
}.

(** ** What the calls do to names and contents *)

(** The same names for the same things, and the same inodes. *)
Definition entry (f : fs) (p : string) : option node := f_tree f !! p.

Lemma data_at_entry f p : data_at f p = match entry f p with Some (NFile i) => n_data <$> f_inodes f !! i | _ => None end.
Proof. done. Qed.

(** [keeps_names f f']: every entry of [f] is one of [f'], with its inode. *)
Record keeps_names (f f' : fs) : Prop := mkKeepsNames {
  kn_entry : ∀ p n, entry f p = Some n → entry f' p = Some n;
  kn_inode : ∀ i x, f_inodes f !! i = Some x → f_inodes f' !! i = Some x;
}.
#[export] Instance keeps_names_preorder : PreOrder keeps_names.
Proof. split; [by split|]. intros f g h [H1 H2] [H3 H4]. split; eauto. Qed.

Lemma keeps_names_data f f' p d : keeps_names f f' → data_at f p = Some d → data_at f' p = Some d.
Proof.
  intros [He Hi]. rewrite !data_at_entry. destruct (entry f p) as [[i| |]|] eqn:E; try done.
  rewrite (He _ _ E). destruct (f_inodes f !! i) eqn:Ei; [|done]. by rewrite (Hi _ _ Ei).
Qed.

Lemma set_tree_ok t f : fs_ok f → (∀ p i, t !! p = Some (NFile i) → ∃ q, f_tree f !! q = Some (NFile i)) → fs_ok (set_tree t f).
Proof.
  intros Hok Ht. split; [|exact (ok_fresh _ Hok)|exact (ok_next _ Hok)].
  intros p i Hp. destruct (Ht _ _ Hp) as [q Hq]. exact (ok_inode _ Hok _ _ Hq).
Qed.

Lemma mkdir_one_spec f d f' : mkdir_one (Ok f) d = Ok f' → fs_ok f → keeps_names f f' ∧ fs_ok f' ∧ f_inodes f' = f_inodes f ∧ ∀ p i, entry f' p = Some (NFile i) → entry f p = Some (NFile i).
Proof.
  simpl. destruct (f_tree f !! d) as [[]|] eqn:E; intros [= <-] Hok; try done.
  assert (Hback : ∀ p i, entry (set_tree (<[d := NDir]> (f_tree f)) f) p = Some (NFile i) → entry f p = Some (NFile i)).
  { unfold entry, set_tree. simpl. intros p i. by destruct (decide (p = d)) as [->|]; simplify_map_eq. }
  split_and!; [|apply set_tree_ok; [done|]; intros p i Hp; exists p; by apply Hback|done|done].
  split; [|done]. unfold entry, set_tree. simpl. intros p n Hp. rewrite lookup_insert_ne; [done|]. intros ->. by rewrite E in Hp.
Qed.

Lemma mkdir_all_spec f d f' : os_mkdir_all f d = Ok f' → fs_ok f → keeps_names f f' ∧ fs_ok f' ∧ f_inodes f' = f_inodes f ∧ ∀ p i, entry f' p = Some (NFile i) → entry f p = Some (NFile i).
Proof.
  unfold os_mkdir_all. generalize (reverse (d :: parents d)). intros ds. revert f.
  induction ds as [|x ds IH]; intros f.
  { intros [= <-] Hok. by split_and!. }
  change (foldl mkdir_one (Ok f) (x :: ds)) with (foldl mkdir_one (mkdir_one (Ok f) x) ds).
  destruct (mkdir_one (Ok f) x) as [g|e] eqn:E.
  - intros Hf Hok. destruct (mkdir_one_spec _ _ _ E Hok) as (K1 & O1 & I1 & B1).
    destruct (IH _ Hf O1) as (K2 & O2 & I2 & B2). split_and!; [by transitivity g|done|congruence|]. eauto.
  - intros Hf. exfalso. revert Hf. clear. induction ds; simpl; [done|done].
Qed.

(** A new name for what was at another. *)
Lemma link_spec f old new f' : os_link f old new = Ok f' → fs_ok f →
  ∃ n, entry f old = Some n ∧ entry f new = None ∧ f' = set_tree (<[new := n]> (f_tree f)) f ∧ keeps_names f f' ∧ fs_ok f'.
Proof.
  unfold os_link, entry. destruct (f_tree f !! old) as [n|] eqn:Eo; [|done].
  intros H Hok. assert (H' : (if bool_decide (is_Some (f_tree f !! new)) then Err EExist
      else if negb (is_dir f (parentDir new)) then Err ENoEnt else Ok (set_tree (<[new := n]> (f_tree f)) f)) = Ok f') by (by destruct n).
  clear H. case_bool_decide as Hn; [done|]. apply eq_None_not_Some in Hn. destruct (negb _); [done|]. injection H' as <-.
  exists n. split_and!; try done.
  - split; [|done]. unfold entry, set_tree. simpl. intros p m Hp. rewrite lookup_insert_ne; [done|]. intros ->. by rewrite Hn in Hp.
  - apply set_tree_ok; [done|]. intros p i. rewrite lookup_insert_Some. intros [[-> ->]|[_ Hp]]; eauto.
Qed.

(** What a rename does: nothing (two names of one file), or the old name's thing gets the
    new name. *)
Lemma rename_spec f old new f' : os_rename f old new = Ok f' → fs_ok f →
  ∃ n, entry f old = Some n ∧ entry f new ≠ Some NDir ∧ fs_ok f' ∧
    (f' = f ∧ entry f new = Some n ∨ f' = set_tree (<[new := n]> (delete old (f_tree f))) f).
Proof.
  unfold os_rename, entry. destruct (f_tree f !! old) as [n|] eqn:Eo; [|done].
  intros H Hok. assert (Hok' : fs_ok (set_tree (<[new := n]> (delete old (f_tree f))) f)).
  { apply set_tree_ok; [done|]. intros p i. rewrite lookup_insert_Some, lookup_delete_Some.
    intros [[-> ->]|(? & ? & ?)]; eauto. }
  exists n. destruct n as [i| |]; try done; destruct (negb _); try done;
    (destruct (f_tree f !! new) as [[j| |]|] eqn:En; try done); try (case_bool_decide; simpl in H);
    injection H as <-; simplify_eq; split_and!; auto.
Qed.

Lemma rename_noreplace_spec f old new f' : os_rename_noreplace f old new = Ok f' → entry f new = None ∧ os_rename f old new = Ok f'.
Proof. unfold os_rename_noreplace, entry. case_bool_decide as E; [done|]. apply eq_None_not_Some in E. done. Qed.

Lemma remove_spec f p f' : os_remove f p = Ok f' → fs_ok f → f' = set_tree (delete p (f_tree f)) f ∧ fs_ok f'.
Proof.
  unfold os_remove. intros H Hok. assert (f' = set_tree (delete p (f_tree f)) f) as ->.
  { destruct (f_tree f !! p) as [[]|]; [by injection H| |by injection H|done]. destruct (dir_empty f p); [by injection H|done]. }
  split; [done|]. apply set_tree_ok; [done|]. intros q i. rewrite lookup_delete_Some. intros [_ ?]; eauto.
Qed.

Lemma create_spec now f p f' : os_create now f p = Ok f' → fs_ok f →
  entry f p = None ∧ keeps_names f f' ∧ fs_ok f' ∧
  entry f' p = Some (NFile (f_next f)) ∧ (∀ q, q ≠ p → entry f' q = entry f q) ∧ (∀ q, entry f' q = Some (NFile (f_next f)) → q = p) ∧
  f_inodes f' = <[f_next f := mkInode "" now]> (f_inodes f).
Proof.
  unfold os_create, entry. intros H Hok. case_bool_decide as Hp; [done|]. apply eq_None_not_Some in Hp.
  destruct (negb _); [done|]. injection H as <-. simpl.
  assert (Hfresh : f_inodes f !! f_next f = None).
  { apply eq_None_not_Some. intros Hs. pose proof (ok_fresh _ Hok _ Hs). lia. }
  split_and!; [done| | |by simplify_map_eq| | |done].
  - split; unfold entry; simpl.
    + intros q n Hq. rewrite lookup_insert_ne; [done|]. intros ->. by rewrite Hp in Hq.
    + intros i x Hi. rewrite lookup_insert_ne; [done|]. intros <-. by rewrite Hfresh in Hi.
  - pose proof (ok_next _ Hok). split; simpl; [| |lia].
    + intros q i. rewrite lookup_insert_Some. intros [[-> Hi]|[_ Hq]].
      { injection Hi as Hi. rewrite <-Hi, lookup_insert. case_decide; [by eexists|done]. }
      destruct (decide (i = f_next f)) as [->|]; [by simplify_map_eq|]. rewrite lookup_insert_ne by done. exact (ok_inode _ Hok _ _ Hq).
    + intros i. destruct (decide (i = f_next f)) as [->|]; [intros; lia|]. rewrite lookup_insert_ne by done. intros Hs. pose proof (ok_fresh _ Hok _ Hs). lia.
  - intros q Hq. by simplify_map_eq.
  - intros q. rewrite lookup_insert_Some. intros [[-> _]|[_ Hq]]; [done|]. exfalso.
    destruct (ok_inode _ Hok _ _ Hq) as [x Hx]. by rewrite Hfresh in Hx.
Qed.

(** An edit of the inode at a path. *)
Lemma edit_spec g f p : fs_ok f → fs_ok (edit_inode g f p) ∧ f_tree (edit_inode g f p) = f_tree f ∧ f_next (edit_inode g f p) = f_next f.
Proof.
  intros Hok. unfold edit_inode. destruct (f_tree f !! p) as [[i| |]|] eqn:E; try (by split_and!).
  split_and!; try done. split; simpl; [| |exact (ok_next _ Hok)].
  - intros q j Hq. destruct (ok_inode _ Hok _ _ Hq) as [x Hx]. rewrite lookup_alter. case_decide as Hij; [rewrite Hij|]; rewrite Hx; by eexists.
  - intros j Hj. apply (ok_fresh _ Hok). rewrite lookup_alter in Hj. case_decide as Hij; [|done]. rewrite Hij in Hj.
    by destruct (f_inodes f !! j).
Qed.

(** ** Names of temp files and names in retention *)

(** A name that is no temp file's: what may lie there must not be lost. *)
Definition plain (p : string) : Prop := is_temp p = false.

Lemma split_on_app c l k : split_on c (l ++ c :: k) = (split_on c l ++ split_on c k)%list.
Proof.
  induction l as [|d l IH]; simpl.
  { by rewrite decide_True by done. }
  case_decide; [by rewrite IH|]. rewrite IH. pose proof (split_on_nonempty c l). by destruct (split_on c l).
Qed.

Lemma split_on_id c w : c ∉ w → split_on c w = [w].
Proof.
  induction w as [|d w IH]; intros Hw; simpl; [done|]. apply not_elem_of_cons in Hw as [Hd Hw].
  rewrite decide_False by done. by rewrite IH.
Qed.

Lemma split_on_elem c l w : w ∈ split_on c l → c ∉ w.
Proof.
  revert w. induction l as [|d l IH]; simpl; intros w.
  { rewrite list_elem_of_singleton. intros ->. apply not_elem_of_nil. }
  case_decide as Hd; [rewrite elem_of_cons; intros [->|?]; [apply not_elem_of_nil|by apply IH]|].
  pose proof (split_on_nonempty c l). destruct (split_on c l) as [|v vs] eqn:E; [done|].
  rewrite elem_of_cons. intros [->|Hw]; [|apply IH; by right].
  apply not_elem_of_cons. split; [done|]. apply IH. by left.
Qed.

(** [ends_in p w]: [w] is the last component of [p]. *)
Definition ends_in (p : string) (w : list ascii) : Prop := ∃ pre, comps p = (pre ++ [w])%list.

Lemma ends_in_exists p : ∃ w, ends_in p w.
Proof. destruct (exists_last (split_on_nonempty slash (bytes p))) as (pre & w & E). by exists w, pre. Qed.

Lemma ends_in_bytes l w : slash ∉ w → (l = w ∨ ∃ x, l = (x ++ slash :: w)%list) → ends_in (of_bytes l) w.
Proof.
  intros Hw H. unfold ends_in, comps. rewrite bytes_of_bytes. destruct H as [->|[x ->]].
  - exists []. by apply split_on_id.
  - exists (split_on slash x). by rewrite split_on_app, (split_on_id slash w).
Qed.

Lemma ends_in_no_slash p w : ends_in p w → slash ∉ w.
Proof. intros [pre E]. apply (split_on_elem slash (bytes p)). unfold comps in E. rewrite E, elem_of_app. right. by left. Qed.

Lemma base_of p w : ends_in p w → w ≠ [] → path_base p = of_bytes w.
Proof.
  intros [pre E] Hw. unfold path_base. case_bool_decide as Hp.
  { subst p. unfold comps in E. simpl in E. destruct pre; [by injection E as <-|]. by destruct pre. }
  rewrite E, List.filter_app. simpl. rewrite bool_decide_eq_false_2 by done. simpl. by rewrite last_snoc.
Qed.

Lemma foldl_clean_last r ws acc w : clean_comp w = true → foldl (clean_step r) acc (ws ++ [w]) = w :: foldl (clean_step r) acc ws.
Proof.
  intros Hw. rewrite foldl_app. simpl. unfold clean_step. unfold clean_comp in Hw.
  destruct (bool_decide_reflect (w = [])), (bool_decide_reflect (w = bytes ".")), (bool_decide_reflect (w = bytes "..")); try done.
  by rewrite !decide_False by done.
Qed.

Lemma clean_ends_in p w : ends_in p w → clean_comp w = true → ends_in (path_clean p) w.
Proof.
  intros Hp Hc. pose proof (ends_in_no_slash _ _ Hp) as Hs. destruct Hp as [pre E]. unfold path_clean. fold (comps p). rewrite E.
  set (r := match bytes p with [] => _ | _ => _ end). rewrite (foldl_clean_last r pre [] w Hc), reverse_cons.
  assert (Hj : ∀ ws, join_with slash (ws ++ [w]) = w ∨ ∃ x, join_with slash (ws ++ [w]) = (x ++ slash :: w)%list).
  { intros ws. destruct (decide (ws = [])) as [->|Hne]; [by left|]. right. rewrite join_with_snoc by done. by eexists. }
  assert (Hne : w ≠ []) by (by intros ->). destruct r.
  - apply ends_in_bytes; [done|]. right. destruct (Hj (reverse (foldl (clean_step true) [] pre))) as [->|[x ->]]; [by exists []|by exists (slash :: x)].
  - case_decide as Hb.
    { exfalso. destruct (Hj (reverse (foldl (clean_step false) [] pre))) as [Hb'|[x Hb']]; rewrite Hb in Hb'; [by rewrite <-Hb' in Hne|by destruct x]. }
    apply ends_in_bytes; [done|]. apply Hj.
Qed.

Lemma join_ends_in d p w : ends_in p w → clean_comp w = true → ends_in (path_join [d; p]) w.
Proof.
  intros Hp Hw. assert (Hne : p ≠ "").
  { intros ->. destruct Hp as [pre E]. unfold comps in E. simpl in E. destruct pre as [|? []]; try done. injection E as <-. done. }
  unfold path_join. simpl. case_bool_decide; simpl; rewrite (bool_decide_eq_false_2 (p = "")) by done; simpl; apply clean_ends_in; try done.
  destruct Hp as [pre E]. exists (comps d ++ pre)%list. unfold comps in *. rewrite !bytes_app. change (bytes "/") with [slash].
  simpl app. by rewrite split_on_app, E, app_assoc.
Qed.

(** A suffix before the extension makes no temp name. *)
Lemma prefix_dot stem rest : stem ≠ [] → is_Some (bprefix (bytes TempPrefix) (stem ++ dot :: rest)%list) → ∀ k, is_Some (bprefix (bytes TempPrefix) (stem ++ k)%list).
Proof.
  intros Hs [r Hr] k. apply bprefix_spec in Hr. change (bytes TempPrefix) with (dot :: bytes "bunkarr-tmp-") in *.
  destruct stem as [|a stem]; [done|]. simpl in Hr. injection Hr as -> Hr. clear Hs.
  assert (∃ k', (stem ++ k)%list = (bytes "bunkarr-tmp-" ++ k')%list) as [k' Hk].
  { do 12 (destruct stem as [|? stem]; [simpl in Hr; injection Hr; intros; by simplify_eq|simpl in Hr; injection Hr as -> Hr]).
    by exists (stem ++ k)%list. }
  exists k'. apply bprefix_spec. simpl app at 1. by rewrite Hk.
Qed.

Lemma split_ext_spec base stem ext : split_ext base = (stem, ext) → base = (stem ++ ext)%list.
Proof.
  unfold split_ext. pose proof (join_split dot base) as Hj.
  destruct (reverse (split_on dot base)) as [|e [|x ws]] eqn:E; try (intros [= <- <-]; by rewrite app_nil_r).
  intros [= <- <-]. rewrite <-Hj at 1. rewrite <-(reverse_involutive (split_on dot base)), E, reverse_cons.
  apply join_with_snoc. by rewrite <-(reverse_involutive []); intros H%(inj reverse).
Qed.

Lemma path_split_spec p w : ends_in p w → ∃ dir, path_split p = (dir, w) ∧ (dir = [] ∨ ∃ x, dir = (x ++ [slash])%list).
Proof.
  intros [pre E]. unfold path_split. rewrite E, reverse_snoc. destruct (reverse pre); eexists; split; eauto.
Qed.

Lemma digits_no_slash n : 0 < n → slash ∉ bytes (pretty n).
Proof.
  intros Hn Hs. destruct (pretty_digits n Hn) as (Hd & _ & _). rewrite forallb_elem in Hd. specialize (Hd _ Hs). by vm_compute in Hd.
Qed.

Lemma suffixed_plain p w n : ends_in p w → w ≠ [] → 0 ≤ n → IsTempName (of_bytes w) = false → plain (suffixed p n).
Proof.
  intros Hp Hw Hn Ht. unfold plain, is_temp, suffixed. destruct (Z.eqb_spec n 0) as [_|Hn0]; [by rewrite (base_of _ _ Hp Hw)|].
  destruct (path_split_spec _ _ Hp) as (dir & -> & Hdir). destruct (split_ext w) as [stem ext] eqn:E. apply split_ext_spec in E.
  assert (∃ stem' ext', (if bool_decide (ext = w) then (w, []) else (stem, ext)) = (stem', ext') ∧ w = (stem' ++ ext')%list ∧ stem' ≠ []) as (s & e & -> & Hse & Hs).
  { case_bool_decide as He; [exists w, []; split_and!; [done|by rewrite app_nil_r|done]|].
    exists stem, ext. split_and!; try done. intros ->. by rewrite E in He. }
  pose proof (ends_in_no_slash _ _ Hp) as Hsl. rewrite Hse in Hsl. apply not_elem_of_app in Hsl as [Hs1 Hs2].
  set (b := (s ++ dot :: bytes (pretty n) ++ e)%list).
  assert (Hb : slash ∉ b).
  { unfold b. rewrite not_elem_of_app, not_elem_of_cons, not_elem_of_app. split_and!; try done. apply digits_no_slash. lia. }
  assert (He : ends_in (of_bytes (dir ++ b)%list) b).
  { apply ends_in_bytes; [done|]. destruct Hdir as [->|[x ->]]; [by left|]. right. exists x. by rewrite <-app_assoc. }
  rewrite (base_of _ _ He) by (unfold b; by destruct s). unfold IsTempName, has_prefix in *. rewrite bytes_of_bytes in *.
  apply bool_decide_eq_false in Ht. apply bool_decide_eq_false. intros Hpre. apply Ht. rewrite Hse. by eapply prefix_dot.
Qed.

(** The names a file may get in retention. *)
Lemma target_plain dir rel i : clean_rel rel = true → plain rel → 0 ≤ i → plain (suffixed (path_join [dir; rel]) i).
Proof.
  intros Hc Hp Hi. destruct (ends_in_exists rel) as [w Hw].
  assert (Hcw : clean_comp w = true).
  { unfold clean_rel in Hc. rewrite forallb_elem in Hc. destruct Hw as [pre E]. unfold comps in E. rewrite E in Hc. apply Hc.
    rewrite elem_of_app. right. by left. }
  assert (Hne : w ≠ []) by (by intros ->).
  apply (suffixed_plain _ w); [by apply join_ends_in|done|done|]. unfold plain, is_temp in Hp. by rewrite (base_of _ _ Hw Hne) in Hp.
Qed.

(** The base name of a temp file is one. *)
Lemma temp_base dir t w : ends_in t w → clean_comp w = true → IsTempName (of_bytes w) = true → ¬ plain (path_join [dir; t]).
Proof.
  intros Ht Hc Hw. unfold plain, is_temp. rewrite (base_of _ w); [by rewrite Hw|by apply join_ends_in|by intros ->].
Qed.

(** A clean path is its own [path.Clean], and joining two clean ones adds a slash. *)
Lemma foldl_clean ws acc : forallb clean_comp ws = true → foldl (clean_step false) acc ws = (reverse ws ++ acc)%list.
Proof.
  revert acc. induction ws as [|w ws IH]; intros acc; [done|]. simpl. intros [Hw Hws]%andb_true_iff.
  rewrite (IH _ Hws). unfold clean_step, clean_comp in *.
  destruct (bool_decide_reflect (w = [])), (bool_decide_reflect (w = bytes ".")), (bool_decide_reflect (w = bytes "..")); try done.
  rewrite !decide_False by done. by rewrite reverse_cons, <-app_assoc.
Qed.

Lemma clean_not_empty p : clean_rel p = true → p ≠ "".
Proof. by intros Hp ->. Qed.

Lemma clean_rel_clean p : clean_rel p = true → path_clean p = p.
Proof.
  intros Hc. pose proof (clean_not_empty _ Hc) as Hne. unfold path_clean. unfold clean_rel in Hc.
  assert (match bytes p with a :: _ => bool_decide (a = slash) | [] => false end = false) as ->.
  { destruct (bytes p) as [|a l]; [done|]. apply bool_decide_eq_false. intros ->. by simpl in Hc. }
  rewrite (foldl_clean _ [] Hc), app_nil_r, reverse_involutive, join_split. rewrite decide_False; [apply of_bytes_bytes|].
  intros Hb. apply Hne, bytes_inj. done.
Qed.

Lemma clean_join a b : clean_rel a = true → clean_rel b = true → path_join [a; b] = a +:+ "/" +:+ b ∧ clean_rel (a +:+ "/" +:+ b) = true.
Proof.
  intros Ha Hb. assert (Hab : clean_rel (a +:+ "/" +:+ b) = true).
  { unfold clean_rel in *. rewrite !bytes_app. change (bytes "/") with [slash]. simpl app. by rewrite split_on_app, forallb_app, Ha, Hb. }
  split; [|done]. unfold path_join. simpl. rewrite !bool_decide_eq_false_2 by (by apply clean_not_empty). simpl. by apply clean_rel_clean.
Qed.

(** A suffix stays in the directory. *)
Lemma suffixed_under d p n : ∃ q, suffixed (d +:+ "/" +:+ p) n = d +:+ "/" +:+ q.
Proof.
  unfold suffixed. destruct (n =? 0); [by exists p|]. destruct (ends_in_exists p) as [w [pre Hw]].
  assert (He : comps (d +:+ "/" +:+ p) = (comps d ++ pre ++ [w])%list).
  { unfold comps in *. rewrite !bytes_app. change (bytes "/") with [slash]. simpl app. by rewrite split_on_app, Hw. }
  assert (∃ x, path_split (d +:+ "/" +:+ p) = ((bytes d ++ slash :: x)%list, w)) as [x ->].
  { unfold path_split. rewrite He, app_assoc, reverse_snoc. pose proof (split_on_nonempty slash (bytes d)) as Hd.
    assert (Hne : (comps d ++ pre)%list ≠ []) by (unfold comps; by destruct (split_on slash (bytes d))).
    destruct (reverse (comps d ++ pre)) as [|y ys] eqn:E; [by apply (f_equal reverse) in E; rewrite reverse_involutive in E|].
    rewrite <-E, reverse_involutive. destruct (decide (pre = [])) as [->|Hp].
    - exists []. rewrite app_nil_r. unfold comps. by rewrite join_split.
    - exists (join_with slash pre ++ [slash])%list. f_equal. rewrite app_comm_cons, app_assoc. f_equal.
      clear -Hp Hd. unfold comps. rewrite <-(join_split slash (bytes d)) at 2. revert Hd. generalize (split_on slash (bytes d)) as us.
      induction us as [|u us IH]; intros Hd; [done|]. destruct us as [|v us]; [by destruct pre|].
      change (join_with slash ((u :: v :: us) ++ pre)) with (u ++ slash :: join_with slash ((v :: us) ++ pre))%list.
      rewrite IH by done. simpl. by rewrite <-!app_assoc. }
  destruct (split_ext w) as [stem ext]. destruct (if bool_decide _ then _ else _) as [s e].
  exists (of_bytes (x ++ s ++ dot :: bytes (pretty n) ++ e)%list). apply bytes_inj. rewrite bytes_of_bytes, !bytes_app, bytes_of_bytes.
  change (bytes "/") with [slash]. simpl. by rewrite <-!app_assoc.
Qed.
