(* ===== verification/FileRecords.v ===== *)
(** * FileRecords: the records of a destination ([internal/syncer/store.go])

    The rows of [destination_files] in the order of their ids, with the reads and
    the writes the execution of a sync uses. The table's constraints (one live row per
    path, a link has its row, a retained row its path and expiry) are checked as the
    database checks them. The columns of the other engines are left out. *)
From stdpp Require Import base gmap list strings.
From S2P Require Import Prelude GoStrings DestNames Tiers SyncPlan.
Open Scope string_scope.
Open Scope Z_scope.

(** Why a row was retained; [NoReason] is NULL. *)
Inductive retain_reason := NoReason | ReasonDeleted | ReasonReplaced | ReasonDisplaced | ReasonDamaged | ReasonReleased.
#[export] Instance retain_reason_eq_dec : EqDecision retain_reason.
Proof. solve_decision. Defined.

(** [Record] *)
Record FileRecord := mkRecord {
  fr_ID : Z;
  fr_DestinationID : Z;
  fr_SourceID : Z;
  fr_RelPath : string;
  fr_SourceRelPath : string;
  fr_Size : Z;
  fr_MtimeNs : Z;
  fr_Hash : string;
  fr_LinkOf : Z;
  fr_State : State;
  fr_RetainedPath : string;
  fr_Reason : retain_reason;
  fr_JobID : Z;
  fr_CopiedAt : option time;
  fr_VerifiedAt : option time;
  fr_RetainedAt : option time;
  fr_ExpiresAt : option time;
}.
Abbreviation records := (list FileRecord).

Definition live (r : FileRecord) : bool := Live (fr_State r).

(** ** Reads *)
Definition get_record (id : Z) (t : records) : option FileRecord := List.find (λ r, fr_ID r =? id) t.
Definition is_at (dest : Z) (rel : string) (r : FileRecord) : bool :=
  (fr_DestinationID r =? dest) && bool_decide (fr_RelPath r = rel) && live r.
Definition liveAt (dest : Z) (rel : string) (t : records) : option FileRecord := List.find (is_at dest rel) t.
Definition liveForSourcePath (dest src : Z) (rel : string) (t : records) : option FileRecord :=
  List.find (λ r, (fr_DestinationID r =? dest) && (fr_SourceID r =? src) && bool_decide (fr_SourceRelPath r = rel) && live r) t.

(** [ORDER BY rel_path, id] *)
Definition record_cmp (a b : FileRecord) : Z := then_cmp (str_cmp (fr_RelPath a) (fr_RelPath b)) (zcmp (fr_ID a) (fr_ID b)).
Definition links_to (id : Z) (r : FileRecord) : bool := negb (id =? 0) && (fr_LinkOf r =? id) && live r.
Definition dependents (id : Z) (t : records) : records := isort record_cmp (List.filter (links_to id) t).

(** [retainedLookup] *)
Definition same_retained (rec r : FileRecord) : bool :=
  (fr_DestinationID r =? fr_DestinationID rec) && (fr_SourceID r =? fr_SourceID rec) && bool_decide (fr_SourceRelPath r = fr_SourceRelPath rec)
  && bool_decide (fr_State r = StateRetained) && bool_decide (fr_RetainedPath r = fr_RetainedPath rec).
Definition retainedExists (rec : FileRecord) (t : records) : bool := existsb (same_retained rec) t.

(** ** Writes

    A transaction is a function of the table; one that fails leaves it as it was. *)
Inductive db_error := RowNotFound | UniqueViolation | CheckFailed | ForeignKey | Changed | OtherSource | RecordVanished | PrimaryChanged.
#[export] Instance db_error_eq_dec : EqDecision db_error.
Proof. solve_decision. Defined.

(** The checks of a row, and the unique index of live paths. *)
Definition row_ok (r : FileRecord) : bool :=
  (negb (mem (fr_State r) [StateLinked; StateLinkRecorded]) || negb (fr_LinkOf r =? 0))
  && (negb (bool_decide (fr_State r = StateRetained)) || (negb (bool_decide (fr_RetainedPath r = "")) && bool_decide (is_Some (fr_ExpiresAt r)))).
Definition clashes (r q : FileRecord) : bool :=
  negb (fr_ID q =? fr_ID r) && live r && is_at (fr_DestinationID r) (fr_RelPath r) q.
Definition row_error (r : FileRecord) (t : records) : option db_error :=
  if negb (row_ok r) then Some CheckFailed
  else if existsb (clashes r) t then Some UniqueViolation
  else if negb (fr_LinkOf r =? 0) && negb (bool_decide (is_Some (get_record (fr_LinkOf r) t))) then Some ForeignKey
  else None.

Definition next_id (t : records) : Z := 1 + foldr (λ r n, Z.max (fr_ID r) n) 0 t.
Definition with_id (id : Z) (r : FileRecord) : FileRecord :=
  mkRecord id (fr_DestinationID r) (fr_SourceID r) (fr_RelPath r) (fr_SourceRelPath r) (fr_Size r) (fr_MtimeNs r) (fr_Hash r) (fr_LinkOf r)
    (fr_State r) (fr_RetainedPath r) (fr_Reason r) (fr_JobID r) (fr_CopiedAt r) (fr_VerifiedAt r) (fr_RetainedAt r) (fr_ExpiresAt r).

Definition insertRecord (rec : FileRecord) (t : records) : result db_error records :=
  let rec := with_id (next_id t) rec in
  match row_error rec t with
  | Some e => Err e
  | None => Ok (t ++ [rec])%list
  end.

(** [updateRecord]: every column but the id and the destination. *)
Definition with_dest (dest : Z) (r : FileRecord) : FileRecord :=
  mkRecord (fr_ID r) dest (fr_SourceID r) (fr_RelPath r) (fr_SourceRelPath r) (fr_Size r) (fr_MtimeNs r) (fr_Hash r) (fr_LinkOf r)
    (fr_State r) (fr_RetainedPath r) (fr_Reason r) (fr_JobID r) (fr_CopiedAt r) (fr_VerifiedAt r) (fr_RetainedAt r) (fr_ExpiresAt r).
Definition set_row (rec : FileRecord) (t : records) : records :=
  (λ r, if fr_ID r =? fr_ID rec then with_dest (fr_DestinationID r) rec else r) <$> t.
Definition updateRecord (rec : FileRecord) (t : records) : result db_error records :=
  match get_record (fr_ID rec) t with
  | None => Err RowNotFound
  | Some old =>
      match row_error (with_dest (fr_DestinationID old) rec) t with
      | Some e => Err e
      | None => Ok (set_row rec t)
      end
  end.

Definition with_link (l : Z) (r : FileRecord) : FileRecord :=
  mkRecord (fr_ID r) (fr_DestinationID r) (fr_SourceID r) (fr_RelPath r) (fr_SourceRelPath r) (fr_Size r) (fr_MtimeNs r) (fr_Hash r) l
    (fr_State r) (fr_RetainedPath r) (fr_Reason r) (fr_JobID r) (fr_CopiedAt r) (fr_VerifiedAt r) (fr_RetainedAt r) (fr_ExpiresAt r).
Definition with_state (s : State) (r : FileRecord) : FileRecord :=
  mkRecord (fr_ID r) (fr_DestinationID r) (fr_SourceID r) (fr_RelPath r) (fr_SourceRelPath r) (fr_Size r) (fr_MtimeNs r) (fr_Hash r) (fr_LinkOf r)
    s (fr_RetainedPath r) (fr_Reason r) (fr_JobID r) (fr_CopiedAt r) (fr_VerifiedAt r) (fr_RetainedAt r) (fr_ExpiresAt r).
Definition with_intent (p : string) (why : retain_reason) (r : FileRecord) : FileRecord :=
  mkRecord (fr_ID r) (fr_DestinationID r) (fr_SourceID r) (fr_RelPath r) (fr_SourceRelPath r) (fr_Size r) (fr_MtimeNs r) (fr_Hash r) (fr_LinkOf r)
    (fr_State r) p why (fr_JobID r) (fr_CopiedAt r) (fr_VerifiedAt r) (fr_RetainedAt r) (fr_ExpiresAt r).

(** [repoint]: the live links of [from] link to [to]; retained rows lose the link. *)
Definition unlink_retained (id : Z) (r : FileRecord) : FileRecord :=
  if negb (id =? 0) && (fr_LinkOf r =? id) && bool_decide (fr_State r = StateRetained) then with_link 0 r else r.
Definition repoint (from to : Z) (t : records) : records :=
  (λ r, unlink_retained from (if links_to from r && negb (fr_ID r =? to) then with_link to r else r)) <$> t.

(** [loseLinks] *)
Definition lose_link (primary : Z) (ids : list Z) (r : FileRecord) : FileRecord :=
  if mem (fr_ID r) ids && negb (primary =? 0) && (fr_LinkOf r =? primary) && bool_decide (fr_State r = StateLinkRecorded)
  then with_link 0 (with_state StateMissing r) else r.
Definition loseLinks (primary : Z) (ids : list Z) (t : records) : records := lose_link primary ids <$> t.

(** [deleteRecord]: a row that another row links to stays ([ON DELETE RESTRICT]). *)
Definition deleteRecord (id : Z) (t : records) : result db_error records :=
  let t := unlink_retained id <$> t in
  if existsb (λ r, negb (id =? 0) && (fr_LinkOf r =? id) && negb (fr_ID r =? id)) t then Err ForeignKey
  else Ok (List.filter (λ r, negb (fr_ID r =? id)) t).
Fixpoint deleteRecords (ids : list Z) (t : records) : result db_error records :=
  match ids with
  | [] => Ok t
  | id :: ids => let? t := deleteRecord id t in deleteRecords ids t
  end.

(** ** Retention intents *)
Definition has_file (r : FileRecord) : bool := mem (fr_State r) [StatePresent; StateLinked; StateMissing].
Definition intent_row (dest : Z) (rel : string) (r : FileRecord) : bool :=
  (fr_DestinationID r =? dest) && bool_decide (fr_RelPath r = rel) && has_file r.
Definition setIntentTx (dest : Z) (rel retained : string) (why : retain_reason) (t : records) : result db_error records :=
  if existsb (intent_row dest rel) t
  then Ok ((λ r, if intent_row dest rel r then with_intent retained why r else r) <$> t)
  else Err Changed.
Definition clearIntentTx (id : Z) (retained : string) (t : records) : records :=
  (λ r, if (fr_ID r =? id) && bool_decide (fr_RetainedPath r = retained) && live r then with_intent "" NoReason r else r) <$> t.

(** A record whose path holds a file nothing is known of ([settle]). *)
Definition mark_unknown (id : Z) (retained : string) (t : records) : records :=
  (λ r, if (fr_ID r =? id) && bool_decide (fr_RetainedPath r = retained) && mem (fr_State r) [StatePresent; StateLinked]
        then with_state StateMissing r else r) <$> t.

(** ** The live row of a path after a write *)

(** A change of the rows that keeps ids and where the live ones are. *)
Definition in_place (g : FileRecord → FileRecord) : Prop := ∀ r, fr_ID (g r) = fr_ID r ∧ ∀ d rel, is_at d rel (g r) = is_at d rel r.
Lemma liveAt_fmap g d rel t : in_place g → liveAt d rel (g <$> t) = g <$> liveAt d rel t.
Proof. intros Hg. apply find_fmap. intros r. apply Hg. Qed.
Lemma unlink_in_place id : in_place (unlink_retained id).
Proof. intros r. unfold unlink_retained. by destruct (_ && _ && _). Qed.
Lemma lose_link_in_place p ids : in_place (lose_link p ids).
Proof.
  intros r. unfold lose_link. destruct (bool_decide (fr_State r = StateLinkRecorded)) eqn:E; [|by rewrite andb_false_r].
  apply bool_decide_eq_true in E. destruct (_ && _); [|done]. split; [done|]. intros d rel. unfold is_at, live. simpl. by rewrite E.
Qed.

Lemma insert_live rec t t' : insertRecord rec t = Ok t' → live rec = true → liveAt (fr_DestinationID rec) (fr_RelPath rec) t = None →
  liveAt (fr_DestinationID rec) (fr_RelPath rec) t' = Some (with_id (next_id t) rec).
Proof.
  unfold insertRecord, liveAt. destruct (row_error _ t); intros [= <-] Hl Hn. rewrite find_app, Hn. simpl. unfold is_at, live in *. simpl.
  by rewrite Z.eqb_refl, bool_decide_eq_true_2, Hl.
Qed.
Lemma insert_not_live rec t t' d rel : insertRecord rec t = Ok t' → live rec = false → liveAt d rel t' = liveAt d rel t.
Proof.
  unfold insertRecord, liveAt. destruct (row_error _ t); intros [= <-] Hl. rewrite find_app. destruct (List.find _ t); [done|].
  simpl. unfold is_at, live in *. simpl. by rewrite Hl, andb_false_r.
Qed.
Lemma update_live rec cur t t' d rel : updateRecord rec t = Ok t' → liveAt d rel t = Some cur → fr_ID rec = fr_ID cur →
  fr_RelPath rec = rel → live rec = true → ∃ q, liveAt d rel t' = Some (with_dest q rec).
Proof.
  unfold updateRecord. destruct (get_record _ t); [|done]. destruct (row_error _ t); intros [= <-] Hc Hid Hrel Hl. unfold liveAt, set_row in *.
  induction t as [|r t IH]; [done|]. simpl in *. destruct (is_at d rel r) eqn:E.
  - injection Hc as ->. rewrite Hid, Z.eqb_refl. unfold is_at, live in *. simpl.
    apply andb_true_iff in E as [[E _]%andb_true_iff _]. rewrite E, bool_decide_eq_true_2, Hl by done. simpl. by eexists.
  - destruct (fr_ID r =? fr_ID rec); [|rewrite E; by apply IH]. destruct (is_at d rel (with_dest _ rec)); [by eexists|by apply IH].
Qed.

(** ** The ids stay unique *)

Definition ids_kept (t t' : records) : Prop := NoDup (fr_ID <$> t) → NoDup (fr_ID <$> t').
#[export] Instance ids_kept_preorder : PreOrder ids_kept.
Proof. split; [intros t; unfold ids_kept; auto|]. intros t u v H1 H2 Ht. by apply H2, H1. Qed.
Lemma ids_fmap g t : (∀ r, fr_ID (g r) = fr_ID r) → ids_kept t (g <$> t).
Proof. intros Hg. unfold ids_kept. rewrite <-list_fmap_compose. erewrite (list_fmap_ext (fr_ID ∘ g)); [done|]. intros i r _. apply Hg. Qed.
Lemma next_record_above t r : r ∈ t → fr_ID r < next_id t.
Proof.
  unfold next_id. induction t as [|q t IH]; [by intros ?%elem_of_nil|]. cbn [foldr]. intros [->|Hr]%elem_of_cons; [lia|]. specialize (IH Hr). lia.
Qed.
Lemma ids_insert rec t t' : insertRecord rec t = Ok t' → ids_kept t t'.
Proof.
  unfold insertRecord. destruct (row_error _ t); intros [= <-] Ht. rewrite fmap_app. apply NoDup_app. split_and!; [done| |apply NoDup_singleton].
  intros id Hid Hin. apply list_elem_of_fmap in Hid as (r & -> & Hr). apply list_elem_of_singleton in Hin. simpl in Hin.
  pose proof (next_record_above t r Hr). lia.
Qed.
Lemma ids_update rec t t' : updateRecord rec t = Ok t' → ids_kept t t'.
Proof.
  unfold updateRecord. destruct (get_record _ t); [|done]. destruct (row_error _ t); intros [= <-]. apply ids_fmap.
  intros r. destruct (fr_ID r =? fr_ID rec) eqn:E; [|done]. apply Z.eqb_eq in E. by simpl.
Qed.
