(* ===== verification/LinkManifest.v ===== *)
(** * LinkManifest: the hardlink manifest of a destination

    [.bunkarr/links.tsv] ([syncer/manifest.go], [LinkManifest] of [store_engine.go], [links] of
    [store.go]): the names that have no file of their own, for a restore without the database.
    A reader of the format its header describes gets back exactly the links. *)
From stdpp Require Import base list strings.
From Stdlib Require Import Ascii.
From S2P Require Import Prelude GoStrings SyncPlan FileRecords.
Open Scope string_scope.
Open Scope Z_scope.

(** ** Writing *)

Definition LinkManifestRel : string := ".bunkarr/links.tsv".
Definition tab : ascii := chr 9.
Definition newline : ascii := chr 10.
Definition return_ : ascii := chr 13.
Definition backslash : ascii := "\"%char.

Definition linkManifestHeader : list string :=
  ["# Bunkarr hardlink manifest (format 1), rewritten after every sync.";
   "# Each line: <name> TAB <primary> TAB <state>; paths are relative to this destination's target.";
   "# link_recorded: <name> has no file here; it has the content of <primary> (recreate it with";
   "#   ln <primary> <name>, or cp where hardlinks are not possible).";
   "# linked: <name> is a hardlink of <primary>.";
   "# In paths, a backslash, tab, newline or carriage return is written as \\, \t, \n or \r, and a";
   "#   # that starts a path as \#: only comment lines start with #."].

(** [manifestEscaper], byte by byte. *)
Definition escape_byte (c : ascii) : list ascii :=
  if decide (c = backslash) then [backslash; backslash]
  else if decide (c = tab) then [backslash; "t"%char]
  else if decide (c = newline) then [backslash; "n"%char]
  else if decide (c = return_) then [backslash; "r"%char]
  else [c].
Definition escape (l : list ascii) : list ascii := concat (escape_byte <$> l).
Definition manifestPath (p : string) : list ascii :=
  let l := escape (bytes p) in
  match l with c :: _ => if decide (c = "#"%char) then backslash :: l else l | [] => l end.

Inductive link_state := Linked | LinkRecorded.
#[export] Instance link_state_eq_dec : EqDecision link_state.
Proof. solve_decision. Defined.
Definition state_text (s : link_state) : string := match s with Linked => "linked" | LinkRecorded => "link_recorded" end.
Record linkRow := mkLinkRow { l_name : string; l_primary : string; l_state : link_state }.
#[export] Instance linkRow_eq_dec : EqDecision linkRow.
Proof. solve_decision. Defined.

(** [links]: the join of the live links with the rows they need. *)
Definition link_state_of (r : FileRecord) : option link_state :=
  match fr_State r with StateLinked => Some Linked | StateLinkRecorded => Some LinkRecorded | _ => None end.
Definition link_row (t : records) (r : FileRecord) : option linkRow :=
  match link_state_of r, get_record (fr_LinkOf r) t with Some s, Some p => Some (mkLinkRow (fr_RelPath r) (fr_RelPath p) s) | _, _ => None end.
Definition links (dest : Z) (t : records) : list linkRow :=
  omap (link_row t) (isort (λ a b, str_cmp (fr_RelPath a) (fr_RelPath b)) (List.filter (λ r, fr_DestinationID r =? dest) t)).

Definition manifest_line (l : linkRow) : list ascii :=
  (manifestPath (l_name l) ++ tab :: manifestPath (l_primary l) ++ tab :: bytes (state_text (l_state l)))%list.
Definition lines (ls : list (list ascii)) : list ascii := concat ((λ l, l ++ [newline])%list <$> ls).
(** [LinkManifest] *)
Definition LinkManifest (ls : list linkRow) : string := of_bytes (lines ((bytes <$> linkManifestHeader) ++ (manifest_line <$> ls))%list).

(** ** Reading, as the header says *)

Fixpoint unescape (l : list ascii) : option (list ascii) :=
  match l with
  | [] => Some []
  | c :: l =>
      if decide (c = backslash) then
        match l with
        | [] => None
        | e :: l =>
            let put b := (b ::.) <$> unescape l in
            if decide (e = backslash) then put backslash
            else if decide (e = "t"%char) then put tab
            else if decide (e = "n"%char) then put newline
            else if decide (e = "r"%char) then put return_
            else if decide (e = "#"%char) then put "#"%char
            else None
        end
      else (c ::.) <$> unescape l
  end.
Definition read_state (l : list ascii) : option link_state :=
  if decide (l = bytes "linked") then Some Linked else if decide (l = bytes "link_recorded") then Some LinkRecorded else None.
Definition read_line (l : list ascii) : option linkRow :=
  match split_on tab l with
  | [n; p; s] =>
      match unescape n, unescape p, read_state s with
      | Some n, Some p, Some s => Some (mkLinkRow (of_bytes n) (of_bytes p) s)
      | _, _, _ => None
      end
  | _ => None
  end.
Definition comment (l : list ascii) : bool := match l with [] => true | c :: _ => bool_decide (c = "#"%char) end.
Definition read_manifest (b : string) : option (list linkRow) :=
  mapM read_line (List.filter (λ l, negb (comment l)) (split_on newline (bytes b))).

(** ** What was written is read back *)

Definition lacks (sep : ascii) (l : list ascii) : Prop := Forall (λ c, c ≠ sep) l.

Lemma split_on_lacks sep l : lacks sep l → split_on sep l = [l].
Proof. induction 1 as [|c l Hc _ IH]; [done|]. cbn [split_on]. by rewrite decide_False, IH. Qed.
Lemma split_on_cut sep a b : lacks sep a → split_on sep (a ++ sep :: b)%list = a :: split_on sep b.
Proof.
  induction 1 as [|c a Hc _ IH]; cbn [app split_on]; [by rewrite decide_True|].
  by rewrite decide_False, IH.
Qed.
Lemma split_on_lines ls : Forall (lacks newline) ls → split_on newline (lines ls) = (ls ++ [[]])%list.
Proof.
  induction 1 as [|l ls Hl _ IH]; [done|]. unfold lines in *. rewrite fmap_cons. cbn [concat].
  rewrite <-(assoc_L (++)%list). cbn [app]. by rewrite (split_on_cut _ _ _ Hl), IH.
Qed.

(** The bytes of an escaped path. *)
Definition separator (c : ascii) : Prop := c = tab ∨ c = newline ∨ c = return_.
Lemma escape_lacks (sep : ascii) l : separator sep → lacks sep (escape l).
Proof.
  intros Hsep. apply Forall_concat, Forall_fmap, Forall_forall. intros c _. unfold escape_byte. cbn.
  destruct Hsep as [-> | [-> | ->]]; repeat case_decide; rewrite ?Forall_cons, ?Forall_nil; split_and?; congruence || done.
Qed.
Lemma manifestPath_lacks sep p : separator sep → lacks sep (manifestPath p).
Proof.
  intros Hsep. unfold manifestPath. pose proof (escape_lacks sep (bytes p) Hsep) as H.
  destruct (escape _) as [|c l]; [done|]. case_decide; [|done]. constructor; [|done].
  by destruct Hsep as [-> | [-> | ->]].
Qed.
Lemma manifestPath_no_comment p l : comment (manifestPath p ++ tab :: l) = false.
Proof.
  unfold manifestPath. destruct (escape (bytes p)) as [|c k]; [done|]. case_decide; [done|].
  cbn. by apply bool_decide_eq_false.
Qed.

Lemma unescape_escape l : unescape (escape l) = Some l.
Proof.
  induction l as [|c l IH]; [done|]. unfold escape in *. rewrite fmap_cons. cbn [concat]. unfold escape_byte at 1.
  repeat case_decide; subst; cbn [app unescape]; try by rewrite IH.
  by rewrite decide_False, IH.
Qed.
Lemma unescape_manifestPath p : unescape (manifestPath p) = Some (bytes p).
Proof.
  unfold manifestPath. pose proof (unescape_escape (bytes p)) as H. destruct (escape (bytes p)) as [|c l]; [done|].
  case_decide as Hc; [|done]. subst c. cbn [unescape] in *. rewrite decide_False in H by done. by rewrite <-H.
Qed.
Lemma read_state_text s : read_state (bytes (state_text s)) = Some s.
Proof. by destruct s. Qed.

Lemma read_manifest_line l : read_line (manifest_line l) = Some l.
Proof.
  unfold read_line, manifest_line.
  rewrite split_on_cut by (apply manifestPath_lacks; by left).
  rewrite split_on_cut by (apply manifestPath_lacks; by left).
  rewrite split_on_lacks by (destruct l as [? ? []]; repeat (constructor; [done|]); constructor).
  rewrite !unescape_manifestPath, read_state_text, !of_bytes_bytes. by destruct l.
Qed.
Lemma state_text_lacks s : lacks newline (bytes (state_text s)).
Proof. destruct s; repeat (constructor; [done|]); constructor. Qed.
Lemma manifest_line_lacks l : lacks newline (manifest_line l).
Proof.
  assert (separator newline) by (by right; left). unfold manifest_line, lacks.
  apply Forall_app; split; [by apply manifestPath_lacks|]. constructor; [done|].
  apply Forall_app; split; [by apply manifestPath_lacks|]. constructor; [done|]. apply state_text_lacks.
Qed.
Lemma manifest_line_no_comment l : comment (manifest_line l) = false.
Proof. apply manifestPath_no_comment. Qed.

Lemma header_comments : Forall (λ h, comment (bytes h) = true) linkManifestHeader.
Proof. by repeat (constructor; [done|]). Qed.
Lemma header_lines : Forall (lacks newline ∘ bytes) linkManifestHeader.
Proof. apply (bool_decide_unpack _). by vm_compute. Qed.

(** The hardlink manifest says exactly which names are links of which: whatever bytes the paths at
    the destination are made of (tabs, newlines, backslashes, a leading #), reading
    [.bunkarr/links.tsv] the way its own header explains (comment lines, three fields, the escapes)
    gives back the links that were written, in order. *)
Theorem manifest_roundtrip (ls : list linkRow) : read_manifest (LinkManifest ls) = Some ls.
Proof.
  unfold read_manifest, LinkManifest. rewrite bytes_of_bytes, split_on_lines.
  2:{ apply Forall_app; split; [apply Forall_fmap, header_lines|].
      apply Forall_fmap, Forall_forall. intros; apply manifest_line_lacks. }
  rewrite !List.filter_app, (filter_none _ (bytes <$> linkManifestHeader)).
  2:{ intros x (h & -> & Hh)%list_elem_of_fmap. apply negb_false_iff. revert h Hh. by apply Forall_forall, header_comments. }
  rewrite (filter_all _ (manifest_line <$> ls)); cbn [app List.filter comment negb].
  - rewrite app_nil_r. apply mapM_fmap_Some. intros; apply read_manifest_line.
  - intros x (l & -> & _)%list_elem_of_fmap. by rewrite manifest_line_no_comment.
Qed.
