(* ===== verification/SyncExec.v ===== *)
(** * SyncExec: executing the items of a sync

    [itemRun] of [internal/syncer/exec.go] with the file operations of
    [internal/engines/filecopy] it uses, [intentFixer.settle] of [reconcile.go] and
    the comparisons of [identity.go].

    A program reads and changes a world: the files at the destination, the records and
    the job's items. What it cannot decide (refusals of the system, the source, the
    clock, cancellation, failures of the database) comes from an environment [env]
    that answers every question anew. Every change of the world is noted in the order
    it happens: the process may die after any of them. Logs, progress, counters for
    the summary and fault points are left out. *)
From stdpp Require Import base gmap list strings.
From Stdlib Require Import Ascii.
From S2P Require Import Prelude GoStrings DestNames Tiers SyncPlan DestFS FileRecords.
Open Scope string_scope.
Open Scope Z_scope.

(** ** Data *)

(** [filecopy.Error]: the side and the cause. *)
Inductive side := SideNone | SideSource | SideDestination.
#[export] Instance side_eq_dec : EqDecision side.
Proof. solve_decision. Defined.
Inductive cause := Errno (e : errno) | ErrSourceChanged | ErrNotRegular | ErrExists | ErrMismatch | ErrInvalidPath | ErrNotTemp | ErrOutsideRetention.
#[export] Instance cause_eq_dec : EqDecision cause.
Proof. solve_decision. Defined.

(** The messages of [itemErr]. *)
Inductive item_msg :=
| Vanished | NoLongerRegular | OtherSourceRecord | DestNotRegular | HashChanged | Appeared | HoldsContent (rel : string) | NoCopyYet (rel : string)
| AlreadyRecorded | UnknownAction | NoLongerRecorded | LinkChanged | SourceChangedSince | NotAtDestination | StillDepend | NotRetainedYet (rel : string).

(** Why an attempt ends before it executes anything. *)
Inductive stop_reason :=
| DestDisabled | SourceUnread (source : Z) | ScanFailed (source : Z) | SourceEmpty (source : Z) | TiersFailed | PlanFailed (source : Z) (e : plan_error)
| NoSpace | SpaceUnknown.

(** An error of a program: a failed item, a held item, a file operation, a cancelled
    context, a failed transaction ([None]: the database itself), a job that is put off, an
    attempt that ends before it executes. *)
Inductive xerr :=
| XItem (m : item_msg)
| XHeld (newSize oldSize : Z)
| XFile (s : side) (c : cause)
| XCancelled
| XDb (e : option db_error)
| XDefer
| XStop (why : stop_reason).

(** [Classify]: whether an error stops the job. *)
Definition Fatal (e : xerr) : bool :=
  match e with
  | XCancelled => true
  | XFile _ (Errno EStorage) => true
  | XFile SideDestination (Errno EPerm) => true
  | _ => false
  end.

Inductive outcome := OutcomeAdopted | OutcomeFallbackCopy | OutcomeAlreadyDone | OutcomeLinkRecorded | OutcomeRecordRemoved.
#[export] Instance outcome_eq_dec : EqDecision outcome.
Proof. solve_decision. Defined.

(** [Detail.Check] *)
Inductive check := NoCheck | CheckStat | CheckHash.
#[export] Instance check_eq_dec : EqDecision check.
Proof. solve_decision. Defined.

(** [Detail] with its execution state; [SyncPlan.Detail] is what the planner decided. The last
    three fields are those of verify and expire items ([xd_RowReason] is an expire item's
    [Reason]). *)
Record ItemDetail := mkItemDetail {
  xd_plan : Detail;
  xd_Temp : string;
  xd_TempDone : bool;
  xd_TempSize : Z;
  xd_TempMtimeNs : Z;
  xd_TempHash : string;
  xd_Retained : string;
  xd_RetainedSize : Z;
  xd_RetainedMtimeNs : Z;
  xd_RetainedHash : string;
  xd_RetainedReason : retain_reason;
  xd_Displaced : string;
  xd_DisplacedSize : Z;
  xd_DisplacedMtimeNs : Z;
  xd_Outcome : option outcome;
  xd_Check : check;
  xd_RetainedPath : string;
  xd_RowReason : retain_reason;
}.

(** [jobs.Item] *)
Record item := mkItemRow {
  i_ID : Z;
  i_RelPath : string;
  i_Action : ItemAction;
  i_Status : ItemStatus;
  i_Bytes : Z;
  i_Detail : ItemDetail;
}.

(** The files, the records, the items of the job and whether its plan is complete
    ([jobs.planned_at]). *)
Record world := mkWorld { w_fs : fs; w_recs : records; w_items : list item; w_planned : bool }.

Inductive VerifyMode := VerifyOff | VerifySample | VerifyFull.
#[export] Instance VerifyMode_eq_dec : EqDecision VerifyMode.
Proof. solve_decision. Defined.

(** What one run of a job fixes ([syncRun], [destinations.Handle]). *)
Record run := mkRun {
  x_dest : Z;
  x_job : Z;
  x_caps : Capabilities;
  x_settings : Settings;
  x_verify : VerifyMode;
  x_deletedDays : Z;
  x_allowChanges : bool;
  x_retentionDir : string;
  x_linkMode : bool;
  x_paths : list string;
  x_folders : gmap Z string;
  x_noreplace : bool;
}.

(** How the system refuses an operation: the storage or its connection is gone or full
    ([fatalErrnos]), permission denied, anything else. *)
Inductive refusal := RStorage | RPerm | ROther.
Definition refusal_errno (r : refusal) : errno :=
  match r with RStorage => EStorage | RPerm => EPerm | ROther => EInval end.

(** The answers of the environment to the n-th question. *)
Record env := mkEnv {
  e_refuse : nat → option refusal;
  e_db : nat → bool;
  e_cancel : nat → bool;
  e_now : nat → time;
  e_nlink : nat → Z;
  e_random : nat → Z;
  e_root : nat → Z → bool;
  e_stat : nat → Z → string → result errno FStat;
  e_read : nat → Z → string → list string * option refusal;
  e_inCatalog : nat → Z → string → bool;
  e_notBackedUp : nat → Z → string → string;
  e_checkRelease : nat → FileRecord → bool;
}.

(** ** Programs *)

Record st := mkSt { s_w : world; s_past : list world; s_n : nat; s_d : ItemDetail }.
Definition X (A : Type) : Type := st → result xerr A * st.
Definition xret {A} (a : A) : X A := λ s, (Ok a, s).
Definition xfail {A} (e : xerr) : X A := λ s, (Err e, s).
Definition xbind {A B} (m : X A) (k : A → X B) : X B :=
  λ s, let (r, s) := m s in match r with Ok a => k a s | Err e => (Err e, s) end.
(** The result of a program as a value. *)
Definition xtry {A} (m : X A) : X (result xerr A) := λ s, let (r, s) := m s in (Ok r, s).

Declare Scope exec_scope.
Delimit Scope exec_scope with exec.
Notation "'let!' x ':=' m 'in' k" := (xbind m (λ x, k))
  (at level 10, x pattern, m at level 100, k at level 200) : exec_scope.
Notation "m ;! k" := (xbind m (λ _, k)) (at level 100, k at level 200, right associativity) : exec_scope.
Notation "'when!' b 'fail!' e ;! k" := (if b then xfail e else k)
  (at level 10, b at level 100, e at level 99, k at level 200) : exec_scope.
Open Scope exec_scope.

Definition ask {A} (f : nat → A) : X A := λ s, (Ok (f (s_n s)), mkSt (s_w s) (s_past s) (S (s_n s)) (s_d s)).
Definition world_of : X world := λ s, (Ok (s_w s), s).
Definition change (w : world) : X unit := λ s, (Ok tt, mkSt w (w :: s_past s) (s_n s) (s_d s)).
Definition detail : X ItemDetail := λ s, (Ok (s_d s), s).
Definition set_detail (f : ItemDetail → ItemDetail) : X unit := λ s, (Ok tt, mkSt (s_w s) (s_past s) (s_n s) (f (s_d s))).

Definition with_fs (f : fs) (w : world) : world := mkWorld f (w_recs w) (w_items w) (w_planned w).
Definition with_recs (t : records) (w : world) : world := mkWorld (w_fs w) t (w_items w) (w_planned w).
Definition with_items (l : list item) (w : world) : world := mkWorld (w_fs w) (w_recs w) l (w_planned w).

(** Setters of the execution state. *)
Definition d_temp (p : string) (done : bool) (d : ItemDetail) : ItemDetail :=
  mkItemDetail (xd_plan d) p done (xd_TempSize d) (xd_TempMtimeNs d) (xd_TempHash d) (xd_Retained d) (xd_RetainedSize d) (xd_RetainedMtimeNs d)
    (xd_RetainedHash d) (xd_RetainedReason d) (xd_Displaced d) (xd_DisplacedSize d) (xd_DisplacedMtimeNs d) (xd_Outcome d)
    (xd_Check d) (xd_RetainedPath d) (xd_RowReason d).
Definition d_temp_done (size mtime : Z) (hash : string) (d : ItemDetail) : ItemDetail :=
  mkItemDetail (xd_plan d) (xd_Temp d) true size mtime hash (xd_Retained d) (xd_RetainedSize d) (xd_RetainedMtimeNs d)
    (xd_RetainedHash d) (xd_RetainedReason d) (xd_Displaced d) (xd_DisplacedSize d) (xd_DisplacedMtimeNs d) (xd_Outcome d)
    (xd_Check d) (xd_RetainedPath d) (xd_RowReason d).
Definition d_retained (p : string) (d : ItemDetail) : ItemDetail :=
  mkItemDetail (xd_plan d) (xd_Temp d) (xd_TempDone d) (xd_TempSize d) (xd_TempMtimeNs d) (xd_TempHash d) p (xd_RetainedSize d) (xd_RetainedMtimeNs d)
    (xd_RetainedHash d) (xd_RetainedReason d) (xd_Displaced d) (xd_DisplacedSize d) (xd_DisplacedMtimeNs d) (xd_Outcome d)
    (xd_Check d) (xd_RetainedPath d) (xd_RowReason d).
Definition d_retained_as (size mtime : Z) (hash : string) (why : retain_reason) (d : ItemDetail) : ItemDetail :=
  mkItemDetail (xd_plan d) (xd_Temp d) (xd_TempDone d) (xd_TempSize d) (xd_TempMtimeNs d) (xd_TempHash d) (xd_Retained d) size mtime
    hash why (xd_Displaced d) (xd_DisplacedSize d) (xd_DisplacedMtimeNs d) (xd_Outcome d)
    (xd_Check d) (xd_RetainedPath d) (xd_RowReason d).
Definition d_displaced (p : string) (size mtime : Z) (d : ItemDetail) : ItemDetail :=
  mkItemDetail (xd_plan d) (xd_Temp d) (xd_TempDone d) (xd_TempSize d) (xd_TempMtimeNs d) (xd_TempHash d) (xd_Retained d) (xd_RetainedSize d) (xd_RetainedMtimeNs d)
    (xd_RetainedHash d) (xd_RetainedReason d) p size mtime (xd_Outcome d)
    (xd_Check d) (xd_RetainedPath d) (xd_RowReason d).
Definition d_outcome (o : outcome) (d : ItemDetail) : ItemDetail :=
  mkItemDetail (xd_plan d) (xd_Temp d) (xd_TempDone d) (xd_TempSize d) (xd_TempMtimeNs d) (xd_TempHash d) (xd_Retained d) (xd_RetainedSize d) (xd_RetainedMtimeNs d)
    (xd_RetainedHash d) (xd_RetainedReason d) (xd_Displaced d) (xd_DisplacedSize d) (xd_DisplacedMtimeNs d) (Some o)
    (xd_Check d) (xd_RetainedPath d) (xd_RowReason d).
Definition set_outcome (o : outcome) : X unit := set_detail (d_outcome o).

(** Where a program runs: [unicode.SimpleFold] and SHA-256, which are libraries', the
    run and its environment. *)
Class Exec := mkExec {
  simple_fold : Z → Z;
  sha : string → string;
  the_run : run;
  the_env : env;
}.

Section exec.
Context `{Exec}.
#[local] Abbreviation c := the_run.
#[local] Abbreviation E := the_env.

(** ** The file operations of the engine *)

(** [sideErr]: an error without a side gets one. *)
Definition on_side (sd : side) (e : xerr) : xerr := match e with XFile SideNone c => XFile sd c | e => e end.
Definition sideErr {A} (sd : side) (m : X A) : X A :=
  λ s, let (r, s) := m s in match r with Ok a => (Ok a, s) | Err e => (Err (on_side sd e), s) end.

(** A call the system may refuse. *)
Definition may_refuse (sd : side) : X unit :=
  let! r := ask (e_refuse E) in
  match r with Some r => xfail (XFile sd (Errno (refusal_errno r))) | None => xret tt end.
Definition fs_read {A} (sd : side) (op : fs → result errno A) : X A :=
  may_refuse sd ;!
  let! w := world_of in
  match op (w_fs w) with Ok a => xret a | Err e => xfail (XFile sd (Errno e)) end.
Definition fs_call (sd : side) (op : fs → result errno fs) : X unit :=
  may_refuse sd ;!
  let! w := world_of in
  match op (w_fs w) with Ok f => change (with_fs f w) | Err e => xfail (XFile sd (Errno e)) end.
Definition fs_edit (op : fs → fs) : X unit := let! w := world_of in change (with_fs (op (w_fs w)) w).

(** [filecopy.Lstat] at the destination. *)
Definition Lstat (rel : string) : X FStat :=
  when! negb (checkRel rel) fail! XFile SideNone ErrInvalidPath ;!
  let! nl := ask (e_nlink E) in
  fs_read SideNone (λ f, os_lstat nl f rel).

Definition not_exist (e : xerr) : bool :=
  match e with XFile _ (Errno ENoEnt) | XFile _ (Errno ENotDir) => true | _ => false end.

(** [itemRun.lstat] *)
Definition lstat (rel : string) : X (option FStat) :=
  if bool_decide (rel = "") then xret None
  else
    let! r := xtry (Lstat rel) in
    match r with
    | Ok st => xret (Some st)
    | Err e => if not_exist e then xret None else xfail (on_side SideDestination e)
    end.

(** [syncDirs]: both directories are fsynced; the tree does not change. *)
Definition syncDirs : X unit := may_refuse SideDestination ;! may_refuse SideDestination.

Definition mkParents (rel : string) : X unit :=
  if bool_decide (parentDir rel = ".") then xret tt else fs_call SideDestination (λ f, os_mkdir_all f (parentDir rel)).

Definition as_exists {A} (m : X A) : X A :=
  λ s, let (r, s) := m s in
       match r with Err (XFile sd (Errno EExist)) => (Err (XFile sd ErrExists), s) | r => (r, s) end.

(** [rename]: with [noReplace] through [renameat2] where the file system has it, else
    an lstat before [rename(2)]. *)
Definition rename (old new : string) (noReplace : bool) : X unit :=
  if negb noReplace then fs_call SideDestination (λ f, os_rename f old new)
  else if x_noreplace c then as_exists (fs_call SideDestination (λ f, os_rename_noreplace f old new))
  else
    let! r := xtry (fs_read SideDestination (λ f, os_lstat 0 f new)) in
    match r with
    | Ok _ => xfail (XFile SideDestination ErrExists)
    | Err (XFile _ (Errno ENoEnt)) => fs_call SideDestination (λ f, os_rename f old new)
    | Err e => xfail e
    end.

(** A path that must be a regular file. *)
Definition require_regular (rel : string) : X unit :=
  let! st := fs_read SideDestination (λ f, os_lstat 0 f rel) in
  when! negb (Regular st) fail! XFile SideDestination ErrNotRegular ;! xret tt.

Definition Link (old new : string) : X unit :=
  when! negb (checkRel old) || negb (checkWritable new) fail! XFile SideDestination ErrInvalidPath ;!
  require_regular old ;!
  mkParents new ;!
  as_exists (fs_call SideDestination (λ f, os_link f old new)) ;!
  may_refuse SideDestination.

Definition Move (from to : string) (noReplace : bool) : X unit :=
  when! negb (checkWritable from) || negb (checkWritable to) fail! XFile SideDestination ErrInvalidPath ;!
  require_regular from ;!
  mkParents to ;!
  rename from to noReplace ;!
  syncDirs.

Definition Commit (temp final : string) (noReplace : bool) : X unit :=
  when! negb (checkRel temp) fail! XFile SideDestination ErrInvalidPath ;!
  when! negb (is_temp temp) fail! XFile SideDestination ErrNotTemp ;!
  when! negb (checkWritable final) fail! XFile SideDestination ErrInvalidPath ;!
  require_regular temp ;!
  rename temp final noReplace ;!
  syncDirs.

Definition maxRetentionSuffix : nat := Z.to_nat 9999.
(** The first free candidate from the [i]-th on. *)
Fixpoint retention_target (n : nat) (base : string) (i : Z) : X string :=
  match n with
  | O => xfail (XFile SideDestination ErrExists)
  | S n =>
      let cand := suffixed base i in
      let! r := xtry (fs_read SideDestination (λ f, os_lstat 0 f cand)) in
      match r with
      | Ok _ => retention_target n base (i + 1)
      | Err (XFile _ (Errno ENoEnt)) => xret cand
      | Err e => xfail e
      end
  end.
Definition RetentionTarget (dir rel : string) : X string :=
  when! negb (checkRetentionDir dir) fail! XFile SideDestination ErrOutsideRetention ;!
  when! negb (checkRel rel) fail! XFile SideDestination ErrInvalidPath ;!
  retention_target (S maxRetentionSuffix) (path_join [dir; rel]) 0.

Definition SetMtime (rel : string) (mtime : Z) : X unit :=
  when! negb (checkWritable rel) fail! XFile SideDestination ErrInvalidPath ;!
  require_regular rel ;!
  may_refuse SideDestination ;!
  fs_edit (λ f, os_chtimes mtime f rel).

Definition CleanupTemp (rel : string) : X unit :=
  when! negb (checkRel rel) fail! XFile SideDestination ErrInvalidPath ;!
  when! negb (is_temp rel) fail! XFile SideDestination ErrNotTemp ;!
  let! r := xtry (fs_read SideDestination (λ f, os_lstat 0 f rel)) in
  match r with
  | Err (XFile _ (Errno ENoEnt)) => xret tt
  | Err e => xfail e
  | Ok st =>
      when! negb (Regular st) fail! XFile SideDestination ErrNotRegular ;!
      fs_call SideDestination (λ f, os_remove f rel)
  end.

(** *** Reading the source and hashing *)

Definition src_stat (sd : side) (src : Z) (rel : string) : X FStat :=
  when! negb (checkRel rel) fail! XFile sd ErrInvalidPath ;!
  let! f := ask (e_stat E) in
  match f src rel with Ok st => xret st | Err e => xfail (XFile sd (Errno e)) end.

(** [openRegular] at the source: lstat, open, fstat. Every error carries [sd]. *)
Definition open_source (sd : side) (src : Z) (rel : string) : X FStat :=
  let! pre := src_stat sd src rel in
  when! negb (Regular pre) fail! XFile sd ErrNotRegular ;!
  may_refuse sd ;!
  let! st := src_stat sd src rel in
  when! negb (Regular st) || negb (fs_Dev st =? fs_Dev pre) || negb (fs_Ino st =? fs_Ino pre) fail! XFile sd ErrSourceChanged ;!
  xret st.

Definition HashPrefix : string := "sha256:".
Definition hash_of (data : string) : string := HashPrefix +:+ sha data.
Definition concat_strings (l : list string) : string := foldr String.append "" l.

(** [hashReader]: the context is looked at before every read. *)
Fixpoint read_chunks (chunks : list string) : X unit :=
  let! stop := ask (e_cancel E) in
  if stop : bool then xfail XCancelled
  else match chunks with [] => xret tt | _ :: l => read_chunks l end.

(** [HashFile]: [openRegular] gets no side, and tags its errors with the destination
    whichever tree the file is in; errors of the reads carry none. *)
Definition HashSource (src : Z) (rel : string) : X string :=
  open_source SideDestination src rel ;!
  let! f := ask (e_read E) in
  let (chunks, err) := f src rel in
  read_chunks chunks ;!
  match err with
  | Some r => xfail (XFile SideNone (Errno (refusal_errno r)))
  | None => xret (hash_of (concat_strings chunks))
  end.
Definition open_dest (rel : string) : X unit :=
  when! negb (checkRel rel) fail! XFile SideDestination ErrInvalidPath ;!
  require_regular rel ;!
  may_refuse SideDestination.
Definition HashDest (rel : string) : X string :=
  open_dest rel ;!
  read_chunks [""] ;!
  may_refuse SideNone ;!
  let! w := world_of in
  xret (hash_of (default "" (data_at (w_fs w) rel))).

(** [VerifyTemp]: [VerifyFile] of the temp file's size and hash. *)
Definition VerifyTemp (rel : string) (size : Z) (hash : string) : X unit :=
  open_dest rel ;!
  let! w := world_of in
  let data := default "" (data_at (w_fs w) rel) in
  when! negb (data_size data =? size) fail! XFile SideDestination ErrMismatch ;!
  read_chunks [""] ;!
  may_refuse SideDestination ;!
  when! negb (bool_decide (hash = "")) && negb (bool_decide (hash_of data = hash)) fail! XFile SideDestination ErrMismatch ;!
  xret tt.

(** *** [WriteTemp] *)

Record Temp := mkTemp { tp_Rel : string; tp_Size : Z; tp_MtimeNs : Z; tp_Hash : string }.

Definition hex_digit (n : Z) : ascii := chr (if n <? 10 then 48 + n else 87 + n).
Definition hex12 (z : Z) : list ascii := (λ k : nat, hex_digit (z / 16 ^ (11 - Z.of_nat k) mod 16)) <$> seq 0 12.
(** [utf8.RuneStart] *)
Definition rune_start (a : ascii) : bool := negb (cont_in 128 191 a).
Fixpoint cut_back (n : nat) (l : list ascii) : nat :=
  match n with
  | O => O
  | S m => match l !! n with Some a => if rune_start a then n else cut_back m l | None => n end
  end.
Definition truncateUTF8 (l : list ascii) (n : nat) : list ascii := if bool_decide (length l ≤ n)%nat then l else take (cut_back n l) l.
Definition maxTempBase : nat := 229.
Definition tempName (base : string) (random : Z) : string :=
  of_bytes (bytes TempPrefix ++ truncateUTF8 (bytes base) maxTempBase ++ "-"%char :: hex12 random)%list.

(** [copyLoop]: it stops early when the source grows beyond [size]. *)
Fixpoint copy_loop (temp : string) (size : Z) (n : Z) (chunks : list string) (err : option refusal) : X Z :=
  let! stop := ask (e_cancel E) in
  if stop : bool then xfail XCancelled
  else match chunks with
       | [] => match err with Some r => xfail (XFile SideSource (Errno (refusal_errno r))) | None => xret n end
       | b :: chunks =>
           may_refuse SideDestination ;!
           fs_edit (λ f, os_append b f temp) ;!
           let n := n + data_size b in
           when! size <? n fail! XFile SideSource ErrSourceChanged ;!
           copy_loop temp size n chunks err
       end.

Definition fill_temp (src : Z) (srcRel temp : string) (before : FStat) (hash : bool) : X Temp :=
  let! f := ask (e_read E) in
  let (chunks, err) := f src srcRel in
  let! n := copy_loop temp (fs_Size before) 0 chunks err in
  may_refuse SideDestination ;!
  let! after := src_stat SideSource src srcRel in
  when! negb (fs_Size after =? fs_Size before) || negb (fs_MtimeNs after =? fs_MtimeNs before) fail! XFile SideSource ErrSourceChanged ;!
  when! negb (n =? fs_Size before) fail! XFile SideSource ErrSourceChanged ;!
  may_refuse SideDestination ;!
  may_refuse SideDestination ;!
  fs_edit (λ f, os_chtimes (fs_MtimeNs before) f temp) ;!
  let! got := fs_read SideDestination (λ f, os_lstat 0 f temp) in
  when! negb (fs_Size got =? n) fail! XFile SideDestination ErrMismatch ;!
  xret (mkTemp temp n (fs_MtimeNs before) (if hash then hash_of (concat_strings chunks) else "")).

Definition WriteTemp (src : Z) (srcRel dstRel : string) (hash : bool) (onTemp : string → X unit) : X Temp :=
  when! negb (checkRel srcRel) fail! XFile SideSource ErrInvalidPath ;!
  when! negb (checkWritable dstRel) fail! XFile SideDestination ErrInvalidPath ;!
  let! stop := ask (e_cancel E) in
  when! stop fail! XCancelled ;!
  let! before := open_source SideSource src srcRel in
  mkParents dstRel ;!
  let! random := ask (e_random E) in
  let temp := path_join [parentDir dstRel; tempName (path_base dstRel) random] in
  onTemp temp ;!
  let! now := ask (e_now E) in
  fs_call SideDestination (λ f, os_create now f temp) ;!
  let! r := xtry (fill_temp src srcRel temp before hash) in
  match r with
  | Ok t => xret t
  | Err e => let! _ := xtry (fs_call SideDestination (λ f, os_remove f temp)) in xfail e
  end.
(** ** Comparing names ([identity.go]) *)

Definition sameFile (a b : FStat) : bool := (fs_Dev a =? fs_Dev b) && (fs_Ino a =? fs_Ino b).

(** [Handle.InodeIdentity]: the check it may run first can be cancelled. *)
Definition inodeIdentity : X bool :=
  let! stop := ask (e_cancel E) in
  if stop : bool then xfail XCancelled else xret (InodeIdentity (x_caps c)).

Definition sameDestFile (a : string) (sa : FStat) (b : string) (sb : FStat) : X bool :=
  let! id := inodeIdentity in
  if id : bool then xret (sameFile sa sb)
  else if negb (Regular sa) || negb (Regular sb) || negb (fs_Size sa =? fs_Size sb) || negb (fs_MtimeNs sa =? fs_MtimeNs sb) then xret false
  else
    let! ha := sideErr SideDestination (HashDest a) in
    let! hb := sideErr SideDestination (HashDest b) in
    xret (bool_decide (ha = hb)).

Definition hardlinkOf (a : string) (sa : FStat) (b : string) (sb : FStat) : X bool :=
  let! id := inodeIdentity in
  if negb id && ((fs_Nlink sa =? 1) || (fs_Nlink sb =? 1)) then xret false else sameDestFile a sa b sb.

Definition caseVariant (from : string) (fromSt : FStat) (to : string) (toSt : FStat) : X bool :=
  let! id := inodeIdentity in
  if id : bool then xret (sameFile fromSt toSt)
  else
    let! names := sideErr SideDestination (fs_read SideNone (λ f, os_readdirnames f (path_dir to))) in
    let same := List.filter (λ n, bool_decide (FoldKey simple_fold n = FoldKey simple_fold (path_base to))) names in
    xret (forallb (λ n, bool_decide (n = path_base from)) same && negb (bool_decide (same = []))).

(** ** The database *)

Definition db_ok : X unit := let! bad := ask (e_db E) in if bad : bool then xfail (XDb None) else xret tt.
Definition db_read {A} (f : records → A) : X A := db_ok ;! let! w := world_of in xret (f (w_recs w)).
Definition db_write (f : time → records → result db_error records) : X unit :=
  let! now := ask (e_now E) in
  db_ok ;!
  let! w := world_of in
  match f now (w_recs w) with
  | Ok t => change (with_recs t w)
  | Err e => xfail (XDb (Some e))
  end.

Definition set_item (id : Z) (g : item → item) (l : list item) : list item := (λ i, if i_ID i =? id then g i else i) <$> l.
Definition update_item (id : Z) (g : item → item) : X unit :=
  db_ok ;!
  let! w := world_of in
  if existsb (λ i, i_ID i =? id) (w_items w) then change (with_items (set_item id g (w_items w)) w)
  else xfail (XDb (Some RowNotFound)).
Definition SetDetail (id : Z) (d : ItemDetail) : X unit :=
  update_item id (λ i, mkItemRow (i_ID i) (i_RelPath i) (i_Action i) (i_Status i) (i_Bytes i) d).
Definition FinishItem (id : Z) (status : ItemStatus) (bytes : Z) : X unit :=
  update_item id (λ i, mkItemRow (i_ID i) (i_RelPath i) (i_Action i) status bytes (i_Detail i)).

(** [expiry] *)
Definition expiry (now : time) : time :=
  let days := if x_deletedDays c <? 1 then 30 else x_deletedDays c in
  now + i64 (i64 (days * 24) * ns_per_hour).

Definition insertRetained (rec : FileRecord) (t : records) : result db_error records :=
  if retainedExists rec t then Ok t else insertRecord rec t.

(** ** [intentFixer.settle] *)

Record retainedVersion := mkRetainedVersion { rv_mtimeNs : Z; rv_hash : string; rv_reason : retain_reason }.

(** Empty directories below [top], the nearest first ([pruneLive], [pruneRetention]). *)
Fixpoint prune_dirs (stop : string → bool) (dirs : list string) : X unit :=
  match dirs with
  | [] => xret tt
  | d :: dirs =>
      if stop d then xret tt
      else
        let! st := xtry (Lstat d) in
        match st with
        | Ok st =>
            if bool_decide (fs_Mode st = ModeDir) then
              let! r := xtry (fs_call SideDestination (λ f, os_remove f d)) in
              match r with Ok _ => prune_dirs stop dirs | Err _ => xret tt end
            else xret tt
        | Err _ => xret tt
        end
  end.

Definition settled_row (rec : FileRecord) (v : option retainedVersion) (kept : FStat) (now : time) : FileRecord :=
  let v := match v with
           | Some v => v
           | None =>
               let why := if bool_decide (fr_Reason rec = NoReason) then ReasonDeleted else fr_Reason rec in
               mkRetainedVersion (if bool_decide (why = ReasonDamaged) then fs_MtimeNs kept else fr_MtimeNs rec) "" why
           end in
  mkRecord 0 (fr_DestinationID rec) (fr_SourceID rec) (fr_RelPath rec) (fr_SourceRelPath rec) (fs_Size kept) (rv_mtimeNs v) (rv_hash v) 0
    StateRetained (fr_RetainedPath rec) (rv_reason v) (x_job c) None None (Some now) (Some (expiry now)).

(** Whether the file goes back, stays and is recorded, and whether the path then holds a
    file nothing is known of. *)
Definition settle_file (rec : FileRecord) (kept : FStat) : X (bool * bool) :=
  let target := fr_RetainedPath rec in
  let! cur := xtry (lstat (fr_RelPath rec)) in
  match cur with
  | Err _ => xret (true, false)
  | Ok (Some cur) =>
      let! same := sameDestFile (fr_RelPath rec) cur target kept in
      xret (true, negb same)
  | Ok None =>
      let! moved := xtry (Move target (fr_RelPath rec) true) in
      match moved with
      | Err _ => xret (true, false)
      | Ok _ =>
          prune_dirs (λ d, negb (has_prefix d (RetentionRoot +:+ "/"))) (parents target) ;!
          xret (false, false)
      end
  end.

Definition settle (rec : FileRecord) (v : option retainedVersion) : X unit :=
  let target := fr_RetainedPath rec in
  let! kept := lstat target in
  let! (record, unknown) := match kept with
    | Some st => when! negb (Regular st) fail! XFile SideDestination ErrNotRegular ;! settle_file rec st
    | None => xret (false, false)
    end in
  db_write (λ now t,
    let t := if unknown : bool then mark_unknown (fr_ID rec) target t else t in
    let? t := match kept with
              | Some st => if record : bool then insertRetained (settled_row rec v st now) t else Ok t
              | None => Ok t
              end in
    Ok (clearIntentTx (fr_ID rec) target t)).
(** ** [itemRun] *)

(** The constants of the item that runs: [x.it]. *)
Context (it : item).
#[local] Abbreviation dest := (i_RelPath it).
Definition plan_of : X Detail := let! d := detail in xret (xd_plan d).

Definition saveDetail : X unit := let! d := detail in SetDetail (i_ID it) d.
Definition finish (status : ItemStatus) (bytes : Z) : X unit :=
  let! d := detail in
  (if bool_decide (is_Some (xd_Outcome d)) then SetDetail (i_ID it) d else xret tt) ;!
  FinishItem (i_ID it) status bytes.
Definition done (bytes : Z) : X unit := finish ItemDone bytes.
Definition failItem : X unit := FinishItem (i_ID it) ItemFailed 0.

Definition sourceStat (rel : string) : X (option FStat) :=
  let! p := plan_of in
  let! r := xtry (src_stat SideSource (dt_SourceID p) rel) in
  match r with
  | Ok st => xret (Some st)
  | Err e => if not_exist e then xret None else xfail e
  end.

Definition sourceFile : X FStat :=
  let! p := plan_of in
  let! st := sourceStat (dt_Source p) in
  match st with
  | None => xfail (XItem Vanished)
  | Some st => when! negb (Regular st) fail! XItem NoLongerRegular ;! xret st
  end.

Definition removeTemp : X unit :=
  let! d := detail in
  if bool_decide (xd_Temp d = "") then xret tt
  else let! _ := xtry (CleanupTemp (xd_Temp d)) in xret tt.

(** It stays when it is the new version of a half-done replacement. *)
Definition cleanupTemp : X unit :=
  let! d := detail in
  if bool_decide (xd_Temp d = "") then xret tt
  else if xd_TempDone d && negb (bool_decide (xd_Retained d = "")) then
    let! t := xtry (lstat (xd_Temp d)) in
    let! r := xtry (lstat (xd_Retained d)) in
    let! f := xtry (lstat dest) in
    match t, r, f with
    | Ok t, Ok r, Ok f =>
        let complete := match t with Some st => fs_Size st =? xd_TempSize d | None => false end in
        if complete && bool_decide (is_Some r) && negb (bool_decide (is_Some f)) then xret tt else removeTemp
    | _, _, _ => xret tt
    end
  else removeTemp.

Definition retainedRow (p : Detail) (rel sourceRel retained : string) (size mtime : Z) (hash : string) (why : retain_reason) (now : time) : FileRecord :=
  mkRecord 0 (x_dest c) (dt_SourceID p) rel sourceRel size mtime hash 0 StateRetained retained why (x_job c) None None (Some now) (Some (expiry now)).

Definition targeted : bool := negb (bool_decide (x_paths c = [])).
Definition inTargets (folder p : string) : bool :=
  existsb (λ t, let td := path_join [folder; t] in bool_decide (p = td) || has_prefix p (td +:+ "/")) (x_paths c).
Definition pruneLive (rel : string) : X unit :=
  let! p := plan_of in
  let folder := default "" (x_folders c !! dt_SourceID p) in
  if bool_decide (folder = "") then xret tt
  else prune_dirs (λ d, negb (has_prefix d (folder +:+ "/")) || (targeted && negb (inTargets folder d))) (parents rel).

(** *** Adoption and displacement *)

Definition tryAdopt (fin src : FStat) : X (option string) :=
  if negb (Regular fin) || negb (fs_Size fin =? fs_Size src) then xret None
  else match AdoptExisting (x_settings c) with
       | AdoptSizeMtime =>
           xret (if MtimeMatch (fs_MtimeNs fin) (fs_MtimeNs src) (MtimeGranularityNs (x_caps c)) (MtimeWindowSec (x_settings c)) then Some "" else None)
       | AdoptSizeHash =>
           let! p := plan_of in
           let! sh := sideErr SideSource (HashSource (dt_SourceID p) (dt_Source p)) in
           let! dh := sideErr SideDestination (HashDest dest) in
           if negb (bool_decide (sh = dh)) then xret None
           else
             let! after := sourceFile in
             when! negb (fs_Size after =? fs_Size src) || negb (fs_MtimeNs after =? fs_MtimeNs src) fail! XItem HashChanged ;!
             (if MtimeMatch (fs_MtimeNs fin) (fs_MtimeNs src) (MtimeGranularityNs (x_caps c)) 0 then xret tt
              else SetMtime dest (fs_MtimeNs src)) ;!
             xret (Some sh)
       | AdoptOff => xret None
       end.

Definition present_row (p : Detail) (size mtime : Z) (hash : string) (now : time) (id : Z) : FileRecord :=
  mkRecord id (x_dest c) (dt_SourceID p) dest (dt_Source p) size mtime hash 0 StatePresent "" NoReason (x_job c) (Some now) None None None.
Definition adoptedTx (p : Detail) (src : FStat) (hash : string) (now : time) (t : records) : result db_error records :=
  match liveAt (x_dest c) dest t with
  | Some cur =>
      guard? fr_SourceID cur =? dt_SourceID p else OtherSource;
      updateRecord (present_row p (fs_Size src) (fs_MtimeNs src) hash now (fr_ID cur)) t
  | None => insertRecord (present_row p (fs_Size src) (fs_MtimeNs src) hash now 0) t
  end.
Definition recordAdopted (src : FStat) (hash : string) : X unit := let! p := plan_of in db_write (adoptedTx p src hash).

Definition recordDisplaced : X unit :=
  let! d := detail in
  db_write (λ now, insertRetained (retainedRow (xd_plan d) dest (dt_Source (xd_plan d)) (xd_Displaced d) (xd_DisplacedSize d)
                                     (xd_DisplacedMtimeNs d) "" ReasonDisplaced now)).
Definition recordEarlierDisplace : X unit :=
  let! d := detail in
  if bool_decide (xd_Displaced d = "") then xret tt
  else let! st := lstat (xd_Displaced d) in
       match st with Some _ => recordDisplaced | None => xret tt end.

(** A name already chosen is used first; one taken meanwhile is replaced by the next. *)
Fixpoint displace_loop (attempts : nat) (at_ : string) (st : FStat) : X unit :=
  let! d := detail in
  (if bool_decide (xd_Displaced d = "") then
     let! target := RetentionTarget (x_retentionDir c) at_ in
     set_detail (d_displaced target (fs_Size st) (fs_MtimeNs st)) ;! saveDetail
   else xret tt) ;!
  let! d := detail in
  let! r := xtry (Move at_ (xd_Displaced d) true) in
  match r, attempts with
  | Ok _, _ => xret tt
  | Err (XFile _ ErrExists), S n => set_detail (λ d, d_displaced "" (xd_DisplacedSize d) (xd_DisplacedMtimeNs d) d) ;! displace_loop n at_ st
  | Err e, _ => xfail e
  end.
Definition displace (at_ : string) (st : FStat) : X unit :=
  when! negb (Regular st) fail! XItem DestNotRegular ;!
  let! d := detail in
  (if bool_decide (xd_Displaced d = "") then xret tt
   else
     let! earlier := lstat (xd_Displaced d) in
     match earlier with
     | Some _ => recordDisplaced ;! set_detail (λ d, d_displaced "" (xd_DisplacedSize d) (xd_DisplacedMtimeNs d) d)
     | None => xret tt
     end) ;!
  displace_loop 3 at_ st ;!
  recordDisplaced.

(** *** Keeping an old version *)

Definition suspect (rec : FileRecord) (fin : FStat) : X bool :=
  let! p := plan_of in
  if bool_decide (dt_Reason p = RRepair) then xret true
  else if negb (bool_decide (fr_State rec = StateLinked)) || (fr_LinkOf rec =? 0) then xret false
  else
    let! prim := db_read (get_record (fr_LinkOf rec)) in
    match prim with
    | None => xret true
    | Some prim =>
        if negb (bool_decide (fr_State prim = StatePresent)) then xret true
        else
          let! id := inodeIdentity in
          if negb id then xret true
          else let! pf := lstat (fr_RelPath prim) in
               xret (match pf with Some pf => negb (sameFile pf fin) | None => true end)
    end.

Definition oldVersion (rec : FileRecord) (rel : string) (fin : FStat) (why : retain_reason) : X retainedVersion :=
  let damaged := mkRetainedVersion (fs_MtimeNs fin) "" ReasonDamaged in
  let plain := mkRetainedVersion (fr_MtimeNs rec) "" why in
  if bool_decide (fr_State rec = StateMissing) then xret damaged
  else
    let! sus := suspect rec fin in
    if negb (fs_Size fin =? fr_Size rec) then xret (if sus : bool then damaged else plain)
    else if negb sus then xret (mkRetainedVersion (fr_MtimeNs rec) (fr_Hash rec) why)
    else if bool_decide (fr_Hash rec = "") then xret plain
    else
      let! got := xtry (HashDest rel) in
      match got with
      | Err e =>
          let e := on_side SideDestination e in
          let! stop := ask (e_cancel E) in
          if stop || Fatal e then xfail e else xret damaged
      | Ok h => xret (if bool_decide (h = fr_Hash rec) then mkRetainedVersion (fr_MtimeNs rec) h why else damaged)
      end.

(** The loop of [keepInRetention]: [true] hardlinks, [false] moves. *)
Fixpoint keepInRetention (attempts : nat) (rec : FileRecord) (rel : string) (fin : FStat) (link : bool) (why : retain_reason) : X unit :=
  let! d := detail in
  (if bool_decide (xd_Retained d = "") then
     let! v := oldVersion rec rel fin why in
     let! target := RetentionTarget (x_retentionDir c) rel in
     set_detail (d_retained target) ;!
     set_detail (d_retained_as (fs_Size fin) (rv_mtimeNs v) (rv_hash v) (rv_reason v)) ;!
     saveDetail
   else xret tt) ;!
  let! d := detail in
  db_write (λ _, setIntentTx (x_dest c) rel (xd_Retained d) (xd_RetainedReason d)) ;!
  let! r := xtry (if link : bool then Link rel (xd_Retained d) else Move rel (xd_Retained d) true) in
  match r, attempts with
  | Ok _, _ => xret tt
  | Err (XFile _ ErrExists), S n => set_detail (d_retained "") ;! keepInRetention n rec rel fin link why
  | Err e, _ => xfail e
  end.

(** [putBack] *)
Definition putBack : X unit :=
  let! d := detail in
  if bool_decide (xd_Retained d = "") then xret tt
  else
    let! rec := xtry (db_read (if bool_decide (i_Action it = ActionRetain) then get_record (dt_RecordID (xd_plan d)) else liveAt (x_dest c) dest)) in
    match rec with
    | Ok (Some rec) =>
        if live rec && bool_decide (fr_RetainedPath rec = xd_Retained d) then
          let v := if bool_decide (xd_RetainedReason d = NoReason) then None
                   else Some (mkRetainedVersion (xd_RetainedMtimeNs d) (xd_RetainedHash d) (xd_RetainedReason d)) in
          let! _ := xtry (settle rec v) in xret tt
        else xret tt
    | _ => xret tt
    end.

(** *** Copy, update, repair *)

(** [releaseDependents], [placedTx] *)
Definition releases (cur r : FileRecord) : bool :=
  links_to (fr_ID cur) r && bool_decide (fr_State r = StateLinked) && (fr_Size r =? fr_Size cur) && (fr_MtimeNs r =? fr_MtimeNs cur).
Definition releaseDependents (cur : FileRecord) (t : records) : records :=
  if bool_decide (fr_State cur = StateMissing) then t
  else (λ r, if releases cur r then with_link 0 (with_state StatePresent r) else r) <$> t.

Definition placedTx (d : ItemDetail) (retained : bool) (now : time) (t : records) : result db_error records :=
  let p := xd_plan d in
  let row := present_row p (xd_TempSize d) (xd_TempMtimeNs d) (xd_TempHash d) now in
  let? t := match liveAt (x_dest c) dest t with
            | Some cur =>
                guard? fr_SourceID cur =? dt_SourceID p else OtherSource;
                let t := if bool_decide (fr_State cur = StateMissing) then loseLinks (fr_ID cur) (dt_LostLinks p) t else t in
                updateRecord (row (fr_ID cur)) (releaseDependents cur t)
            | None => insertRecord (row 0) t
            end in
  if negb retained || bool_decide (xd_Retained d = "") then Ok t
  else insertRetained (retainedRow p dest (dt_Source p) (xd_Retained d) (xd_RetainedSize d) (xd_RetainedMtimeNs d) (xd_RetainedHash d)
                         (xd_RetainedReason d) now) t.
Definition recordPlaced (retained : bool) : X unit := let! d := detail in db_write (placedTx d retained).

(** What a dependent says against replacing the content of [rec] with [src]. *)
Definition dependent_blocks (rec : FileRecord) (src : FStat) (p : Detail) (r : FileRecord) : X unit :=
  let missing := bool_decide (fr_State rec = StateMissing) in
  let restored := (fr_Size r =? fs_Size src) && MtimeMatch (fr_MtimeNs r) (fs_MtimeNs src) (MtimeGranularityNs (x_caps c)) 0 in
  let lost := mem (fr_ID r) (dt_LostLinks p) in
  let other := negb (fr_Size r =? fr_Size rec) || negb (fr_MtimeNs r =? fr_MtimeNs rec) in
  if negb (bool_decide (fr_State r = StateLinkRecorded)) || (if missing then restored || lost else other) then xret tt
  else
    let! needs := (if fr_SourceID r =? dt_SourceID p then
                     let! st := sourceStat (fr_SourceRelPath r) in
                     xret (match st with Some st => (fs_Size st =? fr_Size r) && (fs_MtimeNs st =? fr_MtimeNs r) | None => false end)
                   else xret true) in
    if negb needs then xret tt
    else xfail (XItem (if missing then NoCopyYet (fr_RelPath r) else HoldsContent (fr_RelPath rec))).
Fixpoint check_all (rec : FileRecord) (src : FStat) (p : Detail) (deps : list FileRecord) : X unit :=
  match deps with
  | [] => xret tt
  | r :: deps => dependent_blocks rec src p r ;! check_all rec src p deps
  end.
Definition checkDependents (rec : FileRecord) (src : FStat) : X unit :=
  let! deps := db_read (dependents (fr_ID rec)) in
  let! p := plan_of in
  check_all rec src p deps.
(** *** [place] *)

Definition ours_of (rec : option FileRecord) : option FileRecord :=
  match rec with Some r => if mem (fr_State r) [StatePresent; StateLinked; StateMissing] then Some r else None | None => None end.
Definition other_source (p : Detail) (rec : option FileRecord) : bool :=
  match rec with Some r => negb (fr_SourceID r =? dt_SourceID p) | None => false end.

(** [retainOld]: a hardlink where the destination has them. *)
Definition retainOld (rec : FileRecord) (fin : FStat) : X unit := keepInRetention 3 rec dest fin (Hardlinks (x_caps c)) ReasonReplaced.

(** Step 4: the old version is kept. Whether something is at the path now, and whether an
    old version is in retention. *)
Definition keep_old (rec : option FileRecord) (retSt : option FStat) : X (bool * bool) :=
  let! d := detail in
  let! fin := lstat dest in
  match ours_of rec, fin, retSt with
  | Some rec, Some f, Some r =>
      let! same := sameDestFile dest f (xd_Retained d) r in
      if same : bool then xret (true, true) else displace dest f ;! xret (false, true)
  | Some rec, Some f, None =>
      retainOld rec f ;!
      let! fin := lstat dest in
      xret (bool_decide (is_Some fin), true)
  | Some _, None, Some _ => xret (false, true)
  | Some _, None, None => xret (false, false)
  | None, Some _, _ => xfail (XItem Appeared)
  | None, None, _ => xret (false, false)
  end.

Definition onTemp (temp : string) : X unit := set_detail (d_temp temp false) ;! saveDetail.

(** Steps 3 and 4. *)
Definition put_new (rec : option FileRecord) (retSt : option FStat) : X Z :=
  let! p := plan_of in
  let! t := WriteTemp (dt_SourceID p) (dt_Source p) dest (negb (bool_decide (x_verify c = VerifyOff))) onTemp in
  (if bool_decide (x_verify c = VerifyFull) then VerifyTemp (tp_Rel t) (tp_Size t) (tp_Hash t) else xret tt) ;!
  set_detail (d_temp_done (tp_Size t) (tp_MtimeNs t) (tp_Hash t)) ;!
  saveDetail ;!
  let! (there, retained) := keep_old rec retSt in
  let! d := detail in
  Commit (xd_Temp d) dest (negb there) ;!
  recordPlaced retained ;!
  xret (tp_Size t).

(** Step 2: an unrecorded file in the way is adopted ([true]) or displaced. *)
Definition clear_way (rec : option FileRecord) (fin : option FStat) (src : FStat) : X bool :=
  match ours_of rec, fin with
  | None, Some f =>
      let! adopted := tryAdopt f src in
      match adopted with
      | Some hash => recordAdopted src hash ;! set_outcome OutcomeAdopted ;! xret true
      | None => displace dest f ;! xret false
      end
  | _, _ => xret false
  end.

Definition already_placed (rec : option FileRecord) (fin : option FStat) (src : FStat) (p : Detail) : bool :=
  match rec, fin with
  | Some r, Some f =>
      bool_decide (fr_State r = StatePresent) && (fr_Size r =? fs_Size src) && (fr_MtimeNs r =? fs_MtimeNs src) && Regular f
      && (fs_Size f =? fr_Size r) && (negb (bool_decide (dt_Reason p = RReplacedInPlace)) || (fr_JobID r =? x_job c))
  | _, _ => false
  end.

(** The new version from the source. *)
Definition place_new (rec : option FileRecord) (fin retSt : option FStat) : X Z :=
  let! src := sourceFile in
  let! d := detail in
  let p := xd_plan d in
  if already_placed rec fin src p then removeTemp ;! set_outcome OutcomeAlreadyDone ;! xret (xd_TempSize d)
  else if (0 <? dt_OldSize p) && negb (x_allowChanges c) && shrinks (fs_Size src) (dt_OldSize p)
  then xfail (XHeld (fs_Size src) (dt_OldSize p))
  else
    match ours_of rec with Some r => checkDependents r src | None => xret tt end ;!
    removeTemp ;!
    set_detail (d_temp "" false) ;!
    let! adopted := clear_way rec fin src in
    if adopted : bool then xret 0 else put_new rec retSt.

Definition place : X Z :=
  let! d := detail in
  let! rec := db_read (liveAt (x_dest c) dest) in
  when! other_source (xd_plan d) rec fail! XItem OtherSourceRecord ;!
  let ours := bool_decide (is_Some (ours_of rec)) in
  let! tempSt := lstat (xd_Temp d) in
  let tempComplete := match tempSt with Some st => xd_TempDone d && Regular st && (fs_Size st =? xd_TempSize d) | None => false end in
  let! retSt := lstat (xd_Retained d) in
  let! fin := lstat dest in
  let! linkedOld := match fin, retSt with
    | Some f, Some r => sameDestFile dest f (xd_Retained d) r
    | _, _ => xret false
    end in
  let retExists := bool_decide (is_Some retSt) in
  let placed := match tempSt, fin with
    | None, Some f => xd_TempDone d && Regular f && (fs_Size f =? xd_TempSize d)
                      && MtimeMatch (fs_MtimeNs f) (xd_TempMtimeNs d) (MtimeGranularityNs (x_caps c)) 0
                      && (bool_decide (xd_Retained d = "") || (retExists && negb linkedOld))
    | _, _ => false
    end in
  if ours && retExists && tempComplete && negb (bool_decide (is_Some fin)) then
    Commit (xd_Temp d) dest true ;! recordPlaced true ;! xret (xd_TempSize d)
  else if ours && tempComplete && linkedOld then
    Commit (xd_Temp d) dest false ;! recordPlaced true ;! xret (xd_TempSize d)
  else if placed then recordPlaced retExists ;! xret (xd_TempSize d)
  else place_new rec fin retSt.

Definition putItem : X unit := let! n := place in done n.

Definition fallbackPlace : X unit :=
  let! d := detail in
  let not_full := match dt_Tier (xd_plan d) with Some dec => negb (bool_decide (d_Tier dec = Full)) | None => false end in
  if not_full && bool_decide (xd_Temp d = "") then finish ItemSkipped 0
  else
    let! n := place in
    let! d := detail in
    (if bool_decide (is_Some (xd_Outcome d)) then xret tt else set_outcome OutcomeFallbackCopy) ;!
    done n.

(** *** Adopt *)
Definition same_version (rec : FileRecord) (src : FStat) : bool :=
  bool_decide (fr_State rec = StatePresent) && (fr_Size rec =? fs_Size src) && (fr_MtimeNs rec =? fs_MtimeNs src).
Definition adopt : X unit :=
  let! d := detail in
  if negb (bool_decide (xd_Temp d = "")) then fallbackPlace
  else
    let! rec := db_read (liveAt (x_dest c) dest) in
    let! src := sourceFile in
    match rec with
    | Some r =>
        if (fr_SourceID r =? dt_SourceID (xd_plan d)) && same_version r src then set_outcome OutcomeAlreadyDone ;! done 0
        else fallbackPlace
    | None =>
        let! fin := lstat dest in
        let! adopted := match fin with Some f => tryAdopt f src | None => xret None end in
        match adopted with
        | Some hash => recordAdopted src hash ;! done 0
        | None => fallbackPlace
        end
    end.

(** *** Move *)

(** A regular file is back at the source and the catalog lists it. *)
Definition reappeared (rel : string) : X bool :=
  let! st := sourceStat rel in
  match st with
  | Some st =>
      if Regular st then db_ok ;! let! p := plan_of in let! f := ask (e_inCatalog E) in xret (f (dt_SourceID p) rel)
      else xret false
  | None => xret false
  end.

Definition movedTx (id : Z) (source : string) (_ : time) (t : records) : result db_error records :=
  match get_record id t with
  | None => Err RecordVanished
  | Some r =>
      updateRecord (mkRecord (fr_ID r) (fr_DestinationID r) (fr_SourceID r) dest source (fr_Size r) (fr_MtimeNs r) (fr_Hash r) (fr_LinkOf r)
                      (fr_State r) (fr_RetainedPath r) (fr_Reason r) (x_job c) (fr_CopiedAt r) (fr_VerifiedAt r) (fr_RetainedAt r) (fr_ExpiresAt r)) t
  end.
Definition record_move (v : FileRecord) : X unit :=
  let! p := plan_of in
  db_write (movedTx (fr_ID v) (dt_Source p)) ;!
  pruneLive (dt_From p) ;!
  done 0.

(** The rename, once nothing speaks against it. *)
Definition move_file (v : FileRecord) (from : string) (fromSt toSt : option FStat) : X unit :=
  let! caseOnly := match fromSt, toSt with
    | Some f, Some t =>
        if CaseInsensitive (x_caps c) && bool_decide (FoldKey simple_fold from = FoldKey simple_fold dest)
        then caseVariant from f dest t else xret false
    | _, _ => xret false
    end in
  if caseOnly : bool then Move from dest false ;! record_move v
  else match fromSt with
       | Some f =>
           if negb (Regular f) || negb (fs_Size f =? fr_Size v) then fallbackPlace
           else
             match toSt with
             | Some t =>
                 let! recorded := db_read (liveAt (x_dest c) dest) in
                 when! bool_decide (is_Some recorded) fail! XItem AlreadyRecorded ;!
                 displace dest t
             | None => xret tt
             end ;!
             Move from dest true ;!
             record_move v
       | None => fallbackPlace
       end.

Definition move : X unit :=
  let! d := detail in
  let p := xd_plan d in
  if negb (bool_decide (xd_Temp d = "")) then fallbackPlace
  else
    let! rec := db_read (get_record (dt_RecordID p)) in
    match rec with
    | None => fallbackPlace
    | Some v =>
        if live v && bool_decide (fr_RelPath v = dest) && bool_decide (fr_SourceRelPath v = dt_Source p) then
          set_outcome OutcomeAlreadyDone ;! done 0
        else if negb (live v) || negb (fr_SourceID v =? dt_SourceID p) || negb (bool_decide (fr_RelPath v = dt_From p))
                || negb (mem (fr_State v) [StatePresent; StateLinked]) then fallbackPlace
        else
          let! fromSt := lstat (dt_From p) in
          let! toSt := lstat dest in
          let renamed := match fromSt, toSt with None, Some t => Regular t && (fs_Size t =? fr_Size v) | _, _ => false end in
          if renamed then record_move v
          else
            let! src := sourceFile in
            if negb (fs_Size src =? dt_Size p) || negb (fs_MtimeNs src =? dt_MtimeNs p) || negb (fs_Size src =? fr_Size v) then fallbackPlace
            else
              let! back := reappeared (fr_SourceRelPath v) in
              if back : bool then fallbackPlace else move_file v (dt_From p) fromSt toSt
    end.
(** *** Link *)

Definition linkTx (p : Detail) (d : ItemDetail) (src : FStat) (mode : State) (prim : Z) (retained : bool) (now : time) (t : records) : result db_error records :=
  match get_record prim t with
  | Some pr =>
      guard? bool_decide (fr_State pr = StatePresent) else PrimaryChanged;
      let row id := mkRecord id (x_dest c) (dt_SourceID p) dest (dt_Source p) (fs_Size src) (fs_MtimeNs src) (fr_Hash pr) (fr_ID pr) mode "" NoReason
                      (x_job c) (Some now) None None None in
      let? t := match liveAt (x_dest c) dest t with
                | Some cur =>
                    let t := if bool_decide (fr_State cur = StateMissing) then loseLinks (fr_ID cur) (dt_LostLinks p) t else t in
                    updateRecord (row (fr_ID cur)) (repoint (fr_ID cur) (fr_ID pr) t)
                | None => insertRecord (row 0) t
                end in
      if retained then insertRetained (retainedRow p dest (dt_Source p) (xd_Retained d) (xd_RetainedSize d) (xd_RetainedMtimeNs d) (xd_RetainedHash d)
                                         (xd_RetainedReason d) now) t
      else Ok t
  | None => Err PrimaryChanged
  end.

(** Whether the primary still holds this name's content, and its file. *)
Definition valid_primary (rec : option FileRecord) (src : FStat) : X (option (FileRecord * FStat)) :=
  let! p := plan_of in
  let! prim := db_read (liveForSourcePath (x_dest c) (dt_SourceID p) (dt_Primary p)) in
  match prim with
  | Some pr =>
      if negb (same_version pr src) || (match rec with Some r => fr_ID r =? fr_ID pr | None => false end) then xret None
      else
        let! ps := sourceStat (dt_Primary p) in
        let same := match ps with
          | Some ps => sameFile ps src && (fs_Size ps =? fs_Size src) && (fs_MtimeNs ps =? fs_MtimeNs src)
          | None => false end in
        if negb same then xret None
        else
          let! pd := lstat (fr_RelPath pr) in
          xret (match pd with
                | Some st => if Regular st && (fs_Size st =? fr_Size pr) then Some (pr, st) else None
                | None => None end)
  | None => xret None
  end.

(** The name's own old version goes to retention ([retainName]). *)
Definition retainName (rec : FileRecord) (fin : FStat) : X unit :=
  when! negb (Regular fin) fail! XItem DestNotRegular ;!
  keepInRetention 3 rec dest fin false ReasonReplaced.

(** The hardlink itself; what takes the name meanwhile must be it. *)
Definition make_link (prim : FileRecord) (primDest : FStat) : X unit :=
  let! r := xtry (Link (fr_RelPath prim) dest) in
  match r with
  | Ok _ => xret tt
  | Err (XFile sd ErrExists) =>
      let! cur := xtry (lstat dest) in
      match cur with
      | Ok (Some st) =>
          let! same := hardlinkOf dest st (fr_RelPath prim) primDest in
          if same : bool then xret tt else xfail (XFile sd ErrExists)
      | _ => xfail (XFile sd ErrExists)
      end
  | Err e => xfail e
  end.

Definition link_mode : State := if x_linkMode c then StateLinked else StateLinkRecorded.

(** The path is freed: [Some false] when the item goes on without a retained version,
    [Some true] with one, [None] when what is there was adopted. *)
Definition free_name (rec : option FileRecord) (src fin : FStat) (retained : bool) : X (option bool) :=
  match ours_of rec, retained with
  | Some r, false => retainName r fin ;! xret (Some true)
  | _, _ =>
      let! adopted := tryAdopt fin src in
      match adopted with
      | Some hash => recordAdopted src hash ;! set_outcome OutcomeAdopted ;! done 0 ;! xret None
      | None => displace dest fin ;! xret (Some retained)
      end
  end.

Definition link_to (rec : option FileRecord) (src : FStat) (prim : FileRecord) (primDest : FStat) : X unit :=
  let! d := detail in
  let p := xd_plan d in
  let mode := link_mode in
  let recorded := match rec with
    | Some r => bool_decide (fr_State r = mode) && (fr_LinkOf r =? fr_ID prim) && (fr_JobID r =? x_job c)
    | None => false end in
  let current := match rec with Some r => (fr_Size r =? fs_Size src) && (fr_MtimeNs r =? fs_MtimeNs src) | None => false end in
  let isLink st := if recorded then sameDestFile dest st (fr_RelPath prim) primDest else hardlinkOf dest st (fr_RelPath prim) primDest in
  let! finished := (if recorded && current then
                      if bool_decide (mode = StateLinkRecorded) then xret true
                      else
                        let! fin := lstat dest in
                        match fin with Some st => isLink st | None => xret false end
                    else xret false) in
  if finished : bool then set_outcome OutcomeAlreadyDone ;! done 0
  else
    match ours_of rec with Some r => checkDependents r src | None => xret tt end ;!
    let! fin := lstat dest in
    let! kept := (if bool_decide (xd_Retained d = "") then xret None else lstat (xd_Retained d)) in
    let retained := bool_decide (is_Some kept) in
    let! linked := match fin with
      | Some st => if bool_decide (mode = StateLinked) then isLink st else xret false
      | None => xret false end in
    let! freed := match fin with
      | Some st => if linked : bool then xret (Some retained) else free_name rec src st retained
      | None => xret (Some retained) end in
    match freed with
    | None => xret tt
    | Some retained =>
        (if bool_decide (mode = StateLinked) && negb linked then make_link prim primDest else xret tt) ;!
        let! d := detail in
        db_write (linkTx p d src mode (fr_ID prim) retained) ;!
        (if bool_decide (mode = StateLinkRecorded) then set_outcome OutcomeLinkRecorded else xret tt) ;!
        done 0
    end.

Definition link : X unit :=
  let! d := detail in
  if negb (bool_decide (xd_Temp d = "")) then fallbackPlace
  else
    let! src := sourceFile in
    let! rec := db_read (liveAt (x_dest c) dest) in
    when! other_source (xd_plan d) rec fail! XItem OtherSourceRecord ;!
    let! valid := valid_primary rec src in
    match valid with
    | Some (prim, primDest) => link_to rec src prim primDest
    | None => fallbackPlace
    end.

(** *** Promote *)

Definition promoteTx (t v : FileRecord) (moved : bool) (what : for_what) (now : time) (tbl : records) : result db_error records :=
  let t' := mkRecord (fr_ID t) (fr_DestinationID t) (fr_SourceID t) (fr_RelPath t) (fr_SourceRelPath t) (fr_Size t) (fr_MtimeNs t) (fr_Hash v) 0
              StatePresent (fr_RetainedPath t) (fr_Reason t) (x_job c) (if moved then Some now else fr_CopiedAt t) (fr_VerifiedAt t)
              (fr_RetainedAt t) (fr_ExpiresAt t) in
  let? tbl := updateRecord t' tbl in
  let tbl := repoint (fr_ID v) (fr_ID t) tbl in
  if negb moved then Ok tbl
  else match what with
       | ForRetain => deleteRecord (fr_ID v) tbl
       | _ => updateRecord (with_state StateMissing v) tbl
       end.

(** Nothing changed at the source that speaks against the promote. *)
Definition promote_checks (t v : FileRecord) (what : for_what) : X unit :=
  let! ts := sourceStat (fr_SourceRelPath t) in
  when! negb (match ts with Some st => (fs_Size st =? fr_Size t) && (fs_MtimeNs st =? fr_MtimeNs t) | None => false end)
    fail! XItem SourceChangedSince ;!
  match what with
  | ForUpdate =>
      if x_allowChanges c then xret tt
      else
        let! ps := sourceStat (fr_SourceRelPath v) in
        match ps with
        | Some ps => when! shrinks (fs_Size ps) (fr_Size v) fail! XHeld (fs_Size ps) (fr_Size v) ;! xret tt
        | None => xret tt
        end
  | _ => xret tt
  end.

Definition promote_file (t v : FileRecord) (vs tf : option FStat) : X unit :=
  match vs with
  | Some f =>
      when! negb (Regular f) || negb (fs_Size f =? fr_Size v) fail! XItem NotAtDestination ;!
      match tf with Some st => displace (fr_RelPath t) st | None => xret tt end ;!
      Move (fr_RelPath v) (fr_RelPath t) true
  | None => xfail (XItem NotAtDestination)
  end.

Definition promote : X unit :=
  let! p := plan_of in
  let! t := db_read (get_record (dt_TargetID p)) in
  match t with
  | None => xfail (XItem NoLongerRecorded)
  | Some t =>
      if bool_decide (fr_State t = StatePresent) && (fr_LinkOf t =? 0) then set_outcome OutcomeAlreadyDone ;! done 0
      else
        let! v := db_read (get_record (dt_RecordID p)) in
        match v with
        | None => xfail (XItem NoLongerRecorded)
        | Some v =>
            when! negb (live v) || negb (live t) || negb (fr_LinkOf t =? fr_ID v) || negb (mem (fr_State t) [StateLinked; StateLinkRecorded])
              fail! XItem LinkChanged ;!
            let recorded := bool_decide (fr_State t = StateLinkRecorded) in
            let! vs := (if recorded then lstat (fr_RelPath v) else xret None) in
            let! tf := (if recorded then lstat (fr_RelPath t) else xret None) in
            let renamed := match vs, tf with None, Some st => recorded && Regular st && (fs_Size st =? fr_Size v) | _, _ => false end in
            (if renamed then xret tt else promote_checks t v (dt_For p)) ;!
            (if recorded then if renamed then xret tt else promote_file t v vs tf
             else
               let! tf := lstat (fr_RelPath t) in
               match tf with
               | Some st => when! negb (Regular st) || negb (fs_Size st =? fr_Size v) fail! XItem NotAtDestination ;! xret tt
               | None => xfail (XItem NotAtDestination)
               end) ;!
            db_write (promoteTx t v recorded (dt_For p)) ;!
            (match dt_For p with ForRetain => if recorded then pruneLive (fr_RelPath v) else xret tt | _ => xret tt end) ;!
            done 0
        end
  end.

(** *** Retain *)

(** The heir and the recorded-only links whose own name vanished too. *)
Fixpoint sort_dependents (v : FileRecord) (p : Detail) (deps : list FileRecord) (heir : option FileRecord) (gone : list Z) : X (option FileRecord * list Z) :=
  match deps with
  | [] => xret (heir, gone)
  | r :: deps =>
      if bool_decide (fr_State r = StateLinkRecorded) && (fr_SourceID r =? dt_SourceID p) then
        let! back := reappeared (fr_SourceRelPath r) in
        sort_dependents v p deps heir (if back : bool then gone else gone ++ [fr_ID r])%list
      else if bool_decide (fr_State r = StateLinked) && negb (bool_decide (is_Some heir)) then
        let! st := lstat (fr_RelPath r) in
        let ok := match st with Some st => Regular st && (fs_Size st =? fr_Size v) | None => false end in
        sort_dependents v p deps (if ok then Some r else heir) gone
      else sort_dependents v p deps heir gone
  end.

Definition heirTx (v h : Z) (t : records) : result db_error records :=
  match get_record h t with
  | Some r =>
      let? t := updateRecord (with_link 0 (with_state StatePresent r)) t in
      Ok (repoint v h t)
  | None => Ok t
  end.
Definition retainTx (v : FileRecord) (d : ItemDetail) (heir : option FileRecord) (gone : list Z) (retained : bool) (now : time) (t : records) : result db_error records :=
  let? t := deleteRecords gone t in
  let? t := match heir with Some h => heirTx (fr_ID v) (fr_ID h) t | None => Ok t end in
  if negb retained then deleteRecord (fr_ID v) t
  else
    let why := if bool_decide (xd_RetainedReason d = NoReason) then ReasonDeleted else xd_RetainedReason d in
    let row := retainedRow (xd_plan d) (fr_RelPath v) (fr_SourceRelPath v) (xd_Retained d) (xd_RetainedSize d) (xd_RetainedMtimeNs d) (xd_RetainedHash d) why now in
    if retainedExists row t then deleteRecord (fr_ID v) t
    else
      updateRecord (mkRecord (fr_ID v) (fr_DestinationID v) (fr_SourceID v) (fr_RelPath v) (fr_SourceRelPath v) (xd_RetainedSize d)
                      (if xd_RetainedMtimeNs d =? 0 then fr_MtimeNs v else xd_RetainedMtimeNs d) (xd_RetainedHash d) 0 StateRetained
                      (xd_Retained d) why (x_job c) (fr_CopiedAt v) (fr_VerifiedAt v) (Some now) (Some (expiry now))) t.

(** The file of the vanished name goes to retention, unless an attempt did that or there is
    none: whether there is a retained version. *)
Definition retain_file (v : FileRecord) (release : bool) (fin : option FStat) (retained : bool) : X bool :=
  match fin with
  | Some f =>
      if retained then xret true
      else
        when! negb (Regular f) fail! XItem DestNotRegular ;!
        let! p := plan_of in
        (if release then xret tt
         else
           db_ok ;!
           let! g := ask (e_notBackedUp E) in
           let name := g (dt_SourceID p) (fr_SourceRelPath v) in
           when! negb (bool_decide (name = "")) fail! XItem (NotRetainedYet name) ;! xret tt) ;!
        keepInRetention 3 v (fr_RelPath v) f false (if release then ReasonReleased else ReasonDeleted) ;!
        xret true
  | None => xret retained
  end.

Definition record_retain (v : FileRecord) (heir : option FileRecord) (gone : list Z) (retained : bool) : X unit :=
  let! d := detail in
  db_write (retainTx v d heir gone retained) ;!
  pruneLive (fr_RelPath v) ;!
  if retained then done (xd_RetainedSize d) else set_outcome OutcomeRecordRemoved ;! done 0.

Definition retain_name (v : FileRecord) (release : bool) : X unit :=
  let! d := detail in
  let p := xd_plan d in
  let! fin := lstat (fr_RelPath v) in
  let! kept := match fin with
    | None => if bool_decide (xd_Retained d = "") then xret None else lstat (xd_Retained d)
    | Some _ => xret None end in
  let retained := bool_decide (is_Some kept) in
  let! back := (if retained || release then xret false else reappeared (fr_SourceRelPath v)) in
  if back : bool then finish ItemSkipped 0
  else
    let! deps := db_read (dependents (fr_ID v)) in
    let! (heir, gone) := sort_dependents v p deps None [] in
    when! (0 <? Z.of_nat (length deps) - Z.of_nat (length gone)) && negb (bool_decide (is_Some heir)) fail! XItem StillDepend ;!
    if bool_decide (fr_State v = StateLinkRecorded) then
      db_write (λ _, deleteRecord (fr_ID v)) ;!
      set_outcome OutcomeRecordRemoved ;! done 0
    else
      let! retained := retain_file v release fin retained in
      record_retain v heir gone retained.

Definition retain : X unit :=
  let! d := detail in
  let p := xd_plan d in
  let! rec := db_read (get_record (dt_RecordID p)) in
  match rec with
  | None => set_outcome OutcomeRecordRemoved ;! done 0
  | Some v =>
      if bool_decide (fr_State v = StateRetained) && (bool_decide (xd_Retained d = "") || bool_decide (fr_RetainedPath v = xd_Retained d)) then
        set_outcome OutcomeAlreadyDone ;! done (fr_Size v)
      else if negb (live v) || negb (fr_SourceID v =? dt_SourceID p) || negb (bool_decide (fr_SourceRelPath v = dt_Source p)) then
        finish ItemSkipped 0
      else
        let release := bool_decide (dt_Reason p = RReleased) in
        let! allowed := (if release && bool_decide (xd_Retained d = "") then db_ok ;! let! f := ask (e_checkRelease E) in xret (f v) else xret true) in
        if negb allowed then finish ItemSkipped 0 else retain_name v release
  end.

(** *** An item, and the items of a job *)

Definition run_action : X unit :=
  recordEarlierDisplace ;!
  match i_Action it with
  | ActionCopy | ActionUpdate => putItem
  | ActionAdopt => adopt
  | ActionMove => move
  | ActionLink => link
  | ActionPromote => promote
  | ActionRetain => retain
  | _ => xfail (XItem UnknownAction)
  end.

Definition salvage : X unit :=
  putBack ;!
  let! _ := xtry recordEarlierDisplace in
  removeTemp.

Definition runItem : X unit :=
  let! p := plan_of in
  let! root := ask (e_root E) in
  if negb (dt_SourceID p =? 0) && negb (root (dt_SourceID p)) then finish ItemSkipped 0
  else
    let! r := xtry run_action in
    match r with
    | Ok _ => xret tt
    | Err e =>
        let! stop := ask (e_cancel E) in
        if stop : bool then putBack ;! cleanupTemp ;! xfail XCancelled
        else match e with
             | XHeld _ _ => putBack ;! cleanupTemp ;! finish ItemHeld 0
             | e => if Fatal e then salvage ;! xfail e else putBack ;! cleanupTemp ;! failItem
             end
    end.
End exec.

(** [Items.Pending] *)
Definition pendingBatch : nat := 500.
Definition pending (after : Z) (l : list item) : list item :=
  take pendingBatch (List.filter (λ i, bool_decide (i_Status i = ItemPending) && (after <? i_ID i)) l).

(** [AddItems] gives every new item the next id; with the last batch of a plan the plan is
    complete. *)
Definition next_item (l : list item) : Z := 1 + foldr (λ i n, Z.max (i_ID i) n) 0 l.
Definition with_item_id (id : Z) (i : item) : item := mkItemRow id (i_RelPath i) (i_Action i) (i_Status i) (i_Bytes i) (i_Detail i).
Definition add_item (l : list item) (i : item) : list item := (l ++ [with_item_id (next_item l) i])%list.
Definition added (batch : list item) (final : bool) (w : world) : world :=
  mkWorld (w_fs w) (w_recs w) (foldl add_item (w_items w) batch) (final || w_planned w).
Definition AddItems `{Exec} (batch : list item) (final : bool) : X unit := db_ok ;! let! w := world_of in change (added batch final w).
Definition no_items (w : world) : world := mkWorld (w_fs w) (w_recs w) [] false.
Definition DeleteItems `{Exec} : X unit := db_ok ;! let! w := world_of in change (no_items w).
Definition Planned `{Exec} : X bool := db_ok ;! let! w := world_of in xret (w_planned w).

Section job.
Context `{Exec} (recheckEvery : Z).
#[local] Abbreviation E := the_env.

(** [Handle.Recheck] reads the marker and the file system; a failure stops the job. *)
Definition Recheck : X unit := may_refuse SideDestination.

(** The item runs on the detail the batch read. *)
Definition start_item (i : item) : X unit := set_detail (λ _, i_Detail i) ;! runItem i.

Fixpoint run_batch (actions : list ItemAction) (batch : list item) (since : Z) : X Z :=
  match batch with
  | [] => xret since
  | i :: batch =>
      if negb (mem (i_Action i) actions) then run_batch actions batch since
      else
        let! stop := ask (e_cancel E) in
        when! stop fail! XCancelled ;!
        start_item i ;!
        let since := since + 1 in
        let! since := (if recheckEvery <=? since then Recheck ;! xret 0 else xret since) in
        run_batch actions batch since
  end.

(** The batches of one phase; every batch ends at a higher id, so the number of items is
    enough fuel. *)
Fixpoint run_batches (fuel : nat) (actions : list ItemAction) (after since : Z) : X Z :=
  match fuel with
  | O => xret since
  | S fuel =>
      db_ok ;!
      let! w := world_of in
      match last (pending after (w_items w)) with
      | None => xret since
      | Some l =>
          let! since := run_batch actions (pending after (w_items w)) since in
          run_batches fuel actions (i_ID l) since
      end
  end.

(** [phases]: new before old (S6). *)
Definition phases : list (list ItemAction) :=
  [[ActionPromote]; [ActionMove]; [ActionCopy; ActionUpdate; ActionAdopt]; [ActionLink]; [ActionRetain]].

Fixpoint run_phases (phs : list (list ItemAction)) (since : Z) : X unit :=
  match phs with
  | [] => xret tt
  | ph :: phs =>
      (if mem ActionRetain ph then Recheck else xret tt) ;!
      let! w := world_of in
      let! since := run_batches (S (length (w_items w))) ph 0 since in
      run_phases phs since
  end.
Definition execute : X unit := db_ok ;! run_phases phases 0.
End job.
