(* ===== verification/SyncSweep.v ===== *)
(** * SyncSweep: what stopped jobs left behind ([internal/syncer/reconcile.go])

    Before a sync, verification or retention job works on a destination it settles what
    jobs that never ran again left half done: [sweep] goes over the pending items of the
    jobs that own a directory in retention, then every other retention intent is settled.
    The items of the stopped jobs, the order in which the directory is read and the
    existence of sources come from outside. *)
From stdpp Require Import base gmap list strings.
From Stdlib Require Import Ascii.
From S2P Require Import Prelude GoStrings DestNames Tiers SyncPlan DestFS FileRecords SyncExec.
Open Scope string_scope.
Open Scope Z_scope.

(** ** The directories of jobs in retention *)

(** [strings.LastIndex], and what follows the occurrence. *)
Fixpoint after_last (sep l : list ascii) : option (list ascii) :=
  match l with
  | [] => None
  | _ :: k => match after_last sep k with Some r => Some r | None => bprefix sep l end
  end.

(** [strconv.ParseInt] (base 10, 64 bits), of the results those that are positive. *)
Definition positive_int (l : list ascii) : option Z :=
  let l := match l with "+"%char :: k => k | _ => l end in
  let v := digits_value l in
  if negb (bool_decide (l = [])) && forallb is_digit l && (0 <? v) && (v <=? max_i64) then Some v else None.
Definition job_of_dir (name : string) : option Z :=
  match after_last (bytes "-job") (bytes name) with Some l => positive_int l | None => None end.

Example job_of_dir_1 : job_of_dir "20260101T000000Z-job7" = Some 7. Proof. vm_compute. reflexivity. Qed.
Example job_of_dir_2 : job_of_dir "x-job3-job012" = Some 12. Proof. vm_compute. reflexivity. Qed.
Example job_of_dir_3 : job_of_dir "x-job-3" = None. Proof. vm_compute. reflexivity. Qed.
Example job_of_dir_4 : job_of_dir "x-job" = None. Proof. vm_compute. reflexivity. Qed.

(** The entries of a directory with whether they are directories. *)
Definition os_readdir (f : fs) (d : string) : result errno (list (string * bool)) :=
  match entry f d with
  | Some NDir =>
      Ok ((λ q, (path_base q, bool_decide (entry f q = Some NDir))) <$> List.filter (λ q, bool_decide (path_dir q = d)) (map_to_list (f_tree f)).*1)
  | Some _ => Err ENotDir
  | None => Err (absent f d)
  end.

(** [intents]; the rows are in the order of their ids. *)
Definition is_intent (dest : Z) (r : FileRecord) : bool := (fr_DestinationID r =? dest) && live r && negb (bool_decide (fr_RetainedPath r = "")).
Definition intents (dest : Z) (t : records) : records := List.filter (is_intent dest) t.

(** ** [reconcile] *)

(** What stopped jobs left: their items, the order a directory is read in, whether a source
    exists when a transaction looks. *)
Record leftovers := mkLeftovers {
  lo_items : Z → list item;
  lo_order : list (string * bool) → list (string * bool);
  lo_source : nat → Z → bool;
}.

(** The transactions of another job. *)
Definition job_run (id : Z) (r : run) : run :=
  mkRun (x_dest r) id (x_caps r) (x_settings r) (x_verify r) (x_deletedDays r) (x_allowChanges r) (x_retentionDir r) (x_linkMode r)
    (x_paths r) (x_folders r) (x_noreplace r).
Definition as_job `{Exec} (id : Z) : Exec := mkExec simple_fold sha (job_run id the_run) the_env.

Section reconcile.
Context `{Exec} (lo : leftovers).
#[local] Abbreviation c := the_run.
#[local] Abbreviation E := the_env.

Definition fixer_lstat (rel : string) : X (option FStat) :=
  let! r := xtry (Lstat rel) in
  match r with
  | Ok st => xret (Some st)
  | Err e => if not_exist e then xret None else xfail (on_side SideDestination e)
  end.

Definition syncActions : list ItemAction :=
  [ActionCopy; ActionUpdate; ActionAdopt; ActionMove; ActionLink; ActionPromote; ActionRetain].

(** The row of an unmanaged file an item displaced. *)
Definition swept_row (jobID : Z) (it : item) (source : Z) (st : FStat) (now : time) : FileRecord :=
  let d := i_Detail it in
  mkRecord 0 (x_dest c) source (i_RelPath it) (dt_Source (xd_plan d)) (fs_Size st) (fs_MtimeNs st) "" 0 StateRetained (xd_Displaced d)
    ReasonDisplaced jobID None None (Some now) (Some (expiry now)).
Definition sweep_displaced (jobID : Z) (jobDir : string) (it : item) : X unit :=
  let d := i_Detail it in
  if negb (bool_decide (xd_Displaced d = "")) && has_prefix (xd_Displaced d) (jobDir +:+ "/") then
    let! st := fixer_lstat (xd_Displaced d) in
    match st with
    | Some st =>
        if Regular st then
          let! exists_ := ask (λ n, lo_source lo n (dt_SourceID (xd_plan d))) in
          db_write (λ now, insertRetained (swept_row jobID it (if exists_ : bool then dt_SourceID (xd_plan d) else 0) st now))
        else xret tt
    | None => xret tt
    end
  else xret tt.

(** The transaction of [finishPlaced]. *)
Definition finishTx (jobID : Z) (it : item) (now : time) (t : records) : result db_error records :=
  let d := i_Detail it in
  match liveAt (x_dest c) (i_RelPath it) t with
  | Some cur =>
      if bool_decide (fr_RetainedPath cur = xd_Retained d) && (fr_SourceID cur =? dt_SourceID (xd_plan d))
      then placedTx (H := as_job jobID) it d true now t
      else Ok t
  | None => Ok t
  end.
Definition finishPlaced (jobID : Z) (it : item) : X unit :=
  let d := i_Detail it in
  let! temp := fixer_lstat (xd_Temp d) in
  if bool_decide (is_Some temp) then xret tt
  else
    let! fin := fixer_lstat (i_RelPath it) in
    match fin with
    | None => xret tt
    | Some fin =>
        if negb (Regular fin) || negb (fs_Size fin =? xd_TempSize d)
           || negb (MtimeMatch (fs_MtimeNs fin) (xd_TempMtimeNs d) (MtimeGranularityNs (x_caps c)) 0)
        then xret tt
        else
          let! ret := fixer_lstat (xd_Retained d) in
          match ret with
          | None => xret tt
          | Some ret =>
              let! same := sameDestFile (i_RelPath it) fin (xd_Retained d) ret in
              if same : bool then xret tt else db_write (finishTx jobID it)
          end
    end.

Definition sweepItem (jobID : Z) (jobDir : string) (it : item) : X unit :=
  if negb (mem (i_Action it) syncActions) then xret tt
  else
    let d := i_Detail it in
    sweep_displaced jobID jobDir it ;!
    (if negb (bool_decide (xd_Temp d = "")) && xd_TempDone d && has_prefix (xd_Retained d) (jobDir +:+ "/")
     then finishPlaced jobID it else xret tt) ;!
    (if negb (bool_decide (xd_Temp d = "")) then CleanupTemp (xd_Temp d) else xret tt).

(** [fail]: what cannot be settled is a warning, unless the job is to stop. *)
Definition settling (m : X unit) (warnings : Z) : X Z :=
  let! r := xtry m in
  match r with
  | Ok _ => xret warnings
  | Err e => let! stop := ask (e_cancel E) in if stop || Fatal e then xfail e else xret (warnings + 1)
  end.

Fixpoint sweep_batch (jobID : Z) (jobDir : string) (batch : list item) (warnings : Z) : X Z :=
  match batch with
  | [] => xret warnings
  | it :: batch => let! warnings := settling (sweepItem jobID jobDir it) warnings in sweep_batch jobID jobDir batch warnings
  end.
(** As in [run_batches] the number of items is enough fuel. *)
Fixpoint sweep_job (fuel : nat) (jobID : Z) (jobDir : string) (after warnings : Z) : X Z :=
  match fuel with
  | O => xret warnings
  | S fuel =>
      db_ok ;!
      let batch := pending after (lo_items lo jobID) in
      match last batch with
      | None => xret warnings
      | Some l => let! warnings := sweep_batch jobID jobDir batch warnings in sweep_job fuel jobID jobDir (i_ID l) warnings
      end
  end.
Fixpoint sweep_dirs (ownDir : string) (entries : list (string * bool)) (warnings : Z) : X Z :=
  match entries with
  | [] => xret warnings
  | (name, is_d) :: entries =>
      let jobDir := RetentionRoot +:+ "/" +:+ name in
      if negb is_d || bool_decide (jobDir = ownDir) then sweep_dirs ownDir entries warnings
      else match job_of_dir name with
           | None => sweep_dirs ownDir entries warnings
           | Some jobID =>
               let! warnings := sweep_job (S (length (lo_items lo jobID))) jobID jobDir 0 warnings in
               sweep_dirs ownDir entries warnings
           end
  end.
Definition sweep (ownDir : string) : X Z :=
  let! r := xtry (fs_read SideDestination (λ f, os_readdir f RetentionRoot)) in
  match r with
  | Ok entries => sweep_dirs ownDir (lo_order lo entries) 0
  | Err (XFile _ (Errno ENoEnt)) => xret 0
  | Err e => xfail e
  end.

Definition own_intent (ownDir : string) (r : FileRecord) : bool := negb (bool_decide (ownDir = "")) && has_prefix (fr_RetainedPath r) (ownDir +:+ "/").
Fixpoint settle_all (ownDir : string) (recs : records) (warnings : Z) : X Z :=
  match recs with
  | [] => xret warnings
  | rec :: recs =>
      if own_intent ownDir rec then settle_all ownDir recs warnings
      else let! warnings := settling (settle rec None) warnings in settle_all ownDir recs warnings
  end.
Definition reconcile (ownDir : string) : X Z :=
  let! warnings := sweep ownDir in
  let! recs := db_read (intents (x_dest c)) in
  settle_all ownDir recs warnings.
End reconcile.
