(* ===== verification/ExecLogic.v ===== *)
(** * ExecLogic: a logic for the programs that work on a destination

    An invariant of every state and of every change of the world on the way, relations that
    say what a program keeps, specifications with pre- and postconditions, and the
    specification of every operation of SyncExec and SyncSweep: what the item's copy leaves
    when it succeeds, and that nothing is lost whatever fails. *)
From stdpp Require Import base gmap list strings.
From S2P Require Import Prelude GoStrings DestNames Tiers SyncPlan DestFS FileRecords SyncExec SyncSweep.
Open Scope string_scope.
Open Scope Z_scope.

Create HintDb exec.

(** ** What must not be lost *)

(** A name in the mirror, and a retention directory. *)
Definition mirror (p : string) : Prop := clean_rel p = true ∧ plain p ∧ has_prefix p ".bunkarr/" = false.
Definition retention_dir (d : string) : Prop := clean_rel d = true ∧ has_prefix d ".bunkarr/" = true.

(** One of the names a file may get in the retention directory of the run. *)
Definition retention_name `{Exec} (p : string) : Prop :=
  ∃ rel i, mirror rel ∧ 0 ≤ i ∧ p = suffixed (path_join [x_retentionDir the_run; rel]) i.

Lemma retention_plain `{Exec} p : retention_name p → plain p.
Proof. intros (rel & i & (Hc & Hp & _) & Hi & ->). by apply target_plain. Qed.

Lemma retention_not_mirror `{Exec} p : retention_dir (x_retentionDir the_run) → retention_name p → ¬ mirror p.
Proof.
  intros [Hd Hpre] (rel & i & (Hc & _ & _) & _ & ->) (_ & _ & Hm). destruct (clean_join _ _ Hd Hc) as [Hj _]. rewrite Hj in Hm.
  destruct (suffixed_under (x_retentionDir the_run) rel i) as [q Hq]. rewrite Hq in Hm.
  apply has_prefix_spec in Hpre as [r Hr]. rewrite Hr in Hm.
  assert (has_prefix ((".bunkarr/" +:+ r) +:+ "/" +:+ q) ".bunkarr/" = true); [|congruence].
  apply has_prefix_spec. exists (r +:+ "/" +:+ q). apply bytes_inj. rewrite !bytes_app. by rewrite <-app_assoc.
Qed.

(** The same bytes; where inode numbers do not identify files, the same SHA-256. *)
Definition same_content `{Exec} (a b : string) : Prop := a = b ∨ InodeIdentity (x_caps the_run) = false ∧ sha a = sha b.
#[export] Instance same_content_equiv `{Exec} : Equivalence same_content.
Proof.
  split.
  - by left.
  - intros a b [->|[? ?]]; [by left|by right].
  - intros a b d [->|[? E]] [->|[? E']]; try by (left + right). right. split; [done|congruence].
Qed.

(** Every content of [f] under a name that is no temp file's is still there in [f'], under
    that name or one of [L]. *)
Definition keeps `{Exec} (L : string → Prop) (f f' : fs) : Prop :=
  ∀ p d, plain p → data_at f p = Some d →
  ∃ p' d', (p' = p ∨ L p') ∧ plain p' ∧ data_at f' p' = Some d' ∧ same_content d d'.

Lemma keeps_trans `{Exec} L f g h : keeps L f g → keeps L g h → keeps L f h.
Proof.
  intros H1 H2 p d Hp Hd. destruct (H1 p d Hp Hd) as (p1 & d1 & Hl1 & Hp1 & Hd1 & Hs1).
  destruct (H2 p1 d1 Hp1 Hd1) as (p2 & d2 & Hl2 & Hp2 & Hd2 & Hs2). exists p2, d2.
  split_and!; [|done|done|by etrans]. destruct Hl2 as [->|?]; [done|by right].
Qed.

(** The entries and contents of the names in [S] stay. *)
Definition kept (S : string → Prop) (f f' : fs) : Prop :=
  (∀ p n, S p → entry f p = Some n → entry f' p = Some n) ∧ (∀ p d, S p → data_at f p = Some d → data_at f' p = Some d).
#[export] Instance kept_preorder S : PreOrder (kept S).
Proof. split; [by split|]. intros f g h [H1 H2] [H3 H4]. split; eauto. Qed.
Lemma kept_weaken (S T : string → Prop) f f' : (∀ p, T p → S p) → kept S f f' → kept T f f'.
Proof. intros HS [H1 H2]. split; eauto. Qed.
Lemma kept_keeps `{Exec} L f f' : kept plain f f' → keeps L f f'.
Proof. intros [_ Hc] p d Hp Hd. exists p, d. split_and!; eauto. by left. Qed.
Lemma names_kept S f f' : keeps_names f f' → kept S f f'.
Proof. intros Hk. split; [intros; by apply (kn_entry _ _ Hk)|intros; by eapply keeps_names_data]. Qed.

(** [p] may be overwritten: what is there is also elsewhere. *)
Definition spare `{Exec} (L : string → Prop) (f : fs) (p : string) : Prop :=
  ∀ d, data_at f p = Some d → ∃ p' d', p' ≠ p ∧ L p' ∧ plain p' ∧ data_at f p' = Some d' ∧ same_content d d'.

(** A rename to a name that is free or spare. *)
Lemma rename_keeps `{Exec} L f old new f' :
  os_rename f old new = Ok f' → fs_ok f → (plain old → L new ∧ plain new) → (entry f new = None ∨ spare L f new ∧ ¬ plain old) →
  keeps L f f' ∧ fs_ok f'.
Proof.
  intros Hr Hok Hnew Hfree. destruct (rename_spec _ _ _ _ Hr Hok) as (n & Hold & Hnd & Hok' & Hcase). split; [|done].
  destruct Hcase as [[-> _]|Hf']; [apply kept_keeps; reflexivity|].
  assert (Hdata : ∀ q, q ≠ new → q ≠ old → data_at f' q = data_at f q).
  { intros q H1 H2. rewrite !data_at_entry, Hf'. unfold entry, set_tree. simpl.
    rewrite lookup_insert_ne by done. by rewrite lookup_delete_ne by done. }
  assert (Hmoved : data_at f' new = data_at f old).
  { rewrite !data_at_entry, Hf', Hold. unfold entry, set_tree. simpl. rewrite lookup_insert. by rewrite decide_True. }
  intros p d Hp Hd. destruct (decide (p = old)) as [->|Hpo].
  { destruct (Hnew Hp) as [HL Hpl]. exists new, d. split_and!; [by right|done|by rewrite Hmoved|by left]. }
  destruct (decide (p = new)) as [->|Hpn]; [|exists p, d; split_and!; [by left|done|by rewrite Hdata|by left]].
  destruct Hfree as [Hnone|[Hsp Hold']].
  { by rewrite data_at_entry, Hnone in Hd. }
  destruct (Hsp d Hd) as (p' & d' & Hne & HL & Hpl & Hd' & Hs). exists p', d'. split_and!; [by right|done| |done].
  rewrite Hdata; [done|done|]. intros ->. done.
Qed.

Lemma remove_data f p f' : os_remove f p = Ok f' → fs_ok f → (¬ plain p ∨ entry f p = Some NDir) →
  fs_ok f' ∧ (∀ q d, plain q → data_at f q = Some d → data_at f' q = Some d).
Proof.
  intros Hr Hok Hp. destruct (remove_spec _ _ _ Hr Hok) as [-> Hok']. split; [done|]. intros q d Hq Hd.
  rewrite data_at_entry in *. unfold entry, set_tree in *. simpl. rewrite lookup_delete_ne; [done|].
  intros ->. destruct Hp as [Hp|Hp]; [done|]. by rewrite Hp in Hd.
Qed.

Lemma data_keeps `{Exec} L f f' : (∀ q d, plain q → data_at f q = Some d → data_at f' q = Some d) → keeps L f f'.
Proof. intros Hd p d Hp Hpd. exists p, d. split_and!; eauto. by left. Qed.

Lemma create_calm now f p f' : os_create now f p = Ok f' → fs_ok f → kept plain f f' ∧ fs_ok f'.
Proof. intros Hc Hok. destruct (create_spec _ _ _ _ Hc Hok) as (_ & Hk & Hok' & _). split; [by apply names_kept|done]. Qed.

(** A file with one name only, which is a temp file's. *)
Definition lone (f : fs) (p : string) : Prop := ∃ i, entry f p = Some (NFile i) ∧ ∀ q, entry f q = Some (NFile i) → q = p.

(** An edit of such a file changes no other. *)
Lemma edit_other g f p q : lone f p → q ≠ p → data_at (edit_inode g f p) q = data_at f q.
Proof.
  intros (i & Hi & Honly) Hq. unfold data_at, edit_inode. unfold entry in Hi. rewrite Hi. simpl.
  destruct (f_tree f !! q) as [[j| |]|] eqn:E; try done. rewrite lookup_alter_ne; [done|]. intros ->. by destruct (Hq (Honly q E)).
Qed.
Lemma edit_lone g f p : fs_ok f → lone f p → ¬ plain p → kept plain f (edit_inode g f p) ∧ fs_ok (edit_inode g f p) ∧ lone (edit_inode g f p) p.
Proof.
  intros Hok Hl Hp. destruct (edit_spec g f p Hok) as (Hok' & Ht & _). split_and!; [|done|unfold lone, entry in *; by rewrite Ht].
  split; [unfold entry; by rewrite Ht|]. intros q d Hq. rewrite edit_other; [done..|]. by intros ->.
Qed.

Lemma chtimes_kept S t f p : fs_ok f → kept S f (os_chtimes t f p) ∧ fs_ok (os_chtimes t f p).
Proof.
  intros Hok. destruct (edit_spec (λ x, mkInode (n_data x) t) f p Hok) as (Hok' & Ht & _). split; [|done].
  split; unfold entry; unfold os_chtimes; [by rewrite Ht|]. intros q d Hq. unfold data_at. rewrite Ht.
  unfold edit_inode. destruct (f_tree f !! p) as [[i| |]|]; try done. simpl.
  destruct (f_tree f !! q) as [[j| |]|]; try done. rewrite lookup_alter. case_decide as Hij; [|done]. rewrite Hij.
  by destruct (f_inodes f !! j).
Qed.

(** ** The paths of the records

    No transaction of an item gives a row a path that is not among the known ones. *)

Section rows.
Context {known : string → Prop}.
Definition rows_known (t : records) : Prop := ∀ r, r ∈ t → known (fr_RelPath r).

Lemma known_fmap g t : (∀ r, fr_RelPath (g r) = fr_RelPath r) → rows_known t → rows_known (g <$> t).
Proof. intros Hg Ht r Hr. apply list_elem_of_fmap in Hr as (q & -> & Hq). rewrite Hg. by apply Ht. Qed.
Lemma known_insert rec t t' : insertRecord rec t = Ok t' → known (fr_RelPath rec) → rows_known t → rows_known t'.
Proof.
  unfold insertRecord. destruct (row_error _ t); intros [= <-] Hrec Ht r. rewrite elem_of_app, list_elem_of_singleton.
  intros [Hr| ->]; [by apply Ht|done].
Qed.
Lemma known_update rec t t' : updateRecord rec t = Ok t' → known (fr_RelPath rec) → rows_known t → rows_known t'.
Proof.
  unfold updateRecord. destruct (get_record _ t); [|done]. destruct (row_error _ t); intros [= <-] Hrec Ht r Hr.
  unfold set_row in Hr. apply list_elem_of_fmap in Hr as (q & -> & Hq). destruct (_ =? _); [done|by apply Ht].
Qed.
Lemma known_retained rec t t' : insertRetained rec t = Ok t' → known (fr_RelPath rec) → rows_known t → rows_known t'.
Proof. unfold insertRetained. destruct (retainedExists rec t); [by intros [= <-]|apply known_insert]. Qed.
Lemma unlink_retained_rel id r : fr_RelPath (unlink_retained id r) = fr_RelPath r.
Proof. unfold unlink_retained. by destruct (_ && _ && _). Qed.
Lemma known_repoint a b t : rows_known t → rows_known (repoint a b t).
Proof. apply known_fmap. intros r. rewrite unlink_retained_rel. by destruct (_ && _). Qed.
Lemma known_lose a ids t : rows_known t → rows_known (loseLinks a ids t).
Proof. apply known_fmap. intros r. unfold lose_link. by destruct (_ && _ && _ && _). Qed.
Lemma known_delete id t t' : deleteRecord id t = Ok t' → rows_known t → rows_known t'.
Proof.
  unfold deleteRecord. destruct (existsb _ _); intros [= <-] Ht r Hr. apply filter_bool_elem in Hr as [Hr _]. revert r Hr. apply (known_fmap (unlink_retained id)); [apply unlink_retained_rel|done].
Qed.
Lemma known_deletes ids t t' : deleteRecords ids t = Ok t' → rows_known t → rows_known t'.
Proof.
  revert t. induction ids as [|id ids IH]; intros t; simpl; [by intros [= <-]|]. rewrite rbind_ok. intros (u & Hu & H') Ht.
  eapply IH; [done|]. by eapply known_delete.
Qed.
Lemma known_intent dst rel p why t t' : setIntentTx dst rel p why t = Ok t' → rows_known t → rows_known t'.
Proof. unfold setIntentTx. destruct (existsb _ t); intros [= <-]. apply known_fmap. intros r. by destruct (intent_row _ _ r). Qed.
Lemma known_clear id p t : rows_known t → rows_known (clearIntentTx id p t).
Proof. apply known_fmap. intros r. by destruct (_ && _ && _). Qed.
Lemma known_mark id p t : rows_known t → rows_known (mark_unknown id p t).
Proof. apply known_fmap. intros r. by destruct (_ && _ && _). Qed.
Lemma known_release cur t : rows_known t → rows_known (releaseDependents cur t).
Proof. unfold releaseDependents. case_bool_decide; [done|]. apply known_fmap. intros r. by destruct (releases cur r). Qed.
#[local] Hint Resolve known_repoint known_lose known_clear known_mark known_release : exec.

Lemma find_known p t r : rows_known t → List.find p t = Some r → known (fr_RelPath r).
Proof. intros Ht Hr. apply find_some in Hr as [Hr _]. apply Ht. by apply list_elem_of_In. Qed.

Lemma known_placed `{Exec} it d retained now t t' : known (i_RelPath it) → rows_known t → placedTx it d retained now t = Ok t' → rows_known t'.
Proof.
  intros Hit Ht. unfold placedTx. rewrite rbind_ok. intros (u & Hu & Hr). assert (rows_known u).
  { destruct (liveAt _ _ t) as [cur|]; [|by eapply known_insert].
    destruct (fr_SourceID cur =? _); [|done]. eapply known_update; [exact Hu|done|]. apply known_release. destruct (bool_decide (fr_State cur = StateMissing)); auto with exec. }
  destruct (_ || _); [by injection Hr as <-|]. by eapply known_retained.
Qed.
End rows.

(** ** The logic *)

Section safe.
Context `{Exec} (w0 : world) (known : string → Prop) (has_dir : Prop).
#[local] Abbreviation c := the_run.

(** [known]: the paths that items and records have; [has_dir]: the job has a retention
    directory of its own; and where a file may go. *)
#[local] Abbreviation recs_known := (@rows_known known).
Definition may_move_to (p : string) : Prop := has_dir ∧ retention_name p ∨ known p.
#[local] Abbreviation L := may_move_to.

Definition detail_ok (d : ItemDetail) : Prop :=
  (xd_Retained d = "" ∨ retention_name (xd_Retained d)) ∧ (xd_Displaced d = "" ∨ retention_name (xd_Displaced d)).

(** A world a run may leave, and a state of the run. Of the items only those to be run count. *)
Record good (w : world) : Prop := mkGood {
  good_fs : fs_ok (w_fs w);
  good_keeps : keeps L (w_fs w0) (w_fs w);
  good_recs : ∀ r, r ∈ w_recs w → known (fr_RelPath r);
  good_items : ∀ i, i ∈ w_items w → i_Status i = ItemPending → known (i_RelPath i) ∧ detail_ok (i_Detail i);
}.
Definition same_ids (w : world) : Prop := i_ID <$> w_items w = i_ID <$> w_items w0.
Record Inv (s : st) : Prop := mkInv {
  inv_world : good (s_w s);
  inv_past : Forall good (s_past s);
  inv_detail : detail_ok (s_d s);
  inv_ids : same_ids (s_w s);
}.
Lemma inv_fs s : Inv s → fs_ok (w_fs (s_w s)).
Proof. intros Hs. apply inv_world, Hs. Qed.
Lemma inv_recs s : Inv s → ∀ r, r ∈ w_recs (s_w s) → known (fr_RelPath r).
Proof. intros Hs. apply good_recs, Hs. Qed.
Lemma inv_items s : Inv s → ∀ i, i ∈ w_items (s_w s) → i_Status i = ItemPending → known (i_RelPath i) ∧ detail_ok (i_Detail i).
Proof. intros Hs. apply good_items, Hs. Qed.

(** A change to a good world. *)
Lemma inv_change s w' : Inv s → good w' → same_ids w' → Inv (mkSt w' (w' :: s_past s) (s_n s) (s_d s)).
Proof. intros [? ? ? ?] Hw. split; [done|by constructor|done|done]. Qed.
Lemma inv_change_fs s f : Inv s → fs_ok f → keeps L (w_fs (s_w s)) f → Inv (mkSt (with_fs f (s_w s)) (with_fs f (s_w s) :: s_past s) (s_n s) (s_d s)).
Proof. intros Hs Hok Hk. apply inv_change; [done| |apply Hs]. destruct Hs as [[? Hk0 ? ?] _ _ _]. split; simpl; try done. by eapply keeps_trans. Qed.

Definition core (s : st) : world * ItemDetail := (s_w s, s_d s).

(** What a program keeps: everything ([still]), what has a plain name ([calm]), or the temp
    files ([temps]); [anything] asks for nothing. *)
Definition temp_of (d : ItemDetail) := (xd_Temp d, xd_TempDone d, xd_TempSize d, xd_TempMtimeNs d, xd_TempHash d).
Record still (a b : world * ItemDetail) : Prop := mkStill {
  still_files : kept (λ _, True) (w_fs a.1) (w_fs b.1);
  still_retained : xd_Retained b.2 = xd_Retained a.2;
  still_plan : xd_plan b.2 = xd_plan a.2;
  still_temp : temp_of b.2 = temp_of a.2;
}.
Record calm (a b : world * ItemDetail) : Prop := mkCalm {
  calm_files : kept plain (w_fs a.1) (w_fs b.1);
  calm_retained : xd_Retained b.2 = xd_Retained a.2;
  calm_plan : xd_plan b.2 = xd_plan a.2;
}.
Record temps (a b : world * ItemDetail) : Prop := mkTemps {
  temps_files : kept (λ p, ¬ plain p) (w_fs a.1) (w_fs b.1);
  temps_plan : xd_plan b.2 = xd_plan a.2;
  temps_temp : temp_of b.2 = temp_of a.2;
}.
Definition anything (a b : world * ItemDetail) : Prop := True.
#[export] Instance still_preorder : PreOrder still.
Proof. split; [by split|]. intros a b d [H1 H2 H3 H4] [H5 H6 H7 H8]. split; [by etrans|congruence..]. Qed.
#[export] Instance calm_preorder : PreOrder calm.
Proof. split; [by split|]. intros a b d [H1 H2 H3] [H4 H5 H6]. split; [by etrans|congruence..]. Qed.
#[export] Instance temps_preorder : PreOrder temps.
Proof. split; [by split|]. intros a b d [H1 H2 H3] [H4 H5 H6]. split; [by etrans|congruence..]. Qed.

(** The relations the specifications below are stated for: those [still] is part of; some
    also hold of what is calm, some of what moves plain names only. *)
Class Frame (R : relation (world * ItemDetail)) := mkFrame {
  frame_pre :: PreOrder R;
  frame_still : ∀ a b, still a b → R a b;
}.
Class Calm (R : relation (world * ItemDetail)) := frame_calm : ∀ a b, calm a b → R a b.
Class Moves (R : relation (world * ItemDetail)) := frame_temps : ∀ a b, temps a b → R a b.
#[export] Instance frame_of_still : Frame still.
Proof. by split; [apply _|]. Qed.
#[export] Instance frame_of_calm : Frame calm.
Proof. split; [apply _|]. intros a b [H1 H2 H3 H4]. split; [by eapply kept_weaken; [|exact H1]|done..]. Qed.
#[export] Instance frame_of_temps : Frame temps.
Proof. split; [apply _|]. intros a b [H1 H2 H3 H4]. split; [by eapply kept_weaken; [|exact H1]|done..]. Qed.
#[export] Instance frame_anything : Frame anything.
Proof. split; [|done]. by split. Qed.
#[export] Instance calm_calm : Calm calm.
Proof. by intros a b. Qed.
#[export] Instance calm_anything : Calm anything.
Proof. done. Qed.
#[export] Instance moves_temps : Moves temps.
Proof. by intros a b. Qed.
#[export] Instance moves_anything : Moves anything.
Proof. done. Qed.

(** [pres R m]: from every good state, [m] leads through good states to a good one that [R]
    relates to the first. *)
Definition pres (R : relation (world * ItemDetail)) {A} (m : X A) : Prop :=
  ∀ s, Inv s → Inv (m s).2 ∧ R (core s) (core (m s).2).

(** [hoare P m Q D]: the same from a state with [P]; a result comes with [Q], an error with [D]. *)
Definition hoare {A} (P : st → Prop) (m : X A) (Q : A → st → Prop) (D : st → Prop) : Prop :=
  ∀ s, Inv s → P s → Inv (m s).2 ∧ match (m s).1 with Ok a => Q a (m s).2 | Err _ => D (m s).2 end.

Section rules.
Context {R : relation (world * ItemDetail)} `{!Frame R}.

Lemma pres_same {A} (m : X A) : (∀ s, core (m s).2 = core s ∧ s_past (m s).2 = s_past s) → pres R m.
Proof.
  intros Hm s [? ? ? ?]. destruct (Hm s) as [Hc Hp]. unfold core in Hc. injection Hc as Hw Hd.
  split; [split; rewrite ?Hp, ?Hw, ?Hd; done|]. unfold core. rewrite Hw, Hd. reflexivity.
Qed.
Lemma pres_ret {A} (a : A) : pres R (xret a).
Proof. by apply pres_same. Qed.
Lemma pres_fail {A} e : pres R (xfail (A := A) e).
Proof. by apply pres_same. Qed.
Lemma pres_ask {A} (f : nat → A) : pres R (ask f).
Proof. by apply pres_same. Qed.
Lemma pres_world_of : pres R world_of.
Proof. by apply pres_same. Qed.
Lemma pres_detail : pres R detail.
Proof. by apply pres_same. Qed.
Lemma pres_bind {A B} (m : X A) (k : A → X B) : pres R m → (∀ a, pres R (k a)) → pres R (xbind m k).
Proof.
  intros Hm Hk s Hs. destruct (Hm s Hs) as [H1 H2]. unfold xbind. destruct (m s) as [[a|e] s']; simpl in *; [|done].
  destruct (Hk a s' H1) as [H3 H4]. split; [done|]. by etrans.
Qed.
Lemma pres_wrap {A B} (m : X A) (g : result xerr A → result xerr B) : pres R m → pres R (λ s, let (r, s) := m s in (g r, s)).
Proof. intros Hm s Hs. specialize (Hm s Hs). by destruct (m s). Qed.
Lemma pres_try {A} (m : X A) : pres R m → pres R (xtry m).
Proof. apply (pres_wrap m (λ r, Ok r)). Qed.
Lemma pres_sideErr {A} sd (m : X A) : pres R m → pres R (sideErr sd m).
Proof. intros Hm s Hs. specialize (Hm s Hs). unfold sideErr. by destruct (m s) as [[] ?]. Qed.
Lemma pres_as_exists {A} (m : X A) : pres R m → pres R (as_exists m).
Proof. intros Hm s Hs. specialize (Hm s Hs). unfold as_exists. by destruct (m s) as [[|[| |? [[]| | | | | | |]| | | |]] ?]. Qed.
Lemma pres_set_detail f : (∀ d, detail_ok d → detail_ok (f d)) →
  (∀ d, xd_Retained (f d) = xd_Retained d ∧ xd_plan (f d) = xd_plan d ∧ temp_of (f d) = temp_of d) → pres R (set_detail f).
Proof. intros Hf Hr s [? ? ? ?]. split; [split; simpl; auto|]. apply frame_still. split; simpl; [reflexivity|apply Hr..]. Qed.
Lemma pres_set_temp `{!Calm R} f : (∀ d, detail_ok d → detail_ok (f d)) → (∀ d, xd_Retained (f d) = xd_Retained d ∧ xd_plan (f d) = xd_plan d) →
  pres R (set_detail f).
Proof. intros Hf Hr s [? ? ? ?]. split; [split; simpl; auto|]. apply frame_calm. split; simpl; [reflexivity|apply Hr..]. Qed.
Lemma pres_set_names `{!Moves R} f : (∀ d, detail_ok d → detail_ok (f d)) → (∀ d, xd_plan (f d) = xd_plan d ∧ temp_of (f d) = temp_of d) →
  pres R (set_detail f).
Proof. intros Hf Hr s [? ? ? ?]. split; [split; simpl; auto|]. apply frame_temps. split; simpl; [reflexivity|apply Hr..]. Qed.
(** A change of the files that keeps every name and content. *)
Lemma pres_change_fs f : (∀ s, Inv s → fs_ok (f (w_fs (s_w s))) ∧ kept (λ _, True) (w_fs (s_w s)) (f (w_fs (s_w s)))) → pres R (fs_edit f).
Proof.
  intros Hf s Hs. destruct (Hf s Hs) as [Hok Hc]. split; [|apply frame_still; by split].
  apply (inv_change_fs s); [done|done|]. apply kept_keeps. by eapply kept_weaken; [|done].
Qed.
Lemma pres_refuse sd : pres R (may_refuse sd).
Proof. apply pres_bind; [apply pres_ask|]. intros [r|]; [apply pres_fail|apply pres_ret]. Qed.
Lemma pres_fs_read {A} sd (op : fs → result errno A) : pres R (fs_read sd op).
Proof.
  apply pres_bind; [apply pres_refuse|]. intros _. apply pres_bind; [apply pres_world_of|]. intros w.
  destruct (op (w_fs w)); [apply pres_ret|apply pres_fail].
Qed.
Lemma pres_fs_call sd (op : fs → result errno fs) :
  (∀ s f', Inv s → op (w_fs (s_w s)) = Ok f' → fs_ok f' ∧ keeps L (w_fs (s_w s)) f' ∧ R (core s) (with_fs f' (s_w s), s_d s)) →
  pres R (fs_call sd op).
Proof.
  intros Hop. apply pres_bind; [apply pres_refuse|]. intros _ s Hs. unfold xbind. simpl.
  destruct (op (w_fs (s_w s))) as [f'|e] eqn:E; simpl; [|split; [done|reflexivity]].
  destruct (Hop _ _ Hs E) as (Hok & Hk & Hr). split; [by apply (inv_change_fs s)|done].
Qed.
Lemma pres_fs_call_still sd (op : fs → result errno fs) :
  (∀ f f', fs_ok f → op f = Ok f' → fs_ok f' ∧ kept (λ _, True) f f') → pres R (fs_call sd op).
Proof.
  intros Hop. apply pres_fs_call. intros s f' Hs E. destruct (Hop _ _ (inv_fs _ Hs) E) as [Hok Hk]. split_and!; [done| |by apply frame_still].
  apply kept_keeps. by eapply kept_weaken; [|done].
Qed.
Lemma pres_fs_call_calm `{!Calm R} sd (op : fs → result errno fs) :
  (∀ f f', fs_ok f → op f = Ok f' → fs_ok f' ∧ kept plain f f') → pres R (fs_call sd op).
Proof.
  intros Hop. apply pres_fs_call. intros s f' Hs E. destruct (Hop _ _ (inv_fs _ Hs) E) as [Hok Hk]. split_and!; [done| |by apply frame_calm].
  by apply kept_keeps.
Qed.
Lemma pres_if {A} (b : bool) (m k : X A) : pres R m → pres R k → pres R (if b then m else k).
Proof. by destruct b. Qed.
End rules.

Section db_rules.
Context {R : relation (world * ItemDetail)} `{!Frame R}.
Lemma pres_db_ok : pres R db_ok.
Proof. apply pres_bind; [apply pres_ask|]. intros []; [apply pres_fail|apply pres_ret]. Qed.
Lemma pres_db_read {A} (f : records → A) : pres R (db_read f).
Proof. apply pres_bind; [apply pres_db_ok|]. intros _. apply pres_bind; [apply pres_world_of|]. intros w. apply pres_ret. Qed.
Lemma pres_db_write f :
  (∀ now t t', (∀ r, r ∈ t → known (fr_RelPath r)) → f now t = Ok t' → ∀ r, r ∈ t' → known (fr_RelPath r)) → pres R (db_write f).
Proof.
  intros Hf. apply pres_bind; [apply pres_ask|]. intros now. apply pres_bind; [apply pres_db_ok|]. intros _ s Hs. unfold xbind. simpl.
  destruct (f now (w_recs (s_w s))) as [t|e] eqn:E; simpl; [|split; [done|reflexivity]].
  specialize (Hf _ _ _ (inv_recs _ Hs) E). split; [|apply frame_still; by split]. apply (inv_change s); [done| |apply Hs].
  destruct Hs as [[? ? ? ?] _ _ _]. by split.
Qed.
Lemma pres_update_item id g : (∀ i, i_Status (g i) = ItemPending → i_Status i = ItemPending ∧ i_RelPath (g i) = i_RelPath i ∧ (detail_ok (i_Detail i) → detail_ok (i_Detail (g i)))) →
  (∀ i, i_ID (g i) = i_ID i) → pres R (update_item id g).
Proof.
  intros Hg Hid. apply pres_bind; [apply pres_db_ok|]. intros _ s Hs. unfold xbind. simpl. destruct (existsb _ _); simpl; [|split; [done|reflexivity]].
  split; [|apply frame_still; by split]. apply (inv_change s); [done| |].
  2: { unfold same_ids. simpl. rewrite <-(inv_ids _ Hs). unfold set_item. rewrite <-list_fmap_compose. apply list_fmap_ext. intros ? i _. simpl. destruct (i_ID i =? id); [apply Hid|done]. }
  destruct Hs as [[? ? ? Hi] _ _ _]. split; [done..|].
  intros i Hin. unfold set_item in Hin. apply list_elem_of_fmap in Hin as (j & -> & Hj). specialize (Hi _ Hj).
  destruct (i_ID j =? id); [|done]. intros Hp. destruct (Hg j Hp) as (Hj' & -> & Hd). destruct (Hi Hj'). auto.
Qed.
End db_rules.

(** *** The file operations *)

Hypothesis known_mirror : ∀ p, known p → mirror p.
Lemma may_move_plain p : L p → plain p.
Proof. intros [[_ Hp]|Hp]; [by apply retention_plain|by apply known_mirror]. Qed.

#[local] Hint Resolve frame_of_still frame_of_calm frame_of_temps frame_anything calm_calm calm_anything moves_temps moves_anything : exec.
#[local] Hint Extern 1 (_ ≠ ItemPending) => discriminate : exec.
#[local] Hint Resolve pres_ret pres_fail pres_ask pres_world_of pres_detail pres_refuse pres_fs_read pres_db_ok pres_db_read : exec.
Ltac walk :=
  repeat first
    [ solve [auto 2 with exec nocore]
    | match goal with
      | |- pres _ (xbind _ _) => apply pres_bind; [|intros ?]
      | |- pres _ (xtry _) => apply pres_try
      | |- pres _ (sideErr _ _) => apply pres_sideErr
      | |- pres _ (as_exists _) => apply pres_as_exists
      | |- pres _ (if ?b then _ else _) => destruct b
      | |- pres _ (match ?x with _ => _ end) => destruct x
      | |- pres _ (let x := _ in _) => intros x; cbv beta
      end
    | progress cbv zeta ].

Section files.
Context {R : relation (world * ItemDetail)} `{!Frame R}.
Lemma pres_Lstat rel : pres R (Lstat rel).
Proof. unfold Lstat. walk. Qed.
#[local] Hint Resolve pres_Lstat : exec.
Lemma pres_lstat rel : pres R (lstat rel).
Proof. unfold lstat. walk. Qed.
Lemma pres_syncDirs : pres R syncDirs.
Proof. unfold syncDirs. walk. Qed.
Lemma pres_mkParents rel : pres R (mkParents rel).
Proof.
  unfold mkParents. walk. apply pres_fs_call_still. intros f f' Hok Hf. destruct (mkdir_all_spec _ _ _ Hf Hok) as (Hk & Hok' & _).
  split; [done|by apply names_kept].
Qed.
Lemma pres_require_regular rel : pres R (require_regular rel).
Proof. unfold require_regular. walk. Qed.
#[local] Hint Resolve pres_lstat pres_syncDirs pres_mkParents pres_require_regular : exec.
Lemma pres_Link old new : pres R (Link old new).
Proof.
  unfold Link. walk. apply pres_fs_call_still. intros f f' Hok Hf. destruct (link_spec _ _ _ _ Hf Hok) as (_ & _ & _ & _ & Hk & Hok').
  split; [done|by apply names_kept].
Qed.
Lemma pres_retention_target n base i : pres R (retention_target n base i).
Proof. revert i. induction n as [|n IH]; intros i; simpl; walk. Qed.
Lemma pres_RetentionTarget dir rel : pres R (RetentionTarget dir rel).
Proof. unfold RetentionTarget. walk. apply pres_retention_target. Qed.
Lemma pres_SetMtime rel t : pres R (SetMtime rel t).
Proof. unfold SetMtime. walk. apply pres_change_fs. intros s Hs. destruct (chtimes_kept (λ _, True) t (w_fs (s_w s)) rel (inv_fs _ Hs)). done. Qed.
Lemma remove_calm_fs f p f' : ¬ plain p → fs_ok f → os_remove f p = Ok f' → fs_ok f' ∧ kept plain f f'.
Proof.
  intros Hp Hok Hr. destruct (remove_data _ _ _ Hr Hok (or_introl Hp)) as [Hok' Hd]. split; [done|]. split; [|done].
  destruct (remove_spec _ _ _ Hr Hok) as [-> _]. unfold entry, set_tree. simpl. intros q n Hq Hn.
  rewrite lookup_delete_ne; [done|]. intros ->. done.
Qed.
Lemma pres_CleanupTemp `{!Calm R} rel : pres R (CleanupTemp rel).
Proof.
  unfold CleanupTemp. destruct (negb (checkRel rel)); [walk|]. destruct (is_temp rel) eqn:E; simpl; walk.
  apply pres_fs_call_calm. intros f f' Hok Hf. apply (remove_calm_fs f rel); [|done|done]. unfold plain. by rewrite E.
Qed.
Lemma pres_src_stat sd src rel : pres R (src_stat sd src rel).
Proof. unfold src_stat. walk. Qed.
#[local] Hint Resolve pres_src_stat : exec.
Lemma pres_open_source sd src rel : pres R (open_source sd src rel).
Proof. unfold open_source. walk. Qed.
Lemma pres_read_chunks l : pres R (read_chunks l).
Proof. induction l; simpl; walk. Qed.
#[local] Hint Resolve pres_open_source pres_read_chunks : exec.
Lemma pres_HashSource src rel : pres R (HashSource src rel).
Proof. unfold HashSource. walk. Qed.
Lemma pres_open_dest rel : pres R (open_dest rel).
Proof. unfold open_dest. walk. Qed.
#[local] Hint Resolve pres_open_dest : exec.
Lemma pres_HashDest rel : pres R (HashDest rel).
Proof. unfold HashDest. walk. Qed.
Lemma pres_VerifyTemp rel size hash : pres R (VerifyTemp rel size hash).
Proof. unfold VerifyTemp. walk. Qed.
Lemma pres_inodeIdentity : pres R inodeIdentity.
Proof. unfold inodeIdentity. walk. Qed.
#[local] Hint Resolve pres_HashDest pres_inodeIdentity : exec.
Lemma pres_sameDestFile a sa b sb : pres R (sameDestFile a sa b sb).
Proof. unfold sameDestFile. walk. Qed.
#[local] Hint Resolve pres_sameDestFile : exec.
Lemma pres_hardlinkOf a sa b sb : pres R (hardlinkOf a sa b sb).
Proof. unfold hardlinkOf. walk. Qed.
Lemma pres_caseVariant a sa b sb : pres R (caseVariant a sa b sb).
Proof. unfold caseVariant. walk. Qed.
End files.
#[local] Hint Resolve pres_Lstat pres_lstat pres_syncDirs pres_mkParents pres_require_regular pres_Link pres_RetentionTarget pres_SetMtime
  pres_CleanupTemp pres_src_stat pres_open_source pres_read_chunks pres_HashSource pres_open_dest pres_HashDest pres_VerifyTemp
  pres_inodeIdentity pres_sameDestFile pres_hardlinkOf pres_caseVariant : exec.

(** *** Renames *)

(** [new] may take what [old] holds. *)
Definition renamable (old new : string) (noReplace : bool) (s : st) : Prop :=
  (plain old → L new) ∧ (noReplace = true ∨ spare L (w_fs (s_w s)) new ∧ ¬ plain old).

Lemma hoare_bind {A B} (P : st → Prop) (m : X A) (M : A → st → Prop) (k : A → X B) Q D :
  hoare P m M D → (∀ a, hoare (M a) (k a) Q D) → hoare P (xbind m k) Q D.
Proof.
  intros Hm Hk s Hs Hp. specialize (Hm s Hs Hp). unfold xbind. destruct (m s) as [[a|e] s']; simpl in *; [|done].
  destruct Hm as [Hs' Ha]. by apply Hk.
Qed.
Lemma hoare_if {A} (P : st → Prop) (b : bool) (m k : X A) Q D :
  (b = true → hoare P m Q D) → (b = false → hoare P k Q D) → hoare P (if b then m else k) Q D.
Proof. destruct b; auto. Qed.
Lemma hoare_ret {A} (P : st → Prop) (a : A) Q D : (∀ s, P s → Q a s) → hoare P (xret a) Q D.
Proof. intros HQ s Hs Hp. split; [done|]. by apply HQ. Qed.
Lemma hoare_fail {A} (P : st → Prop) e Q (D : st → Prop) : (∀ s, P s → D s) → hoare P (xfail (A := A) e) Q D.
Proof. intros HD s Hs Hp. split; [done|]. by apply HD. Qed.
Lemma hoare_weaken {A} (P P' : st → Prop) (m : X A) (Q Q' : A → st → Prop) (D D' : st → Prop) :
  hoare P' m Q' D' → (∀ s, Inv s → P s → P' s) → (∀ a s, Inv s → Q' a s → Q a s) → (∀ s, Inv s → D' s → D s) → hoare P m Q D.
Proof.
  intros Hm HP HQ HD s Hs Hp. destruct (Hm s Hs (HP s Hs Hp)) as [Hs' Hr]. split; [done|].
  destruct (m s) as [[a|e] s']; simpl in *; auto.
Qed.
Lemma hoare_pre {A} (P P' : st → Prop) (m : X A) Q D : (∀ s, Inv s → P s → P' s) → hoare P' m Q D → hoare P m Q D.
Proof. intros HP Hm. by eapply hoare_weaken. Qed.
(** A program that keeps what [P] says. *)
Lemma hoare_pres {A} R (P : st → Prop) (m : X A) : pres R m → (∀ s s', Inv s → P s → R (core s) (core s') → P s') → hoare P m (λ _, P) (λ _, True).
Proof. intros Hm HP s Hs Hp. destruct (Hm s Hs) as [Hs' Hr]. split; [done|]. destruct (m s).1; eauto. Qed.
Lemma hoare_any {A} (P : st → Prop) (m : X A) : pres anything m → hoare P m (λ _ _, True) (λ _, True).
Proof. intros Hm s Hs _. destruct (Hm s Hs) as [Hs' _]. split; [done|]. by destruct (m s).1. Qed.
Lemma any_hoare {A} (m : X A) Q D : hoare (λ _, True) m Q D → pres anything m.
Proof. intros Hm s Hs. by destruct (Hm s Hs I) as [Hs' _]. Qed.

(** *** Programs that only read *)

Definition reader {A} (m : X A) : Prop := ∀ s, core (m s).2 = core s ∧ s_past (m s).2 = s_past s.
Lemma reader_ret {A} (a : A) : reader (xret a).
Proof. done. Qed.
Lemma reader_fail {A} e : reader (xfail (A := A) e).
Proof. done. Qed.
Lemma reader_ask {A} (f : nat → A) : reader (ask f).
Proof. done. Qed.
Lemma reader_bind {A B} (m : X A) (k : A → X B) : reader m → (∀ a, reader (k a)) → reader (xbind m k).
Proof.
  intros Hm Hk s. destruct (Hm s) as [H1 H2]. unfold xbind. destruct (m s) as [[a|e] s']; simpl in *; [|done].
  destruct (Hk a s') as [H3 H4]. split; congruence.
Qed.
Lemma reader_try {A} (m : X A) : reader m → reader (xtry m).
Proof. intros Hm s. specialize (Hm s). unfold xtry. by destruct (m s). Qed.
Lemma reader_sideErr {A} sd (m : X A) : reader m → reader (sideErr sd m).
Proof. intros Hm s. specialize (Hm s). unfold sideErr. by destruct (m s) as [[] ?]. Qed.
Lemma reader_refuse sd : reader (may_refuse sd).
Proof. apply reader_bind; [done|]. by intros []. Qed.
Lemma reader_fs_read {A} sd (op : fs → result errno A) : reader (fs_read sd op).
Proof.
  apply reader_bind; [apply reader_refuse|]. intros _. apply reader_bind; [done|]. intros w. by destruct (op (w_fs w)).
Qed.
Lemma reader_require_regular p : reader (require_regular p).
Proof. apply reader_bind; [apply reader_fs_read|]. intros st. by destruct (negb (Regular st)). Qed.
Lemma reader_Lstat p : reader (Lstat p).
Proof. unfold Lstat. destruct (negb _); [done|]. apply reader_bind; [done|]. intros nl. apply reader_fs_read. Qed.
Lemma reader_lstat p : reader (lstat p).
Proof.
  unfold lstat. case_bool_decide; [done|]. apply reader_bind; [apply reader_try, reader_Lstat|]. intros [st|e]; [done|]. by destruct (not_exist e).
Qed.

(** What a state says of the world and the detail only. *)
Definition of_core (P : st → Prop) : Prop := ∀ s s', core s = core s' → P s → P s'.
Lemma hoare_reader {A} (P : st → Prop) (m : X A) : of_core P → reader m → hoare P m (λ _, P) P.
Proof.
  intros HP Hm s Hs Hp. destruct (Hm s) as [Hc Hpast]. destruct Hs as [? ? ? ?].
  assert (Hs' : Inv (m s).2).
  { unfold core in Hc. injection Hc as Hw Hd. split; rewrite ?Hw, ?Hd, ?Hpast; done. }
  split; [done|]. specialize (HP s (m s).2 (eq_sym Hc) Hp). by destruct (m s).1.
Qed.
(** The same with what the result says. *)
Lemma hoare_read {A} (P : st → Prop) (m : X A) (F : A → st → Prop) :
  of_core P → reader m → (∀ a, of_core (F a)) → (∀ s a, Inv s → P s → (m s).1 = Ok a → F a s) → hoare P m (λ a s, P s ∧ F a s) P.
Proof.
  intros HP Hm HF Hres s Hs Hp. destruct (hoare_reader P m HP Hm s Hs Hp) as [Hs' Hp']. split; [done|].
  destruct (Hm s) as [Hc _]. specialize (Hres s). destruct (m s) as [[a|e] s']; simpl in *; [|done].
  split; [done|]. eapply HF, Hres; done.
Qed.
Lemma of_core_and P Q : of_core P → of_core Q → of_core (λ s, P s ∧ Q s).
Proof. intros HP HQ s s' Hc [? ?]. split; eauto. Qed.
Lemma of_core_fs (P : fs → Prop) : of_core (λ s, P (w_fs (s_w s))).
Proof. intros s s' [= Hw _]. by rewrite Hw. Qed.

(** *** What a look at the files says *)

Lemma xbind_reads {A B} (m : X A) (k : A → X B) s b : reader m → (xbind m k s).1 = Ok b →
  ∃ a s', (m s).1 = Ok a ∧ core s' = core s ∧ (k a s').1 = Ok b.
Proof.
  intros Hm. unfold xbind. destruct (Hm s) as [Hc _]. destruct (m s) as [[a|e] s'] eqn:E; simpl in *; [|done]. eauto.
Qed.
Lemma fs_read_ok {A} sd (op : fs → result errno A) s a : (fs_read sd op s).1 = Ok a → op (w_fs (s_w s)) = Ok a.
Proof.
  unfold fs_read, may_refuse, xbind. simpl. destruct (e_refuse the_env _); simpl; [done|]. by destruct (op _); simpl; [intros [= <-]|].
Qed.

Definition ino_of (n : node) : Z := match n with NFile i => i | _ => 0 end.
(** [o] is what is at [p]. *)
Definition shows (f : fs) (p : string) (o : option FStat) : Prop :=
  match o with
  | Some st => p ≠ "" ∧ (∃ n, entry f p = Some n ∧ fs_Ino st = ino_of n) ∧ (Regular st = true → ∃ data, data_at f p = Some data ∧ fs_Size st = data_size data)
  | None => True
  end.
Lemma shows_calm f f' p o : kept plain f f' → plain p → shows f p o → shows f' p o.
Proof.
  intros [He Hk] Hp. destruct o as [st|]; [|done]. intros (? & (n & Hn & Hi) & Hd). split_and!; [done|exists n; eauto|].
  intros Hr. destruct (Hd Hr) as (data & ? & ?). exists data. eauto.
Qed.

Lemma Lstat_shows p s st : (Lstat p s).1 = Ok st → ∃ nl n, entry (w_fs (s_w s)) p = Some n ∧ st = stat_of (w_fs (s_w s)) nl n.
Proof.
  unfold Lstat. destruct (negb _); [done|]. intros Hr. apply xbind_reads in Hr as (nl & s' & _ & Hc & Hr); [|apply reader_ask].
  injection Hc as Hw _. apply fs_read_ok in Hr. rewrite Hw in Hr. unfold os_lstat, entry in *. destruct (f_tree _ !! p) as [n|]; [|done].
  injection Hr as <-. eauto.
Qed.
Lemma lstat_shows p s o : (lstat p s).1 = Ok o → fs_ok (w_fs (s_w s)) → shows (w_fs (s_w s)) p o.
Proof.
  unfold lstat. case_bool_decide as Hp; [by intros [= <-]|]. unfold xbind, xtry. pose proof (Lstat_shows p s) as Hs.
  destruct (Lstat p s) as [[st|e] s']; simpl in *; [|destruct (not_exist e); by intros [= <-]].
  intros [= <-] Hok. destruct (Hs st eq_refl) as (nl & n & Hn & ->). split_and!; [done|exists n; split; [done|by destruct n]|].
  destruct n as [i| |]; [|done..]. intros _. destruct (ok_inode _ Hok _ _ Hn) as [x Hx]. exists (n_data x).
  rewrite data_at_entry, Hn, Hx. simpl. by rewrite Hx.
Qed.
Lemma hoare_lstat (P : st → Prop) p : of_core P → hoare P (lstat p) (λ o s, P s ∧ shows (w_fs (s_w s)) p o) P.
Proof.
  intros HP. apply (hoare_read P _ (λ o s, shows (w_fs (s_w s)) p o)); [done|apply reader_lstat| |].
  - intros o s s' [= Hw _]. by rewrite Hw.
  - intros s a Hs _ Hr. apply lstat_shows; [done|exact (inv_fs _ Hs)].
Qed.

Lemma reader_read_chunks l : reader (read_chunks l).
Proof. induction l; simpl; (apply reader_bind; [apply reader_ask|]); by intros []. Qed.
Lemma reader_open_dest p : reader (open_dest p).
Proof.
  unfold open_dest. destruct (negb _); [done|]. apply reader_bind; [apply reader_require_regular|]. intros _. apply reader_refuse.
Qed.
Lemma reader_HashDest p : reader (HashDest p).
Proof.
  apply reader_bind; [apply reader_open_dest|]. intros _. apply reader_bind; [apply reader_read_chunks|]. intros _.
  apply reader_bind; [apply reader_refuse|]. intros _. by apply reader_bind.
Qed.
Lemma reader_inodeIdentity : reader inodeIdentity.
Proof. apply reader_bind; [apply reader_ask|]. by intros []. Qed.
Lemma reader_sameDestFile a sa b sb : reader (sameDestFile a sa b sb).
Proof.
  apply reader_bind; [apply reader_inodeIdentity|]. intros []; [done|]. destruct (_ || _); [done|].
  apply reader_bind; [apply reader_sideErr, reader_HashDest|]. intros ha. apply reader_bind; [apply reader_sideErr, reader_HashDest|]. done.
Qed.

Lemma HashDest_says p s h : (HashDest p s).1 = Ok h →
  (∃ i, entry (w_fs (s_w s)) p = Some (NFile i)) ∧ h = hash_of (default "" (data_at (w_fs (s_w s)) p)).
Proof.
  intros Hr. apply xbind_reads in Hr as ([] & s1 & Hopen & Hc1 & Hr); [|apply reader_open_dest]. split.
  - unfold open_dest in Hopen. destruct (negb _); [done|]. apply xbind_reads in Hopen as ([] & s2 & Hreg & _ & _); [|apply reader_require_regular].
    apply xbind_reads in Hreg as (st & s3 & Hst & _ & Hreg); [|apply reader_fs_read]. apply fs_read_ok in Hst. unfold os_lstat, entry in *.
    destruct (f_tree _ !! p) as [n|]; [|done]. injection Hst as <-. destruct n; [by eexists|done..].
  - apply xbind_reads in Hr as ([] & s2 & _ & Hc2 & Hr); [|apply reader_read_chunks].
    apply xbind_reads in Hr as ([] & s3 & _ & Hc3 & Hr); [|apply reader_refuse].
    injection Hr as <-. injection Hc1 as Hw1 _. injection Hc2 as Hw2 _. injection Hc3 as Hw3 _. by rewrite Hw3, Hw2, Hw1.
Qed.
Lemma sideErr_ok {A} sd (m : X A) s a : (sideErr sd m s).1 = Ok a → (m s).1 = Ok a.
Proof. unfold sideErr. by destruct (m s) as [[] ?]. Qed.

(** Two names found to be the same file have the same content. *)
Lemma same_found a sa b sb s :
  (sameDestFile a sa b sb s).1 = Ok true → fs_ok (w_fs (s_w s)) → shows (w_fs (s_w s)) a (Some sa) → shows (w_fs (s_w s)) b (Some sb) →
  ∀ d, data_at (w_fs (s_w s)) a = Some d → ∃ d', data_at (w_fs (s_w s)) b = Some d' ∧ same_content d d'.
Proof.
  intros Hr Hok (_ & (na & Hna & Ha) & _) (_ & (nb & Hnb & Hb) & _) d Hd.
  apply xbind_reads in Hr as (id & s1 & Hid & Hc1 & Hr); [|apply reader_inodeIdentity].
  assert (id = InodeIdentity (x_caps the_run)) as ->.
  { unfold inodeIdentity, xbind in Hid. simpl in Hid. destruct (e_cancel the_env _); simpl in Hid; [done|]. by injection Hid. }
  rewrite data_at_entry, Hna in Hd. destruct na as [i| |]; try done.
  destruct (InodeIdentity (x_caps the_run)) eqn:Eid.
  - injection Hr as Hr. unfold sameFile in Hr. apply andb_true_iff in Hr as [_ Hi%Z.eqb_eq]. rewrite Ha, Hb in Hi. simpl in Hi.
    assert (0 < i < f_next (w_fs (s_w s))) by (eapply ok_fresh; [done|]; destruct (f_inodes _ !! i); [by eexists|done]).
    destruct nb as [j| |]; simpl in Hi; try lia. subst j. exists d. rewrite data_at_entry, Hnb. split; [done|by left].
  - destruct (_ || _); [done|].
    apply xbind_reads in Hr as (ha & s2 & Hha & Hc2 & Hr); [|apply reader_sideErr, reader_HashDest].
    apply xbind_reads in Hr as (hb & s3 & Hhb & Hc3 & Hr); [|apply reader_sideErr, reader_HashDest].
    apply sideErr_ok, HashDest_says in Hha as [_ Hha]. apply sideErr_ok, HashDest_says in Hhb as [[j Hj] Hhb].
    injection Hc1 as Hw1 _. injection Hc2 as Hw2 _. rewrite Hw2 in Hj, Hhb. rewrite Hw1 in *.
    injection Hr as Hr. apply bool_decide_eq_true in Hr. destruct (ok_inode _ Hok _ _ Hj) as [x Hx].
    exists (n_data x). rewrite data_at_entry, Hj, Hx. split; [done|]. right. split; [done|].
    rewrite Hha, Hhb, !data_at_entry, Hna, Hj, Hx, Hd in Hr. simpl in Hr. unfold hash_of in Hr.
    by apply (f_equal bytes) in Hr; rewrite !bytes_app in Hr; apply app_inv_head, bytes_inj in Hr.
Qed.

(** From one state, with what a change of the files makes of it. *)
Definition at_core (c0 : world * ItemDetail) (s : st) : Prop := core s = c0.
Lemma at_core_core c0 : of_core (at_core c0).
Proof. intros s s' Hc <-. exact (eq_sym Hc). Qed.
Lemma hoare_at {A} (P : st → Prop) (m : X A) Q D : (∀ c0, hoare (λ s, at_core c0 s ∧ P s) m Q D) → hoare P m Q D.
Proof. intros Hm s Hs Hp. by apply (Hm (core s) s Hs). Qed.
Lemma at_reader {A} c0 (m : X A) : reader m → hoare (at_core c0) m (λ _, at_core c0) (at_core c0).
Proof. apply hoare_reader, at_core_core. Qed.

Lemma hoare_fs_call (P : st → Prop) sd (op : fs → result errno fs) (Q : world * ItemDetail → Prop) D :
  of_core P → (∀ s, P s → D s) →
  (∀ s f', Inv s → P s → op (w_fs (s_w s)) = Ok f' → fs_ok f' ∧ keeps L (w_fs (s_w s)) f' ∧ Q (with_fs f' (s_w s), s_d s)) →
  hoare P (fs_call sd op) (λ _ s, Q (core s)) D.
Proof.
  intros HP HD Hop. unfold fs_call. apply (hoare_bind _ _ (λ _, P)).
  { eapply hoare_weaken; [apply (hoare_reader P); [done|apply reader_refuse]|done..|]. intros s _ Hp. by apply HD. }
  intros _ s Hs Hp. unfold xbind. simpl. specialize (Hop s).
  destruct (op (w_fs (s_w s))) as [f'|e]; [|split; [done|by apply HD]]. destruct (Hop f' Hs Hp eq_refl) as (Hok & Hk & HQ). simpl.
  split; [|done]. by apply (inv_change_fs s).
Qed.

(** A rename of the files, over nothing or over what is also elsewhere. *)
Definition renamed (nr : bool) (old new : string) (c0 c1 : world * ItemDetail) : Prop :=
  ∃ f', os_rename (w_fs c0.1) old new = Ok f' ∧ c1 = (with_fs f' c0.1, c0.2) ∧ (nr = true → entry (w_fs c0.1) new = None).
Lemma hoare_rename_call (nr : bool) old new c0 (P : st → Prop) (op : fs → result errno fs) sd :
  (∀ s, Inv s → P s → ∀ f', op (w_fs (s_w s)) = Ok f' → os_rename (w_fs (s_w s)) old new = Ok f' ∧ (plain old → L new) ∧
     if nr then entry (w_fs (s_w s)) new = None else spare L (w_fs (s_w s)) new ∧ ¬ plain old) →
  of_core P → hoare (λ s, at_core c0 s ∧ P s) (fs_call sd op) (λ _ s, renamed nr old new c0 (core s)) (at_core c0).
Proof.
  intros Hop HP. apply (hoare_fs_call _ _ _ (renamed nr old new c0)); [apply of_core_and; [apply at_core_core|done]|by intros s [? _]|].
  intros s f' Hs [<- Hp] E. destruct (Hop s Hs Hp f' E) as (Hr & Hn & Hf).
  destruct (rename_keeps L _ _ _ _ Hr (inv_fs _ Hs)) as [Hk Hok].
  { intros Ho. specialize (Hn Ho). split; [done|by apply may_move_plain]. }
  { destruct nr; auto. }
  split_and!; [done|done|]. exists f'. split_and!; [done|done|]. by intros ->.
Qed.

Lemma renamed_away old new c0 c1 : fs_ok (w_fs c0.1) → renamed true old new c0 c1 → old ≠ new → entry (w_fs c1.1) old = None.
Proof.
  intros Hok (f' & Hr & -> & Hf) Hne. specialize (Hf eq_refl). simpl.
  destruct (rename_spec _ _ _ _ Hr Hok) as (n & _ & _ & _ & [[_ He]| ->]); [by rewrite Hf in He|].
  unfold entry, set_tree. simpl. rewrite lookup_insert_ne by done. rewrite lookup_delete. by case_decide.
Qed.
Lemma renamed_temps nr old new c0 c1 : fs_ok (w_fs c0.1) → renamed nr old new c0 c1 → plain old → plain new → temps c0 c1.
Proof.
  intros Hok (f' & Hr & -> & _) Ho Hn. destruct (rename_spec _ _ _ _ Hr Hok) as (n & _ & _ & _ & [[Hf _]|Hf]); subst f'.
  { split; simpl; [|done..]. reflexivity. }
  assert (He : ∀ p, ¬ plain p → entry (set_tree (<[new:=n]> (delete old (f_tree (w_fs c0.1)))) (w_fs c0.1)) p = entry (w_fs c0.1) p).
  { intros p Hp. unfold entry, set_tree. simpl. rewrite lookup_insert_ne by (by intros ->). by rewrite lookup_delete_ne by (by intros ->). }
  split; simpl; [|done..]. split; intros p x Hp; [by rewrite He|]. by rewrite !data_at_entry, He.
Qed.

Lemma renamed_data nr old new c0 c1 : fs_ok (w_fs c0.1) → renamed nr old new c0 c1 → data_at (w_fs c1.1) new = data_at (w_fs c0.1) old.
Proof.
  intros Hok (f' & Hr & -> & _). simpl. destruct (rename_spec _ _ _ _ Hr Hok) as (n & Ho & _ & _ & [[-> Hn]| ->]); rewrite !data_at_entry, Ho; [by rewrite Hn|].
  unfold entry, set_tree. simpl. rewrite lookup_insert. by rewrite decide_True.
Qed.

Lemma hoare_as_exists {A} P (m : X A) Q D : hoare P m Q D → hoare P (as_exists m) Q D.
Proof.
  intros Hm s Hs Hp. specialize (Hm s Hs Hp). unfold as_exists. by destruct (m s) as [[|[| |? [[]| | | | | | |]| | | |]] ?].
Qed.

Lemma fs_read_noent {A} (op : fs → result errno A) s sd : (fs_read SideDestination op s).1 = Err (XFile sd (Errno ENoEnt)) → op (w_fs (s_w s)) = Err ENoEnt.
Proof.
  unfold fs_read, may_refuse, xbind. simpl. destruct (e_refuse the_env _) as [[]|]; simpl; try done. by destruct (op _); simpl; [|intros [= _ ->]].
Qed.
Lemma lstat_noent nl f p : os_lstat nl f p = Err ENoEnt → entry f p = None.
Proof. unfold os_lstat, entry. by destruct (f_tree f !! p). Qed.

Lemma hoare_rename old new nr c0 : hoare (λ s, at_core c0 s ∧ renamable old new nr s) (rename old new nr)
  (λ _ s, renamed nr old new c0 (core s)) (at_core c0).
Proof.
  assert (HP : of_core (renamable old new nr)) by (intros s s' [= Hw Hd]; unfold renamable; by rewrite Hw).
  unfold rename. destruct nr; simpl; [destruct (x_noreplace c)|].
  - apply hoare_as_exists, (hoare_rename_call true old new); [|done]. intros s Hs [Hn _] f' Hf.
    destruct (rename_noreplace_spec _ _ _ _ Hf) as [He Hr]. auto.
  - set (F := λ (r : result xerr FStat) (s : st), ∀ sd, r = Err (XFile sd (Errno ENoEnt)) → entry (w_fs (s_w s)) new = None).
    assert (HF : ∀ r, of_core (F r)) by (intros r s s' [= Hw _] Hf; unfold F; by rewrite <-Hw).
    apply (hoare_bind _ _ (λ r s, (at_core c0 s ∧ renamable old new true s) ∧ F r s)).
    + eapply hoare_weaken; [apply (hoare_read _ _ F); [apply of_core_and; [apply (at_core_core c0)|exact HP]|apply reader_try, reader_fs_read|exact HF|]|done..|by intros s _ [? _]].
      intros s r _ _ Hr sd ->. unfold xtry in Hr.
      destruct (fs_read SideDestination _ s) as [r' s'] eqn:E. injection Hr as ->. eapply lstat_noent, (fs_read_noent (λ f, os_lstat 0 f new) s). by rewrite E.
    + intros r. apply (hoare_pre _ (λ s, at_core c0 s ∧ (renamable old new true s ∧ F r s))); [by intros s _ [[? ?] ?]|].
      destruct r as [st|[| |sd [[]| | | | | | |]| | | |]]; try (apply hoare_fail; by intros s [? _]).
      apply (hoare_rename_call true old new); [|by apply of_core_and].
      intros s Hs [[Hn _] He] f' Hf. split_and!; eauto.
  - apply (hoare_rename_call false old new); [|done]. intros s Hs [Hn [?|Hf]] f' Hf'; [done|]. auto.
Qed.

(** A move to a name where files may go: what it did when it succeeds or fails. *)
Definition moved (from to : string) (c0 c1 : world * ItemDetail) : Prop :=
  ∃ c, still c0 c ∧ fs_ok (w_fs c.1) ∧ renamed true from to c c1.
Lemma hoare_Move from to c0 : L to →
  hoare (at_core c0) (Move from to true) (λ _ s, moved from to c0 (core s)) (λ s, still c0 (core s) ∨ moved from to c0 (core s)).
Proof.
  intros Hto. assert (Hstay : ∀ s : st, at_core c0 s → still c0 (core s) ∨ moved from to c0 (core s)) by (intros s <-; by left).
  unfold Move. destruct (_ || _); [by apply hoare_fail|].
  apply (hoare_bind _ _ (λ _, at_core c0)).
  { eapply hoare_weaken; [apply at_reader, reader_require_regular|done..|]. intros s _ Hc. by apply Hstay. }
  intros _. apply (hoare_bind _ _ (λ _ s, still c0 (core s))).
  { intros s Hs <-. destruct (pres_mkParents (R := still) to s Hs) as [Hs' Hst]. split; [done|]. destruct (mkParents to s).1; [done|by left]. }
  intros _. apply (hoare_bind _ _ (λ _ s, moved from to c0 (core s))).
  - apply hoare_at. intros c1. intros s Hs [Hc Hst].
    destruct (hoare_rename from to true c1 s Hs) as [Hs' Hr]; [split; [done|]; split; [done|by left]|]. split; [done|].
    rewrite Hc in Hst. destruct (rename from to true s) as [[[]|e] s']; simpl in *; [|left; by rewrite Hr].
    exists c1. split_and!; [done| |done]. rewrite <-Hc. exact (inv_fs _ Hs).
  - intros _. eapply hoare_weaken; [apply (hoare_reader (λ s, moved from to c0 (core s)))|done..|intros s _ Hm; by right].
    + intros s s' Hc Hm. by rewrite <-Hc.
    + apply reader_bind; [apply reader_refuse|]. intros _. apply reader_refuse.
Qed.
Lemma moved_away from to c0 c1 : moved from to c0 c1 → from ≠ to → entry (w_fs c1.1) from = None.
Proof. intros (c & _ & Hok & Hr). by apply (renamed_away _ _ _ _ Hok). Qed.
Lemma moved_temps from to c0 c1 : plain from → plain to → moved from to c0 c1 → temps c0 c1.
Proof.
  intros Hf Ht (c & Hs & Hok & Hr). etrans; [by apply (frame_still (R := temps))|]. by eapply renamed_temps.
Qed.
Lemma ok_Move {R} `{!Frame R, !Moves R} from to : L to → plain from → pres R (Move from to true).
Proof.
  intros Hto Hfrom s Hs. destruct (hoare_Move from to (core s) Hto s Hs eq_refl) as [Hs' Hm]. split; [done|].
  assert (still (core s) (core (Move from to true s).2) ∨ moved from to (core s) (core (Move from to true s).2)) as [Hst|Hmv]
    by (destruct (Move from to true s) as [[[]|e] s']; [by right|done]).
  - by apply frame_still.
  - apply frame_temps. eapply moved_temps; [done|by apply may_move_plain|done].
Qed.
Lemma any_Move from to : L to → pres anything (Move from to true).
Proof. intros Hto s Hs. by destruct (hoare_Move from to (core s) Hto s Hs eq_refl) as [Hs' _]. Qed.

(** A commit over nothing, or over what is also elsewhere. *)
Lemma hoare_Commit temp final nr c0 : hoare (λ s, at_core c0 s ∧ (nr = true ∨ spare L (w_fs (s_w s)) final)) (Commit temp final nr)
  (λ _ s, renamed nr temp final c0 (core s)) (λ _, True).
Proof.
  set (P := λ s : st, at_core c0 s ∧ (nr = true ∨ spare L (w_fs (s_w s)) final)).
  assert (HP : of_core P) by (apply of_core_and; [apply at_core_core|]; intros s s' [= Hw Hd]; by rewrite Hw).
  unfold Commit. destruct (negb (checkRel temp)); [by apply hoare_fail|]. destruct (is_temp temp) eqn:Et; [simpl|by apply hoare_fail].
  destruct (negb (checkWritable final)); [by apply hoare_fail|].
  apply (hoare_bind _ _ (λ _, P)); [eapply hoare_weaken; [apply (hoare_reader P); [done|apply reader_require_regular]|done..]|].
  intros _. apply (hoare_bind _ _ (λ _ s, renamed nr temp final c0 (core s))).
  - eapply hoare_weaken; [apply (hoare_rename temp final nr c0)| |done..]. intros s _ [Hc Hp].
    assert (Hnp : ¬ plain temp) by (unfold plain; by rewrite Et). split; [done|]. split; [done|]. destruct Hp; auto.
  - intros _. eapply hoare_weaken; [apply (hoare_reader (λ s, renamed nr temp final c0 (core s)))|done..].
    + intros s s' Hc Hm. by rewrite <-Hc.
    + apply reader_bind; [apply reader_refuse|]. intros _. apply reader_refuse.
Qed.
Lemma ok_Commit temp final nr : hoare (λ s, nr = true ∨ spare L (w_fs (s_w s)) final) (Commit temp final nr) (λ _ _, True) (λ _, True).
Proof. apply hoare_at. intros c0. eapply hoare_weaken; [apply (hoare_Commit temp final nr c0)|done..]. Qed.

(** *** Copying into a temp file *)

Lemma hex_no_slash z : slash ∉ hex12 z.
Proof.
  unfold hex12. rewrite list_elem_of_fmap. intros (k & Hk & _). revert Hk. generalize (z / 16 ^ (11 - Z.of_nat k)). intros x.
  pose proof (Z.mod_pos_bound x 16 ltac:(lia)) as Hb. revert Hb. generalize (x mod 16). intros n Hb.
  assert (n = 0 ∨ n = 1 ∨ n = 2 ∨ n = 3 ∨ n = 4 ∨ n = 5 ∨ n = 6 ∨ n = 7 ∨ n = 8 ∨ n = 9 ∨ n = 10 ∨ n = 11 ∨ n = 12 ∨ n = 13 ∨ n = 14 ∨ n = 15) as Hn by lia.
  repeat destruct Hn as [->|Hn]; [by vm_compute..|subst n; by vm_compute].
Qed.

Lemma temp_not_plain dst random : clean_rel dst = true → ¬ plain (path_join [parentDir dst; tempName (path_base dst) random]).
Proof.
  intros Hc. destruct (ends_in_exists dst) as [w Hw]. pose proof (ends_in_no_slash _ _ Hw) as Hs.
  assert (Hcw : clean_comp w = true).
  { unfold clean_rel in Hc. rewrite forallb_elem in Hc. destruct Hw as [pre E]. apply Hc. unfold comps in E. rewrite E, elem_of_app. right. by left. }
  rewrite (base_of _ _ Hw) by (by intros ->). unfold tempName. rewrite bytes_of_bytes.
  set (b := (bytes TempPrefix ++ _)%list). apply (temp_base _ _ b).
  - apply ends_in_bytes; [|by left]. unfold b. rewrite !not_elem_of_app, not_elem_of_cons. split_and!; [by apply (bool_decide_unpack (slash ∉ bytes TempPrefix)); vm_compute| |done|apply hex_no_slash].
    intros Hin. apply Hs. unfold truncateUTF8 in Hin. case_bool_decide; [done|]. eapply subseteq_take; eauto.
  - unfold b. by simpl.
  - unfold IsTempName, has_prefix. rewrite bytes_of_bytes. apply bool_decide_eq_true. unfold b. eexists. by apply bprefix_spec.
Qed.

Lemma hoare_bind_same {A B} (P : st → Prop) (m : X A) (k : A → X B) : hoare P m (λ _, P) P → (∀ a, hoare P (k a) (λ _, P) P) → hoare P (xbind m k) (λ _, P) P.
Proof. intros Hm Hk. by apply (hoare_bind _ _ (λ _, P)). Qed.

Lemma data_size_app a b : data_size (a +:+ b) = data_size a + data_size b.
Proof. unfold data_size. rewrite <-!length_bytes, bytes_app, length_app. lia. Qed.
Lemma append_assoc (a b d : string) : (a +:+ b) +:+ d = a +:+ b +:+ d.
Proof. apply bytes_inj. by rewrite !bytes_app, app_assoc. Qed.
Lemma append_empty a : a +:+ "" = a.
Proof. apply bytes_inj. by rewrite bytes_app, app_nil_r. Qed.

Section temp.
Context (c0 : world * ItemDetail) (temp : string).
Hypothesis not_plain : ¬ plain temp.
(** The temp file is being written: so far it holds [data]. *)
Definition filling (data : string) (s : st) : Prop :=
  calm c0 (core s) ∧ lone (w_fs (s_w s)) temp ∧ data_at (w_fs (s_w s)) temp = Some data ∧ xd_Temp (s_d s) = temp.
Definition filled (s : st) : Prop := ∃ data, filling data s.
Lemma filling_core data : of_core (filling data).
Proof. intros s s' Hc Hf. unfold filling in *. rewrite <-Hc. injection Hc as Hw Hd. by rewrite <-Hw, <-Hd. Qed.
Lemma filling_reads {A} data (m : X A) : reader m → hoare (filling data) m (λ _, filling data) filled.
Proof. intros Hm. eapply hoare_weaken; [apply (hoare_reader (filling data)); [apply filling_core|done]|done..|]. intros s _ Hf. by exists data. Qed.
Lemma filling_edit data data' g : (∀ x, n_data x = data → n_data (g x) = data') →
  hoare (filling data) (fs_edit (λ f, edit_inode g f temp)) (λ _, filling data') filled.
Proof.
  intros Hg s Hs (Hc & Hl & Hd & Ht). destruct (edit_lone g _ _ (inv_fs _ Hs) Hl not_plain) as (Hcf & Hok & Hl').
  split; [apply (inv_change_fs s); [done|done|by apply kept_keeps]|]. split_and!; [|done| |done].
  - etrans; [done|]. by split.
  - destruct Hl as (i & Hi & _). simpl. unfold data_at, edit_inode in *. unfold entry in Hi. rewrite Hi in *. simpl. rewrite Hi.
    destruct (f_inodes (w_fs (s_w s)) !! i) as [x|] eqn:E; [|done]. injection Hd as Hd. rewrite lookup_alter, decide_True, E by done.
    simpl. by rewrite (Hg _ Hd).
Qed.
Lemma filling_then {A B} data (m : X A) (k : A → X B) Q : reader m → (∀ a, hoare (filling data) (k a) Q filled) → hoare (filling data) (xbind m k) Q filled.
Proof. intros Hm Hk. apply (hoare_bind _ _ (λ _, filling data)); [by apply filling_reads|done]. Qed.
Lemma filling_fail {A} data e Q : hoare (filling data) (xfail (A := A) e) Q filled.
Proof. apply hoare_fail. intros s Hf. by exists data. Qed.
Lemma filling_copy size n l err data :
  hoare (filling data) (copy_loop temp size n l err) (λ n' s, filling (data +:+ concat_strings l) s ∧ n' = n + data_size (concat_strings l)) filled.
Proof.
  revert n data. induction l as [|b l IH]; intros n data; simpl; (apply filling_then; [done|]); intros []; try (by apply filling_fail).
  - destruct err; [by apply filling_fail|]. apply hoare_ret. intros s Hf. rewrite append_empty. split; [done|]. change (data_size "") with 0. lia.
  - apply filling_then; [apply reader_refuse|]. intros _.
    apply (hoare_bind _ _ (λ _, filling (data +:+ b))); [apply filling_edit; by intros x <-|]. intros _.
    destruct (size <? _); [by apply filling_fail|]. eapply hoare_weaken; [apply IH|done| |done].
    intros n' s _ [Hf ->]. rewrite <-append_assoc, data_size_app. split; [done|lia].
Qed.
(** What the temp file returned says of the file. *)
Definition holds (t : Temp) (s : st) : Prop :=
  ¬ plain (tp_Rel t) ∧ ∃ data, data_at (w_fs (s_w s)) (tp_Rel t) = Some data ∧ tp_Size t = data_size data ∧
    (tp_Hash t = "" ∨ tp_Hash t = hash_of data).
Lemma filling_fill src srcRel before hash :
  hoare (filling "") (fill_temp src srcRel temp before hash) (λ t s, filled s ∧ holds t s ∧ tp_Rel t = temp) filled.
Proof.
  unfold fill_temp. apply filling_then; [done|]. intros f. destruct (f src srcRel) as [chunks err]. set (data := concat_strings chunks).
  apply (hoare_bind _ _ (λ n s, filling data s ∧ n = data_size data)).
  { eapply hoare_weaken; [apply (filling_copy (fs_Size before) 0 chunks err "")|done| |done]. intros n s _ [Hf ->]. by split; [|unfold data; lia]. }
  intros n. apply (hoare_pre _ (λ s, filling data s ∧ n = data_size data)); [done|].
  intros s Hs [Hf ->]. revert s Hs Hf. change (hoare (filling data) (may_refuse SideDestination ;!
    let! after := src_stat SideSource src srcRel in
    when! negb (fs_Size after =? fs_Size before) || negb (fs_MtimeNs after =? fs_MtimeNs before) fail! XFile SideSource ErrSourceChanged ;!
    when! negb (data_size data =? fs_Size before) fail! XFile SideSource ErrSourceChanged ;!
    may_refuse SideDestination ;!
    may_refuse SideDestination ;!
    fs_edit (λ f, os_chtimes (fs_MtimeNs before) f temp) ;!
    let! got := fs_read SideDestination (λ f, os_lstat 0 f temp) in
    when! negb (fs_Size got =? data_size data) fail! XFile SideDestination ErrMismatch ;!
    xret (mkTemp temp (data_size data) (fs_MtimeNs before) (if hash then hash_of data else ""))) (λ t s, filled s ∧ holds t s ∧ tp_Rel t = temp) filled).
  apply filling_then; [apply reader_refuse|]. intros _. apply filling_then.
  { unfold src_stat. destruct (negb _); [done|]. apply reader_bind; [done|]. intros g. by destruct (g src srcRel). }
  intros after. destruct (_ || _); [by apply filling_fail|]. destruct (negb _); [by apply filling_fail|].
  do 2 (apply filling_then; [apply reader_refuse|]; intros _).
  apply (hoare_bind _ _ (λ _, filling data)); [by apply filling_edit|]. intros _. apply filling_then; [apply reader_fs_read|]. intros got.
  destruct (negb _); [by apply filling_fail|]. apply hoare_ret. intros s Hf. split_and!; [by exists data| |done].
  split; [done|]. exists data. destruct Hf as (_ & _ & Hd & _). split_and!; [done|done|]. destruct hash; auto.
Qed.
End temp.

(** A copy into a temp file keeps what has a plain name; the result is a temp file with what
    it says. *)
Lemma hoare_WriteTemp src srcRel dst hash onTemp c0 : mirror dst → (∀ p, pres calm (onTemp p)) →
  (∀ p, hoare (λ _, True) (onTemp p) (λ _ s, xd_Temp (s_d s) = p) (λ _, True)) →
  hoare (at_core c0) (WriteTemp src srcRel dst hash onTemp) (λ t s, calm c0 (core s) ∧ holds t s ∧ xd_Temp (s_d s) = tp_Rel t) (λ s, calm c0 (core s)).
Proof.
  intros Hdst Hon Hset. assert (Hcalm : ∀ {A} (m : X A), pres calm m → hoare (λ s, calm c0 (core s)) m (λ _ s, calm c0 (core s)) (λ s, calm c0 (core s))).
  { intros A m Hm s Hs Hc. destruct (Hm s Hs) as [Hs' Hc']. split; [done|]. assert (calm c0 (core (m s).2)) by (by etrans). by destruct (m s) as [[]]. }
  apply (hoare_pre _ (λ s, calm c0 (core s))); [by intros s _ <-|].
  unfold WriteTemp. do 2 (apply hoare_if; intros _; [by apply hoare_fail|]). apply (hoare_bind _ _ (λ _ s, calm c0 (core s))); [apply Hcalm; walk|]. intros stop.
  apply hoare_if; intros _; [by apply hoare_fail|]. apply (hoare_bind _ _ (λ _ s, calm c0 (core s))); [apply Hcalm; walk|]. intros before.
  apply (hoare_bind _ _ (λ _ s, calm c0 (core s))); [apply Hcalm; walk|]. intros _.
  apply (hoare_bind _ _ (λ _ s, calm c0 (core s))); [apply Hcalm; walk|]. intros random. cbv zeta.
  set (temp := path_join _). assert (Hnp : ¬ plain temp) by (apply temp_not_plain, Hdst).
  apply (hoare_bind _ _ (λ _ s, calm c0 (core s) ∧ xd_Temp (s_d s) = temp)).
  { intros s Hs Hc. destruct (Hcalm _ _ (Hon temp) s Hs Hc) as [Hs' Hc']. destruct (Hset temp s Hs I) as [_ Ht]. split; [done|].
    by destruct (onTemp temp s) as [[]]. }
  intros _. set (P := λ s, calm c0 (core s) ∧ xd_Temp (s_d s) = temp).
  assert (HP : of_core P) by (intros s s' Hc [H1 H2]; unfold P; rewrite <-Hc; split; [done|]; by injection Hc as _ <-).
  apply (hoare_bind _ _ (λ _, P)).
  { eapply hoare_weaken; [apply (hoare_reader P); [done|apply reader_ask]|done..|by intros s _ [? _]]. }
  intros now. apply (hoare_bind _ _ (λ _ s, filling c0 temp "" s)).
  { intros s Hs Hp. unfold fs_call, xbind. destruct (hoare_reader P _ HP (reader_refuse SideDestination) s Hs Hp) as [Hs1 Hp1].
    destruct (may_refuse SideDestination s) as [[[]|e] s1]; simpl in *; [|split; [done|apply Hp1]].
    destruct (os_create now (w_fs (s_w s1)) temp) as [f'|e] eqn:E; simpl; [|split; [done|apply Hp1]].
    destruct (create_spec _ _ _ _ E (inv_fs _ Hs1)) as (_ & Hk & Hok & He & _ & Honly & Hin). destruct Hp1 as [Hc1 Ht1].
    split; [apply (inv_change_fs s1); [done|done|by apply kept_keeps, names_kept]|]. split_and!; [|by eexists| |done].
    - etrans; [exact Hc1|]. split; simpl; [by apply names_kept|done|done].
    - simpl. rewrite data_at_entry, He, Hin, lookup_insert, decide_True by done. done. }
  intros _. apply (hoare_bind _ _ (λ r s, filled c0 temp s ∧ match r with Ok t => holds t s ∧ tp_Rel t = temp | Err _ => True end)).
  { intros s Hs Hf. destruct (filling_fill c0 temp Hnp src srcRel before hash s Hs Hf) as [Hs' Hr]. unfold xtry.
    destruct (fill_temp _ _ _ _ _ s) as [[t|e] s']; simpl in *; tauto. }
  intros [t|e].
  - apply hoare_ret. intros s [(data & Hc & _ & _ & Ht) [Hh Hrel]]. by rewrite Hrel.
  - apply (hoare_pre _ (λ s, calm c0 (core s))); [by intros s _ [(data & Hc & _) _]|]. apply (hoare_bind _ _ (λ _ s, calm c0 (core s))); [|intros; by apply hoare_fail].
    apply Hcalm, pres_try, pres_fs_call_calm. intros f f1 Hfo Hfr. by apply (remove_calm_fs f temp).
Qed.
Lemma pres_WriteTemp src srcRel dst hash onTemp : mirror dst → (∀ p, pres calm (onTemp p)) →
  (∀ p, hoare (λ _, True) (onTemp p) (λ _ s, xd_Temp (s_d s) = p) (λ _, True)) → pres calm (WriteTemp src srcRel dst hash onTemp).
Proof.
  intros Hdst Hon Hset s Hs. destruct (hoare_WriteTemp src srcRel dst hash onTemp (core s) Hdst Hon Hset s Hs eq_refl) as [Hs' Hc]. split; [done|].
  destruct (WriteTemp _ _ _ _ _ s) as [[t|e] s']; [apply Hc|done].
Qed.

(** ** The records *)

#[local] Hint Resolve known_repoint known_lose known_clear known_mark known_release : exec.

(** A step that needs what a read returned. *)
Lemma pres_bind_val {R} `{!Frame R} {A B} (V : A → Prop) (m : X A) (k : A → X B) :
  pres R m → (∀ s a, Inv s → (m s).1 = Ok a → V a) → (∀ a, V a → pres R (k a)) → pres R (xbind m k).
Proof.
  intros Hm HV Hk s Hs. destruct (Hm s Hs) as [H1 H2]. specialize (HV s). unfold xbind. destruct (m s) as [[a|e] s']; simpl in *; [|done].
  destruct (Hk a (HV a Hs eq_refl) s' H1) as [H3 H4]. split; [done|]. pose proof (frame_pre (R := R)). by etrans.
Qed.
Lemma pres_bind_detail {R} `{!Frame R} {B} (k : ItemDetail → X B) : (∀ d, detail_ok d → pres R (k d)) → pres R (xbind detail k).
Proof. apply pres_bind_val; [apply pres_detail|]. intros s a Hs [= <-]. apply inv_detail, Hs. Qed.
Lemma pres_bind_records {R} `{!Frame R} {A B} (f : records → A) (k : A → X B) :
  (∀ t, recs_known t → pres R (k (f t))) → pres R (xbind (db_read f) k).
Proof.
  intros Hk. apply (pres_bind_val (λ a, ∃ t, recs_known t ∧ a = f t)); [apply pres_db_read| |by intros a (t & Ht & ->); apply Hk].
  intros s a Hs. unfold db_read, db_ok, xbind. simpl. destruct (e_db the_env (s_n s)); simpl; [done|]. intros [= <-].
  eexists. split; [|done]. exact (inv_recs _ Hs).
Qed.

(** *** The item's steps *)

Hypothesis dir_ok : retention_dir (x_retentionDir the_run).
Hypothesis dir_own : has_dir.
Lemma may_retain p : retention_name p → L p.
Proof. by left. Qed.

Section item.
Context (it : item).
Hypothesis it_known : known (i_RelPath it).
#[local] Abbreviation dest := (i_RelPath it).

Section calm_steps.
Context {R : relation (world * ItemDetail)} `{!Frame R}.
Lemma pres_plan_of : pres R plan_of.
Proof. unfold plan_of. walk. Qed.
Lemma pres_set_outcome o : pres R (set_outcome o).
Proof. by apply pres_set_detail. Qed.
Lemma pres_SetDetail id d : detail_ok d → pres R (SetDetail id d).
Proof. intros Hd. by apply pres_update_item. Qed.
Lemma pres_saveDetail : pres R (saveDetail it).
Proof. apply pres_bind_detail. intros d. apply pres_SetDetail. Qed.
Lemma pres_FinishItem id status n : status ≠ ItemPending → pres R (FinishItem id status n).
Proof. intros Hst. by apply pres_update_item. Qed.
Lemma pres_finish status n : status ≠ ItemPending → pres R (finish it status n).
Proof.
  intros Hst. apply pres_bind_detail. intros d Hd. apply pres_bind; [|intros _; by apply pres_FinishItem].
  apply pres_if; [by apply pres_SetDetail|apply pres_ret].
Qed.
Lemma pres_done n : pres R (done it n).
Proof. by apply pres_finish. Qed.
Lemma pres_failItem : pres R (failItem it).
Proof. by apply pres_FinishItem. Qed.
#[local] Hint Resolve pres_plan_of pres_set_outcome pres_saveDetail pres_finish pres_done : exec.
Lemma pres_sourceStat rel : pres R (sourceStat rel).
Proof. unfold sourceStat. walk. Qed.
#[local] Hint Resolve pres_sourceStat : exec.
Lemma pres_sourceFile : pres R sourceFile.
Proof. unfold sourceFile. walk. Qed.
#[local] Hint Resolve pres_sourceFile : exec.
Lemma pres_removeTemp `{!Calm R} : pres R removeTemp.
Proof. unfold removeTemp. walk. Qed.
#[local] Hint Resolve pres_removeTemp : exec.
Lemma pres_cleanupTemp `{!Calm R} : pres R (cleanupTemp it).
Proof. unfold cleanupTemp. walk. Qed.
Lemma pres_tryAdopt fin src : pres R (tryAdopt it fin src).
Proof. unfold tryAdopt. walk. Qed.
Lemma known_adopted p src hash now t t' : recs_known t → adoptedTx it p src hash now t = Ok t' → recs_known t'.
Proof.
  intros Ht. unfold adoptedTx. destruct (liveAt _ _ t) as [cur|]; [destruct (_ =? _); [|done]|]; intros Ha.
  - eapply known_update; done.
  - eapply known_insert; done.
Qed.
Lemma pres_recordAdopted src hash : pres R (recordAdopted it src hash).
Proof.
  unfold recordAdopted. apply pres_bind; [walk|]. intros p. apply pres_db_write.
  intros now t t' Ht Ha. by eapply known_adopted.
Qed.
Lemma pres_recordDisplaced : pres R (recordDisplaced it).
Proof. apply pres_bind; [walk|]. intros d. apply pres_db_write. intros now t t' Ht Hi. by eapply known_retained. Qed.
#[local] Hint Resolve pres_recordDisplaced : exec.
Lemma pres_recordEarlierDisplace : pres R (recordEarlierDisplace it).
Proof. unfold recordEarlierDisplace. walk. Qed.
Lemma pres_suspect rec fin : pres R (suspect rec fin).
Proof. unfold suspect. walk. Qed.
#[local] Hint Resolve pres_suspect : exec.
Lemma pres_oldVersion rec rel fin why : pres R (oldVersion rec rel fin why).
Proof. unfold oldVersion. walk. Qed.
Lemma pres_recordPlaced retained : pres R (recordPlaced it retained).
Proof. apply pres_bind; [walk|]. intros d. apply pres_db_write. intros now t t' Ht. by apply known_placed. Qed.
Lemma pres_checkDependents rec src : pres R (checkDependents rec src).
Proof.
  unfold checkDependents. apply pres_bind; [walk|]. intros deps. apply pres_bind; [walk|]. intros p.
  induction deps as [|r deps IH]; simpl; walk. unfold dependent_blocks. walk.
Qed.
Lemma pres_onTemp `{!Calm R} p : pres R (onTemp it p).
Proof. apply pres_bind; [|intros; walk]. by apply pres_set_temp. Qed.
End calm_steps.
#[local] Hint Resolve pres_plan_of pres_set_outcome pres_saveDetail pres_finish pres_done pres_failItem pres_sourceStat pres_sourceFile pres_removeTemp
  pres_cleanupTemp pres_tryAdopt pres_recordAdopted pres_recordDisplaced pres_recordEarlierDisplace pres_suspect pres_oldVersion pres_recordPlaced
  pres_checkDependents pres_onTemp : exec.

(** A retention target is a name in retention. *)
Lemma RetentionTarget_name rel s p : mirror rel → (RetentionTarget (x_retentionDir c) rel s).1 = Ok p → retention_name p.
Proof.
  intros Hrel. unfold RetentionTarget. destruct (negb _); [done|]. destruct (negb _); [done|].
  assert (∀ n i s, 0 ≤ i → (retention_target n (path_join [x_retentionDir c; rel]) i s).1 = Ok p → retention_name p) as Hr.
  2: { by apply Hr. }
  intros n. induction n as [|n IH]; intros i s' Hi; [done|]. simpl. unfold xbind, xtry.
  destruct (fs_read _ _ s') as [r s1]. destruct r as [st|[| |sd [[]| | | | | | |]| | | |]]; simpl; try done.
  - apply IH. lia.
  - intros [= <-]. by exists rel, i.
Qed.
Lemma pres_target {R} `{!Frame R} {B} rel (k : string → X B) :
  mirror rel → (∀ p, retention_name p → pres R (k p)) → pres R (xbind (RetentionTarget (x_retentionDir c) rel) k).
Proof. intros Hrel. apply pres_bind_val; [walk|]. intros s p _. by apply RetentionTarget_name. Qed.

Lemma pres_bind_assoc {R A B D} (m : X A) (k : A → X B) (g : B → X D) :
  pres R (xbind (xbind m k) g) → pres R (xbind m (λ a, xbind (k a) g)).
Proof.
  intros Hp s Hs. specialize (Hp s Hs). unfold xbind in *. destruct (m s) as [[a|e] s1]; [|done]. done.
Qed.

Section moving_steps.
Context {R : relation (world * ItemDetail)} `{!Frame R, !Moves R}.
Lemma ok_Move_opt from to : plain from → to = "" ∨ L to → pres R (Move from to true).
Proof.
  intros Hfrom [->|Hto]; [|by apply ok_Move]. unfold Move. destruct (negb (checkWritable from)); simpl; [walk|].
  change (checkWritable "") with false. simpl. walk.
Qed.
Lemma detail_moves d : detail_ok d → (xd_Retained d = "" ∨ L (xd_Retained d)) ∧ (xd_Displaced d = "" ∨ L (xd_Displaced d)).
Proof. intros [[?|?] [?|?]]; split; try (by left); right; by apply may_retain. Qed.

Lemma pres_choose at_ st : mirror at_ → pres R (let! d := detail in
  if bool_decide (xd_Displaced d = "") then
    let! target := RetentionTarget (x_retentionDir c) at_ in
    set_detail (d_displaced target (fs_Size st) (fs_MtimeNs st)) ;! saveDetail it
  else xret tt).
Proof.
  intros Ha. apply pres_bind; [walk|]. intros d. apply pres_if; [|walk]. apply pres_target; [done|]. intros p Hp.
  apply pres_bind; [|intros; walk]. apply pres_set_detail; [|done]. intros ? [? ?]. split; [done|by right].
Qed.
Lemma pres_forget_displaced : pres R (set_detail (λ d, d_displaced "" (xd_DisplacedSize d) (xd_DisplacedMtimeNs d) d)).
Proof. apply pres_set_detail; [|done]. intros ? [? ?]. split; [done|by left]. Qed.
#[local] Hint Resolve pres_forget_displaced : exec.
Lemma ok_displace_loop n at_ st : mirror at_ → pres R (displace_loop it n at_ st).
Proof.
  intros Ha. assert (plain at_) by apply Ha. induction n as [|n IH]; simpl; apply pres_bind_assoc, pres_bind; [by apply pres_choose| |by apply pres_choose|]; intros _;
    apply pres_bind_detail; intros d Hd; (apply pres_bind; [apply pres_try, ok_Move_opt; [done|apply detail_moves, Hd]|]);
    intros [[]|[| |? []| | | |]]; walk.
Qed.
Lemma ok_displace at_ st : mirror at_ → pres R (displace it at_ st).
Proof. intros Ha. unfold displace. walk; by apply ok_displace_loop. Qed.
End moving_steps.

(** Only empty directories are pruned. *)
(** What has content keeps it when an empty directory goes. *)
Definition contents (f f' : fs) : Prop := ∀ q d, data_at f q = Some d → data_at f' q = Some d.
Lemma remove_dir_contents f p f' : os_remove f p = Ok f' → fs_ok f → entry f p = Some NDir → fs_ok f' ∧ contents f f'.
Proof.
  intros Hr Hok Hp. destruct (remove_spec _ _ _ Hr Hok) as [-> Hok']. split; [done|]. intros q d Hd.
  rewrite data_at_entry in *. unfold entry, set_tree in *. simpl. rewrite lookup_delete_ne; [done|]. intros ->. by rewrite Hp in Hd.
Qed.
Lemma hoare_prune f stop dirs :
  hoare (λ s, contents f (w_fs (s_w s))) (prune_dirs stop dirs) (λ _ s, contents f (w_fs (s_w s))) (λ s, contents f (w_fs (s_w s))).
Proof.
  set (C := λ s : st, contents f (w_fs (s_w s))). assert (HC : of_core C) by apply (of_core_fs (contents f)).
  induction dirs as [|d dirs IH]; simpl; [by apply hoare_ret|]. destruct (stop d); [by apply hoare_ret|].
  set (F := λ (r : result xerr FStat) (s : st), match r with Ok st => fs_Mode st = ModeDir → entry (w_fs (s_w s)) d = Some NDir | Err _ => True end).
  apply (hoare_bind _ _ (λ r s, C s ∧ F r s)).
  - apply (hoare_read C _ F); [done|apply reader_try, reader_Lstat| |].
    + intros r s s' [= Hw _]. unfold F. by rewrite Hw.
    + intros s r _ _. unfold xtry. pose proof (Lstat_shows d s) as Hs. destruct (Lstat d s) as [[st|e] s']; intros [= <-]; [|done].
      destruct (Hs st eq_refl) as (nl & n & Hn & ->). intros Hm. by destruct n.
  - intros [st|e]; [|apply hoare_ret; by intros s []]. case_bool_decide as Hd; [|apply hoare_ret; by intros s []].
    apply (hoare_bind _ _ (λ _, C)); [|intros [[]|]; [done|by apply hoare_ret]].
    intros s Hs [Hc0 Hdir]. specialize (Hdir Hd). unfold xtry, fs_call, xbind.
    destruct (reader_refuse SideDestination s) as [Hc Hp]. destruct (pres_refuse (R := anything) SideDestination s Hs) as [Hs1 _].
    destruct (may_refuse SideDestination s) as [[[]|e] s1]; simpl in *; [|split; [done|exact (HC s s1 (eq_sym Hc) Hc0)]].
    assert (w_fs (s_w s1) = w_fs (s_w s)) as Hw by (injection Hc as Hw _; by rewrite Hw).
    destruct (os_remove _ d) as [f'|e] eqn:E; simpl; [|split; [done|exact (HC s s1 (eq_sym Hc) Hc0)]].
    assert (entry (w_fs (s_w s1)) d = Some NDir) as Hdir1 by by rewrite Hw.
    destruct (remove_dir_contents _ _ _ E (inv_fs _ Hs1) Hdir1) as [Hok Hdata].
    split; [apply (inv_change_fs s1); [done|done|by apply data_keeps; auto]|]. intros q x Hq. apply Hdata. rewrite Hw. by apply Hc0.
Qed.
Lemma pres_prune stop dirs : pres anything (prune_dirs stop dirs).
Proof. intros s Hs. by destruct (hoare_prune (w_fs (s_w s)) stop dirs s Hs (λ _ _ H, H)) as [Hs' _]. Qed.
Lemma pres_pruneLive rel : pres anything (pruneLive rel).
Proof. unfold pruneLive. walk. apply pres_prune. Qed.
#[local] Hint Resolve pres_prune pres_pruneLive : exec.

(** *** Keeping an old version *)

Lemma any_set_detail f : (∀ d, detail_ok d → detail_ok (f d)) → pres anything (set_detail f).
Proof. intros Hf s [? ? ? ?]. split; [split; simpl; auto|done]. Qed.
Lemma hoare_bind_detail {B} (P : st → Prop) (k : ItemDetail → X B) Q D :
  (∀ d, detail_ok d → hoare (λ s, P s ∧ s_d s = d) (k d) Q D) → hoare P (xbind detail k) Q D.
Proof. intros Hk s Hs Hp. unfold xbind. simpl. apply Hk; [exact (inv_detail _ Hs)|done|done]. Qed.
Lemma hoare_bind_plan {B} (P : st → Prop) (k : Detail → X B) Q D :
  (∀ p, hoare (λ s, P s ∧ xd_plan (s_d s) = p) (k p) Q D) → hoare P (xbind plan_of k) Q D.
Proof. intros Hk s Hs Hp. unfold plan_of, xbind. simpl. by apply Hk. Qed.
(** Programs that do the same. *)
Lemma hoare_ext {A} (P : st → Prop) (m m' : X A) Q D : (∀ s, m' s = m s) → hoare P m Q D → hoare P m' Q D.
Proof. intros He Hm s Hs Hp. rewrite He. by apply Hm. Qed.
Lemma hoare_try {A} P (m : X A) Q D D' : hoare P m Q D → hoare P (xtry m) (λ r s, match r with Ok a => Q a s | Err _ => D s end) D'.
Proof. intros Hm s Hs Hp. specialize (Hm s Hs Hp). unfold xtry. by destruct (m s). Qed.
(** First a program of which nothing is needed but that it keeps the invariant. *)
Lemma hoare_then {A B} (P : st → Prop) (m : X A) (k : A → X B) Q :
  pres anything m → (∀ a, hoare (λ _, True) (k a) Q (λ _, True)) → hoare P (xbind m k) Q (λ _, True).
Proof. intros Hm Hk. apply (hoare_bind _ _ (λ _ _, True)); [by apply hoare_any|done]. Qed.
#[local] Abbreviation spare_at p := (λ s : st, spare L (w_fs (s_w s)) p).

Lemma hoare_Link old new : mirror old → new = "" ∨ retention_name new → hoare (λ _, True) (Link old new) (λ _, spare_at old) (λ _, True).
Proof.
  intros Hold Hnew. unfold Link. destruct (checkRel old && checkWritable new) eqn:Eg.
  2: { destruct (checkRel old), (checkWritable new); try done; by apply hoare_fail. }
  apply andb_true_iff in Eg as [-> Hw]. rewrite Hw. cbn [negb orb].
  destruct Hnew as [->|Hnew]; [done|]. apply hoare_then; [walk|]. intros _. apply hoare_then; [walk|]. intros _.
  apply (hoare_bind _ _ (λ _, spare_at old)).
  - apply hoare_as_exists, (hoare_fs_call _ _ _ (λ c, spare L (w_fs c.1) old)); [done|done|]. intros s f' Hs _ Hf.
    destruct (link_spec _ _ _ _ Hf (inv_fs _ Hs)) as (n & Hn & _ & Hf' & Hk & Hok). split_and!; [done|by apply kept_keeps, names_kept|]. simpl.
    intros d Hd. exists new, d. split_and!; [|by apply may_retain|by apply retention_plain| |by left].
    + intros ->. by eapply retention_not_mirror.
    + rewrite data_at_entry in *. rewrite (kn_entry _ _ Hk _ _ Hn) in Hd. rewrite Hf'. unfold entry, set_tree. simpl.
      rewrite lookup_insert, decide_True by done. by rewrite Hf' in Hd.
  - intros _. eapply hoare_weaken; [apply (hoare_reader (spare_at old)); [apply (of_core_fs (λ f, spare L f old))|apply reader_refuse]|done..].
Qed.

Lemma hoare_keep_move rel to : mirror rel → to = "" ∨ retention_name to → hoare (λ _, True) (Move rel to true) (λ _, spare_at rel) (λ _, True).
Proof.
  intros Hrel [->|Hto].
  { unfold Move. destruct (checkWritable rel); by apply hoare_fail. }
  apply hoare_at. intros c0. eapply hoare_weaken; [apply (hoare_Move rel to c0); by apply may_retain|by intros s _ [? _]| |done]. intros a s _ Hm d Hd.
  assert (rel ≠ to) as Hne by (intros ->; by eapply retention_not_mirror). pose proof (moved_away _ _ _ _ Hm Hne) as Hno. simpl in Hno.
  by rewrite data_at_entry, Hno in Hd.
Qed.

Section retention_steps.
Context {R : relation (world * ItemDetail)} `{!Frame R, !Moves R}.
Lemma pres_choose_retained rec rel fin why : mirror rel → pres R (let! d := detail in
  if bool_decide (xd_Retained d = "") then
    let! v := oldVersion rec rel fin why in
    let! target := RetentionTarget (x_retentionDir c) rel in
    set_detail (d_retained target) ;!
    set_detail (d_retained_as (fs_Size fin) (rv_mtimeNs v) (rv_hash v) (rv_reason v)) ;!
    saveDetail it
  else xret tt).
Proof.
  intros Hrel. apply pres_bind; [walk|]. intros d. apply pres_if; [|walk]. apply pres_bind; [walk|]. intros v. apply pres_target; [done|].
  intros p Hp. apply pres_bind; [|intros _; apply pres_bind; [by apply pres_set_detail|intros; walk]].
  apply pres_set_names; [|done]. intros ? [? ?]. split; [by right|done].
Qed.
Lemma ok_keepInRetention n rec rel fin lnk why : mirror rel → pres R (keepInRetention it n rec rel fin lnk why).
Proof.
  intros Hrel. assert (plain rel) by apply Hrel.
  induction n as [|n IH]; simpl; apply pres_bind_assoc, pres_bind; try (by apply pres_choose_retained); intros _;
    apply pres_bind_detail; intros d Hd; (apply pres_bind; [apply pres_db_write; intros now t t' Ht Hi; by eapply known_intent|]); intros _;
    (apply pres_bind; [apply pres_try, pres_if; [walk|apply ok_Move_opt; [done|apply detail_moves, Hd]]|]);
    intros [[]|[| |? []| | | |]]; walk.
  apply pres_set_names; [|done]. intros ? [_ ?]. split; [by left|done].
Qed.
End retention_steps.
Lemma hoare_assoc {A B D} (P : st → Prop) (m : X A) (k : A → X B) (g : B → X D) Q Er :
  hoare P (xbind (xbind m k) g) Q Er → hoare P (xbind m (λ a, xbind (k a) g)) Q Er.
Proof. intros Hp s Hs Hps. specialize (Hp s Hs Hps). unfold xbind in *. by destruct (m s) as [[a|e] s1]. Qed.

(** After it, what is at the path is also in retention, or nothing is there. *)
Lemma hoare_keepInRetention n rec rel fin lnk why : mirror rel →
  hoare (λ _, True) (keepInRetention it n rec rel fin lnk why) (λ _, spare_at rel) (λ _, True).
Proof.
  intros Hrel. induction n as [|n IH]; simpl; apply hoare_assoc, hoare_then; try (by apply pres_choose_retained); intros _;
    apply hoare_bind_detail; intros d [Hd _]; (apply hoare_then; [apply pres_db_write; intros now t t' Ht Hi; by eapply known_intent|]); intros _;
    (apply (hoare_bind _ _ (λ r s, match r with Ok _ => spare_at rel s | Err _ => True end));
      [apply (hoare_try _ _ (λ _, spare_at rel) (λ _, True)); destruct lnk; [by apply hoare_Link|by apply hoare_keep_move]|]);
    intros [[]|[| |? []| | | |]]; try (by apply hoare_ret); try (by apply hoare_fail).
  apply hoare_then; [|done]. apply any_set_detail. intros ? [_ ?]. split; [by left|done].
Qed.

(** *** Putting an old version back *)

Lemma known_settle rec v kept unknown (record : bool) target now t t' : recs_known t → known (fr_RelPath rec) →
  (let t := if unknown : bool then mark_unknown (fr_ID rec) target t else t in
   let? t := match kept with
             | Some st => if record : bool then insertRetained (settled_row rec v st now) t else Ok t
             | None => Ok t
             end in
   Ok (clearIntentTx (fr_ID rec) target t)) = Ok t' → recs_known t'.
Proof.
  intros Ht Hrec. cbv zeta. rewrite rbind_ok. intros (u & Hu & [= <-]). apply known_clear.
  assert (recs_known (if unknown then mark_unknown (fr_ID rec) target t else t)) by (destruct unknown; auto with exec).
  destruct kept as [st|]; [destruct record|]; [|by injection Hu as <-..]. by eapply known_retained.
Qed.
Lemma ok_settle_file rec kept : known (fr_RelPath rec) → pres anything (settle_file rec kept).
Proof.
  intros Hrec. unfold settle_file. walk; (apply any_Move; by right).
Qed.
Lemma ok_settle rec v : known (fr_RelPath rec) → pres anything (settle rec v).
Proof.
  intros Hrec. unfold settle. apply pres_bind; [walk|]. intros kept. apply pres_bind; [walk; by apply ok_settle_file|]. intros [record unknown].
  apply pres_db_write. intros now t t' Ht. by apply known_settle.
Qed.
Lemma ok_putBack : pres anything (putBack it).
Proof.
  unfold putBack. apply pres_bind; [walk|]. intros d. apply pres_if; [walk|].
  apply (pres_bind_val (λ r, match r with Ok (Some rec) => known (fr_RelPath rec) | _ => True end)); [walk| |].
  - intros s a Hs. unfold xtry, db_read, db_ok, xbind. simpl. destruct (e_db the_env (s_n s)); simpl; [by intros [= <-]|]. intros [= <-].
    destruct (bool_decide _).
    + destruct (get_record _ _) eqn:Er; [|done]. eapply find_known; [|done]. exact (inv_recs _ Hs).
    + destruct (liveAt _ _ _) eqn:Er; [|done]. eapply find_known; [|done]. exact (inv_recs _ Hs).
  - intros [[rec|]|e] Hrec; [|walk..]. apply pres_if; [|walk]. apply pres_bind; [|intros; walk]. by apply pres_try, ok_settle.
Qed.
#[local] Hint Resolve ok_putBack : exec.
#[local] Hint Extern 1 (pres _ (displace _ _ _)) => apply ok_displace, known_mirror; (exact it_known || assumption) : exec.
#[local] Hint Extern 1 (pres _ (keepInRetention _ _ _ _ _ _ _)) => apply ok_keepInRetention, known_mirror; (exact it_known || assumption) : exec.
#[local] Hint Extern 1 (pres anything (Move _ _ true)) => apply any_Move; right; (exact it_known || assumption) : exec.
#[local] Hint Extern 2 (mirror _) => apply known_mirror; (exact it_known || assumption) : exec.
#[local] Hint Resolve it_known : exec.

(** *** Placing a new version *)

(** What [place] saw in retention. *)
Definition seen (ret : string) (o : option FStat) (s : st) : Prop := xd_Retained (s_d s) = ret ∧ shows (w_fs (s_w s)) ret o.
Lemma seen_core ret o : of_core (seen ret o).
Proof. intros s s' [= Hw Hd]. unfold seen. by rewrite Hw, Hd. Qed.
Lemma seen_calm ret o s s' : detail_ok (s_d s) → calm (core s) (core s') → seen ret o s → seen ret o s'.
Proof.
  intros [Hd _] [Hf Hr _] [<- Hs]. split; [done|]. destruct o as [st|]; [|done]. eapply shows_calm; [done| |done].
  destruct Hd as [E|Hd]; [|by apply retention_plain]. by destruct Hs.
Qed.
Lemma seen_keeps {A} ret o (m : X A) : pres calm m → hoare (seen ret o) m (λ _, seen ret o) (λ _, True).
Proof.
  intros Hm s Hs Hp. destruct (Hm s Hs) as [Hs' Hc]. split; [done|]. destruct (m s) as [[a|e] s1]; [|done].
  eapply seen_calm; [exact (inv_detail _ Hs)|done|done].
Qed.
Lemma seen_then {A B} ret o (m : X A) (k : A → X B) Q :
  pres calm m → (∀ a, hoare (seen ret o) (k a) Q (λ _, True)) → hoare (seen ret o) (xbind m k) Q (λ _, True).
Proof. intros Hm Hk. eapply hoare_bind; [by apply seen_keeps|done]. Qed.

(** A path found to be the same file as one in retention is spare. *)
Lemma same_spare f ret r s : (sameDestFile dest f ret r s).1 = Ok true → Inv s → retention_name ret →
  shows (w_fs (s_w s)) dest (Some f) → shows (w_fs (s_w s)) ret (Some r) → spare_at dest s.
Proof.
  intros Hr Hs Hn Hd Hret d Hdd. destruct (same_found _ _ _ _ _ Hr (inv_fs _ Hs) Hd Hret _ Hdd) as (d' & Hd' & Hsame).
  exists ret, d'. split_and!; try done; [|by apply may_retain|by apply retention_plain]. intros ->. by eapply retention_not_mirror, known_mirror.
Qed.
Lemma hoare_same P f ret r : of_core P → (∀ s, Inv s → P s → retention_name ret ∧ shows (w_fs (s_w s)) dest (Some f) ∧ shows (w_fs (s_w s)) ret (Some r)) →
  hoare P (sameDestFile dest f ret r) (λ b s, P s ∧ (b = true → spare_at dest s)) P.
Proof.
  intros HP Hf. apply (hoare_read P _ (λ b s, b = true → spare_at dest s)); [done|apply reader_sameDestFile| |].
  - intros b s s' [= Hw _]. by rewrite Hw.
  - intros s b Hs Hp Hr ->. destruct (Hf s Hs Hp) as (Hn & Hd & Hret). by eapply same_spare.
Qed.
Lemma seen_retention ret o s st : detail_ok (s_d s) → seen ret o s → o = Some st → retention_name ret.
Proof. intros [[E|Hd] _] [<- Hs] ->; [by destruct Hs|done]. Qed.

Lemma hoare_keep_old rec retSt ret :
  hoare (seen ret retSt) (keep_old it rec retSt) (λ r s, r.1 = true → spare_at dest s) (λ _, True).
Proof.
  unfold keep_old. apply hoare_bind_detail. intros d Hd. set (P := λ s : st, seen ret retSt s ∧ s_d s = d).
  assert (HP : of_core P) by (apply of_core_and; [apply seen_core|]; intros s s' [= _ E]; by rewrite E).
  eapply hoare_weaken; [apply (hoare_bind P _ (λ o s, P s ∧ shows (w_fs (s_w s)) dest o) _ (λ r s, r.1 = true → spare_at dest s) (λ _, True))|done..].
  { eapply hoare_weaken; [by apply (hoare_lstat P)|done..]. }
  intros fin. destruct (ours_of rec) as [old|], fin as [f|]; [destruct retSt as [r|]|destruct retSt as [r|]|..]; try (by apply hoare_ret); try (by apply hoare_fail).
  - set (P' := λ s, P s ∧ shows (w_fs (s_w s)) dest (Some f)).
    assert (HP' : of_core P') by (apply of_core_and; [done|apply (of_core_fs (λ g, shows g dest (Some f)))]).
    apply (hoare_bind _ _ (λ b s, P' s ∧ (b = true → spare_at dest s))).
    + eapply hoare_weaken; [apply (hoare_same P'); [done|]|done..]. intros s Hs [[Hseen <-] Hsh]. split; [|split; [done|]].
      * destruct Hseen as [E Hret]. rewrite E. eapply seen_retention; [exact (inv_detail _ Hs)|by split|done].
      * destruct Hseen as [-> Hret]. done.
    + intros []; [by apply hoare_ret; intros s [_ Hsp]|]. apply hoare_then; [auto with exec|]. intros _. by apply hoare_ret.
  - apply (hoare_bind _ _ (λ _, spare_at dest)).
    + eapply hoare_weaken; [apply hoare_keepInRetention; auto with exec|done..].
    + intros _. apply (hoare_bind _ _ (λ o s, spare_at dest s ∧ shows (w_fs (s_w s)) dest o)).
      * eapply hoare_weaken; [apply (hoare_lstat (spare_at dest)), (of_core_fs (λ f, spare L f dest))|done..].
      * intros o. apply hoare_ret. by intros s [Hsp _].
Qed.

Lemma pres_put_calm {R} `{!Frame R, !Calm R} t : pres R (set_detail (d_temp_done (tp_Size t) (tp_MtimeNs t) (tp_Hash t))).
Proof. by apply pres_set_temp. Qed.
#[local] Hint Resolve pres_put_calm : exec.
(** The path is recorded with this content, for the item's source. *)
Definition recorded_as (p : Detail) (size mtime : Z) (hash : string) (t : records) : Prop :=
  ∃ r, liveAt (x_dest c) dest t = Some r ∧ fr_State r = StatePresent ∧ fr_SourceID r = dt_SourceID p ∧ fr_SourceRelPath r = dt_Source p ∧
    fr_Size r = size ∧ fr_MtimeNs r = mtime ∧ fr_Hash r = hash.
(** What is recorded is what is there. *)
Definition copied (p : Detail) (s : st) : Prop :=
  ∃ data mtime hash, data_at (w_fs (s_w s)) dest = Some data ∧ recorded_as p (data_size data) mtime hash (w_recs (s_w s)) ∧
    (hash = "" ∨ hash = hash_of data).

Lemma retained_live rec t t' d rel : insertRetained rec t = Ok t' → live rec = false → liveAt d rel t' = liveAt d rel t.
Proof. unfold insertRetained. destruct (retainedExists rec t); [by intros [= <-]|]. intros Hi Hl. by eapply insert_not_live. Qed.
Lemma release_in_place cur : in_place (λ r, if releases cur r then with_link 0 (with_state StatePresent r) else r).
Proof.
  intros r. destruct (releases cur r) eqn:E; [|done]. split; [done|]. intros d rel. unfold releases in E.
  apply andb_true_iff in E as [[[_ E%bool_decide_eq_true]%andb_true_iff _]%andb_true_iff _]. unfold is_at, live. simpl. by rewrite E.
Qed.
Lemma released_live cur t d rel r : liveAt d rel t = Some r → ∃ q, liveAt d rel (releaseDependents cur t) = Some q ∧ fr_ID q = fr_ID r.
Proof.
  intros Hr. unfold releaseDependents. case_bool_decide; [by exists r|]. rewrite (liveAt_fmap _ _ _ _ (release_in_place cur)), Hr. simpl.
  eexists. split; [done|]. apply release_in_place.
Qed.
Lemma placed_recorded d retained now t t' : placedTx it d retained now t = Ok t' →
  recorded_as (xd_plan d) (xd_TempSize d) (xd_TempMtimeNs d) (xd_TempHash d) t'.
Proof.
  unfold placedTx. rewrite rbind_ok. intros (u & Hu & Hr).
  assert (recorded_as (xd_plan d) (xd_TempSize d) (xd_TempMtimeNs d) (xd_TempHash d) u) as (r & Hl & Hrest).
  { destruct (liveAt _ _ t) as [cur|] eqn:Hc; [destruct (fr_SourceID cur =? _); [|done]|].
    - set (t1 := if bool_decide (fr_State cur = StateMissing) then loseLinks (fr_ID cur) (dt_LostLinks (xd_plan d)) t else t) in *.
      assert (∃ q, liveAt (x_dest c) dest t1 = Some q ∧ fr_ID q = fr_ID cur) as (q & Hq & Hqi).
      { unfold t1. destruct (bool_decide (fr_State cur = StateMissing)); [|exists cur; by split]. unfold loseLinks. rewrite (liveAt_fmap _ _ _ _ (lose_link_in_place _ _)), Hc.
        eexists. split; [done|]. apply lose_link_in_place. }
      destruct (released_live cur _ _ _ _ Hq) as (q' & Hq' & Hqi').
      destruct (update_live _ q' _ _ _ dest Hu Hq') as [k Hk]; [simpl; congruence|done|done|]. eexists. split; [exact Hk|]. by split_and!.
    - eexists. split; [exact (insert_live _ _ _ Hu eq_refl Hc)|]. by split_and!. }
  exists r. split; [|done]. destruct (_ || _); [by injection Hr as <-|]. by rewrite (retained_live _ _ _ _ _ Hr).
Qed.
Lemma adopted_recorded p src hash now t t' : adoptedTx it p src hash now t = Ok t' → recorded_as p (fs_Size src) (fs_MtimeNs src) hash t'.
Proof.
  unfold adoptedTx. destruct (liveAt _ _ t) as [cur|] eqn:Hc; [destruct (fr_SourceID cur =? _); [|done]|]; intros Hu.
  - destruct (update_live _ cur _ _ _ dest Hu Hc) as [k Hk]; [done..|]. eexists. split; [exact Hk|]. by split_and!.
  - eexists. split; [exact (insert_live _ _ _ Hu eq_refl Hc)|]. by split_and!.
Qed.
(** A write of the records whose result is known. *)
Lemma hoare_db_write (P : st → Prop) f (V : records → Prop) :
  of_core P → (∀ now t t', recs_known t → f now t = Ok t' → recs_known t' ∧ V t') →
  hoare P (db_write f) (λ _ s, V (w_recs (s_w s)) ∧ ∃ s0, P s0 ∧ w_fs (s_w s) = w_fs (s_w s0) ∧ s_d s = s_d s0) (λ _, True).
Proof.
  intros HP Hf s Hs Hp. destruct (pres_db_write (R := anything) f) with (s := s) as [Hs' _]; [|done|].
  { intros now t t' Ht E. by apply (Hf now t). }
  split; [done|]. clear Hs'. unfold db_write, db_ok, xbind. simpl. destruct (e_db the_env _); simpl; [done|].
  destruct (f _ _) as [t'|e] eqn:E; simpl; [|done]. split; [by eapply Hf; [exact (inv_recs _ Hs)|]|]. by exists s.
Qed.

(** The record of what the detail [d] describes, [F] being what is known of the file. *)
Lemma hoare_recordPlaced (F : option string → Prop) d (n : Z) retained :
  hoare (λ s, s_d s = d ∧ F (data_at (w_fs (s_w s)) dest)) (recordPlaced it retained ;! xret n)
    (λ _ s, F (data_at (w_fs (s_w s)) dest) ∧ recorded_as (xd_plan d) (xd_TempSize d) (xd_TempMtimeNs d) (xd_TempHash d) (w_recs (s_w s))) (λ _, True).
Proof.
  set (Q := λ s, F (data_at (w_fs (s_w s)) dest) ∧ recorded_as (xd_plan d) (xd_TempSize d) (xd_TempMtimeNs d) (xd_TempHash d) (w_recs (s_w s))).
  apply (hoare_bind _ _ (λ _, Q)); [|intros _; by apply hoare_ret]. unfold recordPlaced. apply hoare_bind_detail. intros d' _.
  set (P := λ s, F (data_at (w_fs (s_w s)) dest) ∧ d' = d). apply (hoare_pre _ P); [intros s _ [[E ?] E']; split; congruence|].
  eapply hoare_weaken; [apply (hoare_db_write P (placedTx it d' retained) (recorded_as (xd_plan d') (xd_TempSize d') (xd_TempMtimeNs d') (xd_TempHash d')))|done| |done].
  - intros s s' [= Hw Hsd]. unfold P. by rewrite Hw.
  - intros now t0 t' Ht E. split; [by eapply known_placed|by eapply placed_recorded].
  - intros a s _ (Hrec & s0 & [HF ->] & Hf & _). unfold Q. by rewrite Hf.
Qed.

Section put_new.
Context (p0 : Detail) (retSt : option FStat) (ret : string).
Definition written (t : Temp) (s : st) : Prop := xd_plan (s_d s) = p0 ∧ holds t s ∧ xd_Temp (s_d s) = tp_Rel t.
Definition described (t : Temp) (s : st) : Prop := written t s ∧ xd_TempSize (s_d s) = tp_Size t ∧ xd_TempHash (s_d s) = tp_Hash t.
Lemma described_temps t s s' : described t s → temps (core s) (core s') → described t s'.
Proof.
  intros ((Hp & (Hnp & data & Hd & Hsize & Hh) & Ht) & Hts & Hth) [[_ Hk] Hplan Htemp]. simpl in *. unfold temp_of in Htemp.
  injection Htemp as E1 _ E2 _ E3. split_and!; [|congruence..]. split_and!; [congruence| |congruence]. split; [done|]. exists data. split_and!; eauto.
Qed.
Lemma written_still t s s' : written t s → still (core s) (core s') → written t s'.
Proof.
  intros (Hp & (Hnp & data & Hd & Hsize & Hh) & Ht) [[_ Hk] _ Hplan Htemp]. simpl in *. unfold temp_of in Htemp.
  injection Htemp as E1 _ _ _ _. split_and!; [congruence| |congruence]. split; [done|]. exists data. split_and!; eauto.
Qed.
Lemma described_core t : of_core (described t).
Proof. intros s s' Hc Hp. eapply described_temps; [done|]. by rewrite Hc. Qed.
Lemma pres_keep_old rec : pres temps (keep_old it rec retSt).
Proof. unfold keep_old, retainOld. walk. Qed.

Lemma hoare_onTemp p : hoare (λ _, True) (onTemp it p) (λ _ s, xd_Temp (s_d s) = p) (λ _, True).
Proof.
  unfold onTemp. apply (hoare_bind _ _ (λ _ s, xd_Temp (s_d s) = p)).
  - intros s Hs _. split; [|done]. by apply (pres_set_temp (R := calm) (d_temp p false)).
  - intros _. apply (hoare_pres still (λ s, xd_Temp (s_d s) = p)); [walk|]. intros s s' _ <- [_ _ _ Ht]. by injection Ht.
Qed.

(** The temp file is written and described; what [place] saw in retention is still there. *)
Definition ready (t : Temp) (s : st) : Prop := seen ret retSt s ∧ described t s.
Lemma hoare_new_temp : hoare (λ s, seen ret retSt s ∧ xd_plan (s_d s) = p0)
  (let! p := plan_of in
   let! t := WriteTemp (dt_SourceID p) (dt_Source p) dest (negb (bool_decide (x_verify c = VerifyOff))) (onTemp it) in
   (if bool_decide (x_verify c = VerifyFull) then VerifyTemp (tp_Rel t) (tp_Size t) (tp_Hash t) else xret tt) ;!
   set_detail (d_temp_done (tp_Size t) (tp_MtimeNs t) (tp_Hash t)) ;!
   saveDetail it ;! xret t) ready (λ _, True).
Proof.
  apply hoare_bind_plan. intros p. set (P := λ t s, seen ret retSt s ∧ written t s). apply (hoare_bind _ _ P).
  { intros s Hs [[Hseen Hp] _].
    destruct (hoare_WriteTemp (dt_SourceID p) (dt_Source p) dest (negb (bool_decide (x_verify c = VerifyOff))) (onTemp it) (core s)) with (s := s) as [Hs' Hr];
      [auto with exec|intros; walk|apply hoare_onTemp|done|done|]. split; [done|]. destruct (WriteTemp _ _ _ _ _ s) as [[t|e] s']; [|done].
    simpl in *. destruct Hr as (Hcalm & Hh & Ht). split; [eapply seen_calm; [exact (inv_detail _ Hs)|done|done]|].
    split_and!; [|done|done]. rewrite <-Hp. apply (calm_plan _ _ Hcalm). }
  intros t. apply (hoare_bind _ _ (λ _, P t)).
  { apply (hoare_pres still (P t)); [walk|]. intros s s' Hs [Hseen Hw] Hst. split; [|by eapply written_still].
    eapply seen_calm; [exact (inv_detail _ Hs)|by apply (frame_still (R := calm))|done]. }
  intros _. apply (hoare_bind _ _ (λ _, ready t)).
  { intros s Hs [Hseen (Hp & Hh & Ht)]. split; [by apply (pres_put_calm (R := calm))|]. by split_and!. }
  intros _. apply (hoare_bind _ _ (λ _, ready t)); [|intros _; by apply hoare_ret].
  apply (hoare_pres still (ready t)); [walk|]. intros s s' Hs [Hseen Hw] Hst. split.
  - eapply seen_calm; [exact (inv_detail _ Hs)|by apply (frame_still (R := calm))|done].
  - eapply described_temps; [done|]. by apply (frame_still (R := temps)).
Qed.

Lemma hoare_put_new rec : hoare (λ s, seen ret retSt s ∧ xd_plan (s_d s) = p0) (put_new it rec retSt) (λ _, copied p0) (λ _, True).
Proof.
  apply (hoare_ext _ (let! t := (let! p := plan_of in
     let! t := WriteTemp (dt_SourceID p) (dt_Source p) dest (negb (bool_decide (x_verify c = VerifyOff))) (onTemp it) in
     (if bool_decide (x_verify c = VerifyFull) then VerifyTemp (tp_Rel t) (tp_Size t) (tp_Hash t) else xret tt) ;!
     set_detail (d_temp_done (tp_Size t) (tp_MtimeNs t) (tp_Hash t)) ;! saveDetail it ;! xret t) in
   let! (there, retained) := keep_old it rec retSt in
   let! d := detail in
   Commit (xd_Temp d) dest (negb there) ;! recordPlaced it retained ;! xret (tp_Size t))).
  { intros s. unfold put_new, xbind. destruct (plan_of s) as [[p|] s1]; [|done]. destruct (WriteTemp _ _ _ _ _ s1) as [[t|] s2]; [|done].
    destruct ((if bool_decide (x_verify c = VerifyFull) then VerifyTemp (tp_Rel t) (tp_Size t) (tp_Hash t) else xret tt) s2) as [[[]|] s3]; [|done]. simpl. by destruct (saveDetail it _) as [[] s4]. }
  eapply hoare_bind; [apply hoare_new_temp|]. intros t.
  apply (hoare_bind _ _ (λ r s, described t s ∧ (r.1 = true → spare_at dest s))).
  { intros s Hs [Hseen Hd]. destruct (hoare_keep_old rec retSt ret s Hs Hseen) as [Hs' Hr]. destruct (pres_keep_old rec s Hs) as [_ Ht].
    split; [done|]. destruct (keep_old it rec retSt s) as [[r|e] s']; [|done]. split; [by eapply described_temps|done]. }
  intros [there retained]. apply hoare_bind_detail. intros d _.
  apply (hoare_bind _ _ (λ _ s, s_d s = d ∧ xd_plan d = p0 ∧ ∃ data, data_at (w_fs (s_w s)) dest = Some data ∧ xd_TempSize d = data_size data ∧
    (xd_TempHash d = "" ∨ xd_TempHash d = hash_of data))).
  { intros s Hs [[Hd Hsp] Hsd]. destruct (hoare_Commit (xd_Temp d) dest (negb there) (core s) s Hs) as [Hs' Hr].
    { split; [done|]. destruct there; auto. }
    split; [done|]. destruct (Commit _ _ _ s) as [[[]|e] s']; [|done]. simpl in Hr. pose proof (renamed_data _ _ _ (core s) _ (inv_fs _ Hs) Hr) as Hdata.
    destruct Hr as (f' & _ & Hc & _). injection Hc as Hw Hsd'. rewrite Hsd in *. destruct Hd as ((Hp & (_ & data & Hdd & Hsize & Hh) & Ht) & Hts & Hth).
    simpl in Hdata. rewrite Hsd in *. rewrite <-Ht, <-Hdata in Hdd. split_and!; [done|done|]. exists data. split_and!; [done|congruence|by rewrite Hth]. }
  intros _. set (F := λ o, ∃ data, o = Some data ∧ xd_TempSize d = data_size data ∧ (xd_TempHash d = "" ∨ xd_TempHash d = hash_of data)).
  apply (hoare_pre _ (λ s, s_d s = d ∧ F (data_at (w_fs (s_w s)) dest) ∧ xd_plan d = p0)); [by intros s _ [-> [-> ?]]|].
  intros s Hs (Hsd & HF & Hp). destruct (hoare_recordPlaced F d (tp_Size t) retained s Hs) as [Hs' Hr]; [done|]. split; [done|].
  destruct ((recordPlaced it retained ;! xret (tp_Size t)) s) as [[z|e] s']; [|done]. destruct Hr as [(data & Hd & Hsize & Hh) Hrec].
  exists data, (xd_TempMtimeNs d), (xd_TempHash d). rewrite <-Hsize, <-Hp. by split_and!.
Qed.
End put_new.

(** *** Adopting or displacing what is in the way *)

Lemma stays_still {A} (P : st → Prop) (m : X A) : pres still m → (∀ s s', P s → still (core s) (core s') → P s') → hoare P m (λ _, P) (λ _, True).
Proof. intros Hm HP. apply (hoare_pres still); [done|]. intros s s' _. apply HP. Qed.

Section adopt.
Context (p0 : Detail).
#[local] Abbreviation planned := (λ s : st, xd_plan (s_d s) = p0).
(** The file at the path, of the source's size, holds [data]. *)
Definition there (data : string) (s : st) : Prop := data_at (w_fs (s_w s)) dest = Some data ∧ planned s.
Lemma there_still data s s' : there data s → still (core s) (core s') → there data s'.
Proof. intros [Hd Hp] [[_ Hk] _ Hplan _]. split; [by apply Hk|]. by rewrite <-Hp. Qed.
Lemma planned_still s s' : planned s → still (core s) (core s') → planned s'.
Proof. intros <- [_ _ Hplan _]. exact Hplan. Qed.

Definition may_adopt (src : FStat) (r : option string) (s : st) : Prop :=
  planned s ∧ ∀ h, r = Some h → ∃ data, data_at (w_fs (s_w s)) dest = Some data ∧ fs_Size src = data_size data ∧ (h = "" ∨ h = hash_of data).
Lemma may_adopt_none src s : planned s → may_adopt src None s.
Proof. intros Hp. by split. Qed.
Lemma HashDest_there data : hoare (there data) (sideErr SideDestination (HashDest dest)) (λ h s, there data s ∧ h = hash_of data) (λ _, True).
Proof.
  eapply hoare_weaken; [apply (hoare_read (there data) _ (λ h _, h = hash_of data)); [|apply reader_sideErr, reader_HashDest|by intros h s s' _|]|done..].
  - intros s s' Hc Ht. eapply there_still; [done|]. by rewrite Hc.
  - intros s h _ [Hd _] Hr. apply sideErr_ok, HashDest_says in Hr as [_ ->]. by rewrite Hd.
Qed.
Lemma hoare_tryAdopt fin src : hoare (λ s, shows (w_fs (s_w s)) dest (Some fin) ∧ planned s) (tryAdopt it fin src) (may_adopt src) (λ _, True).
Proof.
  intros s Hs [(_ & _ & Hreg) Hp]. unfold tryAdopt. destruct (Regular fin) eqn:Er; simpl; [|split; [done|by apply may_adopt_none]].
  destruct (fs_Size fin =? fs_Size src) eqn:Es; simpl; [|split; [done|by apply may_adopt_none]]. apply Z.eqb_eq in Es.
  destruct (Hreg eq_refl) as (data & Hd & Hsize). rewrite Es in Hsize.
  assert (Hend : ∀ h s, there data s → (h = "" ∨ h = hash_of data) → may_adopt src (Some h) s).
  { intros h s1 [H1 H2] Hh. split; [done|]. intros h' [= <-]. by exists data. }
  assert (Ht : there data s) by done. clear Hd Hp Hreg. revert s Hs Ht.
  change (hoare (there data) (match AdoptExisting (x_settings c) with
    | AdoptSizeMtime => xret (if MtimeMatch (fs_MtimeNs fin) (fs_MtimeNs src) (MtimeGranularityNs (x_caps c)) (MtimeWindowSec (x_settings c)) then Some "" else None)
    | AdoptSizeHash =>
        let! p := plan_of in
        let! sh := sideErr SideSource (HashSource (dt_SourceID p) (dt_Source p)) in
        let! dh := sideErr SideDestination (HashDest dest) in
        if negb (bool_decide (sh = dh)) then xret None
        else
          let! after := sourceFile in
          when! negb (fs_Size after =? fs_Size src) || negb (fs_MtimeNs after =? fs_MtimeNs src) fail! XItem HashChanged ;!
          (if MtimeMatch (fs_MtimeNs fin) (fs_MtimeNs src) (MtimeGranularityNs (x_caps c)) 0 then xret tt else SetMtime dest (fs_MtimeNs src)) ;!
          xret (Some sh)
    | AdoptOff => xret None end) (may_adopt src) (λ _, True)).
  destruct (AdoptExisting _).
  - apply hoare_ret. intros s Ht. destruct (MtimeMatch _ _ _ _); [apply Hend; auto|apply may_adopt_none, Ht].
  - apply (hoare_bind _ _ (λ _, there data)); [apply stays_still; [walk|apply there_still]|]. intros p.
    apply (hoare_bind _ _ (λ _, there data)); [apply stays_still; [walk|apply there_still]|]. intros sh.
    eapply hoare_bind; [apply HashDest_there|]. intros dh. case_bool_decide as Hsd; simpl; [|apply hoare_ret; intros s [[_ Hp] _]; by apply may_adopt_none].
    apply (hoare_pre _ (λ s, there data s ∧ dh = hash_of data)); [done|]. intros s Hs [Ht Hdh]. rewrite <-Hsd in Hdh. revert s Hs Ht.
    change (hoare (there data) (let! after := sourceFile in
          when! negb (fs_Size after =? fs_Size src) || negb (fs_MtimeNs after =? fs_MtimeNs src) fail! XItem HashChanged ;!
          (if MtimeMatch (fs_MtimeNs fin) (fs_MtimeNs src) (MtimeGranularityNs (x_caps c)) 0 then xret tt else SetMtime dest (fs_MtimeNs src)) ;!
          xret (Some sh)) (may_adopt src) (λ _, True)).
    apply (hoare_bind _ _ (λ _, there data)); [apply stays_still; [walk|apply there_still]|]. intros after. destruct (_ || _); [by apply hoare_fail|].
    apply (hoare_bind _ _ (λ _, there data)); [apply stays_still; [walk|apply there_still]|]. intros _. apply hoare_ret. auto.
  - apply hoare_ret. intros s [_ Hp]. by apply may_adopt_none.
Qed.

Lemma hoare_recordAdopted src h : hoare (may_adopt src (Some h)) (recordAdopted it src h) (λ _, copied p0) (λ _, True).
Proof.
  unfold recordAdopted. apply hoare_bind_plan. intros p. set (P := λ s, may_adopt src (Some h) s ∧ p = p0).
  apply (hoare_pre _ P); [intros s _ [[Hp Ha] <-]; split; [by split|done]|].
  eapply hoare_weaken; [apply (hoare_db_write P (adoptedTx it p src h) (recorded_as p (fs_Size src) (fs_MtimeNs src) h))|done| |done].
  - intros s s' [= Hw Hsd]. unfold P, may_adopt. by rewrite Hw, Hsd.
  - intros now t t' Ht E. split; [by eapply known_adopted|by eapply adopted_recorded].
  - intros a s _ (Hrec & s0 & [[_ Ha] ->] & Hf & _). destruct (Ha h eq_refl) as (data & Hd & Hsize & Hh). exists data, (fs_MtimeNs src), h.
    rewrite Hf, <-Hsize. by split_and!.
Qed.

Lemma copied_outcome s o : copied p0 s → copied p0 (mkSt (s_w s) (s_past s) (s_n s) (d_outcome o (s_d s))).
Proof. done. Qed.
Lemma hoare_clear_way rec fin src : ours_of rec = None →
  hoare (λ s, shows (w_fs (s_w s)) dest fin ∧ planned s) (clear_way it rec fin src) (λ b s, if b : bool then copied p0 s else planned s) (λ _, True).
Proof.
  intros E. unfold clear_way. rewrite E. destruct fin as [f|]; [|apply hoare_ret; by intros s [_ Hp]].
  eapply hoare_bind; [apply hoare_tryAdopt|]. intros [h|].
  - apply (hoare_bind _ _ (λ _, copied p0)); [apply hoare_recordAdopted|]. intros _.
    apply (hoare_bind _ _ (λ _, copied p0)); [|intros _; by apply hoare_ret].
    intros s Hs Hc. split; [by apply (pres_set_outcome (R := still))|]. by apply copied_outcome.
  - apply (hoare_bind _ _ (λ _ s, planned s)); [|intros _; by apply hoare_ret]. apply (hoare_pre _ (λ s, planned s)); [by intros s _ [Hp _]|].
    apply (hoare_pres temps); [auto with exec|]. intros s s' _ <- [_ Hplan _]. exact Hplan.
Qed.
End adopt.

Lemma calm_clear_way r rec fin src : ours_of rec = Some r → pres calm (clear_way it rec fin src).
Proof. unfold clear_way. intros ->. walk. Qed.
Lemma pres_no_temp {R} `{!Frame R, !Calm R} : pres R (set_detail (d_temp "" false)).
Proof. by apply pres_set_temp. Qed.
#[local] Hint Resolve pres_no_temp : exec.

(** Without a record nothing in retention matters. *)
Lemma put_new_unknown rec retSt : ours_of rec = None → put_new it rec retSt = put_new it rec None.
Proof. intros E. unfold put_new, keep_old. by rewrite E. Qed.

(** What a done copy leaves, begun in [c0]: the path has a record of the item's source and its
    file the recorded size, and the recorded hash unless it was described by an earlier attempt
    or is the record that was there. *)
Definition placed (c0 : world * ItemDetail) (s : st) : Prop :=
  ∃ r data, liveAt (x_dest c) dest (w_recs (s_w s)) = Some r ∧ fr_State r = StatePresent ∧ fr_SourceID r = dt_SourceID (xd_plan c0.2) ∧
    data_at (w_fs (s_w s)) dest = Some data ∧ fr_Size r = data_size data ∧
    (fr_Hash r = "" ∨ fr_Hash r = hash_of data ∨ xd_TempDone c0.2 = true ∧ fr_Hash r = xd_TempHash c0.2 ∨
     liveAt (x_dest c) dest (w_recs c0.1) = Some r).
Lemma copied_placed c0 s : copied (xd_plan c0.2) s → placed c0 s.
Proof.
  intros (data & mt & h & Hd & (r & Hl & Hst & Hsrc & _ & Hsize & _ & Hh) & Hhash). exists r, data. split_and!; try done. rewrite Hh. tauto.
Qed.

(** The cleanup of a temp file leaves the records alone. *)
Lemma xtry_state {A} (m : X A) s : (xtry m s).2 = (m s).2.
Proof. unfold xtry. by destruct (m s). Qed.
Definition leaves_recs {A} (m : X A) : Prop := ∀ s, w_recs (s_w (m s).2) = w_recs (s_w s).
Lemma leaves_bind {A B} (m : X A) (k : A → X B) : leaves_recs m → (∀ a, leaves_recs (k a)) → leaves_recs (xbind m k).
Proof. intros Hm Hk s. specialize (Hm s). unfold xbind. destruct (m s) as [[a|e] s']; simpl in *; [by rewrite Hk|done]. Qed.
Lemma leaves_reader {A} (m : X A) : reader m → leaves_recs m.
Proof. intros Hm s. destruct (Hm s) as [[= E _] _]. by rewrite E. Qed.
Lemma leaves_try {A} (m : X A) : leaves_recs m → leaves_recs (xtry m).
Proof. intros Hm s. by rewrite xtry_state. Qed.
Lemma leaves_fs_call sd op : leaves_recs (fs_call sd op).
Proof.
  apply leaves_bind; [apply leaves_reader, reader_refuse|]. intros _ s. unfold xbind. simpl. by destruct (op _).
Qed.
Lemma leaves_CleanupTemp rel : leaves_recs (CleanupTemp rel).
Proof.
  unfold CleanupTemp. destruct (negb (checkRel _)); [done|]. destruct (negb (is_temp _)); [done|]. simpl. apply leaves_bind.
  { apply leaves_try, leaves_reader, reader_fs_read. }
  intros [st|e]; [|by repeat case_match]. destruct (negb _); [done|]. simpl. apply leaves_fs_call.
Qed.
Lemma removeTemp_recs : leaves_recs removeTemp.
Proof.
  unfold removeTemp. apply leaves_bind; [done|]. intros d. case_bool_decide; [done|]. apply leaves_bind; [|done]. apply leaves_try, leaves_CleanupTemp.
Qed.

Section place.
Context (c0 : world * ItemDetail).
#[local] Abbreviation p0 := (xd_plan c0.2).
#[local] Abbreviation cur := (liveAt (x_dest c) dest (w_recs c0.1)).
(** A step that only looks, at the start. *)
Lemma at_then {A B} (F : A → Prop) (m : X A) (k : A → X B) Q :
  reader m → (∀ s a, Inv s → core s = c0 → (m s).1 = Ok a → F a) → (∀ a, F a → hoare (at_core c0) (k a) Q (λ _, True)) →
  hoare (at_core c0) (xbind m k) Q (λ _, True).
Proof.
  intros Hm HF Hk s Hs Hc. destruct (at_reader c0 m Hm s Hs Hc) as [Hs' Hc']. specialize (HF s). unfold xbind.
  destruct (m s) as [[a|e] s']; simpl in *; [|done]. by apply Hk; [apply HF|..].
Qed.
Lemma reader_src_stat sd src rel : reader (src_stat sd src rel).
Proof. unfold src_stat. destruct (negb _); [done|]. apply reader_bind; [done|]. intros g. by destruct (g src rel). Qed.
Lemma reader_sourceStat rel : reader (sourceStat rel).
Proof. unfold sourceStat. apply reader_bind; [done|]. intros p. apply reader_bind; [apply reader_try, reader_src_stat|]. intros [st|e]; [done|]. by destruct (not_exist e). Qed.
Lemma reader_sourceFile : reader sourceFile.
Proof.
  unfold sourceFile. apply reader_bind; [done|]. intros p. apply reader_bind; [apply reader_sourceStat|]. intros [st|]; [|done]. by destruct (negb _).
Qed.
Lemma reader_db_read {A} (f : records → A) : reader (db_read f).
Proof. apply reader_bind; [|intros; by apply reader_bind]. apply reader_bind; [done|]. by intros []. Qed.
Lemma reader_checkDependents rec src : reader (checkDependents rec src).
Proof.
  unfold checkDependents. apply reader_bind; [apply reader_db_read|]. intros deps. apply reader_bind; [done|]. intros p.
  induction deps as [|r deps IH]; simpl; [done|]. apply reader_bind; [|done]. unfold dependent_blocks. destruct (_ || _); [done|].
  apply reader_bind; [|intros []; done]. destruct (_ =? _); [|done]. apply reader_bind; [apply reader_sourceStat|]. done.
Qed.
Lemma db_read_says {A} (f : records → A) s a : (db_read f s).1 = Ok a → a = f (w_recs (s_w s)).
Proof. unfold db_read, db_ok, xbind. simpl. destruct (e_db the_env _); simpl; [done|]. by intros [= <-]. Qed.

(** From where the new version is written, what was seen is still so. *)
Definition going (ret : string) (retSt fin : option FStat) (s : st) : Prop :=
  seen ret retSt s ∧ xd_plan (s_d s) = p0 ∧ shows (w_fs (s_w s)) dest fin.
Lemma going_then {A B} ret retSt fin (m : X A) (k : A → X B) Q :
  pres calm m → (∀ a, hoare (going ret retSt fin) (k a) Q (λ _, True)) → hoare (going ret retSt fin) (xbind m k) Q (λ _, True).
Proof.
  intros Hm Hk. apply (hoare_bind _ _ (λ _, going ret retSt fin)); [|done]. apply (hoare_pres calm); [done|].
  intros s s' Hs (Hseen & Hp & Hsh) Hc. split_and!; [eapply seen_calm; [exact (inv_detail _ Hs)|done|done]|rewrite <-Hp; apply (calm_plan _ _ Hc)|].
  eapply shows_calm; [apply (calm_files _ _ Hc)| |done]. apply known_mirror, it_known.
Qed.

Lemma hoare_write_new rec fin retSt ret src :
  hoare (going ret retSt fin) (removeTemp ;! set_detail (d_temp "" false) ;!
    let! adopted := clear_way it rec fin src in if adopted : bool then xret 0 else put_new it rec retSt) (λ _, placed c0) (λ _, True).
Proof.
  apply going_then; [walk|]. intros _. apply going_then; [walk|]. intros _.
  destruct (ours_of rec) as [r|] eqn:E.
  - apply (hoare_ext _ (put_new it rec retSt)); [intros s; unfold clear_way; by rewrite E|].
    apply (hoare_pre _ (λ s, seen ret retSt s ∧ xd_plan (s_d s) = p0)); [by intros s _ (? & ? & _)|].
    eapply hoare_weaken; [apply (hoare_put_new p0 retSt ret rec)|done| |done]. intros a s _. apply copied_placed.
  - eapply hoare_bind; [eapply hoare_pre; [|apply (hoare_clear_way p0 rec fin src E)]; by intros s _ (_ & ? & ?)|]. intros [].
    + apply hoare_ret. intros s. apply copied_placed.
    + rewrite (put_new_unknown _ _ E). intros s Hs Hp. destruct (hoare_put_new p0 None (xd_Retained (s_d s)) rec s Hs) as [Hs' Hr]; [done|].
      split; [done|]. destruct (put_new it rec None s) as [[n|e] s']; [by apply copied_placed|done].
Qed.

Lemma already_says rec fin src p : already_placed rec fin src p = true → ∃ r f, rec = Some r ∧ fin = Some f ∧ fr_State r = StatePresent ∧
  Regular f = true ∧ fs_Size f = fr_Size r.
Proof.
  unfold already_placed. destruct rec as [r|], fin as [f|]; try done. intros H1. exists r, f.
  apply andb_true_iff in H1 as [[[[[H1%bool_decide_eq_true _]%andb_true_iff _]%andb_true_iff H2]%andb_true_iff H3%Z.eqb_eq]%andb_true_iff _].
  done.
Qed.
Lemma hoare_place_new fin retSt : other_source p0 cur = false → shows (w_fs c0.1) dest fin → shows (w_fs c0.1) (xd_Retained c0.2) retSt →
  hoare (at_core c0) (place_new it cur fin retSt) (λ _, placed c0) (λ _, True).
Proof.
  intros Hsrc Hfin Hret. unfold place_new. apply (at_then (λ _, True)); [apply reader_sourceFile|done|]. intros src _.
  apply (at_then (λ d, d = c0.2)); [done|by intros s a _ <- [= <-]|]. intros d ->. cbv zeta.
  destruct (already_placed _ _ _ _) eqn:Ea.
  { destruct (already_says _ _ _ _ Ea) as (r & f & Hr & -> & Hst & Hreg & Hsize). destruct Hfin as (_ & _ & Hd).
    destruct (Hd Hreg) as (data & Hdata & Hds). set (P := λ s : st, kept plain (w_fs c0.1) (w_fs (s_w s)) ∧ w_recs (s_w s) = w_recs c0.1).
    apply (hoare_pre _ P); [intros s _ Hc; unfold P; by rewrite <-Hc|]. apply (hoare_bind _ _ (λ _, P)).
    { intros s Hs [Hk Hrec]. destruct (pres_removeTemp (R := calm) s Hs) as [Hs' Hc]. split; [done|].
      assert (P (removeTemp s).2); [|by destruct (removeTemp s).1]. split; [etrans; [done|apply Hc]|]. rewrite <-Hrec. apply removeTemp_recs. }
    intros _. apply (hoare_bind _ _ (λ _, P)); [intros s Hs Hp; split; [by apply (pres_set_outcome (R := still))|done]|]. intros _.
    apply hoare_ret. intros s [Hk Hrec]. rewrite Hr in Hsrc. exists r, data. rewrite Hrec. split_and!; [done|done| | |lia|].
    - simpl in Hsrc. by apply negb_false_iff, Z.eqb_eq in Hsrc.
    - apply Hk; [apply known_mirror, it_known|done].
    - right. right. right. done. }
  destruct (_ && _); [by apply hoare_fail|]. apply (at_then (λ _, True)); [|done|].
  { destruct (ours_of _); [apply reader_checkDependents|done]. }
  intros _ _. apply (hoare_pre _ (going (xd_Retained c0.2) retSt fin)); [|apply hoare_write_new].
  intros s _ Hc. unfold going, seen. rewrite <-Hc in Hfin, Hret |- *. by split_and!.
Qed.

(** A resume that only writes the record: an earlier attempt described the file. *)
Lemma hoare_finish retained : xd_TempDone c0.2 = true →
  hoare (λ s, s_d s = c0.2 ∧ ∃ data, data_at (w_fs (s_w s)) dest = Some data ∧ xd_TempSize c0.2 = data_size data)
    (recordPlaced it retained ;! xret (xd_TempSize c0.2)) (λ _, placed c0) (λ _, True).
Proof.
  intros Hdone. eapply hoare_weaken; [apply (hoare_recordPlaced (λ o, ∃ data, o = Some data ∧ xd_TempSize c0.2 = data_size data) c0.2)|done| |done].
  intros z s _ [(data & Hd & Hsize) (r & Hl & Hst & Hsrc & _ & Hrs & _ & Hh)]. exists r, data. rewrite <-Hsize, Hh. split_and!; try done. auto.
Qed.
Lemma hoare_commit_finish tempSt nr retained : xd_TempDone c0.2 = true → Regular tempSt = true → fs_Size tempSt = xd_TempSize c0.2 →
  shows (w_fs c0.1) (xd_Temp c0.2) (Some tempSt) → nr = true ∨ spare L (w_fs c0.1) dest →
  hoare (at_core c0) (Commit (xd_Temp c0.2) dest nr ;! recordPlaced it retained ;! xret (xd_TempSize c0.2)) (λ _, placed c0) (λ _, True).
Proof.
  intros Hdone Hreg Hsize (_ & _ & Hd) Hnr. destruct (Hd Hreg) as (data & Hdata & Hds).
  apply (hoare_bind _ _ (λ _ s, s_d s = c0.2 ∧ ∃ data, data_at (w_fs (s_w s)) dest = Some data ∧ xd_TempSize c0.2 = data_size data)); [|intros _; by apply hoare_finish].
  intros s Hs Hc. destruct (hoare_Commit (xd_Temp c0.2) dest nr c0 s Hs) as [Hs' Hr].
  { split; [done|]. unfold at_core, core in Hc. rewrite <-Hc in Hnr. done. }
  split; [done|]. destruct (Commit _ _ _ s) as [[[]|e] s']; [|done]. simpl in Hr. pose proof (inv_fs _ Hs) as Hok.
  assert (w_fs (s_w s) = w_fs c0.1) as Hw by by rewrite <-Hc. rewrite Hw in Hok. pose proof (renamed_data _ _ _ _ _ Hok Hr) as Hdata'.
  destruct Hr as (f' & _ & [= Hw' Hsd] & _). split; [exact Hsd|]. exists data. rewrite <-Hdata. split; [exact Hdata'|congruence].
Qed.

Lemma reader_same_old fin retSt : reader (match fin, retSt with Some f, Some r => sameDestFile dest f (xd_Retained c0.2) r | _, _ => xret false end).
Proof. destruct fin, retSt; try done. apply reader_sameDestFile. Qed.
Lemma old_linked fin retSt s b : Inv s → core s = c0 → shows (w_fs c0.1) dest fin → shows (w_fs c0.1) (xd_Retained c0.2) retSt →
  (match fin, retSt with Some f, Some r => sameDestFile dest f (xd_Retained c0.2) r | _, _ => xret false end s).1 = Ok b →
  b = true → spare L (w_fs c0.1) dest.
Proof.
  intros Hs Hc Hfin Hret Hr ->. destruct fin as [f|]; [|done]. destruct retSt as [r|]; [|done].
  assert (w_fs (s_w s) = w_fs c0.1 ∧ s_d s = c0.2) as [Hw Hd] by by rewrite <-Hc. rewrite <-Hw in *.
  eapply same_spare; [exact Hr|done| |exact Hfin|exact Hret]. eapply (seen_retention _ (Some r) s); [exact (inv_detail _ Hs)| |done]. split; [by rewrite Hd|exact Hret].
Qed.
Lemma hoare_place : hoare (at_core c0) (place it) (λ _, placed c0) (λ _, True).
Proof.
  unfold place. apply (at_then (λ d, d = c0.2)); [done|by intros s a _ <- [= <-]|]. intros d ->.
  apply (at_then (λ r, r = cur)); [apply reader_db_read|intros s a _ Hc Hr; apply db_read_says in Hr as ->; by rewrite <-Hc|]. intros rec ->.
  destruct (other_source _ _) eqn:Eo; [by apply hoare_fail|]. simpl.
  assert (Hst : ∀ p s o, Inv s → core s = c0 → (lstat p s).1 = Ok o → shows (w_fs c0.1) p o).
  { intros p s o Hs Hc Hr. apply lstat_shows in Hr; [|exact (inv_fs _ Hs)]. by rewrite <-Hc. }
  apply (at_then (shows (w_fs c0.1) (xd_Temp c0.2))); [apply reader_lstat|apply Hst|]. intros tempSt Htemp.
  apply (at_then (shows (w_fs c0.1) (xd_Retained c0.2))); [apply reader_lstat|apply Hst|]. intros retSt Hret.
  apply (at_then (shows (w_fs c0.1) dest)); [apply reader_lstat|apply Hst|]. intros fin Hfin.
  apply (at_then (λ b, b = true → spare L (w_fs c0.1) dest)); [apply reader_same_old|intros s b Hs Hc; by apply (old_linked fin retSt s)|]. intros linkedOld Hold.
  cbv zeta. destruct (_ && _ && _ && _) eqn:E1; [|destruct (_ && linkedOld) eqn:E2; [|destruct (match tempSt with Some _ => false | None => _ end) eqn:E3]].
  - apply andb_true_iff in E1 as [[_ Hc]%andb_true_iff _]. destruct tempSt as [st|]; [|done].
    apply andb_true_iff in Hc as [[Hdone Hreg]%andb_true_iff Hsize%Z.eqb_eq]. apply (hoare_commit_finish st); auto.
  - apply andb_true_iff in E2 as [[_ Hc]%andb_true_iff Hl]. destruct tempSt as [st|]; [|done].
    apply andb_true_iff in Hc as [[Hdone Hreg]%andb_true_iff Hsize%Z.eqb_eq]. apply (hoare_commit_finish st); auto.
  - destruct tempSt; [done|]. destruct fin as [f|]; [|done].
    apply andb_true_iff in E3 as [[[[Hdone Hreg]%andb_true_iff Hsize%Z.eqb_eq]%andb_true_iff _]%andb_true_iff _].
    eapply hoare_pre; [|by apply hoare_finish]. intros s _ Hc. destruct Hfin as (_ & _ & Hd). destruct (Hd Hreg) as (data & Hdata & Hds).
    assert (w_fs (s_w s) = w_fs c0.1 ∧ s_d s = c0.2) as [-> ->] by by rewrite <-Hc. split; [done|]. exists data. split; [done|congruence].
  - by apply hoare_place_new.
Qed.
End place.

(** The end of an item leaves files and records alone. *)
Lemma leaves_update_item id g : leaves_recs (update_item id g).
Proof.
  unfold update_item. apply leaves_bind; [apply leaves_reader, reader_bind; [done|by intros []]|]. intros _ s. unfold xbind. simpl. by destruct (existsb _ _).
Qed.
Lemma leaves_done n : leaves_recs (done it n).
Proof.
  apply leaves_bind; [done|]. intros d. apply leaves_bind; [case_bool_decide; [|done]|intros _]; apply leaves_update_item.
Qed.
Lemma hoare_putItem c0 : hoare (at_core c0) (putItem it) (λ _, placed c0) (λ _, True).
Proof.
  eapply hoare_bind; [apply hoare_place|]. intros n s Hs (r & data & Hl & Hst & Hsrc & Hd & Hrest).
  destruct (pres_done (R := still) n s Hs) as [Hs' Hstill]. split; [done|]. destruct (done it n s).1; [|done].
  exists r, data. rewrite leaves_done. split_and!; [done..| |by destruct Hrest|by destruct Hrest]. by apply (still_files _ _ Hstill).
Qed.

Lemma ok_place : pres anything (place it).
Proof.
  apply (any_hoare _ (λ _ _, True) (λ _, True)), hoare_at. intros c0.
  eapply hoare_weaken; [apply (hoare_place c0)|by intros s _ [Hc _]|done..].
Qed.
#[local] Hint Resolve ok_place : exec.
Lemma ok_fallbackPlace : pres anything (fallbackPlace it).
Proof. unfold fallbackPlace. walk. Qed.
#[local] Hint Resolve ok_fallbackPlace : exec.
Lemma ok_adopt : pres anything (adopt it).
Proof. unfold adopt. walk. Qed.
Lemma ok_putItem : pres anything (putItem it).
Proof. unfold putItem. walk. Qed.
#[local] Hint Resolve ok_adopt ok_putItem : exec.

(** *** The other actions *)

(** A record read is a known one. *)
Lemma pres_bind_row {R} `{!Frame R} {B} (f : records → option FileRecord) (k : option FileRecord → X B) :
  (∀ t r, f t = Some r → r ∈ t) → (pres R (k None)) → (∀ r, known (fr_RelPath r) → pres R (k (Some r))) → pres R (xbind (db_read f) k).
Proof.
  intros Hf Hnone Hsome. apply pres_bind_records. intros t Ht. destruct (f t) as [r|] eqn:E; [|done]. apply Hsome, Ht. by eapply Hf.
Qed.
Lemma find_row p (t : records) r : List.find p t = Some r → r ∈ t.
Proof. intros Hr. apply find_some in Hr as [Hr _]. by apply list_elem_of_In. Qed.

Lemma known_moved id source now t t' : recs_known t → movedTx it id source now t = Ok t' → recs_known t'.
Proof. intros Ht. unfold movedTx. destruct (get_record id t); [|done]. intros Hu. by eapply known_update. Qed.
Lemma ok_record_move v : pres anything (record_move it v).
Proof. unfold record_move. walk. apply pres_db_write. intros now t t' Ht. by apply known_moved. Qed.
#[local] Hint Resolve ok_record_move : exec.
Hypothesis case_sensitive : CaseInsensitive (x_caps the_run) = false.
Lemma ok_move_file v from fromSt toSt : pres anything (move_file it v from fromSt toSt).
Proof.
  unfold move_file. rewrite case_sensitive. simpl. apply (pres_bind_val (λ b, b = false)).
  - walk.
  - intros s b _. destruct fromSt, toSt; by intros [= <-].
  - intros b ->. walk.
Qed.
#[local] Hint Resolve ok_move_file : exec.
Lemma pres_reappeared {R} `{!Frame R} rel : pres R (reappeared rel).
Proof. unfold reappeared. walk. Qed.
#[local] Hint Resolve pres_reappeared : exec.
Lemma ok_move : pres anything (move it).
Proof. unfold move. walk. Qed.

Lemma known_link p d src mode prim retained now t t' : recs_known t → linkTx it p d src mode prim retained now t = Ok t' → recs_known t'.
Proof.
  intros Ht. unfold linkTx. destruct (get_record prim t) as [pr|]; [|done]. destruct (bool_decide _); [|done]. cbv zeta. rewrite rbind_ok. intros (u & Hu & Hr).
  assert (recs_known u).
  { destruct (liveAt _ _ t) as [cur|]; [|by eapply known_insert]. eapply known_update; [exact Hu|done|]. apply known_repoint.
    destruct (bool_decide (fr_State cur = StateMissing)); auto with exec. }
  destruct retained; [by eapply known_retained|by injection Hr as <-].
Qed.
Lemma pres_valid_primary {R} `{!Frame R} rec src : pres R (valid_primary rec src).
Proof. unfold valid_primary. walk. Qed.
Lemma ok_retainName rec fin : pres anything (retainName it rec fin).
Proof. unfold retainName. walk. Qed.
#[local] Hint Resolve pres_valid_primary ok_retainName : exec.
Lemma ok_free_name rec src fin retained : pres anything (free_name it rec src fin retained).
Proof. unfold free_name. walk. Qed.
Lemma pres_make_link {R} `{!Frame R} prim st : pres R (make_link it prim st).
Proof. unfold make_link. walk. Qed.
#[local] Hint Resolve ok_free_name pres_make_link : exec.
Lemma ok_link_to rec src prim primDest : pres anything (link_to it rec src prim primDest).
Proof.
  unfold link_to. cbv zeta. walk; apply pres_db_write; intros now t t' Ht; by apply known_link.
Qed.
#[local] Hint Resolve ok_link_to : exec.
Lemma ok_link : pres anything (link it).
Proof. unfold link. walk. Qed.

Lemma known_promote t v moved what now tbl tbl' : recs_known tbl → known (fr_RelPath t) → known (fr_RelPath v) →
  promoteTx t v moved what now tbl = Ok tbl' → recs_known tbl'.
Proof.
  intros Ht Hkt Hkv. unfold promoteTx. cbv zeta. rewrite rbind_ok. intros (u & Hu & Hr).
  assert (recs_known (repoint (fr_ID v) (fr_ID t) u)) by (apply known_repoint; by eapply known_update).
  destruct moved; [|by injection Hr as <-]. cbn [negb] in Hr. destruct what; first [eapply known_delete; [exact Hr|done]|eapply known_update; [exact Hr|exact Hkv|done]].
Qed.
Lemma pres_promote_checks {R} `{!Frame R} t v what : pres R (promote_checks t v what).
Proof. unfold promote_checks. walk. Qed.
#[local] Hint Resolve pres_promote_checks : exec.
Lemma ok_promote_file t v vs tf : known (fr_RelPath t) → pres anything (promote_file it t v vs tf).
Proof. intros Ht. unfold promote_file. walk. Qed.
Lemma ok_promote : pres anything (promote it).
Proof.
  unfold promote. apply pres_bind; [walk|]. intros p. apply pres_bind_row; [intros tb r; apply find_row|walk|]. intros t Ht.
  apply pres_if; [walk|]. apply pres_bind_row; [intros tb r; apply find_row|walk|]. intros v Hv.
  walk; try (by apply ok_promote_file); apply pres_db_write; intros now tb tb' Htb; by apply known_promote.
Qed.
#[local] Hint Resolve ok_move ok_link ok_promote : exec.

Lemma known_heir v h t t' : recs_known t → heirTx v h t = Ok t' → recs_known t'.
Proof.
  intros Ht. unfold heirTx. destruct (get_record h t) as [r|] eqn:E; [|by intros [= <-]]. rewrite rbind_ok. intros (u & Hu & [= <-]).
  apply known_repoint. eapply known_update; [exact Hu|exact (Ht _ (find_row _ _ _ E))|done].
Qed.
Lemma known_retain v d heir gone retained now t t' : recs_known t → known (fr_RelPath v) → retainTx v d heir gone retained now t = Ok t' → recs_known t'.
Proof.
  intros Ht Hv. unfold retainTx. rewrite rbind_ok. intros (u & Hu & Hr). apply rbind_ok in Hr as (u' & Hu' & Hr).
  assert (H1 : recs_known u) by (by eapply known_deletes).
  assert (H2 : recs_known u') by (destruct heir; [by eapply known_heir|by injection Hu' as <-]). clear Hu Hu'. cbv zeta in Hr.
  destruct (negb retained); [by eapply known_delete, H2|]. destruct (retainedExists _ u'); [by eapply known_delete, H2|].
  eapply known_update; [exact Hr|exact Hv|done].
Qed.
Lemma pres_sort_dependents {R} `{!Frame R} v p deps heir gone : pres R (sort_dependents v p deps heir gone).
Proof. revert heir gone. induction deps as [|r deps IH]; intros heir gone; simpl; walk. Qed.
#[local] Hint Resolve pres_sort_dependents : exec.
Lemma ok_retain_file v release fin retained : known (fr_RelPath v) → pres anything (retain_file it v release fin retained).
Proof. intros Hv. unfold retain_file. walk. Qed.
Lemma ok_record_retain v heir gone retained : known (fr_RelPath v) → pres anything (record_retain it v heir gone retained).
Proof.
  intros Hv. unfold record_retain. walk. apply pres_db_write. intros now t t' Ht. by apply known_retain.
Qed.
#[local] Hint Resolve ok_retain_file ok_record_retain : exec.
Lemma ok_retain_name v release : known (fr_RelPath v) → pres anything (retain_name it v release).
Proof.
  intros Hv. unfold retain_name. cbv zeta. walk. apply pres_db_write. intros now t t' Ht Hd. by eapply known_delete.
Qed.
#[local] Hint Resolve ok_retain_name : exec.
Lemma ok_retain : pres anything (retain it).
Proof.
  unfold retain. apply pres_bind; [walk|]. intros d. cbv zeta. apply pres_bind_row; [intros t r; apply find_row|walk|]. intros v Hv. walk.
Qed.
#[local] Hint Resolve ok_retain : exec.

(** *** An item *)
Lemma ok_salvage : pres anything (salvage it).
Proof. unfold salvage. walk. Qed.
Lemma ok_run_action : pres anything (run_action it).
Proof. unfold run_action. walk. Qed.
#[local] Hint Resolve ok_salvage ok_run_action : exec.
Lemma ok_runItem : pres anything (runItem it).
Proof. unfold runItem. walk. Qed.
End item.

Hypothesis case_sensitive : CaseInsensitive (x_caps the_run) = false.
Lemma pres_Recheck {R} `{!Frame R} : pres R Recheck.
Proof. apply pres_refuse. Qed.
Lemma ok_start_item i : known (i_RelPath i) → detail_ok (i_Detail i) → pres anything (start_item i).
Proof. intros Hk Hd. apply pres_bind; [by apply any_set_detail|]. intros _. by apply ok_runItem. Qed.

Section job.
Context (recheckEvery : Z).
Definition items_ok (l : list item) : Prop := ∀ i, i ∈ l → known (i_RelPath i) ∧ detail_ok (i_Detail i).
Lemma ok_run_batch actions batch since : items_ok batch → pres anything (run_batch recheckEvery actions batch since).
Proof.
  revert since. induction batch as [|i batch IH]; intros since Hb; simpl; [walk|].
  assert (items_ok batch) by (intros j Hj; apply Hb; by right). destruct (Hb i) as [Hk Hd]; [by left|].
  pose proof (ok_start_item i Hk Hd). pose proof (@pres_Recheck anything _). destruct (negb _); [by apply IH|]. walk; by apply IH.
Qed.
Lemma pending_items after l : (∀ i, i ∈ l → i_Status i = ItemPending → known (i_RelPath i) ∧ detail_ok (i_Detail i)) → items_ok (pending after l).
Proof.
  intros Hl i Hi. unfold pending in Hi. apply subseteq_take in Hi. apply filter_bool_elem in Hi as [Hi [Hs%bool_decide_eq_true _]%andb_true_iff]. by apply Hl.
Qed.
Lemma ok_run_batches fuel actions after since : pres anything (run_batches recheckEvery fuel actions after since).
Proof.
  revert after since. induction fuel as [|fuel IH]; intros after since; simpl; [walk|]. apply pres_bind; [walk|]. intros _.
  apply (pres_bind_val (λ w, ∀ i, i ∈ w_items w → i_Status i = ItemPending → known (i_RelPath i) ∧ detail_ok (i_Detail i))); [walk|intros s w Hs [= <-]; exact (inv_items _ Hs)|]. intros w Hw.
  destruct (last _) as [l|]; [|walk]. apply pres_bind; [by apply ok_run_batch, pending_items|]. intros. apply IH.
Qed.

(** Every batch leaves fewer items behind the id it ends at. *)
Definition ids_after (after : Z) : nat := length (List.filter (Z.ltb after) (i_ID <$> w_items w0)).
Lemma ids_after_lt after i w : same_ids w → i ∈ w_items w → after < i_ID i → (ids_after (i_ID i) < ids_after after)%nat.
Proof.
  intros Hw Hi Ha. unfold ids_after. apply (list_elem_of_fmap_2 i_ID) in Hi. rewrite Hw in Hi.
  generalize (i_ID <$> w_items w0) (i_ID i) Hi Ha. clear. intros l a Hl Ha. induction Hl as [a l|a b l Hl IH]; simpl.
  - rewrite Z.ltb_irrefl. replace (after <? a) with true by lia. simpl.
    assert (length (List.filter (Z.ltb a) l) ≤ length (List.filter (Z.ltb after) l))%nat; [|lia].
    induction l as [|b l IH]; simpl; [done|]. destruct (a <? b) eqn:E1, (after <? b) eqn:E2; simpl; lia.
  - specialize (IH Ha). destruct (a <? b) eqn:E1, (after <? b) eqn:E2; simpl; lia.
Qed.
Lemma last_pending after l i : last (pending after l) = Some i → i ∈ l ∧ after < i_ID i.
Proof.
  intros Hl%last_Some_elem_of. unfold pending in Hl. apply subseteq_take in Hl. apply filter_bool_elem in Hl as [? [_ ?]%andb_true_iff]. split; [done|lia].
Qed.
Lemma batches_fuel n m actions after since s : Inv s → (ids_after after < n ≤ m)%nat →
  run_batches recheckEvery m actions after since s = run_batches recheckEvery n actions after since s.
Proof.
  revert m after since s. induction n as [|n IH]; intros [|m] after since s Hs [Hn Hm]; [lia..|]. simpl.
  unfold xbind. destruct (pres_db_ok (R := anything) s Hs) as [Hs1 _]. destruct (db_ok s) as [[[]|e] s1]; [|done]. simpl in *.
  destruct (last _) as [l|] eqn:El; [|done]. apply last_pending in El as [Hin Hlt].
  destruct (ok_run_batch actions (pending after (w_items (s_w s1))) since) with (s := s1) as [Hs2 _]; [apply pending_items; exact (inv_items _ Hs1)|done|].
  destruct (run_batch _ _ _ _ s1) as [[since'|e] s2]; [|done]. apply IH; [done|].
  pose proof (ids_after_lt after l _ (inv_ids _ Hs1) Hin Hlt). lia.
Qed.
Lemma ok_run_phases phs since : pres anything (run_phases recheckEvery phs since).
Proof.
  revert since. induction phs as [|ph phs IH]; intros since; [apply pres_ret|]. cbn [run_phases]. apply pres_bind; [apply pres_if; [apply pres_Recheck|walk]|]. intros _.
  apply pres_bind; [walk|]. intros w. apply pres_bind; [apply ok_run_batches|done].
Qed.
Lemma ok_execute : pres anything (execute recheckEvery).
Proof. pose proof ok_run_phases. unfold execute. walk. Qed.
End job.

(** *** Settling what stopped jobs left *)

Section sweep.
Context (lo : leftovers).
Hypothesis lo_known : ∀ jobID it, it ∈ lo_items lo jobID → known (i_RelPath it).
Lemma pres_fixer_lstat {R} `{!Frame R} rel : pres R (fixer_lstat rel).
Proof. unfold fixer_lstat. pose proof (pres_Lstat (R := R)). walk. Qed.
#[local] Hint Resolve pres_fixer_lstat pres_sameDestFile : exec.
Lemma known_finish jobID it now t t' : known (i_RelPath it) → recs_known t → finishTx jobID it now t = Ok t' → recs_known t'.
Proof.
  intros Hit Ht. unfold finishTx. destruct (liveAt _ _ t) as [cur|]; [|by intros [= <-]]. destruct (_ && _); [|by intros [= <-]].
  by apply (known_placed (H := as_job jobID)).
Qed.
Lemma ok_finishPlaced jobID it : known (i_RelPath it) → pres anything (finishPlaced jobID it).
Proof. intros Hit. unfold finishPlaced. cbv zeta. walk. apply pres_db_write. intros now t t' Ht. by apply known_finish. Qed.
Lemma ok_sweepItem jobID jobDir it : known (i_RelPath it) → pres anything (sweepItem lo jobID jobDir it).
Proof.
  intros Hit. unfold sweepItem. cbv zeta. destruct (negb _); [walk|]. apply pres_bind; [|intros _; apply pres_bind; [|intros _]].
  - unfold sweep_displaced. cbv zeta. walk; apply pres_db_write; intros now t t' Ht Hi; by eapply known_retained.
  - apply pres_if; [by apply ok_finishPlaced|walk].
  - apply pres_if; [apply pres_CleanupTemp|walk].
Qed.
(** [leaves_recs] of the steps of [settle]. *)
Lemma leaves_as_exists {A} (m : X A) : leaves_recs m → leaves_recs (as_exists m).
Proof. intros Hm s. specialize (Hm s). unfold as_exists. destruct (m s) as [[a|e] s']; [done|]. by repeat case_match. Qed.
Lemma leaves_Move from to nr : leaves_recs (Move from to nr).
Proof.
  unfold Move. destruct (_ || _); [done|]. apply leaves_bind; [apply leaves_reader, reader_require_regular|]. intros _.
  apply leaves_bind; [unfold mkParents; case_bool_decide; [done|apply leaves_fs_call]|]. intros _. apply leaves_bind.
  - unfold rename. destruct (negb nr); [apply leaves_fs_call|]. destruct (x_noreplace c); [apply leaves_as_exists, leaves_fs_call|].
    apply leaves_bind; [apply leaves_try, leaves_reader, reader_fs_read|]. intros [st|e]; [done|]. repeat case_match; try done; apply leaves_fs_call.
  - intros _. apply leaves_reader, reader_bind; [apply reader_refuse|]. intros _. apply reader_refuse.
Qed.
Lemma leaves_prune stop dirs : leaves_recs (prune_dirs stop dirs).
Proof.
  induction dirs as [|d dirs IH]; simpl; [done|]. destruct (stop d); [done|].
  apply leaves_bind; [apply leaves_try, leaves_reader, reader_Lstat|]. intros [st|e]; [|done]. case_bool_decide; [|done].
  apply leaves_bind; [apply leaves_try, leaves_fs_call|]. by intros [].
Qed.
Lemma leaves_settle_file rec kept : leaves_recs (settle_file rec kept).
Proof.
  unfold settle_file. cbv zeta. apply leaves_bind; [apply leaves_try, leaves_reader, reader_lstat|]. intros [[cur|]|e]; [| |done].
  - apply leaves_bind; [apply leaves_reader, reader_sameDestFile|]. done.
  - apply leaves_bind; [apply leaves_try, leaves_Move|]. intros [u|e]; [|done]. apply leaves_bind; [apply leaves_prune|done].
Qed.

(** A file that is not seen is not there. *)
Lemma lstat_absent p s : (lstat p s).1 = Ok None → p ≠ "" → data_at (w_fs (s_w s)) p = None.
Proof.
  intros Hr Hp. rewrite data_at_entry. unfold lstat in Hr. rewrite bool_decide_eq_false_2 in Hr by done. unfold Lstat, xbind, xtry in Hr.
  destruct (negb (checkRel p)); [done|]. unfold fs_read, may_refuse, ask, xbind in Hr. simpl in Hr.
  destruct (e_refuse the_env _) as [[]|]; [done..|]. simpl in Hr. unfold os_lstat in Hr. unfold entry. by destruct (f_tree _ !! p).
Qed.

(** What settling an intent leaves: the intent is gone, and the file it was for is back at
    its path or in retention with a row. *)
Definition retains (rec r : FileRecord) : Prop := fr_State r = StateRetained ∧ fr_RetainedPath r = fr_RetainedPath rec ∧
  fr_DestinationID r = fr_DestinationID rec ∧ fr_SourceID r = fr_SourceID rec ∧ fr_SourceRelPath r = fr_SourceRelPath rec.
Definition no_intent (rec : FileRecord) (t : records) : Prop :=
  ∀ r, r ∈ t → fr_ID r = fr_ID rec → fr_RetainedPath r = fr_RetainedPath rec → live r = false.
Definition settled (rec : FileRecord) (c0 : world * ItemDetail) (s : st) : Prop :=
  no_intent rec (w_recs (s_w s)) ∧
  ∀ d, data_at (w_fs c0.1) (fr_RetainedPath rec) = Some d → data_at (w_fs (s_w s)) (fr_RelPath rec) = Some d ∨
    data_at (w_fs (s_w s)) (fr_RetainedPath rec) = Some d ∧ ∃ r, r ∈ w_recs (s_w s) ∧ retains rec r.

Definition settleTx (rec : FileRecord) (v : option retainedVersion) (kept : option FStat) (record unknown : bool) (now : time) (t : records) :
    result db_error records :=
  let t := if unknown then mark_unknown (fr_ID rec) (fr_RetainedPath rec) t else t in
  let? t := match kept with
            | Some st => if record then insertRetained (settled_row rec v st now) t else Ok t
            | None => Ok t
            end in
  Ok (clearIntentTx (fr_ID rec) (fr_RetainedPath rec) t).
Lemma settleTx_clears rec v kept record unknown now t t' : fr_RetainedPath rec ≠ "" → settleTx rec v kept record unknown now t = Ok t' → no_intent rec t'.
Proof.
  intros Hne. unfold settleTx. cbv zeta. rewrite rbind_ok. intros (u & _ & [= <-]) r Hr Hid Hp. unfold clearIntentTx in Hr.
  apply list_elem_of_fmap in Hr as (q & -> & _). destruct (_ && _ && live q) eqn:E; [by simpl in Hp|].
  rewrite Hid, Z.eqb_refl, Hp, bool_decide_eq_true_2 in E by done. exact E.
Qed.
Lemma insertRetained_row rec t t' : insertRetained rec t = Ok t' → fr_State rec = StateRetained → ∃ r, r ∈ t' ∧ retains rec r.
Proof.
  unfold insertRetained, insertRecord. intros Hi Hst. destruct (retainedExists rec t) eqn:E.
  - injection Hi as <-. unfold retainedExists in E. apply existsb_exists in E as (r & Hr & Hsame). exists r. split; [by apply list_elem_of_In|].
    unfold same_retained in Hsame. apply andb_true_iff in Hsame as [[[[H1%Z.eqb_eq H2%Z.eqb_eq]%andb_true_iff H3%bool_decide_eq_true]%andb_true_iff H4%bool_decide_eq_true]%andb_true_iff H5%bool_decide_eq_true].
    done.
  - destruct (row_error _ t); [done|]. injection Hi as <-. eexists. split; [apply elem_of_app; right; by left|]. done.
Qed.
Lemma settleTx_records rec v st unknown now t t' : settleTx rec v (Some st) true unknown now t = Ok t' → ∃ r, r ∈ t' ∧ retains rec r.
Proof.
  unfold settleTx. cbv zeta. rewrite rbind_ok. intros (u & Hu & [= <-]). apply insertRetained_row in Hu as (r & Hr & Hret); [|done].
  exists r. split; [|exact Hret]. unfold clearIntentTx. apply list_elem_of_fmap. exists r. split; [|done].
  destruct Hret as (Hs & _). unfold live. rewrite Hs. by rewrite andb_false_r.
Qed.

(** Where the file is before the transaction. *)
Definition kept_at (rec : FileRecord) (f0 : fs) (record : bool) (f : fs) : Prop :=
  ∀ d, data_at f0 (fr_RetainedPath rec) = Some d →
    data_at f (fr_RelPath rec) = Some d ∨ data_at f (fr_RetainedPath rec) = Some d ∧ record = true.
Lemma hoare_settle_file rec kept c0 : known (fr_RelPath rec) →
  hoare (at_core c0) (settle_file rec kept) (λ r s, kept_at rec (w_fs c0.1) r.1 (w_fs (s_w s))) (λ _, True).
Proof.
  intros Hrec. unfold settle_file. cbv zeta. assert (Hat : ∀ s, at_core c0 s → kept_at rec (w_fs c0.1) true (w_fs (s_w s))).
  { intros s <- d Hd. by right. }
  apply (at_then c0 (λ _, True)); [apply reader_try, reader_lstat|done|]. intros [[cur|]|e] _; [| |by apply hoare_ret].
  - apply (at_then c0 (λ _, True)); [apply reader_sameDestFile|done|]. intros same _. by apply hoare_ret.
  - assert (Hmoved : ∀ c1, moved (fr_RetainedPath rec) (fr_RelPath rec) c0 c1 → ∀ d, data_at (w_fs c0.1) (fr_RetainedPath rec) = Some d →
      data_at (w_fs c1.1) (fr_RelPath rec) = Some d).
    { intros c1 (c' & Hst & Hok & Hr) d Hd. rewrite (renamed_data _ _ _ _ _ Hok Hr). by apply (still_files _ _ Hst). }
    eapply hoare_bind; [eapply hoare_try, (hoare_Move (fr_RetainedPath rec) (fr_RelPath rec) c0); by right|].
    intros [u|e].
    + intros s Hs Hm. destruct (hoare_prune (w_fs (s_w s)) (λ d, negb (has_prefix d (RetentionRoot +:+ "/"))) (parents (fr_RetainedPath rec)) s Hs) as [Hs' Hc]; [by intros q x|].
      unfold xbind. assert (contents (w_fs (s_w s)) (w_fs (s_w (prune_dirs (λ d, negb (has_prefix d (RetentionRoot +:+ "/"))) (parents (fr_RetainedPath rec)) s).2))) as Hc' by by destruct (prune_dirs _ _ s) as [[]].
      destruct (prune_dirs _ _ s) as [[[]|e] s']; simpl in *; [|done]. split; [done|]. intros d Hd. left. apply Hc', (Hmoved _ Hm d Hd).
    + apply hoare_ret. intros s [Hst|Hm] d Hd; [|left; by apply (Hmoved _ Hm)]. right. split; [by apply (still_files _ _ Hst)|done].
Qed.
Lemma hoare_settle rec v c0 : known (fr_RelPath rec) → fr_RetainedPath rec ≠ "" → hoare (at_core c0) (settle rec v) (λ _, settled rec c0) (λ _, True).
Proof.
  intros Hrec Hne. unfold settle. cbv zeta.
  apply (at_then c0 (λ o, match o with Some _ => True | None => data_at (w_fs c0.1) (fr_RetainedPath rec) = None end)); [apply reader_lstat| |].
  { intros s [st|] Hs Hc Hr; [done|]. rewrite <-Hc. by apply lstat_absent. }
  intros kept Hkept.
  apply (hoare_bind _ _ (λ r s, kept_at rec (w_fs c0.1) (bool_decide (is_Some kept) && r.1) (w_fs (s_w s)))).
  { destruct kept as [st|]; [|apply hoare_ret; intros s _ d Hd; by rewrite Hkept in Hd]. destruct (negb (Regular st)); [by apply hoare_fail|].
    eapply hoare_weaken; [by apply (hoare_settle_file rec st c0)|done..]. }
  intros [record unknown]. set (P := λ s : st, kept_at rec (w_fs c0.1) (bool_decide (is_Some kept) && record) (w_fs (s_w s))).
  eapply hoare_weaken; [apply (hoare_db_write P (settleTx rec v kept record unknown) (λ t, no_intent rec t ∧
    (bool_decide (is_Some kept) && record = true → ∃ r, r ∈ t ∧ retains rec r)))|done| |done].
  - intros s s' [= Hw _]. unfold P. by rewrite Hw.
  - intros now t t' Ht E. split_and!; [by eapply known_settle|by eapply settleTx_clears|]. destruct kept as [st|]; [|done]. destruct record; [|done].
    intros _. by eapply settleTx_records.
  - intros u s _ [[Hno Hrow] (s0 & HP & Hw & _)]. split; [done|]. intros d Hd. rewrite Hw. destruct (HP d Hd) as [?|[? E]]; [by left|right]. by split; [|apply Hrow].
Qed.

Lemma pres_settling {R} `{!Frame R} m n : pres R m → pres R (settling m n).
Proof. intros Hm. unfold settling. walk. Qed.
Lemma ok_sweep_batch jobID jobDir batch n : (∀ it, it ∈ batch → known (i_RelPath it)) → pres anything (sweep_batch lo jobID jobDir batch n).
Proof.
  revert n. induction batch as [|it batch IH]; intros n Hb; simpl; [walk|].
  apply pres_bind; [apply pres_settling, ok_sweepItem, Hb; by left|]. intros n'. apply IH. intros j Hj. apply Hb. by right.
Qed.
Lemma ok_sweep_job fuel jobID jobDir after n : pres anything (sweep_job lo fuel jobID jobDir after n).
Proof.
  revert after n. induction fuel as [|fuel IH]; intros after n; simpl; [walk|]. apply pres_bind; [walk|]. intros _. destruct (last _) as [l|]; [|walk].
  apply pres_bind; [apply ok_sweep_batch|intros; apply IH]. intros it Hit. unfold pending in Hit. apply subseteq_take in Hit.
  apply filter_bool_elem in Hit as [Hit _]. by eapply lo_known.
Qed.
Lemma ok_sweep_dirs ownDir entries n : pres anything (sweep_dirs lo ownDir entries n).
Proof.
  revert n. induction entries as [|[name is_d] entries IH]; intros n; [apply pres_ret|]. cbn [sweep_dirs]. cbv zeta. destruct (_ || _); [apply IH|].
  destruct (job_of_dir name); [|apply IH]. apply pres_bind; [apply ok_sweep_job|intros; apply IH].
Qed.
Lemma ok_sweep ownDir : pres anything (sweep lo ownDir).
Proof. pose proof ok_sweep_dirs. unfold sweep. walk. Qed.
Lemma ok_settle_all ownDir recs n : recs_known recs → pres anything (settle_all ownDir recs n).
Proof.
  revert n. induction recs as [|rec recs IH]; intros n Hr; simpl; [walk|]. assert (recs_known recs) by (intros r Hin; apply Hr; by right).
  destruct (own_intent ownDir rec); [by apply IH|]. apply pres_bind; [|intros; by apply IH]. apply pres_settling, ok_settle, Hr. by left.
Qed.
Lemma ok_reconcile ownDir : pres anything (reconcile lo ownDir).
Proof.
  unfold reconcile. apply pres_bind; [apply ok_sweep|]. intros n. apply pres_bind_records. intros t Ht. apply ok_settle_all.
  intros r Hr. apply filter_bool_elem in Hr as [Hr _]. by apply Ht.
Qed.

(** *** What happens to the records *)

(** Programs that change the records by [R]. *)
Section rows_by.
Context {R : relation records} `{!PreOrder R}.
Definition recs_by {A} (m : X A) : Prop := ∀ s, R (w_recs (s_w s)) (w_recs (s_w (m s).2)).
Lemma by_leaves {A} (m : X A) : leaves_recs m → recs_by m.
Proof. intros Hm s. by rewrite Hm. Qed.
Lemma by_bind {A B} (m : X A) (k : A → X B) : recs_by m → (∀ a, recs_by (k a)) → recs_by (xbind m k).
Proof. intros Hm Hk s. specialize (Hm s). unfold xbind. destruct (m s) as [[a|e] s']; simpl in *; [|done]. etrans; [done|apply Hk]. Qed.
Lemma by_db_write f : (∀ now t t', f now t = Ok t' → R t t') → recs_by (db_write f).
Proof.
  intros Hf s. unfold db_write, db_ok, xbind. simpl. destruct (e_db the_env _); simpl; [reflexivity|].
  destruct (f _ _) as [t'|e] eqn:E; simpl; [by eapply Hf|reflexivity].
Qed.
Lemma by_settle rec v : (∀ kept record unknown now t t', settleTx rec v kept record unknown now t = Ok t' → R t t') → recs_by (settle rec v).
Proof.
  intros HR. unfold settle. cbv zeta. apply by_bind; [apply by_leaves, leaves_reader, reader_lstat|]. intros kept. apply by_bind.
  - apply by_leaves. destruct kept as [st|]; [|done]. destruct (negb (Regular st)); [done|apply leaves_settle_file].
  - intros [record unknown]. apply by_db_write. intros now t t'. apply HR.
Qed.
Lemma by_settling m n : recs_by m → recs_by (settling m n).
Proof.
  intros Hm. unfold settling. apply by_bind; [intros s; rewrite xtry_state; apply Hm|]. intros [u|e]; [apply by_leaves; done|].
  apply by_bind; [apply by_leaves; done|]. intros stop. apply by_leaves. by destruct (stop || _).
Qed.
Lemma by_settle_all ownDir recs n : (∀ rec, rec ∈ recs → recs_by (settle rec None)) → recs_by (settle_all ownDir recs n).
Proof.
  revert n. induction recs as [|rec recs IH]; intros n Hr; simpl; [by apply by_leaves|].
  assert (∀ n, recs_by (settle_all ownDir recs n)) by (intros k; apply IH; intros r Hin; apply Hr; by right).
  destruct (own_intent ownDir rec); [done|]. apply by_bind; [apply by_settling, Hr; by left|done].
Qed.
End rows_by.
#[local] Arguments recs_by R {A} m.

(** The ids of the rows stay unique. *)
Lemma ids_retained rec t t' : insertRetained rec t = Ok t' → ids_kept t t'.
Proof. unfold insertRetained. destruct (retainedExists rec t); [by intros [= <-]|apply ids_insert]. Qed.
Lemma ids_settleTx rec v kept record unknown now t t' : settleTx rec v kept record unknown now t = Ok t' → ids_kept t t'.
Proof.
  unfold settleTx. cbv zeta. rewrite rbind_ok. intros (u & Hu & [= <-]). etrans; [|apply ids_fmap; intros r; by destruct (_ && _ && live r)].
  trans (if unknown then mark_unknown (fr_ID rec) (fr_RetainedPath rec) t else t).
  { destruct unknown; [apply ids_fmap; intros r; by destruct (_ && _ && mem _ _)|reflexivity]. }
  destruct kept as [st|]; [destruct record|]; [|by injection Hu as <-..]. by eapply ids_retained.
Qed.
Lemma ids_release cur t : ids_kept t (releaseDependents cur t).
Proof. unfold releaseDependents. case_bool_decide; [reflexivity|]. apply ids_fmap. intros r. by destruct (releases cur r). Qed.
Lemma ids_finishTx jobID it now t t' : finishTx jobID it now t = Ok t' → ids_kept t t'.
Proof.
  unfold finishTx. destruct (liveAt _ _ t) as [cur|] eqn:E; [|by intros [= <-]]. destruct (_ && _); [|by intros [= <-]].
  unfold placedTx. rewrite rbind_ok. intros (u & Hu & Hr). trans u.
  - change (x_dest (@the_run (as_job jobID))) with (x_dest c) in Hu. rewrite E in Hu. destruct (_ =? _); [|done]. apply ids_update in Hu.
    etrans; [|exact Hu]. etrans; [|apply ids_release].
    destruct (bool_decide (fr_State cur = StateMissing)); [|reflexivity]. apply ids_fmap. intros r. unfold lose_link. by destruct (_ && _ && _ && _).
  - destruct (_ || _); [by injection Hr as <-|]. by eapply ids_retained.
Qed.
Lemma reader_fixer_lstat rel : reader (fixer_lstat rel).
Proof. apply reader_bind; [apply reader_try, reader_Lstat|]. intros [st|e]; [done|]. by destruct (not_exist e). Qed.
Lemma ids_sweepItem jobID jobDir it : recs_by ids_kept (sweepItem lo jobID jobDir it).
Proof.
  unfold sweepItem. cbv zeta. destruct (negb _); [by apply by_leaves|]. apply by_bind; [|intros _; apply by_bind; [|intros _]].
  - unfold sweep_displaced. cbv zeta. destruct (_ && _); [|by apply by_leaves]. apply by_bind; [apply by_leaves, leaves_reader, reader_fixer_lstat|].
    intros [st|]; [|by apply by_leaves]. destruct (Regular st); [|by apply by_leaves]. apply by_bind; [by apply by_leaves|]. intros b.
    apply by_db_write. intros now t t'. apply ids_retained.
  - destruct (_ && _ && _); [|by apply by_leaves]. unfold finishPlaced. cbv zeta. apply by_bind; [apply by_leaves, leaves_reader, reader_fixer_lstat|].
    intros temp. case_bool_decide; [by apply by_leaves|]. apply by_bind; [apply by_leaves, leaves_reader, reader_fixer_lstat|].
    intros [fin|]; [|by apply by_leaves]. destruct (_ || _ || _); [by apply by_leaves|]. apply by_bind; [apply by_leaves, leaves_reader, reader_fixer_lstat|].
    intros [r|]; [|by apply by_leaves]. apply by_bind; [apply by_leaves, leaves_reader, reader_sameDestFile|]. intros []; [by apply by_leaves|].
    apply by_db_write. intros now t t'. apply ids_finishTx.
  - destruct (negb _); [|by apply by_leaves]. apply by_leaves, leaves_CleanupTemp.
Qed.
Lemma ids_reconcile ownDir : recs_by ids_kept (reconcile lo ownDir).
Proof.
  assert (Hb : ∀ jobID jobDir batch n, recs_by ids_kept (sweep_batch lo jobID jobDir batch n)).
  { intros jobID jobDir batch. induction batch as [|it batch IH]; intros n; simpl; [by apply by_leaves|]. apply by_bind; [apply by_settling, ids_sweepItem|done]. }
  assert (Hj : ∀ fuel jobID jobDir after n, recs_by ids_kept (sweep_job lo fuel jobID jobDir after n)).
  { intros fuel jobID jobDir. induction fuel as [|fuel IH]; intros after n; simpl; [by apply by_leaves|].
    apply by_bind; [apply by_leaves, leaves_reader, reader_bind; [done|by intros []]|]. intros _. destruct (last _); [|by apply by_leaves]. by apply by_bind. }
  unfold reconcile. apply by_bind.
  - unfold sweep. apply by_bind; [apply by_leaves, leaves_try, leaves_reader, reader_fs_read|]. intros [entries|e]; [|apply by_leaves; by repeat case_match].
    generalize (lo_order lo entries) 0. intros es. induction es as [|[name is_d] es IH]; intros n; [by apply by_leaves|]. cbn [sweep_dirs]. cbv zeta.
    destruct (_ || _); [done|]. destruct (job_of_dir name); [by apply by_bind|done].
  - intros n. apply by_bind; [apply by_leaves, leaves_reader, reader_db_read|]. intros recs. apply by_settle_all. intros rec _.
    apply by_settle. intros kept record unknown now t t'. apply ids_settleTx.
Qed.

(** *** No intent is left *)

#[local] Abbreviation intent := (is_intent (x_dest c)).
(** No new intents appear. *)
Definition fewer (t t' : records) : Prop :=
  ∀ r', r' ∈ t' → intent r' = true → ∃ r, r ∈ t ∧ intent r = true ∧ fr_ID r = fr_ID r' ∧ fr_RetainedPath r = fr_RetainedPath r'.
#[local] Instance fewer_preorder : PreOrder fewer.
Proof.
  split; [by intros t r Hr Hi; exists r|]. intros t u v H1 H2 r Hr Hi. destruct (H2 r Hr Hi) as (q & Hq & Hqi & E1 & E2).
  destruct (H1 q Hq Hqi) as (p & Hp & Hpi & E3 & E4). exists p. split_and!; [done|done|congruence..].
Qed.
Lemma fewer_map g t : (∀ r, intent (g r) = true → intent r = true ∧ fr_ID (g r) = fr_ID r ∧ fr_RetainedPath (g r) = fr_RetainedPath r) → fewer t (g <$> t).
Proof. intros Hg r' Hr Hi. apply list_elem_of_fmap in Hr as (r & -> & Hr). destruct (Hg r Hi) as (H1 & H2 & H3). by exists r. Qed.
Lemma fewer_mark id p t : fewer t (mark_unknown id p t).
Proof.
  apply fewer_map. intros r. destruct (_ && _ && _) eqn:E; [|done]. apply andb_true_iff in E as [_ E]. unfold is_intent, live. simpl. unfold mem in E.
  apply bool_decide_eq_true in E. rewrite !elem_of_cons in E. destruct E as [-> |[-> |E]]; [done..|by apply elem_of_nil in E].
Qed.
Lemma fewer_clear id p t : fewer t (clearIntentTx id p t).
Proof. apply fewer_map. intros r. destruct (_ && _ && live r); [|done]. unfold is_intent. simpl. by rewrite andb_false_r. Qed.
Lemma fewer_retained rec t t' : insertRetained rec t = Ok t' → live rec = false → fewer t t'.
Proof.
  unfold insertRetained. destruct (retainedExists rec t); [by intros [= <-]|]. unfold insertRecord. destruct (row_error _ _); intros [= <-] Hl.
  intros r Hr Hi. apply elem_of_app in Hr as [Hr|Hr]; [by exists r|].
  apply list_elem_of_singleton in Hr as ->. unfold is_intent, live in *. simpl in Hi. by rewrite Hl, andb_false_r in Hi.
Qed.
Lemma fewer_settleTx rec v kept record unknown now t t' : settleTx rec v kept record unknown now t = Ok t' → fewer t t'.
Proof.
  unfold settleTx. cbv zeta. rewrite rbind_ok. intros (u & Hu & [= <-]). etrans; [|apply fewer_clear].
  trans (if unknown then mark_unknown (fr_ID rec) (fr_RetainedPath rec) t else t); [destruct unknown; [apply fewer_mark|reflexivity]|].
  destruct kept as [st|]; [destruct record|]; [|by injection Hu as <-..]. by eapply fewer_retained.
Qed.

(** The warnings count what failed. *)
Definition counting (n : Z) (m : X Z) : Prop := ∀ s k, (m s).1 = Ok k → n ≤ k.
Lemma counting_bind n (m : X Z) (k : Z → X Z) : counting n m → (∀ j, n ≤ j → counting j (k j)) → counting n (xbind m k).
Proof.
  intros Hm Hk s z. unfold xbind. specialize (Hm s). destruct (m s) as [[j|e] s'] eqn:E; [|done]. intros Hz. specialize (Hm j eq_refl).
  etrans; [done|]. by eapply Hk.
Qed.
Lemma counting_ret n : counting n (xret n).
Proof. by intros s k [= <-]. Qed.
Lemma settling_says m n s k : (settling m n s).1 = Ok k → n ≤ k ∧ (k = n → (m s).1 = Ok tt ∧ (settling m n s).2 = (m s).2).
Proof.
  unfold settling, xbind, xtry. destruct (m s) as [[[]|e] s1]; simpl; [by intros [= <-]|]. destruct (_ || _); simpl; [done|]. intros [= <-]. lia.
Qed.
Lemma counting_settling m n : counting n (settling m n).
Proof. intros s k Hk. by apply settling_says in Hk as [? _]. Qed.
Lemma counting_sweep_batch jobID jobDir batch n : counting n (sweep_batch lo jobID jobDir batch n).
Proof. revert n. induction batch as [|it batch IH]; intros n; [apply counting_ret|]. apply counting_bind; [apply counting_settling|]. intros j _. apply IH. Qed.
Lemma counting_sweep_job fuel jobID jobDir after n : counting n (sweep_job lo fuel jobID jobDir after n).
Proof.
  revert after n. induction fuel as [|fuel IH]; intros after n; [apply counting_ret|]. simpl. intros s k. unfold xbind at 1.
  destruct (db_ok s) as [[u|e] s']; [|done]. destruct (last _) as [l|]; [|apply counting_ret]. apply counting_bind; [apply counting_sweep_batch|]. intros j _. apply IH.
Qed.
Lemma counting_sweep_dirs ownDir entries n : counting n (sweep_dirs lo ownDir entries n).
Proof.
  revert n. induction entries as [|[name is_d] entries IH]; intros n; [apply counting_ret|]. cbn [sweep_dirs]. cbv zeta. destruct (_ || _); [apply IH|].
  destruct (job_of_dir name); [|apply IH]. apply counting_bind; [apply counting_sweep_job|]. intros j _. apply IH.
Qed.
Lemma counting_sweep ownDir : counting 0 (sweep lo ownDir).
Proof.
  intros s k. unfold sweep, xbind. destruct (xtry _ s) as [[[entries|e]|e] s']; simpl; [apply counting_sweep_dirs|by repeat case_match; intros [= <-]|done].
Qed.

(** The intent of [rec] is gone. *)
Definition gone (rec : FileRecord) (t : records) : Prop := ∀ r, r ∈ t → intent r = true → ¬ (fr_ID r = fr_ID rec ∧ fr_RetainedPath r = fr_RetainedPath rec).
Lemma gone_fewer rec t t' : gone rec t → fewer t t' → gone rec t'.
Proof. intros Hg Hf r Hr Hi [E1 E2]. destruct (Hf r Hr Hi) as (q & Hq & Hqi & E3 & E4). eapply Hg; [exact Hq|done|]. split; congruence. Qed.
Lemma fewer_settle_all ownDir recs n : recs_by fewer (settle_all ownDir recs n).
Proof. apply by_settle_all. intros rec _. apply by_settle. intros kept record unknown now t t'. apply fewer_settleTx. Qed.
Lemma settle_all_says ownDir recs n s k : Inv s → recs_known recs → (∀ r, r ∈ recs → intent r = true) → (settle_all ownDir recs n s).1 = Ok k →
  n ≤ k ∧ (k = n → ∀ rec, rec ∈ recs → own_intent ownDir rec = false → gone rec (w_recs (s_w (settle_all ownDir recs n s).2))).
Proof.
  revert n s. induction recs as [|rec recs IH]; intros n s Hs Hk Hi; simpl; [intros [= <-]; split; [done|by intros _ r Hr%elem_of_nil]|].
  assert (Hk' : recs_known recs) by (intros r Hr; apply Hk; by right). assert (Hi' : ∀ r, r ∈ recs → intent r = true) by (intros r Hr; apply Hi; by right).
  destruct (own_intent ownDir rec) eqn:Eo.
  { intros Hr. destruct (IH n s Hs Hk' Hi' Hr) as [H1 H2]. split; [done|]. intros E r [->|Hin]%elem_of_cons Hown; [congruence|by apply H2]. }
  unfold xbind. pose proof (settling_says (settle rec None) n s) as Hset. destruct (pres_settling (R := anything) (settle rec None) n (ok_settle rec None (Hk rec (list_elem_of_here _ _))) s Hs) as [Hs1 _].
  destruct (settling (settle rec None) n s) as [[j|e] s1]; simpl in *; [|done]. destruct (Hset j eq_refl) as [Hj Hj'].
  intros Hr. destruct (IH j s1 Hs1 Hk' Hi' Hr) as [H1 H2]. split; [lia|]. intros -> r [->|Hin]%elem_of_cons Hown; [|apply H2; [lia|done..]].
  assert (j = n) as -> by lia. destruct (Hj' eq_refl) as [Hok ->].
  eapply gone_fewer; [|apply fewer_settle_all].
  assert (intent rec = true) as Hir by (apply Hi; by left). unfold is_intent in Hir. apply andb_true_iff in Hir as [_ Hne%negb_true_iff%bool_decide_eq_false].
  destruct (hoare_settle rec None (core s) (Hk rec (list_elem_of_here _ _)) Hne s Hs eq_refl) as [_ Hd].
  destruct (settle rec None s) as [[[]|e] s1]; simpl in *; [|done]. destruct Hd as [Hno _].
  intros q Hq Hqi [E1 E2]. specialize (Hno q Hq E1 E2). unfold is_intent in Hqi. by rewrite Hno, andb_false_r in Hqi.
Qed.
Lemma reconcile_intents ownDir s s' : Inv s → reconcile lo ownDir s = (Ok 0, s') →
  ∀ r, r ∈ w_recs (s_w s') → intent r = true → own_intent ownDir r = true.
Proof.
  intros Hs. unfold reconcile, xbind. destruct (ok_sweep ownDir s Hs) as [Hs1 _]. pose proof (counting_sweep ownDir s) as Hc.
  destruct (sweep lo ownDir s) as [[n|e] s1]; [|done]. specialize (Hc n eq_refl). simpl in *. destruct (reader_db_read (intents (x_dest c)) s1) as [Hcore Hpast].
  pose proof (db_read_says (intents (x_dest c)) s1) as Hsays. destruct (pres_db_read (R := anything) (intents (x_dest c)) s1 Hs1) as [Hs2 _].
  destruct (db_read _ s1) as [[recs|e] s2]; [|done]. specialize (Hsays recs eq_refl). simpl in *. injection Hcore as Hw Hd.
  assert (Hin : ∀ r, r ∈ recs ↔ r ∈ w_recs (s_w s2) ∧ intent r = true) by (intros r; rewrite Hsays, Hw; apply filter_bool_elem).
  intros Hr r Hrin Hri. pose proof (settle_all_says ownDir recs n s2 0 Hs2) as Hall. rewrite Hr in Hall. destruct Hall as [Hn Hall]; [|by intros q [_ ?]%Hin|done|].
  { intros q [Hq _]%Hin. by apply (inv_recs _ Hs2). }
  destruct (fewer_settle_all ownDir recs n s2 r) as (q & Hq & Hqi & E1 & E2); [by rewrite Hr|done|].
  destruct (own_intent ownDir q) eqn:Eo; [unfold own_intent in *; by rewrite <-E2|]. exfalso.
  eapply (Hall ltac:(lia) q); [by apply Hin|done|exact Hrin|done|by split].
Qed.
End sweep.
End safe.

(** ** From one run to the next

    What is good depends on the files a job began with, the retention directory and how
    names are told apart, not on the rest of a run or its environment. *)
Record same_place (H H' : Exec) : Prop := mkSamePlace {
  sp_sha : @sha H = @sha H';
  sp_dir : x_retentionDir (@the_run H) = x_retentionDir (@the_run H');
  sp_inodes : InodeIdentity (x_caps (@the_run H)) = InodeIdentity (x_caps (@the_run H'));
}.
Section next_run.
Context (H H' : Exec) (same : same_place H H').
Lemma detail_of d : detail_ok (H := H) d → detail_ok (H := H') d.
Proof. destruct same as [_ E _]. unfold detail_ok, retention_name. by rewrite E. Qed.
Lemma good_of w0 w1 known has_dir w : w_fs w0 = w_fs w1 → good (H := H) w0 known has_dir w → good (H := H') w1 known has_dir w.
Proof.
  destruct same as [Esha Edir Eid]. intros Ef [Hf Hk Hr Hi]. split; [done| |done|].
  - intros p d Hp Hd. rewrite <-Ef in Hd. destruct (Hk p d Hp Hd) as (p' & d' & Hl & Hp' & Hd' & Hs). exists p', d'. split_and!; [|done|done|].
    + destruct Hl as [?|[[? Hl]|?]]; [by left|right; left|by right; right]. split; [done|]. unfold retention_name in *. by rewrite <-Edir.
    + destruct Hs as [->|[? ?]]; [by left|right; by rewrite <-Eid, <-Esha].
  - intros i Hin Hst. destruct (Hi i Hin Hst). split; [done|by apply detail_of].
Qed.
End next_run.
(** A run begins in a good world, whatever its items are. *)
Lemma exec_begin `{Exec} w0 known has_dir w n d : good w0 known has_dir w → detail_ok d →
  Inv (with_items (w_items w) w0) known has_dir (mkSt w [] n d).
Proof. intros Hg Hd. split; [by eapply good_of; [..|exact Hg]|constructor|done|done]. Qed.
