(* ===== verification/SyncExecSafe.v ===== *)
(** * SyncExecSafe: settling and executing a sync loses nothing

    The theorems of a sync job's work on a destination, from the specifications of
    ExecLogic: no content is ever lost, what a done copy leaves, the loop over the items
    ends, and what an unreadable source does. *)
From stdpp Require Import base gmap list strings.
From S2P Require Import Prelude GoStrings DestNames Tiers SyncPlan DestFS FileRecords SyncExec SyncSweep ExecLogic.
Open Scope string_scope.
Open Scope Z_scope.

(** ** Nothing is lost *)

Definition no_detail : ItemDetail :=
  mkItemDetail (mkDetail 0 "" 0 0 "" 0 0 "" "" "" 0 ForNone RNone false None 0 "" []) "" false 0 0 "" "" 0 0 "" NoReason "" 0 0 None NoCheck "" NoReason.
(** A run begins. *)
Definition start (w : world) : st := mkSt w [] 0 no_detail.

(** The work of an attempt whose items are planned: what stopped jobs left is settled, then
    the items run. [worlds]: the worlds it goes through; the process may die in any of them. *)
Definition attempt `{Exec} (lo : leftovers) (recheckEvery : Z) : X unit :=
  let! _ := reconcile lo (x_retentionDir the_run) in execute recheckEvery.
Definition worlds `{Exec} (lo : leftovers) (recheckEvery : Z) (w : world) : list world :=
  let s := (attempt lo recheckEvery (start w)).2 in s_w s :: s_past s.

(** The paths of the items (of this job and of the stopped ones) and of the records. *)
Definition known (stopped : list item) (w : world) (p : string) : Prop :=
  p ∈ i_RelPath <$> stopped ∨ p ∈ i_RelPath <$> w_items w ∨ p ∈ fr_RelPath <$> w_recs w.

(** What a run finds: files, items and records as the planner leaves them. *)
Record world_ok `{Exec} (stopped : list item) (w : world) : Prop := mkWorldOk {
  wo_fs : fs_ok (w_fs w);
  wo_mirror : ∀ p, known stopped w p → mirror p;
  wo_details : ∀ i, i ∈ w_items w → detail_ok (i_Detail i);
}.

Lemma ok_attempt `{Exec} lo recheckEvery w0 K (has_dir : Prop) : (∀ p, K p → mirror p) → retention_dir (x_retentionDir the_run) → has_dir →
  CaseInsensitive (x_caps the_run) = false → (∀ job i, i ∈ lo_items lo job → K (i_RelPath i)) → pres w0 K has_dir anything (attempt lo recheckEvery).
Proof. intros Hm Hdir Hd Hcase Hl. apply pres_bind; [apply _|by apply ok_reconcile|]. intros _. by apply ok_execute. Qed.

Section attempts.
Context (fold : Z → Z) (hash : string → string) (r : run) (recheckEvery : Z) (stopped : list item).
#[local] Abbreviation at_env en := (mkExec fold hash r en).
Definition left_by (lo : leftovers) : Prop := ∀ job i, i ∈ lo_items lo job → i ∈ stopped.

(** Attempts at a job, each in an environment of its own, each ended by a crash, an error
    or the end of its items. *)
Inductive attempts (w : world) : world → Prop :=
| attempts_none : attempts w w
| attempts_more w1 w2 en lo : attempts w w1 → left_by lo → w2 ∈ worlds (H := at_env en) lo recheckEvery w1 → attempts w w2.

Lemma good_start en w : world_ok (H := at_env en) stopped w → good (H := at_env en) w (known stopped w) True w.
Proof.
  intros [Hf Hm Hd]. split; [done|by apply kept_keeps| |].
  - intros q Hq. right. right. by apply list_elem_of_fmap_2.
  - intros i Hi. split; [right; left; by apply list_elem_of_fmap_2|by apply Hd].
Qed.

Lemma attempts_good en w w' : retention_dir (x_retentionDir r) → CaseInsensitive (x_caps r) = false → world_ok (H := at_env en) stopped w →
  attempts w w' → good (H := at_env en) w (known stopped w) True w'.
Proof.
  intros Hdir Hcase Hok Hw. induction Hw as [|w1 w2 en' lo Hw1 IH Hlo Hw2]; [by apply good_start|].
  assert (Hto : ∀ en1 en2, same_place (at_env en1) (at_env en2)) by done.
  pose proof (good_of _ _ (Hto en en') w w _ _ _ eq_refl IH) as Hg.
  pose proof (exec_begin (H := at_env en') w (known stopped w) True w1 0 no_detail Hg (conj (or_introl eq_refl) (or_introl eq_refl))) as Hs.
  assert (Hl : ∀ job i, i ∈ lo_items lo job → known stopped w (i_RelPath i)) by (intros job i Hi; left; by eapply list_elem_of_fmap_2, Hlo).
  pose proof (wo_mirror (H := at_env en) _ _ Hok) as Hm.
  destruct (ok_attempt (H := at_env en') lo recheckEvery (with_items (w_items w1) w) (known stopped w) True Hm Hdir I Hcase Hl _ Hs) as [[Hg' Hp _ _] _].
  assert (good (H := at_env en') (with_items (w_items w1) w) (known stopped w) True w2) as Hw.
  { unfold worlds in Hw2. apply elem_of_cons in Hw2 as [->|Hin]; [exact Hg'|]. rewrite Forall_forall in Hp. exact (Hp _ Hin). }
  exact (good_of _ _ (Hto en' en) (with_items (w_items w1) w) w _ _ _ eq_refl Hw).
Qed.
End attempts.

(** However often a sync job is tried (each time settling what stopped jobs left, then
    running its items), and whatever fails or kills the process on the way, after every change
    it makes every content that was at the destination under a name that is no temp file's is
    still there: under the same name, under a name in the run's retention directory, or at the
    mirror path of an item or a record. (Content is compared
    by SHA-256 where inode numbers do not identify files; the destination tells cases
    apart.) *)
Theorem nothing_lost fold hash r recheckEvery stopped en w w' p d :
  let H := mkExec fold hash r en in
  retention_dir (x_retentionDir r) → CaseInsensitive (x_caps r) = false → world_ok stopped w → attempts fold hash r recheckEvery stopped w w' →
  plain p → data_at (w_fs w) p = Some d →
  ∃ p' d', (p' = p ∨ retention_name p' ∨ known stopped w p') ∧ data_at (w_fs w') p' = Some d' ∧ same_content d d'.
Proof.
  intros H Hdir Hcase Hok Hw Hp Hd. destruct (attempts_good _ _ _ _ _ en _ _ Hdir Hcase Hok Hw) as [_ Hk _ _].
  destruct (Hk p d Hp Hd) as (p' & d' & Hl & _ & Hd' & Hsame). exists p', d'. split_and!; [unfold may_move_to in Hl; tauto|done..].
Qed.

(** C6: When the copy of an item succeeds, whatever earlier attempts left behind and however
    the environment behaved, the path has a record of the item's source and file, and the
    file at the destination has the recorded size; the recorded hash, if any, is the
    SHA-256 of that file, unless it was computed by an earlier attempt (which had finished
    the temp file) or the record is the one the run started with. *)
Theorem done_copy_recorded fold hash r en w it n s :
  let H := mkExec fold hash r en in
  let d := i_Detail it in
  retention_dir (x_retentionDir r) → world_ok [] w → it ∈ w_items w → putItem it (mkSt w [] n d) = (Ok tt, s) →
  ∃ rec data, liveAt (x_dest r) (i_RelPath it) (w_recs (s_w s)) = Some rec ∧ fr_State rec = StatePresent ∧ fr_SourceID rec = dt_SourceID (xd_plan d) ∧
    data_at (w_fs (s_w s)) (i_RelPath it) = Some data ∧ fr_Size rec = data_size data ∧
    (fr_Hash rec = "" ∨ fr_Hash rec = hash_of data ∨ xd_TempDone d = true ∧ fr_Hash rec = xd_TempHash d ∨
     liveAt (x_dest r) (i_RelPath it) (w_recs w) = Some rec).
Proof.
  intros H d Hdir Hok Hit Hrun. assert (Hs : Inv w (known [] w) True (mkSt w [] n d)) by (split; [by apply good_start|constructor|by apply Hok|done]).
  assert (Hk : known [] w (i_RelPath it)) by (right; left; by apply list_elem_of_fmap_2).
  destruct (hoare_putItem (H := H) w (known [] w) True (wo_mirror _ _ Hok) Hdir I it Hk (w, d) _ Hs eq_refl) as [_ Hr]. rewrite Hrun in Hr. exact Hr.
Qed.

(** The loop over the batches of a phase ends because no item is left, never because of
    the fuel it is given: any fuel above the number of items gives the same result and the
    same changes. *)
Theorem batches_end fold hash r en recheckEvery w actions since n d fuel :
  let H := mkExec fold hash r en in
  retention_dir (x_retentionDir r) → CaseInsensitive (x_caps r) = false → world_ok [] w → detail_ok d → (length (w_items w) < fuel)%nat →
  run_batches recheckEvery fuel actions 0 since (mkSt w [] n d) =
  run_batches recheckEvery (S (length (w_items w))) actions 0 since (mkSt w [] n d).
Proof.
  intros H Hdir Hcase Hok Hd Hf. apply (batches_fuel (H := H) w (known [] w) True (wo_mirror _ _ Hok) Hdir I Hcase).
  - split; [by apply good_start|constructor|done|done].
  - pose proof (List.filter_length_le (Z.ltb 0) (i_ID <$> w_items w)) as Hl. rewrite length_fmap in Hl. unfold ids_after. lia.
Qed.

(** C11: A source file the process may not open: opened to be copied it fails its item only,
    but opened to be hashed (to adopt what is at the destination) the refusal counts as the
    destination's and stops the job. *)
Theorem source_denied_stops fold hash r en src rel st s :
  let H := mkExec fold hash r en in
  checkRel rel = true → e_stat en (s_n s) src rel = Ok st → Regular st = true → e_refuse en (S (s_n s)) = Some RPerm →
  (∃ e, (open_source SideSource src rel s).1 = Err e ∧ Fatal e = false) ∧
  (∃ e, (sideErr SideSource (HashSource src rel) s).1 = Err e ∧ Fatal e = true).
Proof.
  intros H Hrel Hst Hreg Hr. unfold sideErr, HashSource, open_source, src_stat, may_refuse, ask, xbind. rewrite Hrel. simpl. rewrite Hst. simpl.
  rewrite Hreg. simpl. rewrite Hr. simpl. split; by eexists.
Qed.

(** When settling a retention intent succeeds, the intent is gone, and the file that was in
    retention is back at its path or still there with a retained row. *)
Theorem settle_finds_a_place fold hash r en stopped w rec v n d s :
  let H := mkExec fold hash r en in
  world_ok stopped w → detail_ok d → rec ∈ w_recs w → fr_RetainedPath rec ≠ "" →
  settle rec v (mkSt w [] n d) = (Ok tt, s) →
  (∀ q, q ∈ w_recs (s_w s) → fr_ID q = fr_ID rec → fr_RetainedPath q = fr_RetainedPath rec → live q = false) ∧
  (∀ data, data_at (w_fs w) (fr_RetainedPath rec) = Some data →
     data_at (w_fs (s_w s)) (fr_RelPath rec) = Some data ∨
     data_at (w_fs (s_w s)) (fr_RetainedPath rec) = Some data ∧
     ∃ q, q ∈ w_recs (s_w s) ∧ fr_State q = StateRetained ∧ fr_RetainedPath q = fr_RetainedPath rec ∧ fr_DestinationID q = fr_DestinationID rec ∧
       fr_SourceID q = fr_SourceID rec ∧ fr_SourceRelPath q = fr_SourceRelPath rec).
Proof.
  intros H Hok Hd Hrec Hne Hrun. assert (Hs : Inv w (known stopped w) True (mkSt w [] n d)) by (split; [by apply good_start|constructor|done|done]).
  assert (Hk : known stopped w (fr_RelPath rec)) by (right; right; by apply list_elem_of_fmap_2).
  destruct (hoare_settle (H := H) w (known stopped w) True (wo_mirror _ _ Hok) rec v (w, d) Hk Hne _ Hs eq_refl) as [_ Hr].
  rewrite Hrun in Hr. exact Hr.
Qed.

(** C10: A job that settles what stopped jobs left without a warning leaves no retention intent
    at its destination but those of its own retention directory, which its items finish. *)
Theorem reconcile_leaves_no_intent fold hash r en stopped lo ownDir w n d s :
  let H := mkExec fold hash r en in
  world_ok stopped w → left_by stopped lo → detail_ok d →
  reconcile lo ownDir (mkSt w [] n d) = (Ok 0, s) →
  ∀ q, q ∈ w_recs (s_w s) → fr_DestinationID q = x_dest r → live q = true → fr_RetainedPath q ≠ "" →
  ownDir ≠ "" ∧ has_prefix (fr_RetainedPath q) (ownDir +:+ "/") = true.
Proof.
  intros H Hok Hlo Hd Hrun q Hq Hdest Hl Hp.
  assert (Hs : Inv w (known stopped w) True (mkSt w [] n d)) by (split; [by apply good_start|constructor|done|done]).
  assert (Hk : ∀ job i, i ∈ lo_items lo job → known stopped w (i_RelPath i)) by (intros job i Hi; left; by eapply list_elem_of_fmap_2, Hlo).
  assert (Ho : own_intent ownDir q = true).
  { eapply (reconcile_intents (H := H) w (known stopped w) True (wo_mirror _ _ Hok)); [exact Hk|exact Hs|exact Hrun|exact Hq|].
    unfold is_intent. simpl. by rewrite Hdest, Z.eqb_refl, Hl, bool_decide_eq_false_2. }
  unfold own_intent in Ho. apply andb_true_iff in Ho as [Ho%negb_true_iff%bool_decide_eq_false ?]. done.
Qed.

(** A run that updates a file and takes another that vanished to retention. *)
Definition demo_run : run :=
  mkRun 1 7 (mkCapabilities true false false "" false 1 false "ext4" 0 1) (mkSettings AdoptSizeMtime 0 10 100) VerifySample 30 false
    ".bunkarr/retention/20260101T000000Z-job7" true [] {[1 := "m"]} true.
Definition demo_env : env :=
  mkEnv (λ _, None) (λ _, false) (λ _, false) Z.of_nat (λ _, 1) (λ _, 1234) (λ _ _, true)
    (λ _ _ p, if bool_decide (p = "a.mkv") then Ok (mkFStat 3 77 ModeRegular 1 5 1) else Err ENoEnt)
    (λ _ _ _, (["x"; "yz"], None)) (λ _ _ _, false) (λ _ _ _, "") (λ _ _, true).
Definition demo_item (id : Z) (rel source : string) (action : ItemAction) (rec : Z) (why : Reason_) : item :=
  mkItemRow id rel action ItemPending 3
    (mkItemDetail (mkDetail 1 source 3 77 "" rec 2 "" "" "" 0 ForNone why false None 0 "" []) "" false 0 0 "" "" 0 0 "" NoReason "" 0 0 None NoCheck "" NoReason).
Definition demo_record (id : Z) (rel source : string) : FileRecord :=
  mkRecord id 1 1 rel source 3 5 "" 0 StatePresent "" NoReason 3 None None None None.
Definition demo_world : world :=
  mkWorld (mkFS (<["m" := NDir]> (<["m/a.mkv" := NFile 1]> (<["m/b.mkv" := NFile 2]> ∅)))
             (<[1 := mkInode "old" 5]> (<[2 := mkInode "bye" 5]> ∅)) 3)
    [demo_record 1 "m/a.mkv" "a.mkv"; demo_record 2 "m/b.mkv" "b.mkv"]
    [demo_item 11 "m/a.mkv" "a.mkv" ActionUpdate 1 RChanged; demo_item 12 "m/b.mkv" "b.mkv" ActionRetain 2 RVanished] true.
#[local] Abbreviation demo := (mkExec (λ r, r) (λ s, s) demo_run demo_env).
Definition no_leftovers : leftovers := mkLeftovers (λ _, []) (λ l, l) (λ _ _, true).
Definition demo_end : world := s_w (attempt (H := demo) no_leftovers 100 (start demo_world)).2.

Example demo_files :
  data_at (w_fs demo_end) "m/a.mkv" = Some "xyz" ∧
  data_at (w_fs demo_end) ".bunkarr/retention/20260101T000000Z-job7/m/a.mkv" = Some "old" ∧
  data_at (w_fs demo_end) ".bunkarr/retention/20260101T000000Z-job7/m/b.mkv" = Some "bye" ∧
  (λ i, i_Status i) <$> w_items demo_end = [ItemDone; ItemDone].
Proof. split_and!; vm_compute; reflexivity. Qed.

Lemma demo_ok : world_ok (H := demo) [] demo_world.
Proof.
  split.
  - split; [| |done].
    + intros p i. simpl. rewrite !lookup_insert_Some. intros [[_ [=]]|[_ [[_ [= <-]]|[_ [[_ [= <-]]|[_ Hp]]]]]]; [by eexists..|by rewrite lookup_empty in Hp].
    + intros i [x Hx]. revert Hx. simpl. rewrite !lookup_insert_Some. intros [[<- _]|[_ [[<- _]|[_ Hp]]]]; [lia..|by rewrite lookup_empty in Hp].
  - intros p Hp. assert (p = "m/a.mkv" ∨ p = "m/b.mkv") as [->| ->]; [|by repeat split; vm_compute..].
    destruct Hp as [Hp|[Hp|Hp]]; simpl in Hp; [by apply elem_of_nil in Hp|..]; rewrite !elem_of_cons in Hp; destruct Hp as [?|[?|Hp]]; auto; by apply elem_of_nil in Hp.
  - intros i Hi. simpl in Hi. rewrite !elem_of_cons in Hi. destruct Hi as [->|[->|Hi]]; [split; by left..|by apply elem_of_nil in Hi].
Qed.

Lemma nothing_lost_witness :
  ∃ p' d', (p' = "m/a.mkv" ∨ retention_name (H := demo) p' ∨ known [] demo_world p') ∧ data_at (w_fs demo_end) p' = Some d' ∧
    same_content (H := demo) "old" d'.
Proof.
  assert (Hd : retention_dir (x_retentionDir demo_run)) by (split; vm_compute; reflexivity).
  assert (Ha : attempts (λ r, r) (λ s, s) demo_run 100 [] demo_world demo_end).
  { apply (attempts_more _ _ _ _ _ _ demo_world _ demo_env no_leftovers); [apply attempts_none|by intros ? ? ?%elem_of_nil|]. unfold worlds. left. }
  exact (nothing_lost (λ r, r) (λ s, s) demo_run 100 [] demo_env demo_world demo_end "m/a.mkv" "old" Hd eq_refl demo_ok Ha eq_refl eq_refl).
Defined.

Definition demo_update : item := demo_item 11 "m/a.mkv" "a.mkv" ActionUpdate 1 RChanged.
Definition demo_put : result xerr unit * st := putItem (H := demo) demo_update (mkSt demo_world [] 0 (i_Detail demo_update)).
Lemma done_copy_recorded_witness :
  ∃ rec data, liveAt 1 "m/a.mkv" (w_recs (s_w demo_put.2)) = Some rec ∧ fr_State rec = StatePresent ∧ fr_SourceID rec = 1 ∧
    data_at (w_fs (s_w demo_put.2)) "m/a.mkv" = Some data ∧ fr_Size rec = data_size data ∧
    (fr_Hash rec = "" ∨ fr_Hash rec = hash_of (H := demo) data ∨ false = true ∧ fr_Hash rec = "" ∨
     liveAt 1 "m/a.mkv" (w_recs demo_world) = Some rec).
Proof.
  assert (Hd : retention_dir (x_retentionDir demo_run)) by (split; vm_compute; reflexivity).
  assert (Hr : demo_put = (Ok tt, demo_put.2)) by (rewrite (surjective_pairing demo_put) at 1; f_equal; vm_compute; reflexivity).
  assert (Hi : demo_update ∈ w_items demo_world) by left.
  exact (done_copy_recorded (λ r, r) (λ s, s) demo_run demo_env demo_world demo_update 0 demo_put.2 Hd demo_ok Hi Hr).
Defined.

Lemma batches_end_witness :
  run_batches (H := demo) 100 7 [ActionCopy; ActionUpdate; ActionAdopt] 0 0 (start demo_world) =
  run_batches (H := demo) 100 3 [ActionCopy; ActionUpdate; ActionAdopt] 0 0 (start demo_world).
Proof.
  assert (Hd : retention_dir (x_retentionDir demo_run)) by (split; vm_compute; reflexivity).
  assert (Hn : detail_ok (H := demo) no_detail) by (split; by left).
  assert (Hf : (length (w_items demo_world) < 7)%nat) by (simpl; lia).
  exact (batches_end (λ r, r) (λ s, s) demo_run demo_env 100 demo_world [ActionCopy; ActionUpdate; ActionAdopt] 0 0 no_detail 7 Hd eq_refl demo_ok Hn Hf).
Defined.

Definition denying : env :=
  mkEnv (λ n, if bool_decide (n = 1%nat) then Some RPerm else None) (λ _, false) (λ _, false) Z.of_nat (λ _, 1) (λ _, 1234)
    (λ _ _, true) (λ _ _ _, Ok (mkFStat 3 77 ModeRegular 1 5 1)) (λ _ _ _, ([], None)) (λ _ _ _, false) (λ _ _ _, "") (λ _ _, true).
Lemma source_denied_stops_witness :
  let H := mkExec (λ r, r) (λ s, s) demo_run denying in
  (∃ e, (open_source SideSource 1 "a.mkv" (start demo_world)).1 = Err e ∧ Fatal e = false) ∧
  (∃ e, (sideErr SideSource (HashSource 1 "a.mkv") (start demo_world)).1 = Err e ∧ Fatal e = true).
Proof.
  exact (source_denied_stops (λ r, r) (λ s, s) demo_run denying 1 "a.mkv" (mkFStat 3 77 ModeRegular 1 5 1) (start demo_world) eq_refl eq_refl eq_refl eq_refl).
Defined.

(** A stopped job had renamed a file into retention and never recorded it. *)
Definition stale_path : string := ".bunkarr/retention/20250101T000000Z-job3/m/a.mkv".
Definition stale_record : FileRecord := with_intent stale_path ReasonReplaced (demo_record 1 "m/a.mkv" "a.mkv").
Definition stale_world : world :=
  mkWorld (mkFS (<["m" := NDir]> (<[".bunkarr" := NDir]> (<[".bunkarr/retention" := NDir]> (<[".bunkarr/retention/20250101T000000Z-job3" := NDir]>
             (<[".bunkarr/retention/20250101T000000Z-job3/m" := NDir]> (<[stale_path := NFile 1]> ∅))))))
             (<[1 := mkInode "old" 5]> ∅) 2)
    [stale_record] [] true.
Definition stale_end : result xerr Z * st := reconcile (H := demo) no_leftovers (x_retentionDir demo_run) (start stale_world).
Definition settle_end : result xerr unit * st := settle (H := demo) stale_record None (start stale_world).

Example stale_settled :
  (map_to_list (f_tree (w_fs (s_w stale_end.2)))) = [("m/a.mkv", NFile 1); ("m", NDir); (".bunkarr/retention", NDir); (".bunkarr", NDir)] ∧
  w_recs (s_w stale_end.2) = [demo_record 1 "m/a.mkv" "a.mkv"].
Proof. split; vm_compute; reflexivity. Qed.

Lemma stale_ok : world_ok (H := demo) [] stale_world.
Proof.
  split.
  - split; [| |done].
    + intros p i. simpl. rewrite !lookup_insert_Some. intros Hp.
      repeat (destruct Hp as [[_ Hp]|[_ Hp]]; [first [discriminate Hp|injection Hp as <-; by eexists]|]). by rewrite lookup_empty in Hp.
    + intros i [x Hx]. revert Hx. simpl. rewrite lookup_insert_Some. intros [[<- _]|[_ Hp]]; [lia|by rewrite lookup_empty in Hp].
  - intros p Hp. assert (p = "m/a.mkv") as ->; [|by repeat split; vm_compute..].
    destruct Hp as [Hp|[Hp|Hp]]; simpl in Hp; [by apply elem_of_nil in Hp..|]. rewrite !elem_of_cons in Hp. destruct Hp as [?|Hp]; [done|by apply elem_of_nil in Hp].
  - intros i Hi. simpl in Hi. by apply elem_of_nil in Hi.
Qed.

Lemma settle_finds_a_place_witness :
  (∀ q, q ∈ w_recs (s_w settle_end.2) → fr_ID q = 1 → fr_RetainedPath q = stale_path → live q = false) ∧
  (∀ data, data_at (w_fs stale_world) stale_path = Some data →
     data_at (w_fs (s_w settle_end.2)) "m/a.mkv" = Some data ∨
     data_at (w_fs (s_w settle_end.2)) stale_path = Some data ∧
     ∃ q, q ∈ w_recs (s_w settle_end.2) ∧ fr_State q = StateRetained ∧ fr_RetainedPath q = stale_path ∧ fr_DestinationID q = 1 ∧
       fr_SourceID q = 1 ∧ fr_SourceRelPath q = "a.mkv").
Proof.
  assert (Hn : detail_ok (H := demo) no_detail) by (split; by left).
  assert (Hr : settle_end = (Ok tt, settle_end.2)) by (rewrite (surjective_pairing settle_end) at 1; f_equal; vm_compute; reflexivity).
  assert (Hi : stale_record ∈ w_recs stale_world) by left.
  assert (Hne : fr_RetainedPath stale_record ≠ "") by done.
  exact (settle_finds_a_place (λ r, r) (λ s, s) demo_run demo_env [] stale_world stale_record None 0 no_detail settle_end.2 stale_ok Hn Hi Hne Hr).
Defined.

Lemma reconcile_leaves_no_intent_witness :
  stale_end = (Ok 0, stale_end.2) ∧ ∀ q, q ∈ w_recs (s_w stale_end.2) → fr_DestinationID q = 1 → live q = true → fr_RetainedPath q ≠ "" →
  x_retentionDir demo_run ≠ "" ∧ has_prefix (fr_RetainedPath q) (x_retentionDir demo_run +:+ "/") = true.
Proof.
  assert (Hn : detail_ok (H := demo) no_detail) by (split; by left).
  assert (Hl : left_by [] no_leftovers) by (by intros ? ? ?%elem_of_nil).
  assert (Hr : stale_end = (Ok 0, stale_end.2)) by (rewrite (surjective_pairing stale_end) at 1; f_equal; vm_compute; reflexivity).
  split; [exact Hr|].
  exact (reconcile_leaves_no_intent (λ r, r) (λ s, s) demo_run demo_env [] no_leftovers (x_retentionDir demo_run) stale_world 0 no_detail stale_end.2
    stale_ok Hl Hn Hr).
Defined.
