(* ===== verification/WorldLogic.v ===== *)
(** * WorldLogic: programs that keep an invariant of the world

    For jobs that do little to the destination: an invariant that every world a program goes
    through has, with what its result says, and programs that only look. *)
From stdpp Require Import base gmap list strings.
From S2P Require Import Prelude GoStrings DestNames Tiers SyncPlan DestFS FileRecords SyncExec.
Open Scope string_scope.
Open Scope Z_scope.

(** A result of two steps is one of each. *)
Lemma xbind_ok {A B} (m : X A) (k : A → X B) s b s' : xbind m k s = (Ok b, s') → ∃ a s1, m s = (Ok a, s1) ∧ k a s1 = (Ok b, s').
Proof. unfold xbind. destruct (m s) as [[a|e] s1]; [|done]. eauto. Qed.

Section worlds.
Context `{Exec} {Inv_w : world → Prop} {old : list world}.

(** [old]: the worlds from before. *)
Definition Good (s : st) : Prop := Inv_w (s_w s) ∧ Forall (λ w, Inv_w w ∨ w ∈ old) (s_past s).

(** From a good state in the world [w], [m] leads through good worlds to a good state, and
    [Q] holds of its result and its world. *)
Definition sat {A} (w : world) (m : X A) (Q : result xerr A → world → Prop) : Prop :=
  ∀ s, Good s → s_w s = w → Good (m s).2 ∧ Q (m s).1 (s_w (m s).2).
Definition looks {A} (m : X A) : Prop := ∀ s, s_w (m s).2 = s_w s ∧ s_past (m s).2 = s_past s ∧ s_d (m s).2 = s_d s.

Lemma sat_weaken {A} w (m : X A) (Q Q' : result xerr A → world → Prop) : sat w m Q → (∀ r w', Q r w' → Q' r w') → sat w m Q'.
Proof. intros Hm HQ s Hs Hw. destruct (Hm s Hs Hw). auto. Qed.
Lemma sat_ret {A} w (a : A) (Q : result xerr A → world → Prop) : Q (Ok a) w → sat w (xret a) Q.
Proof. by intros HQ s Hs <-. Qed.
Lemma sat_fail {A} w e (Q : result xerr A → world → Prop) : Q (Err e) w → sat w (xfail e) Q.
Proof. by intros HQ s Hs <-. Qed.
Lemma sat_bind {A B} w (m : X A) (k : A → X B) (M : A → world → Prop) Q :
  sat w m (λ r w', match r with Ok a => M a w' | Err e => Q (Err e) w' end) → (∀ a w', M a w' → sat w' (k a) Q) → sat w (xbind m k) Q.
Proof.
  intros Hm Hk s Hs Hw. specialize (Hm s Hs Hw). unfold xbind. destruct (m s) as [[a|e] s']; simpl in *; [|done].
  destruct Hm as [Hs' Ha]. by apply (Hk a _ Ha).
Qed.
(** First a step that only looks: what it says is of [w]. *)
Lemma sat_look {A B} w (m : X A) (k : A → X B) (F : A → Prop) Q : looks m → (∀ s a, s_w s = w → (m s).1 = Ok a → F a) →
  (∀ s e, s_w s = w → (m s).1 = Err e → Q (Err e) w) → (∀ a, F a → sat w (k a) Q) → sat w (xbind m k) Q.
Proof.
  intros Hm HF He Hk s Hs Hw. specialize (He s). destruct (Hm s) as (Hw' & Hp & _). specialize (HF s). assert (Hs' : Good (m s).2) by (unfold Good in *; by rewrite Hw', Hp).
  unfold xbind. destruct (m s) as [[a|e] s']; simpl in *; [|split; [done|rewrite Hw', Hw; by apply He]].
  apply (Hk a (HF a Hw eq_refl)); [done|congruence].
Qed.
Lemma sat_try {A} w (m : X A) Q : sat w m Q → sat w (xtry m) (λ r w', match r with Ok a => Q a w' | Err _ => False end).
Proof. intros Hm s Hs Hw. specialize (Hm s Hs Hw). unfold xtry. by destruct (m s). Qed.

Lemma looks_ret {A} (a : A) : looks (xret a).
Proof. done. Qed.
Lemma looks_fail {A} e : looks (xfail (A := A) e).
Proof. done. Qed.
Lemma looks_ask {A} (f : nat → A) : looks (ask f).
Proof. done. Qed.
Lemma looks_bind {A B} (m : X A) (k : A → X B) : looks m → (∀ a, looks (k a)) → looks (xbind m k).
Proof.
  intros Hm Hk s. specialize (Hm s). unfold xbind. destruct (m s) as [[a|e] s']; simpl in *; [|done].
  destruct (Hk a s') as (E1 & E2 & E3). destruct Hm as (E4 & E5 & E6). by rewrite E1, E2, E3.
Qed.
Lemma looks_try {A} (m : X A) : looks m → looks (xtry m).
Proof. intros Hm s. specialize (Hm s). unfold xtry. by destruct (m s). Qed.
Lemma looks_fs_read {A} sd (op : fs → result errno A) : looks (fs_read sd op).
Proof. intros s. unfold fs_read, may_refuse, xbind. simpl. destruct (e_refuse the_env _); simpl; [done|]. by destruct (op _). Qed.
Lemma looks_db_ok : looks db_ok.
Proof. intros s. unfold db_ok, xbind. simpl. by destruct (e_db the_env _). Qed.
Lemma looks_planned : looks Planned.
Proof. apply looks_bind; [apply looks_db_ok|]. done. Qed.
Lemma looks_db_read {A} (f : records → A) : looks (db_read f).
Proof. apply looks_bind; [apply looks_db_ok|]. done. Qed.
Lemma db_read_ok {A} (f : records → A) s a : (db_read f s).1 = Ok a → a = f (w_recs (s_w s)).
Proof. unfold db_read, db_ok, xbind. simpl. destruct (e_db the_env _); simpl; [done|]. by intros [= <-]. Qed.
Lemma fs_read_says {A} sd (op : fs → result errno A) s a : (fs_read sd op s).1 = Ok a → op (w_fs (s_w s)) = Ok a.
Proof. unfold fs_read, may_refuse, xbind. simpl. destruct (e_refuse the_env _); simpl; [done|]. by destruct (op _); [intros [= <-]|]. Qed.
Lemma sat_any {A} w (m : X A) Q : sat w m Q → sat w m (λ _ _, True).
Proof. intros Hm. by eapply sat_weaken. Qed.
Lemma looks_refuse sd : looks (may_refuse sd).
Proof. intros s. unfold may_refuse, xbind. simpl. by destruct (e_refuse the_env _). Qed.
Lemma sat_good {A} w (m : X A) Q : (Inv_w w → sat w m Q) → sat w m Q.
Proof. intros Hm s Hs Hw. apply Hm; [|done..]. destruct Hs as [Hg _]. by rewrite <-Hw. Qed.
Lemma sat_true {A B} w (m : X A) (k : A → X B) : sat w m (λ _ _, True) → (∀ a w', sat w' (k a) (λ _ _, True)) → sat w (xbind m k) (λ _ _, True).
Proof. intros Hm Hk. eapply (sat_bind _ _ _ (λ _ _, True)); [eapply sat_weaken; [exact Hm|by intros []]|]. intros a w' _. apply Hk. Qed.
Lemma sat_looks {A} w (m : X A) : looks m → sat w m (λ _ _, True).
Proof. intros Hm s [Hg Hp] _. destruct (Hm s) as (E1 & E2 & _). unfold Good. by rewrite E1, E2. Qed.

(** A call of the file system that changes it, and an edit of an open file. *)
Lemma sat_fs_call w sd op (Q : result xerr unit → world → Prop) : (∀ e, Q (Err e) w) →
  (∀ f, Inv_w w → op (w_fs w) = Ok f → Inv_w (with_fs f w) ∧ Q (Ok tt) (with_fs f w)) → sat w (fs_call sd op) Q.
Proof.
  intros He Hf s [Hg Hp] <-. unfold fs_call, may_refuse, xbind. simpl. destruct (e_refuse the_env _); simpl; [by split; [split|apply He]|].
  destruct (op _) as [f|e] eqn:E; simpl; [|by split; [split|apply He]]. destruct (Hf f Hg eq_refl) as [Hg' HQ].
  split; [split; [done|constructor; [by left|done]]|done].
Qed.
Lemma sat_fs_edit w op (Q : result xerr unit → world → Prop) :
  (Inv_w w → Inv_w (with_fs (op (w_fs w)) w) ∧ Q (Ok tt) (with_fs (op (w_fs w)) w)) → sat w (fs_edit op) Q.
Proof. intros Hf s [Hg Hp] <-. destruct (Hf Hg) as [Hg' HQ]. split; [split; [done|constructor; [by left|done]]|done]. Qed.
(** A write of the records, and one of the items. *)
Lemma sat_db_write w f (Q : result xerr unit → world → Prop) : (∀ e, Q (Err e) w) →
  (∀ now t, Inv_w w → f now (w_recs w) = Ok t → Inv_w (with_recs t w) ∧ Q (Ok tt) (with_recs t w)) → sat w (db_write f) Q.
Proof.
  intros He Hf s [Hg Hp] <-. unfold db_write, db_ok, xbind. simpl. destruct (e_db the_env _); simpl; [by split; [split|apply He]|].
  destruct (f _ _) as [t|e] eqn:E; simpl; [|by split; [split|apply He]]. destruct (Hf _ _ Hg E) as [Hg' HQ].
  split; [split; [done|constructor; [by left|done]]|done].
Qed.
Lemma sat_update_item w id g (Q : result xerr unit → world → Prop) : (∀ e, Q (Err e) w) →
  (Inv_w w → Inv_w (with_items (set_item id g (w_items w)) w) ∧ Q (Ok tt) (with_items (set_item id g (w_items w)) w)) → sat w (update_item id g) Q.
Proof.
  intros He Hi s [Hg Hp] <-. unfold update_item, db_ok, xbind. simpl. destruct (e_db the_env _); simpl; [by split; [split|apply He]|].
  destruct (existsb _ _); simpl; [|by split; [split|apply He]]. destruct (Hi Hg) as [Hg' HQ]. split; [split; [done|constructor; [by left|done]]|done].
Qed.
End worlds.
#[global] Arguments Good Inv_w old s : clear implicits.
#[global] Arguments sat Inv_w old {A} w m Q.

(** ** Programs that change the world by a preorder only *)

(** Every world [m] goes through is related to the one it began in; the detail of an item
    at work stays. *)
Definition through (R : relation world) {A} (m : X A) : Prop :=
  ∀ s, R (s_w s) (s_w (m s).2) ∧ (∀ w, w ∈ s_past (m s).2 → w ∈ s_past s ∨ R (s_w s) w) ∧ s_d (m s).2 = s_d s.
Section through.
Context `{Exec} {R : relation world} `{!PreOrder R}.
#[local] Abbreviation through := (through R).
Lemma through_looks {A} (m : X A) : looks m → through m.
Proof. intros Hm s. destruct (Hm s) as (E1 & E2 & E3). rewrite E1, E2, E3. split_and!; [done|auto|done]. Qed.
Lemma through_bind {A B} (m : X A) (k : A → X B) : through m → (∀ a, through (k a)) → through (xbind m k).
Proof.
  intros Hm Hk s. destruct (Hm s) as (E & Hp & Ed). unfold xbind. destruct (m s) as [[a|e] s']; simpl in *; [|done].
  destruct (Hk a s') as (E' & Hp' & Ed'). split_and!; [by etrans| |congruence]. intros w Hw. destruct (Hp' w Hw) as [Hw'|Hw']; [by apply Hp|right; by etrans].
Qed.
Lemma through_try {A} (m : X A) : through m → through (xtry m).
Proof. intros Hm s. specialize (Hm s). unfold xtry. by destruct (m s). Qed.
Lemma through_change (f : world → world) : (∀ w, R w (f w)) → through (db_ok ;! let! w := world_of in change (f w)).
Proof.
  intros Hf. apply through_bind; [apply through_looks, looks_db_ok|]. intros _ s. simpl. split_and!; [apply Hf| |done].
  intros w [->|Hw]%elem_of_cons; [right; apply Hf|by left].
Qed.
Lemma through_update_item id g : (∀ w, R w (with_items (set_item id g (w_items w)) w)) → through (update_item id g).
Proof.
  intros Hf. apply through_bind; [apply through_looks, looks_db_ok|]. intros _ s. unfold xbind. simpl. destruct (existsb _ _); simpl; [|split_and!; [done|auto|done]].
  split_and!; [apply Hf| |done]. intros w [->|Hw]%elem_of_cons; [right; apply Hf|by left].
Qed.
Lemma through_db_write f : (∀ w now t, f now (w_recs w) = Ok t → R w (with_recs t w)) → through (db_write f).
Proof.
  intros Hf. apply through_bind; [by apply through_looks|]. intros now. apply through_bind; [apply through_looks, looks_db_ok|].
  intros _ s. unfold xbind. simpl. destruct (f _ _) as [t|e] eqn:E; simpl; [|split_and!; [done|auto|done]].
  split_and!; [by eapply Hf| |done]. intros w [->|Hw]%elem_of_cons; [right; by eapply Hf|by left].
Qed.
End through.

(** Nothing but items changes. *)
Definition same_files (w w' : world) : Prop := w_fs w' = w_fs w ∧ w_recs w' = w_recs w.
#[export] Instance same_files_preorder : PreOrder same_files.
Proof. split; [by split|]. intros w1 w2 w3 [E1 E2] [E3 E4]. split; congruence. Qed.
