(* ===== verification/SyncRetention.v ===== *)
(** * SyncRetention: expiring retained files ([internal/syncer/retention.go])

    The retention job of one destination: it settles what stopped jobs left (SyncSweep),
    plans one expire item per retained row whose expiry has passed, and runs them. Of the
    copying engine it uses [filecopy.Expire]. The linked sources, the transfer window and
    the irreplaceable flags come from outside. *)
From stdpp Require Import base gmap list strings.
From Stdlib Require Import Ascii.
From S2P Require Import Prelude GoStrings DestNames Tiers SyncPlan DestFS FileRecords SyncExec SyncSweep ExecLogic SyncExecSafe WorldLogic.
Open Scope string_scope.
Open Scope Z_scope.

(** ** [filecopy.Expire] *)

Section expire_file.
Context `{Exec}.

(** [pruneRetention] of the engine: empty directories below the retention directory go. *)
Fixpoint prune_retention (dirs : list string) : X unit :=
  match dirs with
  | [] => xret tt
  | d :: dirs =>
      if negb (has_prefix d (RetentionRoot +:+ "/")) then xret tt
      else
        let! st := xtry (fs_read SideDestination (λ f, os_lstat 0 f d)) in
        match st with
        | Ok st =>
            if bool_decide (fs_Mode st = ModeDir) then
              let! r := xtry (fs_call SideDestination (λ f, os_remove f d)) in
              match r with Ok _ => prune_retention dirs | Err _ => xret tt end
            else xret tt
        | Err _ => xret tt
        end
  end.

(** Every directory on the way must be a real one. *)
Fixpoint real_dirs (dirs : list string) : X unit :=
  match dirs with
  | [] => xret tt
  | d :: dirs =>
      let! st := xtry (fs_read SideDestination (λ f, os_lstat 0 f d)) in
      match st with
      | Ok st => when! negb (bool_decide (fs_Mode st = ModeDir)) fail! XFile SideDestination ErrOutsideRetention ;! real_dirs dirs
      | Err (XFile _ (Errno ENoEnt)) => real_dirs dirs
      | Err e => xfail e
      end
  end.

Definition in_retention (rel : string) : bool :=
  match cut_prefix rel (RetentionRoot +:+ "/") with Some rest => has_byte "/" rest | None => false end.

Definition Expire (rel : string) (wantSize : Z) : X unit :=
  when! negb (checkRel rel) fail! XFile SideDestination ErrInvalidPath ;!
  when! negb (in_retention rel) fail! XFile SideDestination ErrOutsideRetention ;!
  real_dirs (parents rel) ;!
  let! r := xtry (fs_read SideDestination (λ f, os_lstat 0 f rel)) in
  match r with
  | Err (XFile sd (Errno ENoEnt)) => prune_retention (parents rel) ;! xfail (XFile sd (Errno ENoEnt))
  | Err e => xfail e
  | Ok st =>
      when! negb (Regular st) fail! XFile SideDestination ErrNotRegular ;!
      when! negb (fs_Size st =? wantSize) fail! XFile SideDestination ErrMismatch ;!
      fs_call SideDestination (λ f, os_remove f rel) ;!
      prune_retention (parents rel)
  end.
End expire_file.

(** ** The job *)

(** What the job sees of the destination's sources, its window and the tier engine ([None]:
    there is none). *)
Record retention_env := mkRetentionEnv {
  rt_sources : list Z;
  rt_window : nat → bool;
  rt_coverage : option (Z → string → option Z);
}.

Section retention.
Context `{Exec} (lo : leftovers) (rt : retention_env) (planBatch : nat) (recheckEvery : Z).
#[local] Abbreviation c := the_run.
#[local] Abbreviation E := the_env.

Definition linked (sourceID : Z) : bool := negb (sourceID =? 0) && mem sourceID (rt_sources rt).

(** [Expired]: oldest first. *)
Definition has_expired (now : time) (r : FileRecord) : bool :=
  (fr_DestinationID r =? x_dest c) && bool_decide (fr_State r = StateRetained)
  && match fr_ExpiresAt r with Some e => e <=? now | None => false end.
Definition expiry_cmp (a b : FileRecord) : Z :=
  then_cmp (zcmp (default 0 (fr_ExpiresAt a)) (default 0 (fr_ExpiresAt b))) (zcmp (fr_ID a) (fr_ID b)).
Definition Expired (now : time) (t : records) : records := isort expiry_cmp (List.filter (has_expired now) t).

Definition no_plan (src : Z) (rel : string) (size rec : Z) : Detail :=
  mkDetail src rel size 0 "" rec 0 "" "" "" 0 ForNone RNone false None 0 "" [].
Definition expire_item (rec : FileRecord) : item :=
  mkItemRow 0 (fr_RetainedPath rec) ActionExpire ItemPending (fr_Size rec)
    (mkItemDetail (no_plan (fr_SourceID rec) (fr_SourceRelPath rec) (fr_Size rec) (fr_ID rec)) "" false 0 0 "" "" 0 0 "" NoReason "" 0 0 None
       NoCheck (fr_RetainedPath rec) (fr_Reason rec)).

Fixpoint plan_batches (recs : records) (batch : list item) : X unit :=
  match recs with
  | [] => AddItems batch true
  | rec :: recs =>
      let batch := (batch ++ [expire_item rec])%list in
      if (planBatch <=? length batch)%nat && negb (bool_decide (recs = [])) then AddItems batch false ;! plan_batches recs []
      else plan_batches recs batch
  end.
Definition retention_plan (now : time) : X unit :=
  let! all := db_read (Expired now) in
  plan_batches (List.filter (λ r, linked (fr_SourceID r)) all) [].

(** [flagHold]: the coverage is read at the first expiry that asks. *)
Definition flagHold (loaded : bool) (rec : FileRecord) : X (option Z * bool) :=
  match rt_coverage rt with
  | None => xret (None, loaded)
  | Some covered =>
      if fr_SourceID rec =? 0 then xret (None, loaded)
      else (if loaded then xret tt else db_ok) ;! xret (covered (fr_SourceID rec) (fr_SourceRelPath rec), true)
  end.

Definition kept_error (e : xerr) : bool :=
  match e with XFile _ (ErrMismatch | ErrOutsideRetention | ErrNotRegular | ErrInvalidPath) => true | _ => false end.

Definition expire (loaded : bool) (it : item) : X bool :=
  let d := i_Detail it in
  let finish status bytes := FinishItem (i_ID it) status bytes in
  let! rec := db_read (get_record (dt_RecordID (xd_plan d))) in
  match rec with
  | None => finish ItemDone 0 ;! xret loaded
  | Some rec =>
      if negb (bool_decide (fr_State rec = StateRetained)) || negb (bool_decide (fr_RetainedPath rec = xd_RetainedPath d))
         || negb (fr_DestinationID rec =? x_dest c)
      then finish ItemSkipped 0 ;! xret loaded
      else
        let! now := ask (e_now E) in
        if match fr_ExpiresAt rec with Some e => now <? e | None => true end then finish ItemSkipped 0 ;! xret loaded
        else if negb (linked (fr_SourceID rec)) then finish ItemSkipped 0 ;! xret loaded
        else
          let! deps := db_read (dependents (fr_ID rec)) in
          if negb (bool_decide (deps = [])) then finish ItemSkipped 0 ;! xret loaded
          else
            let! (held, loaded) := flagHold loaded rec in
            if bool_decide (is_Some held) then finish ItemHeld 0 ;! xret loaded
            else
              let! r := xtry (Expire (fr_RetainedPath rec) (fr_Size rec)) in
              let gone := db_write (λ _, deleteRecord (fr_ID rec)) ;! finish ItemDone (fr_Size rec) ;! xret loaded in
              match r with
              | Ok _ | Err (XFile _ (Errno ENoEnt)) => gone
              | Err e =>
                  if kept_error e then finish ItemFailed 0 ;! xret loaded
                  else
                    let! stop := ask (e_cancel E) in
                    if stop : bool then xfail XCancelled
                    else if Fatal e then xfail e
                    else finish ItemFailed 0 ;! xret loaded
              end
  end.

(** Between two items cancellation and the window are checked. *)
Fixpoint expire_batch (batch : list item) (since : Z) (loaded : bool) : X (Z * bool) :=
  match batch with
  | [] => xret (since, loaded)
  | it :: batch =>
      let! stop := ask (e_cancel E) in
      when! stop fail! XCancelled ;!
      if negb (bool_decide (i_Action it = ActionExpire)) then expire_batch batch since loaded
      else
        let! open_ := ask (rt_window rt) in
        when! negb open_ fail! XDefer ;!
        let! loaded := expire loaded it in
        let since := since + 1 in
        let! since := (if recheckEvery <=? since then Recheck ;! xret 0 else xret since) in
        expire_batch batch since loaded
  end.
Fixpoint expire_batches (fuel : nat) (after since : Z) (loaded : bool) : X unit :=
  match fuel with
  | O => xret tt
  | S fuel =>
      db_ok ;!
      let! w := world_of in
      match last (pending after (w_items w)) with
      | None => xret tt
      | Some l =>
          let! (since, loaded) := expire_batch (pending after (w_items w)) since loaded in
          expire_batches fuel (i_ID l) since loaded
      end
  end.
Definition retention_execute : X unit :=
  Recheck ;!
  let! w := world_of in
  expire_batches (S (length (w_items w))) 0 0 false.

(** [Run] of one destination. *)
Definition retention_prepare (dryRun : bool) (started : time) : X unit :=
  (if dryRun then xret 0 else reconcile lo "") ;!
  let! planned := Planned in
  (if planned : bool then xret tt else DeleteItems ;! retention_plan started).
Definition retention_run (dryRun : bool) (started : time) : X unit :=
  retention_prepare dryRun started ;!
  (if dryRun then xret tt else retention_execute).
End retention.

(** * What a retention job removes *)

Section expiry.
Context `{Exec} (rt : retention_env) (w0 : world) (old : list world).
#[local] Abbreviation c := the_run.

(** The file [p] with content [d] is one the job may delete: a row of the destination says
    that it is retained, has expired and has that size, its source is linked and no flag
    covers it, and no live row needs its content. *)
Definition expirable (p d : string) : Prop :=
  ∃ rec e k, rec ∈ w_recs w0 ∧ fr_State rec = StateRetained ∧ fr_RetainedPath rec = p ∧ fr_DestinationID rec = x_dest c ∧
    fr_ExpiresAt rec = Some e ∧ e ≤ e_now the_env k ∧ linked rt (fr_SourceID rec) = true ∧
    (∀ covered, rt_coverage rt = Some covered → covered (fr_SourceID rec) (fr_SourceRelPath rec) = None) ∧
    (∀ q, q ∈ w_recs w0 → links_to (fr_ID rec) q = false) ∧ fr_Size rec = data_size d ∧ in_retention p = true.

(** What holds of every world the job goes through, after [w0]. *)
Record expired_to (w : world) : Prop := mkExpiredTo {
  et_fs : fs_ok (w_fs w);
  et_files : ∀ p d, data_at (w_fs w0) p = Some d → data_at (w_fs w) p = Some d ∨ expirable p d;
  et_rows : ∀ r, r ∈ w_recs w → ∃ q, q ∈ w_recs w0 ∧ (r = q ∨ live q = false ∧ r = with_link 0 q);
  et_live : ∀ q, q ∈ w_recs w0 → live q = true → q ∈ w_recs w;
  et_ids : NoDup (fr_ID <$> w_recs w);
  et_gone : ∀ q, q ∈ w_recs w0 → fr_ID q ∈ fr_ID <$> w_recs w ∨ entry (w_fs w) (fr_RetainedPath q) = None;
}.
#[local] Abbreviation Good := (WorldLogic.Good expired_to old).
#[local] Abbreviation sat := (WorldLogic.sat expired_to old).
Lemma looks_real_dirs dirs : looks (real_dirs dirs).
Proof.
  induction dirs as [|d dirs IH]; simpl; [done|]. apply looks_bind; [apply looks_try, looks_fs_read|].
  intros [st|[m|n o|sd [[]| | | | | | |]| |e| |]]; try done. by destruct (negb _).
Qed.


(** *** The steps of an expiry *)

(** Records stay, no name appears. *)
Definition shrunk (w w' : world) : Prop := w_recs w' = w_recs w ∧ ∀ p, entry (w_fs w) p = None → entry (w_fs w') p = None.
#[local] Instance shrunk_preorder : PreOrder shrunk.
Proof. split; [by split|]. intros a b d [E1 H1] [E2 H2]. split; [congruence|auto]. Qed.

Lemma good_remove w p f' : expired_to w → os_remove (w_fs w) p = Ok f' →
  (entry (w_fs w) p = Some NDir ∨ ∀ d, data_at (w_fs w) p = Some d → expirable p d) →
  expired_to (with_fs f' w) ∧ shrunk w (with_fs f' w) ∧ entry f' p = None.
Proof.
  intros [Hok Hf Hr Hl Hi Hg] Hrem Hp. destruct (remove_spec _ _ _ Hrem Hok) as [-> Hok'].
  assert (Hsub : ∀ q, entry (w_fs w) q = None → entry (set_tree (delete p (f_tree (w_fs w))) (w_fs w)) q = None).
  { intros q. unfold entry, set_tree. simpl. rewrite lookup_delete. by case_decide. }
  split_and!; [split; simpl; try done| |].
  - intros q d Hd. destruct (Hf q d Hd) as [Hd'|]; [|by right]. destruct (decide (q = p)) as [->|Hne].
    + destruct Hp as [Hdir|Hexp]; [|right; by apply Hexp]. rewrite data_at_entry, Hdir in Hd'. done.
    + left. rewrite data_at_entry in *. unfold entry, set_tree in *. simpl. by rewrite lookup_delete_ne.
  - intros q Hq. destruct (Hg q Hq) as [?|He]; [by left|right]. by apply Hsub.
  - by split.
  - unfold entry, set_tree. simpl. by rewrite lookup_delete, decide_True.
Qed.
Lemma sat_remove w p : (entry (w_fs w) p = Some NDir ∨ ∀ d, data_at (w_fs w) p = Some d → expirable p d) →
  sat w (fs_call SideDestination (λ f, os_remove f p))
    (λ r w', shrunk w w' ∧ match r with Ok _ | Err (XFile _ (Errno ENoEnt)) => entry (w_fs w') p = None | Err _ => True end).
Proof.
  intros Hp s [Hg Hpast] <-. unfold fs_call, may_refuse, xbind. simpl.
  destruct (e_refuse the_env _) as [[]|]; simpl; [by split; [split|split; [reflexivity|]]..|].
  destruct (os_remove (w_fs (s_w s)) p) as [f'|e] eqn:E; simpl.
  - destruct (good_remove _ _ _ Hg E Hp) as (Hg' & Hsh & Hn). split; [split; [done|constructor; [by left|done]]|by split].
  - split; [by split|split; [reflexivity|]]. destruct e; try done. unfold os_remove, entry in *.
    destruct (f_tree (w_fs (s_w s)) !! p) as [[]|]; try done. by destruct (dir_empty _ _).
Qed.

Lemma sat_prune w dirs : sat w (prune_retention dirs) (λ r w', shrunk w w' ∧ r = Ok tt).
Proof.
  revert w. induction dirs as [|d dirs IH]; intros w; simpl; [by apply sat_ret|]. destruct (negb _); [by apply sat_ret|].
  apply (sat_look _ _ _ (λ r, match r with Ok st => fs_Mode st = ModeDir → entry (w_fs w) d = Some NDir | Err _ => True end)).
  - apply looks_try, looks_fs_read.
  - intros s a <-. unfold xtry. pose proof (fs_read_says SideDestination (λ f, os_lstat 0 f d) s) as Hs.
    destruct (fs_read _ _ s) as [[st|e] s']; intros [= <-]; [|done]. specialize (Hs st eq_refl). unfold os_lstat, entry in *.
    destruct (f_tree _ !! d) as [n|]; [|done]. injection Hs as <-. by destruct n.
  - intros s e _. unfold xtry. by destruct (fs_read _ _ s).
  - intros [st|e] Hst; [|by apply sat_ret]. case_bool_decide as Hd; [|by apply sat_ret].
    apply (sat_bind _ _ _ (λ _ w', shrunk w w')).
    + eapply sat_weaken; [apply sat_try, sat_remove; left; by apply Hst|]. intros [r|e] w'; [by intros [? _]|done].
    + intros [[]|e] w' Hsh; [|by apply sat_ret]. eapply sat_weaken; [apply IH|]. intros r w'' [Hsh' ->]. split; [by etrans|done].
Qed.

Lemma real_dirs_error dirs s sd : (real_dirs dirs s).1 ≠ Err (XFile sd (Errno ENoEnt)).
Proof.
  revert s. induction dirs as [|d dirs IH]; intros s; simpl; [done|]. unfold xbind. destruct (xtry _ s) as [[[st|e]|e] s'] eqn:E.
  - by destruct (negb _).
  - destruct e as [| |? [[]| | | | | | |]| | | |]; done.
  - unfold xtry in E. by destruct (fs_read _ _ s) as [r s1].
Qed.
Lemma lstat_fails f p e : os_lstat 0 f p = Err e → entry f p = None.
Proof. unfold os_lstat, entry. by destruct (f_tree f !! p). Qed.

Lemma sat_Expire w rel size : (∀ d, data_at (w_fs w) rel = Some d → data_size d = size → in_retention rel = true → expirable rel d) →
  sat w (Expire rel size) (λ r w', shrunk w w' ∧ match r with Ok _ | Err (XFile _ (Errno ENoEnt)) => entry (w_fs w') rel = None | Err _ => True end).
Proof.
  intros Hexp. unfold Expire. destruct (negb (checkRel rel)); [by apply sat_fail|]. destruct (in_retention rel) eqn:Ein; [simpl|by apply sat_fail].
  apply (sat_look _ _ _ (λ _, True)); [apply looks_real_dirs|done| |].
  { intros s e _ He. split; [reflexivity|]. pose proof (real_dirs_error (parents rel) s) as Hn. rewrite He in Hn. destruct e as [| |sd [[]| | | | | | |]| | | |]; try done. by specialize (Hn sd). }
  intros _ _. apply (sat_look _ _ _ (λ r, match r with
    | Ok st => Regular st = true → ∀ d, data_at (w_fs w) rel = Some d → fs_Size st = data_size d
    | Err (XFile _ (Errno ENoEnt)) => entry (w_fs w) rel = None | Err _ => True end)).
  - apply looks_try, looks_fs_read.
  - intros s a <-. unfold xtry, fs_read, may_refuse, xbind. simpl. destruct (e_refuse the_env _) as [[]|]; simpl; [by intros [= <-]..|].
    destruct (os_lstat 0 _ rel) as [st|e] eqn:E; simpl; intros [= <-].
    + intros Hr d. unfold os_lstat in E. rewrite data_at_entry. unfold entry. destruct (f_tree _ !! rel) as [[i| |]|]; try done.
      injection E as <-. simpl. intros Hd. destruct (f_inodes _ !! i) as [x|]; [|done]. simpl in *. by injection Hd as <-.
    + apply lstat_fails in E. by destruct e.
  - intros s e _. unfold xtry. by destruct (fs_read _ _ s).
  - intros [st|e] Hst.
    + destruct (Regular st) eqn:Er; [simpl|by apply sat_fail]. destruct (fs_Size st =? size) eqn:Es; [simpl|by apply sat_fail]. apply Z.eqb_eq in Es.
      apply (sat_bind _ _ _ (λ _ w', shrunk w w' ∧ entry (w_fs w') rel = None)).
      * eapply sat_weaken; [apply sat_remove; right; intros d Hd; apply Hexp; [done|rewrite <-Es; symmetry; by apply Hst|done]|].
        intros [[]|e] w' [Hsh He]; by split.
      * intros [] w' [Hsh He]. eapply sat_weaken; [apply sat_prune|]. intros r w'' [Hsh' ->]. split; [by etrans|]. by apply Hsh'.
    + destruct e as [m|n o|sd [[]| | | | | | |]| |e| |]; try by apply sat_fail. apply (sat_bind _ _ _ (λ _ w', shrunk w w')).
      * eapply sat_weaken; [apply sat_prune|]. by intros r w' [? ->].
      * intros _ w' Hsh. apply sat_fail. split; [done|]. by apply Hsh.
Qed.

(** The row goes when its file is gone. *)
Hypothesis ids : NoDup (fr_ID <$> w_recs w0).
Lemma unlink_id id r : fr_ID (unlink_retained id r) = fr_ID r.
Proof. unfold unlink_retained. by destruct (_ && _ && _). Qed.
Lemma expired_row_of w r : expired_to w → r ∈ w_recs w → ∃ q, q ∈ w_recs w0 ∧ fr_ID q = fr_ID r ∧ fr_State q = fr_State r ∧ fr_RetainedPath q = fr_RetainedPath r ∧
  fr_DestinationID q = fr_DestinationID r ∧ fr_SourceID q = fr_SourceID r ∧ fr_SourceRelPath q = fr_SourceRelPath r ∧ fr_Size q = fr_Size r ∧ fr_ExpiresAt q = fr_ExpiresAt r.
Proof. intros Hw Hr. destruct (et_rows _ Hw r Hr) as (q & Hq & [->|[_ ->]]); by exists q. Qed.
Lemma good_delete w rec t : expired_to w → rec ∈ w_recs w → live rec = false → entry (w_fs w) (fr_RetainedPath rec) = None →
  deleteRecord (fr_ID rec) (w_recs w) = Ok t → expired_to (with_recs t w).
Proof.
  intros Hw Hrec Hlive Hgone. pose proof Hw as [Hok Hf Hr Hl Hi Hg]. unfold deleteRecord. destruct (existsb _ _); intros [= <-]. split; simpl; try done.
  - intros r Hin. apply filter_bool_elem in Hin as [Hin _]. apply list_elem_of_fmap in Hin as (q' & -> & Hq').
    destruct (Hr q' Hq') as (q & Hq & Hcase). exists q. split; [done|]. unfold unlink_retained.
    destruct (_ && _ && bool_decide (fr_State q' = StateRetained)) eqn:E; [|done]. right. apply andb_true_iff in E as [_ E%bool_decide_eq_true].
    destruct Hcase as [->|[? ->]]; [|done]. split; [|done]. unfold live. by rewrite E.
  - intros q Hq Hlq. specialize (Hl q Hq Hlq). apply filter_bool_elem. split.
    + apply list_elem_of_fmap. exists q. split; [|done]. unfold unlink_retained. rewrite (bool_decide_eq_false_2 (fr_State q = _)), andb_false_r; [done|].
      intros E. unfold live in Hlq. by rewrite E in Hlq.
    + apply negb_true_iff, Z.eqb_neq. intros E. assert (q = rec) as ->; [|congruence].
      eapply (NoDup_fmap_inj_on fr_ID); [exact Hi|done..].
  - eapply sublist_NoDup; [exact Hi|]. trans (fr_ID <$> (unlink_retained (fr_ID rec) <$> w_recs w)).
    + apply fmap_sublist. apply filter_sublist.
    + rewrite <-list_fmap_compose. erewrite list_fmap_ext; [done|]. intros j r _. apply unlink_id.
  - intros q Hq. destruct (decide (fr_ID q = fr_ID rec)) as [E|Hne].
    + right. destruct (expired_row_of w rec Hw Hrec) as (q0 & Hq0 & E0 & _ & Ep & _). rewrite <-Hgone.
      assert (q = q0) as ->; [eapply (NoDup_fmap_inj_on fr_ID); [exact ids|done|done|congruence]|by rewrite Ep].
    + destruct (Hg q Hq) as [Hin|?]; [left|by right]. apply list_elem_of_fmap in Hin as (r & Er & Hr').
      apply list_elem_of_fmap. exists (unlink_retained (fr_ID rec) r). rewrite unlink_id. split; [done|]. apply filter_bool_elem.
      split; [by apply list_elem_of_fmap_2|]. rewrite unlink_id. apply negb_true_iff, Z.eqb_neq. congruence.
Qed.

(** *** The items *)

Lemma sat_items w (f : world → list item) (b : world → bool) :
  sat w (db_ok ;! let! w := world_of in if b w then change (with_items (f w) w) else xfail (XDb (Some RowNotFound))) (λ _ w', shrunk w w').
Proof.
  apply (sat_look _ _ _ (λ _, True)); [apply looks_db_ok|done|done|]. intros _ _ s [Hg Hp] <-. unfold xbind. simpl.
  destruct (b _); simpl; [|by split]. assert (expired_to (with_items (f (s_w s)) (s_w s))) by (by destruct Hg). split; [split; [done|constructor; [by left|done]]|done].
Qed.
Lemma sat_FinishItem w id status n : sat w (FinishItem id status n) (λ _ w', shrunk w w').
Proof. apply (sat_items w (λ w, set_item id _ (w_items w))). Qed.
Lemma sat_finish {A} w id status n (a : A) : sat w (FinishItem id status n ;! xret a) (λ _ w', shrunk w w').
Proof.
  eapply (sat_bind _ _ _ (λ _ w', shrunk w w')); [eapply sat_weaken; [apply sat_FinishItem|]; by intros [] w'|]. intros _ w' Hsh. by apply sat_ret.
Qed.

Lemma sat_delete w rec : rec ∈ w_recs w → live rec = false → entry (w_fs w) (fr_RetainedPath rec) = None →
  sat w (db_write (λ _, deleteRecord (fr_ID rec))) (λ _ _, True).
Proof.
  intros Hrec Hl He s [Hg Hp] <-. unfold db_write, db_ok, xbind. simpl. destruct (e_db the_env _); simpl; [by split; [split|]|].
  destruct (deleteRecord _ _) as [t|e] eqn:E; simpl; [|by split; [split|]]. pose proof (good_delete _ _ _ Hg Hrec Hl He E). split; [split; [done|constructor; [by left|done]]|done].
Qed.

Lemma looks_flagHold loaded rec : looks (flagHold rt loaded rec).
Proof.
  unfold flagHold. destruct (rt_coverage rt); [|done]. destruct (_ =? 0); [done|]. apply looks_bind; [destruct loaded; [done|apply looks_db_ok]|]. done.
Qed.
Lemma flagHold_says loaded rec s held l covered : (flagHold rt loaded rec s).1 = Ok (held, l) → rt_coverage rt = Some covered → fr_SourceID rec ≠ 0 →
  held = covered (fr_SourceID rec) (fr_SourceRelPath rec).
Proof.
  unfold flagHold. intros Hr Hc Hne. rewrite Hc in Hr. rewrite (proj2 (Z.eqb_neq _ _) Hne) in Hr. unfold xbind in Hr.
  destruct ((if loaded then xret tt else db_ok) s) as [[u|e] s']; [|done]. by injection Hr as <- _.
Qed.

Lemma sat_expire w loaded it : expired_to w → sat w (expire rt loaded it) (λ _ _, True).
Proof.
  intros Hw. unfold expire. cbv zeta.
  apply (sat_look _ _ _ (λ o, o = get_record (dt_RecordID (xd_plan (i_Detail it))) (w_recs w))); [apply looks_db_read|intros s a <- Ha; by apply db_read_ok in Ha|done|].
  intros [rec|] Hrec; [|by eapply sat_any, sat_finish]. symmetry in Hrec. apply find_some in Hrec as [Hrec%list_elem_of_In _].
  destruct (bool_decide (fr_State rec = StateRetained)) eqn:Est; simpl; [|by eapply sat_any, sat_finish]. apply bool_decide_eq_true in Est.
  destruct (bool_decide _); simpl; [|by eapply sat_any, sat_finish]. destruct (fr_DestinationID rec =? x_dest c) eqn:Ed; simpl; [|by eapply sat_any, sat_finish].
  apply Z.eqb_eq in Ed. apply (sat_look _ _ _ (λ now, ∃ k, now = e_now the_env k)); [done|intros s a _ [= <-]; by eexists|done|]. intros now [k ->].
  destruct (fr_ExpiresAt rec) as [e|] eqn:Ee; [|by eapply sat_any, sat_finish]. destruct (e_now the_env k <? e) eqn:Ek; [by eapply sat_any, sat_finish|]. apply Z.ltb_ge in Ek.
  destruct (linked rt (fr_SourceID rec)) eqn:El; simpl; [|by eapply sat_any, sat_finish].
  apply (sat_look _ _ _ (λ l, l = dependents (fr_ID rec) (w_recs w))); [apply looks_db_read|intros s a <- Ha; by apply db_read_ok in Ha|done|]. intros deps Hdeps.
  destruct (bool_decide (deps = [])) eqn:Edeps; simpl; [|by eapply sat_any, sat_finish]. apply bool_decide_eq_true in Edeps.
  assert (Hsrc : fr_SourceID rec ≠ 0) by (unfold linked in El; by apply andb_true_iff in El as [El%negb_true_iff%Z.eqb_neq _]).
  apply (sat_look _ _ _ (λ r, ∀ covered, rt_coverage rt = Some covered → r.1 = covered (fr_SourceID rec) (fr_SourceRelPath rec))); [apply looks_flagHold| |done|].
  { intros s [held l] _ Hr covered Hc. by apply (flagHold_says _ _ _ _ _ _ Hr Hc). }
  intros [held l] Hheld. destruct (bool_decide (is_Some held)) eqn:Eh; [by eapply sat_any, sat_finish|]. apply bool_decide_eq_false in Eh.
  assert (held = None) as -> by (destruct held; [by destruct Eh|done]). simpl in Hheld. clear Eh.
  apply (sat_bind _ _ _ (λ r w', shrunk w w' ∧ match r with Ok _ | Err (XFile _ (Errno ENoEnt)) => entry (w_fs w') (fr_RetainedPath rec) = None | Err _ => True end)).
  { eapply sat_weaken; [apply sat_try, sat_Expire|by intros [r|] w']. intros d Hd Hsize Hin.
    destruct (expired_row_of w rec Hw Hrec) as (q & Hq & Eq1 & Eq2 & Eq3 & Eq4 & Eq5 & Eq6 & Eq7 & Eq8). exists q, e, k. split_and!; try congruence.
    - intros covered Hc. rewrite Eq5, Eq6. symmetry. by apply Hheld.
    - intros r Hr. destruct (links_to (fr_ID q) r) eqn:Elr; [|done]. exfalso. assert (live r = true) as Hlr by (unfold links_to in Elr; by apply andb_true_iff in Elr as [_ ?]).
      pose proof (et_live _ Hw r Hr Hlr) as Hin'. subst deps. unfold dependents in Edeps.
      assert (r ∈ isort record_cmp (List.filter (links_to (fr_ID rec)) (w_recs w))) as Hbad by (apply isort_elem, filter_bool_elem; by rewrite <-Eq1).
      rewrite Edeps in Hbad. by apply elem_of_nil in Hbad. }
  assert (Hlive : live rec = false) by (unfold live; by rewrite Est).
  assert (Hgone : ∀ w', shrunk w w' → entry (w_fs w') (fr_RetainedPath rec) = None →
    sat w' (db_write (λ _, deleteRecord (fr_ID rec)) ;! FinishItem (i_ID it) ItemDone (fr_Size rec) ;! xret l) (λ _ _, True)).
  { intros w' [Hrecs _] He. eapply (sat_bind _ _ _ (λ _ _, True)); [eapply sat_weaken; [apply sat_delete|by intros []]; [by rewrite Hrecs|done|done]|].
    intros _ w'' _. by eapply sat_any, sat_finish. }
  intros r w' [Hsh Hr]. destruct r as [u|e']; [by apply Hgone|].
  assert (Hrest : sat w' (if kept_error e' then FinishItem (i_ID it) ItemFailed 0 ;! xret l else
      let! stop := ask (e_cancel the_env) in
      if stop : bool then xfail XCancelled else if Fatal e' then xfail e' else FinishItem (i_ID it) ItemFailed 0 ;! xret l) (λ _ _, True)).
  { destruct (kept_error e'); [by eapply sat_any, sat_finish|]. apply (sat_look _ _ _ (λ _, True)); [done..|]. intros [] _; [by apply sat_fail|].
    destruct (Fatal e'); [by apply sat_fail|by eapply sat_any, sat_finish]. }
  destruct e' as [m|n o|sd [[]| | | | | | |]| |x| |]; try exact Hrest. by apply Hgone.
Qed.


Section batches.
Context (recheckEvery : Z).
Lemma sat_expire_batch w batch since loaded : sat w (expire_batch rt recheckEvery batch since loaded) (λ _ _, True).
Proof.
  revert w since loaded. induction batch as [|it batch IH]; intros w since loaded; simpl; [by apply sat_ret|].
  apply sat_true; [by apply sat_looks|]. intros [] w1; [by apply sat_fail|]. destruct (negb _); [apply IH|].
  apply sat_true; [by apply sat_looks|]. intros [] w2; [simpl|by apply sat_fail].
  apply sat_true; [by apply sat_good, sat_expire|]. intros l w3. apply sat_true; [|intros; apply IH].
  apply sat_looks. destruct (_ <=? _); [|done]. apply looks_bind; [apply looks_refuse|done].
Qed.
Lemma sat_expire_batches w fuel after since loaded : sat w (expire_batches rt recheckEvery fuel after since loaded) (λ _ _, True).
Proof.
  revert w after since loaded. induction fuel as [|fuel IH]; intros w after since loaded; simpl; [by apply sat_ret|].
  apply sat_true; [apply sat_looks, looks_db_ok|]. intros _ w1. apply sat_true; [by apply sat_looks|]. intros w2 w3.
  destruct (last _) as [i|]; [|by apply sat_ret]. apply sat_true; [apply sat_expire_batch|]. intros [since' l] w4. apply IH.
Qed.
Lemma sat_retention_execute w : sat w (retention_execute rt recheckEvery) (λ _ _, True).
Proof.
  apply sat_true; [apply sat_looks, looks_refuse|]. intros _ w1. apply sat_true; [by apply sat_looks|]. intros w2 w3. apply sat_expire_batches.
Qed.
End batches.

Lemma expired_to_start : fs_ok (w_fs w0) → expired_to w0.
Proof. intros Hok. split; try done; [by left|intros r Hr; exists r; auto|]. intros q Hq. left. by apply list_elem_of_fmap_2. Qed.
End expiry.

(** ** The properties *)

(** Programs that change nothing but items. *)
Section plan.
Context `{Exec}.

Context (rt : retention_env) (planBatch : nat).
Lemma items_plan_batches recs batch : through same_files (plan_batches planBatch recs batch).
Proof.
  revert batch. induction recs as [|rec recs IH]; intros batch; simpl; [by apply (through_change (added batch true))|].
  destruct (_ && _); [|apply IH]. apply through_bind; [by apply (through_change (added _ false))|intros; apply IH].
Qed.
Lemma items_plan now : through same_files (DeleteItems ;! retention_plan rt planBatch now).
Proof.
  apply through_bind; [by apply (through_change no_items)|]. intros _. apply through_bind; [apply through_looks, looks_db_read|]. intros all. apply items_plan_batches.
Qed.
End plan.

Section prepare.
Context `{Exec} (lo : leftovers) (rt : retention_env) (planBatch : nat) (stopped : list item) (w : world).
#[local] Abbreviation kept_from f := (keeps (may_move_to (known stopped w) False) (w_fs w) (w_fs f)).
Lemma prepare_keeps dryRun started n d :
  let s := (retention_prepare lo rt planBatch dryRun started (mkSt w [] n d)).2 in
  world_ok stopped w → NoDup (fr_ID <$> w_recs w) → left_by stopped lo → detail_ok d →
  kept_from (s_w s) ∧ (∀ w', w' ∈ s_past s → kept_from w') ∧ fs_ok (w_fs (s_w s)) ∧ NoDup (fr_ID <$> w_recs (s_w s)).
Proof.
  intros s Hok Hids Hlo Hd. set (s0 := mkSt w [] n d).
  assert (Hs0 : Inv w (known stopped w) False s0).
  { split; [|constructor|done|done]. destruct Hok as [Hf Hm Hdet]. split; [done|by apply kept_keeps| |].
    - intros q Hq. right. right. by apply list_elem_of_fmap_2.
    - intros i Hi. split; [right; left; by apply list_elem_of_fmap_2|by apply Hdet]. }
  assert (Hl : ∀ job i, i ∈ lo_items lo job → known stopped w (i_RelPath i)) by (intros job i Hi; left; by eapply list_elem_of_fmap_2, Hlo).
  set (m1 := if dryRun then xret 0 else reconcile lo "").
  assert (Inv w (known stopped w) False (m1 s0).2 ∧ NoDup (fr_ID <$> w_recs (s_w (m1 s0).2))) as [[Hg Hpast _ _] Hids1].
  { unfold m1. destruct dryRun; [by split|]. split; [by destruct (ok_reconcile w (known stopped w) False (wo_mirror _ _ Hok) lo Hl "" s0 Hs0)|].
    by apply (ids_reconcile lo "" s0). }
  set (m2 := let! planned := Planned in if planned : bool then xret tt else DeleteItems ;! retention_plan rt planBatch started).
  assert (Hm2 : through same_files m2).
  { apply through_bind; [apply through_looks, looks_planned|]. intros []; [by apply through_looks|apply items_plan]. }
  assert (Hs : s = match (m1 s0).1 with Ok _ => (m2 (m1 s0).2).2 | Err _ => (m1 s0).2 end).
  { unfold s, retention_prepare. change (if dryRun then xret 0 else reconcile lo "") with m1.
    change (let! planned := Planned in if planned : bool then xret tt else DeleteItems ;! retention_plan rt planBatch started) with m2. unfold xbind. fold s0. by destruct (m1 s0) as [[a|e] s1]. }
  rewrite Forall_forall in Hpast. destruct (m1 s0) as [[a|e] s1]; simpl in *; rewrite Hs.
  2: { split_and!; [apply Hg|intros w' Hw'; by apply Hpast|apply Hg|done]. }
  destruct (Hm2 s1) as ([E1 E2] & Hp & _). rewrite E1, E2. split_and!; [apply Hg| |apply Hg|done].
  intros w' Hw'. destruct (Hp w' Hw') as [Hin|[E _]]; [by apply Hpast|]. rewrite E. apply Hg.
Qed.
End prepare.

(** C7: A retention job, whatever fails or kills it on the way: after every change it makes,
    every content that was at the destination under a name that is no temp file's is still
    there, under that name or the path of an item or a record, or it was a retained file the
    job may delete: in the records after settling and planning a row of the destination says
    so (its expiry has passed, its source is linked, no irreplaceable flag covers it, no live
    row links to it, and the file has its size). *)
Theorem retention_deletes_only_expired fold hash r en lo rt planBatch recheckEvery stopped dryRun started w n d w' p data :
  let H := mkExec fold hash r en in
  let s := (retention_run lo rt planBatch recheckEvery dryRun started (mkSt w [] n d)).2 in
  world_ok stopped w → NoDup (fr_ID <$> w_recs w) → left_by stopped lo → detail_ok d → w' = s_w s ∨ w' ∈ s_past s →
  plain p → data_at (w_fs w) p = Some data →
  ∃ p' data', (p' = p ∨ known stopped w p') ∧ same_content data data' ∧
    (data_at (w_fs w') p' = Some data' ∨
     ∃ s1, retention_prepare lo rt planBatch dryRun started (mkSt w [] n d) = (Ok tt, s1) ∧ data_at (w_fs (s_w s1)) p' = Some data' ∧
       expirable rt (s_w s1) p' data').
Proof.
  intros H s Hok Hids Hlo Hd Hw' Hp Hdata. pose proof (prepare_keeps (H := H) lo rt planBatch stopped w dryRun started n d Hok Hids Hlo Hd) as Hprep.
  unfold s, retention_run, xbind in Hw'. destruct (retention_prepare _ _ _ _ _ _) as [[u|e] s1]; simpl in *; destruct Hprep as (Hk & Hkp & Hfs & Hids1).
  2: { assert (keeps (may_move_to (known stopped w) False) (w_fs w) (w_fs w')) as Hk' by (destruct Hw' as [->|Hw']; auto).
       destruct (Hk' p data Hp Hdata) as (p' & d' & Hl & _ & Hd' & Hsame). exists p', d'. split_and!; [unfold may_move_to in Hl; tauto|done|by left]. }
  set (m := if dryRun then xret tt else retention_execute rt recheckEvery) in Hw'.
  assert (Hm : Good (expired_to rt (s_w s1)) (s_past s1) (m s1).2).
  { assert (Hs1 : Good (expired_to rt (s_w s1)) (s_past s1) s1).
    { split; [by apply expired_to_start|]. apply Forall_forall. intros w1 Hw1. by right. }
    unfold m. destruct dryRun; [exact Hs1|]. by destruct (sat_retention_execute rt (s_w s1) (s_past s1) Hids1 recheckEvery (s_w s1) s1 Hs1 eq_refl). }
  assert (expired_to rt (s_w s1) w' ∨ w' ∈ s_past s1) as [He|Hin].
  { destruct Hm as [Hg Hall]. rewrite Forall_forall in Hall. destruct Hw' as [->|Hw']; [by left|by apply Hall]. }
  - destruct (Hk p data Hp Hdata) as (p' & d' & Hl & _ & Hd' & Hsame). exists p', d'. split_and!; [unfold may_move_to in Hl; tauto|done|].
    destruct (et_files _ _ _ He p' d' Hd') as [?|Hexp]; [by left|right]. exists s1. by destruct u.
  - destruct (Hkp w' Hin p data Hp Hdata) as (p' & d' & Hl & _ & Hd' & Hsame). exists p', d'. split_and!; [unfold may_move_to in Hl; tauto|done|by left].
Qed.

(** While a retention job expires files, after every change: a live row stays as it is,
    and a row is only gone when nothing has its retained file's name any more. *)
Theorem retention_rows_follow_files fold hash r en rt recheckEvery w n d w' :
  let H := mkExec fold hash r en in
  let s := (retention_execute rt recheckEvery (mkSt w [] n d)).2 in
  fs_ok (w_fs w) → NoDup (fr_ID <$> w_recs w) → w' = s_w s ∨ w' ∈ s_past s →
  (∀ q, q ∈ w_recs w → live q = true → q ∈ w_recs w') ∧
  (∀ q, q ∈ w_recs w → fr_ID q ∉ fr_ID <$> w_recs w' → entry (w_fs w') (fr_RetainedPath q) = None).
Proof.
  intros H s Hok Hids Hw'. assert (Hs : Good (expired_to (H := H) rt w) [] (mkSt w [] n d)) by (split; [by apply expired_to_start|constructor]).
  destruct (sat_retention_execute (H := H) rt w [] Hids recheckEvery w _ Hs eq_refl) as [[Hg Hall] _]. rewrite Forall_forall in Hall.
  assert (expired_to (H := H) rt w w') as He by (destruct Hw' as [->|Hw']; [done|destruct (Hall _ Hw') as [?|?%elem_of_nil]; done]).
  split; [apply He|]. intros q Hq Hn. by destruct (et_gone _ _ _ He q Hq).
Qed.

(** A retention job plans one expire item per retained row of the destination that has
    expired and whose source is linked, oldest expiry first, after the items that are there;
    the batches it writes them in do not show, and nothing else changes. *)
Theorem retention_plan_exact fold hash r en rt planBatch now s s' :
  let H := mkExec fold hash r en in
  retention_plan rt planBatch now s = (Ok tt, s') →
  w_items (s_w s') = foldl add_item (w_items (s_w s))
    (expire_item <$> List.filter (λ q, linked rt (fr_SourceID q)) (Expired now (w_recs (s_w s)))) ∧
  w_fs (s_w s') = w_fs (s_w s) ∧ w_recs (s_w s') = w_recs (s_w s).
Proof.
  intros H Hr.
  assert (Hb : ∀ recs batch s, (plan_batches planBatch recs batch s).1 = Ok tt →
    w_items (s_w (plan_batches planBatch recs batch s).2) = foldl add_item (w_items (s_w s)) (batch ++ (expire_item <$> recs))%list).
  { assert (Ha : ∀ batch fin s, (AddItems batch fin s).1 = Ok tt → w_items (s_w (AddItems batch fin s).2) = foldl add_item (w_items (s_w s)) batch).
    { intros batch fin s1. unfold AddItems, db_ok, xbind. simpl. by destruct (e_db en _). }
    intros recs. induction recs as [|rec recs IH]; intros batch s1; simpl.
    - rewrite app_nil_r. apply Ha.
    - destruct (_ && _).
      + unfold xbind. specialize (Ha (batch ++ [expire_item rec])%list false s1). destruct (AddItems _ _ s1) as [[[]|e] s2]; simpl in *; [|done].
        intros Hok. rewrite IH by done. rewrite Ha by done. simpl. rewrite <-foldl_app. by rewrite <-app_assoc.
      + intros Hok. rewrite IH by done. by rewrite <-app_assoc. }
  assert (Hi : through same_files (retention_plan rt planBatch now)) by (apply through_bind; [apply through_looks, looks_db_read|intros; apply items_plan_batches]).
  destruct (Hi s) as [[E1 E2] _]. rewrite Hr in E1, E2. simpl in E1, E2. split; [|done]. unfold retention_plan, xbind in Hr.
  pose proof (db_read_ok (H := H) (Expired now) s) as Hread. destruct (looks_db_read (H := H) (Expired now) s) as [Ew _].
  destruct (db_read (Expired now) s) as [[all|e] s1]; [|done]. simpl in *. rewrite (Hread all eq_refl) in Hr.
  specialize (Hb (List.filter (λ q, linked rt (fr_SourceID q)) (Expired now (w_recs (s_w s)))) [] s1). rewrite Hr, Ew in Hb. by apply Hb.
Qed.

(** A run that deletes a file whose retention is over and keeps one with a flag. *)
Definition old_path (name : string) : string := ".bunkarr/retention/20250101T000000Z-job3/" +:+ name.
Definition old_row (id : Z) (name : string) : FileRecord :=
  mkRecord id 1 1 name name 3 5 "" 0 StateRetained (old_path name) ReasonDeleted 3 None None (Some (-9)) (Some (-2)).
Definition old_world : world :=
  mkWorld (mkFS (<[".bunkarr" := NDir]> (<[".bunkarr/retention" := NDir]> (<[".bunkarr/retention/20250101T000000Z-job3" := NDir]>
             (<[old_path "a.mkv" := NFile 1]> (<[old_path "b.mkv" := NFile 2]> ∅)))))
             (<[1 := mkInode "old" 5]> (<[2 := mkInode "two" 5]> ∅)) 3)
    [old_row 1 "a.mkv"; old_row 2 "b.mkv"] [] false.
Definition old_rt : retention_env := mkRetentionEnv [1] (λ _, true) (Some (λ _ rel, if bool_decide (rel = "b.mkv") then Some 4 else None)).
#[local] Abbreviation demo := (mkExec (λ r, r) (λ s, s) demo_run demo_env).
Definition old_end : result xerr unit * st :=
  retention_run (H := demo) no_leftovers old_rt 1000 500 false 0 (mkSt old_world [] 0 no_detail).

Example old_expired :
  (map_to_list (f_tree (w_fs (s_w old_end.2)))).*1 = [old_path "b.mkv"; ".bunkarr/retention/20250101T000000Z-job3"; ".bunkarr/retention"; ".bunkarr"] ∧
  fr_ID <$> w_recs (s_w old_end.2) = [2] ∧ (λ i, i_Status i) <$> w_items (s_w old_end.2) = [ItemDone; ItemHeld].
Proof. split_and!; vm_compute; reflexivity. Qed.

Lemma old_ok : world_ok (H := demo) [] old_world.
Proof.
  split.
  - split; [| |done].
    + intros p i. simpl. rewrite !lookup_insert_Some. intros Hp.
      repeat (destruct Hp as [[_ Hp]|[_ Hp]]; [first [discriminate Hp|injection Hp as <-; by eexists]|]). by rewrite lookup_empty in Hp.
    + intros i [x Hx]. revert Hx. simpl. rewrite !lookup_insert_Some. intros [[<- _]|[_ [[<- _]|[_ Hp]]]]; [lia..|by rewrite lookup_empty in Hp].
  - intros p Hp. assert (p = "a.mkv" ∨ p = "b.mkv") as [->| ->]; [|by repeat split; vm_compute..].
    destruct Hp as [Hp|[Hp|Hp]]; simpl in Hp; [by apply elem_of_nil in Hp..|]. rewrite !elem_of_cons in Hp. destruct Hp as [?|[?|Hp]]; [auto..|by apply elem_of_nil in Hp].
  - intros i Hi. simpl in Hi. by apply elem_of_nil in Hi.
Qed.
Lemma old_ids : NoDup (fr_ID <$> w_recs old_world).
Proof. by apply (bool_decide_unpack (NoDup (fr_ID <$> w_recs old_world))). Qed.

Lemma retention_deletes_only_expired_witness :
  ∃ p' data', (p' = old_path "a.mkv" ∨ known [] old_world p') ∧ same_content (H := demo) "old" data' ∧
    (data_at (w_fs (s_w old_end.2)) p' = Some data' ∨
     ∃ s1, retention_prepare (H := demo) no_leftovers old_rt 1000 false 0 (mkSt old_world [] 0 no_detail) = (Ok tt, s1) ∧
       data_at (w_fs (s_w s1)) p' = Some data' ∧ expirable (H := demo) old_rt (s_w s1) p' data').
Proof.
  assert (Hn : detail_ok (H := demo) no_detail) by (split; by left).
  assert (Hl : left_by [] no_leftovers) by (by intros ? ? ?%elem_of_nil).
  exact (retention_deletes_only_expired (λ r, r) (λ s, s) demo_run demo_env no_leftovers old_rt 1000 500 [] false 0 old_world 0 no_detail
    (s_w old_end.2) (old_path "a.mkv") "old" old_ok old_ids Hl Hn (or_introl eq_refl) eq_refl eq_refl).
Defined.

Definition old_exec : result xerr unit * st := retention_execute (H := demo) old_rt 500 (mkSt old_world [] 0 no_detail).
Lemma retention_rows_follow_files_witness :
  (∀ q, q ∈ w_recs old_world → live q = true → q ∈ w_recs (s_w old_exec.2)) ∧
  (∀ q, q ∈ w_recs old_world → fr_ID q ∉ fr_ID <$> w_recs (s_w old_exec.2) → entry (w_fs (s_w old_exec.2)) (fr_RetainedPath q) = None).
Proof.
  exact (retention_rows_follow_files (λ r, r) (λ s, s) demo_run demo_env old_rt 500 old_world 0 no_detail (s_w old_exec.2) (wo_fs _ _ old_ok) old_ids (or_introl eq_refl)).
Defined.

Definition old_plan : result xerr unit * st := retention_plan (H := demo) old_rt 1000 0 (mkSt old_world [] 0 no_detail).
Lemma retention_plan_exact_witness :
  w_items (s_w old_plan.2) = foldl add_item [] (expire_item <$> List.filter (λ q, linked old_rt (fr_SourceID q)) (Expired (H := demo) 0 (w_recs old_world))) ∧
  w_fs (s_w old_plan.2) = w_fs old_world ∧ w_recs (s_w old_plan.2) = w_recs old_world.
Proof.
  assert (Hr : old_plan = (Ok tt, old_plan.2)) by (rewrite (surjective_pairing old_plan) at 1; f_equal; vm_compute; reflexivity).
  exact (retention_plan_exact (λ r, r) (λ s, s) demo_run demo_env old_rt 1000 0 (mkSt old_world [] 0 no_detail) old_plan.2 Hr).
Defined.
