(* ===== verification/SyncVerify.v ===== *)
(** * SyncVerify: checking the files at a destination ([internal/syncer/verify.go])

    The verify job of a destination: the plan looks at every file with a record and chooses
    a sample to re-read, the items are checked, and a record whose file is missing or
    damaged is marked missing, with the primary that shares its inode. Of the copying engine
    it uses [filecopy.VerifyFile]. The window comes from outside. *)
From stdpp Require Import base gmap list strings.
From S2P Require Import Prelude GoStrings DestNames Tiers SyncPlan DestFS FileRecords SyncExec SyncSweep ExecLogic SyncExecSafe WorldLogic SyncRetention.
Open Scope string_scope.
Open Scope Z_scope.

(** ** The writes of the records *)

(** [setVerified]: the hash is kept when there is one. *)
Definition verified_row (hash : string) (at_ : time) (r : FileRecord) : FileRecord :=
  mkRecord (fr_ID r) (fr_DestinationID r) (fr_SourceID r) (fr_RelPath r) (fr_SourceRelPath r) (fr_Size r) (fr_MtimeNs r)
    (if bool_decide (fr_Hash r = "") then hash else fr_Hash r) (fr_LinkOf r) (fr_State r) (fr_RetainedPath r) (fr_Reason r) (fr_JobID r)
    (fr_CopiedAt r) (Some at_) (fr_RetainedAt r) (fr_ExpiresAt r).
Definition setVerified (id : Z) (hash : string) (at_ : time) (t : records) : records :=
  (λ r, if fr_ID r =? id then verified_row hash at_ r else r) <$> t.

Definition has_copy (r : FileRecord) : bool := mem (fr_State r) [StatePresent; StateLinked].
Definition missing_row (r : FileRecord) : FileRecord := if has_copy r then with_state StateMissing r else r.
Definition markMissing (id : Z) (t : records) : records := (λ r, if fr_ID r =? id then missing_row r else r) <$> t.

(** ** [filecopy.VerifyFile] *)

Section verify_file.
Context `{Exec}.
Definition VerifyFile (rel : string) (wantSize : Z) (wantHash : string) : X string :=
  open_dest rel ;!
  let! w := world_of in
  let data := default "" (data_at (w_fs w) rel) in
  when! negb (data_size data =? wantSize) fail! XFile SideDestination ErrMismatch ;!
  read_chunks [""] ;!
  may_refuse SideDestination ;!
  when! negb (bool_decide (wantHash = "")) && negb (bool_decide (hash_of data = wantHash)) fail! XFile SideDestination ErrMismatch ;!
  xret (hash_of data).
End verify_file.

(** ** The job *)

Record verify_env := mkVerifyEnv {
  vf_samplePercent : Z;
  vf_window : nat → bool;
}.
Definition DefaultSamplePercent : Z := 5.

Section verify.
Context `{Exec} (lo : leftovers) (vf : verify_env) (planBatch : nat) (recheckEvery : Z).
#[local] Abbreviation c := the_run.
#[local] Abbreviation E := the_env.

(** *** Planning *)

Definition checked (r : FileRecord) : bool := (fr_DestinationID r =? x_dest c) && has_copy r.
(** [ORDER BY verified_at IS NOT NULL, verified_at, id] *)
Definition oldest_cmp (a b : FileRecord) : Z :=
  let key r := match fr_VerifiedAt r with None => 0 | Some _ => 1 end in
  then_cmp (zcmp (key a) (key b)) (then_cmp (zcmp (default 0 (fr_VerifiedAt a)) (default 0 (fr_VerifiedAt b))) (zcmp (fr_ID a) (fr_ID b))).
Definition sample_size (total : Z) : Z :=
  match x_verify c with
  | VerifyFull => total
  | VerifySample =>
      let pct := if vf_samplePercent vf <=? 0 then DefaultSamplePercent else vf_samplePercent vf in
      (total * pct + 99) `quot` 100
  | VerifyOff => 0
  end.
Definition choose_sample (n : Z) (t : records) : list Z := fr_ID <$> take (Z.to_nat n) (isort oldest_cmp (List.filter checked t)).

(** [statProblem]: whether there is one. *)
Definition statProblem (rec : FileRecord) : X bool :=
  let! r := xtry (Lstat (fr_RelPath rec)) in
  match r with
  | Err e => if not_exist e then xret true else xfail (on_side SideDestination e)
  | Ok st => xret (negb (Regular st) || negb (fs_Size st =? fr_Size rec))
  end.

Definition verify_item (rec : FileRecord) (k : check) : item :=
  mkItemRow 0 (fr_RelPath rec) ActionVerify ItemPending (fr_Size rec)
    (mkItemDetail (mkDetail (fr_SourceID rec) (fr_SourceRelPath rec) (fr_Size rec) (fr_MtimeNs rec) "" (fr_ID rec) 0 "" "" "" 0 ForNone RNone false None 0 "" [])
       "" false 0 0 "" "" 0 0 "" NoReason "" 0 0 None k "" NoReason).

(** The loop over the records: what is counted towards a recheck, and the batch. *)
Definition plan_record (sample : list Z) (rec : FileRecord) (st : Z * list item) : X (Z * list item) :=
  let (since, batch) := st in
  if negb (has_copy rec) then xret (since, batch)
  else
    let! stop := ask (e_cancel E) in
    when! stop fail! XCancelled ;!
    let since := since + 1 in
    let! since := (if recheckEvery <=? since then Recheck ;! xret 0 else xret since) in
    let! problem := statProblem rec in
    let k := if problem : bool then CheckStat else if mem (fr_ID rec) sample then CheckHash else NoCheck in
    if bool_decide (k = NoCheck) then xret (since, batch)
    else
      let batch := (batch ++ [verify_item rec k])%list in
      if (planBatch <=? length batch)%nat then AddItems batch false ;! xret (since, []) else xret (since, batch).
Fixpoint plan_records (sample : list Z) (recs : records) (st : Z * list item) : X (Z * list item) :=
  match recs with
  | [] => xret st
  | rec :: recs => let! st := plan_record sample rec st in plan_records sample recs st
  end.
Definition pageSize : nat := 2000.
(** [eachLive]: a page is read at a time; the number of rows is enough fuel. *)
Definition row_cmp (a b : FileRecord) : Z := zcmp (fr_ID a) (fr_ID b).
Definition live_page (after : Z) (t : records) : records :=
  take pageSize (isort row_cmp (List.filter (λ r, (fr_DestinationID r =? x_dest c) && (after <? fr_ID r) && live r) t)).
Fixpoint each_live (fuel : nat) (sample : list Z) (after : Z) (st : Z * list item) : X (Z * list item) :=
  match fuel with
  | O => xret st
  | S fuel =>
      let! page := db_read (live_page after) in
      let! st := plan_records sample page st in
      match last page with
      | Some r => if (length page <? pageSize)%nat then xret st else each_live fuel sample (fr_ID r) st
      | None => xret st
      end
  end.
Definition verify_plan : X unit :=
  let! total := db_read (λ t, Z.of_nat (length (List.filter checked t))) in
  let n := sample_size total in
  let! sample := (if 0 <? n then db_read (choose_sample n) else xret []) in
  let! w := world_of in
  let! (_, batch) := each_live (S (length (w_recs w))) sample 0 (0, []) in
  AddItems batch true.

(** *** Checking *)

Definition vf_finish (it : item) (status : ItemStatus) (bytes : Z) : X unit := FinishItem (i_ID it) status bytes.

(** The primary whose content a damaged hardlink shares. *)
Definition markSharedInode (rec : FileRecord) : X unit :=
  if negb (mem (fr_State rec) [StateLinked; StateMissing]) || (fr_LinkOf rec =? 0) then xret tt
  else
    let! prim := db_read (get_record (fr_LinkOf rec)) in
    match prim with
    | None => xret tt
    | Some prim =>
        if negb (bool_decide (fr_State prim = StatePresent)) then xret tt
        else
          let! a := xtry (Lstat (fr_RelPath rec)) in
          let! b := xtry (Lstat (fr_RelPath prim)) in
          match a, b with
          | Ok a, Ok b =>
              let! same := xtry (sameDestFile (fr_RelPath rec) a (fr_RelPath prim) b) in
              match same with
              | Err e =>
                  let! stop := ask (e_cancel E) in
                  if stop || Fatal e then xfail e else xret tt
              | Ok false => xret tt
              | Ok true => db_write (λ _ t, Ok (markMissing (fr_ID prim) t))
              end
          | _, _ => xret tt
          end
    end.

(** [itemError] *)
Definition vf_itemError (it : item) (e : xerr) : X unit :=
  let! stop := ask (e_cancel E) in
  if stop : bool then xfail XCancelled else if Fatal e then xfail e else vf_finish it ItemFailed 0.

(** What [VerifyFile] says is wrong with the file. *)
Definition file_problem (e : xerr) : bool :=
  match e with XFile _ (Errno (ENoEnt | ENotDir) | ErrMismatch | ErrNotRegular) => true | _ => false end.

Definition mark_and_fail (it : item) (rec : FileRecord) : X unit :=
  db_write (λ _ t, Ok (markMissing (fr_ID rec) t)) ;!
  markSharedInode rec ;!
  vf_finish it ItemFailed 0.

Definition verifyItem (it : item) : X unit :=
  let d := i_Detail it in
  let! rec := db_read (get_record (dt_RecordID (xd_plan d))) in
  match rec with
  | None => vf_finish it ItemSkipped 0
  | Some rec =>
      if bool_decide (fr_State rec = StateMissing) then markSharedInode rec ;! vf_finish it ItemFailed 0
      else if negb (has_copy rec) || negb (bool_decide (fr_RelPath rec = i_RelPath it)) then vf_finish it ItemSkipped 0
      else if bool_decide (xd_Check d = CheckStat) then
        let! p := xtry (statProblem rec) in
        match p with
        | Err e => vf_itemError it e
        | Ok false => vf_finish it ItemDone 0
        | Ok true => mark_and_fail it rec
        end
      else
        let! r := xtry (VerifyFile (fr_RelPath rec) (fr_Size rec) (fr_Hash rec)) in
        match r with
        | Ok got =>
            let! now := ask (e_now E) in
            db_write (λ _ t, Ok (setVerified (fr_ID rec) got now t)) ;!
            vf_finish it ItemDone (fr_Size rec)
        | Err e => if file_problem e then mark_and_fail it rec else vf_itemError it e
        end
  end.

Fixpoint verify_batch (batch : list item) (since : Z) : X Z :=
  match batch with
  | [] => xret since
  | it :: batch =>
      let! stop := ask (e_cancel E) in
      when! stop fail! XCancelled ;!
      if negb (bool_decide (i_Action it = ActionVerify)) then verify_batch batch since
      else
        let! open_ := ask (vf_window vf) in
        when! negb open_ fail! XDefer ;!
        verifyItem it ;!
        let since := since + 1 in
        let! since := (if recheckEvery <=? since then Recheck ;! xret 0 else xret since) in
        verify_batch batch since
  end.
Fixpoint verify_batches (fuel : nat) (after since : Z) : X unit :=
  match fuel with
  | O => xret tt
  | S fuel =>
      db_ok ;!
      let! w := world_of in
      match last (pending after (w_items w)) with
      | None => xret tt
      | Some l =>
          let! since := verify_batch (pending after (w_items w)) since in
          verify_batches fuel (i_ID l) since
      end
  end.
(** The counts it reads first are for its progress. *)
Definition verify_execute : X unit :=
  db_ok ;!
  let! w := world_of in
  verify_batches (S (length (w_items w))) 0 0.

Definition verify_run (dryRun : bool) : X unit :=
  (if dryRun then xret 0 else reconcile lo "") ;!
  let! planned := Planned in
  (if planned : bool then xret tt else DeleteItems ;! verify_plan) ;!
  (if dryRun then xret tt else verify_execute).
End verify.

(** ** What the plan is *)

Lemma looks_reader `{Exec} {A} (m : X A) : reader m → looks m.
Proof. intros Hm s. destruct (Hm s) as [Hc Hp]. unfold core in Hc. by injection Hc as -> ->. Qed.

(** Rows by id, page by page. *)
Section pages.
#[local] Abbreviation by_id := (StronglySorted (λ a b, fr_ID a < fr_ID b)).
#[export] Instance id_ordering : Ordering row_cmp.
Proof.
  split; unfold row_cmp.
  - intros a b. rewrite !(proj1 (zcmp_spec _ _)). lia.
  - intros a b d. rewrite !(proj1 (zcmp_spec _ _)). lia.
Qed.
Lemma by_id_unique l1 l2 : by_id l1 → by_id l2 → l1 ≡ₚ l2 → l1 = l2.
Proof. apply StronglySorted_unique_strong. intros a b _ _. lia. Qed.
Lemma by_id_isort l : NoDup (fr_ID <$> l) → by_id (isort row_cmp l).
Proof.
  intros Hn. rewrite <-(isort_perm row_cmp l) in Hn. induction (isort_sorted row_cmp l) as [|a l' Hs IH Hall]; [constructor|].
  apply NoDup_cons in Hn as [Ha Hn]. constructor; [by apply IH|]. rewrite Forall_forall in *. intros b Hb. specialize (Hall b Hb).
  unfold cmp_le, row_cmp in Hall. rewrite (proj1 (zcmp_spec _ _)) in Hall. enough (fr_ID a ≠ fr_ID b) by lia.
  intros E. apply Ha. rewrite E. by apply list_elem_of_fmap_2.
Qed.
Lemma by_id_filter f l : by_id l → by_id (List.filter f l).
Proof. induction 1 as [|a l Hs IH Hall]; simpl; [constructor|]. destruct (f a); [|done]. constructor; [done|].
  rewrite Forall_forall in *. intros b [Hb _]%filter_bool_elem. auto. Qed.
Lemma ids_filter f (l : records) : NoDup (fr_ID <$> l) → NoDup (fr_ID <$> List.filter f l).
Proof. intros Hn. eapply sublist_NoDup; [exact Hn|]. apply fmap_sublist, filter_sublist. Qed.
Lemma isort_filter f l : NoDup (fr_ID <$> l) → isort row_cmp (List.filter f l) = List.filter f (isort row_cmp l).
Proof.
  intros Hn. apply by_id_unique; [by apply by_id_isort, ids_filter|by apply by_id_filter, by_id_isort|].
  apply NoDup_Permutation.
  - rewrite isort_perm. eapply NoDup_fmap_1, ids_filter, Hn.
  - eapply sublist_NoDup; [|apply filter_sublist]. rewrite isort_perm. by eapply NoDup_fmap_1.
  - intros r. rewrite isort_elem, !filter_bool_elem, isort_elem. done.
Qed.
Lemma last_greatest l r : by_id l → last l = Some r → ∀ q, q ∈ l → fr_ID q ≤ fr_ID r.
Proof.
  induction 1 as [|a l Hs IH Hall]; [done|]. rewrite Forall_forall in Hall. destruct l as [|b l]; intros Hl q [->|Hq]%elem_of_cons.
  - by injection Hl as ->.
  - by apply elem_of_nil in Hq.
  - apply Z.lt_le_incl, Hall. by eapply last_Some_elem_of.
  - by apply IH.
Qed.
(** After a page come the rows above its last. *)
Lemma next_page l n r : by_id l → last (take n l) = Some r → List.filter (λ q, fr_ID r <? fr_ID q) l = drop n l.
Proof.
  intros Hs Hl. assert (Happ := take_drop n l). rewrite <-Happ in Hs. apply StronglySorted_app in Hs as (Hlt & Hs1 & _).
  rewrite <-Happ at 1. rewrite List.filter_app, filter_none, filter_all; [done| |].
  - intros q Hq. apply Z.ltb_lt. apply Hlt; [by eapply last_Some_elem_of|done].
  - intros q Hq. apply Z.ltb_ge. by eapply last_greatest.
Qed.
End pages.

Section plan_spec.
Context `{Exec} (planBatch : nat) (recheckEvery : Z).

(** The file of the record is not there with its size. *)
Definition size_wrong (f : fs) (r : FileRecord) : bool :=
  match data_at f (fr_RelPath r) with Some d => negb (data_size d =? fr_Size r) | None => true end.
(** What the plan has for a record, and for all of them. *)
Definition check_of (sample : list Z) (f : fs) (r : FileRecord) : check :=
  if size_wrong f r then CheckStat else if mem (fr_ID r) sample then CheckHash else NoCheck.
Definition planned_item (sample : list Z) (f : fs) (r : FileRecord) : list item :=
  if has_copy r && negb (bool_decide (check_of sample f r = NoCheck)) then [verify_item r (check_of sample f r)] else [].

Lemma xbind_looks {A B} (m : X A) (k : A → X B) s b s' : looks m → xbind m k s = (Ok b, s') →
  ∃ a s1, m s = (Ok a, s1) ∧ s_w s1 = s_w s ∧ k a s1 = (Ok b, s').
Proof. intros Hm. destruct (Hm s) as [Hw _]. unfold xbind. destruct (m s) as [[a|e] s1]; [|done]. eauto. Qed.

Lemma reader_statProblem rec : reader (statProblem rec).
Proof. apply reader_bind; [apply reader_try, reader_Lstat|]. intros [st|e]; [done|]. by destruct (not_exist e). Qed.
Lemma Lstat_absent p s e : (Lstat p s).1 = Err e → not_exist e = true → data_at (w_fs (s_w s)) p = None.
Proof.
  unfold Lstat, fs_read, may_refuse, xbind. destruct (negb _); simpl; [by intros [= <-]|]. destruct (e_refuse the_env _) as [[]|]; simpl; try by intros [= <-].
  unfold os_lstat, data_at. by destruct (f_tree _ !! p).
Qed.
Lemma shown_size f nl n p r : fs_ok f → entry f p = Some n → p = fr_RelPath r →
  negb (Regular (stat_of f nl n)) || negb (fs_Size (stat_of f nl n) =? fr_Size r) = size_wrong f r.
Proof.
  intros Hok Hn ->. unfold size_wrong, data_at. unfold entry in Hn. rewrite Hn. destruct n as [i| |]; try done.
  destruct (ok_inode _ Hok _ _ Hn) as [x Hx]. simpl. by rewrite Hx.
Qed.
Lemma statProblem_says rec s p : fs_ok (w_fs (s_w s)) → (statProblem rec s).1 = Ok p → p = size_wrong (w_fs (s_w s)) rec.
Proof.
  intros Hok. unfold statProblem, xbind, xtry. pose proof (Lstat_shows (fr_RelPath rec) s) as Hs. pose proof (Lstat_absent (fr_RelPath rec) s) as Ha.
  destruct (Lstat _ s) as [[st|e] s1]; simpl in *.
  - intros [= <-]. destruct (Hs st eq_refl) as (nl & n & Hn & ->). by eapply shown_size.
  - destruct (not_exist e) eqn:E; [|done]. intros [= <-]. unfold size_wrong. by rewrite (Ha e).
Qed.

(** A step of the plan: the items written and those of the batch grow by [l]. *)
Record step_to (s : st) (b : list item) (s' : st) (b' : list item) (l : list item) : Prop := mkStepTo {
  st_files : same_files (s_w s) (s_w s');
  st_items : foldl add_item (w_items (s_w s')) b' = foldl add_item (foldl add_item (w_items (s_w s)) b) l;
}.
Lemma step_refl s s' b : s_w s' = s_w s → step_to s b s' b [].
Proof. intros Hw. split; [by rewrite Hw|by rewrite Hw]. Qed.
Lemma step_trans s1 b1 s2 b2 s3 b3 l l' : step_to s1 b1 s2 b2 l → step_to s2 b2 s3 b3 l' → step_to s1 b1 s3 b3 (l ++ l')%list.
Proof. intros [[E1 E2] E3] [[E4 E5] E6]. split; [split; congruence|]. by rewrite E6, E3, foldl_app. Qed.
Lemma step_add s b fin s' : AddItems b fin s = (Ok tt, s') → step_to s b s' [] [].
Proof.
  unfold AddItems, db_ok, xbind. simpl. destruct (e_db the_env _); simpl; [done|]. intros [= <-]. by split.
Qed.

Lemma plan_record_step sample rec since b s since' b' s' : fs_ok (w_fs (s_w s)) →
  plan_record planBatch recheckEvery sample rec (since, b) s = (Ok (since', b'), s') →
  step_to s b s' b' (planned_item sample (w_fs (s_w s)) rec).
Proof.
  intros Hok. unfold plan_record, planned_item. destruct (has_copy rec); simpl; [|intros [= <- <- <-]; by apply step_refl].
  intros Hr. apply xbind_looks in Hr as ([] & s1 & _ & Hw1 & Hr); [done| |done].
  apply xbind_looks in Hr as (since2 & s2 & _ & Hw2 & Hr); [|destruct (_ <=? _); [apply looks_bind; [apply looks_refuse|done]|done]].
  apply xbind_looks in Hr as (p & s3 & Hp & Hw3 & Hr); [|apply looks_reader, reader_statProblem].
  assert (s_w s2 = s_w s) as Hw by congruence. assert (s_w s3 = s_w s) as Hw' by congruence.
  pose proof (statProblem_says rec s2 p) as Hsays. rewrite Hp, Hw in Hsays. specialize (Hsays Hok eq_refl). subst p.
  change (if size_wrong (w_fs (s_w s)) rec then CheckStat else if mem (fr_ID rec) sample then CheckHash else NoCheck) with (check_of sample (w_fs (s_w s)) rec) in Hr.
  destruct (bool_decide _); simpl; [injection Hr as <- <- <-; by apply step_refl|].
  assert (Hb : step_to s b s3 (b ++ [verify_item rec (check_of sample (w_fs (s_w s)) rec)])%list [verify_item rec (check_of sample (w_fs (s_w s)) rec)]).
  { split; [by rewrite Hw'|]. by rewrite Hw', foldl_app. }
  destruct (_ <=? _)%nat; [|by injection Hr as <- <- <-]. unfold xbind in Hr. destruct (AddItems _ _ s3) as [[[]|e] s4] eqn:Ea; [|done]. injection Hr as <- <- <-.
  apply step_add in Ea. rewrite <-(app_nil_r [_]). by eapply step_trans.
Qed.
Lemma plan_records_step sample recs since b s since' b' s' : fs_ok (w_fs (s_w s)) →
  plan_records planBatch recheckEvery sample recs (since, b) s = (Ok (since', b'), s') →
  step_to s b s' b' (flat_map (planned_item sample (w_fs (s_w s))) recs).
Proof.
  revert since b s. induction recs as [|rec recs IH]; intros since b s Hok; cbn [plan_records flat_map]; [intros [= <- <- <-]; by apply step_refl|].
  unfold xbind. destruct (plan_record _ _ _ _ _ s) as [[[since1 b1]|e] s1] eqn:E; [|done]. intros Hr.
  apply plan_record_step in E; [|done]. destruct (st_files _ _ _ _ _ E) as [Ef _].
  eapply step_trans; [exact E|]. apply IH in Hr; [by rewrite <-Ef|by rewrite Ef].
Qed.

Definition all_live (t : records) : records := isort row_cmp (List.filter (λ r, (fr_DestinationID r =? x_dest the_run) && live r) t).
Lemma live_page_all after t : NoDup (fr_ID <$> t) → live_page after t = take pageSize (List.filter (λ r, after <? fr_ID r) (all_live t)).
Proof.
  intros Hn. unfold live_page, all_live. f_equal. rewrite <-isort_filter by (by apply ids_filter). f_equal.
  clear Hn. induction t as [|r t IH]; simpl; [done|]. destruct (fr_DestinationID r =? _), (live r), (after <? fr_ID r) eqn:Ea; simpl; rewrite ?Ea, IH; done.
Qed.
Lemma each_live_step sample fuel after since b s since' b' s' : fs_ok (w_fs (s_w s)) → NoDup (fr_ID <$> w_recs (s_w s)) →
  let rest := List.filter (λ r, after <? fr_ID r) (all_live (w_recs (s_w s))) in
  (length rest < fuel)%nat → each_live planBatch recheckEvery fuel sample after (since, b) s = (Ok (since', b'), s') →
  step_to s b s' b' (flat_map (planned_item sample (w_fs (s_w s))) rest).
Proof.
  revert after since b s. induction fuel as [|fuel IH]; intros after since b s Hok Hn rest Hf; [lia|]. simpl. intros Hr.
  apply xbind_looks in Hr as (page & s1 & Hp & Hw & Hr); [|apply looks_db_read].
  pose proof (db_read_ok (live_page after) s page) as Hpage. rewrite Hp in Hpage. specialize (Hpage eq_refl).
  rewrite live_page_all in Hpage by done. fold rest in Hpage.
  unfold xbind in Hr. destruct (plan_records _ _ _ _ _ s1) as [[[since1 b1]|e] s2] eqn:E; [|done].
  apply plan_records_step in E; [|by rewrite Hw]. rewrite Hw in E.
  assert (step_to s b s2 b1 (flat_map (planned_item sample (w_fs (s_w s))) page)) as Hstep by (destruct E as [E1 E2]; rewrite Hw in E1, E2; by split).
  clear E. rewrite <-(take_drop pageSize rest), <-Hpage.
  assert (Hdone : drop pageSize rest = [] → s2 = s' → b1 = b' → step_to s b s' b' (flat_map (planned_item sample (w_fs (s_w s))) (page ++ drop pageSize rest)%list)).
  { intros -> <- <-. by rewrite app_nil_r. }
  destruct (last page) as [r|] eqn:Hl.
  2: { apply last_None in Hl. injection Hr as <- <- <-. apply Hdone; [|done..]. rewrite Hl in Hpage. destruct rest; [by destruct pageSize|done]. }
  destruct (length page <? pageSize)%nat eqn:Elen.
  { apply Nat.ltb_lt in Elen. injection Hr as <- <- <-. apply Hdone; [|done..]. apply drop_ge. rewrite Hpage, length_take in Elen. lia. }
  rewrite flat_map_app. eapply step_trans; [exact Hstep|]. destruct Hstep as [[Ef Er] _].
  assert (Hnext : List.filter (λ q, fr_ID r <? fr_ID q) (all_live (w_recs (s_w s2))) = drop pageSize rest).
  { rewrite Er. assert (Hs : StronglySorted (λ a b, fr_ID a < fr_ID b) rest) by (by apply by_id_filter, by_id_isort, ids_filter).
    rewrite <-(next_page rest pageSize r Hs) by (by rewrite <-Hpage). unfold rest.
    assert (Hr' : r ∈ rest) by (eapply (subseteq_take pageSize); rewrite <-Hpage; by eapply last_Some_elem_of).
    apply filter_bool_elem in Hr' as [_ Hr'%Z.ltb_lt]. clear -Hr'. induction (all_live _) as [|q l IH]; simpl; [done|].
    destruct (after <? fr_ID q) eqn:Ea; simpl; rewrite IH; [done|]. apply Z.ltb_ge in Ea. by rewrite (proj2 (Z.ltb_ge _ _)) by lia. }
  rewrite <-Hnext, <-Ef. apply IH in Hr; [done|by rewrite Ef|by rewrite Er|]. rewrite Hnext, length_drop. 
  apply Nat.ltb_ge in Elen. rewrite Hpage, length_take in Elen. unfold pageSize in *. lia.
Qed.

(** *** The sample, as it is asked for *)

(** The records a verify job is about. *)
Definition verifiable (r : FileRecord) : Prop := fr_DestinationID r = x_dest the_run ∧ (fr_State r = StatePresent ∨ fr_State r = StateLinked).
#[export] Instance verifiable_dec r : base.Decision (verifiable r).
Proof. unfold verifiable. apply _. Defined.
(** The share of them whose content is checked, in percent: 5 when none is configured. *)
Definition share (vf : verify_env) : Z :=
  match x_verify the_run with
  | VerifyFull => 100
  | VerifySample => if vf_samplePercent vf <=? 0 then 5 else vf_samplePercent vf
  | VerifyOff => 0
  end.
(** [a] is at least as overdue as [b]: never verified, or not after it. Of two that are
    equally overdue the one with the smaller id comes first. *)
Definition overdue (a b : FileRecord) : Prop :=
  match fr_VerifiedAt a, fr_VerifiedAt b with
  | None, Some _ => True
  | Some _, None => False
  | None, None => fr_ID a ≤ fr_ID b
  | Some x, Some y => x < y ∨ (x = y ∧ fr_ID a ≤ fr_ID b)
  end.
(** [l] is a sample of [p] percent of the records, rounded up: the most overdue ones. *)
Record sampled (p : Z) (t l : records) : Prop := mkSampled {
  sp_once : NoDup (fr_ID <$> l);
  sp_some r : r ∈ l → r ∈ t ∧ verifiable r;
  sp_enough : p * Z.of_nat (length (filter verifiable t)) ≤ 100 * Z.of_nat (length l) ∨ length l = length (filter verifiable t);
  sp_not_more : l = [] ∨ 100 * (Z.of_nat (length l) - 1) < p * Z.of_nat (length (filter verifiable t));
  sp_oldest a b : a ∈ l → b ∈ t → verifiable b → b ∉ l → overdue a b;
}.

#[export] Instance oldest_ordering : Ordering oldest_cmp.
Proof.
  assert (Hle : ∀ a b, oldest_cmp a b ≤ 0 ↔ overdue a b).
  { intros a b. unfold oldest_cmp, overdue, then_cmp, zcmp.
    destruct (fr_VerifiedAt a) as [x|], (fr_VerifiedAt b) as [y|]; simpl; rewrite ?Z.compare_refl; simpl; try lia;
      repeat (match goal with |- context [?u ?= ?v] => destruct (Z.compare_spec u v) end; simpl); lia. }
  split; intros *; rewrite !Hle; unfold overdue; repeat case_match; lia.
Qed.
Lemma oldest_overdue a b : cmp_le oldest_cmp a b → overdue a b.
Proof.
  unfold cmp_le, oldest_cmp, overdue, then_cmp, zcmp.
  destruct (fr_VerifiedAt a) as [x|], (fr_VerifiedAt b) as [y|]; simpl; rewrite ?Z.compare_refl; simpl; try lia;
    repeat (match goal with |- context [?u ?= ?v] => destruct (Z.compare_spec u v) end; simpl); lia.
Qed.
Lemma has_copy_states r : has_copy r = true ↔ fr_State r = StatePresent ∨ fr_State r = StateLinked.
Proof. unfold has_copy. destruct (fr_State r); simpl; naive_solver. Qed.
Lemma checked_verifiable r : checked r = true ↔ verifiable r.
Proof. unfold checked, verifiable. by rewrite andb_true_iff, Z.eqb_eq, has_copy_states. Qed.
Lemma filter_checked t : List.filter checked t = filter verifiable t.
Proof.
  induction t as [|r t IH]; [done|]. rewrite filter_cons. simpl. pose proof (checked_verifiable r) as Hr. rewrite IH.
  destruct (decide (verifiable r)) as [Hv|Hv], (checked r); try done; [apply Hr in Hv; done|by destruct Hv; apply Hr].
Qed.
Lemma sample_size_share vf n : 0 ≤ n → 0 ≤ sample_size vf n ∧ share vf * n ≤ 100 * sample_size vf n < share vf * n + 100.
Proof.
  intros Hn. unfold sample_size, share, DefaultSamplePercent. destruct (x_verify the_run); [lia| |lia].
  set (p := if _ <=? 0 then _ else _). assert (0 < p) by (unfold p; destruct (Z.leb_spec (vf_samplePercent vf) 0); lia).
  assert (0 ≤ n * p + 99) by nia. rewrite Z.quot_div_nonneg by lia. pose proof (Z.div_mod (n * p + 99) 100). pose proof (Z.mod_pos_bound (n * p + 99) 100).
  split; [by apply Z.div_pos|]. lia.
Qed.
Lemma sample_sampled vf t : NoDup (fr_ID <$> t) →
  let l := take (Z.to_nat (sample_size vf (Z.of_nat (length (List.filter checked t))))) (isort oldest_cmp (List.filter checked t)) in
  sampled (share vf) t l.
Proof.
  intros Hn. rewrite filter_checked. set (n := Z.of_nat _). pose proof (sample_size_share vf n ltac:(lia)) as [H0 Hs].
  set (k := sample_size vf n) in *. set (all := isort _ _). cbv zeta.
  assert (Hperm : all ≡ₚ filter verifiable t) by apply isort_perm.
  assert (Hlen : length all = Z.to_nat n) by (rewrite Hperm; unfold n; lia).
  assert (Hids : NoDup (fr_ID <$> all)).
  { rewrite Hperm. eapply sublist_NoDup; [exact Hn|]. apply fmap_sublist, sublist_filter. }
  split.
  - eapply sublist_NoDup; [exact Hids|]. apply fmap_sublist, sublist_take.
  - intros r Hr%(subseteq_take _ _). rewrite Hperm in Hr. apply list_elem_of_filter in Hr as [??]. done.
  - rewrite length_take, Hlen. fold n. destruct (Z.le_gt_cases k n); [left|right]; unfold n in *; lia.
  - rewrite length_take, Hlen. fold n. destruct (Z.le_gt_cases k 0) as [Hk|Hk]; [left; by replace (Z.to_nat k) with 0%nat by lia|]. right.
    fold n. rewrite Nat2Z.inj_min, !Z2Nat.id by lia. lia.
  - intros a b Ha Hb Hv Hout. apply oldest_overdue.
    assert (Hin : b ∈ all) by (rewrite Hperm; by apply list_elem_of_filter).
    rewrite <-(take_drop (Z.to_nat k) all), elem_of_app in Hin. destruct Hin as [Hin|Hin]; [done|].
    pose proof (isort_sorted oldest_cmp (filter verifiable t)) as Hsort. fold all in Hsort.
    rewrite <-(take_drop (Z.to_nat k) all) in Hsort. apply StronglySorted_app in Hsort as (Hle & _ & _). by apply Hle.
Qed.

(** What the plan has for one of these records. *)
Definition check_item (sample : list Z) (f : fs) (r : FileRecord) : list item :=
  match check_of sample f r with NoCheck => [] | k => [verify_item r k] end.
Lemma planned_check sample f t : flat_map (planned_item sample f) t = flat_map (check_item sample f) (List.filter has_copy t).
Proof.
  induction t as [|r t IH]; [done|]. simpl. rewrite IH. unfold planned_item. destruct (has_copy r); simpl; [|done].
  f_equal. unfold check_item. by destruct (check_of sample f r).
Qed.
Lemma planned_rows t : NoDup (fr_ID <$> t) →
  let rows := List.filter has_copy (all_live t) in
  StronglySorted (λ a b, fr_ID a < fr_ID b) rows ∧ (∀ r, r ∈ rows ↔ r ∈ t ∧ verifiable r).
Proof.
  intros Hn. split; [by apply by_id_filter, by_id_isort, ids_filter|]. intros r. unfold all_live.
  rewrite filter_bool_elem, isort_elem, filter_bool_elem, andb_true_iff, Z.eqb_eq, has_copy_states. unfold verifiable, live.
  destruct (fr_State r); naive_solver.
Qed.
End plan_spec.

(** The items planned, with the sample as the code chooses it. *)
Lemma verify_plan_items fold hash r en vf planBatch recheckEvery s s' :
  let H := mkExec fold hash r en in
  let t := w_recs (s_w s) in
  let total := Z.of_nat (length (List.filter checked t)) in
  let sample := choose_sample (sample_size vf total) t in
  fs_ok (w_fs (s_w s)) → NoDup (fr_ID <$> t) → (∀ q, q ∈ t → 0 < fr_ID q) → verify_plan vf planBatch recheckEvery s = (Ok tt, s') →
  w_items (s_w s') = foldl add_item (w_items (s_w s)) (flat_map (planned_item sample (w_fs (s_w s))) (all_live t)) ∧
  same_files (s_w s) (s_w s').
Proof.
  intros H t total sample Hok Hn Hpos Hr. unfold verify_plan in Hr.
  apply xbind_looks in Hr as (n & s1 & Hread & Hw1 & Hr); [|apply looks_db_read].
  pose proof (db_read_ok (H := H) (λ t, Z.of_nat (length (List.filter checked t))) s n) as En. rewrite Hread in En. specialize (En eq_refl). simpl in En.
  apply xbind_looks in Hr as (sm & s2 & Hs & Hw2 & Hr); [|destruct (0 <? _); [apply looks_db_read|done]].
  assert (sm = sample) as ->.
  { unfold sample, total, t. rewrite <-En. destruct (0 <? _) eqn:E0.
    - pose proof (db_read_ok (H := H) (choose_sample (sample_size vf n)) s1 sm) as Es. rewrite Hs in Es. rewrite (Es eq_refl), Hw1. done.
    - injection Hs as <- _. apply Z.ltb_ge in E0. unfold choose_sample. replace (Z.to_nat (sample_size vf n)) with 0%nat by lia. done. }
  apply xbind_looks in Hr as (w & s3 & Hw & Hw3 & Hr); [|done]. injection Hw as <- <-. assert (s_w s2 = s_w s) as E2 by (by rewrite Hw2).
  unfold xbind in Hr. destruct (each_live _ _ _ _ _ _ s2) as [[[since b]|e] s4] eqn:E; [|done].
  assert (Hall : List.filter (λ r, 0 <? fr_ID r) (all_live t) = all_live t).
  { apply filter_all. intros q Hq. apply Z.ltb_lt, Hpos. unfold all_live in Hq. apply isort_elem, filter_bool_elem in Hq. apply Hq. }
  apply each_live_step in E; rewrite ?E2; try done.
  - rewrite E2 in E. fold t in E. rewrite Hall in E. apply step_add in Hr. pose proof (step_trans _ _ _ _ _ _ _ _ E Hr) as [Ef Ei].
    rewrite app_nil_r in Ei. simpl in Ei. rewrite E2 in Ei. split; [done|]. by rewrite E2 in Ef.
  - fold t. rewrite Hall. unfold all_live. rewrite isort_length. apply Nat.lt_succ_r. apply (sublist_length _ _ (filter_sublist _ t)).
Qed.

(** C9: What a verify job plans: for every present or linked record of the destination, by
    id, a check of the size when its file is not there with the recorded size, else a
    check of the content when it is in the sample, else nothing. The sample is the
    configured share of these records (all of them for a full check, 5 percent when no share
    is configured), rounded up, and no record outside it is more overdue than one in it:
    never verified, or verified longer ago. The pages the records are read in and the
    batches the items are written in do not show, and nothing else changes. *)
Theorem verify_plan_exact fold hash r en vf planBatch recheckEvery s s' :
  let H := mkExec fold hash r en in
  let t := w_recs (s_w s) in
  fs_ok (w_fs (s_w s)) → NoDup (fr_ID <$> t) → (∀ q, q ∈ t → 0 < fr_ID q) → verify_plan vf planBatch recheckEvery s = (Ok tt, s') →
  ∃ sample rows, sampled (share vf) t sample ∧
    StronglySorted (λ a b, fr_ID a < fr_ID b) rows ∧ (∀ q, q ∈ rows ↔ q ∈ t ∧ verifiable q) ∧
    w_items (s_w s') = foldl add_item (w_items (s_w s)) (flat_map (check_item (fr_ID <$> sample) (w_fs (s_w s))) rows) ∧
    same_files (s_w s) (s_w s').
Proof.
  intros H t Hok Hn Hpos Hr. destruct (planned_rows t Hn) as [Hsorted Hrows].
  eexists _, _. split; [by apply sample_sampled|]. split; [exact Hsorted|]. split; [exact Hrows|].
  rewrite <-planned_check. by eapply verify_plan_items.
Qed.

(** ** What checking changes *)

Section audit.
Context `{Exec} (w0 : world) (old : list world).
#[local] Abbreviation f0 := (w_fs w0).

(** The file of [q] is as recorded. *)
Definition intact (q : FileRecord) : Prop :=
  ∃ d, data_at f0 (fr_RelPath q) = Some d ∧ data_size d = fr_Size q ∧ (fr_Hash q = "" ∨ hash_of d = fr_Hash q).
(** Two files with the same content. *)
Definition shares (a b : FileRecord) : Prop :=
  ∃ d d', data_at f0 (fr_RelPath a) = Some d ∧ data_at f0 (fr_RelPath b) = Some d' ∧ same_content d d'.
(** A row whose file is not as recorded, or is the content of a hardlink that is bad. *)
Inductive bad : FileRecord → Prop :=
| bad_file q : ¬ intact q → bad q
| bad_marked q l : l ∈ w_recs w0 → fr_LinkOf l = fr_ID q → fr_State l = StateMissing → shares l q → bad q
| bad_shared q l : l ∈ w_recs w0 → fr_LinkOf l = fr_ID q → bad l → shares l q → bad q.

(** What checking makes of a row. *)
Definition audited (q r : FileRecord) : Prop := ∃ st h v,
  r = mkRecord (fr_ID q) (fr_DestinationID q) (fr_SourceID q) (fr_RelPath q) (fr_SourceRelPath q) (fr_Size q) (fr_MtimeNs q) h (fr_LinkOf q) st
        (fr_RetainedPath q) (fr_Reason q) (fr_JobID q) (fr_CopiedAt q) v (fr_RetainedAt q) (fr_ExpiresAt q) ∧
  (st = fr_State q ∨ has_copy q = true ∧ st = StateMissing ∧ bad q) ∧
  (v = fr_VerifiedAt q ∧ h = fr_Hash q ∨
   ∃ k d, v = Some (e_now the_env k) ∧ data_at f0 (fr_RelPath q) = Some d ∧ intact q ∧ h = if bool_decide (fr_Hash q = "") then hash_of d else fr_Hash q).

Lemma audited_refl q : audited q q.
Proof. exists (fr_State q), (fr_Hash q), (fr_VerifiedAt q). split; [by destruct q|]. auto. Qed.
Lemma audited_intact q r : audited q r → intact r ↔ intact q.
Proof.
  intros (st & h & v & -> & _ & Hh). unfold intact. simpl. destruct Hh as [[_ ->]|(k & d & _ & Hd & Hi & ->)]; [done|]. case_bool_decide as Hq; [|done].
  split; intros (d' & Hd' & Hs & Hc); exists d'; split_and!; auto. destruct Hi as (d2 & Hd2 & _). right. congruence.
Qed.
Lemma audited_missing q r : audited q r → bad q → audited q (missing_row r).
Proof.
  intros Hr Hb. unfold missing_row. destruct (has_copy r) eqn:E; [|done]. destruct Hr as (st & h & v & -> & Hst & Hh).
  exists StateMissing, h, v. split_and!; [done| |done]. right. split_and!; [|done..]. destruct Hst as [->|(? & _)]; [exact E|done].
Qed.
Lemma audited_verified q r d k : audited q r → data_at f0 (fr_RelPath r) = Some d → intact r → audited q (verified_row (hash_of d) (e_now the_env k) r).
Proof.
  intros Hr Hd Hi. pose proof (proj1 (audited_intact _ _ Hr) Hi) as Hq. destruct Hr as (st & h & v & -> & Hst & Hh). simpl in Hd.
  eexists st, _, _. split; [done|]. split; [done|]. right. exists k, d. split_and!; [done..|]. simpl.
  destruct Hh as [[_ ->]|(k' & d' & _ & Hd' & _ & ->)]; [done|]. assert (d' = d) as -> by congruence.
  destruct (bool_decide (fr_Hash q = "")) eqn:E; [|by rewrite E]. by destruct (bool_decide (hash_of d = "")).
Qed.

Record audit_ok (w : world) : Prop := mkAuditOk {
  ao_fs : w_fs w = f0;
  ao_rows : Forall2 audited (w_recs w0) (w_recs w);
}.
#[local] Abbreviation Good := (WorldLogic.Good audit_ok old).
#[local] Abbreviation sat := (WorldLogic.sat audit_ok old).
Hypothesis fs0 : fs_ok f0.
Hypothesis ids : NoDup (fr_ID <$> w_recs w0).

Lemma audited_ids t t' : Forall2 audited t t' → fr_ID <$> t' = fr_ID <$> t.
Proof. induction 1 as [|q r t t' (st & h & v & -> & _) Ht IH]; [done|]. rewrite !fmap_cons. by f_equal. Qed.
Lemma row_from t t' r : Forall2 audited t t' → r ∈ t' → ∃ q, q ∈ t ∧ audited q r.
Proof.
  induction 1 as [|q r' t t' Ha Ht IH]; intros Hr; [by apply elem_of_nil in Hr|]. apply elem_of_cons in Hr as [->|Hr].
  - exists q. split; [left|done].
  - destruct (IH Hr) as (q' & ? & ?). exists q'. split; [by right|done].
Qed.
(** A write of the row of [rec]. *)
Lemma write_row w rec g : audit_ok w → rec ∈ w_recs w → (∀ q, q ∈ w_recs w0 → audited q rec → audited q (g rec)) →
  audit_ok (with_recs ((λ r, if fr_ID r =? fr_ID rec then g r else r) <$> w_recs w) w).
Proof.
  intros [Hf Hr] Hin Hg. split; [done|]. simpl. assert (Hn : NoDup (fr_ID <$> w_recs w)) by (by rewrite (audited_ids _ _ Hr)).
  assert (Hone : ∀ r, r ∈ w_recs w → fr_ID r = fr_ID rec → r = rec) by (intros r Hr' E; by eapply (NoDup_fmap_inj_on fr_ID)).
  apply (Forall2_fmap_on audited); [done|]. intros q r Hq Hr' Ha. destruct (fr_ID r =? fr_ID rec) eqn:E; [|done].
  apply Z.eqb_eq in E. rewrite (Hone r Hr' E) in *. by apply Hg.
Qed.

(** *** What the looks say *)

Lemma open_dest_says rel s : w_fs (s_w s) = f0 → match (open_dest rel s).1 with
  | Ok _ => ∃ d, data_at f0 rel = Some d
  | Err e => file_problem e = true → data_at f0 rel = None
  end.
Proof.
  intros Hw. unfold open_dest, require_regular, fs_read, may_refuse, xbind. destruct (negb _); simpl; [done|].
  destruct (e_refuse the_env _) as [[]|]; simpl; try done. rewrite Hw. unfold os_lstat, data_at. destruct (f_tree f0 !! rel) as [[i| |]|] eqn:E; simpl; try done.
  destruct (e_refuse the_env _) as [[]|]; simpl; try done. destruct (ok_inode _ fs0 _ _ E) as [x ->]. by eexists.
Qed.
Lemma read_chunks_error l s e : (read_chunks l s).1 = Err e → e = XCancelled.
Proof.
  revert s. induction l as [|d l IH]; intros s; cbn [read_chunks]; unfold xbind; simpl; destruct (e_cancel the_env _); simpl; try done; try by intros [= <-].
  apply IH.
Qed.
Lemma reader_VerifyFile rel size hash : reader (VerifyFile rel size hash).
Proof.
  apply reader_bind; [apply reader_open_dest|]. intros _. apply reader_bind; [by intros s'|]. intros w. cbv zeta. destruct (negb (data_size _ =? _)); [done|].
  apply reader_bind; [apply reader_read_chunks|]. intros _. apply reader_bind; [apply reader_refuse|]. intros _. by destruct (negb (bool_decide (hash = "")) && _).
Qed.
Lemma VerifyFile_says r s : w_fs (s_w s) = f0 → match (VerifyFile (fr_RelPath r) (fr_Size r) (fr_Hash r) s).1 with
  | Ok got => intact r ∧ ∃ d, data_at f0 (fr_RelPath r) = Some d ∧ got = hash_of d
  | Err e => file_problem e = true → ¬ intact r
  end.
Proof.
  intros Hw. unfold VerifyFile. pose proof (open_dest_says (fr_RelPath r) s Hw) as Ho. destruct (reader_open_dest (fr_RelPath r) s) as [Hc _]. injection Hc as Hc _.
  unfold xbind at 1. destruct (open_dest _ s) as [[u|e] s1]; simpl in *.
  2: { intros He (d & Hd & _). specialize (Ho He). congruence. }
  destruct Ho as (d & Hd). unfold xbind at 1. simpl. rewrite Hc, Hw, Hd. simpl.
  destruct (data_size d =? fr_Size r) eqn:Es; simpl.
  2: { intros _ (d' & Hd' & Hs' & _). apply Z.eqb_neq in Es. congruence. }
  apply Z.eqb_eq in Es. unfold xbind at 1. pose proof (read_chunks_error [""] s1) as Hc1. cbn [read_chunks] in Hc1 |- *.
  destruct (xbind _ _ s1) as [[[]|e] s2]; simpl in *; [|by rewrite (Hc1 e eq_refl)].
  unfold may_refuse, xbind. simpl. destruct (e_refuse the_env _) as [[]|]; simpl; try done.
  destruct (bool_decide (fr_Hash r = "")) eqn:Eh; simpl; [apply bool_decide_eq_true in Eh|apply bool_decide_eq_false in Eh].
  - split; [exists d; auto|eauto].
  - destruct (bool_decide (hash_of d = fr_Hash r)) eqn:E; simpl; [apply bool_decide_eq_true in E|apply bool_decide_eq_false in E].
    + split; [exists d; auto|eauto].
    + intros _ (d' & Hd' & _ & [?|Hh]); congruence.
Qed.
Lemma size_wrong_bad r : size_wrong f0 r = true → ¬ intact r.
Proof. unfold size_wrong. intros Hs (d & Hd & Hsz & _). rewrite Hd in Hs. apply negb_true_iff, Z.eqb_neq in Hs. done. Qed.

Lemma Lstat_named p s st : (Lstat p s).1 = Ok st → p ≠ "".
Proof. by intros Hr ->. Qed.
Lemma Lstat_found p s st : w_fs (s_w s) = f0 → (Lstat p s).1 = Ok st → shows f0 p (Some st).
Proof.
  intros Hw Hr. pose proof (Lstat_named _ _ _ Hr) as Hp. apply Lstat_shows in Hr as (nl & n & Hn & ->). rewrite Hw in *.
  split_and!; [done|exists n; split; [done|by destruct n]|]. intros Hreg. destruct n as [i| |]; try done.
  destruct (ok_inode _ fs0 _ _ Hn) as [x Hx]. exists (n_data x). rewrite data_at_entry, Hn, Hx. simpl. by rewrite Hx.
Qed.
Lemma same_shares a sa b sb s : w_fs (s_w s) = f0 → (sameDestFile (fr_RelPath a) sa (fr_RelPath b) sb s).1 = Ok true →
  shows f0 (fr_RelPath a) (Some sa) → shows f0 (fr_RelPath b) (Some sb) → shares a b ∨ data_at f0 (fr_RelPath b) = None.
Proof.
  intros Hw Hr Ha Hb. destruct (data_at f0 (fr_RelPath a)) as [d|] eqn:Hd.
  - left. rewrite <-Hw in *. destruct (same_found _ _ _ _ _ Hr fs0 Ha Hb d Hd) as (d' & Hd' & Hs). rewrite Hw in *. by exists d, d'.
  - right. destruct Ha as (_ & (na & Hna & Hia) & Hra), Hb as (_ & (nb & Hnb & Hib) & Hrb).
    assert (ino_of na = 0) as Ea.
    { destruct na as [i| |]; try done. destruct (ok_inode _ fs0 _ _ Hna) as [x Hx]. rewrite data_at_entry, Hna, Hx in Hd. done. }
    apply xbind_reads in Hr as (id & s1 & _ & _ & Hr); [|apply reader_inodeIdentity]. destruct id.
    + injection Hr as Hr. unfold sameFile in Hr. apply andb_true_iff in Hr as [_ Hr%Z.eqb_eq].
      rewrite data_at_entry, Hnb. destruct nb as [j| |]; try done. simpl in Hib. destruct (ok_inode _ fs0 _ _ Hnb) as [x Hx].
      pose proof (ok_fresh _ fs0 j (ex_intro _ x Hx)). lia.
    + destruct (Regular sa) eqn:Er; [|done]. destruct (Hra eq_refl) as (d & ? & _). congruence.
Qed.

(** *** The steps *)

Lemma sat_mark w rec (Q : result xerr unit → world → Prop) : rec ∈ w_recs w → (∀ q, q ∈ w_recs w0 → audited q rec → bad q) → (∀ r w', Q r w') →
  sat w (db_write (λ _ t, Ok (markMissing (fr_ID rec) t))) Q.
Proof.
  intros Hin Hb HQ. apply sat_db_write; [done|]. intros now t Hw [= <-]. split; [|done].
  apply (write_row w rec missing_row); [done..|]. intros q Hq Ha. apply audited_missing; auto.
Qed.
(** A link whose row or file is bad. *)
Definition bad_link (rec : FileRecord) : Prop :=
  ∃ l, l ∈ w_recs w0 ∧ fr_LinkOf l = fr_LinkOf rec ∧ fr_RelPath l = fr_RelPath rec ∧ (fr_State l = StateMissing ∨ bad l).
Lemma sat_markShared w rec : bad_link rec → sat w (markSharedInode rec) (λ _ _, True).
Proof.
  intros (l & Hl & El & Ep & Hbad). unfold markSharedInode. destruct (_ || _); [by apply sat_ret|].
  apply (sat_look _ _ _ (λ o, o = get_record (fr_LinkOf rec) (w_recs w))); [apply looks_db_read|intros s a <- Ha; by apply db_read_ok in Ha|done|].
  intros [prim|] Hprim; [|by apply sat_ret]. symmetry in Hprim. apply find_some in Hprim as [Hprim%list_elem_of_In Eid%Z.eqb_eq].
  destruct (negb _); [by apply sat_ret|]. apply sat_good. intros [Hf Hrows].
  assert (Hl1 : ∀ p, let F r := match r with Ok st => shows f0 p (Some st) | Err _ => True end in
    looks (xtry (Lstat p)) ∧ ∀ s a, s_w s = w → (xtry (Lstat p) s).1 = Ok a → F a).
  { intros p F. split; [apply looks_try, looks_reader, reader_Lstat|]. intros s a <-. unfold xtry. pose proof (Lstat_found p s) as Hs.
    destruct (Lstat p s) as [[st|e] s1]; simpl in *; intros [= <-]; [by apply Hs|done]. }
  eapply sat_look; [apply (Hl1 (fr_RelPath rec))|apply (Hl1 (fr_RelPath rec))|done|]. intros a Ha.
  eapply sat_look; [apply (Hl1 (fr_RelPath prim))|apply (Hl1 (fr_RelPath prim))|done|]. intros b Hb.
  destruct a as [a|]; [|by apply sat_ret]. destruct b as [b|]; [|by apply sat_ret].
  apply (sat_look _ _ _ (λ r, r = Ok true → shares rec prim ∨ data_at f0 (fr_RelPath prim) = None)); [apply looks_try, looks_reader, reader_sameDestFile| |done|].
  { intros s r <-. unfold xtry. pose proof (same_shares rec a prim b s) as Hs. destruct (sameDestFile _ _ _ _ s) as [r' s1]. intros [= <-] ->. by apply Hs. }
  intros [[]|e] Hsame; [|by apply sat_ret|].
  - apply sat_mark; [done| |done]. intros q Hq Ha'. destruct (Hsame eq_refl) as [Hsh|Hnone].
    + destruct Ha' as (st & h & v & -> & _). simpl in *. assert (shares l q) by (unfold shares in *; by rewrite Ep). 
      destruct Hbad as [?|?]; [by eapply bad_marked; [..|done]; [done|congruence|]|by eapply bad_shared; [..|done]; [done|congruence|]].
    + apply bad_file. rewrite <-(audited_intact _ _ Ha'). intros (d & Hd & _). congruence.
  - apply sat_true; [by apply sat_looks|]. intros stop w'. destruct (_ || _); [by apply sat_fail|by apply sat_ret].
Qed.

Lemma sat_vf_finish w it status n : sat w (vf_finish it status n) (λ _ _, True).
Proof. apply sat_update_item; [done|]. intros Hw. split; [by destruct Hw|done]. Qed.
Lemma sat_vf_error w it e : sat w (vf_itemError it e) (λ _ _, True).
Proof.
  apply sat_true; [by apply sat_looks|]. intros [] w'; [by apply sat_fail|]. destruct (Fatal e); [by apply sat_fail|apply sat_vf_finish].
Qed.
Lemma sat_mark_and_fail w it rec : audit_ok w → rec ∈ w_recs w → ¬ intact rec → sat w (mark_and_fail it rec) (λ _ _, True).
Proof.
  intros Hw Hin Hbad. destruct (row_from _ _ _ (ao_rows _ Hw) Hin) as (l & Hl & Ha).
  assert (Hb : ∀ q, audited q rec → bad q) by (intros q Hq; apply bad_file; by rewrite <-(audited_intact _ _ Hq)).
  apply sat_true; [apply sat_mark; [done| |done]; eauto|]. intros _ w1.
  apply sat_true; [|intros; apply sat_vf_finish]. apply sat_markShared. exists l. pose proof (Hb _ Ha). destruct Ha as (st & h & v & -> & _).
  split_and!; [done..|by right].
Qed.

Lemma sat_verifyItem w it : sat w (verifyItem it) (λ _ _, True).
Proof.
  apply sat_good. intros Hw. unfold verifyItem. cbv zeta.
  apply (sat_look _ _ _ (λ o, o = get_record (dt_RecordID (xd_plan (i_Detail it))) (w_recs w))); [apply looks_db_read|intros s a <- Ha; by apply db_read_ok in Ha|done|].
  intros [rec|] Hrec; [|apply sat_vf_finish]. symmetry in Hrec. apply find_some in Hrec as [Hrec%list_elem_of_In _]. pose proof (ao_fs _ Hw) as Hf.
  destruct (bool_decide (fr_State rec = StateMissing)) eqn:Em.
  { apply bool_decide_eq_true in Em. apply sat_true; [|intros; apply sat_vf_finish]. apply sat_markShared.
    destruct (row_from _ _ _ (ao_rows _ Hw) Hrec) as (l & Hl & (st & h & v & -> & Hst & _)). exists l. simpl in *. split_and!; try done.
    destruct Hst as [->|(_ & _ & ?)]; auto. }
  destruct (negb (has_copy rec) || _); [apply sat_vf_finish|]. destruct (bool_decide (xd_Check _ = _)).
  - apply (sat_look _ _ _ (λ r, r = Ok true → ¬ intact rec)); [apply looks_try, looks_reader, reader_statProblem| |done|].
    + intros s r <-. unfold xtry. pose proof (statProblem_says rec s) as Hs. destruct (statProblem rec s) as [[p|e] s1]; intros [= <-] [= ->].
      apply size_wrong_bad. rewrite <-Hf. symmetry. apply Hs; [by rewrite Hf|done].
    + intros [[]|e] Hp; [by apply sat_mark_and_fail; auto|apply sat_vf_finish|apply sat_vf_error].
  - apply (sat_look _ _ _ (λ r, match r with Ok got => intact rec ∧ ∃ d, data_at f0 (fr_RelPath rec) = Some d ∧ got = hash_of d | Err e => file_problem e = true → ¬ intact rec end)).
    + apply looks_try, looks_reader, reader_VerifyFile.
    + intros s r <-. unfold xtry. pose proof (VerifyFile_says rec s Hf) as Hs. destruct (VerifyFile _ _ _ s) as [r' s1]. by intros [= <-].
    + done.
    + intros [got|e] Hr.
      * destruct Hr as (Hi & d & Hd & ->). apply (sat_look _ _ _ (λ now, ∃ k, now = e_now the_env k)); [done|intros s a _ [= <-]; by eexists|done|]. intros now [k ->].
        apply sat_true; [|intros; apply sat_vf_finish]. apply sat_db_write; [done|]. intros ? t Hw' [= <-]. split; [|done].
        apply (write_row w rec (verified_row (hash_of d) (e_now the_env k))); [done..|]. intros q Hq Ha. by apply audited_verified.
      * destruct (file_problem e); [apply sat_mark_and_fail; auto|apply sat_vf_error].
Qed.

Section verifying.
Context (vf : verify_env) (recheckEvery : Z).
Lemma sat_verify_batch w batch since : sat w (verify_batch vf recheckEvery batch since) (λ _ _, True).
Proof.
  revert w since. induction batch as [|it batch IH]; intros w since; simpl; [by apply sat_ret|].
  apply sat_true; [by apply sat_looks|]. intros [] w1; [by apply sat_fail|]. destruct (negb _); [apply IH|].
  apply sat_true; [by apply sat_looks|]. intros [] w2; [simpl|by apply sat_fail].
  apply sat_true; [apply sat_verifyItem|]. intros l w3. apply sat_true; [|intros; apply IH].
  apply sat_looks. destruct (_ <=? _); [|done]. apply looks_bind; [apply looks_refuse|done].
Qed.
Lemma sat_verify_batches w fuel after since : sat w (verify_batches vf recheckEvery fuel after since) (λ _ _, True).
Proof.
  revert w after since. induction fuel as [|fuel IH]; intros w after since; simpl; [by apply sat_ret|].
  apply sat_true; [apply sat_looks, looks_db_ok|]. intros _ w1. apply sat_true; [by apply sat_looks|]. intros w2 w3.
  destruct (last _) as [i|]; [|by apply sat_ret]. apply sat_true; [apply sat_verify_batch|]. intros since' w4. apply IH.
Qed.
Lemma sat_verify_execute w : sat w (verify_execute vf recheckEvery) (λ _ _, True).
Proof.
  apply sat_true; [apply sat_looks, looks_db_ok|]. intros _ w1. apply sat_true; [by apply sat_looks|]. intros w2 w3. apply sat_verify_batches.
Qed.
End verifying.

Lemma audit_start : audit_ok w0.
Proof. split; [done|]. clear. assert (∀ t, Forall2 audited t t) as Ht; [|apply Ht]. intros t. induction t; constructor; [apply audited_refl|done]. Qed.
End audit.

(** C8: While a verify job checks files it changes none of them, and after every change each
    row is as it was, but for three things: a present or linked row may be marked missing,
    and is only when its file is not there, not a regular file or not of the recorded size
    or hash, or when it shares its content with a hardlink that is marked or so; and a row
    whose file is as recorded may get the time of the check, and the SHA-256 of the file as
    its hash when it had none. *)
Theorem verify_marks_only_bad fold hash r en vf recheckEvery w n d w' :
  let H := mkExec fold hash r en in
  let s := (verify_execute vf recheckEvery (mkSt w [] n d)).2 in
  fs_ok (w_fs w) → NoDup (fr_ID <$> w_recs w) → w' = s_w s ∨ w' ∈ s_past s →
  w_fs w' = w_fs w ∧ Forall2 (audited w) (w_recs w) (w_recs w').
Proof.
  intros H s Hok Hids Hw'. assert (Hs : Good (audit_ok (H := H) w) [] (mkSt w [] n d)) by (split; [apply audit_start|constructor]).
  destruct (sat_verify_execute (H := H) w [] Hok Hids vf recheckEvery w _ Hs eq_refl) as [[Hg Hall] _]. rewrite Forall_forall in Hall.
  assert (audit_ok (H := H) w w') as He by (destruct Hw' as [->|Hw']; [done|destruct (Hall _ Hw') as [?|?%elem_of_nil]; done]).
  split; apply He.
Qed.

(** ** What one check finds *)

Section outcome.
Context `{Exec}.
Lemma db_write_ok f s s' : db_write f s = (Ok tt, s') → ∃ now t, f now (w_recs (s_w s)) = Ok t ∧ s_w s' = with_recs t (s_w s).
Proof.
  unfold db_write, db_ok, xbind. simpl. destruct (e_db the_env _); simpl; [done|]. destruct (f _ _) as [t|e] eqn:E; [|done].
  intros [= <-]. eauto.
Qed.

(** The item gets [status], the files stay. *)
Definition finishes (it : item) (status : ItemStatus) (s s' : st) : Prop :=
  w_fs (s_w s') = w_fs (s_w s) ∧ ∃ n, w_items (s_w s') =
    set_item (i_ID it) (λ i, mkItemRow (i_ID i) (i_RelPath i) (i_Action i) status n (i_Detail i)) (w_items (s_w s)).
Lemma vf_finish_ok it status n s s' : vf_finish it status n s = (Ok tt, s') → finishes it status s s' ∧ w_recs (s_w s') = w_recs (s_w s).
Proof.
  unfold vf_finish, FinishItem, update_item, db_ok, xbind. simpl. destruct (e_db the_env _); simpl; [done|]. destruct (existsb _ _); simpl; [|done].
  intros [= <-]. split; [split; [done|by exists n]|done].
Qed.
Lemma finishes_after it status s s1 s' : s_w s1 = with_recs (w_recs (s_w s1)) (s_w s) → finishes it status s1 s' → finishes it status s s'.
Proof. intros E [Hf [n Hi]]. rewrite E in Hf, Hi. split; [done|by exists n]. Qed.
Lemma vf_error_ok it e s s' : vf_itemError it e s = (Ok tt, s') → finishes it ItemFailed s s' ∧ w_recs (s_w s') = w_recs (s_w s).
Proof.
  intros Hr. apply xbind_looks in Hr as (stop & s1 & _ & Hw & Hr); [|done]. destruct stop; [done|]. destruct (Fatal e); [done|].
  apply vf_finish_ok in Hr as [Hfin Hrecs]. rewrite Hw in Hrecs. split; [|done]. eapply finishes_after; [|exact Hfin]. rewrite Hw. by destruct (s_w s).
Qed.

Lemma missing_id r : fr_ID (missing_row r) = fr_ID r.
Proof. unfold missing_row. by destruct (has_copy r). Qed.
Lemma missing_again r : missing_row (missing_row r) = missing_row r.
Proof. unfold missing_row. destruct (has_copy r) eqn:E; [done|]. by rewrite E. Qed.
Lemma get_marked id id' t : get_record id (markMissing id' t) = (λ r, if id =? id' then missing_row r else r) <$> get_record id t.
Proof.
  unfold get_record, markMissing. induction t as [|r t IH]; [done|]. simpl.
  destruct (fr_ID r =? id') eqn:E; rewrite ?missing_id; destruct (fr_ID r =? id) eqn:E'; simpl; try apply IH.
  - apply Z.eqb_eq in E, E'. by rewrite <-E', E, Z.eqb_refl.
  - apply Z.eqb_eq in E'. by rewrite <-E', E.
Qed.

(** Marking the shared primary marks one row at most. *)
Lemma markShared_ok rec s s' : markSharedInode rec s = (Ok tt, s') →
  ∃ t, s_w s' = with_recs t (s_w s) ∧ (t = w_recs (s_w s) ∨ ∃ id, t = markMissing id (w_recs (s_w s))).
Proof.
  assert (Hsame : ∀ s1, s_w s1 = s_w s → ∃ t, s_w s1 = with_recs t (s_w s) ∧ (t = w_recs (s_w s) ∨ ∃ id, t = markMissing id (w_recs (s_w s)))).
  { intros s1 ->. exists (w_recs (s_w s)). split; [by destruct (s_w s)|by left]. }
  unfold markSharedInode. destruct (_ || _); [intros [= <-]; by apply Hsame|]. intros Hr.
  apply xbind_looks in Hr as (prim & s1 & _ & Hw1 & Hr); [|apply looks_db_read]. destruct prim as [prim|]; [|injection Hr as <-; by apply Hsame].
  destruct (negb _); [injection Hr as <-; by apply Hsame|].
  apply xbind_looks in Hr as (a & s2 & _ & Hw2 & Hr); [|apply looks_try, looks_reader, reader_Lstat].
  apply xbind_looks in Hr as (b & s3 & _ & Hw3 & Hr); [|apply looks_try, looks_reader, reader_Lstat].
  assert (Ew : s_w s3 = s_w s) by congruence.
  destruct a as [a|]; [|injection Hr as <-; by apply Hsame]. destruct b as [b|]; [|injection Hr as <-; by apply Hsame].
  apply xbind_looks in Hr as (r & s4 & _ & Hw4 & Hr); [|apply looks_try, looks_reader, reader_sameDestFile].
  assert (Ew' : s_w s4 = s_w s) by congruence. destruct r as [[]|e]; [|injection Hr as <-; by apply Hsame|].
  - apply db_write_ok in Hr as (now & t & [= <-] & Hs'). rewrite Ew' in Hs'. eauto.
  - apply xbind_looks in Hr as (stop & s5 & _ & Hw5 & Hr); [|done]. destruct (_ || _); [done|]. injection Hr as <-. apply Hsame. congruence.
Qed.
Lemma mark_and_fail_ok it rec s s' : get_record (fr_ID rec) (w_recs (s_w s)) = Some rec → mark_and_fail it rec s = (Ok tt, s') →
  finishes it ItemFailed s s' ∧ get_record (fr_ID rec) (w_recs (s_w s')) = Some (missing_row rec).
Proof.
  intros Hrec Hr. apply xbind_ok in Hr as ([] & s1 & Hm & Hr). apply db_write_ok in Hm as (now & t & [= <-] & Hw1).
  apply xbind_ok in Hr as ([] & s2 & Hm & Hr). apply markShared_ok in Hm as (t & Hw2 & Ht). apply vf_finish_ok in Hr as [Hfin Hrecs].
  rewrite Hw1 in Hw2, Ht. simpl in Ht. split.
  - eapply finishes_after; [|exact Hfin]. by rewrite Hw2.
  - rewrite Hrecs, Hw2. simpl. assert (get_record (fr_ID rec) (markMissing (fr_ID rec) (w_recs (s_w s))) = Some (missing_row rec)) as Hm.
    { by rewrite get_marked, Hrec, Z.eqb_refl. }
    destruct Ht as [->|[id ->]]; [done|]. rewrite get_marked, Hm. simpl. destruct (_ =? _); by rewrite ?missing_again.
Qed.
End outcome.

(** What one check of a file with a record comes to, when it comes to an end: the item is
    done, and then the file is as recorded (of the recorded size, for a check of the size),
    and a check of the content notes its time and the file's SHA-256; or the item failed
    because the file is not as recorded, and its row is marked missing; or the item failed
    with no change of the records, when the file could not be read. *)
Theorem verify_item_outcome fold hash r en it rec s s' :
  let H := mkExec fold hash r en in
  fs_ok (w_fs (s_w s)) → get_record (dt_RecordID (xd_plan (i_Detail it))) (w_recs (s_w s)) = Some rec → has_copy rec = true →
  fr_RelPath rec = i_RelPath it → verifyItem it s = (Ok tt, s') →
  (finishes it ItemDone s s' ∧
     if bool_decide (xd_Check (i_Detail it) = CheckStat) then size_wrong (w_fs (s_w s)) rec = false ∧ w_recs (s_w s') = w_recs (s_w s)
     else intact (s_w s) rec ∧ ∃ k d, data_at (w_fs (s_w s)) (fr_RelPath rec) = Some d ∧
       w_recs (s_w s') = setVerified (fr_ID rec) (hash_of d) (e_now en k) (w_recs (s_w s))) ∨
  (finishes it ItemFailed s s' ∧ ¬ intact (s_w s) rec ∧ get_record (fr_ID rec) (w_recs (s_w s')) = Some (with_state StateMissing rec)) ∨
  (finishes it ItemFailed s s' ∧ w_recs (s_w s') = w_recs (s_w s)).
Proof.
  intros H Hok Hget Hcopy Hrel Hr. unfold verifyItem in Hr. cbv zeta in Hr.
  apply xbind_looks in Hr as (o & s1 & Ho & Hw1 & Hr); [|apply looks_db_read].
  pose proof (db_read_ok (H := H) (get_record (dt_RecordID (xd_plan (i_Detail it)))) s o) as Eo. rewrite Ho in Eo. rewrite (Eo eq_refl), Hget in Hr. clear Ho Eo o.
  assert (Hid : get_record (fr_ID rec) (w_recs (s_w s)) = Some rec) by (pose proof Hget as [_ E%Z.eqb_eq]%find_some; by rewrite E).
  assert (Hmiss : missing_row rec = with_state StateMissing rec) by (unfold missing_row; by rewrite Hcopy).
  destruct (bool_decide (fr_State rec = StateMissing)) eqn:Em; [apply bool_decide_eq_true in Em; unfold has_copy in Hcopy; by rewrite Em in Hcopy|].
  rewrite Hcopy, (bool_decide_eq_true_2 _ Hrel) in Hr. simpl in Hr.
  assert (Hmark : ∀ s2, s_w s2 = s_w s → mark_and_fail it rec s2 = (Ok tt, s') → ¬ intact (s_w s) rec →
    finishes it ItemFailed s s' ∧ ¬ intact (s_w s) rec ∧ get_record (fr_ID rec) (w_recs (s_w s')) = Some (with_state StateMissing rec)).
  { intros s2 Hw Hm Hbad. apply mark_and_fail_ok in Hm as [Hf Hg]; [|by rewrite Hw]. rewrite Hmiss in Hg. unfold finishes in *. by rewrite Hw in Hf. }
  assert (Herr : ∀ s2 e, s_w s2 = s_w s → vf_itemError it e s2 = (Ok tt, s') → finishes it ItemFailed s s' ∧ w_recs (s_w s') = w_recs (s_w s)).
  { intros s2 e Hw Hm. apply vf_error_ok in Hm. unfold finishes in *. by rewrite Hw in Hm. }
  destruct (bool_decide (xd_Check _ = _)).
  - apply xbind_looks in Hr as (p & s2 & Hp & Hw2 & Hr); [|apply looks_try, looks_reader, reader_statProblem]. assert (Hw : s_w s2 = s_w s) by (by rewrite Hw2).
    pose proof (statProblem_says (H := H) rec s1) as Hs. unfold xtry in Hp. destruct (statProblem rec s1) as [p' s3]. injection Hp as <- _. rewrite Hw1 in Hs.
    destruct p' as [p|e]; [|by right; right; eapply Herr]. specialize (Hs p Hok eq_refl). destruct p.
    + right; left. eapply Hmark; [done..|]. by apply size_wrong_bad.
    + left. apply vf_finish_ok in Hr. unfold finishes in *. rewrite Hw in Hr. destruct Hr. by split.
  - apply xbind_looks in Hr as (p & s2 & Hp & Hw2 & Hr); [|apply looks_try, looks_reader, reader_VerifyFile]. assert (Hw : s_w s2 = s_w s) by (by rewrite Hw2).
    pose proof (VerifyFile_says (H := H) (s_w s) Hok rec s1) as Hs. unfold xtry in Hp. destruct (VerifyFile _ _ _ s1) as [p' s3]. injection Hp as <- _.
    rewrite Hw1 in Hs. specialize (Hs eq_refl). destruct p' as [got|e]; simpl in Hs.
    + destruct Hs as (Hi & d & Hd & ->). left. apply xbind_ok in Hr as (now & s4 & Hn & Hr). injection Hn as <- <-.
      apply xbind_ok in Hr as ([] & s5 & Hwr & Hr). apply db_write_ok in Hwr as (k & t & [= <-] & Hw5). simpl in Hw5. rewrite Hw in Hw5.
      apply vf_finish_ok in Hr as [Hf Hrecs]. split; [eapply finishes_after; [|exact Hf]; by rewrite Hw5|]. split; [done|].
      eexists _, d. split; [done|]. by rewrite Hrecs, Hw5.
    + destruct (file_problem e); [right; left; by eapply Hmark; [..|apply Hs]|by right; right; eapply Herr].
Qed.

(** A run that finds a file of another size and a hardlink whose content has changed. *)
Definition check_run : run :=
  mkRun 1 7 (mkCapabilities true false false "" false 1 false "ext4" 0 1) (mkSettings AdoptSizeMtime 0 10 100) VerifyFull 30 false
    ".bunkarr/retention/20260101T000000Z-job7" true [] {[1 := "m"]} true.
#[local] Abbreviation demo := (mkExec (λ r, r) (λ s, s) check_run demo_env).
Definition check_row (id : Z) (name hash : string) (link : Z) (state : State) : FileRecord :=
  mkRecord id 1 1 name name 3 5 hash link state "" NoReason 3 None None None None.
Definition check_world : world :=
  mkWorld (mkFS (<["a.mkv" := NFile 1]> (<["b.mkv" := NFile 2]> (<["c.mkv" := NFile 1]> ∅)))
             (<[1 := mkInode "abc" 5]> (<[2 := mkInode "xy" 5]> ∅)) 3)
    [check_row 1 "a.mkv" "" 0 StatePresent; check_row 2 "b.mkv" "" 0 StatePresent; check_row 3 "c.mkv" "sha256:abd" 1 StateLinked] [] false.
Definition full_check : verify_env := mkVerifyEnv 5 (λ _, true).
Definition check_plan : result xerr unit * st := verify_plan (H := demo) full_check 1000 500 (mkSt check_world [] 0 no_detail).
Definition check_end : result xerr unit * st := verify_execute (H := demo) full_check 500 check_plan.2.

Example check_found :
  (λ r, (fr_State r, fr_Hash r)) <$> w_recs (s_w check_end.2) = [(StateMissing, "sha256:abc"); (StateMissing, ""); (StateMissing, "sha256:abd")] ∧
  (λ i, (xd_Check (i_Detail i), i_Status i)) <$> w_items (s_w check_end.2) = [(CheckHash, ItemDone); (CheckStat, ItemFailed); (CheckHash, ItemFailed)].
Proof. split; vm_compute; reflexivity. Qed.

Lemma check_fs_ok : fs_ok (w_fs check_world).
Proof.
  split; [| |done].
  - intros p i. simpl. rewrite !lookup_insert_Some. intros Hp.
    repeat (destruct Hp as [[_ Hp]|[_ Hp]]; [injection Hp as <-; by eexists|]). by rewrite lookup_empty in Hp.
  - intros i [x Hx]. revert Hx. simpl. rewrite !lookup_insert_Some. intros [[<- _]|[_ [[<- _]|[_ Hp]]]]; [lia..|by rewrite lookup_empty in Hp].
Qed.
Lemma check_ids : NoDup (fr_ID <$> w_recs check_world).
Proof. by apply (bool_decide_unpack (NoDup (fr_ID <$> w_recs check_world))). Qed.

(** 40 percent of three records: two of them. *)
Definition sample_run : run :=
  mkRun 1 7 (mkCapabilities true false false "" false 1 false "ext4" 0 1) (mkSettings AdoptSizeMtime 0 10 100) VerifySample 30 false
    ".bunkarr/retention/20260101T000000Z-job7" true [] {[1 := "m"]} true.
#[local] Abbreviation sampling := (mkExec (λ r, r) (λ s, s) sample_run demo_env).
Definition two_fifths : verify_env := mkVerifyEnv 40 (λ _, true).
Definition sample_plan : result xerr unit * st := verify_plan (H := sampling) two_fifths 1000 500 (mkSt check_world [] 0 no_detail).
Example sample_planned : (λ i, (i_RelPath i, xd_Check (i_Detail i))) <$> w_items (s_w sample_plan.2) = [("a.mkv", CheckHash); ("b.mkv", CheckStat)].
Proof. vm_compute. reflexivity. Qed.
Lemma verify_plan_exact_witness :
  ∃ sample rows, sampled (H := sampling) 40 (w_recs check_world) sample ∧
    StronglySorted (λ a b, fr_ID a < fr_ID b) rows ∧ (∀ q, q ∈ rows ↔ q ∈ w_recs check_world ∧ verifiable (H := sampling) q) ∧
    w_items (s_w sample_plan.2) = foldl add_item [] (flat_map (check_item (fr_ID <$> sample) (w_fs check_world)) rows) ∧
    same_files check_world (s_w sample_plan.2).
Proof.
  assert (Hr : sample_plan = (Ok tt, sample_plan.2)) by (rewrite (surjective_pairing sample_plan) at 1; f_equal; vm_compute; reflexivity).
  assert (Hpos : ∀ q, q ∈ w_recs check_world → 0 < fr_ID q).
  { apply Forall_forall. repeat constructor. }
  exact (verify_plan_exact (λ r, r) (λ s, s) sample_run demo_env two_fifths 1000 500 (mkSt check_world [] 0 no_detail) sample_plan.2 check_fs_ok check_ids Hpos Hr).
Defined.

Definition check_start : result xerr unit * st := verify_execute (H := demo) full_check 500 (mkSt check_world [] 0 no_detail).
Lemma verify_marks_only_bad_witness :
  w_fs (s_w check_start.2) = w_fs check_world ∧ Forall2 (audited (H := demo) check_world) (w_recs check_world) (w_recs (s_w check_start.2)).
Proof.
  exact (verify_marks_only_bad (λ r, r) (λ s, s) check_run demo_env full_check 500 check_world 0 no_detail _ check_fs_ok check_ids (or_introl eq_refl)).
Defined.

Definition check_it : item := nth 2 (w_items (s_w check_plan.2)) (verify_item (check_row 1 "" "" 0 StatePresent) NoCheck).
Definition check_one : result xerr unit * st := verifyItem (H := demo) check_it check_plan.2.
Definition check_rec : FileRecord := check_row 3 "c.mkv" "sha256:abd" 1 StateLinked.
Lemma verify_item_outcome_witness :
  (finishes check_it ItemDone check_plan.2 check_one.2 ∧
     if bool_decide (xd_Check (i_Detail check_it) = CheckStat) then size_wrong (w_fs (s_w check_plan.2)) check_rec = false ∧ w_recs (s_w check_one.2) = w_recs (s_w check_plan.2)
     else intact (H := demo) (s_w check_plan.2) check_rec ∧ ∃ k d, data_at (w_fs (s_w check_plan.2)) (fr_RelPath check_rec) = Some d ∧
       w_recs (s_w check_one.2) = setVerified (fr_ID check_rec) (hash_of (H := demo) d) (e_now demo_env k) (w_recs (s_w check_plan.2))) ∨
  (finishes check_it ItemFailed check_plan.2 check_one.2 ∧ ¬ intact (H := demo) (s_w check_plan.2) check_rec ∧
     get_record (fr_ID check_rec) (w_recs (s_w check_one.2)) = Some (with_state StateMissing check_rec)) ∨
  (finishes check_it ItemFailed check_plan.2 check_one.2 ∧ w_recs (s_w check_one.2) = w_recs (s_w check_plan.2)).
Proof.
  assert (Hr : check_one = (Ok tt, check_one.2)) by (rewrite (surjective_pairing check_one) at 1; f_equal; vm_compute; reflexivity).
  assert (Hok : fs_ok (w_fs (s_w check_plan.2))).
  { assert (w_fs (s_w check_plan.2) = w_fs check_world) as -> by (vm_compute; reflexivity). exact check_fs_ok. }
  exact (verify_item_outcome (λ r, r) (λ s, s) check_run demo_env check_it check_rec check_plan.2 check_one.2 Hok
    ltac:(vm_compute; reflexivity) eq_refl ltac:(vm_compute; reflexivity) Hr).
Defined.
