(* ===== verification/SyncRun.v ===== *)
(** * SyncRun: a sync job of a filecopy destination, from its plan to its end

    [SyncRunner.run] with [prepare], [scanAndPlan], [planSource], the holding of what does not
    fit and [openSources] ([syncer/sync.go], [planner.go], [tiers.go]), composed of the planner
    (SyncPlan), the mass-change guard (SyncGuard), the settling of what stopped jobs left
    (SyncSweep), the execution (SyncExec) and the hardlink manifest (LinkManifest). Left out:
    targeted syncs, transfer windows, flags that follow moves, counts for the summary. *)
From stdpp Require Import base gmap list strings.
From S2P Require Import Prelude GoStrings DestNames Tiers TierEval TierFiles SyncPlan SyncGuard DestFS FileRecords LinkManifest SyncExec SyncSweep.
Open Scope string_scope.
Open Scope Z_scope.

(** ** What an attempt finds *)

(** [catalog.Source] *)
Record Source := mkSource { src_ID : Z; src_DestFolder : string; src_Enabled : bool; src_Files : Z }.
(** A live row of the catalog. *)
Record LiveFile := mkLiveFile { lf_ID : Z; lf_RelPath : string; lf_Size : Z; lf_MtimeNs : Z; lf_HardlinkGroup : string }.

(** A regular file as [openRegular] and the reads after it see it: the answers of lstat, open,
    fstat and read. *)
Record file_view := mkFileView {
  fv_lstat : result errno FStat;
  fv_open : option refusal;
  fv_stat : result errno FStat;
  fv_read : result errno string;
}.

(** [Tiers]: [None] is a failure of the database. [tr_preview]: the records of the release
    preview, none when it is refused. *)
Record tier_engine := mkTierEngine {
  tr_Decisions : nat → Z → Source → option SourceDecisions;
  tr_Revision : nat → option Z;
  tr_preview : nat → Z → option (gmap Z releasedRecord);
}.

(** An attempt at a job: its parameters, and what it finds. Questions are numbered as in
    [env]; [a_source] and [a_refuse] answer the [k]-th read of a plan that began at the [n]-th
    question. *)
Record attempt_env := mkAttemptEnv {
  a_enabled : bool;
  a_SourceIDs : list Z;
  a_only : list Z;
  a_dryRun : bool;
  a_releaseDemoted : bool;
  a_releaseRevision : Z;
  a_planBatch : nat;
  a_recheckEvery : Z;
  a_quote : string → string;
  a_tiers : option tier_engine;
  a_get : nat → Z → option (option Source);
  a_lock : nat → Z → bool;
  a_scan : nat → Z → bool;
  a_live : nat → Z → option (list LiveFile);
  a_open : nat → Z → bool;
  a_source : nat → nat → Z → string → file_view;
  a_refuse : nat → nat → nat → option refusal;
  a_stop : nat → nat → bool;
  a_free : nat → option Z;
  a_empty : nat → Z → result unit bool;
}.

(** ** What the planner reads *)

(** [Classify], for the planner. *)
Definition classify (e : xerr) : fs_error := if Fatal e then FatalError else OtherError.
Definition refused {A} (r : option refusal) (v : result errno A) : result errno A :=
  match r with Some r => Err (refusal_errno r) | None => v end.

Definition HeadTailBytes : Z := 1048576.
Definition HeadTailPrefix : string := "headtail-sha256:".
(** A section of a file's bytes ([io.SectionReader]). *)
Definition section (off len : Z) (data : string) : string :=
  if (off =? 0) && (data_size data <=? len) then data else String.substring (Z.to_nat off) (Z.to_nat len) data.
Definition head_tail (size : Z) (data : string) : string :=
  section 0 (Z.min size HeadTailBytes) data +:+
  (if HeadTailBytes <? size
   then let off := Z.max HeadTailBytes (size - HeadTailBytes) in section off (size - off) data
   else "").

(** [openRegular] with no side: [wrap] gives its errors the destination's. *)
Definition open_regular (rel : string) (v : file_view) : result xerr FStat :=
  let dst c := XFile SideDestination c in
  guard? checkRel rel else dst ErrInvalidPath;
  match fv_lstat v with
  | Err e => Err (dst (Errno e))
  | Ok pre =>
      guard? Regular pre else dst ErrNotRegular;
      match fv_open v, fv_stat v with
      | Some r, _ => Err (dst (Errno (refusal_errno r)))
      | None, Err e => Err (dst (Errno e))
      | None, Ok st =>
          guard? Regular st && (fs_Dev st =? fs_Dev pre) && (fs_Ino st =? fs_Ino pre) else dst ErrSourceChanged;
          Ok st
      end
  end.
Definition HeadTailHash (sha : string → string) (rel : string) (v : file_view) : result xerr string :=
  let? st := open_regular rel v in
  match fv_read v with
  | Err e => Err (XFile SideNone (Errno e))
  | Ok data => Ok (HeadTailPrefix +:+ sha (head_tail (fs_Size st) data))
  end.

(** A file at the destination; [refuse] are the refusals of the calls. *)
Definition dest_view (refuse : nat → option refusal) (f : fs) (rel : string) : file_view :=
  mkFileView (refused (refuse 0%nat) (os_lstat 0 f rel)) (refuse 1%nat) (refused (refuse 2%nat) (os_lstat 0 f rel))
    (refused (refuse 3%nat) (Ok (default "" (data_at f rel)))).
(** [rootPlanFS.DestStat] *)
Definition DestStat (refuse : nat → option refusal) (f : fs) (rel : string) : result fs_error (option Stat) :=
  guard? checkRel rel else classify (XFile SideNone ErrInvalidPath);
  match refused (refuse 0%nat) (os_lstat 0 f rel) with
  | Ok st => Ok (Some (mkStat (fs_Size st) (fs_MtimeNs st) (Regular st)))
  | Err ENoEnt => Ok None
  | Err e => Err (classify (XFile SideNone (Errno e)))
  end.
Definition hash_read (r : result xerr string) : result fs_error string :=
  match r with Ok h => Ok h | Err e => Err (classify e) end.

(** [livePlanFS], and whether the context is done. *)
Definition plan_reads (sha : string → string) (a : attempt_env) (n : nat) (src : Z) (f : fs) : reads :=
  mkReads (λ k rel, hash_read (HeadTailHash sha rel (a_source a n k src rel)))
    (λ k rel, hash_read (HeadTailHash sha rel (dest_view (a_refuse a n k) f rel)))
    (λ k rel, DestStat (a_refuse a n k) f rel)
    (a_stop a n).

(** ** The records and items of a plan *)

Definition to_rec (r : FileRecord) : Rec :=
  mkRec (fr_ID r) (fr_SourceID r) (fr_RelPath r) (fr_SourceRelPath r) (fr_Size r) (fr_MtimeNs r) (fr_LinkOf r) (fr_State r) (fr_CopiedAt r).
Definition source_path_cmp (a b : FileRecord) : Z := then_cmp (str_cmp (fr_SourceRelPath a) (fr_SourceRelPath b)) (zcmp (fr_ID a) (fr_ID b)).
Definition LiveForSource (dest src : Z) (t : records) : records :=
  isort source_path_cmp (List.filter (λ r, (fr_DestinationID r =? dest) && (fr_SourceID r =? src) && live r) t).
Definition by_id (a b : FileRecord) : Z := zcmp (fr_ID a) (fr_ID b).
(** [eachLive]; nothing writes between its pages. *)
Definition eachLive (dest : Z) (t : records) : records := isort by_id (List.filter (λ r, (fr_DestinationID r =? dest) && live r) t).

(** [planItem.item] *)
Definition to_item (it : planItem) : item :=
  mkItemRow 0 (it_rel it) (it_action it) (if bool_decide (it_status it = NoStatus) then ItemPending else it_status it) (it_bytes it)
    (mkItemDetail (it_d it) "" false 0 0 "" "" 0 0 "" NoReason "" 0 0 None NoCheck "" NoReason).

(** [markReplaceChecked] *)
Definition check_row (c : replaceCheck) (r : FileRecord) : FileRecord :=
  if (fr_ID r =? rc_id c) && bool_decide (fr_State r = StatePresent) && (fr_Size r =? rc_size c) && (fr_MtimeNs r =? rc_mtimeNs c)
     && bool_decide (fr_CopiedAt r = Some (rc_copiedAt c))
  then mkRecord (fr_ID r) (fr_DestinationID r) (fr_SourceID r) (fr_RelPath r) (fr_SourceRelPath r) (fr_Size r) (fr_MtimeNs r) (fr_Hash r) (fr_LinkOf r)
         (fr_State r) (fr_RetainedPath r) (fr_Reason r) (fr_JobID r) (Some (rc_added c)) (fr_VerifiedAt r) (fr_RetainedAt r) (fr_ExpiresAt r)
  else r.
Definition mark_checked (checks : list replaceCheck) (t : records) : records := foldl (λ t c, check_row c <$> t) t checks.

(** The bytes of the planned copies, and those that are full only because a fact is unknown. *)
Definition count_item (n : Z * Z) (it : planItem) : Z * Z :=
  if no_status it && mem (it_action it) [ActionCopy; ActionUpdate]
  then (i64 (n.1 + it_bytes it), if bool_decide (it_unknownWhy it = "") then n.2 else i64 (n.2 + it_bytes it))
  else n.

Definition freeSpaceReserve : Z := 2 ^ 30.
(** [availableSpace], of what [s.free] returns. *)
Definition availableSpace (free : Z) : Z :=
  let free := Z.max (Z.min free (2 ^ 62)) 0 in
  if freeSpaceReserve <? free then Z.min (free - freeSpaceReserve) (2 ^ 62) else 0.

(** The state of an attempt ([syncRun]). *)
Record syncRun := mkSyncRun {
  s_sources : list Source;
  s_names : nameIndex;
  s_bytes : Z;
  s_unknownBytes : Z;
}.
Definition with_sources (l : list Source) (s : syncRun) : syncRun := mkSyncRun l (s_names s) (s_bytes s) (s_unknownBytes s).
Definition with_names (n : nameIndex) (s : syncRun) : syncRun := mkSyncRun (s_sources s) n (s_bytes s) (s_unknownBytes s).
Definition with_counts (b u : Z) (s : syncRun) : syncRun := mkSyncRun (s_sources s) (s_names s) b u.
(** [setSource], [dropSource] *)
Fixpoint set_source (src : Source) (l : list Source) : list Source :=
  match l with
  | [] => []
  | x :: l => if src_ID x =? src_ID src then src :: l else x :: set_source src l
  end.
Definition drop_source (id : Z) (l : list Source) : list Source := List.filter (λ x, negb (src_ID x =? id)) l.
Definition is_linked (l : list Source) (id : Z) : bool := existsb (λ x, src_ID x =? id) l.
Definition folders (l : list Source) : gmap Z string := list_to_map ((λ x, (src_ID x, src_DestFolder x)) <$> l).

Section sync.
Context `{Exec} (a : attempt_env).
#[local] Abbreviation c := the_run.
#[local] Abbreviation E := the_env.

(** A read of the database that may fail. *)
Definition from_db {A} (o : option A) : X A := match o with Some v => xret v | None => xfail (XDb None) end.
(** The error of a step, or the cancellation that caused it. *)
Definition stopped {A} (why : stop_reason) : X A :=
  let! stop := ask (e_cancel E) in xfail (if stop : bool then XCancelled else XStop why).

(** ** Planning *)

(** [selectSources] *)
Fixpoint selectSources (ids : list Z) : X (list Source) :=
  match ids with
  | [] => xret []
  | id :: ids =>
      if negb (bool_decide (a_only a = [])) && negb (mem id (a_only a)) then selectSources ids
      else
        let! f := ask (a_get a) in
        let! o := from_db (f id) in
        let! rest := selectSources ids in
        xret (match o with Some src => if src_Enabled src then src :: rest else rest | None => rest end)
  end.

(** [prepareRelease] *)
Definition prepareRelease : X (option releasePlan) :=
  match a_tiers a with
  | Some t =>
      if negb (a_releaseDemoted a) then xret None
      else if a_dryRun a then xret (Some (mkReleasePlan true ∅ 0))
      else
        let! rev := ask (tr_Revision t) in
        let! rev := from_db rev in
        if negb (a_releaseRevision a =? rev) then xret (Some (mkReleasePlan false ∅ rev))
        else
          let! f := ask (tr_preview t) in
          let! allowed := from_db (f rev) in
          xret (Some (mkReleasePlan false allowed rev))
  | None => xret None
  end.

(** [destinationNames] *)
Definition destinationNames (sources : list Source) : X nameIndex :=
  let! recs := db_read (eachLive (x_dest c)) in
  xret (foldl (λ n r, addRecord simple_fold n (fr_RelPath r) (negb (is_linked sources (fr_SourceID r)))) (newNameIndex (x_caps c)) recs).

(** The live files with their decisions. *)
Definition plan_file_of (dec : option SourceDecisions) (f : LiveFile) : planFile :=
  mkPlanFile (lf_ID f) (lf_RelPath f) (lf_Size f) (lf_MtimeNs f) (lf_HardlinkGroup f) None false
    (match dec with Some _ => Some (SourceDecisions_Decide dec (lf_ID f)) | None => None end) false.
Definition plan_config (release : option releasePlan) (n : nat) (src : Source) (dec : option SourceDecisions) (recs : records) (f : fs) : config :=
  mkConfig (src_ID src) (src_DestFolder src) (x_caps c) (x_settings c) simple_fold (a_quote a) false (a_dryRun a) release
    (match dec with Some _ => Some (ArrDateAdded dec) | None => None end) false (to_rec <$> recs) (plan_reads sha a n (src_ID src) f).
(** The items of a planned source, held where the guard holds them. *)
Definition guarded_items (cfg : config) (p : planner) (liveFiles : Z) : list planItem :=
  let ids := items cfg (p_heap p) in
  omap (λ i, (applyGuard (p_heap p) ids liveFiles (x_settings c) (x_allowChanges c)).2 !! i) ids.

(** [planSource] of a source that is there and enabled: its lock is held. *)
Definition plan_fresh (release : option releasePlan) (s : syncRun) (src : Source) : X (list planItem * syncRun) :=
  let id := src_ID src in
  let s := with_sources (set_source src (s_sources s)) s in
  let! scanned := ask (a_scan a) in
  if negb (scanned id) then stopped (ScanFailed id)
  else
    let! f := ask (a_live a) in
    let! files := from_db (f id) in
    let! recs := db_read (LiveForSource (x_dest c) id) in
    let! opened := ask (a_open a) in
    if negb (opened id) then stopped (SourceUnread id)
    else
      let! dec := match a_tiers a with
        | Some t => let! f := ask (tr_Decisions t) in match f (x_dest c) src with Some d => xret (Some d) | None => stopped TiersFailed end
        | None => xret None end in
      let! n := ask (λ n, n) in
      let! w := world_of in
      let cfg := plan_config release n src dec recs (w_fs w) in
      match SyncPlan.plan cfg (plan_file_of dec <$> files) (SyncPlan.start (s_names s)) with
      | Err Cancelled => xfail XCancelled
      | Err e => stopped (PlanFailed id e)
      | Ok (_, p) =>
          (if a_dryRun a || bool_decide (p_replaceChecked p = []) then xret tt
           else db_write (λ _ t, Ok (mark_checked (p_replaceChecked p) t))) ;!
          let its := guarded_items cfg p (Z.of_nat (length files)) in
          let '(b, u) := foldl count_item (0, 0) its in
          xret (its, with_names (p_names p) (with_counts (i64 (s_bytes s + b)) (i64 (s_unknownBytes s + u)) s))
      end.
Definition planSource (release : option releasePlan) (s : syncRun) (src : Source) : X (list planItem * syncRun) :=
  let! locked := ask (a_lock a) in
  if negb (locked (src_ID src)) then xfail XCancelled
  else
    let! f := ask (a_get a) in
    let! o := from_db (f (src_ID src)) in
    match o with
    | Some fresh => if src_Enabled fresh then plan_fresh release s fresh else xret ([], with_sources (drop_source (src_ID src) (s_sources s)) s)
    | None => xret ([], with_sources (drop_source (src_ID src) (s_sources s)) s)
    end.

(** [scanAndPlan]: the items are written in batches, the last of which completes the plan. *)
Fixpoint write_items (its : list planItem) (batch : list item) : X (list item) :=
  match its with
  | [] => xret batch
  | it :: its =>
      let batch := (batch ++ [to_item it])%list in
      if (a_planBatch a <=? length batch)%nat then AddItems batch false ;! write_items its [] else write_items its batch
  end.
Fixpoint plan_sources (release : option releasePlan) (srcs : list Source) (s : syncRun) (batch : list item) : X (syncRun * list item) :=
  match srcs with
  | [] => xret (s, batch)
  | src :: srcs =>
      let! (its, s) := planSource release s src in
      let! batch := write_items its batch in
      plan_sources release srcs s batch
  end.
Definition scanAndPlan (release : option releasePlan) (s : syncRun) : X syncRun :=
  let! names := destinationNames (s_sources s) in
  let! (s, batch) := plan_sources release (s_sources s) (with_names names s) [] in
  AddItems batch true ;!
  xret s.

(** ** What does not fit *)

(** The pending items page by page, as [run_batches] reads them. *)
Fixpoint fold_items {A} (f : A → item → X A) (v : A) (batch : list item) : X A :=
  match batch with
  | [] => xret v
  | it :: batch => let! v := f v it in fold_items f v batch
  end.
Fixpoint each_pending {A} (f : A → item → X A) (fuel : nat) (after : Z) (v : A) : X A :=
  match fuel with
  | O => xret v
  | S fuel =>
      db_ok ;!
      let! w := world_of in
      match last (pending after (w_items w)) with
      | None => xret v
      | Some l =>
          let! v := fold_items f v (pending after (w_items w)) in
          each_pending f fuel (i_ID l) v
      end
  end.
Definition all_pending {A} (f : A → item → X A) (v : A) : X A := let! w := world_of in each_pending f (S (length (w_items w))) 0 v.

Definition unknown_item (it : item) : bool :=
  match dt_Tier (xd_plan (i_Detail it)) with Some d => d_UnknownPromoted d | None => false end && bool_decide (xd_Temp (i_Detail it) = "").
(** [heldCopies]: the sources of the held copies. *)
Definition heldCopies (l : list item) : list (Z * string) :=
  List.filter (λ k, negb (k.1 =? 0) && negb (bool_decide (k.2 = "")))
    ((λ i, (dt_SourceID (xd_plan (i_Detail i)), dt_Source (xd_plan (i_Detail i)))) <$>
       List.filter (λ i, bool_decide (i_Status i = ItemHeld) && bool_decide (i_Action i = ActionCopy)) l).
Definition link_of_held (held : list (Z * string)) (it : item) : bool :=
  let d := xd_plan (i_Detail it) in bool_decide (i_Action it = ActionLink) && unknown_item it && mem (dt_SourceID d, dt_Primary d) held.
Definition hold_if (p : item → bool) (_ : unit) (it : item) : X unit := if p it then FinishItem (i_ID it) ItemHeld 0 else xret tt.
Definition holdLinksOfHeld : X unit :=
  db_ok ;!
  let! w := world_of in
  if bool_decide (heldCopies (w_items w) = []) then xret tt else all_pending (hold_if (link_of_held (heldCopies (w_items w)))) tt.
Definition unknown_copy (it : item) : bool := bool_decide (i_Action it = ActionCopy) && unknown_item it.
Definition holdUnknownCopies : X unit := all_pending (hold_if unknown_copy) tt ;! holdLinksOfHeld.

(** [checkFreeSpace]; the space is not known to be short when it cannot be read in a dry run. *)
Definition checkFreeSpace (s : syncRun) : X unit :=
  if s_bytes s =? 0 then xret tt
  else
    let! free := ask (a_free a) in
    match free with
    | None => xfail (XStop SpaceUnknown)
    | Some free =>
        let avail := availableSpace free in
        if (avail <? s_bytes s) && (0 <? s_unknownBytes s) && (i64 (s_bytes s - s_unknownBytes s) <=? avail) then
          if a_dryRun a then xret tt else holdUnknownCopies
        else if avail <? s_bytes s then xfail (XStop NoSpace)
        else xret tt
    end.

(** [recheckUnknownHold]: a resumed plan. *)
Definition count_pending (n : Z * Z) (it : item) : X (Z * Z) :=
  xret (if negb (mem (i_Action it) [ActionCopy; ActionUpdate]) then n
        else (i64 (n.1 + i_Bytes it), if unknown_copy it then i64 (n.2 + i_Bytes it) else n.2)).
Definition recheckUnknownHold : X unit :=
  match a_tiers a with
  | None => xret tt
  | Some _ =>
      if a_dryRun a then xret tt
      else
        let! (total, unknown) := all_pending count_pending (0, 0) in
        let! short := (if 0 <? unknown then
                         let! free := ask (a_free a) in
                         xret (match free with Some free => availableSpace free <? total | None => false end)
                       else xret false) in
        if short : bool then holdUnknownCopies else holdLinksOfHeld
  end.

(** [prepare]: whether this attempt planned, and the sources it covers. *)
Definition prepare : X (bool * list Source) :=
  let! sources := selectSources (a_SourceIDs a) in
  let! planned := Planned in
  if planned : bool then recheckUnknownHold ;! xret (false, sources)
  else
    DeleteItems ;!
    let! release := prepareRelease in
    let! s := scanAndPlan release (mkSyncRun sources (newNameIndex (x_caps c)) 0 0) in
    let! r := xtry (checkFreeSpace s) in
    match r with
    | Ok _ => xret (true, s_sources s)
    | Err e => if a_dryRun a then xret (true, s_sources s) else xfail e
    end.

(** ** Execution *)

(** [openSources] *)
Fixpoint openSources (planned : bool) (l : list Source) : X unit :=
  match l with
  | [] => xret tt
  | src :: l =>
      let! opened := ask (a_open a) in
      when! negb (opened (src_ID src)) fail! XStop (SourceUnread (src_ID src)) ;!
      (if planned || (src_Files src =? 0) then xret tt
       else
         let! f := ask (a_empty a) in
         match f (src_ID src) with
         | Ok true => xfail (XStop (SourceEmpty (src_ID src)))
         | Ok false => xret tt
         | Err _ => xfail (XStop (SourceUnread (src_ID src)))
         end) ;!
      openSources planned l
  end.

(** [filecopy.WriteFileAtomic] *)
Definition WriteFileAtomic (rel data : string) (noReplace : bool) : X unit :=
  when! negb (checkRel rel) || bool_decide (rel = MetaDir) fail! XFile SideDestination ErrInvalidPath ;!
  mkParents rel ;!
  let! random := ask (e_random E) in
  let temp := path_join [parentDir rel; tempName (path_base rel) random] in
  let! now := ask (e_now E) in
  fs_call SideDestination (λ f, os_create now f temp) ;!
  let! r := xtry (
    may_refuse SideDestination ;!
    fs_edit (λ f, os_append data f temp) ;!
    may_refuse SideDestination ;!
    may_refuse SideDestination ;!
    rename temp rel noReplace ;!
    syncDirs) in
  match r with
  | Ok _ => xret tt
  | Err e => let! _ := xtry (fs_call SideDestination (λ f, os_remove f temp)) in xfail e
  end.
(** [writeLinkManifest] *)
Definition writeLinkManifest : X unit :=
  let! ls := db_read (links (x_dest c)) in
  let b := LinkManifest.LinkManifest ls in
  let! old := xtry (may_refuse SideNone ;! let! w := world_of in xret (data_at (w_fs w) LinkManifestRel)) in
  let same := match old with Ok (Some x) => bool_decide (x = b) | _ => false end in
  if same then xret tt else WriteFileAtomic LinkManifestRel b false.
End sync.

(** The run that executes: the folders of the sources, and the roots that are open. *)
Definition exec_run (r : run) (l : list Source) : run :=
  mkRun (x_dest r) (x_job r) (x_caps r) (x_settings r) (x_verify r) (x_deletedDays r) (x_allowChanges r) (x_retentionDir r) (x_linkMode r)
    (x_paths r) (folders l) (x_noreplace r).
Definition exec_env (en : env) (l : list Source) : env :=
  mkEnv (e_refuse en) (e_db en) (e_cancel en) (e_now en) (e_nlink en) (e_random en) (λ _ id, is_linked l id) (e_stat en) (e_read en)
    (e_inCatalog en) (e_notBackedUp en) (e_checkRelease en).
Definition executing (H : Exec) (l : list Source) : Exec :=
  mkExec (@simple_fold H) (@sha H) (exec_run (@the_run H) l) (exec_env (@the_env H) l).

(** [SyncRunner.run] *)
Definition sync_run (H : Exec) (a : attempt_env) (lo : leftovers) : X unit :=
  when! negb (a_enabled a) fail! XStop DestDisabled ;!
  (if a_dryRun a then xret 0 else reconcile lo (x_retentionDir the_run)) ;!
  let! (planned, sources) := prepare a in
  if a_dryRun a then xret tt
  else
    openSources a planned sources ;!
    execute (H := executing H sources) (a_recheckEvery a) ;!
    let! _ := xtry writeLinkManifest in
    xret tt.
