(* ===== verification/SyncRunLogic.v ===== *)
(** * SyncRunLogic: what planning a sync changes

    Which worlds the steps of [prepare] lead through, for any relation that allows what they
    write: items, and notes of checks in the records. *)
From stdpp Require Import base gmap list strings.
From S2P Require Import Prelude GoStrings DestNames Tiers TierEval TierFiles SyncPlan SyncGuard DestFS FileRecords SyncExec SyncSweep ExecLogic WorldLogic SyncRun.
Open Scope string_scope.
Open Scope Z_scope.

(** Programs that look, and what they are made of. *)
Ltac look :=
  repeat match goal with
    | |- looks (xbind _ _) => apply looks_bind; [|intros ?]
    | |- looks (xret _) => apply looks_ret
    | |- looks (xfail _) => apply looks_fail
    | |- looks (ask _) => apply looks_ask
    | |- looks world_of => done
    | |- looks db_ok => apply looks_db_ok
    | |- looks (db_read _) => apply looks_db_read
    | |- looks Planned => apply looks_planned
    | |- looks (may_refuse _) => apply looks_refuse
    | |- looks (xtry _) => apply looks_try
    | |- looks (from_db _) => unfold from_db
    | |- looks (stopped _) => unfold stopped
    | |- looks (if _ then _ else _) => case_match
    | |- looks (match _ with _ => _ end) => case_match
    end.

(** The names of a plan are those of the destination's records. *)
Lemma indexed_caps fold (foreign : FileRecord → bool) (l : records) n : ni_caps (foldl (λ n r, addRecord fold n (fr_RelPath r) (foreign r)) n l) = ni_caps n.
Proof.
  revert n. induction l as [|r l IH]; intros n; simpl; [done|]. rewrite IH. unfold addRecord, ni_add. destruct (foreign r); destruct (negb _); try done; by destruct (ni_folded _ !! _).
Qed.

Section reading.
Context `{Exec} (a : attempt_env).
Lemma looks_selectSources ids : looks (selectSources a ids).
Proof. induction ids as [|id ids IH]; simpl; [done|]. destruct (_ && _); [done|]. look. done. Qed.
Lemma looks_prepareRelease : looks (prepareRelease a).
Proof. unfold prepareRelease. look. Qed.
Lemma looks_destinationNames l : looks (destinationNames l).
Proof. unfold destinationNames. look. Qed.
End reading.

(** Holding what does not fit. *)
Section holding.
Context `{Exec} (a : attempt_env) {R : relation world} `{!PreOrder R}.
#[local] Abbreviation through := (through R).
Definition held_row (i : item) : item := mkItemRow (i_ID i) (i_RelPath i) (i_Action i) ItemHeld 0 (i_Detail i).
Hypothesis hold_change : ∀ w id, R w (with_items (set_item id held_row (w_items w)) w).

Lemma through_all_pending {A} (f : A → item → X A) v : (∀ v it, through (f v it)) → through (all_pending f v).
Proof.
  intros Hf. apply through_bind; [by apply through_looks|]. intros w. generalize (S (length (w_items w))), 0, v.
  intros fuel. induction fuel as [|fuel IH]; intros after v'; simpl; [by apply through_looks|].
  apply through_bind; [apply through_looks, looks_db_ok|]. intros _. apply through_bind; [by apply through_looks|]. intros w'.
  destruct (last _) as [l|]; [|by apply through_looks]. apply through_bind; [|intros; apply IH].
  generalize (pending after (w_items w')), v'. intros batch. induction batch as [|it batch IHb]; intros v''; simpl; [by apply through_looks|].
  apply through_bind; [apply Hf|]. intros. apply IHb.
Qed.
Lemma through_held id : through (FinishItem id ItemHeld 0).
Proof. apply through_update_item. intros w. apply hold_change. Qed.
Lemma through_hold_if p : through (all_pending (hold_if p) tt).
Proof. apply through_all_pending. intros v it. unfold hold_if. destruct (p it); [apply through_held|by apply through_looks]. Qed.
Lemma through_holdLinksOfHeld : through holdLinksOfHeld.
Proof.
  apply through_bind; [apply through_looks, looks_db_ok|]. intros _. apply through_bind; [by apply through_looks|]. intros w.
  case_bool_decide; [by apply through_looks|apply through_hold_if].
Qed.
Lemma through_holdUnknownCopies : through holdUnknownCopies.
Proof. apply through_bind; [apply through_hold_if|]. intros _. apply through_holdLinksOfHeld. Qed.
Lemma through_checkFreeSpace s : through (checkFreeSpace a s).
Proof.
  unfold checkFreeSpace. case_match; [by apply through_looks|]. apply through_bind; [by apply through_looks|]. intros [free|]; [|by apply through_looks].
  cbv zeta. repeat case_match; try (by apply through_looks). apply through_holdUnknownCopies.
Qed.
Lemma through_recheckUnknownHold : through (recheckUnknownHold a).
Proof.
  unfold recheckUnknownHold. case_match; [|by apply through_looks]. case_match; [by apply through_looks|].
  apply through_bind; [apply through_all_pending; intros; by apply through_looks|]. intros [total unknown].
  apply through_bind; [apply through_looks; look|]. intros []; [apply through_holdUnknownCopies|apply through_holdLinksOfHeld].
Qed.
End holding.

Section planning.
Context `{Exec} (a : attempt_env) {R : relation world} `{!PreOrder R}.
#[local] Abbreviation through := (through R).
(** [R] allows changes of the items that leave the plan as complete as it is, and the notes of
    checks that found nothing replaced in a real run. *)
Hypothesis rows_change : ∀ w l, R w (with_items l w).
Hypothesis checks_change : ∀ w checks, a_dryRun a = false → R w (with_recs (mark_checked checks (w_recs w)) w).

Lemma through_plan_fresh release s src : through (plan_fresh a release s src).
Proof.
  unfold plan_fresh. cbv zeta. repeat first
    [apply through_bind; [apply through_looks; by look|intros ?]|match goal with |- WorldLogic.through _ (if _ then stopped _ else _) => case_match; [apply through_looks; by look|] end].
  destruct (SyncPlan.plan _ _ _) as [[? p]|[|]]; [|apply through_looks; by look..].
  apply through_bind; [|intros; destruct (foldl _ _ _); by apply through_looks].
  destruct (a_dryRun a) eqn:Ed; simpl; [by apply through_looks|]. case_bool_decide; [by apply through_looks|].
  apply through_db_write. intros w now t [= <-]. by apply checks_change.
Qed.
Lemma through_planSource release s src : through (planSource a release s src).
Proof.
  unfold planSource. apply through_bind; [by apply through_looks|]. intros locked. destruct (negb _); [by apply through_looks|].
  apply through_bind; [by apply through_looks|]. intros f. apply through_bind; [apply through_looks; look|]. intros [fresh|]; [|by apply through_looks].
  destruct (src_Enabled fresh); [apply through_plan_fresh|by apply through_looks].
Qed.
Lemma through_write_items its batch : through (write_items a its batch).
Proof.
  revert batch. induction its as [|it its IH]; intros batch; simpl; [by apply through_looks|].
  destruct (_ <=? _)%nat; [|apply IH]. apply through_bind; [apply (through_change (added _ false)); intros w; apply rows_change|]. intros _. apply IH.
Qed.
Lemma through_plan_sources release srcs s batch : through (plan_sources a release srcs s batch).
Proof.
  revert s batch. induction srcs as [|src srcs IH]; intros s batch; simpl; [by apply through_looks|].
  apply through_bind; [apply through_planSource|]. intros [its s2]. apply through_bind; [apply through_write_items|]. intros. apply IH.
Qed.
End planning.

Section preparing.
Context `{Exec} (a : attempt_env) {R : relation world} `{!PreOrder R}.
#[local] Abbreviation through := (through R).
Hypothesis items_change : ∀ w l p, R w (mkWorld (w_fs w) (w_recs w) l p).
Hypothesis checks_change : ∀ w checks, a_dryRun a = false → R w (with_recs (mark_checked checks (w_recs w)) w).
Lemma through_scanAndPlan release s : through (scanAndPlan a release s).
Proof.
  unfold scanAndPlan. apply through_bind; [apply through_looks, looks_destinationNames|]. intros names.
  apply through_bind; [apply through_plan_sources; [apply _|intros; apply items_change|done]|].
  intros []. apply through_bind; [apply (through_change (added _ true)); intros; apply items_change|intros; by apply through_looks].
Qed.
Lemma through_prepare : through (prepare a).
Proof.
  unfold prepare. apply through_bind; [apply through_looks, looks_selectSources|]. intros sources.
  apply through_bind; [apply through_looks, looks_planned|]. intros []; [apply through_bind; [apply through_recheckUnknownHold; [apply _|intros; apply items_change]|intros; by apply through_looks]|].
  apply through_bind; [apply (through_change no_items); intros; apply items_change|]. intros _. apply through_bind; [apply through_looks, looks_prepareRelease|]. intros release.
  apply through_bind; [apply through_scanAndPlan|]. intros s. apply through_bind; [apply through_try, through_checkFreeSpace; [apply _|intros; apply items_change]|].
  intros [|]; [by apply through_looks|]. apply through_looks. look.
Qed.
End preparing.

Lemma looks_openSources `{Exec} a planned l : looks (openSources a planned l).
Proof. induction l as [|src l IH]; simpl; [done|]. look; done. Qed.
