(* ===== verification/LinkManifestWrite.v ===== *)
(** * LinkManifestWrite: the hardlink manifest at the destination

    [filecopy.WriteFileAtomic] and [writeLinkManifest] replace the manifest in one step: whoever
    reads it finds the old one or the whole new one, and nothing else at the destination
    changes. *)
From stdpp Require Import base gmap list strings.
From S2P Require Import Prelude GoStrings DestNames Tiers SyncPlan DestFS FileRecords LinkManifest SyncExec SyncSweep ExecLogic SyncExecSafe WorldLogic SyncRun.
Open Scope string_scope.
Open Scope Z_scope.

(** Every name that is no temp file's, but the manifest's. *)
Definition spared (p : string) : Prop := plain p ∧ p ≠ LinkManifestRel.

Lemma mkdir_data f d f' p : os_mkdir_all f d = Ok f' → fs_ok f → data_at f' p = data_at f p.
Proof.
  intros Hm Hok. destruct (mkdir_all_spec _ _ _ Hm Hok) as (Hk & _ & Hi & Hback). rewrite !data_at_entry, Hi.
  destruct (entry f p) as [n|] eqn:E.
  - by rewrite (kn_entry _ _ Hk _ _ E).
  - destruct (entry f' p) as [[i| |]|] eqn:E'; try done. rewrite (Hback _ _ E') in E. done.
Qed.

Section write.
Context `{Exec} (w0 : world) (data : string).
#[local] Abbreviation rel := LinkManifestRel.

(** What holds of every world while [data] is written. *)
Record writing (w : world) : Prop := mkWriting {
  wr_fs : fs_ok (w_fs w);
  wr_kept : kept spared (w_fs w0) (w_fs w);
  wr_rows : w_recs w = w_recs w0 ∧ w_items w = w_items w0;
  wr_whole : data_at (w_fs w) rel = data_at (w_fs w0) rel ∨ data_at (w_fs w) rel = Some data;
}.
Context {old : list world}.
#[local] Abbreviation sat := (WorldLogic.sat writing old).
Definition written (r : result xerr unit) (w : world) : Prop := match r with Ok _ => data_at (w_fs w) rel = Some data | Err _ => True end.

Lemma writing_step w f : writing w → fs_ok f → kept spared (w_fs w) f → data_at f rel = data_at (w_fs w) rel ∨ data_at f rel = Some data → writing (with_fs f w).
Proof.
  intros [Hf Hk Hr Hw] Hf' Hk' Hd. split; [done|by etrans|done|]. simpl. destruct Hd as [->|?]; [done|by right].
Qed.
Lemma calm_spared f f' : kept plain f f' → kept spared f f'.
Proof. apply kept_weaken. by intros p []. Qed.

(** The temp file. *)
Definition temp (random : Z) : string := path_join [parentDir rel; tempName (path_base rel) random].
Lemma temp_odd random : ¬ plain (temp random).
Proof. apply temp_not_plain. by vm_compute. Qed.
Lemma temp_not_rel random : temp random ≠ rel.
Proof. intros E. apply (temp_odd random). rewrite E. by vm_compute. Qed.
Definition holds_temp (random : Z) (d : string) (w : world) : Prop := lone (w_fs w) (temp random) ∧ data_at (w_fs w) (temp random) = Some d.

Lemma sat_create w now random : sat w (fs_call SideDestination (λ f, os_create now f (temp random)))
  (λ r w', match r with Ok _ => holds_temp random "" w' | Err _ => True end).
Proof.
  apply sat_fs_call; [done|]. intros f Hw Hc. destruct (create_spec _ _ _ _ Hc (wr_fs _ Hw)) as (Hn & Hk & Hok & He & Ho & Hl & Hi). split.
  - apply writing_step; [done..|by apply calm_spared, names_kept|left]. rewrite !data_at_entry, Ho by (apply not_eq_sym, temp_not_rel). rewrite Hi.
    destruct (entry (w_fs w) rel) as [[i| |]|] eqn:E; try done. rewrite lookup_insert_ne; [done|]. intros <-.
    pose proof (ok_fresh _ (wr_fs _ Hw) _ (ok_inode _ (wr_fs _ Hw) _ _ E)). lia.
  - split; [by exists (f_next (w_fs w))|]. simpl. rewrite data_at_entry, He, Hi. by simplify_map_eq.
Qed.
Lemma sat_append w random : holds_temp random "" w → sat w (fs_edit (λ f, os_append data f (temp random))) (λ r w', r = Ok tt ∧ holds_temp random data w').
Proof.
  intros [Hl Hd]. apply sat_fs_edit. intros Hw. destruct (edit_lone (λ x, mkInode (n_data x +:+ data) (n_mtime x)) _ _ (wr_fs _ Hw) Hl (temp_odd random)) as (Hk & Hok & Hl').
  fold (os_append data (w_fs w) (temp random)) in *. split.
  - apply writing_step; [done..|by apply calm_spared|left]. apply edit_other; [done|]. apply not_eq_sym, temp_not_rel.
  - split; [done|]. split; [done|]. simpl. destruct Hl as (i & Hi & _). revert Hd. unfold os_append, edit_inode, data_at. unfold entry in Hi. rewrite Hi. simpl.
    rewrite Hi, lookup_alter_eq. destruct (f_inodes _ !! i) as [x|]; [|done]. simpl. by intros [= ->].
Qed.
Lemma sat_replace w random : holds_temp random data w → sat w (rename (temp random) rel false) written.
Proof.
  intros [(i & Hi & Honly) Hd]. apply sat_fs_call; [done|]. intros f Hw Hr.
  destruct (rename_spec _ _ _ _ Hr (wr_fs _ Hw)) as (n & Hn & _ & Hok & [[_ E]|Hf]).
  { exfalso. assert (n = NFile i) as -> by congruence. by apply (temp_not_rel random), eq_sym, Honly. }
  assert (Hnew : data_at f rel = Some data).
  { rewrite <-Hd, !data_at_entry, Hn, Hf. unfold entry, set_tree. cbn [f_tree f_inodes]. by rewrite lookup_insert, decide_True. }
  split; [|done]. apply writing_step; [done..| |by right].
  assert (Hq : ∀ q, spared q → entry f q = entry (w_fs w) q).
  { intros q [Hp Hne]. rewrite Hf. unfold entry, set_tree. simpl. rewrite lookup_insert_ne by done. rewrite lookup_delete_ne; [done|].
    intros <-. by apply (temp_odd random). }
  split; [intros q m Hs; by rewrite Hq|]. intros q d Hs. rewrite !data_at_entry, Hq by done. by rewrite Hf.
Qed.
Lemma sat_cleanup w random : sat w (fs_call SideDestination (λ f, os_remove f (temp random))) (λ _ _, True).
Proof.
  apply sat_fs_call; [done|]. intros f Hw Hr. destruct (remove_spec _ _ _ Hr (wr_fs _ Hw)) as [-> Hok]. split; [|done].
  assert (Hq : ∀ q, plain q → entry (set_tree (delete (temp random) (f_tree (w_fs w))) (w_fs w)) q = entry (w_fs w) q).
  { intros q Hp. unfold entry, set_tree. simpl. rewrite lookup_delete_ne; [done|]. intros <-. by apply (temp_odd random). }
  assert (Hd : ∀ q, plain q → data_at (set_tree (delete (temp random) (f_tree (w_fs w))) (w_fs w)) q = data_at (w_fs w) q) by (intros q Hp; by rewrite !data_at_entry, Hq).
  apply writing_step; [done..| |left; by apply Hd]. split; intros q ? [Hp _]; [by rewrite Hq|by rewrite Hd].
Qed.

Lemma sat_then {A B} w (m : X A) (k : A → X B) Q : looks m → (∀ e, Q (Err e) w) → (∀ a, sat w (k a) Q) → sat w (xbind m k) Q.
Proof. intros Hm He Hk. by apply (sat_look _ _ _ (λ _, True)). Qed.
Lemma sat_WriteFileAtomic w : sat w (WriteFileAtomic rel data false) written.
Proof.
  unfold WriteFileAtomic. change (negb (checkRel rel) || bool_decide (rel = MetaDir)) with false. simpl.
  apply (sat_bind _ _ _ (λ _ _, True)).
  { apply sat_fs_call; [done|]. intros f Hw Hm. destruct (mkdir_all_spec _ _ _ Hm (wr_fs _ Hw)) as (Hk & Hok & _). split; [|done].
    apply writing_step; [done..|by apply names_kept|left]. by eapply mkdir_data, wr_fs. }
  intros _ w1 _. apply sat_then; [done..|]. intros random. apply sat_then; [done..|]. intros now. fold (temp random).
  apply (sat_bind _ _ _ (λ _ w', holds_temp random "" w')); [eapply sat_weaken; [apply sat_create|by intros []]|]. intros _ w2 Hw2.
  apply (sat_bind _ _ _ (λ r w', match r with Ok _ => data_at (w_fs w') rel = Some data | Err _ => True end)).
  - eapply sat_weaken; [apply (sat_try _ _ written)|]; [|by intros [[]|]].
    apply sat_then; [apply looks_refuse|done|]. intros _. apply (sat_bind _ _ _ (λ _ w', holds_temp random data w')); [eapply sat_weaken; [by apply sat_append|by intros r w' [-> ?]]|].
    intros _ w3 Hw3. do 2 (apply sat_then; [apply looks_refuse|done|]; intros _).
    apply (sat_bind _ _ _ (λ _ w', data_at (w_fs w') rel = Some data)); [eapply sat_weaken; [by apply sat_replace|by intros []]|].
    intros _ w4 Hw4. unfold syncDirs. apply sat_then; [apply looks_refuse|done|]. intros _ s Hs <-. destruct (looks_refuse SideDestination s) as (E1 & E2 & _).
    split; [unfold Good in *; by rewrite E1, E2|]. unfold written. rewrite E1. by destruct (may_refuse _ s) as [[]].
  - intros [[]|e] w3 Hw3; [by apply sat_ret|]. apply (sat_bind _ _ _ (λ _ _, True)); [|intros; by apply sat_fail].
    eapply sat_weaken; [apply (sat_try _ _ (λ _ _, True))|]; [|by intros [[]|]].
    eapply sat_weaken; [apply sat_cleanup|done].
Qed.
End write.

Section manifest.
Context `{Exec} (w0 : world).
Definition manifest_of (w : world) : string := LinkManifest.LinkManifest (links (x_dest the_run) (w_recs w)).
Lemma sat_writeLinkManifest {old} : WorldLogic.sat (writing w0 (manifest_of w0)) old w0 writeLinkManifest (written (manifest_of w0)).
Proof.
  unfold writeLinkManifest. apply (sat_look _ _ _ (λ ls, ls = links (x_dest the_run) (w_recs w0))); [apply looks_db_read|intros s a <-; apply db_read_ok|done|].
  intros ls ->. fold (manifest_of w0).
  set (rd := xtry _). assert (Hl : looks rd) by (apply looks_try, looks_bind; [apply looks_refuse|done]).
  apply (sat_look _ _ _ (λ r, match r with Ok o => o = data_at (w_fs w0) LinkManifestRel | Err _ => True end)); [done| |done|].
  - intros s a <-. unfold rd, may_refuse, xtry, xbind. simpl. destruct (e_refuse the_env _); simpl; by intros [= <-].
  - intros r Hr. destruct r as [[x|]|e]; [|apply sat_WriteFileAtomic..]. simpl. case_bool_decide as E; [|apply sat_WriteFileAtomic].
    apply sat_ret. unfold written. congruence.
Qed.
End manifest.

(** C5: Writing the hardlink manifest replaces it in one step: in every world it goes through the
    file at [.bunkarr/links.tsv] is the one that was there (or still none) or reads back, the
    way its own header explains, as exactly the links of the destination's records; on success
    it is the latter. No other file but a temp file changes, and no record or item. *)
Theorem link_manifest_replaced (H : Exec) w w' :
  let m := writeLinkManifest (start w) in
  let current f := ∃ d, data_at f LinkManifestRel = Some d ∧ read_manifest d = Some (links (x_dest the_run) (w_recs w)) in
  fs_ok (w_fs w) → w' = s_w m.2 ∨ w' ∈ s_past m.2 →
  (data_at (w_fs w') LinkManifestRel = data_at (w_fs w) LinkManifestRel ∨ current (w_fs w')) ∧ (m.1 = Ok tt → current (w_fs (s_w m.2))) ∧
  kept spared (w_fs w) (w_fs w') ∧ w_recs w' = w_recs w ∧ w_items w' = w_items w.
Proof.
  intros m current Hok Hw'. assert (Hcur : ∀ f, data_at f LinkManifestRel = Some (manifest_of w) → current f).
  { intros f Hf. exists (manifest_of w). split; [done|]. apply manifest_roundtrip. }
  destruct (sat_writeLinkManifest w (old := []) (start w)) as [[Hg Hp] Hr]; [|done|].
  { split; [|by constructor]. split; [done|reflexivity|done|by left]. }
  assert (writing w (manifest_of w) w') as [_ Hk [Hrec Hit] Hd].
  { destruct Hw' as [->|Hin]; [done|]. rewrite Forall_forall in Hp. destruct (Hp _ Hin) as [?|?%elem_of_nil]; done. }
  split_and!; [destruct Hd; auto| |done..]. intros E. apply Hcur. unfold m in E. rewrite E in Hr. exact Hr.
Qed.

(** A manifest of a link whose name begins with [#]. *)
Definition link_world : world :=
  mkWorld (mkFS (<["#m" := NDir]> (<["#m/a.mkv" := NFile 1]> (<["#m/b.mkv" := NFile 1]> ∅))) (<[1 := mkInode "x" 5]> ∅) 2)
    [demo_record 1 "#m/a.mkv" "a.mkv";
     mkRecord 2 1 1 "#m/b.mkv" "b.mkv" 1 5 "" 1 StateLinked "" NoReason 3 None None None None] [] true.
#[local] Abbreviation linking := (mkExec (λ r, r) (λ s, s) demo_run demo_env).
Definition link_end : result xerr unit * st := writeLinkManifest (H := linking) (start link_world).
Lemma link_manifest_replaced_witness :
  ∃ d, data_at (w_fs (s_w link_end.2)) LinkManifestRel = Some d ∧ read_manifest d = Some [mkLinkRow "#m/b.mkv" "#m/a.mkv" Linked].
Proof.
  assert (Hok : fs_ok (w_fs link_world)).
  { split; [| |done].
    - intros p i. simpl. rewrite !lookup_insert_Some. intros Hp. repeat (destruct Hp as [[_ Hp]|[_ Hp]]; [first [discriminate Hp|injection Hp as <-; by eexists]|]).
      by rewrite lookup_empty in Hp.
    - intros i [x Hx]. revert Hx. simpl. rewrite lookup_insert_Some. intros [[<- _]|[_ Hp]]; [lia|by rewrite lookup_empty in Hp]. }
  assert (Hr : link_end.1 = Ok tt) by (vm_compute; reflexivity).
  exact (proj1 (proj2 (link_manifest_replaced linking link_world (s_w link_end.2) Hok (or_introl eq_refl))) Hr).
Defined.
