(* ===== verification/SyncRunSafe.v ===== *)
(** * SyncRunSafe: what a sync job does not do

    Planning changes nothing at the destination, a dry run nothing at all but its items, and
    however often a sync is tried, nothing that was at the destination is lost: the
    composition of the planner, the settling of stopped jobs, the execution and the hardlink
    manifest. *)
From stdpp Require Import base gmap list strings.
From S2P Require Import Prelude GoStrings DestNames Tiers TierEval TierFiles SyncPlan SyncPlanProps SyncPlanPaths SyncGuard DestFS FileRecords LinkManifest SyncExec.
From S2P Require Import SyncSweep ExecLogic SyncExecSafe WorldLogic SyncRun SyncRunLogic LinkManifestWrite.
Open Scope string_scope.
Open Scope Z_scope.

(** C2: A dry run of a sync changes nothing: whatever it finds and however it ends, in every world
    it goes through the files at the destination and the records are those it began with. It
    leaves its items, which are its preview. *)
Theorem dry_run_changes_nothing (H : Exec) a lo w w' :
  a_dryRun a = true → let s := (sync_run H a lo (start w)).2 in w' = s_w s ∨ w' ∈ s_past s →
  w_fs w' = w_fs w ∧ w_recs w' = w_recs w.
Proof.
  intros Ed s Hw'. assert (Ht : through same_files (sync_run H a lo)).
  { unfold sync_run. rewrite Ed. case_match; [by apply through_looks|]. apply through_bind; [by apply through_looks|]. intros _.
    apply through_bind; [|intros []; by apply through_looks]. apply through_prepare; [apply _|by intros; split|]. intros ? ? Hd. congruence. }
  destruct (Ht (start w)) as (E & Hp & _). destruct Hw' as [->|Hw']; [done|]. by destruct (Hp w' Hw') as [?%elem_of_nil|].
Qed.

(** ** Where a plan may write *)

(** A path that can be stored lies in the mirror. *)
Lemma comp_checked first x caps : comp_check first x caps = Ok tt → clean_comp (bytes x) = true ∧ IsTempName x = false ∧ (first = true → x ≠ MetaDir).
Proof.
  unfold comp_check, clean_comp. case_bool_decide as H1; simpl; [done|]. case_bool_decide as H2; simpl; [done|]. case_bool_decide as H3; simpl; [done|].
  intros Hc. rewrite !bool_decide_eq_false_2 by (intros E; first [apply H1, bytes_inj, E|apply H2, bytes_inj, E|apply H3, bytes_inj, E]).
  split; [done|]. destruct first; simpl in Hc; [case_bool_decide as Hm; simpl in Hc; [done|]|]; (destruct (IsTempName x); simpl in Hc; [done|]); by split.
Qed.
Lemma comps_checked first l caps : comps_check first l caps = Ok tt → Forall (λ x, clean_comp (bytes x) = true ∧ IsTempName x = false) l ∧
  (first = true → head l ≠ Some MetaDir).
Proof.
  revert first. induction l as [|x l IH]; intros first; cbn [comps_check]; [by split; [constructor|]|]. unfold rbind.
  destruct (comp_check first x caps) as [[]|] eqn:E; [|done]. destruct (comp_checked _ _ _ E) as (H1 & H2 & H3).
  intros [Hl _]%IH. split; [by constructor|]. intros Hf [= ->]. by destruct (H3 Hf).
Qed.
Lemma NameCheck_mirror p caps : NameCheck p caps = Ok tt → mirror p.
Proof.
  unfold NameCheck. case_bool_decide; simpl; [done|]. destruct (MaxPathBytes <? _); simpl; [done|]. intros [Hl Hm]%comps_checked.
  specialize (Hm eq_refl). unfold split_slash in *. rewrite Forall_fmap, Forall_forall in Hl.
  assert (Hc : ∀ w, w ∈ split_on slash (bytes p) → clean_comp w = true ∧ IsTempName (of_bytes w) = false).
  { intros w Hw. destruct (Hl w Hw) as [H1 H2]. simpl in *. by rewrite bytes_of_bytes in H1. }
  split_and!.
  - unfold clean_rel. apply forallb_elem. intros w Hw. by apply Hc.
  - destruct (ends_in_exists p) as [w Hw]. assert (Hin : w ∈ split_on slash (bytes p)) by (destruct Hw as [pre E]; unfold comps in E; rewrite E, elem_of_app; right; by left).
    destruct (Hc w Hin) as [Hcw Ht]. unfold plain, is_temp. rewrite (base_of _ _ Hw) by (by intros ->). done.
  - apply not_true_is_false. intros [r Hr]%has_prefix_spec. apply Hm. rewrite Hr, bytes_app. change (bytes ".bunkarr/") with (bytes ".bunkarr" ++ [slash])%list.
    rewrite <-app_assoc. simpl app at 2. rewrite split_on_app, (split_on_id slash (bytes ".bunkarr")); [done|]. by apply (bool_decide_unpack _); vm_compute.
Qed.

(** The manifest is no place where a file may go. *)
Lemma manifest_apart `{Exec} has_dir known : retention_dir (x_retentionDir the_run) → (∀ p, known p → mirror p) → ¬ may_move_to known has_dir LinkManifestRel.
Proof.
  intros [Hd Hpre] Hm [[_ (rel & i & (Hc & _ & _) & _ & E)]|Hk]; [|by destruct (Hm _ Hk) as (_ & _ & ?)].
  destruct (clean_join _ _ Hd Hc) as [Hj _]. rewrite Hj in E. destruct (suffixed_under (x_retentionDir the_run) rel i) as [q Hq]. rewrite Hq in E.
  apply has_prefix_spec in Hpre as [r Hr]. rewrite Hr in E. change LinkManifestRel with (".bunkarr/" +:+ "links.tsv") in E.
  apply (f_equal bytes) in E. rewrite !bytes_app, <-!app_assoc in E. apply (inj (app _)) in E.
  assert (slash ∈ bytes "links.tsv") as Hs by (rewrite E, !elem_of_app; right; left; by left).
  revert Hs. apply (bool_decide_unpack (slash ∉ bytes "links.tsv")). by vm_compute.
Qed.

(** ** A program that plans

    [gives Q m]: from a state whose worlds are good since [w1], [m] leads through good worlds to
    such a state, and its result has [Q]. *)
Section gives.
Context `{H0 : Exec} (w1 : world) (known : string → Prop).
#[local] Abbreviation good := (ExecLogic.good (H := H0) w1 known True).
Definition steady (s : st) : Prop := good (s_w s) ∧ Forall good (s_past s) ∧ detail_ok (s_d s).
Definition gives {A} (m : X A) (Q : A → Prop) : Prop := ∀ s, steady s → steady (m s).2 ∧ ∀ v, (m s).1 = Ok v → Q v.

Lemma gives_ret {A} (v : A) (Q : A → Prop) : Q v → gives (xret v) Q.
Proof. intros HQ s Hs. split; [done|]. by intros ? [= <-]. Qed.
Lemma gives_fail {A} e (Q : A → Prop) : gives (xfail e) Q.
Proof. by split. Qed.
Lemma gives_bind {A B} (m : X A) (k : A → X B) (Q : A → Prop) R : gives m Q → (∀ a, Q a → gives (k a) R) → gives (xbind m k) R.
Proof.
  intros Hm Hk s Hs. destruct (Hm s Hs) as [Hs1 HQ]. unfold xbind. destruct (m s) as [[a|e] s1]; simpl in *; [|done].
  by apply Hk; [apply HQ|].
Qed.
Lemma gives_then {A B} (m : X A) (k : A → X B) R : gives m (λ _, True) → (∀ a, gives (k a) R) → gives (xbind m k) R.
Proof. intros Hm Hk. eapply gives_bind; [exact Hm|]. auto. Qed.
Lemma gives_weaken {A} (m : X A) (Q Q' : A → Prop) : gives m Q → (∀ a, Q a → Q' a) → gives m Q'.
Proof. intros Hm HQ s Hs. destruct (Hm s Hs) as [Hs1 H1]. split; [done|]. auto. Qed.
Lemma gives_try {A} (m : X A) Q : gives m Q → gives (xtry m) (λ r, match r with Ok a => Q a | Err _ => True end).
Proof.
  intros Hm s Hs. destruct (Hm s Hs) as [Hs1 HQ]. unfold xtry. destruct (m s) as [r s1]; simpl in *. split; [done|].
  intros v [= <-]. destruct r; auto.
Qed.
Lemma gives_ask {A} (f : nat → A) (Q : A → Prop) : (∀ n, Q (f n)) → gives (ask f) Q.
Proof. intros HQ s Hs. split; [done|]. intros v [= <-]. apply HQ. Qed.
Definition stays_good (w w' : world) : Prop := good w → good w'.
#[export] Instance stays_good_preorder : PreOrder stays_good.
Proof. split; [by intros w ?|]. intros a b d H1 H2 Ha. by apply H2, H1. Qed.
Lemma gives_through {A} (m : X A) : through stays_good m → gives m (λ _, True).
Proof.
  intros Hm s (Hw & Hp & Hd). destruct (Hm s) as (Hw' & Hp' & Ed). split; [|done]. split; [by apply Hw'|]. rewrite Ed. split; [|done].
  rewrite Forall_forall in *. intros w Hin. destruct (Hp' w Hin) as [?|Ht]; [auto|by apply Ht].
Qed.
Lemma gives_looks {A} (m : X A) : looks m → gives m (λ _, True).
Proof. intros Hm. apply gives_through. by apply through_looks. Qed.
Lemma gives_records {A} (f : records → A) (Q : A → Prop) : (∀ t, (∀ r, r ∈ t → known (fr_RelPath r)) → Q (f t)) → gives (db_read f) Q.
Proof.
  intros HQ s Hs. destruct (gives_looks _ (looks_db_read f) s Hs) as [Hs' _]. split; [done|]. intros v ->%db_read_ok. apply HQ, Hs.
Qed.
Lemma gives_pres (H' : Exec) {A} (m : X A) : same_place H0 H' →
  (∀ w0, ExecLogic.pres (H := H') w0 known True anything m) → gives m (λ _, True).
Proof.
  intros Hsame Hm s (Hw & Hp & Hd). set (w0 := with_items (w_items (s_w s)) w1).
  assert (Hback : same_place H' H0) by (by destruct Hsame; split).
  assert (Hto : ∀ w, good w → ExecLogic.good (H := H') w0 known True w) by (intros w; by apply good_of).
  assert (Hof : ∀ w, ExecLogic.good (H := H') w0 known True w → good w) by (intros w; by apply good_of).
  destruct (Hm w0 s) as [[Hw' Hp' Hd' _] _].
  { split; [by apply Hto|by eapply Forall_impl|by apply (detail_of _ _ Hsame)|done]. }
  split; [|done]. split; [by apply Hof|]. split; [by eapply Forall_impl|by apply (detail_of _ _ Hback)].
Qed.
End gives.

(** ** Planning and executing *)

Section sync.
Context `{H0 : Exec} (a : attempt_env) (w1 : world) (known : string → Prop).
#[local] Abbreviation c := the_run.
#[local] Abbreviation gives := (gives w1 known).
#[local] Abbreviation good := (ExecLogic.good (H := H0) w1 known True).
Hypothesis real_run : a_dryRun a = false.
Hypothesis live_known : ∀ n m id src files f, a_get a n id = Some (Some src) → a_live a m (src_ID src) = Some files → f ∈ files →
  NameCheck (path_join [src_DestFolder src; lf_RelPath f]) (x_caps c) = Ok tt → known (path_join [src_DestFolder src; lf_RelPath f]).

(** An item of a plan as it is added: pending only at a known path. *)
Definition planned_ok (it : planItem) : Prop := it_status it ≠ ItemPending ∧ (it_status it = NoStatus → known (it_rel it)).
Definition row_ok (i : item) : Prop := i_Status i = ItemPending → known (i_RelPath i) ∧ detail_ok (i_Detail i).
Lemma planned_row it : planned_ok it → row_ok (to_item it).
Proof.
  intros [Hn Hk]. unfold row_ok, to_item. simpl. case_bool_decide as E; [|done]. intros _. split; [by apply Hk|]. split; by left.
Qed.

Lemma good_items_change w l p : (∀ i, i ∈ l → row_ok i) → good w → good (mkWorld (w_fs w) (w_recs w) l p).
Proof. intros Hl []. by split. Qed.
Lemma good_hold w id : good w → good (with_items (set_item id held_row (w_items w)) w).
Proof.
  intros Hg. apply (good_items_change w _ (w_planned w)); [|done]. intros i (j & -> & Hj)%list_elem_of_fmap. unfold row_ok. destruct (i_ID j =? id); [done|].
  exact (good_items _ _ _ _ Hg j Hj).
Qed.
Lemma added_rows batch l i : i ∈ foldl add_item l batch → i ∈ l ∨ ∃ j id, j ∈ batch ∧ i = with_item_id id j.
Proof.
  revert l. induction batch as [|b batch IH]; intros l; simpl; [by left|]. intros [Hi|(j & id & Hj & ->)]%IH.
  - unfold add_item in Hi. apply elem_of_app in Hi as [?| ->%list_elem_of_singleton]; [by left|right]. exists b, (next_item l). split; [by left|done].
  - right. exists j, id. split; [by right|done].
Qed.
Lemma gives_AddItems batch final : Forall row_ok batch → gives (AddItems batch final) (λ _, True).
Proof.
  intros Hb. apply gives_through, (through_change (R := stays_good w1 known) (added batch final)). intros w Hg.
  apply good_items_change; [|done]. rewrite Forall_forall in Hb. intros i [Hi|(j & id & Hj & ->)]%added_rows; [exact (good_items _ _ _ _ Hg i Hi)|exact (Hb j Hj)].
Qed.
Lemma gives_DeleteItems : gives DeleteItems (λ _, True).
Proof.
  apply gives_through, (through_change (R := stays_good w1 known) no_items). intros w Hg. apply good_items_change; [by intros i ?%elem_of_nil|done].
Qed.

(** The checks noted, and the records the planner gets. *)
Lemma checked_known checks t : (∀ r, r ∈ t → known (fr_RelPath r)) → ∀ r, r ∈ mark_checked checks t → known (fr_RelPath r).
Proof.
  unfold mark_checked. revert t. induction checks as [|x checks IH]; intros t Ht; [done|]. simpl. apply IH. intros r (q & -> & Hq)%list_elem_of_fmap.
  unfold check_row. case_match; simpl; by apply Ht.
Qed.
Lemma gives_checked checks : gives (db_write (λ _ t, Ok (mark_checked checks t))) (λ _, True).
Proof.
  apply gives_through, (through_db_write (R := stays_good w1 known)). intros w now t [= <-] []. split; [done|done|by apply checked_known|done].
Qed.

Definition names_ok (s : syncRun) : Prop := ni_caps (s_names s) = x_caps c.
Lemma gives_plan_fresh release s n id src : names_ok s → a_get a n id = Some (Some src) →
  gives (plan_fresh a release s src) (λ r, Forall planned_ok r.1 ∧ names_ok r.2).
Proof.
  intros Hnames Hget. unfold plan_fresh. cbv zeta.
  assert (Hstop : ∀ A why Q, gives (stopped (A := A) why) Q) by (intros; apply gives_then; [by apply gives_looks|intros []; apply gives_fail]).
  apply gives_then; [by apply gives_looks|]. intros scanned. destruct (negb _); [apply Hstop|].
  apply (gives_bind _ _ _ _ (λ f, ∃ m, f = a_live a m)); [apply gives_ask; intros m; by exists m|]. intros f [m ->].
  apply (gives_bind _ _ _ _ (λ files, a_live a m (src_ID src) = Some files)).
  { unfold from_db. destruct (a_live a m _); [by apply gives_ret|apply gives_fail]. }
  intros files Hlive. apply (gives_bind _ _ _ _ (λ recs, ∀ r, r ∈ recs → known (fr_RelPath r))).
  { apply gives_records. intros t Ht r Hr. unfold LiveForSource in Hr. apply isort_elem, filter_bool_elem in Hr as [Hr _]. by apply Ht. }
  intros recs Hrecs. apply gives_then; [by apply gives_looks|]. intros opened. destruct (negb _); [apply Hstop|].
  apply gives_then.
  { destruct (a_tiers a) as [t|]; [|by apply gives_ret]. apply gives_then; [by apply gives_looks|]. intros d. destruct (d _ _); [by apply gives_ret|apply Hstop]. }
  intros dec. apply gives_then; [by apply gives_looks|]. intros k. apply gives_then; [by apply gives_looks|]. intros w.
  set (cfg := plan_config _ _ _ _ _ _ _).
  destruct (SyncPlan.plan cfg _ _) as [[u p]|[|]] eqn:Eplan; [|apply gives_fail|apply Hstop].
  destruct (plan_heap cfg known (plan_file_of dec <$> files)) with (6 := Eplan) as [Hheap Hcaps].
  - intros r (q & -> & Hq)%list_elem_of_fmap. by apply Hrecs.
  - intros q (f & -> & Hf)%list_elem_of_fmap. simpl. intros Hn. by eapply live_known.
  - apply Forall_fmap, Forall_forall. by intros.
  - done.
  - exact Hnames.
  - apply gives_then; [rewrite real_run; simpl; case_bool_decide; [by apply gives_ret|apply gives_checked]|]. intros _.
    destruct (foldl _ _ _) as [b u']. apply gives_ret. simpl. split; [|done].
    apply Forall_forall. intros it Hit. unfold guarded_items in Hit. apply list_elem_of_omap in Hit as (i & _ & Hi). eapply guard_heap in Hi as [Hs Hk]; [|exact Hheap]. split; [done|]. intros Hn. by apply (io_path _ _ (Hk Hn)).
Qed.
Lemma gives_planSource release s src : names_ok s → gives (planSource a release s src) (λ r, Forall planned_ok r.1 ∧ names_ok r.2).
Proof.
  intros Hn. unfold planSource. apply gives_then; [by apply gives_looks|]. intros locked. destruct (negb _); [apply gives_fail|].
  apply (gives_bind _ _ _ _ (λ f, ∃ n, f = a_get a n)); [apply gives_ask; intros n; by exists n|]. intros f [n ->].
  apply (gives_bind _ _ _ _ (λ o, a_get a n (src_ID src) = Some o)).
  { unfold from_db. destruct (a_get a n _); [by apply gives_ret|apply gives_fail]. }
  intros [fresh|] Hget; [|by apply gives_ret]. destruct (src_Enabled fresh); [by eapply gives_plan_fresh|by apply gives_ret].
Qed.
Lemma gives_write_items its batch : Forall planned_ok its → Forall row_ok batch → gives (write_items a its batch) (Forall row_ok).
Proof.
  intros Hi. revert batch. induction Hi as [|it its Hit _ IH]; intros batch Hb; simpl; [by apply gives_ret|].
  assert (Forall row_ok (batch ++ [to_item it])) by (apply Forall_app; split; [done|]; constructor; [by apply planned_row|done]).
  destruct (_ <=? _)%nat; [|by apply IH]. apply gives_then; [by apply gives_AddItems|]. intros _. apply IH. constructor.
Qed.
Lemma gives_scanAndPlan release s : gives (scanAndPlan a release s) (λ _, True).
Proof.
  unfold scanAndPlan.
  apply (gives_bind _ _ _ _ (λ n, ni_caps n = x_caps c)).
  { unfold destinationNames. apply gives_then; [by apply gives_looks, looks_db_read|]. intros recs. apply gives_ret.
    exact (indexed_caps _ _ _ _). }
  intros names Hn. apply (gives_bind _ _ _ _ (λ r, Forall row_ok r.2)).
  - assert (Hs : names_ok (with_names names s)) by done. assert (Hb : Forall row_ok []) by constructor. revert Hs Hb.
    generalize (with_names names s), ([] : list item). induction (s_sources s) as [|src l IH]; intros s1 batch Hs Hb; simpl; [by apply gives_ret|].
    eapply gives_bind; [by apply gives_planSource|]. intros [its s2] [Hi Hs2]. eapply gives_bind; [by apply gives_write_items|]. intros. by apply IH.
  - intros [s2 batch] Hb. apply gives_then; [by apply gives_AddItems|]. intros _. by apply gives_ret.
Qed.
Lemma gives_prepare : gives (prepare a) (λ _, True).
Proof.
  unfold prepare. apply gives_then; [apply gives_looks; exact (looks_selectSources a _)|]. intros sources. apply gives_then; [apply gives_looks, looks_planned|].
  intros [|].
  - apply gives_then; [|intros; by apply gives_ret]. apply gives_through, through_recheckUnknownHold; [apply _|exact good_hold].
  - apply gives_then; [apply gives_DeleteItems|]. intros _. apply gives_then; [apply gives_looks; exact (looks_prepareRelease a)|]. intros release.
    apply gives_then; [apply gives_scanAndPlan|]. intros s. apply gives_then.
    + apply gives_through, through_try, through_checkFreeSpace; [apply _|exact good_hold].
    + intros [v|e]; [by apply gives_ret|]. rewrite real_run. apply gives_fail.
Qed.

(** *** A whole attempt *)

Hypothesis known_mirror : ∀ p, known p → mirror p.
Hypothesis dir_ok : retention_dir (x_retentionDir c).
Hypothesis cases_apart : CaseInsensitive (x_caps c) = false.

(** The worlds of an attempt: the manifest apart, nothing is lost. *)
Definition saved (f f' : fs) : Prop := ∀ p d, spared p → data_at f p = Some d →
  ∃ p' d', (p' = p ∨ may_move_to known True p') ∧ spared p' ∧ data_at f' p' = Some d' ∧ same_content d d'.
Record sound (w : world) : Prop := mkSound {
  so_fs : fs_ok (w_fs w);
  so_saved : saved (w_fs w1) (w_fs w);
  so_recs : ∀ r, r ∈ w_recs w → known (fr_RelPath r);
  so_items : ∀ i, i ∈ w_items w → row_ok i;
}.
Lemma keeps_saved f f' : keeps (may_move_to known True) f f' → saved f f'.
Proof.
  intros Hk p d [Hp Hne] Hd. destruct (Hk p d Hp Hd) as (p' & d' & Hl & Hp' & Hd' & Hs). exists p', d'. split_and!; [done|split; [done|]|done..].
  destruct Hl as [->|Hl]; [done|]. intros ->. by apply (manifest_apart True known) in Hl.
Qed.
Lemma saved_trans f g h : saved f g → saved g h → saved f h.
Proof.
  intros H1 H2 p d Hp Hd. destruct (H1 p d Hp Hd) as (p1 & d1 & Hl1 & Hp1 & Hd1 & Hs1).
  destruct (H2 p1 d1 Hp1 Hd1) as (p2 & d2 & Hl2 & Hp2 & Hd2 & Hs2). exists p2, d2.
  split_and!; [|done|done|by etrans]. destruct Hl2 as [->|?]; [done|by right].
Qed.
Lemma good_sound w : good w → sound w.
Proof. intros [Hf Hk Hr Hi]. split; [done|by apply keeps_saved|done|done]. Qed.
Lemma writing_sound w0 data w : good w0 → writing w0 data w → sound w.
Proof.
  intros [Hf Hk Hr Hi] [Hf' Hk' [Er Ei] _]. split; [done| |by rewrite Er|unfold row_ok; by rewrite Ei].
  eapply saved_trans; [by apply keeps_saved|]. intros p d Hp Hd. exists p, d. split_and!; [by left|done|by apply Hk'|reflexivity].
Qed.

(** [sounds m]: from a steady state [m] goes through sound worlds. *)
Definition sounds {A} (m : X A) : Prop := ∀ s, steady w1 known s → sound (s_w (m s).2) ∧ Forall sound (s_past (m s).2).
Lemma steady_sound s : steady w1 known s → sound (s_w s) ∧ Forall sound (s_past s).
Proof. intros (Hw & Hp & _). split; [by apply good_sound|]. eapply Forall_impl; [exact Hp|apply good_sound]. Qed.
Lemma sounds_gives {A} (m : X A) : gives m (λ _, True) → sounds m.
Proof. intros Hm s Hs. by apply steady_sound, Hm. Qed.
Lemma sounds_then {A B} (m : X A) (k : A → X B) : gives m (λ _, True) → (∀ v, sounds (k v)) → sounds (xbind m k).
Proof.
  intros Hm Hk s Hs. destruct (Hm s Hs) as [Hs1 _]. unfold xbind. destruct (m s) as [[v|e] s1]; simpl in *; [by apply Hk|by apply steady_sound].
Qed.
Lemma sounds_manifest : sounds (let! _ := xtry writeLinkManifest in xret tt).
Proof.
  intros s (Hg & Hp & _). destruct (sat_writeLinkManifest (s_w s) (old := s_past s) s) as [[Hw Hp'] _]; [|done|].
  { split; [split; [apply Hg|reflexivity|done|by left]|]. apply Forall_forall. intros w Hin. by right. }
  unfold xbind, xtry. destruct (writeLinkManifest s) as [r s1]. simpl in *. split; [by eapply writing_sound|].
  rewrite Forall_forall in *. intros w Hin. destruct (Hp' w Hin) as [?|Hold]; [by eapply writing_sound|by apply good_sound, Hp].
Qed.
Lemma sync_sound lo : (∀ job i, i ∈ lo_items lo job → known (i_RelPath i)) → sounds (sync_run H0 a lo).
Proof.
  intros Hlo. unfold sync_run. rewrite real_run. destruct (negb _); [by apply sounds_gives, gives_fail|].
  apply sounds_then; [apply (gives_pres _ _ H0); [by split|]; intros w0; by apply ok_reconcile|]. intros _.
  apply sounds_then; [apply gives_prepare|]. intros [planned sources].
  apply sounds_then; [apply gives_looks, looks_openSources|]. intros _.
  apply sounds_then; [|intros _; apply sounds_manifest].
  apply (gives_pres _ _ (executing H0 sources)); [by split|]. intros w0. by apply (ok_execute (H := executing H0 sources)).
Qed.
End sync.

(** ** However often a sync is tried *)

Section attempts.
Context (fold : Z → Z) (hash : string → string) (r : run) (stopped : list item) (lives : string → string → Prop).
#[local] Abbreviation at_env en := (mkExec fold hash r en).

(** [lives folder rel]: [rel] is a live file of a source with the destination folder [folder]
    when the job is tried. *)
Definition tries (a : attempt_env) : Prop := a_dryRun a = false ∧
  ∀ n m id src files f, a_get a n id = Some (Some src) → a_live a m (src_ID src) = Some files → f ∈ files → lives (src_DestFolder src) (lf_RelPath f).
Definition target (p : string) : Prop := ∃ folder rel, lives folder rel ∧ p = path_join [folder; rel] ∧ NameCheck p (x_caps r) = Ok tt.

(** The paths of stopped jobs' items, of pending items, of records and of what may be copied. *)
Definition sync_path (w : world) (p : string) : Prop :=
  p ∈ i_RelPath <$> stopped ∨ (∃ i, i ∈ w_items w ∧ i_Status i = ItemPending ∧ i_RelPath i = p) ∨ p ∈ fr_RelPath <$> w_recs w ∨ target p.

(** Attempts at a job, each in an environment of its own, each ended by a crash, an error or
    its end; only the first that gets that far plans. *)
Inductive syncs (w : world) : world → Prop :=
| syncs_none : syncs w w
| syncs_more w1 w2 en a lo : syncs w w1 → left_by stopped lo → tries a →
    w2 = s_w (sync_run (at_env en) a lo (start w1)).2 ∨ w2 ∈ s_past (sync_run (at_env en) a lo (start w1)).2 → syncs w w2.

Record sync_ok `{Exec} (w : world) : Prop := mkSyncOk {
  sk_fs : fs_ok (w_fs w);
  sk_mirror : ∀ p, p ∈ i_RelPath <$> stopped ∨ p ∈ fr_RelPath <$> w_recs w → mirror p;
  sk_items : ∀ i, i ∈ w_items w → i_Status i = ItemPending → mirror (i_RelPath i) ∧ detail_ok (i_Detail i);
}.
Lemma path_mirror `{Exec} w p : sync_ok w → sync_path w p → mirror p.
Proof.
  intros [_ Hm Hi] [?|[(i & Hin & Hp & <-)|[?|(folder & rel & _ & _ & Hn)]]]; [by apply Hm; left|by apply Hi|by apply Hm; right|by eapply NameCheck_mirror].
Qed.

Lemma syncs_sound en w w' : retention_dir (x_retentionDir r) → CaseInsensitive (x_caps r) = false → sync_ok (H := at_env en) w → syncs w w' →
  sound (H0 := at_env en) w (sync_path w) w'.
Proof.
  intros Hdir Hcase Hok Hw. pose proof (λ p, path_mirror (H := at_env en) w p Hok) as Hm.
  induction Hw as [|w1 w2 en' a lo _ [Hf Hs Hr Hi] Hlo [Hreal Hlive] Hw2].
  - destruct Hok as [Hf _ Hi]. split; [done| | |].
    + intros p d Hp Hd. exists p, d. split_and!; [by left|done|done|by left].
    + intros q Hq. right. right. left. by apply list_elem_of_fmap_2.
    + intros i Hin Hp. split; [right; left; by exists i|by apply Hi].
  - assert (sound (H0 := at_env en') w1 (sync_path w) w2) as [Hf2 Hs2 Hr2 Hi2].
    { destruct (sync_sound (H0 := at_env en') a w1 (sync_path w) Hreal) with (lo := lo) (s := start w1) as [Hl Hp]; [|done..| | |].
      - intros n m id src files f Hget Hl Hf' Hn. right. right. right. exists (src_DestFolder src), (lf_RelPath f). split_and!; [by eapply Hlive|done|done].
      - intros job i Hj. left. by eapply list_elem_of_fmap_2, Hlo.
      - split; [|split; [constructor|split; by left]]. split; [done|by apply kept_keeps|done|done].
      - destruct Hw2 as [->|Hin]; [done|]. rewrite Forall_forall in Hp. by apply Hp. }
    split; [done| |done|done]. by eapply saved_trans.
Qed.
End attempts.

(** C1: However often a sync job is tried (settling what stopped jobs left, planning its sources when
    no plan is there, holding what does not fit, running its items, writing the hardlink manifest),
    whatever it reads from the sources, the tier rules and the database, and whatever fails or kills
    the process on the way: in every world it goes through, every content that was at the
    destination under a name that is no temp file's nor the manifest's is still there: under the
    same name, in the run's retention directory, or at the path of a record, of a pending item or of
    a live file of a source. (Content is compared by SHA-256 where inode numbers do not identify
    files; the destination tells cases apart.) *)
Theorem sync_loses_nothing fold hash r stopped lives en w w' p d :
  let H := mkExec fold hash r en in
  retention_dir (x_retentionDir r) → CaseInsensitive (x_caps r) = false → sync_ok stopped w → syncs fold hash r stopped lives w w' →
  plain p → p ≠ LinkManifestRel → data_at (w_fs w) p = Some d →
  ∃ p' d', (p' = p ∨ retention_name p' ∨ sync_path r stopped lives w p') ∧ data_at (w_fs w') p' = Some d' ∧ same_content d d'.
Proof.
  intros H Hdir Hcase Hok Hw Hp Hne Hd. destruct (syncs_sound fold hash r stopped lives en w w' Hdir Hcase Hok Hw) as [_ Hs _ _].
  destruct (Hs p d (conj Hp Hne) Hd) as (p' & d' & Hl & _ & Hd' & Hsame). exists p', d'. split_and!; [unfold may_move_to in Hl; tauto|done..].
Qed.

(** A sync that updates a file and takes one that vanished to retention. *)
Definition sync_source : Source := mkSource 1 "m" true 2.
Definition sync_view : file_view := mkFileView (Ok (mkFStat 3 77 ModeRegular 1 5 1)) None (Ok (mkFStat 3 77 ModeRegular 1 5 1)) (Ok "xyz").
Definition sync_attempt (dry : bool) : attempt_env :=
  mkAttemptEnv true [1] [] dry false 0 2 100 (λ s, s) None (λ _ id, Some (if id =? 1 then Some sync_source else None)) (λ _ _, true) (λ _ _, true)
    (λ _ _, Some [mkLiveFile 1 "a.mkv" 3 77 ""]) (λ _ _, true) (λ _ _ _ _, sync_view) (λ _ _ _, None) (λ _ _, false) (λ _, Some (2 ^ 40)) (λ _ _, Ok false).
#[local] Abbreviation syncing := (mkExec (λ r, r) (λ s, s) demo_run demo_env).
Definition sync_world : world := mkWorld (w_fs demo_world) (w_recs demo_world) [] false.
Definition sync_end (dry : bool) : result xerr unit * st := sync_run syncing (sync_attempt dry) no_leftovers (start sync_world).

Example sync_done :
  (sync_end false).1 = Ok tt ∧
  data_at (w_fs (s_w (sync_end false).2)) "m/a.mkv" = Some "xyz" ∧
  data_at (w_fs (s_w (sync_end false).2)) ".bunkarr/retention/20260101T000000Z-job7/m/a.mkv" = Some "old" ∧
  data_at (w_fs (s_w (sync_end false).2)) ".bunkarr/retention/20260101T000000Z-job7/m/b.mkv" = Some "bye" ∧
  (λ i, i_Status i) <$> w_items (s_w (sync_end false).2) = [ItemDone; ItemDone].
Proof. split_and!; vm_compute; reflexivity. Qed.

Lemma sync_loses_nothing_witness :
  let lives := λ folder rel, folder = "m" ∧ rel = "a.mkv" in
  ∃ p' d', (p' = "m/a.mkv" ∨ retention_name (H := syncing) p' ∨ sync_path demo_run [] lives sync_world p') ∧
    data_at (w_fs (s_w (sync_end false).2)) p' = Some d' ∧ same_content (H := syncing) "old" d'.
Proof.
  intros lives. assert (Hd : retention_dir (x_retentionDir demo_run)) by (split; vm_compute; reflexivity).
  assert (Hok : sync_ok (H := syncing) [] sync_world).
  { destruct demo_ok as [Hf Hm _]. split; [exact Hf| |by intros i ?%elem_of_nil]. intros p [Hp|Hp]; apply Hm; [by left|by right; right]. }
  assert (Ht : tries lives (sync_attempt false)).
  { split; [done|]. intros n m id src files f. simpl. destruct (id =? 1); [|done]. intros [= <-] [= <-] ->%list_elem_of_singleton. done. }
  assert (Hs : syncs (λ r, r) (λ s, s) demo_run [] lives sync_world (s_w (sync_end false).2)).
  { apply (syncs_more _ _ _ _ _ _ sync_world _ demo_env (sync_attempt false) no_leftovers); [apply syncs_none|by intros ? ? ?%elem_of_nil|done|by left]. }
  assert (Hne : "m/a.mkv" ≠ LinkManifestRel) by (by vm_compute).
  exact (sync_loses_nothing (λ r, r) (λ s, s) demo_run [] lives demo_env sync_world (s_w (sync_end false).2) "m/a.mkv" "old" Hd eq_refl Hok Hs eq_refl Hne eq_refl).
Defined.

Lemma dry_run_changes_nothing_witness :
  w_fs (s_w (sync_end true).2) = w_fs sync_world ∧ w_recs (s_w (sync_end true).2) = w_recs sync_world.
Proof.
  assert (Hin : s_w (sync_end true).2 = s_w (sync_run syncing (sync_attempt true) no_leftovers (start sync_world)).2 ∨
    s_w (sync_end true).2 ∈ s_past (sync_run syncing (sync_attempt true) no_leftovers (start sync_world)).2) by (left; reflexivity).
  exact (dry_run_changes_nothing syncing (sync_attempt true) no_leftovers sync_world (s_w (sync_end true).2) eq_refl Hin).
Defined.
Example dry_run_previews : (λ i, (i_RelPath i, i_Action i, i_Status i)) <$> w_items (s_w (sync_end true).2) = [("m/a.mkv", ActionUpdate, ItemPending); ("m/b.mkv", ActionRetain, ItemPending)].
Proof. vm_compute. reflexivity. Qed.
