(* ===== verification/SyncPlanned.v ===== *)
(** * SyncPlanned: what planning leaves in the item store

    A plan is stored whole and in order, whatever the size of the batches; it counts as complete
    only when its last batch is written; and what it leaves to copy fits in the free space. *)
From Stdlib Require Import Sorted.
From stdpp Require Import base gmap list strings.
From S2P Require Import Prelude GoStrings DestNames Tiers TierEval TierFiles SyncPlan SyncPlanProps SyncPlanPaths SyncGuard DestFS FileRecords SyncExec.
From S2P Require Import ExecLogic SyncExecSafe WorldLogic SyncRun SyncRunLogic SyncRunSafe.
Open Scope string_scope.
Open Scope Z_scope.

(** ** Results *)

Lemma i64_add_l a b : i64 (i64 a + b) = i64 (a + b).
Proof.
  unfold i64. replace ((a + 2 ^ 63) mod 2 ^ 64 - 2 ^ 63 + b + 2 ^ 63) with ((a + 2 ^ 63) mod 2 ^ 64 + b) by lia.
  rewrite Zplus_mod_idemp_l. f_equal. f_equal. lia.
Qed.
Lemma i64_add_r a b : i64 (a + i64 b) = i64 (a + b).
Proof. rewrite (Z.add_comm a), i64_add_l. f_equal. lia. Qed.

Lemma i64_i64 x : i64 (i64 x) = i64 x.
Proof. pose proof (i64_add_l x 0) as E. by rewrite !Z.add_0_r in E. Qed.

(** [yields m Q]: every result of [m] has [Q]. *)
Definition yields {A} (m : X A) (Q : A → Prop) : Prop := ∀ s v, (m s).1 = Ok v → Q v.
Lemma yields_any {A} (m : X A) : yields m (λ _, True).
Proof. done. Qed.
Lemma yields_ret {A} (v : A) (Q : A → Prop) : Q v → yields (xret v) Q.
Proof. by intros HQ s w [= <-]. Qed.
Lemma yields_fail {A} e (Q : A → Prop) : yields (xfail e) Q.
Proof. by intros s v. Qed.
Lemma yields_bind {A B} (m : X A) (k : A → X B) P Q : yields m P → (∀ a, P a → yields (k a) Q) → yields (xbind m k) Q.
Proof.
  intros Hm Hk s v. unfold xbind. specialize (Hm s). destruct (m s) as [[a|e] s1]; simpl in *; [|done]. apply Hk. by apply Hm.
Qed.
Lemma yields_then {A B} (m : X A) (k : A → X B) Q : (∀ a, yields (k a) Q) → yields (xbind m k) Q.
Proof. intros Hk. apply (yields_bind _ _ (λ _, True)); [done|]. auto. Qed.

(** ** Bytes to copy *)

Definition copies (i : item) : bool := bool_decide (i_Status i = ItemPending) && mem (i_Action i) [ActionCopy; ActionUpdate].
Definition sum_of (p : item → bool) (l : list item) : Z := foldr (λ i n, if p i then i_Bytes i + n else n) 0 l.
Definition to_copy : list item → Z := sum_of copies.
(** The copies that [holdUnknownCopies] holds. *)
Definition unsure (i : item) : bool := copies i && unknown_copy i.

Lemma sum_app p l k : sum_of p (l ++ k) = sum_of p l + sum_of p k.
Proof. induction l as [|i l IH]; simpl; [done|]. rewrite IH. destruct (p i); lia. Qed.
Lemma sum_nonneg p l : Forall (λ i, 0 ≤ i_Bytes i) l → 0 ≤ sum_of p l.
Proof. induction 1 as [|i l Hi _ IH]; simpl; [done|]. destruct (p i); lia. Qed.
Lemma sum_map p g l : (∀ i, i ∈ l → p (g i) = p i ∧ i_Bytes (g i) = i_Bytes i) → sum_of p (g <$> l) = sum_of p l.
Proof.
  induction l as [|i l IH]; intros Hg; [done|]. rewrite fmap_cons. cbn [sum_of foldr]. fold (sum_of p (g <$> l)) (sum_of p l).
  destruct (Hg i) as [-> ->]; [by left|]. rewrite IH; [done|]. intros j Hj. apply Hg. by right.
Qed.

Definition planned_sum (p : planItem → bool) (its : list planItem) : Z := foldr (λ it n, if p it then it_bytes it + n else n) 0 its.
Definition plan_copies (it : planItem) : bool := no_status it && mem (it_action it) [ActionCopy; ActionUpdate].
Definition plan_unsure (it : planItem) : bool := plan_copies it && negb (bool_decide (it_unknownWhy it = "")).
Lemma count_sums its b u : i64 b = b → i64 u = u → foldl count_item (b, u) its = (i64 (b + planned_sum plan_copies its), i64 (u + planned_sum plan_unsure its)).
Proof.
  revert b u. induction its as [|it its IH]; intros b u Hb Hu; [simpl; by rewrite !Z.add_0_r, Hb, Hu|].
  cbn [foldl planned_sum foldr]. fold (planned_sum plan_copies its) (planned_sum plan_unsure its).
  change (count_item (b, u) it) with (if plan_copies it then (i64 (b + it_bytes it), if bool_decide (it_unknownWhy it = "") then u else i64 (u + it_bytes it)) else (b, u)).
  unfold plan_unsure at 1. destruct (plan_copies it); simpl; [|by apply IH].
  case_bool_decide; simpl; rewrite IH by (done || apply i64_i64); rewrite ?i64_add_l; f_equal; f_equal; lia.
Qed.
Lemma planned_app p l k : planned_sum p (l ++ k) = planned_sum p l + planned_sum p k.
Proof. induction l as [|it l IH]; simpl; [done|]. rewrite IH. destruct (p it); lia. Qed.

(** ** What planning a source results in *)

Section plan.
Context `{H : Exec} (a : attempt_env).

(** Only unknown facts make an item of unknown bytes, and such an item is a copy that will be
    held when it does not fit. *)
Definition noted (it : planItem) : Prop := it_status it ≠ ItemPending ∧ (plan_unsure it = true → unsure (to_item it) = true).
(** The counts of [s'] are those of [s] and the items'. *)
Definition counted (its : list planItem) (s s' : syncRun) : Prop :=
  s_bytes s' = i64 (s_bytes s + planned_sum plan_copies its) ∧ s_unknownBytes s' = i64 (s_unknownBytes s + planned_sum plan_unsure its).
Definition counts_ok (s : syncRun) : Prop := i64 (s_bytes s) = s_bytes s ∧ i64 (s_unknownBytes s) = s_unknownBytes s.

Lemma noted_item it : item_ok (λ _, True) it → it_status it = NoStatus → noted it.
Proof.
  intros [_ Hu _] Hn. split; [by rewrite Hn|]. unfold plan_unsure, plan_copies, no_status. rewrite Hn. simpl. intros [_ Hw%negb_true_iff%bool_decide_eq_false]%andb_true_iff.
  destruct (Hu Hw) as [Ha (x & Ht & Hp)]. unfold unsure, copies, unknown_copy, unknown_item, to_item. simpl. by rewrite Hn, Ha, Ht, Hp.
Qed.
Lemma noted_other it : it_status it ≠ ItemPending → it_status it ≠ NoStatus → noted it.
Proof. intros Hp Hn. split; [done|]. unfold plan_unsure, plan_copies, no_status. by rewrite bool_decide_eq_false_2. Qed.

Lemma yields_plan_fresh release s src : a_dryRun a = false → names_ok s → yields (plan_fresh a release s src) (λ r, names_ok r.2 ∧ counts_ok r.2 ∧ Forall noted r.1 ∧ counted r.1 s r.2).
Proof.
  intros Hreal Hn. unfold plan_fresh. cbv zeta.
  assert (Hstop : ∀ A why Q, yields (stopped (A := A) why) Q) by (intros; apply yields_then; intros []; apply yields_fail).
  apply yields_then. intros scanned. destruct (negb _); [apply Hstop|]. apply yields_then. intros f. apply yields_then. intros files.
  apply yields_then. intros recs. apply yields_then. intros opened. destruct (negb _); [apply Hstop|]. apply yields_then. intros dec.
  apply yields_then. intros k. apply yields_then. intros w. set (cfg := plan_config _ _ _ _ _ _ _).
  destruct (SyncPlan.plan cfg _ _) as [[u p]|[|]] eqn:Eplan; [|apply yields_fail|apply Hstop].
  assert (Hf : Forall (λ f, pf_rec f = None ∧ pf_replaced f = false) (plan_file_of dec <$> files)) by (apply Forall_fmap, Forall_forall; by intros).
  destruct (plan_heap cfg (λ _, True) (plan_file_of dec <$> files) (λ _ _, I) (λ _ _ _, I) Hf Hreal _ _ _ Hn Eplan) as [Hheap Hcaps].
  apply yields_then. intros _. set (its := guarded_items cfg p _). destruct (foldl count_item (0, 0) its) as [b u'] eqn:Ec. apply yields_ret. simpl.
  rewrite count_sums in Ec by done. injection Ec as <- <-. split_and!; [done| | |].
  - split; apply i64_i64.
  - apply Forall_forall. intros it Hit. unfold its, guarded_items in Hit. apply list_elem_of_omap in Hit as (i & _ & Hi).
    eapply guard_heap in Hi as [Hs Hk]; [|exact Hheap]. destruct (decide (it_status it = NoStatus)) as [E|E]; [by apply noted_item; [apply Hk|]|by apply noted_other].
  - unfold counted. simpl. by rewrite !i64_add_r.
Qed.
Lemma yields_planSource release s src : a_dryRun a = false → names_ok s → counts_ok s → yields (planSource a release s src) (λ r, names_ok r.2 ∧ counts_ok r.2 ∧ Forall noted r.1 ∧ counted r.1 s r.2).
Proof.
  intros Hreal Hn Hc. unfold planSource. apply yields_then. intros locked. destruct (negb _); [apply yields_fail|]. apply yields_then. intros f. apply yields_then. intros o.
  assert (Hdrop : ∀ l, names_ok (with_sources l s) ∧ counts_ok (with_sources l s) ∧ Forall noted [] ∧ counted [] s (with_sources l s)).
  { intros l. split_and!; [done|done|constructor|]. unfold counted. simpl. destruct Hc as [E1 E2]. by rewrite !Z.add_0_r, E1, E2. }
  destruct o as [fresh|]; [|apply yields_ret, Hdrop]. destruct (src_Enabled fresh); [by apply yields_plan_fresh|apply yields_ret, Hdrop].
Qed.

(** ** What is stored *)

Definition keeps_items (w w' : world) : Prop := w_items w' = w_items w.
#[local] Instance keeps_items_preorder : PreOrder keeps_items.
Proof. split; [done|]. intros u v w H1 H2. unfold keeps_items in *. congruence. Qed.
Lemma AddItems_ok batch final s s' : AddItems batch final s = (Ok tt, s') → w_items (s_w s') = foldl add_item (w_items (s_w s)) batch.
Proof. unfold AddItems, db_ok, xbind. simpl. destruct (e_db the_env _); simpl; [done|]. by intros [= <-]. Qed.
Lemma write_items_ok its batch s batch' s' : write_items a its batch s = (Ok batch', s') →
  ∃ done, (batch ++ (to_item <$> its))%list = (done ++ batch')%list ∧ w_items (s_w s') = foldl add_item (w_items (s_w s)) done.
Proof.
  revert batch s. induction its as [|it its IH]; intros batch s; simpl.
  { intros [= <- <-]. exists []. by rewrite app_nil_r. }
  destruct (_ <=? _)%nat.
  - intros ([] & s1 & E1%AddItems_ok & E2)%xbind_ok. destruct (IH _ _ E2) as (d & Ed & Ei). exists ((batch ++ [to_item it]) ++ d)%list.
    rewrite foldl_app, <-E1, <-app_assoc, <-Ed, <-app_assoc. done.
  - intros E. destruct (IH _ _ E) as (d & Ed & Ei). exists d. by rewrite <-Ed, <-app_assoc.
Qed.
(** The plans of the sources, in order. *)
Definition planned_of (release : option releasePlan) (src : Source) (its : list planItem) : Prop :=
  ∃ s t s' t', planSource a release s src t = (Ok (its, s'), t').
Lemma plan_sources_ok release srcs s batch st s' batch' st' : plan_sources a release srcs s batch st = (Ok (s', batch'), st') →
  ∃ plans d, Forall2 (planned_of release) srcs plans ∧ (batch ++ (to_item <$> concat plans))%list = (d ++ batch')%list ∧
    w_items (s_w st') = foldl add_item (w_items (s_w st)) d ∧
    (a_dryRun a = false → names_ok s → counts_ok s → counts_ok s' ∧ Forall noted (concat plans) ∧ counted (concat plans) s s').
Proof.
  revert s batch st. induction srcs as [|src srcs IH]; intros s batch st; simpl.
  { intros [= <- <- <-]. exists [], []. split_and!; [constructor|by rewrite app_nil_r|done|]. intros _ _ [E1 E2]. split_and!; [done|constructor|].
    unfold counted. simpl. by rewrite !Z.add_0_r, E1, E2. }
  intros ([its s1] & t1 & E1 & (batch1 & t2 & E2 & E3)%xbind_ok)%xbind_ok.
  destruct (write_items_ok _ _ _ _ _ E2) as (d1 & Ed1 & Ei1). destruct (IH _ _ _ E3) as (plans & d2 & Hp & Ed2 & Ei2 & Hc).
  exists (its :: plans), (d1 ++ d2)%list. split_and!.
  - constructor; [by exists s, st, s1, t1|done].
  - simpl. rewrite fmap_app, app_assoc, Ed1, <-!app_assoc, Ed2. done.
  - rewrite foldl_app, Ei2, Ei1. f_equal. f_equal.
    assert (Hk : through keeps_items (planSource a release s src)) by (by apply through_planSource; [apply _|]).
    destruct (Hk st) as [Hw _]. rewrite E1 in Hw. exact Hw.
  - intros Hreal Hn Hok. destruct (yields_planSource release s src Hreal Hn Hok st (its, s1)) as (Hn1 & Hok1 & Hi1 & Hc1); [by rewrite E1|]. simpl in *.
    destruct (Hc Hreal Hn1 Hok1) as (Hok' & Hi & Hc'). split_and!; [done|by apply Forall_app|].
    destruct Hc1 as [B1 U1], Hc' as [B2 U2]. split; rewrite ?B2, ?U2, ?B1, ?U1, i64_add_l; f_equal.
    + rewrite planned_app. lia.
    + rewrite planned_app. lia.
Qed.
End plan.

(** ** The items of a plan are stored in order *)

Definition ids_up (l : list item) : Prop := StronglySorted Z.lt (0 :: (i_ID <$> l)).
Lemma next_item_up l i : i ∈ l → i_ID i < next_item l.
Proof.
  unfold next_item. induction l as [|j l IH]; [by intros ?%elem_of_nil|]. simpl. rewrite elem_of_cons. intros [->|Hi]; [lia|]. specialize (IH Hi). lia.
Qed.
Lemma next_item_pos l : 0 < next_item l.
Proof. unfold next_item. assert (0 ≤ foldr (λ i n, Z.max (i_ID i) n) 0 l); [|lia]. induction l; simpl; lia. Qed.
Lemma add_item_up l i : ids_up l → ids_up (add_item l i).
Proof.
  unfold ids_up, add_item. rewrite fmap_app. simpl. rewrite app_comm_cons. intros Hl. apply StronglySorted_app. split_and!; [|done|repeat constructor].
  intros x y Hx ->%list_elem_of_singleton. simpl. apply elem_of_cons in Hx as [->|(j & -> & Hj)%list_elem_of_fmap]; [apply next_item_pos|by apply next_item_up].
Qed.
Lemma added_up l batch : ids_up l → ids_up (foldl add_item l batch).
Proof. revert l. induction batch as [|i batch IH]; intros l Hl; simpl; [done|]. by apply IH, add_item_up. Qed.
Lemma added_items l batch : with_item_id 0 <$> foldl add_item l batch = ((with_item_id 0 <$> l) ++ (with_item_id 0 <$> batch))%list.
Proof.
  revert l. induction batch as [|i batch IH]; intros l; simpl; [by rewrite app_nil_r|]. rewrite IH. unfold add_item. rewrite fmap_app, <-app_assoc. done.
Qed.

Section stored.
Context `{H : Exec} (a : attempt_env).

Lemma scanAndPlan_ok release s0 st s1 st1 : scanAndPlan a release s0 st = (Ok s1, st1) →
  ∃ plans, Forall2 (planned_of a release) (s_sources s0) plans ∧ w_items (s_w st1) = foldl add_item (w_items (s_w st)) (to_item <$> concat plans) ∧
    w_planned (s_w st1) = true ∧
    (a_dryRun a = false → counts_ok s0 → Forall noted (concat plans) ∧ counted (concat plans) s0 s1).
Proof.
  unfold scanAndPlan. intros (names & t1 & E1 & ([s2 batch] & t2 & E2 & ([] & t3 & E3 & E4)%xbind_ok)%xbind_ok)%xbind_ok.
  injection E4 as <- <-. destruct (looks_destinationNames (s_sources s0) st) as (Ew & _). rewrite E1 in Ew. simpl in Ew.
  assert (Hn : ni_caps names = x_caps the_run).
  { unfold destinationNames in E1. apply xbind_ok in E1 as (recs & t & _ & [= <- _]). apply indexed_caps. }
  destruct (plan_sources_ok _ _ _ _ _ _ _ _ _ E2) as (plans & d & Hp & Ed & Ei & Hc). exists plans. split_and!; [done| | |].
  - rewrite (AddItems_ok _ _ _ _ E3), Ei, <-foldl_app, <-Ed, Ew. done.
  - revert E3. unfold AddItems, db_ok, xbind. simpl. destruct (e_db the_env _); simpl; [done|]. by intros [= <-].
  - intros Hreal Hok. destruct (Hc Hreal Hn Hok) as (_ & Hi & Hc'). done.
Qed.
(** Until the last batch is written the plan is not complete. *)
Definition unplanned (w w' : world) : Prop := w_planned w = false → w_planned w' = false.
#[local] Instance unplanned_preorder : PreOrder unplanned.
Proof. split; [by intros w ?|]. intros u v w H1 H2 Hu. by apply H2, H1. Qed.
Lemma scanAndPlan_unplanned release s0 st : w_planned (s_w st) = false →
  let m := scanAndPlan a release s0 st in
  (∀ w, w ∈ s_past m.2 → w ∈ s_past st ∨ w_planned w = false ∨ w = s_w m.2) ∧
  match m.1 with Ok _ => True | Err _ => w_planned (s_w m.2) = false end.
Proof.
  intros Hst. set (m0 := let! names := destinationNames (s_sources s0) in plan_sources a release (s_sources s0) (with_names names s0) []).
  assert (Ht : through unplanned m0).
  { apply through_bind; [apply through_looks, looks_destinationNames|]. intros names. apply through_plan_sources; [apply _|by intros w l ?|by intros w l ? ?]. }
  assert (Hm : ∀ s, scanAndPlan a release s0 s = xbind m0 (λ r, let '(s1, batch) := r in AddItems batch true ;! xret s1) s).
  { intros s. unfold scanAndPlan, m0, xbind. by destruct (destinationNames _ s) as [[]]. }
  cbv zeta. rewrite Hm. destruct (Ht st) as (Hw & Hp & _). clearbody m0. unfold xbind. destruct (m0 st) as [[[s1 batch]|e] t]; simpl in *.
  2: { split; [|by apply Hw]. intros w Hin. destruct (Hp w Hin); auto. }
  unfold AddItems, db_ok, xbind, xret. simpl. destruct (e_db the_env _); simpl.
  - split; [|by apply Hw]. intros w Hin. destruct (Hp w Hin); auto.
  - split; [|done]. intros w [->|Hin]%elem_of_cons; [auto|]. destruct (Hp w Hin); auto.
Qed.
End stored.

(** C4: A plan is stored whole, in order and once, or not at all: when [scanAndPlan] succeeds on an
    empty store, the items are those of each source's plan, in the order of the sources, with
    ascending ids, whatever the size of the batches they are written in, and the plan is complete;
    when it fails, and in every world before its last write, the plan does not count as complete, so
    that the next attempt deletes its items and plans anew. *)
Theorem plan_stored_whole (H : Exec) a release s0 st :
  w_items (s_w st) = [] → w_planned (s_w st) = false →
  let m := scanAndPlan a release s0 st in
  (∀ w, w ∈ s_past m.2 → w ∈ s_past st ∨ w_planned w = false ∨ w = s_w m.2) ∧
  match m.1 with
  | Ok _ => w_planned (s_w m.2) = true ∧ ∃ plans, Forall2 (planned_of a release) (s_sources s0) plans ∧
      with_item_id 0 <$> w_items (s_w m.2) = to_item <$> concat plans ∧ StronglySorted Z.lt (0 :: (i_ID <$> w_items (s_w m.2)))
  | Err _ => w_planned (s_w m.2) = false
  end.
Proof.
  intros Hi Hp. cbv zeta. destruct (scanAndPlan_unplanned a release s0 st Hp) as [Hw He]. cbv zeta in *. split; [done|].
  destruct (scanAndPlan a release s0 st) as [[s1|e] st1] eqn:E; simpl in *; [|done].
  destruct (scanAndPlan_ok _ _ _ _ _ _ E) as (plans & Hpl & Eit & Hdone & _). split; [done|]. exists plans. rewrite Eit, Hi. split_and!; [done| |].
  - rewrite added_items. simpl. rewrite <-list_fmap_compose. by apply list_fmap_ext.
  - apply added_up. repeat constructor.
Qed.

(** ** Holding by pages *)

Section holds.
Context `{H : Exec} (p : item → bool).
Definition is_pending (i : item) : bool := bool_decide (i_Status i = ItemPending).
(** What holding from the id [after] on makes of an item. *)
Definition held_after (after : Z) (i : item) : item := if is_pending i && (after <? i_ID i) && p i then held_row i else i.
Definition held_in (page : list item) (i : item) : item := if existsb (λ it, (i_ID it =? i_ID i) && p it) page then held_row i else i.

Lemma FinishItem_ok id s s' : FinishItem id ItemHeld 0 s = (Ok tt, s') → w_items (s_w s') = (λ i, if i_ID i =? id then held_row i else i) <$> w_items (s_w s).
Proof.
  unfold FinishItem, update_item, db_ok, xbind. simpl. destruct (e_db the_env _); simpl; [done|]. destruct (existsb _ _); simpl; [|done]. by intros [= <-].
Qed.
Lemma fold_items_hold page s s' : fold_items (hold_if p) tt page s = (Ok tt, s') → w_items (s_w s') = held_in page <$> w_items (s_w s).
Proof.
  revert s. induction page as [|it page IH]; intros s; simpl.
  { intros [= <-]. symmetry. apply list_fmap_id. }
  intros ([] & s1 & E1 & E2)%xbind_ok. rewrite (IH _ E2). unfold hold_if in E1. destruct (p it) eqn:Ep.
  - rewrite (FinishItem_ok _ _ _ E1), <-list_fmap_compose. apply list_fmap_ext. intros _ i _. unfold held_in. simpl. rewrite Ep, andb_true_r, (Z.eqb_sym (i_ID it)).
    destruct (i_ID i =? i_ID it); simpl; [|done]. by destruct (existsb _ page).
  - injection E1 as <-. apply list_fmap_ext. intros _ i _. unfold held_in. simpl. by rewrite Ep, andb_false_r.
Qed.

(** A page is what is pending up to its last id. *)
Lemma page_spec after l x : StronglySorted Z.lt (i_ID <$> l) → last (pending after l) = Some x →
  x ∈ l ∧ after < i_ID x ∧ ∀ i, i ∈ l → (i ∈ pending after l ↔ is_pending i = true ∧ after < i_ID i ≤ i_ID x).
Proof.
  intros Hs Hx. unfold pending in *. set (q := λ i, bool_decide (i_Status i = ItemPending) && (after <? i_ID i)) in *.
  assert (Hq : ∀ i, i ∈ List.filter q l ↔ i ∈ l ∧ is_pending i = true ∧ after < i_ID i).
  { intros i. rewrite filter_bool_elem. unfold q, is_pending. rewrite andb_true_iff, Z.ltb_lt. tauto. }
  assert (Hss : StronglySorted Z.lt (i_ID <$> List.filter q l)).
  { clear Hx Hq. induction l as [|i l IH]; simpl; [constructor|]. rewrite fmap_cons in Hs. apply StronglySorted_cons in Hs as [Hi Hs]. specialize (IH Hs).
    destruct (q i); [|done]. rewrite fmap_cons. apply StronglySorted_cons. split; [|done]. rewrite Forall_fmap, Forall_forall in *. intros j Hj.
    apply Hi. by apply filter_bool_elem in Hj as [? _]. }
  set (f := List.filter q l) in *. pose proof (take_drop pendingBatch f) as Ef. set (page := take pendingBatch f) in *.
  apply last_Some in Hx as [pre Hpre]. assert (Hin : x ∈ page) by (rewrite Hpre, elem_of_app; right; by left).
  assert (Hxf : x ∈ f) by (rewrite <-Ef, elem_of_app; by left). apply Hq in Hxf as (Hxl & _ & Hxa). split; [done|]. split; [done|].
  rewrite <-Ef, fmap_app in Hss. apply StronglySorted_app in Hss as (Hlt & Hpg & _).
  intros i Hi. split.
  - intros Hip. assert (Hif : i ∈ f) by (rewrite <-Ef, elem_of_app; by left). apply Hq in Hif as (_ & Hp & Ha). split; [done|]. split; [done|].
    rewrite Hpre, fmap_app in Hpg. apply StronglySorted_app in Hpg as (Hle & _ & _). rewrite Hpre, elem_of_app in Hip.
    destruct Hip as [Hip| ->%list_elem_of_singleton]; [|done]. apply Z.lt_le_incl, Hle; [by apply list_elem_of_fmap_2|by left].
  - intros (Hp & Ha & Hle). assert (Hif : i ∈ f) by (apply Hq; auto). rewrite <-Ef, elem_of_app in Hif. destruct Hif as [?|Hd]; [done|]. exfalso.
    assert (i_ID x < i_ID i); [|lia]. apply Hlt; by apply list_elem_of_fmap_2.
Qed.
Lemma page_empty after l i : last (pending after l) = None → i ∈ l → is_pending i && (after <? i_ID i) = false.
Proof.
  unfold pending. set (q := λ i, bool_decide (i_Status i = ItemPending) && (after <? i_ID i)). intros Hn%last_None Hi.
  destruct (List.filter q l) as [|j f] eqn:E; [|done]. apply not_true_is_false. intros Hp. assert (Hin : i ∈ List.filter q l) by (by apply filter_bool_elem).
  rewrite E in Hin. by apply elem_of_nil in Hin.
Qed.
Lemma one_row (l : list item) i j : StronglySorted Z.lt (i_ID <$> l) → i ∈ l → j ∈ l → i_ID i = i_ID j → i = j.
Proof.
  induction l as [|k l IH]; [by intros _ ?%elem_of_nil|]. rewrite fmap_cons, StronglySorted_cons, !elem_of_cons. intros [Hk Hs] Hi Hj E. rewrite Forall_fmap, Forall_forall in Hk.
  destruct Hi as [->|Hi], Hj as [->|Hj]; [done| | |by apply IH]; [specialize (Hk _ Hj)|specialize (Hk _ Hi)]; simpl in Hk; lia.
Qed.

Definition after_count (after : Z) (l : list item) : nat := length (List.filter (Z.ltb after) (i_ID <$> l)).
Lemma after_count_lt after x l : x ∈ l → after < i_ID x → (after_count (i_ID x) l < after_count after l)%nat.
Proof.
  intros Hi Ha. unfold after_count. apply (list_elem_of_fmap_2 i_ID) in Hi. revert Hi Ha. generalize (i_ID <$> l), (i_ID x). intros k b Hk Hb.
  assert (Hle : ∀ k, (length (List.filter (Z.ltb b) k) ≤ length (List.filter (Z.ltb after) k))%nat).
  { intros k'. induction k' as [|z k' IH]; simpl; [done|]. destruct (b <? z) eqn:E1, (after <? z) eqn:E2; simpl; lia. }
  induction k as [|z k IH]; [by apply elem_of_nil in Hk|]. simpl. apply elem_of_cons in Hk as [<-|Hk].
  - rewrite Z.ltb_irrefl. replace (after <? b) with true by lia. simpl. specialize (Hle k). lia.
  - specialize (IH Hk). destruct (b <? z) eqn:E1, (after <? z) eqn:E2; simpl; lia.
Qed.
Lemma held_ids page (l : list item) : i_ID <$> (held_in page <$> l) = i_ID <$> l.
Proof. rewrite <-list_fmap_compose. apply list_fmap_ext. intros _ i _. simpl. unfold held_in. by destruct (existsb _ _). Qed.

Lemma each_pending_hold fuel after s s' : StronglySorted Z.lt (i_ID <$> w_items (s_w s)) → (after_count after (w_items (s_w s)) < fuel)%nat →
  each_pending (hold_if p) fuel after tt s = (Ok tt, s') → w_items (s_w s') = held_after after <$> w_items (s_w s).
Proof.
  revert after s. induction fuel as [|fuel IH]; intros after s Hs Hf; [lia|]. cbn [each_pending]. intros ([] & s1 & E1 & E)%xbind_ok.
  destruct (looks_db_ok s) as (Ew & _). rewrite E1 in Ew. simpl in Ew. rewrite <-Ew in *. clear s E1 Ew. set (l := w_items (s_w s1)) in *.
  apply xbind_ok in E as (w & s2 & [= <- <-] & E). fold l in E. destruct (last (pending after l)) as [x|] eqn:Ex.
  - apply xbind_ok in E as ([] & s3 & E2 & E3). apply fold_items_hold in E2. fold l in E2. destruct (page_spec _ _ _ Hs Ex) as (Hx & Ha & Hpage).
    rewrite (IH _ _) with (3 := E3); rewrite E2; [|by rewrite held_ids|].
    + rewrite <-list_fmap_compose. apply list_fmap_ext. intros k i Hk%list_elem_of_lookup_2. simpl. specialize (Hpage i Hk).
      unfold held_in. destruct (existsb _ _) eqn:Eb.
      * apply existsb_exists in Eb as (it & Hit & [Eid Ep]%andb_true_iff). apply list_elem_of_In in Hit. apply Z.eqb_eq in Eid.
        assert (it = i) as -> by (apply (one_row l); [done| |done|done]; unfold pending in Hit; apply subseteq_take in Hit; by apply filter_bool_elem in Hit as [? _]).
        apply Hpage in Hit as (Hp & Hlt). unfold held_after at 2. rewrite Hp, Ep. replace (after <? i_ID i) with true by lia. done.
      * unfold held_after. destruct (is_pending i) eqn:Hp; [|done]. destruct (p i) eqn:Ep; [|by rewrite !andb_false_r]. rewrite !andb_true_r. simpl.
        destruct (i_ID x <? i_ID i) eqn:E4; [by replace (after <? i_ID i) with true by lia|]. destruct (after <? i_ID i) eqn:E5; [|done]. exfalso.
        assert (Hin : i ∈ pending after l) by (apply Hpage; split; [done|lia]). apply list_elem_of_In in Hin.
        assert (existsb (λ it, (i_ID it =? i_ID i) && p it) (pending after l) = true); [|congruence].
        apply existsb_exists. exists i. split; [done|]. by rewrite Z.eqb_refl.
    + unfold after_count in *. rewrite held_ids. pose proof (after_count_lt after x l Hx Ha). unfold after_count in *. lia.
  - injection E as <-. transitivity (id <$> l); [by rewrite list_fmap_id|]. apply list_fmap_ext. intros k i Hk%list_elem_of_lookup_2. unfold held_after.
    by rewrite (page_empty _ _ _ Ex Hk).
Qed.
Lemma all_pending_hold s s' : ids_up (w_items (s_w s)) → all_pending (hold_if p) tt s = (Ok tt, s') →
  w_items (s_w s') = (λ i, if is_pending i && p i then held_row i else i) <$> w_items (s_w s).
Proof.
  unfold ids_up. rewrite StronglySorted_cons. intros [Hpos Hs] (w & s1 & [= <- <-] & E)%xbind_ok. rewrite (each_pending_hold _ _ _ _ Hs) with (2 := E).
  - apply list_fmap_ext. intros k i Hk%list_elem_of_lookup_2. unfold held_after. rewrite Forall_fmap, Forall_forall in Hpos. specialize (Hpos i Hk). simpl in Hpos.
    by replace (0 <? i_ID i) with true by lia; rewrite andb_true_r.
  - unfold after_count. pose proof (List.filter_length_le (Z.ltb 0) (i_ID <$> w_items (s_w s))) as Hl. rewrite length_fmap in Hl. lia.
Qed.
End holds.

(** ** What is left to copy fits *)

(** The copies that holding leaves. *)
Lemma to_copy_held (p : item → bool) l :
  to_copy ((λ i, if is_pending i && p i then held_row i else i) <$> l) = to_copy l - sum_of (λ i, copies i && p i) l.
Proof.
  unfold to_copy. induction l as [|i l IH]; [done|]. rewrite fmap_cons. cbn [sum_of foldr]. fold (sum_of copies l) (sum_of (λ i, copies i && p i) l).
  fold (sum_of copies ((λ i, if is_pending i && p i then held_row i else i) <$> l)). rewrite IH. unfold copies, is_pending.
  destruct (bool_decide (i_Status i = ItemPending)) eqn:Es; simpl; rewrite ?Es; simpl; [|lia].
  destruct (p i); simpl; rewrite ?Es, ?andb_true_r, ?andb_false_r; simpl; destruct (mem _ _); lia.
Qed.
Lemma holds_up (p : item → bool) l : ids_up l → ids_up ((λ i, if is_pending i && p i then held_row i else i) <$> l).
Proof.
  unfold ids_up. intros Hl. assert ((i_ID <$> ((λ i, if is_pending i && p i then held_row i else i) <$> l)) = i_ID <$> l) as ->; [|done].
  rewrite <-list_fmap_compose. apply list_fmap_ext. intros _ i _. simpl. by destruct (_ && _).
Qed.

Section fits.
Context `{H : Exec} (a : attempt_env).
Lemma hold_links_ok s s' : ids_up (w_items (s_w s)) → holdLinksOfHeld s = (Ok tt, s') → to_copy (w_items (s_w s')) = to_copy (w_items (s_w s)).
Proof.
  intros Hu. unfold holdLinksOfHeld. intros ([] & s1 & E1 & (w & s2 & [= <- <-] & E2)%xbind_ok)%xbind_ok. destruct (looks_db_ok s) as (Ew & _).
  rewrite E1 in Ew. simpl in Ew. case_bool_decide; [by injection E2 as <-; rewrite Ew|]. rewrite <-Ew in Hu |- *.
  rewrite (all_pending_hold _ _ _ Hu E2), to_copy_held. set (held := heldCopies _).
  assert (∀ l, sum_of (λ i, copies i && link_of_held held i) l = 0) as ->; [|lia].
  induction l as [|i l IH]; [done|]. cbn [sum_of foldr]. fold (sum_of (λ i, copies i && link_of_held held i) l). rewrite IH.
  unfold copies, link_of_held. destruct (bool_decide_reflect (i_Action i = ActionLink)) as [->|]; [by rewrite andb_false_r|by rewrite andb_false_r].
Qed.
Lemma hold_unknown_ok s s' : ids_up (w_items (s_w s)) → holdUnknownCopies s = (Ok tt, s') →
  to_copy (w_items (s_w s')) = to_copy (w_items (s_w s)) - sum_of unsure (w_items (s_w s)).
Proof.
  intros Hu ([] & s1 & E1 & E2)%xbind_ok. pose proof (all_pending_hold _ _ _ Hu E1) as E. assert (Hu1 : ids_up (w_items (s_w s1))) by (rewrite E; by apply holds_up).
  rewrite (hold_links_ok _ _ Hu1 E2), E. apply to_copy_held.
Qed.
Lemma available_free free : 0 < availableSpace free → availableSpace free + freeSpaceReserve ≤ free.
Proof. unfold availableSpace, freeSpaceReserve. destruct (_ <? _) eqn:E; lia. Qed.
Lemma checkFreeSpace_ok s1 st1 st2 : a_dryRun a = false → ids_up (w_items (s_w st1)) → checkFreeSpace a s1 st1 = (Ok tt, st2) →
  s_bytes s1 = 0 ∧ w_items (s_w st2) = w_items (s_w st1) ∨
  ∃ free, a_free a (s_n st1) = Some free ∧
    (s_bytes s1 ≤ availableSpace free ∧ w_items (s_w st2) = w_items (s_w st1) ∨
     i64 (s_bytes s1 - s_unknownBytes s1) ≤ availableSpace free ∧ to_copy (w_items (s_w st2)) = to_copy (w_items (s_w st1)) - sum_of unsure (w_items (s_w st1))).
Proof.
  intros Hreal Hu. unfold checkFreeSpace. rewrite Hreal. destruct (s_bytes s1 =? 0) eqn:E0; [intros [= <-]; left; split; [lia|done]|].
  intros (free & st & [= Ef <-] & E)%xbind_ok. right. destruct free as [free|]; [|done]. exists free. split; [done|].
  cbv zeta in E. destruct (_ && _ && _) eqn:E1.
  - right. apply andb_true_iff in E1 as [_ E1]. split; [lia|]. by apply hold_unknown_ok in E.
  - left. destruct (_ <? _) eqn:E2; [done|]. injection E as <-. split; [lia|done].
Qed.
Lemma stored_sums its l : Forall noted its → with_item_id 0 <$> l = to_item <$> its → Forall (λ i, 0 ≤ i_Bytes i) l →
  planned_sum plan_copies its = to_copy l ∧ 0 ≤ planned_sum plan_unsure its ≤ sum_of unsure l ∧ sum_of unsure l ≤ to_copy l.
Proof.
  intros Hn. revert l. induction Hn as [|it its [Hp Hu] _ IH]; intros [|i l]; rewrite ?fmap_cons; [by intros _ _; simpl; lia|done..|].
  intros E0. pose proof (f_equal (head (A := item)) E0) as Ei. pose proof (f_equal (@tail item) E0) as El. cbn [head tail] in Ei, El. apply (inj Some) in Ei.
  rewrite Forall_cons. intros [Hi Hl]. destruct (IH l El Hl) as (E & Hb & Hc).
  assert (Es : i_Status i = i_Status (to_item it)) by (by rewrite <-Ei). assert (Ea : i_Action i = it_action it) by (by change (i_Action i) with (i_Action (with_item_id 0 i)); rewrite Ei).
  assert (Eb : i_Bytes i = it_bytes it) by (by change (i_Bytes i) with (i_Bytes (with_item_id 0 i)); rewrite Ei).
  assert (Eu : unsure i = unsure (to_item it)) by (by rewrite <-Ei).
  assert (Ecp : copies i = plan_copies it).
  { unfold copies, plan_copies. rewrite Ea, Es. f_equal. unfold to_item, no_status. simpl. destruct (bool_decide_reflect (it_status it = NoStatus)); [done|]. by apply bool_decide_eq_false_2. }
  unfold to_copy in *. cbn [planned_sum sum_of foldr]. fold (planned_sum plan_copies its) (planned_sum plan_unsure its) (sum_of copies l) (sum_of unsure l).
  rewrite Ecp, Eb, E. rewrite Eb in Hi. assert (Huc : unsure i = true → plan_copies it = true) by (rewrite <-Ecp; unfold unsure; by intros [? _]%andb_true_iff).
  assert (Hpc : plan_unsure it = true → unsure i = true) by (by rewrite Eu).
  destruct (plan_unsure it), (unsure i), (plan_copies it); try (by specialize (Hpc eq_refl)); try (by specialize (Huc eq_refl)); lia.
Qed.
End fits.

(** C3: What a sync leaves to copy fits: when planning succeeded and the check of the free space lets
    the sync go on, the pending copies and updates together leave at least 1 GiB of the free space
    the check read, those that are full only because a fact is unknown being held when they alone
    do not fit. (Without bytes to copy nothing is asked; sizes are not negative and their sum does
    not reach 2^63.) *)
Theorem copies_fit (H : Exec) a release s0 st s1 st1 st2 :
  a_dryRun a = false → w_items (s_w st) = [] → s_bytes s0 = 0 → s_unknownBytes s0 = 0 →
  scanAndPlan a release s0 st = (Ok s1, st1) → checkFreeSpace a s1 st1 = (Ok tt, st2) →
  Forall (λ i, 0 ≤ i_Bytes i) (w_items (s_w st1)) → to_copy (w_items (s_w st1)) < 2 ^ 63 →
  to_copy (w_items (s_w st2)) ≤ 0 ∨ ∃ free, a_free a (s_n st1) = Some free ∧ to_copy (w_items (s_w st2)) + 2 ^ 30 ≤ free.
Proof.
  intros Hreal Hi Hb Hu E1 E2 Hpos Hmax. destruct (scanAndPlan_ok _ _ _ _ _ _ E1) as (plans & _ & Eit & _ & Hc).
  destruct (Hc Hreal) as [Hn [B U]]; [split; by rewrite ?Hb, ?Hu|]. rewrite Hb, Z.add_0_l in B. rewrite Hu, Z.add_0_l in U. rewrite Hi in Eit.
  assert (Hup : ids_up (w_items (s_w st1))) by (rewrite Eit; apply added_up; repeat constructor).
  assert (Hst : with_item_id 0 <$> w_items (s_w st1) = to_item <$> concat plans).
  { rewrite Eit, added_items. simpl. rewrite <-list_fmap_compose. by apply list_fmap_ext. }
  destruct (stored_sums _ _ Hn Hst Hpos) as (Ec & Hunk & Hle).
  rewrite Ec, i64_id in B by (unfold in_i64, min_i64, max_i64; lia). rewrite i64_id in U by (unfold in_i64, min_i64, max_i64; lia).
  destruct (checkFreeSpace_ok a _ _ _ Hreal Hup E2) as [[E0 ->]|(free & Hf & Hok)]; [left; lia|].
  destruct (decide (to_copy (w_items (s_w st2)) ≤ 0)) as [?|Hgt]; [by left|right]. exists free. split; [done|].
  pose proof (available_free free) as Ha. unfold freeSpaceReserve in Ha.
  destruct Hok as [[Hok E]|[Hok E]]; [rewrite E in *; lia|]. rewrite i64_id in Hok by (unfold in_i64, min_i64, max_i64; lia). lia.
Qed.

(** A source with a new version of a file and a new file whose tier is full only because a fact
    is unknown: both together do not fit. *)
Definition unsure_decision : Decision := mkDecision Full 0 "" [] [] true 0 "".
Definition tight_attempt : attempt_env :=
  mkAttemptEnv true [1] [] false false 0 1 100 (λ s, s)
    (Some (mkTierEngine (λ _ _ _, Some (mkSourceDecisions 0 {[2 := unsure_decision]} ∅)) (λ _, Some 0) (λ _ _, None)))
    (λ _ id, Some (if id =? 1 then Some sync_source else None)) (λ _ _, true) (λ _ _, true)
    (λ _ _, Some [mkLiveFile 1 "a.mkv" 3 77 ""; mkLiveFile 2 "c.mkv" 3 77 ""]) (λ _ _, true) (λ _ _ _ _, sync_view) (λ _ _ _, None) (λ _ _, false)
    (λ _, Some (2 ^ 30 + 3)) (λ _ _, Ok false).
#[local] Abbreviation syncing := (mkExec (λ r, r) (λ s, s) demo_run demo_env).
Definition no_counts : syncRun := mkSyncRun [sync_source] (newNameIndex (x_caps demo_run)) 0 0.
Definition tight_plan : result xerr syncRun * st := scanAndPlan (H := syncing) tight_attempt None no_counts (start sync_world).
Definition tight_counts : syncRun := match tight_plan.1 with Ok s => s | Err _ => no_counts end.
Definition tight_check : result xerr unit * st := checkFreeSpace (H := syncing) tight_attempt tight_counts tight_plan.2.
#[local] Strategy expand [tight_plan tight_check].

Example tight_items :
  (λ i, (i_RelPath i, i_Action i, i_Status i)) <$> w_items (s_w tight_plan.2) =
    [("m/a.mkv", ActionUpdate, ItemPending); ("m/c.mkv", ActionCopy, ItemPending); ("m/b.mkv", ActionRetain, ItemPending)] ∧
  (λ i, (i_RelPath i, i_Action i, i_Status i)) <$> w_items (s_w tight_check.2) =
    [("m/a.mkv", ActionUpdate, ItemPending); ("m/c.mkv", ActionCopy, ItemHeld); ("m/b.mkv", ActionRetain, ItemPending)].
Proof. split; vm_compute; reflexivity. Qed.

Lemma result_pair {A B} (x : result xerr A * B) v : x.1 = Ok v → x = (Ok v, x.2).
Proof. destruct x. simpl. congruence. Qed.
Lemma plan_stored_whole_witness :
  w_planned (s_w tight_plan.2) = true ∧ ∃ plans, Forall2 (planned_of (H := syncing) tight_attempt None) [sync_source] plans ∧
    with_item_id 0 <$> w_items (s_w tight_plan.2) = to_item <$> concat plans ∧ StronglySorted Z.lt (0 :: (i_ID <$> w_items (s_w tight_plan.2))).
Proof.
  assert (Hr : tight_plan.1 = Ok tight_counts) by (vm_compute; reflexivity).
  assert (Ht : scanAndPlan (H := syncing) tight_attempt None no_counts (start sync_world) = tight_plan) by reflexivity.
  assert (Hi : w_items (s_w (start sync_world)) = []) by reflexivity. assert (Hn : w_planned (s_w (start sync_world)) = false) by reflexivity.
  pose proof (plan_stored_whole syncing tight_attempt None no_counts (start sync_world) Hi Hn) as Hp. cbv zeta in Hp.
  rewrite Ht, Hr in Hp. exact (proj2 Hp).
Defined.

Lemma copies_fit_witness :
  to_copy (w_items (s_w tight_check.2)) ≤ 0 ∨ ∃ free, a_free tight_attempt (s_n tight_plan.2) = Some free ∧ to_copy (w_items (s_w tight_check.2)) + 2 ^ 30 ≤ free.
Proof.
  assert (E1 : scanAndPlan (H := syncing) tight_attempt None no_counts (start sync_world) = (Ok tight_counts, tight_plan.2)).
  { change (tight_plan = (Ok tight_counts, tight_plan.2)). apply result_pair. vm_compute. reflexivity. }
  assert (E2 : checkFreeSpace (H := syncing) tight_attempt tight_counts tight_plan.2 = (Ok tt, tight_check.2)).
  { change (tight_check = (Ok tt, tight_check.2)). apply result_pair. vm_compute. reflexivity. }
  assert (Hpos : Forall (λ i, 0 ≤ i_Bytes i) (w_items (s_w tight_plan.2))) by (apply (bool_decide_unpack _); vm_compute; reflexivity).
  assert (Hmax : to_copy (w_items (s_w tight_plan.2)) < 2 ^ 63) by (vm_compute; reflexivity).
  exact (copies_fit syncing tight_attempt None no_counts (start sync_world) tight_counts tight_plan.2 tight_check.2 eq_refl eq_refl eq_refl eq_refl E1 E2 Hpos Hmax).
Defined.
