(* ===== verification/CatalogExclude.v ===== *)
(** * CatalogExclude: the exclude patterns of a source ([internal/catalog/exclude.go])

    [path.Match] with its own search (a chunk between two stars takes the first place where
    it matches), the compiled patterns, and the check of a source's list. [strings.ToLower]
    is an argument. *)
From stdpp Require Import base list strings.
From Stdlib Require Import Ascii.
From S2P Require Import Prelude GoStrings.
Open Scope string_scope.
Open Scope Z_scope.

(** ** [path.Match] *)

(** The terms of a pattern; a class holds inclusive ranges of runes. *)
Inductive term := TStar | TAny | TByte (c : ascii) | TClass (neg : bool) (ranges : list (Z * Z)).

Definition is_byte (s : string) (c : ascii) : bool := bool_decide (bytes s = [c]).
(** [getEsc]: a possibly escaped rune of a class, which something must follow. *)
Definition getEsc (l : list ascii) : option (Z * list ascii) :=
  match l with
  | [] => None
  | c :: l' =>
      if is_byte "-" c || is_byte "]" c then None
      else
        let l := if is_byte "\" c then l' else l in
        let (r, n) := decode_rune l in
        if (n =? 0)%nat || ((r =? rune_error) && (n =? 1)%nat) then None
        else match drop n l with [] => None | rest => Some (r, rest) end
  end.
(** The ranges of a class up to its bracket, one at least. *)
Fixpoint parse_class (fuel : nat) (first : bool) (l : list ascii) : option (list (Z * Z) * list ascii) :=
  match fuel with
  | O => None
  | S fuel =>
      match l with
      | c :: l' =>
          if is_byte "]" c && negb first then Some ([], l')
          else
            lo ← getEsc l;
            hi ← (match lo.2 with d :: l2 => if is_byte "-" d then getEsc l2 else Some lo | [] => Some lo end);
            rest ← parse_class fuel false hi.2;
            Some ((lo.1, hi.1) :: rest.1, rest.2)
      | [] => None
      end
  end.
(** [None] is [ErrBadPattern]. The number of bytes is enough fuel. *)
Fixpoint parse_terms (fuel : nat) (l : list ascii) : option (list term) :=
  match fuel, l with
  | _, [] => Some []
  | O, _ => None
  | S fuel, c :: l =>
      if is_byte "*" c then cons TStar <$> parse_terms fuel l
      else if is_byte "?" c then cons TAny <$> parse_terms fuel l
      else if is_byte "[" c then
        let (neg, l) := match l with d :: l' => if is_byte "^" d then (true, l') else (false, l) | [] => (false, l) end in
        rl ← parse_class (length l) true l;
        cons (TClass neg rl.1) <$> parse_terms fuel rl.2
      else if is_byte "\" c then
        match l with d :: l' => cons (TByte d) <$> parse_terms fuel l' | [] => None end
      else cons (TByte c) <$> parse_terms fuel l
  end.
Definition parse_glob (p : string) : option (list term) := parse_terms (String.length p) (bytes p).

Definition in_class (ranges : list (Z * Z)) (r : Z) : bool := existsb (λ b, (b.1 <=? r) && (r <=? b.2)) ranges.
(** What one term but a star takes. *)
Definition take_term (t : term) (s : list ascii) : option (list ascii) :=
  match t, s with
  | TByte c, d :: s' => if decide (c = d) then Some s' else None
  | TAny, d :: _ => if decide (d = slash) then None else Some (drop (decode_rune s).2 s)
  | TClass neg rs, _ :: _ => if Bool.eqb (in_class rs (decode_rune s).1) (negb neg) then Some (drop (decode_rune s).2 s) else None
  | _, _ => None
  end.
Fixpoint matchChunk (chunk : list term) (s : list ascii) : option (list ascii) :=
  match chunk with [] => Some s | t :: chunk => s' ← take_term t s; matchChunk chunk s' end.

(** [scanChunk], over the whole pattern: the chunks, and whether a star comes before. *)
Fixpoint scan_chunks (star : bool) (chunk : list term) (ts : list term) : list (bool * list term) :=
  match ts with
  | [] => match star, chunk with false, [] => [] | _, _ => [(star, chunk)] end
  | TStar :: ts => match chunk with [] => scan_chunks true [] ts | _ => (star, chunk) :: scan_chunks true [] ts end
  | t :: ts => scan_chunks star (chunk ++ [t])%list ts
  end.

(** The rest of the name after the chunk's first place; the last chunk must end the name. *)
Definition chunk_at (chunk : list term) (last_ : bool) (s : list ascii) : option (list ascii) :=
  match matchChunk chunk s with
  | Some t => if last_ && negb (bool_decide (t = [])) then None else Some t
  | None => None
  end.
Fixpoint chunk_after (chunk : list term) (last_ : bool) (s : list ascii) : option (list ascii) :=
  match chunk_at chunk last_ s with
  | Some t => Some t
  | None =>
      match s with
      | c :: s => if decide (c = slash) then None else chunk_after chunk last_ s
      | [] => None
      end
  end.
Fixpoint match_chunks (chunks : list (bool * list term)) (s : list ascii) : bool :=
  match chunks with
  | [] => bool_decide (s = [])
  | (star, chunk) :: rest =>
      if star && bool_decide (chunk = []) then negb (mem slash s)
      else
        let last_ := bool_decide (rest = []) in
        match (if star then chunk_after chunk last_ s else chunk_at chunk last_ s) with
        | Some t => match_chunks rest t
        | None => false
        end
  end.
Definition Match (pat name : string) : option bool := (λ ts, match_chunks (scan_chunks false [] ts) (bytes name)) <$> parse_glob pat.
(** [ok, _ := path.Match(...)] *)
Definition matches (pat name : string) : bool := default false (Match pat name).

(** ** The patterns *)

Definition defaultExcludes : list string :=
  [".DS_Store"; "._*"; "Thumbs.db"; "desktop.ini"; "@eaDir/"; "#recycle/"; ".Trash-*/"; "lost+found/"; "*.partial"; "*.part"; "*.!qB"; "*.!ut";
   "*.partial~"; "*.backup~"; ".grab/"; ".bunkarr/"; ".bunkarr-tmp-*"].
Definition maxExcludes : nat := 256.
Definition maxExcludePattern : Z := 1024.

Record pattern := mkPattern { p_glob : string; p_dirOnly : bool; p_anchored : bool; p_fold : bool }.

Fixpoint drop_slashes (l : list ascii) : list ascii := match l with c :: l' => if decide (c = slash) then drop_slashes l' else l | [] => [] end.
(** [strings.TrimLeft] and [TrimRight] of slashes. *)
Definition trim_left_slash (s : string) : string := of_bytes (drop_slashes (bytes s)).
Definition trim_right_slash (s : string) : string := of_bytes (reverse (drop_slashes (reverse (bytes s)))).

Section matcher.
Context (to_lower : string → string).

Definition parsePattern (raw : string) (fold : bool) : pattern :=
  let dirOnly := has_suffix raw "/" in
  let glob := if dirOnly then trim_right_slash raw else raw in
  let anchored := has_prefix glob "/" in
  let glob := if anchored then trim_left_slash glob else glob in
  mkPattern (if fold then to_lower glob else glob) dirOnly anchored fold.

Definition newMatcher (user : list string) : list pattern :=
  (((λ d, parsePattern d true) <$> defaultExcludes) ++ ((λ u, parsePattern u false) <$> user))%list.

Definition excluded_by (rel base : string) (isDir : bool) (p : pattern) : bool :=
  if p_dirOnly p && negb isDir then false
  else
    let r := if p_fold p then to_lower rel else rel in
    let b := if p_fold p then to_lower base else base in
    if negb (p_anchored p) && matches (p_glob p) b then true else matches (p_glob p) r.
Definition excluded (m : list pattern) (rel base : string) (isDir : bool) : bool := existsb (excluded_by rel base isDir) m.

Inductive exclude_error := TooMany | EmptyPattern | TooLong | HasNul | MatchesNothing | BadGlob.
Definition validate_one (raw : string) : result exclude_error string :=
  let p := trim_space raw in
  if bool_decide (p = "") then Err EmptyPattern
  else if maxExcludePattern <? slen p then Err TooLong
  else if has_byte (chr 0) p then Err HasNul
  else
    let g := p_glob (parsePattern p false) in
    if bool_decide (g = "") then Err MatchesNothing
    else match Match g "" with None => Err BadGlob | Some _ => Ok p end.
Definition validateExcludes (l : list string) : result exclude_error (list string) :=
  if (maxExcludes <? length l)%nat then Err TooMany else mapM_r validate_one l.
End matcher.

(** ** What a glob means *)

Inductive globs : list term → list ascii → Prop :=
| globs_end : globs [] []
| globs_term t ts s s' : take_term t s = Some s' → globs ts s' → globs (t :: ts) s
| globs_star ts s : globs ts s → globs (TStar :: ts) s
| globs_more ts c s : c ≠ slash → globs (TStar :: ts) s → globs (TStar :: ts) (c :: s).

(** A term that no slash matches, and a name of one-byte runes. *)
Definition no_slash (t : term) : bool := match t with TClass neg rs => Bool.eqb (in_class rs 47) neg | _ => true end.
Definition ascii_name (s : list ascii) : Prop := Forall (λ c, byte_of c < 128) s.

Lemma globs_chunk chunk ts s s' : matchChunk chunk s = Some s' → globs ts s' → globs (chunk ++ ts) s.
Proof.
  revert s. induction chunk as [|t chunk IH]; intros s; simpl; [by intros [= ->]|].
  intros (s1 & Ht & Hc)%bind_Some Hg. eapply globs_term; eauto.
Qed.
Lemma globs_skip ts u s : Forall (λ c, c ≠ slash) u → globs ts s → globs (TStar :: ts) (u ++ s).
Proof. intros Hu Hg. induction Hu as [|c u Hc Hu IH]; [by apply globs_star|]. by apply globs_more. Qed.

(** The chunks and the pattern. *)
Definition chunk_terms (x : bool * list term) : list term := ((if x.1 : bool then [TStar] else []) ++ x.2)%list.
Definition plain_chunk (chunk : list term) : Prop := TStar ∉ chunk.

(** How the chunks follow each other: only the first may lack its star, and only the last
    may be empty. *)
Fixpoint chunks_ok (first : bool) (l : list (bool * list term)) : Prop :=
  match l with
  | [] => True
  | (star, chunk) :: rest => (first = true ∨ star = true) ∧ plain_chunk chunk ∧ (chunk = [] → star = true ∧ rest = []) ∧ chunks_ok false rest
  end.
Lemma chunk_at_spec chunk last_ s t : chunk_at chunk last_ s = Some t ↔ matchChunk chunk s = Some t ∧ (last_ = true → t = []).
Proof.
  unfold chunk_at. destruct (matchChunk chunk s) as [t'|]; [|naive_solver]. destruct last_; simpl; [|naive_solver].
  case_bool_decide; naive_solver.
Qed.
Lemma chunk_after_spec chunk last_ s t : chunk_after chunk last_ s = Some t →
  ∃ u v, s = (u ++ v)%list ∧ Forall (λ c, c ≠ slash) u ∧ chunk_at chunk last_ v = Some t.
Proof.
  induction s as [|c s IH]; simpl; destruct (chunk_at chunk last_ _) eqn:E.
  - intros [= ->]. by exists [], [].
  - done.
  - intros [= ->]. by exists [], (c :: s).
  - case_decide as Hc; [done|]. intros (u & v & -> & Hu & Hv)%IH. exists (c :: u), v. split_and!; [done|by constructor|done].
Qed.
Lemma no_slash_spec s : mem slash s = false ↔ Forall (λ c, c ≠ slash) s.
Proof.
  rewrite <-not_true_iff_false, mem_spec, Forall_forall. split; [intros Hn c Hc ->; done|intros Hf Hin; by apply (Hf _ Hin)].
Qed.

(** What [path.Match] accepts is what the pattern means. *)
Lemma match_chunks_sound first chunks s : chunks_ok first chunks → match_chunks chunks s = true → globs (concat (chunk_terms <$> chunks)) s.
Proof.
  revert first s. induction chunks as [|[star chunk] rest IH]; intros first s; cbn [match_chunks].
  { intros _ Hs%bool_decide_eq_true. subst s. constructor. }
  intros (_ & _ & Hlast & Hok) Hm. assert (Hrest : ∀ t, match_chunks rest t = true → globs (concat (chunk_terms <$> rest)) t) by (intros; by eapply IH).
  rewrite fmap_cons. cbn [concat]. unfold chunk_terms at 1. cbn [fst snd].
  destruct (star && bool_decide (chunk = [])) eqn:E.
  - apply andb_true_iff in E as [-> E%bool_decide_eq_true]. subst chunk. destruct (Hlast eq_refl) as [_ ->]. simpl.
    apply negb_true_iff, no_slash_spec in Hm. rewrite <-(app_nil_r s). apply globs_skip; [done|constructor].
  - destruct star; [destruct (chunk_after _ _ _) as [t|] eqn:Ec|destruct (chunk_at _ _ _) as [t|] eqn:Ec]; try done.
    + apply chunk_after_spec in Ec as (u & v & -> & Hu & Hv). apply chunk_at_spec in Hv as [Hv _]. rewrite <-app_assoc. simpl.
      apply globs_skip; [done|]. eapply globs_chunk; [done|auto].
    + apply chunk_at_spec in Ec as [Hv _]. simpl. eapply globs_chunk; [done|auto].
Qed.

(** Patterns with the same meaning. *)
Definition same_globs (ts ts' : list term) : Prop := ∀ s, globs ts s ↔ globs ts' s.
#[local] Infix "≡ᵍ" := same_globs (at level 70).
#[export] Instance same_globs_equiv : Equivalence same_globs.
Proof. split; [by intros ? ?|intros ? ? H s; by rewrite (H s)|intros ? ? ? H1 H2 s; by rewrite (H1 s)]. Qed.
Lemma same_cons t ts ts' : ts ≡ᵍ ts' → t :: ts ≡ᵍ t :: ts'.
Proof.
  assert (∀ us s, globs us s → ∀ ts ts', us = t :: ts → ts ≡ᵍ ts' → globs (t :: ts') s) as Hone.
  { induction 1 as [|t0 us s s' Ht Hg IH|us s Hg IH|us c s Hc Hg IH]; intros ts1 ts2 E He; [done|injection E as E1 E2; subst..].
    - eapply globs_term; [done|]. by apply He.
    - apply globs_star. by apply He.
    - apply globs_more; [done|]. by eapply IH. }
  intros He s. split; intros Hg; (eapply Hone; [exact Hg|done|]); [done|]. intros s'. symmetry. apply He.
Qed.
Lemma same_app us ts ts' : ts ≡ᵍ ts' → us ++ ts ≡ᵍ us ++ ts'.
Proof. intros He. induction us as [|t us IH]; simpl; [done|]. by apply same_cons. Qed.
Lemma same_stars ts : TStar :: TStar :: ts ≡ᵍ TStar :: ts.
Proof.
  intros s. split; [|apply globs_star]. remember (TStar :: TStar :: ts) as us eqn:E. intros Hg. revert E.
  induction Hg as [|t0 us s s' Ht Hg IH|us s Hg IH|us c s Hc Hg IH]; intros E; simplify_eq.
  - by destruct s.
  - apply globs_more; [done|]. by apply IH.
Qed.
Lemma scan_same star chunk ts : concat (chunk_terms <$> scan_chunks star chunk ts) ≡ᵍ (chunk_terms (star, chunk) ++ ts)%list.
Proof.
  revert star chunk. induction ts as [|t ts IH]; intros star chunk.
  - rewrite app_nil_r. destruct star, chunk; simpl; unfold chunk_terms; simpl; rewrite ?app_nil_r; reflexivity.
  - assert (Hnext : concat (chunk_terms <$> scan_chunks star (chunk ++ [t]) ts) ≡ᵍ (chunk_terms (star, chunk) ++ t :: ts)%list).
    { rewrite IH. unfold chunk_terms. simpl. rewrite <-!app_assoc. reflexivity. }
    destruct t; try exact Hnext. destruct chunk as [|t chunk]; cbn [scan_chunks].
    + rewrite IH. unfold chunk_terms. destruct star; simpl; [symmetry; apply same_stars|reflexivity].
    + rewrite fmap_cons. cbn [concat]. apply same_app. rewrite IH. reflexivity.
Qed.

Lemma scan_ok first star chunk ts : first = true ∨ star = true → plain_chunk chunk → chunks_ok first (scan_chunks star chunk ts).
Proof.
  revert first star chunk. induction ts as [|t ts IH]; intros first star chunk Hf Hp.
  - destruct star, chunk; simpl; try done; (split_and!; [auto|done|done|done]).
  - assert (Hnext : t ≠ TStar → chunks_ok first (scan_chunks star (chunk ++ [t]) ts)).
    { intros Ht. apply IH; [done|]. unfold plain_chunk in *. rewrite elem_of_app, list_elem_of_singleton. by intros [?|?]. }
    destruct t; try by apply Hnext. destruct chunk as [|t chunk]; cbn [scan_chunks].
    + apply IH; [by right|done].
    + cbn [chunks_ok]. split_and!; [done|done|done|]. apply IH; [by right|]. apply not_elem_of_nil.
Qed.

(** *** Names of one-byte runes *)

Definition fits (t : term) (c : ascii) : Prop :=
  match t with
  | TByte d => c = d
  | TAny => c ≠ slash
  | TClass neg rs => in_class rs (byte_of c) = negb neg
  | TStar => False
  end.
Lemma take_fits t c s s' : byte_of c < 128 → take_term t (c :: s) = Some s' ↔ fits t c ∧ s' = s.
Proof.
  intros Hc. assert (Hd : decode_rune (c :: s) = (byte_of c, 1%nat)) by (unfold decode_rune; by rewrite (proj2 (Z.ltb_lt _ _) Hc)).
  destruct t as [| |d|neg rs]; cbn [take_term fits]; rewrite ?Hd; simpl; rewrite ?drop_0; [naive_solver|..].
  - case_decide; naive_solver.
  - case_decide; naive_solver.
  - destruct (Bool.eqb _ _) eqn:E; [apply Bool.eqb_prop in E|apply Bool.eqb_false_iff in E]; naive_solver.
Qed.
Lemma chunk_fits chunk s t : ascii_name s → matchChunk chunk s = Some t ↔ ∃ u, s = (u ++ t)%list ∧ Forall2 fits chunk u.
Proof.
  revert s. induction chunk as [|k chunk IH]; intros s Ha; simpl.
  - split; [intros [= ->]; exists []; by split|]. intros (u & -> & Hu). inversion Hu. done.
  - rewrite bind_Some. split.
    + intros (s' & Hk & Hm). destruct s as [|c s]; [by destruct k|]. inversion Ha as [|? ? Hc Ha']; subst. apply take_fits in Hk as [Hf ->]; [|done].
      apply IH in Hm as (u & -> & Hu); [|done]. exists (c :: u). split; [done|]. by constructor.
    + intros (u & -> & Hu). inversion Hu as [|? c ? u' Hf Hu']; subst. simpl in *. inversion Ha as [|? ? Hc Ha']; subst. exists (u' ++ t)%list.
      split; [by apply take_fits|]. apply IH; [done|]. by exists u'.
Qed.
Lemma globs_fits chunk ts s : ascii_name s → plain_chunk chunk → globs (chunk ++ ts) s → ∃ u t, s = (u ++ t)%list ∧ Forall2 fits chunk u ∧ globs ts t.
Proof.
  intros Ha Hp. revert s Ha. induction chunk as [|k chunk IH]; intros s Ha; simpl; [by exists [], s|]. intros Hg.
  assert (Hk : k ≠ TStar) by (intros ->; apply Hp; left). inversion Hg as [|? ? ? s' Ht Hg'| |]; subst; [|done..].
  destruct s as [|c s]; [by destruct k|]. inversion Ha as [|? ? Hc Ha']; subst. apply take_fits in Ht as [Hf ->]; [|done].
  destruct (IH ltac:(intros Hin; apply Hp; by right) s Ha' Hg') as (u & t & -> & Hu & Ht). exists (c :: u), t. split_and!; [done|by constructor|done].
Qed.
Lemma globs_star_split ts s : globs (TStar :: ts) s → ∃ a b, s = (a ++ b)%list ∧ Forall (λ c, c ≠ slash) a ∧ globs ts b.
Proof.
  remember (TStar :: ts) as us eqn:E. intros Hg. revert E. induction Hg as [|t0 us s s' Ht Hg IH|us s Hg IH|us c s Hc Hg IH]; intros E; simplify_eq.
  - exists [], s. split_and!; [done|constructor|exact Hg].
  - destruct IH as (a & b & -> & Ha & Hb); [done|]. exists (c :: a), b. split_and!; [done|by constructor|done].
Qed.

(** Where a chunk that no slash matches has two places after one star, it has no slash. *)
Lemma two_places chunk a u u' w : forallb no_slash chunk = true → Forall2 fits chunk u → Forall2 fits chunk u' → a ≠ [] → Forall (λ c, c ≠ slash) a →
  (a ++ u)%list = (u' ++ w)%list → Forall (λ c, c ≠ slash) w.
Proof.
  intros Hns Hu Hu' Ha Hs E. rewrite Forall_forall in Hs. assert (Hlen : (0 < length a)%nat) by (destruct a; [done|simpl; lia]).
  assert (Hno : ∀ o, u !! o ≠ Some slash).
  { intros o. induction (lt_wf o) as [o _ IH]. intros Ho. destruct (Forall2_lookup_r _ _ _ _ _ Hu Ho) as (k & Hk & Hf).
    assert (k = TByte slash) as ->.
    { apply (list_elem_of_lookup_2 chunk o) in Hk. rewrite forallb_elem in Hns. specialize (Hns k Hk).
      destruct k as [| |d|neg rs]; simpl in Hf; try done; [by rewrite Hf|]. simpl in Hns. change (byte_of slash) with 47 in Hf. rewrite Hf in Hns. by destruct neg. }
    destruct (Forall2_lookup_l _ _ _ _ _ Hu' Hk) as (c & Hc & Hcf). simpl in Hcf. subst c.
    assert ((a ++ u)%list !! o = Some slash) as Hau by (rewrite E; apply lookup_app_l_Some, Hc).
    apply lookup_app_Some in Hau as [Hin|[Hge Hin]].
    - apply (Hs slash); [by eapply list_elem_of_lookup_2|done].
    - apply (IH (o - length a)%nat); [lia|done]. }
  apply Forall_forall. intros c Hc ->. assert (slash ∈ (a ++ u)%list) as Hin by (rewrite E; apply elem_of_app; by right).
  apply elem_of_app in Hin as [Hin|Hin]; [by apply (Hs slash)|]. apply list_elem_of_lookup in Hin as [o Ho]. by apply (Hno o).
Qed.
Lemma first_place chunk rest a u t : ascii_name (a ++ u ++ t)%list → forallb no_slash chunk = true → Forall2 fits chunk u →
  Forall (λ c, c ≠ slash) a → chunks_ok false rest → globs (concat (chunk_terms <$> rest)) t →
  ∃ t', chunk_after chunk (bool_decide (rest = [])) (a ++ u ++ t)%list = Some t' ∧ globs (concat (chunk_terms <$> rest)) t' ∧ ascii_name t'.
Proof.
  intros Hn Hc Hu Ha Hrest Hg. set (last_ := bool_decide (rest = [])).
  assert (Hend : last_ = true → t = []).
  { intros Hl%bool_decide_eq_true. rewrite Hl in Hg. by inversion Hg. }
  assert (Hhere : ∀ v, ascii_name (v ++ t)%list → Forall2 fits chunk v → chunk_at chunk last_ (v ++ t)%list = Some t).
  { intros v Hv Hf. apply chunk_at_spec. split; [|done]. apply chunk_fits; [done|]. by exists v. }
  induction a as [|c a IH].
  - exists t. simpl in *. assert (chunk_at chunk last_ (u ++ t)%list = Some t) as E by by apply Hhere.
    split_and!; [|done|by apply Forall_app in Hn as [_ ?]]. destruct (u ++ t)%list; simpl; by rewrite E.
  - inversion Ha as [|? ? Hca Ha']; subst. cbn [app chunk_after].
    destruct (chunk_at chunk last_ (c :: a ++ u ++ t)%list) as [t'|] eqn:E.
    2: { rewrite decide_False by done. inversion Hn; subst. by apply IH. }
    exists t'. apply chunk_at_spec in E as [Hm Hl]. apply chunk_fits in Hm as (u' & E & Hu'); [|done].
    assert (Hw : ∃ w, t' = (w ++ t)%list ∧ (c :: a ++ u)%list = (u' ++ w)%list ∧ w ≠ []).
    { pose proof (Forall2_length _ _ _ Hu) as L1. pose proof (Forall2_length _ _ _ Hu') as L2.
      assert (((c :: a) ++ u) ++ t = u' ++ t')%list as E' by (rewrite <-E; simpl; by rewrite <-app_assoc).
      exists (drop (length u') ((c :: a) ++ u))%list.
      assert (Hlen : (length u' ≤ length ((c :: a) ++ u)%list)%nat) by (rewrite length_app; simpl; lia).
      split_and!.
      - apply (f_equal (drop (length u'))) in E'. rewrite drop_app_length in E'. rewrite <-E'. by rewrite drop_app_le.
      - apply (f_equal (take (length u'))) in E'. rewrite take_app_length in E'. rewrite take_app_le in E' by done.
        rewrite <-E' at 1. by rewrite take_drop.
      - intros Hnil. apply (f_equal length) in Hnil. rewrite length_drop, length_app in Hnil. simpl in Hnil. lia. }
    destruct Hw as (w & -> & Ew & Hwn). assert (Hlast : last_ = false).
    { destruct last_; [|done]. specialize (Hl eq_refl). by apply app_nil in Hl as [-> _]. }
    split_and!; [done| |assert (ascii_name (u' ++ w ++ t)%list) as Hn2 by (by rewrite <-E); by apply Forall_app in Hn2 as [_ ?]].
    assert (Forall (λ c, c ≠ slash) w) as Hws by (eapply (two_places chunk (c :: a)); [done|exact Hu|exact Hu'|done|done|exact Ew]).
    destruct rest as [|[star chunk'] rest]; [done|]. destruct Hrest as ([?|Hstar] & _); [done|]. simpl in Hstar. subst star.
    rewrite fmap_cons in *. cbn [concat] in *. unfold chunk_terms at 1 in Hg. unfold chunk_terms at 1. cbn [fst snd app] in *.
    clear -Hws Hg. induction Hws as [|d w Hd Hw IH]; [done|]. by apply globs_more.
Qed.

Lemma match_chunks_complete first chunks s : chunks_ok first chunks → Forall (λ x, forallb no_slash x.2 = true) chunks → ascii_name s →
  globs (concat (chunk_terms <$> chunks)) s → match_chunks chunks s = true.
Proof.
  revert first s. induction chunks as [|[star chunk] rest IH]; intros first s Hok Hns Hs.
  { intros Hg. inversion Hg. done. }
  inversion Hns as [|? ? Hc Hns']; subst. destruct Hok as (_ & Hp & Hempty & Hrest). rewrite fmap_cons. cbn [concat match_chunks].
  unfold chunk_terms at 1. cbn [fst snd]. intros Hg. case_bool_decide as He.
  - destruct (Hempty He) as [-> ->]. subst chunk. simpl in *. apply negb_true_iff, no_slash_spec.
    apply globs_star_split in Hg as (a & b & -> & Ha & Hb). inversion Hb. by rewrite app_nil_r.
  - rewrite andb_false_r. destruct star; simpl in Hg.
    + apply globs_star_split in Hg as (a & b & -> & Ha & Hb). apply Forall_app in Hs as [Hsa Hsb].
      apply globs_fits in Hb as (u & t & -> & Hu & Ht); [|done..].
      destruct (first_place chunk rest a u t) as (t' & -> & Ht' & Hn); [apply Forall_app; by split|done..|]. by eapply IH.
    + apply globs_fits in Hg as (u & t & -> & Hu & Ht); [|done..].
      assert (chunk_at chunk (bool_decide (rest = [])) (u ++ t)%list = Some t) as ->.
      { apply chunk_at_spec. split; [apply chunk_fits; [done|by exists u]|]. intros Hl%bool_decide_eq_true. subst rest. by inversion Ht. }
      apply Forall_app in Hs as [_ Hst]. by eapply IH.
Qed.
Lemma scan_terms p star chunk ts : forallb p chunk = true → forallb p ts = true → Forall (λ x, forallb p x.2 = true) (scan_chunks star chunk ts).
Proof.
  revert star chunk. induction ts as [|t ts IH]; intros star chunk Hc Ht.
  - destruct star, chunk; simpl; repeat constructor; done.
  - simpl in Ht. apply andb_true_iff in Ht as [Ht Hts].
    assert (Hnext : Forall (λ x, forallb p x.2 = true) (scan_chunks star (chunk ++ [t]) ts)).
    { apply IH; [|done]. rewrite forallb_app. simpl. by rewrite Hc, Ht. }
    destruct t; try exact Hnext. destruct chunk as [|t chunk]; cbn [scan_chunks]; [by apply IH|]. constructor; [done|by apply IH].
Qed.

(** [path.Match] searches without ever going back behind a chunk it has placed. What it
    accepts is what the pattern means (a star is any run of bytes but slashes, ...), and for
    names of one-byte runes it misses nothing, unless a class of the pattern can match a
    slash. *)
Lemma match_means pat ts name : parse_glob pat = Some ts →
  (Match pat name = Some true → globs ts (bytes name)) ∧
  (forallb no_slash ts = true → ascii_name (bytes name) → globs ts (bytes name) → Match pat name = Some true).
Proof.
  intros Hp. unfold Match. rewrite Hp. simpl. pose proof (scan_same false [] ts (bytes name)) as Hsame. simpl in Hsame.
  assert (Hok : chunks_ok true (scan_chunks false [] ts)) by (apply scan_ok; [by left|apply not_elem_of_nil]). split.
  - intros [= Hm]. apply Hsame. by eapply match_chunks_sound.
  - intros Hns Ha Hg. f_equal. eapply match_chunks_complete; [exact Hok|by apply scan_terms|done|]. by apply Hsame.
Qed.

(** A class that matches a slash: the leftmost place of the first chunk is the wrong one. *)
Example greedy_misses : Match "*[/x]*b" "ax/b" = Some false ∧ ∃ ts, parse_glob "*[/x]*b" = Some ts ∧ globs ts (bytes "ax/b").
Proof.
  split; [vm_compute; reflexivity|]. eexists. split; [vm_compute; reflexivity|].
  apply globs_more; [done|]. apply globs_more; [done|]. apply globs_star. eapply globs_term; [vm_compute; reflexivity|].
  apply globs_star. eapply globs_term; [vm_compute; reflexivity|]. constructor.
Qed.

Lemma match_means_witness : Match "Show/S01/*.srt" "Show/S01/e1.srt" = Some true.
Proof.
  refine (proj2 (match_means "Show/S01/*.srt" _ "Show/S01/e1.srt" eq_refl) eq_refl _ _).
  - repeat constructor.
  - do 9 (eapply globs_term; [vm_compute; reflexivity|]). do 2 (apply globs_more; [done|]). apply globs_star.
    do 4 (eapply globs_term; [vm_compute; reflexivity|]). constructor.
Defined.

(** What a pattern says of an entry: it is for this kind of entry, and its glob covers the path,
    or the name when it is not anchored. *)
Section meaning.
Context (to_lower : string → string).
Definition folded (p : pattern) (name : string) : string := if p_fold p then to_lower name else name.
Definition covers (p : pattern) (name : string) : Prop := ∃ ts, parse_glob (p_glob p) = Some ts ∧ globs ts (bytes (folded p name)).
Definition says_excluded (rel base : string) (isDir : bool) (p : pattern) : Prop :=
  (p_dirOnly p = true → isDir = true) ∧ (p_anchored p = false ∧ covers p base ∨ covers p rel).
(** Where [path.Match] is exact: no class matches a slash, and the name has one-byte runes. *)
Definition exact_for (p : pattern) (name : string) : Prop :=
  (∀ ts, parse_glob (p_glob p) = Some ts → forallb no_slash ts = true) ∧ ascii_name (bytes (folded p name)).
Lemma matches_covers p name : matches (p_glob p) (folded p name) = true → covers p name.
Proof.
  unfold matches, Match. destruct (parse_glob (p_glob p)) as [ts|] eqn:E; [|done]. simpl. intros Hm. exists ts. split; [done|].
  apply (match_means _ _ (folded p name) E). unfold Match. rewrite E. simpl. by rewrite Hm.
Qed.
Lemma covers_matches p name : exact_for p name → covers p name → matches (p_glob p) (folded p name) = true.
Proof. intros [Hns Ha] (ts & E & Hg). unfold matches. by rewrite (proj2 (match_means _ _ (folded p name) E) (Hns ts E) Ha Hg). Qed.
Lemma excluded_by_spec rel base isDir p : excluded_by to_lower rel base isDir p = true ↔
  (p_dirOnly p = true → isDir = true) ∧ (p_anchored p = false ∧ matches (p_glob p) (folded p base) = true ∨ matches (p_glob p) (folded p rel) = true).
Proof.
  unfold excluded_by, folded. destruct (p_dirOnly p), isDir; simpl; try (split; [done|naive_solver]);
    (destruct (negb (p_anchored p) && matches _ _) eqn:E; [apply andb_true_iff in E as [?%negb_true_iff ?]; split; [auto|done]|]);
    apply andb_false_iff in E; rewrite negb_false_iff in E; split; try (by intros H; split; [|right]); intros [_ [[Ha Hm]|Hm]]; [destruct E; congruence|done|destruct E; congruence|done|destruct E; congruence|done].
Qed.
End meaning.

Lemma excluded_compiled (to_lower : string → string) (m : list pattern) (rel base : string) (isDir : bool) :
  (excluded to_lower m rel base isDir = true → ∃ p, p ∈ m ∧ says_excluded to_lower rel base isDir p) ∧
  ((∀ p, p ∈ m → exact_for to_lower p rel ∧ exact_for to_lower p base) →
     (∃ p, p ∈ m ∧ says_excluded to_lower rel base isDir p) → excluded to_lower m rel base isDir = true).
Proof.
  unfold excluded. rewrite existsb_elem. setoid_rewrite excluded_by_spec. split.
  - intros (p & Hp & Hd & Hm). exists p. split; [done|]. split; [done|]. destruct Hm as [[Ha Hm]|Hm]; [left; split; [done|]|right]; by apply matches_covers.
  - intros He (p & Hp & Hd & Hm). destruct (He p Hp) as [He1 He2]. exists p. split; [done|]. split; [done|].
    destruct Hm as [[Ha Hm]|Hm]; [left; split; [done|]|right]; by apply covers_matches.
Qed.

(** ** What a written pattern means *)

(** The glob of a pattern between its slashes. *)
Record written (raw : string) (lead : nat) (glob : string) (trail : nat) : Prop := mkWritten {
  wr_bytes : bytes raw = (replicate lead slash ++ bytes glob ++ replicate trail slash)%list;
  wr_some : glob ≠ "";
  wr_head : head (bytes glob) ≠ Some slash;
  wr_last : last (bytes glob) ≠ Some slash;
}.

Lemma drop_slashes_split l : ∃ n, l = (replicate n slash ++ drop_slashes l)%list ∧ head (drop_slashes l) ≠ Some slash.
Proof.
  induction l as [|c l (n & E & Hh)]; simpl; [by exists 0%nat|]. case_decide as Hc; [|exists 0%nat; split; [done|simpl; congruence]].
  exists (S n). simpl. subst c. by rewrite <-E.
Qed.
Lemma drop_slashes_lead n l : head l ≠ Some slash → drop_slashes (replicate n slash ++ l) = l.
Proof.
  intros Hl. induction n as [|n IH]; simpl; [|done]. destruct l as [|c l]; [done|]. simpl in *. by rewrite decide_False by congruence.
Qed.
Lemma has_prefix_slash s : has_prefix s "/" = bool_decide (head (bytes s) = Some slash).
Proof.
  apply eq_true_iff_eq. rewrite has_prefix_spec, bool_decide_eq_true. split; [by intros [r ->]|].
  destruct s as [|c s]; [done|]. simpl. intros [= ->]. by exists s.
Qed.
Lemma head_reverse {A} (l : list A) : head (reverse l) = last l.
Proof. rewrite <-(reverse_involutive l) at 2. by rewrite last_reverse. Qed.
Lemma has_suffix_slash s : has_suffix s "/" = bool_decide (last (bytes s) = Some slash).
Proof.
  rewrite <-head_reverse. apply eq_true_iff_eq. unfold has_suffix. rewrite !bool_decide_eq_true. change (reverse (bytes "/")) with [slash].
  split; [by intros [r ->%bprefix_spec]|]. destruct (reverse (bytes s)) as [|c l]; [done|]. simpl head. intros [= ->]. exists l. by apply (bprefix_spec [slash]).
Qed.

(** The compiled pattern of a written one. *)
Lemma parse_written to_lower raw lead glob trail fold : written raw lead glob trail →
  parsePattern to_lower raw fold = mkPattern (if fold then to_lower glob else glob) (0 <? trail)%nat (0 <? lead)%nat fold.
Proof.
  intros [E Hg Hh Hl]. unfold parsePattern. rewrite has_suffix_slash.
  assert (Hne : bytes glob ≠ []) by (intros Hn; apply Hg; by apply bytes_inj).
  assert (Ht : bool_decide (last (bytes raw) = Some slash) = (0 <? trail)%nat).
  { rewrite E. destruct trail as [|n].
    - rewrite app_nil_r, last_app. destruct (last (bytes glob)) eqn:El; [by rewrite bool_decide_eq_false_2|by apply last_None in El].
    - rewrite replicate_S_end, !app_assoc, last_snoc. by rewrite bool_decide_eq_true_2. }
  rewrite Ht. set (g1 := if (0 <? trail)%nat then trim_right_slash raw else raw).
  assert (E1 : bytes g1 = (replicate lead slash ++ bytes glob)%list).
  { unfold g1. destruct (Nat.ltb_spec 0 trail) as [Hlt|Hge]; [|rewrite E; replace trail with 0%nat by lia; by rewrite app_nil_r].
    unfold trim_right_slash. rewrite bytes_of_bytes, E, !reverse_app, <-app_assoc, reverse_replicate, drop_slashes_lead.
    - by rewrite reverse_app, !reverse_involutive.
    - rewrite head_app. destruct (reverse (bytes glob)) as [|c l] eqn:Er; [by apply (f_equal reverse) in Er; rewrite reverse_involutive in Er|].
      simpl. rewrite <-head_reverse, Er in Hl. done. }
  rewrite has_prefix_slash, E1. assert (Ha : bool_decide (head (replicate lead slash ++ bytes glob) = Some slash) = (0 <? lead)%nat).
  { destruct lead as [|n]; [by rewrite bool_decide_eq_false_2|by rewrite bool_decide_eq_true_2]. }
  rewrite Ha. assert (E2 : (if (0 <? lead)%nat then trim_left_slash g1 else g1) = glob); [|by rewrite E2].
  apply bytes_inj. destruct (Nat.ltb_spec 0 lead) as [Hlt|Hge]; [|rewrite E1; by replace lead with 0%nat by lia].
  unfold trim_left_slash. by rewrite bytes_of_bytes, E1, drop_slashes_lead.
Qed.

Lemma written_exists to_lower raw : p_glob (parsePattern to_lower raw false) ≠ "" → ∃ lead glob trail, written raw lead glob trail.
Proof.
  intros Hne. destruct (drop_slashes_split (reverse (bytes raw))) as (n & Er & Hr). set (r := drop_slashes (reverse (bytes raw))) in *.
  apply (f_equal reverse) in Er. rewrite reverse_involutive, reverse_app, reverse_replicate in Er.
  destruct (drop_slashes_split (reverse r)) as (m & Eg & Hg). set (g := drop_slashes (reverse r)) in *.
  destruct (decide (g = [])) as [Hnil|Hnil].
  - exfalso. apply Hne. rewrite Hnil, app_nil_r in Eg. assert (r = []) as Hr0.
    { apply (f_equal reverse) in Eg. rewrite reverse_involutive, reverse_replicate in Eg. destruct m; [done|]. by rewrite Eg in Hr. }
    rewrite Hr0 in Er. simpl in Er. unfold parsePattern. cbv zeta. cbn [p_glob]. rewrite has_suffix_slash, Er.
    destruct n as [|n].
    + assert (raw = "") as -> by (by apply bytes_inj). done.
    + rewrite replicate_S_end, last_snoc, bool_decide_eq_true_2 by done.
      assert (trim_right_slash raw = "") as ->; [|done]. apply bytes_inj. unfold trim_right_slash. rewrite bytes_of_bytes, Er, reverse_replicate.
      rewrite <-(app_nil_r (replicate _ _)), drop_slashes_lead by done. done.
  - exists m, (of_bytes g), n. split; rewrite ?bytes_of_bytes.
    + by rewrite Er, Eg, <-app_assoc.
    + intros E. apply Hnil. by rewrite <-(bytes_of_bytes g), E.
    + done.
    + intros El. apply Hr. rewrite <-(reverse_involutive r), head_reverse, Eg, last_app, El. done.
Qed.

Section source.
Context (to_lower : string → string).

(** The patterns of a source: the built-in ones and its own. *)
Definition in_lists (user : list string) (builtin : bool) (raw : string) : Prop := if builtin then raw ∈ defaultExcludes else raw ∈ user.
Definition in_case (builtin : bool) (name : string) : string := if builtin then to_lower name else name.
(** A written pattern says that an entry is excluded. *)
Definition pattern_says (builtin : bool) (raw rel base : string) (isDir : bool) : Prop :=
  ∃ lead glob trail ts, written raw lead glob trail ∧ ((0 < trail)%nat → isDir = true) ∧ parse_glob (in_case builtin glob) = Some ts ∧
    ((lead = 0%nat ∧ globs ts (bytes (in_case builtin base))) ∨ globs ts (bytes (in_case builtin rel))).
(** No class of it can match a slash, and the names have one-byte runes. *)
Definition pattern_exact (builtin : bool) (raw rel base : string) : Prop :=
  (∀ lead glob trail ts, written raw lead glob trail → parse_glob (in_case builtin glob) = Some ts → forallb no_slash ts = true) ∧
  ascii_name (bytes (in_case builtin rel)) ∧ ascii_name (bytes (in_case builtin base)).

Lemma newMatcher_elem user p : p ∈ newMatcher to_lower user ↔ ∃ builtin raw, in_lists user builtin raw ∧ p = parsePattern to_lower raw builtin.
Proof.
  unfold newMatcher. rewrite elem_of_app, !list_elem_of_fmap. split.
  - intros [(d & -> & Hd)|(u & -> & Hu)]; [by exists true, d|by exists false, u].
  - intros ([] & raw & Hl & ->); [left|right]; eauto.
Qed.
Lemma says_written builtin raw lead glob trail rel base isDir : written raw lead glob trail →
  says_excluded to_lower rel base isDir (parsePattern to_lower raw builtin) → pattern_says builtin raw rel base isDir.
Proof.
  intros Hw. rewrite (parse_written to_lower raw lead glob trail builtin Hw). intros [Hd Hm]. unfold covers, folded in Hm. simpl in *.
  rewrite Nat.ltb_lt in Hd. destruct Hm as [[Ha (ts & Hp & Hg)]|(ts & Hp & Hg)]; exists lead, glob, trail, ts; (split_and!; [done|done|done|]); [left|by right].
  apply Nat.ltb_ge in Ha. split; [lia|done].
Qed.
Lemma written_says builtin raw rel base isDir :
  pattern_says builtin raw rel base isDir → says_excluded to_lower rel base isDir (parsePattern to_lower raw builtin).
Proof.
  intros (lead & glob & trail & ts & Hw & Hd & Hp & Hm). rewrite (parse_written to_lower raw lead glob trail builtin Hw).
  split; simpl; [by rewrite Nat.ltb_lt|]. unfold covers, folded. simpl. destruct Hm as [[-> Hg]|Hg]; [left; split; [done|]|right]; by exists ts.
Qed.
Lemma written_exact builtin raw lead glob trail rel base : written raw lead glob trail → pattern_exact builtin raw rel base →
  exact_for to_lower (parsePattern to_lower raw builtin) rel ∧ exact_for to_lower (parsePattern to_lower raw builtin) base.
Proof.
  intros Hw (Hc & Hr & Hb). rewrite (parse_written to_lower raw lead glob trail builtin Hw). unfold exact_for, folded. simpl.
  split; (split; [intros ts Hts; by eapply Hc|done]).
Qed.
Lemma validated_written raws user builtin raw : validateExcludes to_lower raws = Ok user → in_lists user builtin raw →
  ∃ lead glob trail, written raw lead glob trail.
Proof.
  intros Hv Hl. apply (written_exists to_lower). destruct builtin; simpl in Hl.
  - revert raw Hl. apply Forall_forall. unfold defaultExcludes. repeat (constructor; [by vm_compute|]). constructor.
  - unfold validateExcludes in Hv. destruct (_ <? _)%nat; [done|]. apply mapM_r_ok in Hv. apply list_elem_of_lookup in Hl as [i Hi].
    destruct (Forall2_lookup_r _ _ _ _ _ Hv Hi) as (x & _ & Hx). unfold validate_one in Hx.
    repeat (case_match; try done). injection Hx as <-. by eapply bool_decide_eq_false_1.
Qed.

(** C26: What a source's patterns exclude, once its list is accepted. A pattern is some slashes,
    a glob and some slashes again. An entry is excluded only when one of the patterns, the
    built-in ones and the source's own, says so: one that ends with a slash excludes only
    folders, one that begins with a slash looks only at the path, the built-in ones fold the
    case of the glob and of the names, and a glob means what its terms mean (a star is any
    run of bytes but slashes). And it is excluded whenever one does, where [path.Match] is
    exact: no class of a pattern can match a slash and the names have one-byte runes. *)
Theorem excluded_exact (raws user : list string) (rel base : string) (isDir : bool) : validateExcludes to_lower raws = Ok user →
  (excluded to_lower (newMatcher to_lower user) rel base isDir = true →
     ∃ builtin raw, in_lists user builtin raw ∧ pattern_says builtin raw rel base isDir) ∧
  ((∀ builtin raw, in_lists user builtin raw → pattern_exact builtin raw rel base) →
     (∃ builtin raw, in_lists user builtin raw ∧ pattern_says builtin raw rel base isDir) →
     excluded to_lower (newMatcher to_lower user) rel base isDir = true).
Proof.
  intros Hv. destruct (excluded_compiled to_lower (newMatcher to_lower user) rel base isDir) as [H1 H2]. split.
  - intros (p & (builtin & raw & Hl & ->)%newMatcher_elem & Hs)%H1. exists builtin, raw. split; [done|].
    destruct (validated_written raws user builtin raw Hv Hl) as (? & ? & ? & Hw). by eapply says_written.
  - intros He (builtin & raw & Hl & Hs). apply H2; [|exists (parsePattern to_lower raw builtin); split; [apply newMatcher_elem; eauto|by apply written_says]].
    intros p (b & x & Hx & ->)%newMatcher_elem. destruct (validated_written raws user b x Hv Hx) as (? & ? & ? & Hw). by eapply written_exact, He.
Qed.
End source.
(** The cases of the test suite. *)
Definition ascii_lower (s : string) : string := of_bytes (lower <$> bytes s).
Definition sample_matcher : list pattern := newMatcher ascii_lower ["*.nfo"; "/Extras/"; "Samples/"; "Show/S01/*.srt"; "/top.mkv"].
Definition sample_excluded (rel : string) (isDir : bool) : bool := excluded ascii_lower sample_matcher rel (List.last (split_slash rel) "") isDir.
Example sample_excludes :
  (λ p, sample_excluded p.1 p.2) <$>
    [(".DS_Store", false); ("a/b/.ds_store", false); ("a/Thumbs.db", false); ("x/._movie.mkv", false); ("@eaDir", true); ("a/@eaDir", true); ("@eaDir", false);
     ("a/.Trash-1000", true); ("lost+found", true); ("dl/m.mkv.part", false); ("dl/m.mkv.PARTIAL", false); (".grab", true); ("x/.bunkarr-tmp-a.mkv-123", false);
     ("movie.mkv", false); ("a/movie.nfo", false); ("a/movie.NFO", false); ("Extras", true); ("Show/Extras", true); ("Movie/Samples", true); ("Movie/Samples", false);
     ("Show/S01/e1.srt", false); ("Show/S02/e1.srt", false); ("top.mkv", false); ("sub/top.mkv", false)] =
  [true; true; true; true; true; true; false; true; true; true; true; true; true; false; true; false; true; false; true; false; true; false; true; false].
Proof. vm_compute. reflexivity. Qed.

(** One pattern of each form. *)
Definition sample_list : list string := [" *.nfo"; "/Extras/"; "Samples/"; "Show/S01/*.srt"].
Lemma excluded_exact_witness :
  validateExcludes ascii_lower sample_list = Ok ["*.nfo"; "/Extras/"; "Samples/"; "Show/S01/*.srt"] ∧
  (∃ builtin raw, in_lists ["*.nfo"; "/Extras/"; "Samples/"; "Show/S01/*.srt"] builtin raw ∧ pattern_says ascii_lower builtin raw "Extras" "Extras" true) ∧
  ¬ (∃ builtin raw, in_lists ["*.nfo"; "/Extras/"; "Samples/"; "Show/S01/*.srt"] builtin raw ∧ pattern_says ascii_lower builtin raw "Show/Extras" "Extras" true).
Proof.
  assert (Hv : validateExcludes ascii_lower sample_list = Ok ["*.nfo"; "/Extras/"; "Samples/"; "Show/S01/*.srt"]) by (vm_compute; reflexivity).
  split; [exact Hv|]. split.
  - exact (proj1 (excluded_exact ascii_lower sample_list _ "Extras" "Extras" true Hv) eq_refl).
  - intros Hs. assert (Hno : excluded ascii_lower (newMatcher ascii_lower ["*.nfo"; "/Extras/"; "Samples/"; "Show/S01/*.srt"]) "Show/Extras" "Extras" true = false)
      by (vm_compute; reflexivity).
    rewrite (proj2 (excluded_exact ascii_lower sample_list _ "Show/Extras" "Extras" true Hv)) in Hno; [discriminate Hno| |exact Hs].
    assert (Hall : forallb (λ p, match parse_glob (p_glob p) with Some ts => forallb no_slash ts | None => true end)
      (newMatcher ascii_lower ["*.nfo"; "/Extras/"; "Samples/"; "Show/S01/*.srt"]) = true) by (vm_compute; reflexivity).
    rewrite forallb_elem in Hall. intros builtin raw Hl. split.
    + intros lead glob trail ts Hw Hp. specialize (Hall (parsePattern ascii_lower raw builtin) (proj2 (newMatcher_elem _ _ _) (ex_intro _ builtin (ex_intro _ raw (conj Hl eq_refl))))).
      rewrite (parse_written ascii_lower raw lead glob trail builtin Hw) in Hall. cbn [p_glob] in Hall. change (if builtin then ascii_lower glob else glob) with (in_case ascii_lower builtin glob) in Hall.
      by rewrite Hp in Hall.
    + by destruct builtin; split; repeat constructor.
Defined.
