(* ===== verification/CatalogScan.v ===== *)
(** * CatalogScan: scanning a source into the catalog ([internal/catalog/scan.go], [group.go])

    A full scan: the checks of the root, the walk, the comparison with the catalog, the
    hardlink groups, and the transactions that record what it saw. The source is what the
    scan is shown of it: every folder, entry and file is looked at once, so a tree of answers
    ([dir_view]) stands for whatever the file system does meanwhile. Cancellation and the
    database answer from an environment; every change of the tables is noted. The source's
    lock keeps other scans out. Messages, logs, progress, fault points and the durations and
    counts of the result are left out, but for those the scan uses. *)
From stdpp Require Import base gmap list strings.
From S2P Require Import Prelude GoStrings DestFS CatalogExclude.
Open Scope string_scope.
Open Scope Z_scope.

(** ** Data *)

(** Errors of the file system, as far as the scan tells them apart. *)
Inductive fs_error := EIO | ENOTCONN | ESTALE | ETIMEDOUT | EHOSTDOWN | ENOENT | ENOTDIR | EOther.
#[export] Instance fs_error_eq_dec : EqDecision fs_error.
Proof. solve_decision. Defined.
Definition isFatalIO (e : fs_error) : bool := mem e [EIO; ENOTCONN; ESTALE; ETIMEDOUT; EHOSTDOWN].
Definition isNotExist (e : fs_error) : bool := mem e [ENOENT; ENOTDIR].

Record Meta := mkMeta { m_Size : Z; m_MtimeNs : Z; m_CtimeNs : Z; m_Dev : Z; m_Inode : Z; m_Nlink : Z }.
#[export] Instance Meta_eq_dec : EqDecision Meta.
Proof. solve_decision. Defined.
Definition devIno : Type := Z * Z.
Definition dev_ino (m : Meta) : devIno := (m_Dev m, m_Inode m).

Inductive kind := KSymlink | KDevice | KSocket | KFIFO | KOther.
Inductive skip_reason := SkipSymlink | SkipDevice | SkipSocket | SkipFIFO | SkipOther | SkipOverlap.
#[export] Instance skip_reason_eq_dec : EqDecision skip_reason.
Proof. solve_decision. Defined.
Definition skipReason (k : kind) : skip_reason :=
  match k with KSymlink => SkipSymlink | KDevice => SkipDevice | KSocket => SkipSocket | KFIFO => SkipFIFO | KOther => SkipOther end.

(** What reading a file gives that is named like the master key: nothing, when what was opened
    is not a regular file. *)
Inductive key_read := KeyFails (e : fs_error) | KeyNothing | KeyData (data : string).

(** What the scan is shown. A folder cannot be listed, or lists its entries; an entry's lstat
    fails, or it is a folder that opens or not and then has numbers of its own, a regular
    file (its size and, but for a file system without them, its numbers), or something else. *)
Inductive dir_view :=
| DirFails (e : fs_error)
| DirLists (l : listing)
with listing :=
| LNil
| LCons (name : string) (e : entry_view) (l : listing)
with entry_view :=
| EntryFails (e : fs_error)
| EntryDir (m : option Meta) (o : opened)
| EntryFile (size : Z) (m : option Meta) (key : key_read)
| EntryOther (k : kind)
with opened :=
| OpenFails (e : fs_error)
| Opens (m : option Meta) (d : dir_view).
Fixpoint entries (l : listing) : list (string * entry_view) :=
  match l with LNil => [] | LCons name e l => (name, e) :: entries l end.

(** [rootIdentity] *)
Record rootIdentity := mkRootIdentity { ri_fsType : string; ri_fuse : bool; ri_anonDev : bool; ri_stableIno : bool; ri_dev : Z; ri_ino : Z }.

(** A row of [catalog_files]. *)
Record File := mkFile {
  f_ID : Z;
  f_SourceID : Z;
  f_RelPath : string;
  f_Meta : Meta;
  f_HardlinkGroup : option (Z * Z * nat);
  f_FirstSeenAt : time;
  f_LastSeenAt : time;
  f_DeletedAt : option time;
}.
Definition table : Type := list File.
Definition f_live (f : File) : bool := bool_decide (f_DeletedAt f = None).

Inductive ScanStatus := ScanStatusOK | ScanStatusWarnings | ScanStatusFailed.
Record Stats := mkStats { st_Files : Z; st_Bytes : Z; st_HardlinkedFiles : Z; st_HardlinkGroups : Z; st_UniqueBytes : Z; st_Skipped : Z }.
(** The columns of the source's row that a scan reads or writes. *)
Record source_row := mkSourceRow {
  sr_fsType : option string;
  sr_rootDev : option Z;
  sr_rootIno : option Z;
  sr_scanSeq : Z;
  sr_stats : Stats;
  sr_status : option ScanStatus;
  sr_lastScanAt : option time;
}.
Record catalog := mkCatalog { w_files : table; w_source : option source_row }.

Inductive refused :=
| RootIO | RootMissing | RootUnreadable | RootIsSymlink | RootNotDir | OtherFSType | OtherDevice | OtherInode | RootForbidden | RootHoldsKey
| ReadIO | EmptyRoot.
Inductive scan_error := Refused (r : refused) | ScanCancelled | DBFailed | SourceNotFound | RootsUnknown | KeyUnreadable.

(** ** The file systems ([fsinfo_linux.go]) *)

Definition anonDevFS : list string := ["fuse"; "nfs"; "cifs"; "smb2"; "smb"; "btrfs"; "zfs"; "overlay"].
Definition runTimeInoFS : list string := ["fuse"; "cifs"; "smb2"; "smb"].
(** [unix.Major] *)
Definition Major (dev : Z) : Z := Z.lor (Z.land (Z.shiftr dev 8) 4095) (Z.land (Z.shiftr dev 32) 4294963200).
Definition anonymousDev (fsType : string) (dev : Z) : bool := (Major dev =? 0) || mem fsType anonDevFS.
Definition stableRootIno (fsType : string) : bool := negb (mem fsType runTimeInoFS).
Definition newRootIdentity (fsType : string) (fuse : bool) (m : Meta) : rootIdentity :=
  mkRootIdentity fsType fuse (anonymousDev fsType (m_Dev m)) (stableRootIno fsType) (m_Dev m) (m_Inode m).

(** ** The state of a scan *)

Record walked := mkWalked { wk_rel : string; wk_m : Meta }.
#[export] Instance walked_eq_dec : EqDecision walked.
Proof. solve_decision. Defined.

Record scan_state := mkScan {
  s_Files : Z;
  s_WarningCount : Z;
  s_Skipped : list skip_reason;
  s_lookup : list walked;
  s_pending : list walked;
  s_seen : list Z;
  s_links : gmap devIno (list walked);
  s_groups : list (list walked);
  s_unreadable : list string;
}.
Definition no_scan : scan_state := mkScan 0 0 [] [] [] [] ∅ [] [].

Definition sc_warn (s : scan_state) : scan_state :=
  mkScan (s_Files s) (s_WarningCount s + 1) (s_Skipped s) (s_lookup s) (s_pending s) (s_seen s) (s_links s) (s_groups s) (s_unreadable s).
Definition sc_skip (r : skip_reason) (s : scan_state) : scan_state :=
  mkScan (s_Files s) (s_WarningCount s) (r :: s_Skipped s) (s_lookup s) (s_pending s) (s_seen s) (s_links s) (s_groups s) (s_unreadable s).
Definition sc_unreadable (rel : string) (s : scan_state) : scan_state :=
  mkScan (s_Files s) (s_WarningCount s) (s_Skipped s) (s_lookup s) (s_pending s) (s_seen s) (s_links s) (s_groups s) (s_unreadable s ++ [rel])%list.
Definition sc_add (w : walked) (s : scan_state) : scan_state :=
  mkScan (s_Files s + 1) (s_WarningCount s) (s_Skipped s) (s_lookup s ++ [w])%list (s_pending s) (s_seen s)
    (if 2 <=? m_Nlink (wk_m w) then <[dev_ino (wk_m w) := (default [] (s_links s !! dev_ino (wk_m w)) ++ [w])%list]> (s_links s) else s_links s)
    (s_groups s) (s_unreadable s).
Definition sc_classified (pending : list walked) (seen : list Z) (s : scan_state) : scan_state :=
  mkScan (s_Files s) (s_WarningCount s) (s_Skipped s) [] (s_pending s ++ pending)%list (s_seen s ++ seen)%list (s_links s) (s_groups s) (s_unreadable s).
Definition sc_group (g : list walked) (s : scan_state) : scan_state :=
  mkScan (s_Files s) (s_WarningCount s) (s_Skipped s) (s_lookup s) (s_pending s) (s_seen s) (s_links s) (s_groups s ++ [g])%list (s_unreadable s).

(** *** Programs *)

Record st := mkSt { t_w : catalog; t_past : list catalog; t_n : nat; t_s : scan_state }.
Definition Scan (A : Type) : Type := st → result scan_error A * st.
Definition sret {A} (a : A) : Scan A := λ s, (Ok a, s).
Definition sfail {A} (e : scan_error) : Scan A := λ s, (Err e, s).
Definition sbind {A B} (m : Scan A) (k : A → Scan B) : Scan B :=
  λ s, let (r, s) := m s in match r with Ok a => k a s | Err e => (Err e, s) end.

Declare Scope scan_scope.
Delimit Scope scan_scope with scan.
Notation "'let*' x ':=' m 'in' k" := (sbind m (λ x, k))
  (at level 10, x pattern, m at level 100, k at level 200) : scan_scope.
Notation "m ;* k" := (sbind m (λ _, k)) (at level 100, k at level 200, right associativity) : scan_scope.
Open Scope scan_scope.

Definition ask {A} (f : nat → A) : Scan A := λ s, (Ok (f (t_n s)), mkSt (t_w s) (t_past s) (t_n s + 1)%nat (t_s s)).
Definition get_world : Scan catalog := λ s, (Ok (t_w s), s).
Definition get_scan : Scan scan_state := λ s, (Ok (t_s s), s).
Definition set_scan (f : scan_state → scan_state) : Scan unit := λ s, (Ok tt, mkSt (t_w s) (t_past s) (t_n s) (f (t_s s))).
(** A committed transaction. *)
Definition commit_world (w : catalog) : Scan unit := λ s, (Ok tt, mkSt w (w :: t_past s) (t_n s) (t_s s)).

Definition warn : Scan unit := set_scan sc_warn.

(** The scanner, the source and the environment. *)
Record scanner := mkScanner {
  sc_batchSize : nat;
  sc_sourceID : Z;
  sc_stamp : time;
  sc_match : string → string → bool → bool;
  sc_sha : string → string;
  sc_cancel : nat → bool;
  sc_db : nat → bool;
  sc_now : nat → time;
  sc_hash : string → Meta → result fs_error string;
}.

Section scan.
Context (c : scanner).

(** [ctx.Err()], and a query or transaction that the database may fail. *)
Definition check_ctx : Scan unit := let* stop := ask (sc_cancel c) in if stop : bool then sfail ScanCancelled else sret tt.
Definition db_try : Scan unit := let* bad := ask (sc_db c) in if bad : bool then sfail DBFailed else sret tt.

(** ** The root *)

(** What the scan is shown of the root: its lstat, its opening, its identity. *)
Inductive root_kind := RootDir | RootSymlink | RootOther.
Record root_view := mkRootView {
  rv_lstat : result fs_error root_kind;
  rv_open : result fs_error unit;
  rv_identity : result fs_error rootIdentity;
}.
(** [openRoot]: the identity is the recorded one, as far as its file system keeps it. *)
Definition openRoot (rec : source_row) (v : root_view) : result refused rootIdentity :=
  match rv_lstat v with
  | Err e => Err (if isFatalIO e then RootIO else if bool_decide (e = ENOENT) then RootMissing else RootUnreadable)
  | Ok RootSymlink => Err RootIsSymlink
  | Ok RootOther => Err RootNotDir
  | Ok RootDir =>
      match rv_open v with
      | Err _ => Err RootUnreadable
      | Ok _ =>
          match rv_identity v with
          | Err e => Err (if isFatalIO e then RootIO else RootUnreadable)
          | Ok ident =>
              if match sr_fsType rec with Some t => negb (bool_decide (t = ri_fsType ident)) | None => false end then Err OtherFSType
              else
                let devChanged := match sr_rootDev rec with Some d => negb (d =? ri_dev ident) | None => false end in
                if devChanged && negb (ri_anonDev ident) then Err OtherDevice
                else if ri_anonDev ident && ri_stableIno ident && match sr_rootIno rec with Some i => negb (i =? ri_ino ident) | None => false end then Err OtherInode
                else Ok ident
          end
      end
  end.

(** The master key: its name, size and hash; [None] without one. *)
Record master_key := mkMasterKey { mk_name : string; mk_size : Z; mk_sum : string }.
Definition loadKey (keyFile : string) (read : result fs_error string) : result scan_error (option master_key) :=
  if bool_decide (keyFile = "") then Ok None
  else
    match read with
    | Err ENOENT => Ok None
    | Err _ => Err KeyUnreadable
    | Ok data => Ok (if bool_decide (data = "") then None else Some (mkMasterKey (path_base keyFile) (slen data) (sc_sha c data)))
    end.
(** [holdsKey], on the entry's lstat: a file that cannot be read counts as the key. *)
Definition holdsKey (k : master_key) (size : Z) (read : key_read) : result refused bool :=
  if negb (size =? mk_size k) then Ok false
  else
    match read with
    | KeyFails e => if isFatalIO e then Err ReadIO else Ok (negb (isNotExist e))
    | KeyNothing => Ok false
    | KeyData data => Ok ((slen data =? mk_size k) && bool_decide (sc_sha c data = mk_sum k))
    end.
(** The forbidden folders that exist; of two with the same numbers the later one is named. *)
Definition forbid (l : list (string * option Meta)) : gmap devIno string :=
  foldl (λ g x, match x.2 with Some m => <[dev_ino m := x.1]> g | None => g end) ∅ l.
(** [loadForbidden]; [rootKey] is the entry of the root named like the key, from an lstat. *)
Definition loadForbidden (roots : result unit (list (string * option Meta))) (ident : rootIdentity) (keyFile : string) (read : result fs_error string)
    (rootKey : result fs_error entry_view) : result scan_error (gmap devIno string * option master_key) :=
  match roots with
  | Err _ => Err RootsUnknown
  | Ok roots =>
      let forbidden := forbid roots in
      if bool_decide (is_Some (forbidden !! (ri_dev ident, ri_ino ident))) then Err (Refused RootForbidden)
      else
        let? key := loadKey keyFile read in
        match key with
        | None => Ok (forbidden, None)
        | Some k =>
            match rootKey with
            | Err e => if isFatalIO e then Err (Refused RootIO) else Ok (forbidden, key)
            | Ok (EntryFile size _ r) =>
                match holdsKey k size r with
                | Err _ => Err (Refused RootIO)
                | Ok true => Err (Refused RootHoldsKey)
                | Ok false => Ok (forbidden, key)
                end
            | Ok _ => Ok (forbidden, key)
            end
        end
  end.

(** ** The walk *)

Definition joinRel (dir name : string) : string := if bool_decide (dir = ".") then name else dir +:+ "/" +:+ name.

(** The catalog's answer for a file: to write, or seen unchanged under an id. *)
Definition row_at (rel : string) (t : table) : option File :=
  List.find (λ f, (f_SourceID f =? sc_sourceID c) && bool_decide (f_RelPath f = rel)) t.
Definition unchanged (t : table) (w : walked) : option Z :=
  match row_at (wk_rel w) t with
  | Some f => if f_live f && bool_decide (f_Meta f = wk_m w) then Some (f_ID f) else None
  | None => None
  end.
(** [flushLookup] *)
Definition flushLookup : Scan unit :=
  let* s := get_scan in
  if bool_decide (s_lookup s = []) then sret tt
  else
    db_try ;*
    let* w := get_world in
    let t := w_files w in
    set_scan (sc_classified (List.filter (λ x, bool_decide (unchanged t x = None)) (s_lookup s)) (omap (unchanged t) (s_lookup s))).
Definition addFile (w : walked) : Scan unit :=
  set_scan (sc_add w) ;*
  let* s := get_scan in
  if (sc_batchSize c <=? length (s_lookup s))%nat then flushLookup else sret tt.

Definition dirError (rel : string) (e : fs_error) : Scan unit :=
  if isFatalIO e then sfail (Refused ReadIO)
  else if bool_decide (rel = ".") then sfail (Refused RootUnreadable)
  else if isNotExist e then sret tt
  else set_scan (sc_unreadable rel) ;* warn.

Section walk.
Context (forbidden : gmap devIno string) (key : option master_key).

(** Whether a folder is Bunkarr's own: the entry with the key's name. *)
Definition key_entry (l : list (string * entry_view)) : result refused bool :=
  match key with
  | None => Ok false
  | Some k =>
      match List.find (λ x, bool_decide (x.1 = mk_name k)) l with
      | Some (_, EntryFails e) => if isFatalIO e then Err ReadIO else Ok false
      | Some (_, EntryFile size _ r) => holdsKey k size r
      | _ => Ok false
      end
  end.
Definition keyFolder (l : list (string * entry_view)) : Scan bool :=
  match key_entry l with
  | Err r => sfail (Refused r)
  | Ok true => set_scan (sc_skip SkipOverlap) ;* warn ;* sret true
  | Ok false => sret false
  end.

(** The entries of a folder, in the order of their names, stopping at the first error. *)
Fixpoint in_turn (l : list (string * Scan unit)) : Scan unit :=
  match l with [] => sret tt | (_, m) :: l => check_ctx ;* m ;* in_turn l end.
Definition by_name {A} (a b : string * A) : Z := str_cmp a.1 b.1.
Definition same_folder (m : Meta) (m' : option Meta) : bool := match m' with Some m' => bool_decide (dev_ino m' = dev_ino m) | None => false end.

(** [walkDir]; [walk_entry] is the body of its loop with [enterDir]. *)
Fixpoint walkDir (v : dir_view) (rel : string) : Scan unit :=
  check_ctx ;*
  match v with
  | DirFails e => dirError rel e
  | DirLists l =>
      let* skip := keyFolder (isort by_name (entries l)) in
      if skip : bool then sret tt else in_turn (isort by_name (walk_list l rel))
  end
with walk_list (l : listing) (rel : string) : list (string * Scan unit) :=
  match l with
  | LNil => []
  | LCons name e l => (name, walk_entry e (joinRel rel name) name) :: walk_list l rel
  end
with walk_entry (e : entry_view) (child name : string) : Scan unit :=
  match e with
  | EntryFails e => if isFatalIO e then sfail (Refused ReadIO) else sret tt
  | EntryDir m o =>
      if sc_match c child name true then sret tt
      else
        match m with
        | None => set_scan (sc_skip SkipOther)
        | Some m =>
            if bool_decide (is_Some (forbidden !! dev_ino m)) then set_scan (sc_skip SkipOverlap) ;* warn
            else walk_opened o m child
        end
  | EntryFile _ m _ =>
      if sc_match c child name false then sret tt
      else match m with None => set_scan (sc_skip SkipOther) | Some m => addFile (mkWalked child m) end
  | EntryOther k => if sc_match c child name false then sret tt else set_scan (sc_skip (skipReason k))
  end
with walk_opened (o : opened) (m : Meta) (child : string) : Scan unit :=
  match o with
  | OpenFails e => dirError child e
  | Opens m' d => if same_folder m m' then walkDir d child else set_scan (sc_unreadable child) ;* warn
  end.
End walk.

(** ** Hardlink groups *)

(** [planGroups]: a bucket is a group when its names agree and are no more than the inode has;
    the groups come by their first name, and every bucket left out is a warning. *)
Definition agree (l : list walked) : bool := match l with [] => true | x :: l => forallb (λ y, bool_decide (wk_m y = wk_m x)) l end.
Definition rel_cmp (a b : walked) : Z := str_cmp (wk_rel a) (wk_rel b).
Definition first_cmp (a b : list walked) : Z :=
  match a, b with x :: _, y :: _ => rel_cmp x y | [], [] => 0 | [], _ => -1 | _, [] => 1 end.
Definition link_count (l : list walked) : Z := match l with [] => 0 | x :: _ => m_Nlink (wk_m x) end.
Definition grouped (l : list walked) : bool := (2 <=? length l)%nat && agree l && (Z.of_nat (length l) <=? link_count l).
Definition planGroups (buckets : list (list walked)) : list (list walked) * nat :=
  (isort first_cmp (isort rel_cmp <$> List.filter grouped buckets), length (List.filter (λ l, (2 <=? length l)%nat && negb (grouped l)) buckets)).

(** [confirmFUSE]: every name has the hash of the first. *)
Fixpoint confirm (first : option string) (g : list walked) : Scan bool :=
  match g with
  | [] => sret true
  | x :: g =>
      match sc_hash c (wk_rel x) (wk_m x) with
      | Err e => if isFatalIO e then sfail (Refused ReadIO) else warn ;* sret false
      | Ok h =>
          match first with
          | Some h0 => if bool_decide (h = h0) then confirm first g else warn ;* sret false
          | None => confirm (Some h) g
          end
      end
  end.
Fixpoint confirm_all (gs : list (list walked)) : Scan unit :=
  match gs with
  | [] => sret tt
  | g :: gs =>
      check_ctx ;*
      let* ok := confirm None g in
      (if ok : bool then set_scan (sc_group g) else sret tt) ;*
      confirm_all gs
  end.
Fixpoint warn_times (n : nat) : Scan unit := match n with O => sret tt | S n => warn ;* warn_times n end.
Fixpoint add_groups (gs : list (list walked)) : Scan unit := match gs with [] => sret tt | g :: gs => set_scan (sc_group g) ;* add_groups gs end.
Definition buildGroups (fuse : bool) : Scan unit :=
  let* s := get_scan in
  let (groups, warnings) := planGroups (snd <$> map_to_list (s_links s)) in
  warn_times warnings ;*
  if fuse then confirm_all groups else add_groups groups.

(** ** Recording *)

Definition next_id (t : table) : Z := 1 + foldr (λ f n, Z.max (f_ID f) n) 0 t.
(** [upsertFile] *)
Definition seen_file_row (w : walked) (f : File) : File :=
  mkFile (f_ID f) (f_SourceID f) (f_RelPath f) (wk_m w) None (f_FirstSeenAt f) (sc_stamp c) None.
Definition is_row (rel : string) (f : File) : bool := (f_SourceID f =? sc_sourceID c) && bool_decide (f_RelPath f = rel).
Definition upsert (t : table) (w : walked) : table :=
  match row_at (wk_rel w) t with
  | Some _ => (λ f, if is_row (wk_rel w) f then seen_file_row w f else f) <$> t
  | None => (t ++ [mkFile (next_id t) (sc_sourceID c) (wk_rel w) (wk_m w) None (sc_stamp c) (sc_stamp c) None])%list
  end.
Definition touch (ids : list Z) (t : table) : table :=
  (λ f, if mem (f_ID f) ids then mkFile (f_ID f) (f_SourceID f) (f_RelPath f) (f_Meta f) (f_HardlinkGroup f) (f_FirstSeenAt f) (sc_stamp c) (f_DeletedAt f) else f) <$> t.

Definition write_files (g : table → table) : Scan unit :=
  db_try ;*
  let* w := get_world in
  commit_world (mkCatalog (g (w_files w)) (w_source w)).
(** Batches of [sc_batchSize]; the length is enough fuel. *)
Fixpoint in_batches {A} (fuel : nat) (write : list A → Scan unit) (l : list A) : Scan unit :=
  match fuel, l with
  | _, [] => sret tt
  | O, _ => sret tt
  | S fuel, _ => write (take (sc_batchSize c) l) ;* in_batches fuel write (drop (sc_batchSize c) l)
  end.
Definition commit : Scan unit :=
  let* s := get_scan in
  in_batches (length (s_pending s)) (λ ws, write_files (λ t, foldl upsert t ws)) (s_pending s) ;*
  in_batches (length (s_seen s)) (λ ids, write_files (touch ids)) (s_seen s).

Definition underUnreadable (dirs : list string) (rel : string) : bool := existsb (λ d, has_prefix rel (d +:+ "/")) dirs.
(** [unseen] *)
Definition unseen (dirs : list string) (f : File) : bool :=
  (f_SourceID f =? sc_sourceID c) && f_live f && negb (f_LastSeenAt f =? sc_stamp c) && negb (underUnreadable dirs (f_RelPath f)).
Definition with_group (g : option (Z * Z * nat)) (f : File) : File :=
  mkFile (f_ID f) (f_SourceID f) (f_RelPath f) (f_Meta f) g (f_FirstSeenAt f) (f_LastSeenAt f) (f_DeletedAt f).
Definition deleted_row (f : File) : File :=
  mkFile (f_ID f) (f_SourceID f) (f_RelPath f) (f_Meta f) None (f_FirstSeenAt f) (f_LastSeenAt f) (Some (sc_stamp c)).
Definition mark_unseen (dirs : list string) (t : table) : table := (λ f, if unseen dirs f then deleted_row f else f) <$> t.
Definition clear_groups (t : table) : table := (λ f, if f_SourceID f =? sc_sourceID c then with_group None f else f) <$> t.
Definition set_group (gid : Z * Z * nat) (t : table) (x : walked) : table := (λ f, if is_row (wk_rel x) f then with_group (Some gid) f else f) <$> t.
(** Group numbers count from 1. *)
Fixpoint set_groups (seq : Z) (n : nat) (gs : list (list walked)) (t : table) : table :=
  match gs with
  | [] => t
  | g :: gs => set_groups seq (n + 1) gs (foldl (set_group (sc_sourceID c, seq, n)) t g)
  end.

(** [computeStats] *)
Definition group_size (t : table) (g : Z * Z * nat) : Z * Z :=
  let m := List.filter (λ f, bool_decide (f_HardlinkGroup f = Some g)) t in
  (foldr (λ f n, Z.max (m_Size (f_Meta f)) n) 0 m, Z.of_nat (length m)).
Definition computeStats (t : table) (skipped : Z) : Stats :=
  let l := List.filter (λ f, (f_SourceID f =? sc_sourceID c) && f_live f) t in
  let gs := remove_dups (omap f_HardlinkGroup l) in
  let total := foldr Z.add 0 ((λ f, m_Size (f_Meta f)) <$> l) in
  let extra := foldr Z.add 0 ((λ g, let (size, n) := group_size l g in size * (n - 1)) <$> gs) in
  mkStats (Z.of_nat (length l)) total (Z.of_nat (length (omap f_HardlinkGroup l))) (Z.of_nat (length gs)) (total - extra) skipped.

(** [finish], in one transaction. *)
Definition finished (ident : rootIdentity) (s : scan_state) (now : time) (row : source_row) (t : table) : catalog :=
  let seq := sr_scanSeq row + 1 in
  let t := set_groups seq 1 (s_groups s) (clear_groups (mark_unseen (s_unreadable s) t)) in
  let status := if 0 <? s_WarningCount s then ScanStatusWarnings else ScanStatusOK in
  mkCatalog t (Some (mkSourceRow (Some (ri_fsType ident)) (Some (ri_dev ident)) (Some (ri_ino ident)) seq
    (computeStats t (Z.of_nat (length (s_Skipped s)))) (Some status) (Some now))).
Definition finish (ident : rootIdentity) : Scan unit :=
  let* s := get_scan in
  let* now := ask (sc_now c) in
  db_try ;*
  let* w := get_world in
  match w_source w with
  | None => sfail SourceNotFound
  | Some row => commit_world (finished ident s now row (w_files w))
  end.

(** ** A scan *)

(** What the scan is shown outside the tree. *)
Record scan_view := mkScanView {
  sv_root : root_view;
  sv_roots : result unit (list (string * option Meta));
  sv_keyFile : string;
  sv_keyRead : result fs_error string;
  sv_rootKey : result fs_error entry_view;
  sv_tree : dir_view;
}.
Definition lift {A} (r : result refused A) : Scan A := match r with Ok a => sret a | Err r => sfail (Refused r) end.
Definition count_live (t : table) : Z := Z.of_nat (length (List.filter (λ f, (f_SourceID f =? sc_sourceID c) && f_live f) t)).

Definition run (row : source_row) (live : Z) (v : scan_view) : Scan unit :=
  let* ident := lift (openRoot row (sv_root v)) in
  let* (forbidden, key) := (match loadForbidden (sv_roots v) ident (sv_keyFile v) (sv_keyRead v) (sv_rootKey v) with Ok x => sret x | Err e => sfail e end) in
  walkDir forbidden key (sv_tree v) "." ;*
  flushLookup ;*
  let* s := get_scan in
  if (s_Files s =? 0) && (0 <? live) then sfail (Refused EmptyRoot)
  else
    buildGroups (ri_fuse ident) ;*
    commit ;*
    finish ident.

(** [recordScanFailure]; a failure of it is only logged. *)
Definition failed_row (now : time) (row : source_row) : source_row :=
  mkSourceRow (sr_fsType row) (sr_rootDev row) (sr_rootIno row) (sr_scanSeq row) (sr_stats row) (Some ScanStatusFailed) (Some now).
Definition recordScanFailure : Scan unit :=
  let* now := ask (sc_now c) in
  let* bad := ask (sc_db c) in
  let* w := get_world in
  if bad : bool then sret tt else commit_world (mkCatalog (w_files w) (failed_row now <$> w_source w)).
Definition scan (v : scan_view) : Scan unit :=
  db_try ;*
  let* w := get_world in
  match w_source w with
  | None => sfail SourceNotFound
  | Some row =>
      db_try ;*
      set_scan (λ _, no_scan) ;*
      λ s, match run row (count_live (w_files w)) v s with
           | (Ok _, s) => (Ok tt, s)
           | (Err e, s) => (let* stop := ask (sc_cancel c) in if stop : bool then sfail ScanCancelled else recordScanFailure ;* sfail e) s
           end
  end.
End scan.
