(* ===== verification/CatalogSight.v ===== *)
(** * CatalogSight: what a scan sees of a tree

    The files there are to see and the folders that hide some, as relations on what the scan is
    shown; the walk without its state, which finds exactly these, each file once; and that the
    walk of [CatalogScan] collects what it finds, and changes no table. *)
From stdpp Require Import base gmap list strings.
From S2P Require Import Prelude GoStrings DestFS CatalogExclude CatalogScan.
Open Scope string_scope.
Open Scope Z_scope.

Scheme dir_view_mut := Induction for dir_view Sort Prop
with listing_mut := Induction for listing Sort Prop
with entry_view_mut := Induction for entry_view Sort Prop
with opened_mut := Induction for opened Sort Prop.
Combined Scheme view_ind from dir_view_mut, listing_mut, entry_view_mut, opened_mut.

Section sight.
Context (c : scanner) (forbidden : gmap devIno string) (key : option master_key).

(** ** What there is to see *)

(** A folder whose entries are cataloged: it does not hold the key. *)
Definition open_folder (l : listing) : Prop := key_entry c key (isort by_name (entries l)) = Ok false.
Definition entered (m : Meta) (m' : option Meta) (child name : string) : Prop :=
  sc_match c child name true = false ∧ forbidden !! dev_ino m = None ∧ same_folder m m' = true.
(** The regular files under [rel]: not excluded, in folders that are entered. *)
Inductive sees : dir_view → string → walked → Prop :=
| sees_file l rel name size m k : open_folder l → (name, EntryFile size (Some m) k) ∈ entries l → sc_match c (joinRel rel name) name false = false →
    sees (DirLists l) rel (mkWalked (joinRel rel name) m)
| sees_below l rel name m m' d w : open_folder l → (name, EntryDir (Some m) (Opens m' d)) ∈ entries l → entered m m' (joinRel rel name) name →
    sees d (joinRel rel name) w → sees (DirLists l) rel w.
(** The folders under [rel] that cannot be read, or are no longer what was listed. *)
Definition hides (e : fs_error) : Prop := isFatalIO e = false ∧ isNotExist e = false.
Inductive misses : dir_view → string → string → Prop :=
| misses_self e rel : hides e → rel ≠ "." → misses (DirFails e) rel rel
| misses_open l rel name m e : open_folder l → (name, EntryDir (Some m) (OpenFails e)) ∈ entries l →
    sc_match c (joinRel rel name) name true = false → forbidden !! dev_ino m = None → hides e → joinRel rel name ≠ "." → misses (DirLists l) rel (joinRel rel name)
| misses_swapped l rel name m m' d : open_folder l → (name, EntryDir (Some m) (Opens m' d)) ∈ entries l →
    sc_match c (joinRel rel name) name true = false → forbidden !! dev_ino m = None → same_folder m m' = false → misses (DirLists l) rel (joinRel rel name)
| misses_below l rel name m m' d p : open_folder l → (name, EntryDir (Some m) (Opens m' d)) ∈ entries l → entered m m' (joinRel rel name) name →
    misses d (joinRel rel name) p → misses (DirLists l) rel p.

(** ** The walk, without its state *)

Definition sight : Type := list walked * list string.
Definition nothing : sight := ([], []).
Definition missed (rel : string) (e : fs_error) : sight :=
  if isFatalIO e || bool_decide (rel = ".") || isNotExist e then nothing else ([], [rel]).
Definition together (l : list (string * sight)) : sight := (concat ((λ x, x.2.1) <$> l), concat ((λ x, x.2.2) <$> l)).
Fixpoint look_dir (v : dir_view) (rel : string) : sight :=
  match v with
  | DirFails e => missed rel e
  | DirLists l =>
      match key_entry c key (isort by_name (entries l)) with
      | Ok false => together (isort by_name (look_list l rel))
      | _ => nothing
      end
  end
with look_list (l : listing) (rel : string) : list (string * sight) :=
  match l with LNil => [] | LCons name e l => (name, look_entry e (joinRel rel name) name) :: look_list l rel end
with look_entry (e : entry_view) (child name : string) : sight :=
  match e with
  | EntryDir (Some m) o => if sc_match c child name true || bool_decide (is_Some (forbidden !! dev_ino m)) then nothing else look_opened o m child
  | EntryFile _ (Some m) _ => if sc_match c child name false then nothing else ([mkWalked child m], [])
  | _ => nothing
  end
with look_opened (o : opened) (m : Meta) (child : string) : sight :=
  match o with
  | OpenFails e => missed child e
  | Opens m' d => if same_folder m m' then look_dir d child else ([], [child])
  end.

Lemma look_list_elem l rel name x : (name, x) ∈ look_list l rel ↔ ∃ e, (name, e) ∈ entries l ∧ x = look_entry e (joinRel rel name) name.
Proof.
  induction l as [|n e l IH]; simpl; [split; [by intros ?%elem_of_nil|by intros (? & ?%elem_of_nil & _)]|].
  rewrite elem_of_cons, IH. setoid_rewrite elem_of_cons. naive_solver.
Qed.
Lemma together_files l w : w ∈ (together l).1 ↔ ∃ name x, (name, x) ∈ l ∧ w ∈ x.1.
Proof.
  unfold together. simpl. rewrite list_elem_of_In, in_concat. setoid_rewrite <-list_elem_of_In. setoid_rewrite list_elem_of_fmap. split.
  - intros (? & ([name x] & -> & Hx) & Hw). eauto.
  - intros (name & x & Hx & Hw). exists x.1. split; [by exists (name, x)|done].
Qed.
Lemma together_missed l p : p ∈ (together l).2 ↔ ∃ name x, (name, x) ∈ l ∧ p ∈ x.2.
Proof.
  unfold together. simpl. rewrite list_elem_of_In, in_concat. setoid_rewrite <-list_elem_of_In. setoid_rewrite list_elem_of_fmap. split.
  - intros (? & ([name x] & -> & Hx) & Hw). eauto.
  - intros (name & x & Hx & Hw). exists x.2. split; [by exists (name, x)|done].
Qed.
Lemma missed_elem rel e p : p ∈ (missed rel e).2 ↔ p = rel ∧ hides e ∧ rel ≠ ".".
Proof.
  unfold missed, hides. destruct (isFatalIO e), (isNotExist e); simpl; try (case_bool_decide); simpl; rewrite ?elem_of_nil, ?list_elem_of_singleton; naive_solver.
Qed.
Lemma missed_files rel e w : ¬ w ∈ (missed rel e).1.
Proof. unfold missed. destruct (_ || _); apply not_elem_of_nil. Qed.

(** What an entry shows. *)
Definition entry_sees (e : entry_view) (child name : string) (w : walked) : Prop :=
  match e with
  | EntryFile _ (Some m) _ => sc_match c child name false = false ∧ w = mkWalked child m
  | EntryDir (Some m) (Opens m' d) => entered m m' child name ∧ sees d child w
  | _ => False
  end.
Definition entry_misses (e : entry_view) (child name p : string) : Prop :=
  match e with
  | EntryDir (Some m) (OpenFails er) => sc_match c child name true = false ∧ forbidden !! dev_ino m = None ∧ hides er ∧ child ≠ "." ∧ p = child
  | EntryDir (Some m) (Opens m' d) =>
      sc_match c child name true = false ∧ forbidden !! dev_ino m = None ∧ if same_folder m m' then misses d child p else p = child
  | _ => False
  end.
Lemma sees_inv v rel w : sees v rel w ↔
  match v with DirFails _ => False | DirLists l => open_folder l ∧ ∃ name e, (name, e) ∈ entries l ∧ entry_sees e (joinRel rel name) name w end.
Proof.
  split.
  - intros Hs. inversion Hs; subst; (split; [done|]); (eexists _, _; split; [done|]); by split.
  - destruct v as [|l]; [done|]. intros (Ho & name & e & Hin & He). destruct e as [|[m|] [|m' d]|sz [m|] k|]; try done.
    + destruct He. by eapply sees_below.
    + destruct He as [Hm ->]. by eapply sees_file.
Qed.
Lemma misses_inv v rel p : misses v rel p ↔
  match v with
  | DirFails e => hides e ∧ rel ≠ "." ∧ p = rel
  | DirLists l => open_folder l ∧ ∃ name e, (name, e) ∈ entries l ∧ entry_misses e (joinRel rel name) name p
  end.
Proof.
  split.
  - intros Hs. inversion Hs as [|? ? ? ? ? Ho Hin|? ? ? m0 m1 d Ho Hin Hx Hf Hsame|? ? ? m0 m1 d ? Ho Hin (Hx & Hf & Hsame) Hb]; subst; [done|..];
      (split; [done|]); (eexists _, _; split; [exact Hin|]); simpl; rewrite ?Hsame; done.
  - destruct v as [e|l]; [intros (? & ? & ->); by constructor|]. intros (Ho & name & e & Hin & He). destruct e as [|[m|] [er|m' d]|sz [m|] k|]; try done; simpl in He.
    + destruct He as (? & ? & ? & ? & ->). by eapply misses_open.
    + destruct He as (? & ? & He). destruct (same_folder m m') eqn:Es; [by eapply misses_below|]. subst p. by eapply misses_swapped.
Qed.
Lemma look_entry_skip child name m : sc_match c child name true || bool_decide (is_Some (forbidden !! dev_ino m)) = false ↔
  sc_match c child name true = false ∧ forbidden !! dev_ino m = None.
Proof.
  rewrite orb_false_iff, bool_decide_eq_false. split; intros [? Hf]; (split; [done|]).
  - destruct (forbidden !! dev_ino m); [by destruct Hf|done].
  - rewrite Hf. by intros [? ?].
Qed.

(** The walk finds what there is to see. *)
Lemma look_spec :
  (∀ v rel, (∀ w, w ∈ (look_dir v rel).1 ↔ sees v rel w) ∧ ∀ p, p ∈ (look_dir v rel).2 ↔ misses v rel p) ∧
  (∀ l name e, (name, e) ∈ entries l → ∀ child, (∀ w, w ∈ (look_entry e child name).1 ↔ entry_sees e child name w) ∧
     ∀ p, p ∈ (look_entry e child name).2 ↔ entry_misses e child name p) ∧
  (∀ e child name, (∀ w, w ∈ (look_entry e child name).1 ↔ entry_sees e child name w) ∧ ∀ p, p ∈ (look_entry e child name).2 ↔ entry_misses e child name p) ∧
  (∀ o, match o with OpenFails _ => True | Opens _ d =>
     ∀ rel, (∀ w, w ∈ (look_dir d rel).1 ↔ sees d rel w) ∧ ∀ p, p ∈ (look_dir d rel).2 ↔ misses d rel p end).
Proof.
  apply view_ind; try done.
  - intros e rel. split; intros x; rewrite ?sees_inv, ?misses_inv; simpl; [split; [by intros ?%missed_files|done]|rewrite missed_elem; naive_solver].
  - intros l IH rel. unfold look_dir. fold look_list. assert (Hopen : open_folder l ↔ key_entry c key (isort by_name (entries l)) = Ok false) by done.
    split; intros x; rewrite ?sees_inv, ?misses_inv, Hopen; destruct (key_entry c key _) as [[]|r]; simpl; try (split; [by intros ?%elem_of_nil|by intros [? _]]).
    + change (concat _) with (together (isort by_name (look_list l rel))).1. rewrite together_files. setoid_rewrite isort_elem. setoid_rewrite look_list_elem. naive_solver.
    + change (concat _) with (together (isort by_name (look_list l rel))).2. rewrite together_missed. setoid_rewrite isort_elem. setoid_rewrite look_list_elem. naive_solver.
  - intros name e Hin. simpl in Hin. by apply elem_of_nil in Hin.
  - intros name e He l IH n e' Hin. simpl in Hin. apply elem_of_cons in Hin as [[= -> ->]|Hin]; [by intros child|by apply IH].
  - intros e child name. split; intros x; simpl; (split; [by intros ?%elem_of_nil|done]).
  - intros m o IH child name. destruct m as [m|]; [|split; intros x; simpl; (split; [by intros ?%elem_of_nil|by destruct o])].
    cbn [look_entry]. destruct (sc_match c child name true || bool_decide (is_Some (forbidden !! dev_ino m))) eqn:E.
    { assert (¬ (sc_match c child name true = false ∧ forbidden !! dev_ino m = None)) by (rewrite <-look_entry_skip by exact o; by rewrite E).
      split; intros x; simpl; (split; [by intros ?%elem_of_nil|]); destruct o; simpl; unfold entered; naive_solver. }
    apply look_entry_skip in E as [E1 E2]. destruct o as [er|m' d]; simpl.
    + split; intros x; [split; [by intros ?%missed_files|done]|rewrite missed_elem; naive_solver].
    + unfold entered. destruct (same_folder m m') eqn:Es; [destruct (IH child) as [H1 H2]; split; intros x; rewrite ?H1, ?H2; naive_solver|].
      split; intros x; simpl; rewrite ?elem_of_nil, ?list_elem_of_singleton; naive_solver.
  - intros size m k child name. destruct m as [m|]; [|split; intros x; simpl; (split; [by intros ?%elem_of_nil|done])].
    simpl. destruct (sc_match c child name false); split; intros x; simpl; rewrite ?elem_of_nil, ?list_elem_of_singleton; naive_solver.
  - intros k child name. split; intros x; simpl; (split; [by intros ?%elem_of_nil|done]).
Qed.
(** ** Names *)

Definition plain (name : string) : Prop := name ≠ "." ∧ Forall (λ x, x ≠ slash) (bytes name).
(** The names of a folder's entries are its entries' names, each once. *)
Fixpoint named (v : dir_view) : Prop := match v with DirFails _ => True | DirLists l => NoDup (entries l).*1 ∧ named_list l end
with named_list (l : listing) : Prop := match l with LNil => True | LCons name e l => plain name ∧ named_entry e ∧ named_list l end
with named_entry (e : entry_view) : Prop := match e with EntryDir _ o => named_opened o | _ => True end
with named_opened (o : opened) : Prop := match o with OpenFails _ => True | Opens _ d => named d end.
Lemma named_elem l name e : named_list l → (name, e) ∈ entries l → plain name ∧ named_entry e.
Proof.
  induction l as [|n e' l IH]; simpl; [by intros _ ?%elem_of_nil|]. intros (Hn & He & Hl) [[= -> ->]|Hin]%elem_of_cons; [done|by apply IH].
Qed.
(** [p] is [n] or a path under it. *)
Definition at_or_under (n p : string) : Prop := ∃ r, bytes p = (bytes n ++ r)%list ∧ match r with [] => True | x :: _ => x = slash end.
Lemma bytes_joinRel rel name : rel ≠ "." → bytes (joinRel rel name) = (bytes rel ++ slash :: bytes name)%list.
Proof. intros Hr. unfold joinRel. rewrite bool_decide_eq_false_2 by done. by rewrite !bytes_app. Qed.
Lemma joinRel_not_root rel name : plain name → joinRel rel name ≠ ".".
Proof.
  intros [Hn _]. destruct (decide (rel = ".")) as [->|Hr]; [done|]. intros E. apply (f_equal bytes) in E. rewrite bytes_joinRel in E by done. simpl in E.
  destruct (bytes rel) as [|x l]; [done|]. by destruct l.
Qed.
Lemma under_join rel name p : rel ≠ "." → at_or_under (joinRel rel name) p → at_or_under rel p.
Proof. intros Hr (r & Hp & _). rewrite bytes_joinRel in Hp by done. exists (slash :: bytes name ++ r)%list. split; [|done]. by rewrite Hp, <-app_assoc. Qed.
Lemma one_name (n n' r r' : list Ascii.ascii) : Forall (λ x, x ≠ slash) n → Forall (λ x, x ≠ slash) n' →
  match r with [] => True | x :: _ => x = slash end → match r' with [] => True | x :: _ => x = slash end → (n ++ r = n' ++ r')%list → n = n'.
Proof.
  intros Hn. revert n'. induction Hn as [|x n Hx Hn IH]; intros n' Hn' Hr Hr' E.
  - destruct Hn' as [|y n' Hy]; [done|]. simpl in E. subst r. by destruct Hy.
  - destruct Hn' as [|y n' Hy Hn']; simpl in E; [subst r'; by destruct Hx|]. injection E as -> E. f_equal. by apply IH.
Qed.
Lemma under_one rel n n' p : plain n → plain n' → at_or_under (joinRel rel n) p → at_or_under (joinRel rel n') p → n = n'.
Proof.
  intros [_ Hn] [_ Hn'] (r & Hp & Hr) (r' & Hp' & Hr'). apply bytes_inj. destruct (decide (rel = ".")) as [->|Hrel].
  - change (joinRel "." n) with n in Hp. change (joinRel "." n') with n' in Hp'. apply (one_name _ _ r r'); congruence.
  - rewrite bytes_joinRel in Hp, Hp' by done. rewrite Hp, <-!app_assoc in Hp'. simpl in Hp'. apply app_inv_head in Hp'. injection Hp' as E. by apply (one_name _ _ r r').
Qed.
Lemma sees_under v rel w : sees v rel w → named v → rel ≠ "." → at_or_under rel (wk_rel w).
Proof.
  induction 1 as [l rel name size m k Ho Hin Hx|l rel name m m' d w Ho Hin He Hs IH]; intros [_ Hl] Hr; destruct (named_elem _ _ _ Hl Hin) as [Hp Hd].
  - simpl. exists (slash :: bytes name). split; [by apply bytes_joinRel|done].
  - eapply under_join; [done|]. apply IH; [done|by apply joinRel_not_root].
Qed.
Lemma entry_under l rel name e w : named_list l → (name, e) ∈ entries l → entry_sees e (joinRel rel name) name w → at_or_under (joinRel rel name) (wk_rel w).
Proof.
  intros Hl Hin He. destruct (named_elem _ _ _ Hl Hin) as [Hp Hd]. destruct e as [|[m|] [|m' d]|sz [m|] k|]; try done.
  - destruct He as [_ Hs]. eapply sees_under; [exact Hs|done|]. by apply joinRel_not_root.
  - destruct He as [_ ->]. exists []. by rewrite app_nil_r.
Qed.
(** A path names one file. *)
Lemma sees_one v rel w : sees v rel w → named v → ∀ w', sees v rel w' → wk_rel w' = wk_rel w → w' = w.
Proof.
  induction 1 as [l rel name size m k Ho Hin Hx|l rel name m m' d w Ho Hin He Hs IH]; intros [Hnd Hl] w' (_ & n' & e' & Hin' & He')%sees_inv Hw;
    pose proof (entry_under _ _ _ _ _ Hl Hin' He') as Hu'; destruct (named_elem _ _ _ Hl Hin) as [Hp Hd]; destruct (named_elem _ _ _ Hl Hin') as [Hp' _].
  - assert (n' = name) as ->. { eapply under_one; [done|done|exact Hu'|]. rewrite Hw. exists []. by rewrite app_nil_r. }
    assert ((name, e') = (name, EntryFile size (Some m) k)) as [= ->] by (by eapply (NoDup_fmap_inj_on fst)). by destruct He' as [_ ->].
  - assert (n' = name) as ->.
    { eapply under_one; [done|done|exact Hu'|]. rewrite Hw. eapply sees_under; [done..|]. by apply joinRel_not_root. }
    assert ((name, e') = (name, EntryDir (Some m) (Opens m' d))) as [= ->] by (by eapply (NoDup_fmap_inj_on fst)). destruct He' as [_ Hs']. by apply IH.
Qed.
(** The walk finds each file once. *)
Lemma entry_sees_under l rel name e w : named_list l → (name, e) ∈ entries l → w ∈ (look_entry e (joinRel rel name) name).1 → at_or_under (joinRel rel name) (wk_rel w).
Proof. intros Hl Hin Hw. apply (proj1 (proj1 (proj2 (proj2 look_spec)) e _ _)) in Hw. by eapply entry_under. Qed.
Lemma together_isort l : (together (isort by_name l)).1 ≡ₚ (together l).1.
Proof. unfold together. simpl. by rewrite isort_perm. Qed.
Lemma look_once :
  (∀ v rel, named v → NoDup (wk_rel <$> (look_dir v rel).1)) ∧
  (∀ l rel, named_list l → NoDup (entries l).*1 → NoDup (wk_rel <$> (together (look_list l rel)).1)) ∧
  (∀ e child name, named_entry e → NoDup (wk_rel <$> (look_entry e child name).1)) ∧
  (∀ o m child, named_opened o → NoDup (wk_rel <$> (look_opened o m child).1)).
Proof.
  apply view_ind; try (intros; constructor).
  - intros e rel _. simpl. unfold missed. destruct (_ || _); constructor.
  - intros l IH rel [Hnd Hl]. cbn [look_dir]. fold look_list. destruct (key_entry c key _) as [[]|r]; [constructor| |constructor]. rewrite together_isort. by apply IH.
  - intros name e He l IH rel (Hp & Hne & Hl) Hnd. cbn [look_list]. unfold together. rewrite fmap_cons. cbn [concat fst snd]. rewrite fmap_app. apply NoDup_app.
    apply NoDup_cons in Hnd as [Hname Hnd]. split; [by apply He|]. split; [|by apply IH]. intros p (w & -> & Hw)%list_elem_of_fmap (w' & Hp' & Hw')%list_elem_of_fmap.
    change (concat _) with (together (look_list l rel)).1 in Hw'. apply together_files in Hw' as (n' & x & (e' & Hin & ->)%look_list_elem & Hw').
    destruct (named_elem _ _ _ Hl Hin) as [Hpn _]. apply Hname, list_elem_of_fmap. exists (n', e'). split; [|done]. simpl. eapply (under_one rel _ _ (wk_rel w)); [done|done| |].
    + eapply (entry_sees_under (LCons name e l)); [|by left|done]. done.
    + rewrite Hp'. by eapply entry_sees_under.
  - intros [m|] o IH child name Ho; simpl; [|constructor]. destruct (_ || _); [constructor|by apply IH].
  - intros size [m|] k child name _; simpl; [|constructor]. destruct (sc_match c child name false); [constructor|]. apply NoDup_singleton.
  - intros e m child _. simpl. unfold missed. destruct (_ || _); constructor.
  - intros m' d IH m child Hd. simpl. destruct (same_folder m m'); [by apply IH|constructor].
Qed.
End sight.

(** ** The walk collects what it sees *)

Section walk.
Context (c : scanner) (t : table).

Definition add_link (g : gmap devIno (list walked)) (w : walked) : gmap devIno (list walked) :=
  if 2 <=? m_Nlink (wk_m w) then <[dev_ino (wk_m w) := (default [] (g !! dev_ino (wk_m w)) ++ [w])%list]> g else g.
(** The state after the files [ws] and the unreadable folders [us]. *)
Record collected (ws : list walked) (us : list string) (s : scan_state) : Prop := mkCollected {
  co_files : s_Files s = Z.of_nat (length ws);
  co_lookup : ∃ done, ws = (done ++ s_lookup s)%list ∧ s_pending s = List.filter (λ x, bool_decide (unchanged c t x = None)) done ∧
    s_seen s = omap (unchanged c t) done;
  co_links : s_links s = foldl add_link ∅ ws;
  co_groups : s_groups s = [];
  co_unreadable : s_unreadable s = us;
}.
(** [m] changes no table; when it succeeds, what it sees is collected. *)
Definition gathers (m : Scan unit) (x : sight) : Prop :=
  ∀ s, w_files (t_w s) = t → (t_w (m s).2 = t_w s ∧ t_past (m s).2 = t_past s) ∧
    ((m s).1 = Ok tt → ∀ ws us, collected ws us (t_s s) → collected (ws ++ x.1) (us ++ x.2) (t_s (m s).2)).

Lemma gathers_ret : gathers (sret tt) nothing.
Proof. intros s Hs. split; [done|]. intros _ ws us. simpl. by rewrite !app_nil_r. Qed.
Lemma gathers_fail e x : gathers (sfail e) x.
Proof. by intros s Hs. Qed.
Lemma gathers_then m k x y : gathers m x → gathers k y → gathers (m ;* k) ((x.1 ++ y.1)%list, (x.2 ++ y.2)%list).
Proof.
  intros Hm Hk s Hs. destruct (Hm s Hs) as [[Hw Hp] Hc]. unfold sbind. destruct (m s) as [[[]|e] s1]; simpl in *; [|done].
  assert (Hs1 : w_files (t_w s1) = t) by (by rewrite Hw). destruct (Hk s1 Hs1) as [[Hw' Hp'] Hc']. split; [split; congruence|].
  intros Hr ws us Hcol. rewrite !app_assoc. apply Hc'; [done|]. by apply Hc.
Qed.
Lemma gathers_nothing m k x : gathers m nothing → gathers k x → gathers (m ;* k) x.
Proof. intros Hm Hk. pose proof (gathers_then _ _ _ _ Hm Hk) as H. by destruct x. Qed.
Lemma gathers_set f x : (∀ ws us s, collected ws us s → collected (ws ++ x.1) (us ++ x.2) (f s)) → gathers (set_scan f) x.
Proof. intros Hf s Hs. split; [done|]. intros _ ws us. apply Hf. Qed.
Lemma gathers_ctx : gathers (check_ctx c) nothing.
Proof. intros s Hs. unfold check_ctx, sbind. simpl. destruct (sc_cancel c _); simpl; [done|]. split; [done|]. intros _ ws us. by rewrite !app_nil_r. Qed.
Lemma gathers_warn : gathers warn nothing.
Proof. apply gathers_set. intros ws us s []. simpl. rewrite !app_nil_r. by split. Qed.
Lemma gathers_skip r : gathers (set_scan (sc_skip r)) nothing.
Proof. apply gathers_set. intros ws us s []. simpl. rewrite !app_nil_r. by split. Qed.
Lemma gathers_unreadable rel : gathers (set_scan (sc_unreadable rel)) ([], [rel]).
Proof. apply gathers_set. intros ws us s [H1 H2 H3 H4 H5]. simpl. rewrite app_nil_r. split; try done. simpl. by rewrite H5. Qed.

Lemma gathers_flush : gathers (flushLookup c) nothing.
Proof.
  intros s Hs. unfold flushLookup, db_try, sbind. simpl. case_bool_decide; simpl; [split; [done|]; intros _ ws us; by rewrite !app_nil_r|].
  destruct (sc_db c _); simpl; [done|]. split; [done|]. rewrite Hs. intros _ ws us [H1 (done & H2 & H3 & H4) H5 H6 H7]. rewrite !app_nil_r. split; try done.
  exists ws. simpl. rewrite app_nil_r. split; [done|]. subst ws. by rewrite List.filter_app, omap_app, H3, H4.
Qed.
Lemma gathers_addFile w : gathers (addFile c w) ([w], []).
Proof.
  change [w] with ([w] ++ [])%list. apply (gathers_then _ _ ([w], []) nothing).
  - apply gathers_set. intros ws us s [H1 (done & H2 & H3 & H4) H5 H6 H7]. simpl. rewrite app_nil_r. split; simpl; try done.
    + rewrite H1, length_app. simpl. lia.
    + exists done. split; [|done]. by rewrite H2, app_assoc.
    + rewrite foldl_app. simpl. by rewrite <-H5.
  - intros s Hs. pose proof (gathers_flush s Hs) as Hf. pose proof (gathers_ret s Hs) as Hn. unfold sbind, get_scan. destruct (_ <=? _)%nat; done.
Qed.
Lemma gathers_dirError rel e : gathers (dirError rel e) (missed rel e).
Proof.
  unfold dirError, missed. destruct (isFatalIO e); simpl; [apply gathers_fail|]. case_bool_decide; simpl; [apply gathers_fail|].
  destruct (isNotExist e); [apply gathers_ret|]. change [rel] with ([rel] ++ [])%list. apply (gathers_then _ _ ([], [rel]) nothing); [apply gathers_unreadable|apply gathers_warn].
Qed.

(** In turn, in the order of the names. *)
Definition paired (a : string * Scan unit) (b : string * sight) : Prop := a.1 = b.1 ∧ gathers a.2 b.2.
Lemma insert_paired a b l k : paired a b → Forall2 paired l k → Forall2 paired (insert_sorted by_name a l) (insert_sorted by_name b k).
Proof.
  intros Hab. induction 1 as [|a' b' l k Hab' Hl IH]; simpl; [by apply Forall2_cons|].
  assert (by_name a a' = by_name b b') as ->; [|destruct (_ <=? 0); repeat (apply Forall2_cons; split); done].
  unfold by_name. by rewrite (proj1 Hab), (proj1 Hab').
Qed.
Lemma sort_paired l k : Forall2 paired l k → Forall2 paired (isort by_name l) (isort by_name k).
Proof. induction 1; simpl; [constructor|]. by apply insert_paired. Qed.
Lemma gathers_in_turn l k : Forall2 paired l k → gathers (in_turn c l) (together k).
Proof.
  induction 1 as [|[n m] [n' x] l k [_ Hm] Hl IH]; [apply gathers_ret|]. cbn [in_turn]. apply gathers_nothing; [apply gathers_ctx|].
  unfold together. rewrite !fmap_cons. cbn [concat]. by apply (gathers_then m _ x (together k)).
Qed.

Context (forbidden : gmap devIno string) (key : option master_key).
Lemma gathers_walk :
  (∀ v rel, gathers (walkDir c forbidden key v rel) (look_dir c forbidden key v rel)) ∧
  (∀ l rel, Forall2 paired (walk_list c forbidden key l rel) (look_list c forbidden key l rel)) ∧
  (∀ e child name, gathers (walk_entry c forbidden key e child name) (look_entry c forbidden key e child name)) ∧
  (∀ o m child, gathers (walk_opened c forbidden key o m child) (look_opened c forbidden key o m child)).
Proof.
  apply view_ind.
  - intros e rel. simpl. apply gathers_nothing; [apply gathers_ctx|]. apply gathers_dirError.
  - intros l IH rel. cbn [walkDir look_dir]. fold (walk_list c forbidden key) (look_list c forbidden key). apply gathers_nothing; [apply gathers_ctx|].
    unfold keyFolder. destruct (key_entry c key _) as [[]|r]; simpl.
    + intros s Hs. unfold sbind. simpl. split; [done|]. intros _ ws us []. rewrite !app_nil_r. by split.
    + intros s Hs. by apply (gathers_in_turn _ _ (sort_paired _ _ (IH rel))).
    + by intros s Hs.
  - intros rel. constructor.
  - intros name e He l IH rel. simpl. constructor; [split; [done|apply He]|apply IH].
  - intros e child name. simpl. destruct (isFatalIO e); [apply gathers_fail|apply gathers_ret].
  - intros [m|] o IH child name; simpl.
    + destruct (sc_match c child name true); simpl; [apply gathers_ret|]. case_bool_decide; [|apply IH].
      apply gathers_nothing; [apply gathers_skip|apply gathers_warn].
    + destruct (sc_match c child name true); [apply gathers_ret|apply gathers_skip].
  - intros size [m|] k child name; simpl; (destruct (sc_match c child name false); [apply gathers_ret|]); [apply gathers_addFile|apply gathers_skip].
  - intros k child name. simpl. destruct (sc_match c child name false); [apply gathers_ret|apply gathers_skip].
  - intros e m child. apply gathers_dirError.
  - intros m' d IH m child. simpl. destruct (same_folder m m'); [apply IH|].
    change [child] with ([child] ++ [])%list. apply (gathers_then _ _ ([], [child]) nothing); [apply gathers_unreadable|apply gathers_warn].
Qed.
End walk.
