(* ===== verification/CatalogScanProps.v ===== *)
(** * CatalogScanProps: what a scan records

    What the transactions of a scan make of the rows: a scan that succeeds records exactly what it
    saw ([CatalogSight]), one that fails deletes nothing, and its hardlink groups join names of
    one file. *)
From stdpp Require Import base gmap list strings.
From S2P Require Import Prelude GoStrings DestFS CatalogExclude CatalogScan CatalogSight.
Open Scope string_scope.
Open Scope Z_scope.

(** ** What the transactions make of a row *)

Section rows.
Context (c : scanner).
#[local] Abbreviation row_at := (row_at c).
#[local] Abbreviation upsert := (upsert c).

Definition table_ok (t : table) : Prop := NoDup (f_ID <$> t) ∧ NoDup ((λ f, (f_SourceID f, f_RelPath f)) <$> t).
Definition keeps_key (g : File → File) : Prop := ∀ f, f_SourceID (g f) = f_SourceID f ∧ f_RelPath (g f) = f_RelPath f.
Lemma row_at_fmap g rel t : keeps_key g → row_at rel (g <$> t) = g <$> row_at rel t.
Proof. intros Hg. apply find_fmap. intros f. destruct (Hg f) as [-> ->]. done. Qed.
Lemma row_at_spec rel t f : row_at rel t = Some f → f ∈ t ∧ f_SourceID f = sc_sourceID c ∧ f_RelPath f = rel.
Proof.
  intros [Hin E]%find_some. apply andb_true_iff in E as [E1%Z.eqb_eq E2%bool_decide_eq_true]. split; [by apply list_elem_of_In|done].
Qed.
Lemma row_at_unique t f : table_ok t → f ∈ t → f_SourceID f = sc_sourceID c → row_at (f_RelPath f) t = Some f.
Proof.
  intros [_ Hk] Hf Hs. destruct (row_at (f_RelPath f) t) as [g|] eqn:E.
  - apply row_at_spec in E as (Hg & Es & Er). f_equal. eapply (NoDup_fmap_inj_on (λ f, (f_SourceID f, f_RelPath f))); [exact Hk|done|done|simpl; congruence].
  - apply list_elem_of_In in Hf. apply (find_none _ _ E) in Hf. by rewrite Hs, Z.eqb_refl, bool_decide_eq_true_2 in Hf.
Qed.

Definition new_row (w : walked) (t : table) : File := mkFile (next_id t) (sc_sourceID c) (wk_rel w) (wk_m w) None (sc_stamp c) (sc_stamp c) None.
Lemma is_row_seen w rel f : is_row c rel (if is_row c (wk_rel w) f then seen_file_row c w f else f) = is_row c rel f.
Proof. by destruct (is_row c (wk_rel w) f). Qed.
Lemma row_at_upsert w rel t : row_at rel (upsert t w) =
  if decide (wk_rel w = rel) then Some (match row_at rel t with Some f => seen_file_row c w f | None => new_row w t end) else row_at rel t.
Proof.
  unfold CatalogScan.upsert. destruct (row_at (wk_rel w) t) as [f|] eqn:E.
  - rewrite row_at_fmap by (intros g; by destruct (is_row c (wk_rel w) g)). case_decide as Hrel.
    + subst rel. rewrite E. simpl. apply row_at_spec in E as (_ & Es & Er). unfold is_row. by rewrite Es, Er, Z.eqb_refl, bool_decide_eq_true_2.
    + destruct (row_at rel t) as [g|] eqn:Eg; simpl; [|done]. apply row_at_spec in Eg as (_ & _ & Er). unfold is_row. rewrite (bool_decide_eq_false_2 (f_RelPath g = wk_rel w)) by congruence. by rewrite andb_false_r.
  - unfold CatalogScan.row_at at 1. rewrite find_app. fold (row_at rel t). destruct (row_at rel t) as [g|] eqn:Eg.
    + rewrite decide_False; [done|]. intros <-. congruence.
    + simpl. rewrite Z.eqb_refl. simpl. case_decide; [by rewrite bool_decide_eq_true_2|by rewrite bool_decide_eq_false_2].
Qed.

(** What becomes of the row of a file that is written. *)
Definition written (t0 : table) (w : walked) (old : option File) (f : File) : Prop :=
  f_Meta f = wk_m w ∧ f_DeletedAt f = None ∧ f_LastSeenAt f = sc_stamp c ∧ f_HardlinkGroup f = None ∧
  match old with Some f0 => f_ID f = f_ID f0 ∧ f_FirstSeenAt f = f_FirstSeenAt f0 | None => f_FirstSeenAt f = sc_stamp c ∧ next_id t0 ≤ f_ID f end.
Lemma next_id_spec t f : f ∈ t → f_ID f < next_id t.
Proof.
  unfold next_id. induction t as [|g t IH]; intros Hf; simpl; [by apply elem_of_nil in Hf|]. apply elem_of_cons in Hf as [->|Hf]; [lia|]. specialize (IH Hf). lia.
Qed.
Lemma next_id_fmap g t : (∀ f, f_ID (g f) = f_ID f) → next_id (g <$> t) = next_id t.
Proof. intros Hg. unfold next_id. f_equal. induction t as [|f t IH]; [done|]. rewrite fmap_cons. cbn [foldr]. by rewrite Hg, IH. Qed.
Lemma max_id_mono a b t : a ≤ b → foldr (λ f n, Z.max (f_ID f) n) a t ≤ foldr (λ f n, Z.max (f_ID f) n) b t.
Proof. intros Hab. induction t; simpl; lia. Qed.
Lemma max_id_base a t : a ≤ foldr (λ f n, Z.max (f_ID f) n) a t.
Proof. induction t; simpl; lia. Qed.
Lemma next_id_upsert t w : next_id t ≤ next_id (upsert t w).
Proof.
  unfold CatalogScan.upsert. destruct (row_at _ t).
  - rewrite next_id_fmap; [done|]. intros g. by destruct (is_row c (wk_rel w) g).
  - unfold next_id at 1 2. rewrite foldr_app. apply Z.add_le_mono_l, max_id_mono. simpl. lia.
Qed.
Lemma next_id_upserts ws t : next_id t ≤ next_id (foldl upsert t ws).
Proof. revert t. induction ws as [|w ws IH]; intros t; simpl; [done|]. pose proof (next_id_upsert t w). pose proof (IH (upsert t w)). lia. Qed.
Lemma keeps_table_ok g t : keeps_key g → (∀ f, f_ID (g f) = f_ID f) → table_ok t → table_ok (g <$> t).
Proof.
  intros Hg Hid [H1 H2]. unfold table_ok. rewrite <-!list_fmap_compose. split; [eapply eq_ind; [exact H1|]|eapply eq_ind; [exact H2|]]; apply list_fmap_ext; intros _ f _; simpl; [done|].
  by destruct (Hg f) as [-> ->].
Qed.
Lemma keeps_seen w : keeps_key (λ f, if is_row c (wk_rel w) f then seen_file_row c w f else f).
Proof. intros f. by destruct (is_row c (wk_rel w) f). Qed.
Lemma row_at_none rel t : row_at rel t = None → ∀ f, f ∈ t → f_SourceID f = sc_sourceID c → f_RelPath f ≠ rel.
Proof.
  intros E f Hf Hs Hr. apply list_elem_of_In in Hf. apply (find_none _ _ E) in Hf. by rewrite Hs, Z.eqb_refl, bool_decide_eq_true_2 in Hf.
Qed.
Lemma upsert_ok t w : table_ok t → table_ok (upsert t w).
Proof.
  intros Hok. unfold CatalogScan.upsert. destruct (row_at (wk_rel w) t) eqn:E.
  - apply keeps_table_ok; [apply keeps_seen| |done]. intros g. by destruct (is_row c (wk_rel w) g).
  - destruct Hok as [H1 H2]. split; rewrite fmap_app; apply NoDup_app; (split; [done|]); (split; [|apply NoDup_singleton]); intros x Hx ->%list_elem_of_singleton;
      apply list_elem_of_fmap in Hx as (f & Hx & Hf).
    + apply next_id_spec in Hf. simpl in Hx. lia.
    + injection Hx as Hs Hr. by eapply row_at_none.
Qed.
Lemma upserts_ok ws t : table_ok t → table_ok (foldl upsert t ws).
Proof. revert t. induction ws as [|w ws IH]; intros t Ht; simpl; [done|]. by apply IH, upsert_ok. Qed.

(** The rows of the other sources. *)
Definition others (t : table) : table := List.filter (λ f, negb (f_SourceID f =? sc_sourceID c)) t.
Lemma others_fmap g t : keeps_key g → (∀ f, f ∈ t → f_SourceID f ≠ sc_sourceID c → g f = f) → others (g <$> t) = others t.
Proof.
  intros Hg. induction t as [|f t IH]; intros Hf; [done|]. rewrite fmap_cons. unfold others in *. cbn [List.filter]. rewrite (proj1 (Hg f)).
  rewrite IH by (intros; apply Hf; [by right|done]). destruct (Z.eqb_spec (f_SourceID f) (sc_sourceID c)); cbn [negb]; [done|]. f_equal. apply Hf; [left|done].
Qed.
Lemma others_upsert t w : others (upsert t w) = others t.
Proof.
  unfold CatalogScan.upsert. destruct (row_at (wk_rel w) t).
  - apply others_fmap; [apply keeps_seen|]. intros g _ Hg. unfold is_row. by rewrite (proj2 (Z.eqb_neq _ _) Hg).
  - unfold others. rewrite List.filter_app. simpl. by rewrite Z.eqb_refl, app_nil_r.
Qed.
Lemma others_upserts ws t : others (foldl upsert t ws) = others t.
Proof. revert t. induction ws as [|w ws IH]; intros t; simpl; [done|]. by rewrite IH, others_upsert. Qed.

(** Files that agree when they have the same path. *)
Definition one_each (ws : list walked) : Prop := ∀ w w', w ∈ ws → w' ∈ ws → wk_rel w = wk_rel w' → w = w'.
Lemma upserts_other ws t rel : (∀ w, w ∈ ws → wk_rel w ≠ rel) → row_at rel (foldl upsert t ws) = row_at rel t.
Proof.
  revert t. induction ws as [|w ws IH]; intros t Hws; simpl; [done|]. rewrite IH by (intros; apply Hws; by right).
  rewrite row_at_upsert, decide_False; [done|]. apply Hws. left.
Qed.
Lemma upserts_row ws t w : one_each ws → w ∈ ws → ∃ f, row_at (wk_rel w) (foldl upsert t ws) = Some f ∧ written t w (row_at (wk_rel w) t) f.
Proof.
  induction ws as [|x ws IH] using rev_ind; intros Hone Hw; [by apply elem_of_nil in Hw|]. rewrite foldl_app. simpl. rewrite row_at_upsert.
  case_decide as Hx.
  - assert (x = w) as -> by (apply Hone; [apply elem_of_app; right; left|done|done]). eexists. split; [reflexivity|].
    destruct (decide (w ∈ ws)) as [Hin|Hin].
    + destruct IH as (f & -> & (_ & _ & _ & _ & Hf)); [intros ????; apply Hone; apply elem_of_app; by left|done|]. by split_and!.
    + rewrite upserts_other. 2: { intros y Hy E. apply Hin. rewrite <-(Hone y w); [done|apply elem_of_app; by left|done|done]. }
      destruct (row_at (wk_rel w) t); split_and!; try done. simpl. apply next_id_upserts.
  - apply elem_of_app in Hw as [Hw| ->%list_elem_of_singleton]; [|done]. apply IH; [intros ????; apply Hone; apply elem_of_app; by left|done].
Qed.

(** Rows touched, marked, grouped: one function each. *)
Definition touched (ids : list Z) (f : File) : File :=
  if mem (f_ID f) ids then mkFile (f_ID f) (f_SourceID f) (f_RelPath f) (f_Meta f) (f_HardlinkGroup f) (f_FirstSeenAt f) (sc_stamp c) (f_DeletedAt f) else f.
Lemma keeps_touched ids : keeps_key (touched ids).
Proof. intros f. unfold touched. by destruct (mem _ ids). Qed.
Lemma touch_nil t : touch c [] t = t.
Proof. induction t as [|f t IH]; [done|]. unfold touch in *. rewrite fmap_cons. by rewrite IH. Qed.
Lemma mem_app x (l k : list Z) : mem x (l ++ k)%list = mem x l || mem x k.
Proof. unfold mem. rewrite <-bool_decide_or. apply bool_decide_ext, elem_of_app. Qed.
Lemma touch_app l k t : touch c (l ++ k)%list t = touch c k (touch c l t).
Proof.
  unfold touch. rewrite <-list_fmap_compose. apply list_fmap_ext. intros _ f _. simpl. rewrite mem_app. destruct (mem (f_ID f) l); simpl; [|done]. by destruct (mem (f_ID f) k).
Qed.

Definition ungroup : File → File := with_group None.
Definition regroups (g : File → File) : Prop := keeps_key g ∧ ∀ f, ungroup (g f) = ungroup f.
Lemma row_at_regroup g rel t : regroups g → ungroup <$> row_at rel (g <$> t) = ungroup <$> row_at rel t.
Proof. intros [Hk Hg]. rewrite row_at_fmap by done. rewrite <-option_fmap_compose. apply option_fmap_ext. apply Hg. Qed.
Lemma regroups_set gid x : regroups (λ f, if is_row c (wk_rel x) f then with_group (Some gid) f else f).
Proof. split; intros f; by destruct (is_row c (wk_rel x) f). Qed.
Lemma regroups_clear : regroups (λ f, if f_SourceID f =? sc_sourceID c then with_group None f else f).
Proof. split; intros f; by destruct (f_SourceID f =? sc_sourceID c). Qed.
Lemma keeps_mark dirs : keeps_key (λ f, if unseen c dirs f then deleted_row c f else f).
Proof. intros f. by destruct (unseen c dirs f). Qed.
Lemma set_groups_rows P seq n gs t : (∀ gid x t, P t → P (set_group c gid t x)) → P t → P (set_groups c seq n gs t).
Proof.
  intros HP. revert n t. induction gs as [|g gs IH]; intros n t Ht; simpl; [done|]. apply IH. clear IH gs. generalize (sc_sourceID c, seq, n). intros gid. clear n.
  revert t Ht. induction g as [|x g IH]; intros t Ht; simpl; [done|]. by apply IH, HP.
Qed.
(** The rows that a finished scan leaves, but for their groups. *)
Lemma finished_row dirs seq n gs t rel :
  ungroup <$> row_at rel (set_groups c seq n gs (clear_groups c (mark_unseen c dirs t))) =
  (λ f, ungroup (if unseen c dirs f then deleted_row c f else f)) <$> row_at rel t.
Proof.
  apply (set_groups_rows (λ t', ungroup <$> row_at rel t' = _)).
  - intros gid x t' <-. apply row_at_regroup, regroups_set.
  - unfold clear_groups. rewrite row_at_regroup by apply regroups_clear. unfold mark_unseen. rewrite row_at_fmap by apply keeps_mark. by rewrite <-option_fmap_compose.
Qed.
Lemma finished_others dirs seq n gs t : others (set_groups c seq n gs (clear_groups c (mark_unseen c dirs t))) = others t.
Proof.
  apply (set_groups_rows (λ t', others t' = _)).
  - intros gid x t' <-. apply others_fmap; [apply regroups_set|]. intros f _ Hf. unfold is_row. by rewrite (proj2 (Z.eqb_neq _ _) Hf).
  - unfold clear_groups. rewrite others_fmap; [|apply regroups_clear|intros f _ Hf; by rewrite (proj2 (Z.eqb_neq _ _) Hf)].
    apply others_fmap; [apply keeps_mark|]. intros f _ Hf. unfold unseen. by rewrite (proj2 (Z.eqb_neq _ _) Hf).
Qed.
End rows.

(** ** The transactions of a scan *)

Section commits.
Context (c : scanner) (Hbatch : (0 < sc_batchSize c)%nat).

Lemma write_files_ok g s s' : write_files c g s = (Ok tt, s') →
  w_files (t_w s') = g (w_files (t_w s)) ∧ w_source (t_w s') = w_source (t_w s) ∧ t_s s' = t_s s.
Proof. unfold write_files, db_try, sbind. simpl. destruct (sc_db c _); simpl; [done|]. by intros [= <-]. Qed.
Lemma sbind_ok {A B} (m : Scan A) (k : A → Scan B) s b s' : sbind m k s = (Ok b, s') ↔ ∃ a s1, m s = (Ok a, s1) ∧ k a s1 = (Ok b, s').
Proof. unfold sbind. destruct (m s) as [[a|e] s1]; naive_solver. Qed.
Lemma in_batches_ok {A} (G : list A → table → table) fuel l s s' :
  (∀ t, G [] t = t) → (∀ a b t, G (a ++ b)%list t = G b (G a t)) → (length l ≤ fuel)%nat → in_batches c fuel (λ x, write_files c (G x)) l s = (Ok tt, s') →
  w_files (t_w s') = G l (w_files (t_w s)) ∧ w_source (t_w s') = w_source (t_w s) ∧ t_s s' = t_s s.
Proof.
  intros HG0 HG. revert l s. induction fuel as [|fuel IH]; intros l s Hl.
  { destruct l; [|simpl in Hl; lia]. simpl. intros [= <-]. by rewrite HG0. }
  destruct l as [|x l]; [simpl; intros [= <-]; by rewrite HG0|]. cbn [in_batches]. intros ([] & s1 & Hw & Hr)%sbind_ok.
  apply write_files_ok in Hw as (H1 & H2 & H3). apply IH in Hr as (H4 & H5 & H6).
  - rewrite H4, H1, <-HG, take_drop. split_and!; congruence.
  - rewrite length_drop. simpl in *. lia.
Qed.
Lemma commit_ok s s' : commit c s = (Ok tt, s') →
  w_files (t_w s') = touch c (s_seen (t_s s)) (foldl (upsert c) (w_files (t_w s)) (s_pending (t_s s))) ∧ w_source (t_w s') = w_source (t_w s) ∧ t_s s' = t_s s.
Proof.
  unfold commit. intros (s0 & s1 & [= <- <-] & ([] & s2 & H1 & H2)%sbind_ok)%sbind_ok.
  apply (in_batches_ok (λ x t, foldl (upsert c) t x)) in H1 as (H3 & H4 & H5); [|done|intros; apply foldl_app|done].
  apply (in_batches_ok (touch c)) in H2 as (H6 & H7 & H8); [|apply touch_nil|apply touch_app|done]. rewrite H6, H3. split_and!; congruence.
Qed.
Lemma finish_ok ident s s' : finish c ident s = (Ok tt, s') →
  ∃ row now, w_source (t_w s) = Some row ∧ t_w s' = finished c ident (t_s s) now row (w_files (t_w s)) ∧ t_past s' = t_w s' :: t_past s.
Proof.
  unfold finish. intros (s0 & s1 & [= <- <-] & (now & s2 & [= Hn <-] & ([] & s3 & H1 & H2)%sbind_ok)%sbind_ok)%sbind_ok.
  apply sbind_ok in H1 as (stop & s4 & [= E1 <-] & H1). destruct stop; [done|]. injection H1 as <-. apply sbind_ok in H2 as (w & s5 & [= <- <-] & H2). simpl in H2.
  destruct (w_source (t_w s)) as [row|]; [|done]. injection H2 as <-. by exists row, now.
Qed.

(** Building the groups changes no table, and nothing of the scan but its groups and warnings. *)
Definition calm {A} (m : Scan A) : Prop := ∀ s, let s' := (m s).2 in
  t_w s' = t_w s ∧ t_past s' = t_past s ∧ s_pending (t_s s') = s_pending (t_s s) ∧ s_seen (t_s s') = s_seen (t_s s) ∧ s_unreadable (t_s s') = s_unreadable (t_s s).
Lemma calm_ret {A} (a : A) : calm (sret a).
Proof. by intros s. Qed.
Lemma calm_fail {A} e : calm (sfail e : Scan A).
Proof. by intros s. Qed.
Lemma calm_bind {A B} (m : Scan A) (k : A → Scan B) : calm m → (∀ a, calm (k a)) → calm (sbind m k).
Proof.
  intros Hm Hk s. specialize (Hm s). unfold sbind. destruct (m s) as [[a|e] s1]; simpl in *; [|done]. specialize (Hk a s1). destruct Hm as (?&?&?&?&?), Hk as (?&?&?&?&?). split_and!; congruence.
Qed.
Lemma calm_warn : calm warn.
Proof. by intros s. Qed.
Lemma calm_group g : calm (set_scan (sc_group g)).
Proof. by intros s. Qed.
Lemma calm_ctx : calm (check_ctx c).
Proof. intros s. unfold check_ctx, sbind. simpl. by destruct (sc_cancel c _). Qed.
Create HintDb calm.
#[local] Hint Resolve calm_ret calm_fail calm_warn calm_group calm_ctx calm_bind : calm.
Lemma calm_confirm first g : calm (confirm c first g).
Proof.
  revert first. induction g as [|x g IH]; intros first; simpl; [auto with calm|]. destruct (sc_hash c _ _) as [h|e].
  - destruct first as [h0|]; [|done]. case_bool_decide; auto with calm.
  - destruct (isFatalIO e); auto with calm.
Qed.
#[local] Hint Resolve calm_confirm : calm.
Lemma calm_groups fuse : calm (buildGroups c fuse).
Proof.
  unfold buildGroups. apply calm_bind; [by intros s|]. intros s. destruct (planGroups _) as [gs n]. apply calm_bind; [|intros _].
  - induction n; simpl; auto with calm.
  - destruct fuse; induction gs as [|g gs IH]; simpl; auto with calm.
    apply calm_bind; [auto with calm|intros _]. apply calm_bind; [auto with calm|]. intros [|]; auto with calm.
Qed.

Lemma flush_empty s s' : flushLookup c s = (Ok tt, s') → s_lookup (t_s s') = [].
Proof.
  unfold flushLookup. intros (s0 & s1 & [= <- <-] & H)%sbind_ok. case_bool_decide as E; [by injection H as <-|].
  apply sbind_ok in H as ([] & s2 & _ & (w & s3 & [= <- <-] & [= <-])%sbind_ok). done.
Qed.
Lemma lift_ok {A} (r : result refused A) s a s' : lift r s = (Ok a, s') ↔ r = Ok a ∧ s' = s.
Proof. destruct r; simpl; split; [by intros [= <- <-]|by intros [[= <-] ->]|done|by intros [? _]]. Qed.

Lemma confirm_groups first g s : s_groups (t_s (confirm c first g s).2) = s_groups (t_s s).
Proof.
  revert first s. induction g as [|x g IH]; intros first s; [done|]. cbn [confirm]. destruct (sc_hash c _ _) as [h|e]; [|by destruct (isFatalIO e)].
  destruct first as [h0|]; [|apply IH]. case_bool_decide; [apply IH|done].
Qed.
Lemma add_groups_spec gs s : (add_groups gs s).1 = Ok tt ∧ s_groups (t_s (add_groups gs s).2) = (s_groups (t_s s) ++ gs)%list.
Proof.
  revert s. induction gs as [|g gs IH]; intros s; simpl; [by rewrite app_nil_r|]. unfold sbind. simpl. destruct (IH (mkSt (t_w s) (t_past s) (t_n s) (sc_group g (t_s s)))) as [-> ->].
  split; [done|]. simpl. by rewrite <-app_assoc.
Qed.
Lemma warn_times_spec n s : (warn_times n s).1 = Ok tt ∧ s_groups (t_s (warn_times n s).2) = s_groups (t_s s).
Proof. revert s. induction n as [|n IH]; intros s; simpl; [done|]. unfold sbind. simpl. by destruct (IH (mkSt (t_w s) (t_past s) (t_n s) (sc_warn (t_s s)))) as [-> ->]. Qed.
(** The groups a scan keeps: all that were planned, or on a FUSE file system those whose names
    have one hash. *)
Definition same_content (g : list walked) : Prop := ∃ h, ∀ x, x ∈ g → sc_hash c (wk_rel x) (wk_m x) = Ok h.
Definition groups_of (fuse : bool) (planned gs : list (list walked)) : Prop :=
  if fuse then ∀ g, g ∈ gs → g ∈ planned ∧ same_content g else gs = planned.
Lemma confirm_spec h g s : (confirm c (Some h) g s).1 = Ok true → ∀ x, x ∈ g → sc_hash c (wk_rel x) (wk_m x) = Ok h.
Proof.
  revert s. induction g as [|y g IH]; intros s Hc x Hx; [by apply elem_of_nil in Hx|]. cbn [confirm] in Hc. destruct (sc_hash c (wk_rel y) (wk_m y)) as [h'|e] eqn:E; [|by destruct (isFatalIO e)].
  case_bool_decide; [subst h'|done]. apply elem_of_cons in Hx as [->|Hx]; [done|]. by eapply IH.
Qed.
Lemma confirm_same g s : (confirm c None g s).1 = Ok true → same_content g.
Proof.
  destruct g as [|y g]; [exists ""; by intros x ?%elem_of_nil|]. cbn [confirm]. destruct (sc_hash c (wk_rel y) (wk_m y)) as [h|e] eqn:E; [|by destruct (isFatalIO e)].
  intros Hc. exists h. intros x [->|Hx]%elem_of_cons; [done|]. by eapply confirm_spec.
Qed.
Lemma confirm_all_groups gs s s' : (∀ g, g ∈ s_groups (t_s s) → same_content g) → confirm_all c gs s = (Ok tt, s') →
  ∀ g, g ∈ s_groups (t_s s') → g ∈ s_groups (t_s s) ∨ g ∈ gs ∧ same_content g.
Proof.
  revert s. induction gs as [|x gs IH]; intros s Hs; [intros [= <-]; by left|]. cbn [confirm_all]. intros ([] & s1 & H1 & (ok & s2 & H2 & ([] & s3 & H3 & H4)%sbind_ok)%sbind_ok)%sbind_ok.
  assert (Hg1 : s_groups (t_s s1) = s_groups (t_s s)). { unfold check_ctx, sbind in H1. simpl in H1. destruct (sc_cancel c _); [done|]. by injection H1 as <-. }
  assert (Hg2 : s_groups (t_s s2) = s_groups (t_s s1)). { pose proof (confirm_groups None x s1) as Hq. by rewrite H2 in Hq. }
  assert (Hsame : ok = true → same_content x). { intros ->. apply (confirm_same x s1). by rewrite H2. }
  assert (Hg3 : ∀ g, g ∈ s_groups (t_s s3) → g ∈ s_groups (t_s s) ∨ g = x ∧ same_content x).
  { intros g Hg. destruct ok; injection H3 as <-; simpl in Hg; rewrite Hg2, Hg1 in Hg; [|by left]. apply elem_of_app in Hg as [Hg|Hg%list_elem_of_singleton]; [by left|]. right. auto. }
  intros g Hg. apply (IH s3) in Hg; [|intros y Hy; destruct (Hg3 y Hy) as [|[-> ?]]; auto|done]. destruct Hg as [Hg|[? ?]]; [|right; split; [by right|done]].
  destruct (Hg3 g Hg) as [|[-> ?]]; [by left|]. right. split; [left|done].
Qed.
Lemma groups_built fuse s : (buildGroups c fuse s).1 = Ok tt → s_groups (t_s s) = [] →
  groups_of fuse (planGroups (snd <$> map_to_list (s_links (t_s s)))).1 (s_groups (t_s (buildGroups c fuse s).2)).
Proof.
  unfold buildGroups, sbind, get_scan. destruct (planGroups _) as [gs n]. destruct (warn_times_spec n s) as [Hw Hg]. destruct (warn_times n s) as [r s1]. simpl in Hw, Hg. subst r.
  intros Hr Hs. rewrite Hs in Hg. destruct fuse; simpl.
  - destruct (confirm_all c gs s1) as [[[]|] s2] eqn:E; [|done]. intros g Hin. simpl in Hin. eapply confirm_all_groups in Hin as [Hin|]; [|done| |exact E].
    + rewrite Hg in Hin. by apply elem_of_nil in Hin.
    + rewrite Hg. by intros ? ?%elem_of_nil.
  - destruct (add_groups_spec gs s1) as [_ Ha]. rewrite Ha. by rewrite Hg.
Qed.

(** The rows after a scan that took place in [t]: [x] is what it saw. *)
Definition table_after (t : table) (x : sight) (seq : Z) (gs : list (list walked)) : table :=
  set_groups c seq 1 gs (clear_groups c (mark_unseen c x.2
    (touch c (omap (unchanged c t) x.1) (foldl (upsert c) t (List.filter (λ w, bool_decide (unchanged c t w = None)) x.1))))).
Lemma run_ok row live v s s' : t_s s = no_scan → run c row live v s = (Ok tt, s') →
  ∃ ident forbidden key row' gs, openRoot row (sv_root v) = Ok ident ∧
    loadForbidden c (sv_roots v) ident (sv_keyFile v) (sv_keyRead v) (sv_rootKey v) = Ok (forbidden, key) ∧
    w_source (t_w s) = Some row' ∧
    groups_of (ri_fuse ident) (planGroups (snd <$> map_to_list (foldl add_link ∅ (look_dir c forbidden key (sv_tree v) ".").1))).1 gs ∧
    w_files (t_w s') = table_after (w_files (t_w s)) (look_dir c forbidden key (sv_tree v) ".") (sr_scanSeq row' + 1) gs.
Proof.
  intros Hs. unfold run. intros (ident & s0 & [Hi ->]%lift_ok & H)%sbind_ok. apply sbind_ok in H as ([forbidden key] & s1 & Hl & H).
  destruct (loadForbidden _ _ _ _ _ _) as [[forbidden' key']|] eqn:El; [|done]. injection Hl as <- <- <-.
  apply sbind_ok in H as ([] & s2 & Hwalk & H). apply sbind_ok in H as ([] & s3 & Hflush & H). apply sbind_ok in H as (st0 & s4 & [= <- <-] & H).
  pose proof (flush_empty _ _ Hflush) as Hempty. set (x := look_dir c forbidden' key' (sv_tree v) ".").
  assert (collected c (w_files (t_w s)) x.1 x.2 (t_s s3) ∧ t_w s3 = t_w s) as [Hcol Hw3].
  { destruct (proj1 (gathers_walk c (w_files (t_w s)) forbidden' key') (sv_tree v) "." s eq_refl) as [[Hw1 _] Hc1]. rewrite Hwalk in Hw1, Hc1. simpl in Hw1, Hc1.
    assert (Hf2 : w_files (t_w s2) = w_files (t_w s)) by (by rewrite Hw1).
    destruct (gathers_flush c _ s2 Hf2) as [[Hw2 _] Hc2]. rewrite Hflush in Hw2, Hc2. simpl in Hw2, Hc2. split; [|congruence].
    specialize (Hc2 eq_refl x.1 x.2). rewrite !app_nil_r in Hc2. apply Hc2. apply (Hc1 eq_refl [] []). rewrite Hs. split; try done. by exists []. }
  destruct Hcol as [_ (done & Hdone & Hpend & Hseen) Hlinks Hgs Hun]. rewrite Hempty, app_nil_r in Hdone. subst done.
  destruct (_ && _); [done|]. apply sbind_ok in H as ([] & s5 & Hg & H). apply sbind_ok in H as ([] & s6 & Hc & Hf).
  pose proof (calm_groups (ri_fuse ident) s3) as Hq. rewrite Hg in Hq. simpl in Hq. destruct Hq as (Hq1 & _ & Hq3 & Hq4 & Hq5).
  apply commit_ok in Hc as (Hc1 & Hc2 & Hc3). apply finish_ok in Hf as (row' & now & Hrow & Hw & _).
  exists ident, forbidden', key', row', (s_groups (t_s s6)). split_and!; [done|done|congruence| |].
  - rewrite Hc3. pose proof (groups_built (ri_fuse ident) s3) as Hp. rewrite Hg, Hlinks in Hp. by apply Hp.
  - rewrite Hw. unfold finished, table_after. cbn [w_files]. by rewrite Hc1, Hc3, Hq1, Hw3, Hq3, Hq4, Hq5, Hpend, Hseen, Hun.
Qed.
End commits.

(** ** The rows after a scan *)

Section records.
Context (c : scanner).

(** The row of a file that was seen, from the one there was. *)
Definition seen_live (m : Meta) (old : option File) (f : File) : Prop :=
  f_Meta f = m ∧ f_DeletedAt f = None ∧ f_LastSeenAt f = sc_stamp c ∧
  match old with Some f0 => f_ID f = f_ID f0 ∧ f_FirstSeenAt f = f_FirstSeenAt f0 | None => f_FirstSeenAt f = sc_stamp c end.
Definition under (rel d : string) : Prop := has_prefix rel (d +:+ "/") = true.
(** What becomes of a path: what was seen is live, what was not is marked deleted, unless it is
    under a folder that could not be read; what was deleted stays so. *)
Definition recorded (saw : walked → Prop) (lost : string → Prop) (t t' : table) (rel : string) : Prop :=
  (∀ m, saw (mkWalked rel m) → ∃ f, row_at c rel t' = Some f ∧ seen_live m (row_at c rel t) f) ∧
  ((∀ m, ¬ saw (mkWalked rel m)) →
     match row_at c rel t with
     | None => row_at c rel t' = None
     | Some f =>
         ∃ f', row_at c rel t' = Some f' ∧
           (f_live f = true ∧ (∀ d, lost d → ¬ under rel d) → ungroup f' = deleted_row c f) ∧
           (f_live f = false ∨ (∃ d, lost d ∧ under rel d) → ungroup f' = ungroup f)
     end).
Definition fresh_stamp (t : table) : Prop := ∀ f, f ∈ t → f_SourceID f = sc_sourceID c → f_LastSeenAt f ≠ sc_stamp c.

Lemma plain_not_under name d : plain name → ¬ under name d.
Proof.
  intros [_ Hn] (r & E)%has_prefix_spec. apply (f_equal bytes) in E. rewrite !bytes_app, <-app_assoc in E. rewrite E in Hn. apply Forall_app in Hn as [_ Hn]. by inversion Hn.
Qed.
Lemma under_spec dirs rel : underUnreadable dirs rel = true ↔ ∃ d, d ∈ dirs ∧ under rel d.
Proof. unfold underUnreadable. by rewrite existsb_elem. Qed.
Lemma unchanged_spec t w id : unchanged c t w = Some id ↔ ∃ f, row_at c (wk_rel w) t = Some f ∧ f_DeletedAt f = None ∧ f_Meta f = wk_m w ∧ f_ID f = id.
Proof.
  unfold unchanged, f_live. destruct (row_at c (wk_rel w) t) as [f|]; [|naive_solver]. destruct (bool_decide (f_DeletedAt f = None)) eqn:E1, (bool_decide (f_Meta f = wk_m w)) eqn:E2; simpl;
    rewrite ?bool_decide_eq_true, ?bool_decide_eq_false in *; naive_solver.
Qed.

Section after.
Context (t : table) (x : sight) (Hok : table_ok t) (Hone : one_each x.1).
Local Abbreviation written_files := (List.filter (λ w, bool_decide (unchanged c t w = None)) x.1).
Local Abbreviation same_ids := (omap (unchanged c t) x.1).

Lemma one_written : one_each written_files.
Proof. intros w w' [Hw _]%filter_bool_elem [Hw' _]%filter_bool_elem. by apply Hone. Qed.
(** An id that was seen is the id of the row of a file that was seen. *)
Lemma same_id f : f ∈ t → f_SourceID f = sc_sourceID c → mem (f_ID f) same_ids = true → ∃ w, w ∈ x.1 ∧ wk_rel w = f_RelPath f.
Proof.
  intros Hf Hs Hm. apply mem_spec, list_elem_of_omap in Hm as (w & Hw & (g & Hg & _ & _ & Hid)%unchanged_spec). exists w. split; [done|].
  apply row_at_spec in Hg as (Hg & _ & <-). f_equal. by eapply (NoDup_fmap_inj_on f_ID); [apply Hok|..].
Qed.
Lemma ids_ours f : f ∈ t → mem (f_ID f) same_ids = true → f_SourceID f = sc_sourceID c.
Proof.
  intros Hf Hm. apply mem_spec, list_elem_of_omap in Hm as (w & Hw & (g & Hg & _ & _ & Hid)%unchanged_spec). apply row_at_spec in Hg as (Hg & <- & _). f_equal.
  symmetry. by eapply (NoDup_fmap_inj_on f_ID); [apply Hok|..].
Qed.
Lemma row_after rel seq gs : ungroup <$> row_at c rel (table_after c t x seq gs) =
  (λ f, let f := touched c same_ids f in ungroup (if unseen c x.2 f then deleted_row c f else f)) <$> row_at c rel (foldl (upsert c) t written_files).
Proof. unfold table_after. rewrite finished_row. unfold touch. rewrite row_at_fmap by apply keeps_touched. by rewrite <-option_fmap_compose. Qed.
Lemma seen_row w seq gs : w ∈ x.1 → ∃ f, row_at c (wk_rel w) (table_after c t x seq gs) = Some f ∧ seen_live (wk_m w) (row_at c (wk_rel w) t) f.
Proof.
  intros Hw. pose proof (row_after (wk_rel w) seq gs) as Hrow.
  assert (∃ f0, row_at c (wk_rel w) (foldl (upsert c) t written_files) = Some f0 ∧ seen_live (wk_m w) (row_at c (wk_rel w) t) (touched c same_ids f0)) as (f0 & E & Hf0).
  { destruct (unchanged c t w) as [id|] eqn:Eu.
    - assert (Hm : mem id same_ids = true) by (apply mem_spec, list_elem_of_omap; eauto). apply unchanged_spec in Eu as (f & Hf & Hd & Hm' & <-). exists f. rewrite upserts_other.
      + split; [done|]. rewrite Hf. unfold touched. by rewrite Hm.
      + intros y [Hy Hu]%filter_bool_elem E. rewrite (Hone y w) in Hu by done. apply bool_decide_eq_true in Hu. assert (unchanged c t w = Some (f_ID f)); [|congruence].
        apply unchanged_spec. eauto.
    - destruct (upserts_row c written_files t w one_written) as (f & Hf & Hr1 & Hr2 & Hr3 & _ & Hr4); [apply filter_bool_elem; by rewrite Eu|].
      exists f. split; [done|]. unfold touched. destruct (mem _ _); split_and!; try done; by destruct (row_at c (wk_rel w) t); destruct_and?. }
  rewrite E in Hrow. cbn [fmap option_fmap option_map] in Hrow. destruct (row_at c (wk_rel w) (table_after c t x seq gs)) as [f|]; [|done]. exists f. split; [done|]. simpl in Hrow.
  destruct Hf0 as (H1 & H2 & H3 & H4). assert (unseen c x.2 (touched c same_ids f0) = false) as Hu. { unfold unseen. by rewrite H3, Z.eqb_refl, andb_false_r. }
  rewrite Hu in Hrow. injection Hrow as ???????. split_and!; try congruence. destruct (row_at c (wk_rel w) t); [destruct H4; split|]; congruence.
Qed.
Lemma unseen_row rel seq gs : fresh_stamp t → (∀ w, w ∈ x.1 → wk_rel w ≠ rel) →
  match row_at c rel t with
  | None => row_at c rel (table_after c t x seq gs) = None
  | Some f =>
      ∃ f', row_at c rel (table_after c t x seq gs) = Some f' ∧
        (f_live f = true ∧ (∀ d, d ∈ x.2 → ¬ under rel d) → ungroup f' = deleted_row c f) ∧
        (f_live f = false ∨ (∃ d, d ∈ x.2 ∧ under rel d) → ungroup f' = ungroup f)
  end.
Proof.
  intros Hfresh Hno. pose proof (row_after rel seq gs) as Hrow. rewrite upserts_other in Hrow by (intros w [Hw _]%filter_bool_elem; by apply Hno).
  destruct (row_at c rel t) as [f|] eqn:E; cbn [fmap option_fmap option_map] in Hrow; [|by destruct (row_at c rel (table_after c t x seq gs))].
  destruct (row_at c rel (table_after c t x seq gs)) as [f'|]; [|done]. exists f'. split; [done|]. apply (inj Some) in Hrow.
  destruct (row_at_spec _ _ _ _ E) as (Hf & Hs & Hr). assert (mem (f_ID f) same_ids = false) as Hm.
  { destruct (mem (f_ID f) same_ids) eqn:Hm; [|done]. destruct (same_id f Hf Hs Hm) as (w & Hw & Hw'). by destruct (Hno w Hw); congruence. }
  unfold touched in Hrow. rewrite Hm in Hrow. unfold unseen in Hrow. rewrite Hs, Z.eqb_refl, (proj2 (Z.eqb_neq _ _) (Hfresh f Hf Hs)), Hr in Hrow. cbn [negb andb] in Hrow.
  pose proof (under_spec x.2 rel) as Hu. split.
  - intros [Hl Hd]. rewrite Hl in Hrow. destruct (underUnreadable x.2 rel); [|done]. destruct (proj1 Hu eq_refl) as (d & Hd1 & Hd2). by destruct (Hd d Hd1 Hd2).
  - intros [Hl|Hd]; [by rewrite Hl in Hrow|]. apply Hu in Hd. rewrite Hd, andb_false_r in Hrow. exact Hrow.
Qed.
Lemma others_after seq gs : others c (table_after c t x seq gs) = others c t.
Proof.
  unfold table_after. rewrite finished_others. transitivity (others c (foldl (upsert c) t written_files)); [|apply others_upserts].
  apply (others_fmap c (touched c same_ids)); [apply keeps_touched|]. intros f Hf Hs.
  assert (Hft : f ∈ others c (foldl (upsert c) t written_files)) by (apply filter_bool_elem; by rewrite (proj2 (Z.eqb_neq _ _) Hs)).
  rewrite others_upserts in Hft. apply filter_bool_elem in Hft as [Hft _]. unfold touched. destruct (mem (f_ID f) same_ids) eqn:Hm; [|done]. by destruct Hs; apply ids_ours.
Qed.
End after.

Definition saw_in (forbidden : gmap devIno string) (key : option master_key) (v : scan_view) : walked → Prop := sees c forbidden key (sv_tree v) ".".
Definition lost_in (forbidden : gmap devIno string) (key : option master_key) (v : scan_view) : string → Prop := misses c forbidden key (sv_tree v) ".".
Lemma scan_done v s s' : scan c v s = (Ok tt, s') → ∃ row s0, w_source (t_w s) = Some row ∧ t_w s0 = t_w s ∧ t_s s0 = no_scan ∧
  run c row (count_live c (w_files (t_w s))) v s0 = (Ok tt, s').
Proof.
  unfold scan. intros ([] & s1 & H1 & H)%sbind_ok. apply sbind_ok in H as (w & s2 & [= <- <-] & H).
  assert (t_w s1 = t_w s) as Hw1. { unfold db_try, sbind in H1. simpl in H1. destruct (sc_db c _); [done|]. by injection H1 as <-. }
  rewrite Hw1 in H. destruct (w_source (t_w s)) as [row|]; [|done]. apply sbind_ok in H as ([] & s3 & H3 & H). apply sbind_ok in H as ([] & s4 & [= <-] & H).
  assert (t_w s3 = t_w s1) as Hw3. { unfold db_try, sbind in H3. simpl in H3. destruct (sc_db c _); [done|]. by injection H3 as <-. }
  exists row. eexists. split; [done|]. split; [|split; [|destruct (run _ _ _ _ _) as [[[]|e] s5] eqn:Er in H; [injection H as <-; exact Er|]]].
  - simpl. congruence.
  - done.
  - unfold recordScanFailure, sbind, ask, get_world in H. cbn in H. by destruct (sc_cancel c (t_n s5)); [|destruct (sc_db c _)].
Qed.
End records.


(** A scan that succeeds: in batches of at least one file, on rows with ids and paths of their own
    and older stamps, of folders that list each name once. *)
Record succeeded (c : scanner) (v : scan_view) (s s' : st) (ident : rootIdentity) (forbidden : gmap devIno string) (key : option master_key) : Prop := mkSucceeded {
  su_batch : (0 < sc_batchSize c)%nat;
  su_table : table_ok (w_files (t_w s));
  su_stamp : fresh_stamp c (w_files (t_w s));
  su_named : named (sv_tree v);
  su_root : ∃ row, w_source (t_w s) = Some row ∧ openRoot row (sv_root v) = Ok ident;
  su_forbidden : loadForbidden c (sv_roots v) ident (sv_keyFile v) (sv_keyRead v) (sv_rootKey v) = Ok (forbidden, key);
  su_scan : scan c v s = (Ok tt, s');
}.
Section success.
Context (c : scanner) (v : scan_view) (s s' : st) (ident : rootIdentity) (forbidden : gmap devIno string) (key : option master_key).
Context (Hs : succeeded c v s s' ident forbidden key).
#[local] Abbreviation seen_files := (look_dir c forbidden key (sv_tree v) ".").

Lemma seen_spec : (∀ w, w ∈ seen_files.1 ↔ saw_in c forbidden key v w) ∧ (∀ p, p ∈ seen_files.2 ↔ lost_in c forbidden key v p) ∧
  one_each seen_files.1 ∧ NoDup (wk_rel <$> seen_files.1).
Proof.
  destruct (proj1 (look_spec c forbidden key) (sv_tree v) ".") as [Hsees Hmiss]. split_and!; [done|done| |apply (proj1 (look_once c forbidden key)); by eapply su_named].
  intros w w' Hw%Hsees Hw'%Hsees E. symmetry. eapply sees_one; [done|by eapply su_named|done|done].
Qed.
Lemma success_files : ∃ seq gs, w_files (t_w s') = table_after c (w_files (t_w s)) seen_files seq gs ∧
  groups_of c (ri_fuse ident) (planGroups (snd <$> map_to_list (foldl add_link ∅ seen_files.1))).1 gs.
Proof.
  destruct Hs as [Hb Hok Hfresh Hnamed (row & Hrow & Hi) Hl (row' & s0 & Hrow' & Hw0 & Hs0 & Hrun)%scan_done]. assert (row' = row) as -> by congruence.
  apply run_ok in Hrun as (ident' & forbidden' & key' & row' & gs & Hi' & Hl' & _ & Hgs & Hfiles); [|done|done]. rewrite Hi in Hi'. injection Hi' as <-. rewrite Hl in Hl'. injection Hl' as <- <-.
  rewrite Hw0 in Hfiles. eauto.
Qed.
Lemma success_recorded : others c (w_files (t_w s')) = others c (w_files (t_w s)) ∧
  ∀ rel, recorded c (saw_in c forbidden key v) (lost_in c forbidden key v) (w_files (t_w s)) (w_files (t_w s')) rel.
Proof.
  destruct success_files as (seq & gs & -> & _), seen_spec as (Hsees & Hmiss & Hone & _). pose proof (su_table _ _ _ _ _ _ _ Hs) as Hok. pose proof (su_stamp _ _ _ _ _ _ _ Hs) as Hfresh.
  split; [by apply others_after|]. intros rel. split.
  - intros m Hm%Hsees. by apply (seen_row c _ seen_files Hone (mkWalked rel m)).
  - intros Hno. assert (Hnone : ∀ w, w ∈ seen_files.1 → wk_rel w ≠ rel) by (intros [p m] Hw <-; by apply (Hno m), Hsees).
    pose proof (unseen_row c _ seen_files Hok rel seq gs Hfresh Hnone) as Hu. destruct (row_at c rel (w_files (t_w s))); [|done]. by setoid_rewrite <-Hmiss.
Qed.
End success.

(** *** A scan to try the claims on *)

Definition sample_meta (ino nlink : Z) : Meta := mkMeta 10 20 30 65 ino nlink.
Definition sample_scanner : scanner :=
  mkScanner 2 7 100 (excluded (λ n, n) (newMatcher (λ n, n) ["*.tmp"])) (λ d, d) (λ _, false) (λ _, false) (λ _, 101) (λ _ _, Ok "hash").
Definition sample_row (id src : Z) (rel : string) (ino nlink : Z) : File := mkFile id src rel (sample_meta ino nlink) None 50 50 None.
Definition sample_files : table :=
  [sample_row 1 7 "a.mkv" 11 2; sample_row 2 7 "gone.mkv" 12 1; sample_row 3 7 "locked/z.mkv" 13 1; sample_row 4 8 "a.mkv" 14 1].
Definition sample_source : source_row := mkSourceRow (Some "ext4") (Some 2049) None 4 (mkStats 0 0 0 0 0 0) None None.
Definition sample_tree : dir_view :=
  DirLists (LCons "a.mkv" (EntryFile 10 (Some (sample_meta 11 2)) KeyNothing)
    (LCons "locked" (EntryDir (Some (sample_meta 15 2)) (OpenFails EOther))
    (LCons "x.tmp" (EntryFile 10 (Some (sample_meta 16 1)) KeyNothing)
    (LCons "b" (EntryDir (Some (sample_meta 17 2)) (Opens (Some (sample_meta 17 2))
      (DirLists (LCons "c.mkv" (EntryFile 10 (Some (sample_meta 11 2)) KeyNothing) LNil)))) LNil)))).
Definition sample_ident : rootIdentity := newRootIdentity "ext4" false (mkMeta 0 0 0 2049 2 1).
Definition sample_view : scan_view :=
  mkScanView (mkRootView (Ok RootDir) (Ok tt) (Ok sample_ident)) (Ok []) "" (Err ENOENT) (Err ENOENT) sample_tree.
Definition sample_st : st := mkSt (mkCatalog sample_files (Some sample_source)) [] 0 no_scan.
Definition sample_end : st := (scan sample_scanner sample_view sample_st).2.
Example sample_scan :
  (λ f, (f_ID f, f_RelPath f, f_DeletedAt f, f_HardlinkGroup f)) <$> w_files (t_w sample_end) =
  [(1, "a.mkv", None, Some (7, 5, 1%nat)); (2, "gone.mkv", Some 100, None); (3, "locked/z.mkv", None, None); (4, "a.mkv", None, None); (5, "b/c.mkv", None, Some (7, 5, 1%nat))].
Proof. vm_compute. reflexivity. Qed.
Lemma sample_ok : table_ok sample_files ∧ fresh_stamp sample_scanner sample_files ∧ named sample_tree.
Proof.
  split; [split; apply (bool_decide_unpack _); vm_compute; exact I|]. split.
  - intros f Hf _. repeat (apply elem_of_cons in Hf as [->|Hf]; [done|]). by apply elem_of_nil in Hf.
  - repeat split; try done; apply (bool_decide_unpack _); vm_compute; exact I.
Qed.
Lemma sample_succeeded : succeeded sample_scanner sample_view sample_st sample_end sample_ident ∅ None.
Proof.
  destruct sample_ok as (Hok & Hfresh & Hnamed). split; [simpl; lia|exact Hok|exact Hfresh|exact Hnamed| |by vm_compute|by vm_compute].
  exists sample_source. split; [done|by vm_compute].
Qed.

(** C12: a scan that succeeds leaves the catalog exactly what it saw of the tree. The file of every
    path that is not excluded, in folders it entered, has a live row with its numbers and the
    scan's stamp, which keeps the id and the first sighting of the row there was; every other
    live row of the source is marked deleted, unless it is under a folder that could not be
    read; and the rows of other sources do not change. *)
Theorem scan_records_exactly (c : scanner) (v : scan_view) (s s' : st) (ident : rootIdentity) (forbidden : gmap devIno string) (key : option master_key) :
  succeeded c v s s' ident forbidden key →
  others c (w_files (t_w s')) = others c (w_files (t_w s)) ∧
  ∀ rel, recorded c (saw_in c forbidden key v) (lost_in c forbidden key v) (w_files (t_w s)) (w_files (t_w s')) rel.
Proof. apply success_recorded. Qed.
Lemma scan_records_exactly_witness :
  scan sample_scanner sample_view sample_st = (Ok tt, sample_end) ∧
  others sample_scanner (w_files (t_w sample_end)) = others sample_scanner sample_files ∧
  ∀ rel, recorded sample_scanner (saw_in sample_scanner ∅ None sample_view) (lost_in sample_scanner ∅ None sample_view) sample_files (w_files (t_w sample_end)) rel.
Proof.
  split; [by vm_compute|].
  exact (scan_records_exactly sample_scanner sample_view sample_st sample_end sample_ident ∅ None sample_succeeded).
Defined.

(** ** A scan that fails *)

Section fails.
Context (c : scanner).

(** Every row of [t] is still there, and live if it was. *)
Definition keeps_live (t t' : table) : Prop :=
  ∀ f, f ∈ t → ∃ f', f' ∈ t' ∧ f_ID f' = f_ID f ∧ f_SourceID f' = f_SourceID f ∧ f_RelPath f' = f_RelPath f ∧ (f_live f = true → f_live f' = true).
#[local] Instance keeps_live_preorder : PreOrder keeps_live.
Proof.
  split; [intros t f Hf; by exists f|]. intros t1 t2 t3 H1 H2 f (g & Hg & ? & ? & ? & ?)%H1. destruct (H2 g Hg) as (h & Hh & ? & ? & ? & ?).
  exists h. split_and!; [done|congruence..|auto].
Qed.
Lemma keeps_fmap g t : (∀ f, f_ID (g f) = f_ID f) → keeps_key g → (∀ f, f_live f = true → f_live (g f) = true) → keeps_live t (g <$> t).
Proof. intros H1 H2 H3 f Hf. exists (g f). split; [by apply list_elem_of_fmap_2|]. destruct (H2 f). split_and!; auto. Qed.
Lemma keeps_upsert t w : keeps_live t (upsert c t w).
Proof.
  unfold upsert. destruct (row_at c (wk_rel w) t).
  - apply keeps_fmap; [|apply keeps_seen|]; intros g; by destruct (is_row c (wk_rel w) g).
  - intros g Hg. exists g. split; [apply elem_of_app; by left|done].
Qed.
Lemma keeps_upserts ws t : keeps_live t (foldl (upsert c) t ws).
Proof. revert t. induction ws as [|w ws IH]; intros t; simpl; [done|]. etrans; [apply keeps_upsert|apply IH]. Qed.
Lemma keeps_touch ids t : keeps_live t (touch c ids t).
Proof. apply (keeps_fmap (touched c ids)); [|apply keeps_touched|]; intros f; unfold touched; by destruct (mem _ ids). Qed.

(** A program that neither deletes a row, but by its last step, nor changes one when it refuses. *)
Definition careful {A} (m : Scan A) : Prop := ∀ s, let t := w_files (t_w s) in let s' := (m s).2 in
  (∀ w, w ∈ t_past s' → w ∈ t_past s ∨ keeps_live t (w_files w) ∨ (is_ok (m s).1 = true ∧ w = t_w s')) ∧
  (∀ e, (m s).1 = Err e → keeps_live t (w_files (t_w s')) ∧ w_source (t_w s') = w_source (t_w s)) ∧
  (∀ why, (m s).1 = Err (Refused why) → t_w s' = t_w s ∧ t_past s' = t_past s).
Definition stays {A} (m : Scan A) : Prop := ∀ s, t_w (m s).2 = t_w s ∧ t_past (m s).2 = t_past s.
Lemma careful_after {A B} (m : Scan A) (k : A → Scan B) : stays m → (∀ a, careful (k a)) → careful (sbind m k).
Proof.
  intros Hm Hk s. destruct (Hm s) as [Hw Hp]. unfold sbind. destruct (m s) as [[a|e] s1]; simpl in Hw, Hp; cbn zeta beta iota.
  - specialize (Hk a s1). cbn zeta in Hk. by rewrite Hw, Hp in Hk.
  - cbn [fst snd]. rewrite Hw, Hp. split_and!; [by left|done..].
Qed.
Lemma careful_fail {A} e : careful (sfail e : Scan A).
Proof. intros s. split_and!; [by left|done..]. Qed.
Lemma stays_quiet {A} (m : Scan A) : calm m → stays m.
Proof. intros Hm s. destruct (Hm s) as (? & ? & _). done. Qed.
Lemma stays_gathers m x : (∀ t, gathers c t m x) → stays m.
Proof. intros Hm s. by destruct (Hm _ s eq_refl) as [? _]. Qed.
Lemma stays_lift {A} (r : result refused A) : stays (lift r).
Proof. by destruct r. Qed.

(** Batches of changes that keep the rows fail with the rows they kept. *)
Definition keeping (m : Scan unit) : Prop := ∀ s, let s' := (m s).2 in
  keeps_live (w_files (t_w s)) (w_files (t_w s')) ∧ w_source (t_w s') = w_source (t_w s) ∧
  (∀ w, w ∈ t_past s' → w ∈ t_past s ∨ keeps_live (w_files (t_w s)) (w_files w)) ∧ ∀ e, (m s).1 = Err e → e = DBFailed.
Lemma keeping_then m k : keeping m → keeping k → keeping (m ;* k).
Proof.
  intros Hm Hk s. specialize (Hm s). unfold sbind. destruct (m s) as [[[]|e] s1]; simpl in *; [|done]. destruct Hm as (H1 & H2 & H3 & _), (Hk s1) as (H4 & H5 & H6 & H7).
  split_and!; [by etrans|congruence| |done]. intros w [Hw|Hw]%H6; [by apply H3|]. right. by etrans.
Qed.
Lemma keeping_write g : (∀ t, keeps_live t (g t)) → keeping (write_files c g).
Proof.
  intros Hg s. unfold write_files, db_try, sbind. simpl. destruct (sc_db c _); simpl; split_and!; try done; [by left|congruence|].
  intros w [->|Hw]%elem_of_cons; [by right|by left].
Qed.
Lemma keeping_batches {A} (G : list A → table → table) fuel l : (∀ x t, keeps_live t (G x t)) → keeping (in_batches c fuel (λ x, write_files c (G x)) l).
Proof.
  intros HG. assert (Hret : keeping (sret tt)) by (intros s; split_and!; [done..|by left|done]).
  revert l. induction fuel as [|fuel IH]; intros [|x l]; try exact Hret. cbn [in_batches]. apply keeping_then; [|apply IH]. apply keeping_write, HG.
Qed.
Lemma keeping_commit : keeping (commit c).
Proof.
  intros s. apply (keeping_then _ _ (keeping_batches (λ x t, foldl (upsert c) t x) _ _ keeps_upserts) (keeping_batches (touch c) _ _ keeps_touch)).
Qed.
Lemma finish_end ident s : let s' := (finish c ident s).2 in
  match (finish c ident s).1 with
  | Ok _ => t_past s' = t_w s' :: t_past s
  | Err e => t_w s' = t_w s ∧ t_past s' = t_past s ∧ ∀ why, e ≠ Refused why
  end.
Proof. unfold finish, db_try, sbind. simpl. destruct (sc_db c _); simpl; [done|]. by destruct (w_source (t_w s)). Qed.
Lemma careful_record ident : careful (commit c ;* finish c ident).
Proof.
  intros s. destruct (keeping_commit s) as (H1 & H2 & H3 & H4). cbn zeta. unfold sbind. destruct (commit c s) as [[[]|e] s1]; simpl in H1, H2, H3, H4.
  - pose proof (finish_end ident s1) as Hf. destruct (finish c ident s1) as [[u|e] s2]; simpl in *.
    + rewrite Hf. split_and!; [|done..]. intros w [->|Hw]%elem_of_cons; [auto|]. destruct (H3 w Hw); auto.
    + destruct Hf as (-> & -> & Hr). split_and!; [|done|]; [intros w Hw; destruct (H3 w Hw); auto|]. intros why [= ->]. by destruct (Hr why).
  - simpl. split_and!; [|done|]; [intros w Hw; destruct (H3 w Hw); auto|]. intros why [= ->]. by specialize (H4 _ eq_refl).
Qed.
Lemma careful_run row live v : careful (run c row live v).
Proof.
  unfold run. apply careful_after; [apply stays_lift|intros ident]. apply careful_after; [by destruct (loadForbidden _ _ _ _ _ _)|intros [forbidden key]].
  apply careful_after; [apply (stays_gathers _ _ (λ t, proj1 (gathers_walk c t forbidden key) (sv_tree v) "."))|intros _].
  apply careful_after; [apply (stays_gathers _ _ (gathers_flush c))|intros _]. apply careful_after; [done|]. intros s. destruct (_ && _); [apply careful_fail|].
  apply careful_after; [apply stays_quiet, calm_groups|intros _; apply careful_record].
Qed.
End fails.

(** C13: until a scan has succeeded no row of the catalog is lost and no live row is marked deleted: of
    every state that a scan commits, where it may fail, be cancelled or die, only the last one of
    a scan that succeeds can differ in that. A scan that is refused, because of the root or of
    what it meets while it reads, changes no row, and nothing of the source but the outcome. *)
Theorem scan_fails_safe (c : scanner) (v : scan_view) (s : st) :
  let s' := (scan c v s).2 in
  (∀ w, w ∈ t_past s' → w ∈ t_past s ∨ keeps_live (w_files (t_w s)) (w_files w) ∨ ((scan c v s).1 = Ok tt ∧ w = t_w s')) ∧
  (∀ why, (scan c v s).1 = Err (Refused why) → w_files (t_w s') = w_files (t_w s) ∧
     (w_source (t_w s') = w_source (t_w s) ∨ ∃ now, w_source (t_w s') = failed_row now <$> w_source (t_w s))).
Proof.
  cbn zeta. unfold scan, db_try, sbind. simpl. destruct (sc_db c _); simpl; [split; [by left|done]|]. destruct (w_source (t_w s)) as [row|] eqn:Erow; [|split; [by left|done]].
  simpl. destruct (sc_db c _); simpl; [split; [by left|done]|]. set (s0 := mkSt _ _ _ no_scan). destruct (careful_run c row (count_live c (w_files (t_w s))) v s0) as (H1 & H2 & H3).
  destruct (run _ _ _ _ s0) as [[[]|e] s1]; simpl in *.
  { split; [|done]. intros w Hw. destruct (H1 w Hw) as [|[|[]]]; auto. }
  destruct (H2 e eq_refl) as [Hk Hsrc]. unfold recordScanFailure, sbind. simpl.
  assert (Hp : ∀ w, w ∈ t_past s1 → w ∈ t_past s ∨ keeps_live (w_files (t_w s)) (w_files w)).
  { intros w Hw. destruct (H1 w Hw) as [|[|[? _]]]; auto; done. }
  destruct (sc_cancel c _); simpl; [split; [|done]; intros w Hw; destruct (Hp w Hw); auto|]. destruct (sc_db c _); simpl; (split; [intros w Hw|intros why [= ->]; destruct (H3 why eq_refl) as [-> _]]).
  - destruct (Hp w Hw); auto.
  - split; [done|]. by left.
  - apply elem_of_cons in Hw as [->|Hw]; [|destruct (Hp w Hw); auto]. auto.
  - split; [done|]. right. eexists. simpl. by rewrite Erow.
Qed.

(** ** Hardlink groups *)

Section groups.
Context (c : scanner).

Definition bucket (ws : list walked) (di : devIno) : list walked :=
  List.filter (λ w, bool_decide (dev_ino (wk_m w) = di) && (2 <=? m_Nlink (wk_m w))) ws.
Lemma bucket_elem ws di w : w ∈ bucket ws di ↔ w ∈ ws ∧ dev_ino (wk_m w) = di ∧ 2 ≤ m_Nlink (wk_m w).
Proof. unfold bucket. rewrite filter_bool_elem, andb_true_iff, bool_decide_eq_true, Z.leb_le. done. Qed.
Lemma links_spec ws di : foldl add_link ∅ ws !! di = match bucket ws di with [] => None | l => Some l end.
Proof.
  induction ws as [|w ws IH] using rev_ind; [apply lookup_empty|]. rewrite foldl_app. simpl. unfold bucket in *. rewrite List.filter_app. simpl. unfold add_link at 1.
  destruct (2 <=? m_Nlink (wk_m w)) eqn:E; [|by rewrite andb_false_r, app_nil_r]. rewrite andb_true_r. rewrite lookup_insert. destruct (bool_decide (dev_ino (wk_m w) = di)) eqn:Ed.
  - apply bool_decide_eq_true in Ed as ->. rewrite decide_True by done. rewrite IH. by destruct (List.filter _ ws).
  - apply bool_decide_eq_false in Ed. rewrite decide_False by done. by rewrite app_nil_r.
Qed.
(** A planned group: the sorted names of a bucket that agree and are no more than the inode has. *)
Lemma planned_bucket ws g : g ∈ (planGroups (snd <$> map_to_list (foldl add_link ∅ ws))).1 ↔
  ∃ di, g = isort rel_cmp (bucket ws di) ∧ grouped (bucket ws di) = true.
Proof.
  unfold planGroups. simpl. rewrite isort_elem, list_elem_of_fmap. setoid_rewrite filter_bool_elem. setoid_rewrite list_elem_of_fmap. split.
  - intros (l & -> & ([di l'] & -> & Hl%elem_of_map_to_list) & Hg). simpl in *. rewrite links_spec in Hl. exists di. destruct (bucket ws di); [done|]. by injection Hl as <-.
  - intros (di & -> & Hg). exists (bucket ws di). split; [done|]. split; [|done]. exists (di, bucket ws di). split; [done|]. apply elem_of_map_to_list. rewrite links_spec. by destruct (bucket ws di).
Qed.
Lemma agree_spec l : agree l = true ↔ ∀ x y, x ∈ l → y ∈ l → wk_m x = wk_m y.
Proof.
  destruct l as [|x0 l]; [split; [by intros _ ? ? ?%elem_of_nil|done]|]. unfold agree. rewrite forallb_elem. setoid_rewrite bool_decide_eq_true. split.
  - intros H. assert (∀ x, x ∈ x0 :: l → wk_m x = wk_m x0) as Hx by (intros x [->|Hx]%elem_of_cons; auto). intros x y Hx' Hy'. rewrite (Hx x), (Hx y) by done. done.
  - intros H x Hx. apply H; [by right|left].
Qed.

(** The group of a row. *)
Definition grp (rel : string) (t : table) : option (Z * Z * nat) := row_at c rel t ≫= f_HardlinkGroup.
Lemma grp_set gid x rel t : grp rel (set_group c gid t x) = if decide (wk_rel x = rel) then (λ _, gid) <$> row_at c rel t else grp rel t.
Proof.
  unfold grp, set_group. rewrite row_at_fmap by apply regroups_set. destruct (row_at c rel t) as [f|] eqn:E; simpl; [|by case_decide]. apply row_at_spec in E as (_ & Es & Er).
  unfold is_row. rewrite Es, Er, Z.eqb_refl. case_decide; [by rewrite bool_decide_eq_true_2|by rewrite bool_decide_eq_false_2].
Qed.
Lemma has_row_set gid x rel t : is_Some (row_at c rel (set_group c gid t x)) ↔ is_Some (row_at c rel t).
Proof. unfold set_group. rewrite row_at_fmap by apply regroups_set. apply fmap_is_Some. Qed.
Lemma grp_sets gid g rel t : is_Some (row_at c rel t) →
  grp rel (foldl (set_group c gid) t g) = (if decide (rel ∈ wk_rel <$> g) then Some gid else grp rel t) ∧ is_Some (row_at c rel (foldl (set_group c gid) t g)).
Proof.
  revert t. induction g as [|x g IH]; intros t Ht; simpl; [done|]. destruct (IH (set_group c gid t x)) as [-> ?]; [by apply has_row_set|]. split; [|done].
  rewrite grp_set. destruct Ht as [f ->]. cbn [fmap option_fmap option_map list_fmap]. destruct (decide (rel ∈ wk_rel <$> g)) as [Hg|Hg].
  - rewrite decide_True; [done|by right].
  - case_decide as Hx; [rewrite decide_True; [done|rewrite Hx; left]|]. rewrite decide_False; [done|]. by intros [?|?]%elem_of_cons.
Qed.
Lemma grp_groups seq gs n rel t gid : is_Some (row_at c rel t) → grp rel (set_groups c seq n gs t) = Some gid →
  grp rel t = Some gid ∨ ∃ k g, gs !! k = Some g ∧ gid = (sc_sourceID c, seq, (n + k)%nat) ∧ rel ∈ wk_rel <$> g.
Proof.
  revert n t. induction gs as [|g gs IH]; intros n t Ht; simpl; [by left|]. destruct (grp_sets (sc_sourceID c, seq, n) g rel t Ht) as [Hg Hs]. intros H. apply IH in H as [H|(k & g' & Hk & -> & Hr)]; [|..|done].
  - rewrite Hg in H. case_decide; [|by left]. injection H as <-. right. exists 0%nat, g. by rewrite Nat.add_0_r.
  - right. exists (S k), g'. split; [done|]. split; [|done]. f_equal. lia.
Qed.
Lemma grp_alike seq gs n rel rel' t : is_Some (row_at c rel t) → is_Some (row_at c rel' t) → (∀ g, g ∈ gs → rel ∈ wk_rel <$> g ↔ rel' ∈ wk_rel <$> g) →
  grp rel t = grp rel' t → grp rel (set_groups c seq n gs t) = grp rel' (set_groups c seq n gs t).
Proof.
  revert n t. induction gs as [|g gs IH]; intros n t Ht Ht' Hgs E; simpl; [done|]. destruct (grp_sets (sc_sourceID c, seq, n) g rel t Ht) as [Hg Hs], (grp_sets (sc_sourceID c, seq, n) g rel' t Ht') as [Hg' Hs'].
  apply IH; [done|done|intros x Hx; apply Hgs; by right|]. rewrite Hg, Hg'. pose proof (Hgs g ltac:(left)) as Hi. destruct (decide (rel ∈ wk_rel <$> g)) as [Hr|Hr], (decide (rel' ∈ wk_rel <$> g)) as [Hr'|Hr']; tauto.
Qed.
Lemma grp_some seq gs n rel t : is_Some (row_at c rel t) → (∃ g, g ∈ gs ∧ rel ∈ wk_rel <$> g) ∨ is_Some (grp rel t) → is_Some (grp rel (set_groups c seq n gs t)).
Proof.
  revert n t. induction gs as [|g gs IH]; intros n t Ht Hor; simpl; [by destruct Hor as [(? & ?%elem_of_nil & _)|]|]. destruct (grp_sets (sc_sourceID c, seq, n) g rel t Ht) as [Hg Hs].
  apply IH; [done|]. rewrite Hg. destruct Hor as [(g' & [->|Hin]%elem_of_cons & Hr)|Hor]; [|left; by exists g'|]; right; by case_decide.
Qed.
End groups.

Section linked.
Context (c : scanner) (ws : list walked) (Hone : one_each ws) (Hnd : NoDup (wk_rel <$> ws)).

(** Two names of one file: seen with the same numbers, which all names of the inode agree in,
    and these are no more than the inode has. *)
Definition hardlinked (saw : walked → Prop) (rel rel' : string) (m : Meta) : Prop :=
  saw (mkWalked rel m) ∧ saw (mkWalked rel' m) ∧ 2 ≤ m_Nlink m ∧
  (∀ w, saw w → dev_ino (wk_m w) = dev_ino m → 2 ≤ m_Nlink (wk_m w) → wk_m w = m) ∧
  ∃ names, (∀ w, saw w → wk_m w = m → wk_rel w ∈ names) ∧ Z.of_nat (length names) ≤ m_Nlink m.
Lemma in_group rel di : rel ∈ wk_rel <$> isort rel_cmp (bucket ws di) ↔ ∃ m, mkWalked rel m ∈ ws ∧ dev_ino m = di ∧ 2 ≤ m_Nlink m.
Proof.
  rewrite list_elem_of_fmap. setoid_rewrite isort_elem. setoid_rewrite bucket_elem. split.
  - intros ([p m] & -> & ? & ? & ?). by exists m.
  - intros (m & ? & ? & ?). by exists (mkWalked rel m).
Qed.
Lemma grouped_hardlinked di rel rel' : grouped (bucket ws di) = true → rel ∈ wk_rel <$> isort rel_cmp (bucket ws di) → rel' ∈ wk_rel <$> isort rel_cmp (bucket ws di) →
  ∃ m, hardlinked (.∈ ws) rel rel' m.
Proof.
  intros Hg (m & Hm & Hdi & Hn)%in_group (m' & Hm' & Hdi' & Hn')%in_group. unfold grouped in Hg. apply andb_true_iff in Hg as [[_ Ha]%andb_true_iff Hl%Z.leb_le]. rewrite agree_spec in Ha.
  assert (Hb : ∀ w, w ∈ ws → dev_ino (wk_m w) = di → 2 ≤ m_Nlink (wk_m w) → wk_m w = m).
  { intros w Hw Hd H2. apply (Ha w (mkWalked rel m)); by apply bucket_elem. }
  assert (m' = m) as -> by (by apply (Hb (mkWalked rel' m'))). exists m. unfold hardlinked. rewrite Hdi. split_and!; try done.
  exists (wk_rel <$> bucket ws di). split.
  - intros w Hw E. apply list_elem_of_fmap. exists w. split; [done|]. apply bucket_elem. by rewrite E.
  - rewrite length_fmap. destruct (bucket ws di) as [|x l] eqn:E; [simpl; lia|]. assert (x ∈ bucket ws di) as (Hx & Hdx & Hnx)%bucket_elem by (rewrite E; left).
    unfold link_count in Hl. by rewrite (Hb x Hx Hdx Hnx) in Hl.
Qed.
Lemma hardlinked_grouped rel rel' m : rel ≠ rel' → hardlinked (.∈ ws) rel rel' m → grouped (bucket ws (dev_ino m)) = true ∧
  (rel ∈ wk_rel <$> isort rel_cmp (bucket ws (dev_ino m))) ∧ ∀ di, rel ∈ wk_rel <$> isort rel_cmp (bucket ws di) ↔ rel' ∈ wk_rel <$> isort rel_cmp (bucket ws di).
Proof.
  intros Hne (Hm & Hm' & Hn & Hall & names & Hnames & Hlen). set (b := bucket ws (dev_ino m)).
  assert (Hb : ∀ w, w ∈ b ↔ w ∈ ws ∧ wk_m w = m). { intros w. unfold b. rewrite bucket_elem. split; [intros (? & ? & ?); auto|by intros [? ->]]. }
  assert (Hndb : NoDup (wk_rel <$> b)). { eapply sublist_NoDup; [exact Hnd|]. apply fmap_sublist, filter_sublist. }
  assert (Hsub : length b = length (wk_rel <$> b)) by (by rewrite length_fmap).
  split; [|split].
  - unfold grouped. rewrite !andb_true_iff, Nat.leb_le, Z.leb_le, agree_spec. split_and!.
    + rewrite Hsub. change 2%nat with (length [rel; rel']). apply submseteq_length, NoDup_submseteq; [apply NoDup_cons; split; [by rewrite list_elem_of_singleton|apply NoDup_singleton]|].
      intros p Hp. apply list_elem_of_fmap. apply elem_of_cons in Hp as [-> | ->%list_elem_of_singleton]; (eexists (mkWalked _ m); split; [done|]); by apply Hb.
    + intros x y [_ ->]%Hb [_ ->]%Hb. done.
    + assert (link_count b = m_Nlink m) as ->. { assert (mkWalked rel m ∈ b) as Hin by (by apply Hb). destruct b as [|x l]; [by apply elem_of_nil in Hin|]. simpl. by destruct (proj1 (Hb x) ltac:(left)) as [_ ->]. }
      assert (length b ≤ length names)%nat; [|lia]. rewrite Hsub. apply submseteq_length, NoDup_submseteq; [done|]. intros p (w & -> & [Hw E]%Hb)%list_elem_of_fmap. by apply Hnames.
  - apply in_group. eauto.
  - assert (∀ p, mkWalked p m ∈ ws → ∀ di, p ∈ wk_rel <$> isort rel_cmp (bucket ws di) ↔ dev_ino m = di) as Hp; [|intros di; by rewrite !Hp].
    intros p Hp di. rewrite in_group. split; [|intros <-; eauto]. intros (m' & Hm0 & Hd & _). assert (mkWalked p m' = mkWalked p m) as [= ->] by (by apply Hone). done.
Qed.
End linked.

(** The groups of the rows after a scan. *)
Lemma after_groups (c : scanner) t (x : sight) seq gs : ∃ t1, table_after c t x seq gs = set_groups c seq 1 gs t1 ∧
  ∀ rel, grp c rel t1 = None ∧ (is_Some (row_at c rel (table_after c t x seq gs)) ↔ is_Some (row_at c rel t1)).
Proof.
  eexists. split; [reflexivity|]. intros rel. split.
  - unfold grp, clear_groups. rewrite row_at_fmap by apply regroups_clear. destruct (row_at c rel (mark_unseen _ _ _)) as [f|] eqn:E; [|done]. apply row_at_spec in E as (_ & Es & _).
    simpl. by rewrite Es, Z.eqb_refl.
  - unfold table_after. apply (set_groups_rows c (λ t', is_Some (row_at c rel t') ↔ _)); [|done]. intros gid y t' <-. apply has_row_set.
Qed.

(** C14: the hardlink groups a scan leaves join names of one file, and all of them. Two rows in one
    group were both seen, with the same numbers, and on a FUSE file system, whose inode numbers
    may lie, with the same content; on others every two names of an inode whose names agree
    are in one group. *)
Theorem groups_join_hardlinks (c : scanner) (v : scan_view) (s s' : st) (ident : rootIdentity) (forbidden : gmap devIno string) (key : option master_key) :
  succeeded c v s s' ident forbidden key →
  ∀ rel rel' f f', row_at c rel (w_files (t_w s')) = Some f → row_at c rel' (w_files (t_w s')) = Some f' → rel ≠ rel' →
  let linked := is_Some (f_HardlinkGroup f) ∧ f_HardlinkGroup f = f_HardlinkGroup f' in
  (linked → ∃ m, hardlinked (saw_in c forbidden key v) rel rel' m ∧
     (ri_fuse ident = true → ∃ h, sc_hash c rel m = Ok h ∧ sc_hash c rel' m = Ok h)) ∧
  (ri_fuse ident = false → (∃ m, hardlinked (saw_in c forbidden key v) rel rel' m) → linked).
Proof.
  intros Hs rel rel' f f' Hf Hf' Hne. destruct (success_files _ _ _ _ _ _ _ Hs) as (seq & gs & Hfiles & Hgs), (seen_spec _ _ _ _ _ _ _ Hs) as (Hsees & _ & Hone & Hnd).
  set (x := look_dir c forbidden key (sv_tree v) ".") in *. rewrite Hfiles in Hf, Hf'. clear Hfiles.
  assert (Hsaw : ∀ m, hardlinked (saw_in c forbidden key v) rel rel' m ↔ hardlinked (.∈ x.1) rel rel' m).
  { intros m. unfold hardlinked. by setoid_rewrite <-Hsees. }
  destruct (after_groups c (w_files (t_w s)) x seq gs) as (t1 & Ht1 & Hg1). destruct (Hg1 rel) as [Hn [Hr1 _]], (Hg1 rel') as [Hn' [Hr1' _]].
  rewrite Hf in Hr1. rewrite Hf' in Hr1'. specialize (Hr1 (mk_is_Some _ _ eq_refl)). specialize (Hr1' (mk_is_Some _ _ eq_refl)).
  assert (Hgf : grp c rel (set_groups c seq 1 gs t1) = f_HardlinkGroup f) by (unfold grp; by rewrite <-Ht1, Hf).
  assert (Hgf' : grp c rel' (set_groups c seq 1 gs t1) = f_HardlinkGroup f') by (unfold grp; by rewrite <-Ht1, Hf').
  rewrite <-Hgf, <-Hgf'. split.
  - intros [[gid Hgid] E]. rewrite Hgid in E. symmetry in E. apply grp_groups in Hgid as [?|(k & g & Hk & -> & Hr)], E as [?|(k' & g' & Hk' & Ek & Hr')]; try done; try congruence.
    assert (k' = k) as -> by (injection Ek; lia). assert (g' = g) as -> by congruence. apply list_elem_of_lookup_2 in Hk. unfold groups_of in Hgs.
    assert (g ∈ (planGroups (snd <$> map_to_list (foldl add_link ∅ x.1))).1 ∧ (ri_fuse ident = true → same_content c g)) as [Hp Hsame].
    { destruct (ri_fuse ident); [destruct (Hgs g Hk); auto|by rewrite <-Hgs]. }
    apply planned_bucket in Hp as (di & -> & Hgr). destruct (grouped_hardlinked _ _ _ _ Hgr Hr Hr') as (m & Hm). exists m. split; [by apply Hsaw|]. intros Hfuse. destruct (Hsame Hfuse) as (h & Hh). exists h.
    destruct Hm as (Hm & Hm' & Hn2 & Hall & _). apply in_group in Hr as (m1 & Hm1 & Hd1 & Hn1), Hr' as (m2 & Hm2 & Hd2 & Hn2').
    assert (mkWalked rel m1 = mkWalked rel m) as [= ->] by (by apply Hone). assert (mkWalked rel' m2 = mkWalked rel' m) as [= ->] by (by apply Hone).
    split; [apply (Hh (mkWalked rel m))|apply (Hh (mkWalked rel' m))]; apply isort_elem, bucket_elem; done.
  - intros Hfuse (m & Hm%Hsaw). rewrite Hfuse in Hgs. simpl in Hgs. destruct (hardlinked_grouped _ Hone Hnd _ _ _ Hne Hm) as (Hgr & Hin & Hboth). split.
    + apply grp_some; [done|]. left. eexists. split; [|exact Hin]. rewrite Hgs. apply planned_bucket. eauto.
    + apply grp_alike; [done|done| |congruence]. intros g Hg. rewrite Hgs in Hg. apply planned_bucket in Hg as (di & -> & _). apply Hboth.
Qed.
Lemma groups_join_hardlinks_witness :
  f_HardlinkGroup <$> row_at sample_scanner "a.mkv" (w_files (t_w sample_end)) = Some (Some (7, 5, 1%nat)) ∧
  ∃ m, hardlinked (saw_in sample_scanner ∅ None sample_view) "a.mkv" "b/c.mkv" m.
Proof.
  split; [by vm_compute|].
  destruct (row_at sample_scanner "a.mkv" (w_files (t_w sample_end))) as [f|] eqn:Ef; [|by vm_compute in Ef].
  destruct (row_at sample_scanner "b/c.mkv" (w_files (t_w sample_end))) as [f'|] eqn:Ef'; [|by vm_compute in Ef'].
  assert (Hl : is_Some (f_HardlinkGroup f) ∧ f_HardlinkGroup f = f_HardlinkGroup f').
  { vm_compute in Ef, Ef'. injection Ef as <-. injection Ef' as <-. split; [by eexists|done]. }
  destruct (proj1 (groups_join_hardlinks sample_scanner sample_view sample_st sample_end sample_ident ∅ None sample_succeeded "a.mkv" "b/c.mkv" f f' Ef Ef' ltac:(done)) Hl) as (m & Hm & _). by exists m.
Defined.

(** C15: an entry of the root whose lstat fails, for whatever reason that does not stop the scan,
    counts as gone: the live row of its path is marked deleted. *)
Theorem stat_error_counts_as_gone (c : scanner) (v : scan_view) (s s' : st) (ident : rootIdentity) (forbidden : gmap devIno string) (key : option master_key)
  (l : listing) (name : string) (e : fs_error) (f : File) :
  succeeded c v s s' ident forbidden key → sv_tree v = DirLists l → (name, EntryFails e) ∈ entries l →
  row_at c name (w_files (t_w s)) = Some f → f_live f = true →
  ∃ f', row_at c name (w_files (t_w s')) = Some f' ∧ ungroup f' = deleted_row c f.
Proof.
  intros Hs Htree Hin Hf Hlive. pose proof (su_named _ _ _ _ _ _ _ Hs) as Hnamed. rewrite Htree in Hnamed. destruct Hnamed as [Hnd Hnl]. destruct (named_elem _ _ _ Hnl Hin) as [Hp _].
  destruct (success_recorded _ _ _ _ _ _ _ Hs) as [_ Hrec]. destruct (Hrec name) as [_ Hno]. rewrite Hf in Hno. destruct Hno as (f' & Hf' & Hdel & _).
  - intros m. unfold saw_in. rewrite Htree. intros (_ & n' & e' & Hin' & He')%sees_inv. pose proof (entry_under _ _ _ _ _ _ _ _ Hnl Hin' He') as Hu.
    destruct (named_elem _ _ _ Hnl Hin') as [Hp' _]. assert (n' = name) as ->. { apply (under_one "." _ _ name); [done..|]. exists []. by rewrite app_nil_r. }
    assert ((name, e') = (name, EntryFails e)) as [= ->] by (by eapply (NoDup_fmap_inj_on fst)). done.
  - exists f'. split; [done|]. apply Hdel. split; [done|]. intros d _ Hd. by apply (plain_not_under name d).
Qed.
Definition odd_tree : dir_view := DirLists (LCons "gone.mkv" (EntryFails EOther) (LCons "a.mkv" (EntryFile 10 (Some (sample_meta 11 1)) KeyNothing) LNil)).
Definition odd_view : scan_view := mkScanView (sv_root sample_view) (Ok []) "" (Err ENOENT) (Err ENOENT) odd_tree.
Lemma odd_named : named odd_tree.
Proof. repeat split; try done; apply (bool_decide_unpack _); vm_compute; exact I. Qed.
Definition odd_end : st := (scan sample_scanner odd_view sample_st).2.
Lemma stat_error_counts_as_gone_witness :
  scan sample_scanner odd_view sample_st = (Ok tt, odd_end) ∧
  ∃ f', row_at sample_scanner "gone.mkv" (w_files (t_w odd_end)) = Some f' ∧ ungroup f' = deleted_row sample_scanner (sample_row 2 7 "gone.mkv" 12 1).
Proof.
  assert (Hscan : scan sample_scanner odd_view sample_st = (Ok tt, odd_end)) by (by vm_compute). split; [exact Hscan|]. destruct sample_ok as (Hok & Hfresh & _).
  refine (stat_error_counts_as_gone sample_scanner odd_view sample_st odd_end sample_ident ∅ None _ "gone.mkv" EOther (sample_row 2 7 "gone.mkv" 12 1) _ eq_refl (list_elem_of_here _ _) eq_refl eq_refl).
  split; [simpl; lia|exact Hok|exact Hfresh|exact odd_named|exists sample_source; split; [done|by vm_compute]|by vm_compute|exact Hscan].
Defined.
