(* ===== verification/VersionRetention.v ===== *)
(** * VersionRetention: which versions of a backup are kept

    [internal/snapshots/keep.go] (Plex DB and *arr backups) and
    [internal/manifest/prune.go] (manifests). Both walk the versions newest first
    and keep the newest of each period that is not used up. *)
From stdpp Require Import base gmap list.
From S2P Require Import Prelude GoTime.
Open Scope Z_scope.

(** [snapshots.Version] and [manifest.Retained]. *)
Record Version := mkVersion { v_ID : Z; v_CreatedAt : time; v_OK : bool }.
#[export] Instance Version_eq_dec : EqDecision Version.
Proof. solve_decision. Defined.

(** Newest first, the higher id first at the same instant. *)
Definition newest_cmp (a b : Version) : Z :=
  then_cmp (zcmp (v_CreatedAt b) (v_CreatedAt a)) (zcmp (v_ID b) (v_ID a)).
Definition newestFirst (vs : list Version) : list Version := isort newest_cmp vs.

(** A set of periods seen so far, of at most [n] periods: [take_period seen n k]
    is the set with [k], when [k] is new and there is room. *)
Definition take_period {K} `{Countable K} (seen : gset K) (n : Z) (k : K) : option (gset K) :=
  if bool_decide (k ∈ seen) then None
  else if Z.of_nat (size seen) <? n then Some ({[k]} ∪ seen) else None.

Section snapshots.
Context (loc : location).

(** The loop of [Keep], with [nOK], [weeks] and [keep]. *)
Definition keep_step (daily weekly : Z) (st : Z * gset (Z * Z) * gset Z) (v : Version) : Z * gset (Z * Z) * gset Z :=
  let '(nOK, weeks, keep) := st in
  if negb (v_OK v) then st
  else
    let nOK := nOK + 1 in
    let keep := if nOK <=? daily then {[v_ID v]} ∪ keep else keep in
    match take_period weeks weekly (ISOWeek loc (v_CreatedAt v)) with
    | Some weeks => (nOK, weeks, {[v_ID v]} ∪ keep)
    | None => (nOK, weeks, keep)
    end.

Definition Keep (vs : list Version) (daily weekly : Z) : gset Z :=
  let daily := Z.max daily 1 in
  let weekly := Z.max weekly 0 in
  (foldl (keep_step daily weekly) (0, ∅, ∅) (newestFirst vs)).2.

(** [FailedKeep] and [DamagedKeep]: a week. *)
Definition FailedKeep : duration := 7 * 24 * ns_per_hour.

Definition removes (keep : gset Z) (now : time) (v : Version) : bool :=
  if v_OK v && bool_decide (v_ID v ∈ keep) then false
  else if negb (v_OK v) && (dsub now (v_CreatedAt v) <? FailedKeep) then false
  else true.

Definition Prune (vs : list Version) (daily weekly : Z) (now : time) : list Z :=
  v_ID <$> List.filter (removes (Keep vs daily weekly) now) (reverse (newestFirst vs)).

(** The loop of [KeepSet], with [seenDays], [seenWeeks] and [keep]. *)
Definition keepset_step (days weeks : Z) (st : gset (Z * Z * Z) * gset (Z * Z) * gset Z) (v : Version)
    : gset (Z * Z * Z) * gset (Z * Z) * gset Z :=
  let '(seenDays, seenWeeks, keep) := st in
  if negb (v_OK v) then st
  else
    let d := Date loc (v_CreatedAt v) in
    let '(seenDays, keep) :=
      match take_period seenDays days (cv_year d, cv_month d, cv_day d) with
      | Some s => (s, {[v_ID v]} ∪ keep)
      | None => (seenDays, keep)
      end in
    match take_period seenWeeks weeks (ISOWeek loc (v_CreatedAt v)) with
    | Some s => (seenDays, s, {[v_ID v]} ∪ keep)
    | None => (seenDays, seenWeeks, keep)
    end.

Definition KeepSet (vs : list Version) (days weeks : Z) : gset Z :=
  let days := Z.max days 1 in
  let weeks := Z.max weeks 0 in
  (foldl (keepset_step days weeks) (∅, ∅, ∅) (newestFirst vs)).2.

Definition PruneSet (vs : list Version) (days weeks : Z) (now : time) : list Z :=
  v_ID <$> List.filter (removes (KeepSet vs days weeks) now) (reverse (newestFirst vs)).
End snapshots.

(** ** Periods *)

Section periods.
Context {K : Type} `{Countable K}.

(** [seen] holds the first [n] of the periods [ks]. *)
Record first_periods (n : Z) (seen ks : gset K) : Prop := {
  fp_sub : seen ⊆ ks;
  fp_size : Z.of_nat (size seen) = Z.min n (Z.of_nat (size ks));
  fp_all : Z.of_nat (size ks) ≤ n → seen = ks;
}.

(** The period [k] counts: it is new, and fewer than [n] came before it. *)
Definition counts_period (n : Z) (ks : gset K) (k : K) : bool :=
  bool_decide (k ∉ ks) && (Z.of_nat (size ks) <? n).

Lemma first_periods_empty n : 0 ≤ n → first_periods n ∅ ∅.
Proof. intros Hn. split; [done|rewrite size_empty; lia|done]. Qed.

Lemma size_insert_new (k : K) (ks : gset K) : k ∉ ks → size ({[k]} ∪ ks) = S (size ks).
Proof. intros Hk. rewrite size_union by set_solver. by rewrite size_singleton. Qed.

Lemma take_period_spec n seen ks k :
  first_periods n seen ks →
  take_period seen n k = (if counts_period n ks k then Some ({[k]} ∪ seen) else None) ∧
  first_periods n (match take_period seen n k with Some s => s | None => seen end) ({[k]} ∪ ks).
Proof.
  intros [Hsub Hsize Hall]. unfold take_period, counts_period.
  destruct (decide (Z.of_nat (size ks) < n)) as [Hlt|Hge].
  - assert (seen = ks) as -> by (apply Hall; lia). rewrite (proj2 (Z.ltb_lt _ _)) by done.
    destruct (decide (k ∈ ks)) as [Hk|Hk].
    + rewrite (bool_decide_true (k ∈ ks)), (bool_decide_false (k ∉ ks)) by tauto. split; [done|].
      by rewrite (subseteq_union_1_L {[k]} ks) by set_solver.
    + rewrite (bool_decide_false (k ∈ ks)), (bool_decide_true (k ∉ ks)) by done. split; [done|].
      split; [done| |done]. rewrite size_insert_new by done. lia.
  - rewrite (proj2 (Z.ltb_ge (Z.of_nat (size ks)) n)), andb_false_r by lia.
    assert (Hfull : (Z.of_nat (size seen) <? n) = false) by (apply Z.ltb_ge; lia). rewrite Hfull.
    assert (Hmono : (size ks ≤ size ({[k]} ∪ ks))%nat) by (apply subseteq_size; set_solver).
    split; [by case_bool_decide|].
    assert (E : (if bool_decide (k ∈ seen) then None else None (A := gset K)) = None) by (by case_bool_decide). rewrite E.
    split; [set_solver|lia|]. intros Hle.
    assert (Hk : k ∈ ks). { destruct (decide (k ∈ ks)) as [|Hk]; [done|]. rewrite size_insert_new in Hle by done. lia. }
    rewrite (subseteq_union_1_L {[k]} ks) in Hle |- * by set_solver. apply Hall. lia.
Qed.
End periods.

(** ** The order of the versions *)

#[export] Instance newest_cmp_ordering : Ordering newest_cmp.
Proof.
  apply (lex_ordering (λ v, - v_CreatedAt v) (λ v, - v_ID v)). intros a b. unfold newest_cmp. f_equal;
    unfold zcmp; by rewrite Z.compare_opp.
Qed.

Lemma newestFirst_perm vs : newestFirst vs ≡ₚ vs.
Proof. apply isort_perm. Qed.

Lemma newestFirst_elem vs v : v ∈ newestFirst vs ↔ v ∈ vs.
Proof. by rewrite newestFirst_perm. Qed.

(** [a] is at least as new as [b]. *)
Definition newer (a b : Version) : Prop :=
  v_CreatedAt b < v_CreatedAt a ∨ (v_CreatedAt a = v_CreatedAt b ∧ v_ID b ≤ v_ID a).

Lemma newest_cmp_newer a b : newest_cmp a b ≤ 0 ↔ newer a b.
Proof.
  unfold newest_cmp, then_cmp, newer. pose proof (zcmp_spec (v_CreatedAt b) (v_CreatedAt a)).
  pose proof (zcmp_spec (v_ID b) (v_ID a)). destruct (Z.eqb_spec (zcmp (v_CreatedAt b) (v_CreatedAt a)) 0); lia.
Qed.

Lemma newestFirst_sorted vs : StronglySorted newer (newestFirst vs).
Proof.
  pose proof (isort_sorted newest_cmp vs) as Hs. unfold newestFirst.
  induction Hs as [|v l Hs IH Hall]; constructor; [done|].
  eapply Forall_impl; [exact Hall|]. intros w Hw. by apply newest_cmp_newer.
Qed.

(** The ok versions, newest first: what the loops look at. *)
Definition ok_versions (vs : list Version) : list Version := List.filter v_OK (newestFirst vs).

Lemma foldl_ok {S} (step : S → Version → S) st l :
  (∀ st v, v_OK v = false → step st v = st) → foldl step st l = foldl step st (List.filter v_OK l).
Proof.
  intros H. revert st. induction l as [|v l IH]; intros st; simpl; [done|].
  destruct (v_OK v) eqn:E; simpl; [apply IH|]. by rewrite H.
Qed.

(** [first v] says which versions of a list are kept, from what comes before. *)
Definition kept_from (choose : list Version → Version → bool) (l : list Version) (id : Z) : Prop :=
  ∃ newer_ones v older, l = (newer_ones ++ v :: older)%list ∧ v_ID v = id ∧ choose newer_ones v = true.

Lemma kept_from_nil choose id : ¬ kept_from choose [] id.
Proof. intros (p & v & q & E & _). by destruct p. Qed.

Lemma kept_from_snoc choose l v id :
  kept_from choose (l ++ [v]) id ↔ kept_from choose l id ∨ (v_ID v = id ∧ choose l v = true).
Proof.
  split.
  - intros (p & w & q & E & Hid & Hc). destruct q as [|x q _] using rev_ind.
    + apply app_inj_tail in E as [-> ->]. by right.
    + left. exists p, w, q. split_and!; [|done|done].
      replace (p ++ w :: (q ++ [x]))%list with ((p ++ w :: q) ++ [x])%list in E by (by rewrite <-app_assoc).
      by apply app_inj_tail in E as [-> _].
  - intros [(p & w & q & -> & Hid & Hc)|[Hid Hc]].
    + exists p, w, (q ++ [v])%list. by rewrite <-app_assoc.
    + by exists l, v, [].
Qed.

Section keep.
Context (loc : location).

(** What [Keep] is to keep: the first [daily] versions, and the first of each of
    the first [weekly] ISO weeks. *)
Definition week_of (v : Version) : Z * Z := ISOWeek loc (v_CreatedAt v).
Definition weeks_of (l : list Version) : gset (Z * Z) := list_to_set (week_of <$> l).
Definition chosen (daily weekly : Z) (newer_ones : list Version) (v : Version) : bool :=
  (Z.of_nat (length newer_ones) <? daily) || counts_period weekly (weeks_of newer_ones) (week_of v).

Lemma list_to_set_snoc {K} `{Countable K} (f : Version → K) l v :
  list_to_set (C := gset K) (f <$> (l ++ [v])) = {[f v]} ∪ list_to_set (f <$> l).
Proof. rewrite fmap_app, list_to_set_app_L. simpl. set_solver. Qed.

Lemma keep_loop daily weekly l :
  0 ≤ weekly → Forall (λ v, v_OK v = true) l →
  let st := foldl (keep_step loc daily weekly) (0, ∅, ∅) l in
  st.1.1 = Z.of_nat (length l) ∧ first_periods weekly st.1.2 (weeks_of l) ∧
  ∀ id, id ∈ st.2 ↔ kept_from (chosen daily weekly) l id.
Proof.
  intros Hw. induction l as [|v l IH] using rev_ind; intros Hok; simpl.
  { split_and!; [done|by apply first_periods_empty|]. intros id. split; [set_solver|by intros ?%kept_from_nil]. }
  apply Forall_app in Hok as [Hok Hv]. inversion Hv as [|? ? Hv' _]; subst. specialize (IH Hok). simpl in IH.
  rewrite foldl_snoc. destruct (foldl _ _ l) as [[nOK weeks] keep]. simpl in IH. destruct IH as (-> & Hwk & Hkeep).
  unfold keep_step. rewrite Hv'. simpl.
  destruct (take_period_spec weekly weeks (weeks_of l) (week_of v) Hwk) as [Ht Hf].
  assert (Hchoice : chosen daily weekly l v = ((Z.of_nat (length l) + 1 <=? daily) || counts_period weekly (weeks_of l) (week_of v))).
  { unfold chosen. f_equal. apply eq_true_iff_eq. rewrite Z.ltb_lt, Z.leb_le. lia. }
  fold (week_of v). unfold weeks_of in *. rewrite Ht in Hf |- *. rewrite list_to_set_snoc, length_app.
  assert (Hiff : ∀ id, kept_from (chosen daily weekly) (l ++ [v]) id ↔
    id ∈ (if Z.of_nat (length l) + 1 <=? daily then {[v_ID v]} ∪ keep else keep) ∨
    (id = v_ID v ∧ counts_period weekly (list_to_set (week_of <$> l)) (week_of v) = true)).
  { intros id. rewrite kept_from_snoc, <-Hkeep, Hchoice, orb_true_iff. unfold weeks_of.
    destruct (_ <=? daily); rewrite ?elem_of_union, ?elem_of_singleton; naive_solver. }
  destruct (counts_period _ _ _); simpl; (split_and!; [lia|exact Hf|]); intros id; rewrite Hiff, ?elem_of_union, ?elem_of_singleton; naive_solver.
Qed.

(** What [KeepSet] is to keep: the first of each of the first [days] days and of
    the first [weeks] ISO weeks. *)
Definition day_of (v : Version) : Z * Z * Z :=
  let d := Date loc (v_CreatedAt v) in (cv_year d, cv_month d, cv_day d).
Definition days_of (l : list Version) : gset (Z * Z * Z) := list_to_set (day_of <$> l).
Definition chosen_set (days weeks : Z) (newer_ones : list Version) (v : Version) : bool :=
  counts_period days (days_of newer_ones) (day_of v) || counts_period weeks (weeks_of newer_ones) (week_of v).

Lemma keepset_loop days weeks l :
  0 ≤ days → 0 ≤ weeks → Forall (λ v, v_OK v = true) l →
  let st := foldl (keepset_step loc days weeks) (∅, ∅, ∅) l in
  first_periods days st.1.1 (days_of l) ∧ first_periods weeks st.1.2 (weeks_of l) ∧
  ∀ id, id ∈ st.2 ↔ kept_from (chosen_set days weeks) l id.
Proof.
  intros Hd Hw. induction l as [|v l IH] using rev_ind; intros Hok; simpl.
  { split_and!; [by apply first_periods_empty..|]. intros id. split; [set_solver|by intros ?%kept_from_nil]. }
  apply Forall_app in Hok as [Hok Hv]. inversion Hv as [|? ? Hv' _]; subst. specialize (IH Hok). simpl in IH.
  rewrite foldl_snoc. destruct (foldl _ _ l) as [[sd sw] keep]. simpl in IH. destruct IH as (Hdy & Hwk & Hkeep).
  unfold keepset_step. rewrite Hv'. cbn [negb]. cbv zeta.
  destruct (take_period_spec days sd (days_of l) (day_of v) Hdy) as [Htd Hfd].
  destruct (take_period_spec weeks sw (weeks_of l) (week_of v) Hwk) as [Htw Hfw].
  change (cv_year (Date loc (v_CreatedAt v)), cv_month (Date loc (v_CreatedAt v)), cv_day (Date loc (v_CreatedAt v))) with (day_of v).
  fold (week_of v). unfold days_of, weeks_of in *. rewrite Htd in Hfd |- *. rewrite !list_to_set_snoc.
  assert (Hiff : ∀ id, kept_from (chosen_set days weeks) (l ++ [v]) id ↔
    id ∈ keep ∨ (id = v_ID v ∧ (counts_period days (list_to_set (day_of <$> l)) (day_of v) = true ∨
                               counts_period weeks (list_to_set (week_of <$> l)) (week_of v) = true))).
  { intros id. rewrite kept_from_snoc, <-Hkeep. unfold chosen_set, days_of, weeks_of. rewrite orb_true_iff. naive_solver. }
  destruct (counts_period days _ _); rewrite Htw in Hfw |- *; destruct (counts_period weeks _ _); simpl;
    (split_and!; [exact Hfd|exact Hfw|]); intros id; rewrite Hiff, ?elem_of_union, ?elem_of_singleton; naive_solver.
Qed.
End keep.

Lemma ok_versions_ok vs : Forall (λ v, v_OK v = true) (ok_versions vs).
Proof. apply Forall_forall. by intros v [_ ?]%filter_bool_elem. Qed.

Lemma keep_step_skips loc daily weekly st v : v_OK v = false → keep_step loc daily weekly st v = st.
Proof. intros E. destruct st as [[n w] k]. unfold keep_step. by rewrite E. Qed.
Lemma keepset_step_skips loc days weeks st v : v_OK v = false → keepset_step loc days weeks st v = st.
Proof. intros E. destruct st as [[n w] k]. unfold keepset_step. by rewrite E. Qed.

(** ** Theorems *)

(** C28. [Keep] keeps exactly the ok versions it documents: among the ok versions,
    newest first (a lower id later at the same instant), the first
    [max daily 1], and the first of each of the first [max weekly 0] ISO weeks
    that have one. So the newest ok version is always kept. *)
Theorem keep_exact (loc : location) (vs : list Version) (daily weekly id : Z) :
  (id ∈ Keep loc vs daily weekly ↔ kept_from (chosen loc (Z.max daily 1) (Z.max weekly 0)) (ok_versions vs) id) ∧
  (∀ v older, ok_versions vs = v :: older → v_ID v ∈ Keep loc vs daily weekly).
Proof.
  assert (H : ∀ id, id ∈ Keep loc vs daily weekly ↔ kept_from (chosen loc (Z.max daily 1) (Z.max weekly 0)) (ok_versions vs) id).
  { intros i. unfold Keep. cbv zeta. rewrite (foldl_ok _ _ _ (keep_step_skips loc _ _)).
    apply (keep_loop loc (Z.max daily 1) (Z.max weekly 0)); [lia|apply ok_versions_ok]. }
  split; [apply H|]. intros v older E. apply H. exists [], v, older. split_and!; [done|done|].
  unfold chosen. apply orb_true_iff. left. apply Z.ltb_lt. simpl. lia.
Qed.

(** [KeepSet] keeps exactly the newest ok version of each of the
    [max days 1] most recent days that have one, and of each of the [max weeks 0]
    most recent ISO weeks that have one, at the location's wall clock. So the
    newest ok version is always kept. *)
Theorem keepset_exact (loc : location) (vs : list Version) (days weeks id : Z) :
  (id ∈ KeepSet loc vs days weeks ↔ kept_from (chosen_set loc (Z.max days 1) (Z.max weeks 0)) (ok_versions vs) id) ∧
  (∀ v older, ok_versions vs = v :: older → v_ID v ∈ KeepSet loc vs days weeks).
Proof.
  assert (H : ∀ id, id ∈ KeepSet loc vs days weeks ↔ kept_from (chosen_set loc (Z.max days 1) (Z.max weeks 0)) (ok_versions vs) id).
  { intros i. unfold KeepSet. cbv zeta. rewrite (foldl_ok _ _ _ (keepset_step_skips loc _ _)).
    apply (keepset_loop loc (Z.max days 1) (Z.max weeks 0)); [lia|lia|apply ok_versions_ok]. }
  split; [apply H|]. intros v older E. apply H. exists [], v, older. split_and!; [done|done|].
  unfold chosen_set, counts_period. apply orb_true_iff. left. apply andb_true_iff. split; [done|].
  apply Z.ltb_lt. change (size (days_of loc [])) with 0%nat. lia.
Qed.

(** Oldest first. *)
Definition older_first (vs : list Version) (a b : Z) : Prop :=
  ∃ v w, v ∈ vs ∧ w ∈ vs ∧ v_ID v = a ∧ v_ID w = b ∧ newer w v.

Lemma prune_list keep now vs :
  let out := v_ID <$> List.filter (removes keep now) (reverse (newestFirst vs)) in
  (∀ id, id ∈ out ↔ ∃ v, v ∈ vs ∧ v_ID v = id ∧ removes keep now v = true) ∧ StronglySorted (older_first vs) out.
Proof.
  cbv zeta. split.
  - intros id. rewrite list_elem_of_fmap. setoid_rewrite filter_bool_elem. setoid_rewrite elem_of_reverse.
    setoid_rewrite newestFirst_elem. naive_solver.
  - assert (Hin : ∀ v, v ∈ newestFirst vs → v ∈ vs) by (intros v; apply newestFirst_elem).
    pose proof (newestFirst_sorted vs) as Hs. revert Hin Hs. generalize (newestFirst vs) as l. intros l Hin.
    induction 1 as [|v l Hs IH Hall]; [constructor|]. rewrite reverse_cons, List.filter_app, fmap_app.
    assert (Hl : ∀ w, w ∈ l → w ∈ vs) by (intros; apply Hin; by right).
    specialize (IH Hl). rewrite Forall_forall in Hall.
    assert (Hsnoc : ∀ k, StronglySorted (older_first vs) k → (∀ i, i ∈ k → older_first vs i (v_ID v)) → StronglySorted (older_first vs) (k ++ [v_ID v])).
    { clear. intros k. induction 1 as [|i k Hs IH Hall]; intros H; simpl; [by repeat constructor|].
      constructor; [apply IH; set_solver|]. apply Forall_app. split; [done|]. constructor; [apply H; set_solver|done]. }
    simpl. destruct (removes keep now v); simpl; [|by rewrite app_nil_r]. apply Hsnoc; [done|].
    intros i (w & -> & [Hw _]%filter_bool_elem)%list_elem_of_fmap. rewrite elem_of_reverse in Hw.
    exists w, v. split_and!; [by apply Hl|apply Hin; by left|done|done|by apply Hall].
Qed.

(** [Prune] and [PruneSet] delete exactly the ok versions their keep set does
    not hold and the failed ones that are a week old or older, oldest first. In
    particular an ok version that is kept and a failed version of this week are
    never deleted. *)
Theorem prune_exact (loc : location) (vs : list Version) (n weekly : Z) (now : time) :
  let out keep := v_ID <$> List.filter (removes keep now) (reverse (newestFirst vs)) in
  Prune loc vs n weekly now = out (Keep loc vs n weekly) ∧
  PruneSet loc vs n weekly now = out (KeepSet loc vs n weekly) ∧
  (∀ keep id, id ∈ out keep ↔ ∃ v, v ∈ vs ∧ v_ID v = id ∧
     if v_OK v then id ∉ keep else FailedKeep ≤ dsub now (v_CreatedAt v)) ∧
  (∀ keep, StronglySorted (older_first vs) (out keep)).
Proof.
  cbv zeta. split_and!; [done|done| |intros keep; apply prune_list].
  intros keep id. rewrite (proj1 (prune_list keep now vs)). split; intros (v & Hv & <- & H); exists v; (split_and!; [done|done|]);
    unfold removes in *.
  - destruct (v_OK v); simpl in *.
    + case_bool_decide; [done|done].
    + destruct (Z.ltb_spec (dsub now (v_CreatedAt v)) FailedKeep); [done|lia].
  - destruct (v_OK v); simpl in *.
    + by rewrite bool_decide_false.
    + by rewrite (proj2 (Z.ltb_ge _ _)).
Qed.
