(* ===== verification/ResticTags.v ===== *)
(** * ResticTags: snapshot tags and groups ([internal/engines/restic/tags.go])

    [Tags] writes the tags of a snapshot and [ParseTags] reads them back: only a
    snapshot whose tags form exactly one group of the destination may ever be
    forgotten. *)
From stdpp Require Import base list strings pretty.
From Stdlib Require Import Ascii.
From S2P Require Import Prelude GoStrings.
Open Scope string_scope.
Open Scope Z_scope.

Definition TagBunkarr : string := "bunkarr".
Definition TagDestPrefix : string := "bunkarr-dest:".
Definition TagKindPrefix : string := "bunkarr-kind:".
Definition TagJobPrefix : string := "bunkarr-job:".
Definition TagSourcePrefix : string := "bunkarr-source:".
Definition TagBatchPrefix : string := "bunkarr-batch:".
Definition TagIntegrationPfx : string := "bunkarr-integration:".
Definition TagVersionPrefix : string := "bunkarr-version:".

(** The regular expressions [^[0-9a-f]{32}$] and [^[A-Za-z0-9._:-]{1,200}$]. *)
Definition in_range (lo hi : ascii) (c : ascii) : bool := (byte_of lo <=? byte_of c) && (byte_of c <=? byte_of hi).
Definition hex_char (c : ascii) : bool := in_range "0" "9" c || in_range "a" "f" c.
Definition name_char (c : ascii) : bool :=
  in_range "A" "Z" c || in_range "a" "z" c || in_range "0" "9" c || mem c ["."; "_"; ":"; "-"]%char.
Definition ValidEngineTag (tag : string) : bool :=
  (String.length tag =? 32)%nat && forallb hex_char (bytes tag).
Definition valid_version_name (s : string) : bool :=
  (1 <=? String.length s)%nat && (String.length s <=? 200)%nat && forallb name_char (bytes s).

Inductive version_kind := VersionMedia | VersionPlexDB | VersionArr | VersionManifest.
#[export] Instance version_kind_eq_dec : EqDecision version_kind.
Proof. solve_decision. Defined.
Definition kind_string (k : version_kind) : string :=
  match k with VersionMedia => "media" | VersionPlexDB => "plexdb" | VersionArr => "arr" | VersionManifest => "manifest" end.
(** [validKind] *)
Definition parse_kind (s : string) : option version_kind :=
  List.find (λ k, bool_decide (kind_string k = s)) [VersionMedia; VersionPlexDB; VersionArr; VersionManifest].

Record TagInput := mkTagInput {
  tg_EngineTag : string;
  tg_Kind : version_kind;
  tg_JobID : Z;
  tg_SourceID : Z;
  tg_Batch : Z;
  tg_IntegrationID : Z;
  tg_Version : string;
}.

Inductive tag_error := BadEngineTag | BadJob | NeedsSource | NeedsIntegration | BadVersion.

(** [Tags] (its unknown kinds have no [version_kind]). *)
Definition Tags (i : TagInput) : result tag_error (list string) :=
  guard? ValidEngineTag (tg_EngineTag i) else BadEngineTag;
  guard? 0 <? tg_JobID i else BadJob;
  let tags := [TagBunkarr; TagDestPrefix +:+ tg_EngineTag i; TagKindPrefix +:+ kind_string (tg_Kind i);
               TagJobPrefix +:+ pretty (tg_JobID i)] in
  let version tags :=
    guard? valid_version_name (tg_Version i) else BadVersion;
    Ok (tags ++ [TagVersionPrefix +:+ tg_Version i])%list in
  match tg_Kind i with
  | VersionMedia =>
      guard? (0 <? tg_SourceID i) && (0 <? tg_Batch i) else NeedsSource;
      Ok (tags ++ [TagSourcePrefix +:+ pretty (tg_SourceID i); TagBatchPrefix +:+ pretty (tg_Batch i)])%list
  | VersionPlexDB | VersionArr =>
      guard? 0 <? tg_IntegrationID i else NeedsIntegration;
      version (tags ++ [TagIntegrationPfx +:+ pretty (tg_IntegrationID i)])%list
  | VersionManifest => version tags
  end.

Record Group := mkGroup { gr_Kind : version_kind; gr_SourceID : Z; gr_IntegrationID : Z }.
#[export] Instance Group_eq_dec : EqDecision Group.
Proof. solve_decision. Defined.

Record TagInfo := mkTagInfo { ti_Group : Group; ti_JobID : Z; ti_Batch : Z; ti_Version : string }.

(** [positive]: [strconv.ParseInt] of digits without a leading zero. *)
Definition positive (s : string) : option Z :=
  match bytes s with
  | [] => None
  | c :: _ =>
      if bool_decide (c = "0"%char) || bool_decide (c = "+"%char) || bool_decide (c = "-"%char) then None
      else if forallb is_digit (bytes s) && (digits_value (bytes s) <=? max_i64) then
        let n := digits_value (bytes s) in if 0 <? n then Some n else None
      else None
  end.

(** A tag cut after its first colon. *)
Fixpoint cut_colon (l : list ascii) : option (list ascii * list ascii) :=
  match l with
  | [] => None
  | c :: l =>
      if decide (c = ":"%char) then Some ([c], l)
      else match cut_colon l with Some (p, v) => Some (c :: p, v) | None => None end
  end.
Definition tag_parts (t : string) : string * string :=
  match cut_colon (bytes t) with Some (p, v) => (of_bytes p, of_bytes v) | None => (t, "") end.

Definition known_prefixes : list string :=
  [TagBunkarr; TagDestPrefix; TagKindPrefix; TagJobPrefix; TagSourcePrefix; TagBatchPrefix; TagIntegrationPfx; TagVersionPrefix].

(** The loop of [ParseTags]: the Bunkarr tags as prefixes and values, in order,
    or [None] for an unknown one. *)
Fixpoint tag_values (tags : list string) : option (list (string * string)) :=
  match tags with
  | [] => Some []
  | t :: tags =>
      if negb (bool_decide (t = TagBunkarr) || has_prefix t (TagBunkarr +:+ "-")) then tag_values tags
      else
        let pv := tag_parts t in
        if mem (fst pv) known_prefixes then
          match tag_values tags with Some l => Some (pv :: l) | None => None end
        else None
  end.

Definition seen (l : list (string * string)) (p : string) : nat := count (λ x, bool_decide (fst x = p)) l.
(** The last value of a prefix ([""] when absent). *)
Definition value (l : list (string * string)) (p : string) : string :=
  foldl (λ v x, if bool_decide (fst x = p) then snd x else v) "" l.

Definition wanted (k : version_kind) : list string :=
  match k with
  | VersionMedia => [TagSourcePrefix; TagBatchPrefix]
  | VersionPlexDB | VersionArr => [TagIntegrationPfx; TagVersionPrefix]
  | VersionManifest => [TagVersionPrefix]
  end.

(** [ParseTags]; [None] is [ok] false (its partial information is not used). *)
Definition ParseTags (tags : list string) (engineTag : string) : option TagInfo :=
  if negb (ValidEngineTag engineTag) then None
  else match tag_values tags with
  | None => None
  | Some l =>
      if negb (forallb (λ p, (seen l p =? 0)%nat || (seen l p =? 1)%nat) known_prefixes) then None
      else if negb ((seen l TagBunkarr =? 1)%nat && bool_decide (value l TagDestPrefix = engineTag)
                    && (seen l TagKindPrefix =? 1)%nat && (seen l TagJobPrefix =? 1)%nat) then None
      else match parse_kind (value l TagKindPrefix), positive (value l TagJobPrefix) with
      | Some k, Some job =>
          if negb (forallb (λ p, Bool.eqb (seen l p =? 1)%nat (mem p (wanted k)))
                     [TagSourcePrefix; TagBatchPrefix; TagIntegrationPfx; TagVersionPrefix]) then None
          else
            let version_ok := negb (mem TagVersionPrefix (wanted k)) || valid_version_name (value l TagVersionPrefix) in
            let version := if mem TagVersionPrefix (wanted k) then value l TagVersionPrefix else "" in
            match k with
            | VersionMedia =>
                match positive (value l TagSourcePrefix), positive (value l TagBatchPrefix) with
                | Some src, Some b => if 2^30 <? b then None else Some (mkTagInfo (mkGroup k src 0) job b "")
                | _, _ => None
                end
            | VersionPlexDB | VersionArr =>
                match positive (value l TagIntegrationPfx) with
                | Some id => if version_ok then Some (mkTagInfo (mkGroup k 0 id) job 0 version) else None
                | None => None
                end
            | VersionManifest => if version_ok then Some (mkTagInfo (mkGroup k 0 0) job 0 version) else None
            end
      | _, _ => None
      end
  end.

(** ** What the tags of a snapshot say

    [parts_of] are the tags that [Tags] writes, cut after their colon, and
    [info_of] what they say. *)
Definition join_tag (pv : string * string) : string := fst pv +:+ snd pv.
Definition bunkarr_tag (t : string) : bool := bool_decide (t = TagBunkarr) || has_prefix t (TagBunkarr +:+ "-").

Definition kind_parts (i : TagInput) : list (string * string) :=
  match tg_Kind i with
  | VersionMedia => [(TagSourcePrefix, pretty (tg_SourceID i)); (TagBatchPrefix, pretty (tg_Batch i))]
  | VersionPlexDB | VersionArr => [(TagIntegrationPfx, pretty (tg_IntegrationID i)); (TagVersionPrefix, tg_Version i)]
  | VersionManifest => [(TagVersionPrefix, tg_Version i)]
  end.
Definition parts_of (i : TagInput) : list (string * string) :=
  (TagBunkarr, "") :: (TagDestPrefix, tg_EngineTag i) :: (TagKindPrefix, kind_string (tg_Kind i)) ::
  (TagJobPrefix, pretty (tg_JobID i)) :: kind_parts i.

Definition kind_valid (i : TagInput) : Prop :=
  match tg_Kind i with
  | VersionMedia => 0 < tg_SourceID i ∧ 0 < tg_Batch i
  | VersionPlexDB | VersionArr => 0 < tg_IntegrationID i ∧ valid_version_name (tg_Version i) = true
  | VersionManifest => valid_version_name (tg_Version i) = true
  end.
Definition tags_valid (i : TagInput) : Prop :=
  ValidEngineTag (tg_EngineTag i) = true ∧ 0 < tg_JobID i ∧ kind_valid i.

(** The ids are 64-bit; the batch is at most what [ParseTags] takes. *)
Definition ids_in_range (i : TagInput) : Prop :=
  tg_JobID i ≤ max_i64 ∧ tg_SourceID i ≤ max_i64 ∧ tg_IntegrationID i ≤ max_i64 ∧ tg_Batch i ≤ 2^30.

Definition info_of (i : TagInput) : TagInfo :=
  match tg_Kind i with
  | VersionMedia => mkTagInfo (mkGroup VersionMedia (tg_SourceID i) 0) (tg_JobID i) (tg_Batch i) ""
  | VersionPlexDB | VersionArr => mkTagInfo (mkGroup (tg_Kind i) 0 (tg_IntegrationID i)) (tg_JobID i) 0 (tg_Version i)
  | VersionManifest => mkTagInfo (mkGroup VersionManifest 0 0) (tg_JobID i) 0 (tg_Version i)
  end.

Lemma Tags_ok i ts : Tags i = Ok ts ↔ tags_valid i ∧ ts = join_tag <$> parts_of i.
Proof.
  unfold Tags, tags_valid, kind_valid, parts_of, kind_parts.
  destruct (ValidEngineTag _); [|split; [done|by intros [(? & _) _]]].
  destruct (0 <? tg_JobID i) eqn:Ej; [apply Z.ltb_lt in Ej|apply Z.ltb_ge in Ej; split; [done|intros [(_ & ? & _) _]; lia]].
  destruct (tg_Kind i); simpl.
  1: destruct (0 <? tg_SourceID i) eqn:E1, (0 <? tg_Batch i) eqn:E2.
  5,6: destruct (0 <? tg_IntegrationID i) eqn:E1, (valid_version_name (tg_Version i)) eqn:E2.
  13: destruct (valid_version_name (tg_Version i)) eqn:E2.
  all: simpl; split; try (intros [= <-]; repeat split; lia); try done; intros [(_ & _ & ?) ->]; try done; lia.
Qed.

(** *** Numbers *)
Lemma positive_spec s n : positive s = Some n ↔ 0 < n ≤ max_i64 ∧ s = pretty n.
Proof.
  unfold positive. split.
  - destruct (bytes s) as [|c l] eqn:Hb; [done|].
    destruct (bool_decide (c = "0"%char) || _ || _) eqn:Hc; [done|].
    destruct (forallb is_digit (c :: l) && _) eqn:Hd; [|done]. apply andb_true_iff in Hd as [Hd Hm].
    destruct (0 <? digits_value (c :: l)) eqn:Hp; [|done]. intros [= <-]. split; [lia|].
    apply Z.ltb_lt in Hp. destruct (pretty_digits _ Hp) as (Hd' & Hv & c' & l' & Hpb & Hc' & _).
    apply bytes_inj. rewrite Hb. apply digits_value_inj; [|by rewrite Hpb; naive_solver|done|done|done].
    simpl. intros [= ->]. done.
  - intros [Hn ->]. destruct (pretty_digits n ltac:(lia)) as (Hd & Hv & c & l & Hb & Hc & Hdc).
    rewrite Hb in *. rewrite Hd, Hv. rewrite (bool_decide_eq_false_2 (c = "0"%char)) by done.
    rewrite !bool_decide_eq_false_2 by (intros ->; done).
    rewrite (proj2 (Z.leb_le _ _)) by lia. simpl. by rewrite (proj2 (Z.ltb_lt _ _)) by lia.
Qed.

(** *** Cutting a tag after its colon *)
Lemma cut_colon_join l p v : cut_colon l = Some (p, v) → l = (p ++ v)%list ∧ last p = Some ":"%char.
Proof.
  revert p. induction l as [|c l IH]; simpl; [done|]. intros p. case_decide as Hc; [intros [= <- <-]; by subst|].
  destruct (cut_colon l) as [[q w]|]; [|done]. intros [= <- <-]. destruct (IH _ eq_refl) as [-> Hq].
  split; [done|]. destruct q; [done|]. by rewrite last_cons_cons.
Qed.

Lemma tag_parts_join t : join_tag (tag_parts t) = t.
Proof.
  unfold tag_parts, join_tag. destruct (cut_colon (bytes t)) as [[p v]|] eqn:E; simpl.
  - apply cut_colon_join in E as [E _]. by rewrite <-of_bytes_app, <-E, of_bytes_bytes.
  - apply bytes_inj. rewrite bytes_app. apply app_nil_r.
Qed.

Lemma tag_parts_bunkarr t v : tag_parts t = (TagBunkarr, v) → v = "".
Proof.
  unfold tag_parts. destruct (cut_colon (bytes t)) as [[p w]|] eqn:E; [|by intros [= _ <-]].
  apply cut_colon_join in E as [_ E]. intros [= Hp _]. apply (f_equal bytes) in Hp. rewrite bytes_of_bytes in Hp.
  subst p. done.
Qed.

Definition colon_prefixes : list string :=
  [TagDestPrefix; TagKindPrefix; TagJobPrefix; TagSourcePrefix; TagBatchPrefix; TagIntegrationPfx; TagVersionPrefix].
Lemma join_tag_parts p v : p ∈ colon_prefixes → tag_parts (p +:+ v) = (p, v).
Proof.
  unfold colon_prefixes. intros Hp. rewrite <-(of_bytes_bytes v) at 2.
  repeat (apply elem_of_cons in Hp as [->|Hp]); [reflexivity..|by apply elem_of_nil in Hp].
Qed.
Lemma join_tag_ours p v : p ∈ colon_prefixes → bunkarr_tag (p +:+ v) = true.
Proof.
  unfold colon_prefixes, bunkarr_tag. intros Hp. apply orb_true_iff. right. apply has_prefix_spec.
  repeat (apply elem_of_cons in Hp as [->|Hp]); [..|by apply elem_of_nil in Hp]; eexists (_ +:+ v); simpl; reflexivity.
Qed.

(** *** The loop of [ParseTags] *)
Lemma tag_values_spec tags l :
  tag_values tags = Some l ↔
  l = tag_parts <$> List.filter bunkarr_tag tags ∧ Forall (λ pv, fst pv ∈ known_prefixes) l.
Proof.
  revert l. induction tags as [|t tags IH]; intros l; cbn [tag_values List.filter].
  - split; [by intros [= <-]|by intros [-> _]].
  - fold (bunkarr_tag t). destruct (bunkarr_tag t); cbn [negb]; [|apply IH]. rewrite fmap_cons.
    destruct (mem (fst (tag_parts t)) known_prefixes) eqn:Hm.
    + apply mem_spec in Hm. destruct (tag_values tags) as [k|].
      * destruct (IH k) as [IH1 _]. destruct (IH1 eq_refl) as [-> Hk]. split; [intros [= <-]; split; [done|by constructor]|].
        by intros [-> _].
      * split; [done|]. intros [-> Hl]. apply Forall_cons in Hl as [_ Hl].
        destruct (IH (tag_parts <$> List.filter bunkarr_tag tags)) as [_ IH2]. by discriminate IH2.
    + split; [done|]. intros [-> Hl]. apply Forall_cons in Hl as [Hl _]. apply mem_spec in Hl. congruence.
Qed.

Lemma seen_perm l k p : l ≡ₚ k → seen l p = seen k p.
Proof. unfold seen, count. induction 1; simpl; repeat case_bool_decide; simpl; congruence. Qed.

Lemma seen_zero l p : seen l p = 0%nat ↔ p ∉ l.*1.
Proof.
  unfold seen. rewrite count_zero. setoid_rewrite bool_decide_eq_false. split.
  - intros H Hp. apply list_elem_of_fmap in Hp as ([q v] & -> & Hin). by apply (H _ Hin).
  - intros H [q v] Hin <-. apply H, list_elem_of_fmap. by eexists.
Qed.

Lemma value_go (l : list (string * string)) p v0 : p ∉ l.*1 → foldl (λ v x, if bool_decide (fst x = p) then snd x else v) v0 l = v0.
Proof.
  revert v0. induction l as [|[q v] l IH]; intros v0 Hp; [done|]. rewrite fmap_cons in Hp.
  cbn [foldl fst snd]. rewrite bool_decide_eq_false_2 by set_solver. apply IH. set_solver.
Qed.

Lemma value_once (l : list (string * string)) p v0 v : seen l p = 1%nat →
  foldl (λ v x, if bool_decide (fst x = p) then snd x else v) v0 l = v ↔ (p, v) ∈ l.
Proof.
  revert v0. induction l as [|[q w] l IH]; intros v0; [done|]. unfold seen, count. cbn [List.filter foldl fst snd].
  destruct (decide (q = p)) as [->|Hq].
  - rewrite bool_decide_eq_true_2 by done. cbn [List.length]. intros [= H%seen_zero]. rewrite value_go by done.
    rewrite elem_of_cons. split; [intros ->; by left|]. intros [[= ->]|Hin]; [done|]. destruct H.
    apply list_elem_of_fmap. by eexists (_, _).
  - rewrite bool_decide_eq_false_2 by done. intros H. rewrite (IH v0 H). rewrite elem_of_cons. naive_solver.
Qed.

Lemma NoDup_seen (l : list (string * string)) : NoDup l.*1 ↔ ∀ p, (seen l p ≤ 1)%nat.
Proof. apply (NoDup_fmap_count fst). Qed.

(** *** The groups *)
Lemma parse_kind_spec s k : parse_kind s = Some k ↔ s = kind_string k.
Proof.
  unfold parse_kind. split.
  - intros [_ H]%List.find_some. by apply bool_decide_eq_true in H.
  - intros ->. by destruct k.
Qed.

Lemma parts_of_known i : Forall (λ pv, fst pv ∈ known_prefixes) (parts_of i).
Proof. unfold parts_of, kind_parts. destruct (tg_Kind i); repeat (apply Forall_cons; split); try done; apply mem_spec; reflexivity. Qed.

Lemma parts_of_tags i : tag_parts <$> (join_tag <$> parts_of i) = parts_of i.
Proof.
  unfold parts_of, kind_parts. destruct (tg_Kind i); cbn [fmap list_fmap]; unfold join_tag; cbn [fst snd];
    change (tag_parts (TagBunkarr +:+ "")) with (TagBunkarr, "");
    rewrite !join_tag_parts by (apply mem_spec; reflexivity); reflexivity.
Qed.

(** The prefixes of a kind, each exactly once. *)
Definition kind_prefixes (k : version_kind) : list string := TagBunkarr :: TagDestPrefix :: TagKindPrefix :: TagJobPrefix :: wanted k.
Lemma parts_of_prefixes i : (parts_of i).*1 = kind_prefixes (tg_Kind i).
Proof. unfold parts_of, kind_parts, kind_prefixes, wanted. by destruct (tg_Kind i). Qed.
Lemma kind_prefixes_NoDup k : NoDup (kind_prefixes k).
Proof. apply (bool_decide_unpack _). destruct k; vm_compute; exact I. Qed.

Lemma same_parts (l m : list (string * string)) :
  NoDup l.*1 → NoDup m → m ⊆ l → (∀ p, p ∈ l.*1 → p ∈ m.*1) → l ≡ₚ m.
Proof.
  intros Hl Hm Hsub Hdom. apply NoDup_Permutation; [by eapply NoDup_fmap_1|done|]. intros [p v]. split; [|by apply Hsub].
  intros Hin. assert (Hp : p ∈ m.*1) by (apply Hdom, list_elem_of_fmap; by eexists (_, _)).
  apply list_elem_of_fmap in Hp as ([q w] & -> & Hw). cbn [fst] in *.
  assert (Hs : seen l q = 1%nat).
  { pose proof (proj1 (NoDup_seen l) Hl q). pose proof (seen_zero l q) as Hz.
    destruct (seen l q) as [|[|?]]; [|done|lia]. destruct (proj1 Hz eq_refl). apply list_elem_of_fmap. by eexists (_, _). }
  apply Hsub in Hw as Hw'. rewrite <-(value_once l q "" _ Hs) in Hw'. rewrite <-(value_once l q "" _ Hs) in Hin. congruence.
Qed.

Lemma value_in l p v : (seen l p =? 1)%nat = true → value l p = v → (p, v) ∈ l.
Proof. intros H%Nat.eqb_eq. apply value_once. exact H. Qed.

Section parsed.
Context (l : list (string * string)) (Hknown : Forall (λ pv, fst pv ∈ known_prefixes) l)
  (Hsingle : forallb (λ p, (seen l p =? 0)%nat || (seen l p =? 1)%nat) known_prefixes = true).

Lemma parsed_NoDup : NoDup l.*1.
Proof using All.
  apply NoDup_seen. intros p. destruct (decide (p ∈ known_prefixes)) as [Hp|Hp].
  - rewrite forallb_elem in Hsingle. specialize (Hsingle p Hp). apply orb_true_iff in Hsingle as [E|E]; apply Nat.eqb_eq in E; lia.
  - replace (seen l p) with 0%nat; [lia|]. symmetry. apply seen_zero. intros (pv & -> & Hin)%list_elem_of_fmap.
    rewrite Forall_forall in Hknown. by apply Hp, Hknown.
Qed.

(** The parts of a kind are all there and nothing else is. *)
Lemma parsed_perm i :
  forallb (λ p, Bool.eqb (seen l p =? 1)%nat (mem p (wanted (tg_Kind i))))
    [TagSourcePrefix; TagBatchPrefix; TagIntegrationPfx; TagVersionPrefix] = true →
  Forall (λ pv, pv ∈ l) (parts_of i) → l ≡ₚ parts_of i.
Proof using All.
  intros Hw Hall. apply same_parts; [apply parsed_NoDup| | |].
  - eapply NoDup_fmap_1. rewrite parts_of_prefixes. apply kind_prefixes_NoDup.
  - intros pv Hpv. rewrite Forall_forall in Hall. by apply Hall.
  - intros p Hp. rewrite parts_of_prefixes. rewrite forallb_elem in Hw. pose proof Hp as Hp'.
    apply list_elem_of_fmap in Hp' as (pv & -> & Hin). pose proof (proj1 (Forall_forall _ _) Hknown _ Hin) as Hk.
    assert (Hs : (seen l (fst pv) =? 1)%nat = true).
    { pose proof (proj1 (NoDup_seen l) parsed_NoDup (fst pv)). pose proof (seen_zero l (fst pv)) as Hz.
      apply Nat.eqb_eq. destruct (seen l (fst pv)); [by destruct (proj1 Hz eq_refl)|lia]. }
    unfold kind_prefixes. change known_prefixes with ([TagBunkarr; TagDestPrefix; TagKindPrefix; TagJobPrefix] ++
      [TagSourcePrefix; TagBatchPrefix; TagIntegrationPfx; TagVersionPrefix])%list in Hk.
    apply elem_of_app in Hk as [Hk|Hk].
    + change (TagBunkarr :: TagDestPrefix :: TagKindPrefix :: TagJobPrefix :: wanted (tg_Kind i))
        with ([TagBunkarr; TagDestPrefix; TagKindPrefix; TagJobPrefix] ++ wanted (tg_Kind i))%list.
      apply elem_of_app. by left.
    + specialize (Hw _ Hk). rewrite Hs in Hw. apply eqb_prop in Hw. symmetry in Hw. apply mem_spec in Hw.
      do 4 apply elem_of_cons, or_intror. done.
Qed.
End parsed.

Lemma seen_bunkarr_value tags : (seen (tag_parts <$> tags) TagBunkarr =? 1)%nat = true →
  (TagBunkarr, "") ∈ tag_parts <$> tags.
Proof.
  intros Hs. pose proof (value_in _ _ _ Hs eq_refl) as Hv. pose proof Hv as Hin.
  apply list_elem_of_fmap in Hv as (t & Ht & _). symmetry in Ht. apply tag_parts_bunkarr in Ht. by rewrite <-Ht.
Qed.

Lemma dest_seen l e : ValidEngineTag e = true → value l TagDestPrefix = e → (TagDestPrefix, e) ∈ l ∨ (1 < seen l TagDestPrefix)%nat.
Proof.
  intros Hv He. destruct (seen l TagDestPrefix) as [|[|n]] eqn:Hs; [|left|right; lia].
  - apply seen_zero in Hs. unfold value in He. rewrite value_go in He by done. by subst e.
  - by apply (value_once l _ "").
Qed.

Lemma parsed_bunkarr l e k job :
  ((seen l TagBunkarr =? 1)%nat && bool_decide (value l TagDestPrefix = e)
     && (seen l TagKindPrefix =? 1)%nat && (seen l TagJobPrefix =? 1)%nat) = true →
  parse_kind (value l TagKindPrefix) = Some k → positive (value l TagJobPrefix) = Some job →
  ValidEngineTag e = true → NoDup l.*1 → ((TagBunkarr, "") ∈ l ∨ (seen l TagBunkarr =? 1)%nat = false) →
  Forall (λ pv, pv ∈ l) [(TagBunkarr, ""); (TagDestPrefix, e); (TagKindPrefix, kind_string k); (TagJobPrefix, pretty job)]
  ∧ 0 < job ≤ max_i64.
Proof.
  rewrite !andb_true_iff, bool_decide_eq_true. intros (((Hb & Hd) & Hk) & Hj) Hkind Hjob He Hnd Hbk.
  apply parse_kind_spec in Hkind. apply positive_spec in Hjob as [Hjr Hjob]. split; [|done].
  apply Forall_cons; split; [destruct Hbk; [done|congruence]|].
  apply Forall_cons; split; [destruct (dest_seen l e He Hd); [done|]; pose proof (proj1 (NoDup_seen l) Hnd TagDestPrefix); lia|].
  apply Forall_cons; split; [by apply value_in|]. apply Forall_cons; split; [by apply value_in|done].
Qed.

Lemma parse_sound tags e info : ParseTags tags e = Some info →
  ∃ i, tg_EngineTag i = e ∧ ids_in_range i ∧ tags_valid i ∧
       tag_parts <$> List.filter bunkarr_tag tags ≡ₚ parts_of i ∧ info = info_of i.
Proof.
  unfold ParseTags. destruct (ValidEngineTag e) eqn:He; cbn [negb]; [|done].
  destruct (tag_values tags) as [l|] eqn:Hl; [|done]. apply tag_values_spec in Hl as [Hl Hknown].
  destruct (forallb _ known_prefixes) eqn:Hsingle; cbn [negb]; [|done].
  pose proof (parsed_NoDup l Hknown Hsingle) as Hnd. pose proof (parsed_perm l Hknown Hsingle) as Hperm.
  assert (Hbk : (TagBunkarr, "") ∈ l ∨ (seen l TagBunkarr =? 1)%nat = false).
  { destruct (seen l TagBunkarr =? 1)%nat eqn:E; [left; subst l; by apply seen_bunkarr_value|by right]. }
  destruct (_ && _ && _ && _) eqn:Hhead; cbn [negb]; [|done].
  destruct (parse_kind (value l TagKindPrefix)) as [k|] eqn:Hk; [|done].
  destruct (positive (value l TagJobPrefix)) as [job|] eqn:Hj; [|done].
  destruct (parsed_bunkarr l e k job Hhead Hk Hj He Hnd Hbk) as [Hparts Hjob].
  destruct (forallb _ [_; _; _; _]) eqn:Hw; cbn [negb]; [|done]. rewrite <-Hl. clear Hk Hj Hhead Hl.
  assert (Hval : ∀ p, p ∈ [TagSourcePrefix; TagBatchPrefix; TagIntegrationPfx; TagVersionPrefix] → p ∈ wanted k →
    (p, value l p) ∈ l).
  { intros p Hp Hpw. rewrite forallb_elem in Hw. specialize (Hw p Hp). apply mem_spec in Hpw. rewrite Hpw in Hw.
    apply eqb_prop in Hw. by apply value_in. }
  unfold tags_valid, ids_in_range, kind_valid, info_of, max_i64 in *.
  destruct k; cbn [wanted] in *.
  - destruct (positive (value l TagSourcePrefix)) as [src|] eqn:Es; [|done].
    destruct (positive (value l TagBatchPrefix)) as [b|] eqn:Eb; [|done]. apply positive_spec in Es as [Hs Es], Eb as [Hb Eb].
    destruct (2^30 <? b) eqn:E30; [done|]. intros [= <-].
    exists (mkTagInput e VersionMedia job src b 0 ""). cbn. split_and!; try done; try (unfold max_i64 in *; lia).
    apply Hperm; [done|]. apply (Forall_app_2 _ [_; _; _; _] [_; _]); [done|]. cbn. rewrite <-Es, <-Eb.
    repeat (apply Forall_cons; split); try done; apply Hval; apply mem_spec; reflexivity.
  - destruct (positive (value l TagIntegrationPfx)) as [id|] eqn:Es; [|done]. apply positive_spec in Es as [Hs Es].
    destruct (_ || _) eqn:Ev; [|done]. intros [= <-].
    exists (mkTagInput e VersionPlexDB job 0 0 id (value l TagVersionPrefix)). cbn.
    split_and!; try done; try (unfold max_i64 in *; lia).
    apply Hperm; [done|]. apply (Forall_app_2 _ [_; _; _; _] [_; _]); [done|]. cbn. rewrite <-Es.
    repeat (apply Forall_cons; split); try done; apply Hval; apply mem_spec; reflexivity.
  - destruct (positive (value l TagIntegrationPfx)) as [id|] eqn:Es; [|done]. apply positive_spec in Es as [Hs Es].
    destruct (_ || _) eqn:Ev; [|done]. intros [= <-].
    exists (mkTagInput e VersionArr job 0 0 id (value l TagVersionPrefix)). cbn.
    split_and!; try done; try (unfold max_i64 in *; lia).
    apply Hperm; [done|]. apply (Forall_app_2 _ [_; _; _; _] [_; _]); [done|]. cbn. rewrite <-Es.
    repeat (apply Forall_cons; split); try done; apply Hval; apply mem_spec; reflexivity.
  - destruct (_ || _) eqn:Ev; [|done]. intros [= <-].
    exists (mkTagInput e VersionManifest job 0 0 0 (value l TagVersionPrefix)). cbn.
    split_and!; try done; try (unfold max_i64 in *; lia).
    apply Hperm; [done|]. apply (Forall_app_2 _ [_; _; _; _] [_]); [done|]. cbn.
    repeat (apply Forall_cons; split); try done; apply Hval; apply mem_spec; reflexivity.
Qed.

Lemma parse_complete tags i :
  ids_in_range i → tags_valid i → tag_parts <$> List.filter bunkarr_tag tags ≡ₚ parts_of i →
  ParseTags tags (tg_EngineTag i) = Some (info_of i).
Proof.
  intros (Hjr & Hsr & Hir & Hbr) (He & Hj & Hk) Hperm. unfold ParseTags. rewrite He. cbn [negb].
  set (l := tag_parts <$> List.filter bunkarr_tag tags) in *.
  rewrite (proj2 (tag_values_spec tags l)) by (split; [done|]; rewrite Hperm; apply parts_of_known).
  assert (Hseen : ∀ p, seen l p = seen (parts_of i) p) by (intros; by apply seen_perm).
  assert (Hone : ∀ p v, (p, v) ∈ parts_of i → value l p = v).
  { intros p v Hin. apply value_once; [|by rewrite Hperm]. rewrite Hseen.
    pose proof (proj1 (NoDup_seen (parts_of i))) as Hn. rewrite parts_of_prefixes in Hn.
    specialize (Hn (kind_prefixes_NoDup _) p). destruct (decide (seen (parts_of i) p = 0%nat)) as [Hz|]; [|lia].
    apply seen_zero in Hz. destruct Hz. apply list_elem_of_fmap. by eexists (_, _). }
  assert (Hnum : ∀ p n, (p, pretty n) ∈ parts_of i → 0 < n ≤ max_i64 → positive (value l p) = Some n).
  { intros p n Hin Hn. apply positive_spec. by rewrite (Hone p (pretty n) Hin). }
  rewrite (Hone TagDestPrefix (tg_EngineTag i)) by (unfold parts_of; by do 1 apply list_elem_of_further; left).
  rewrite (Hone TagKindPrefix (kind_string (tg_Kind i))) by (unfold parts_of; by do 2 apply list_elem_of_further; left).
  rewrite (Hnum TagJobPrefix (tg_JobID i)) by (unfold parts_of; first [lia|by do 3 apply list_elem_of_further; left]).
  rewrite (proj2 (parse_kind_spec _ (tg_Kind i))) by done. rewrite (bool_decide_eq_true_2 (tg_EngineTag i = _)) by done.
  cbn [forallb known_prefixes]. rewrite !Hseen. unfold kind_valid, max_i64 in *. clear He.
  destruct i as [e k job src b id v]. destruct k; cbn in Hj, Hk, Hjr, Hsr, Hir, Hbr, Hone, Hnum |- *; unfold info_of; cbn.
  - rewrite (Hnum TagSourcePrefix src), (Hnum TagBatchPrefix b) by first [lia|set_solver].
    rewrite (proj2 (Z.ltb_ge _ _)) by lia. done.
  - destruct Hk as [? Hv]. rewrite (Hnum TagIntegrationPfx id) by first [lia|set_solver].
    rewrite (Hone TagVersionPrefix v) by set_solver. by rewrite Hv.
  - destruct Hk as [? Hv]. rewrite (Hnum TagIntegrationPfx id) by first [lia|set_solver].
    rewrite (Hone TagVersionPrefix v) by set_solver. by rewrite Hv.
  - rewrite (Hone TagVersionPrefix v) by set_solver. by rewrite Hk.
Qed.

Lemma ours_perm tags i : tag_parts <$> List.filter bunkarr_tag tags ≡ₚ parts_of i ↔
  List.filter bunkarr_tag tags ≡ₚ join_tag <$> parts_of i.
Proof.
  split; intros H.
  - rewrite <-H. rewrite <-list_fmap_compose. erewrite list_fmap_ext; [by rewrite list_fmap_id|].
    intros ? t _. apply tag_parts_join.
  - rewrite H. by rewrite parts_of_tags.
Qed.

(** C29: a snapshot belongs to a group of the destination row exactly when its
    Bunkarr tags are, in any order and next to any tags of the user, the tags that
    [Tags] writes for this row; what [ParseTags] then says is what they were
    written from. So every snapshot Bunkarr tags is read back, and no other one
    (another row's, one with a missing, repeated, unknown or malformed tag) ever
    belongs to a group. *)
Theorem parse_exactly_written tags e info :
  ParseTags tags e = Some info ↔
  ∃ i ts, Tags i = Ok ts ∧ tg_EngineTag i = e ∧ ids_in_range i ∧
          List.filter bunkarr_tag tags ≡ₚ ts ∧ info = info_of i.
Proof.
  split.
  - intros (i & He & Hr & Hv & Hp & Hi)%parse_sound. exists i, (join_tag <$> parts_of i).
    rewrite Tags_ok. by rewrite <-ours_perm.
  - intros (i & ts & [Hv ->]%Tags_ok & <- & Hr & Hp%ours_perm & ->). by apply parse_complete.
Qed.

Example parse_sample :
  ParseTags ["mine"; "bunkarr-kind:media"; "bunkarr"; "bunkarr-batch:2"; "bunkarr-source:7"; "bunkarr-job:31";
             "bunkarr-dest:00112233445566778899aabbccddeeff"] "00112233445566778899aabbccddeeff"
  = Some (mkTagInfo (mkGroup VersionMedia 7 0) 31 2 "").
Proof. reflexivity. Qed.
