(* ===== verification/ResticKeep.v ===== *)
(** * ResticKeep: the keep set of restic retention ([internal/engines/restic/keep.go])

    [protect] computes what may never be forgotten, [KeepMedia] the forget list of
    the retention job and [FilterForget] what is left of forget requests. The code
    ranges over maps: the order it visits groups in is a parameter. *)
From stdpp Require Import base gmap list strings.
From S2P Require Import Prelude GoStrings GoTime ResticTags.
Open Scope string_scope.
Open Scope Z_scope.

(** What is used of [Snapshot] (json.go). *)
Record Snapshot := mkSnapshot { sn_ID : string; sn_Time : time; sn_Tags : list string }.
#[export] Instance Snapshot_eq_dec : EqDecision Snapshot.
Proof. solve_decision. Defined.

Inductive reason :=
| KeepForeign | KeepDuplicate | KeepFuture | KeepNewest | KeepComplete | KeepBase | KeepReferenced | KeepOrphan
| KeepConfig | KeepMismatch | KeepDaily | KeepWeekly | KeepMonthly | KeepYearly.
#[export] Instance reason_eq_dec : EqDecision reason.
Proof. solve_decision. Defined.

Record Recorded := mkRecorded { rc_SourceID : Z; rc_Complete : bool; rc_Batch : Z }.
Record Retention := mkRetention { rt_Daily : Z; rt_Weekly : Z; rt_Monthly : Z; rt_Yearly : Z }.

#[export] Instance version_kind_countable : Countable version_kind.
Proof.
  refine (inj_countable' (λ k, match k with VersionMedia => 0 | VersionPlexDB => 1 | VersionArr => 2 | VersionManifest => 3 end)
    (λ z, if z =? 0 then VersionMedia else if z =? 1 then VersionPlexDB else if z =? 2 then VersionArr else VersionManifest) _).
  by intros [].
Defined.
#[export] Instance Group_countable : Countable Group.
Proof.
  refine (inj_countable' (λ g, (gr_Kind g, gr_SourceID g, gr_IntegrationID g)) (λ x, mkGroup x.1.1 x.1.2 x.2) _).
  by intros [].
Defined.

Abbreviation groups_map := (gmap Group (list Snapshot)).
Abbreviation keep_map := (gmap string reason).

(** The maps to booleans are sets of the keys that map to true. A nil [Loc] is UTC. *)
Record KeepInput := mkKeepInput {
  ki_Snapshots : list Snapshot;
  ki_Recorded : gmap string Recorded;
  ki_Base : gmap Z string;
  ki_Refs : gset string;
  ki_LiveSources : gset Z;
  ki_LiveIntegrations : gset Z;
  ki_Retention : Retention;
  ki_EngineTag : string;
  ki_Now : time;
  ki_Loc : option location;
}.

(** [mark]: the first reason stays. *)
Definition mark (id : string) (why : reason) (keep : keep_map) : keep_map :=
  match keep !! id with Some _ => keep | None => <[id := why]> keep end.

(** Newest first in a group, oldest first among the candidates. *)
Definition newest_first (a b : Snapshot) : Z := then_cmp (zcmp (sn_Time b) (sn_Time a)) (str_cmp (sn_ID b) (sn_ID a)).
Definition oldest_first (a b : Snapshot) : Z := then_cmp (zcmp (sn_Time a) (sn_Time b)) (str_cmp (sn_ID a) (sn_ID b)).

(** *** [bucketKeep] *)
Record rule := mkRule { ru_n : Z; ru_why : reason; ru_key : time → Z; ru_last : Z }.

Section buckets.
Context (loc : location).
Definition day_key (t : time) : Z := let d := Date loc t in cv_year d * 10000 + cv_month d * 100 + cv_day d.
Definition week_key (t : time) : Z := let yw := ISOWeek loc t in yw.1 * 100 + yw.2.
Definition month_key (t : time) : Z := let d := Date loc t in cv_year d * 100 + cv_month d.
Definition year_key (t : time) : Z := cv_year (Date loc t).
Definition rules (r : Retention) : list rule :=
  [mkRule (rt_Daily r) KeepDaily day_key (-1); mkRule (rt_Weekly r) KeepWeekly week_key (-1);
   mkRule (rt_Monthly r) KeepMonthly month_key (-1); mkRule (rt_Yearly r) KeepYearly year_key (-1)].

(** One rule at one snapshot: the rule after it, and whether it keeps the snapshot. *)
Definition rule_step (s : Snapshot) (ru : rule) : rule * bool :=
  if ru_n ru <=? 0 then (ru, false)
  else let k := ru_key ru (sn_Time s) in
    if k =? ru_last ru then (ru, false) else (mkRule (ru_n ru - 1) (ru_why ru) (ru_key ru) k, true).

Fixpoint rules_step (s : Snapshot) (rus : list rule) (keep : keep_map) : list rule * keep_map :=
  match rus with
  | [] => ([], keep)
  | ru :: rus =>
      let '(ru', keeps) := rule_step s ru in
      let '(rus', keep) := rules_step s rus (if keeps then mark (sn_ID s) (ru_why ru) keep else keep) in
      (ru' :: rus', keep)
  end.

Definition bucketKeep (newestFirst : list Snapshot) (r : Retention) : keep_map :=
  (foldl (λ st s, rules_step s st.1 st.2) (rules r, ∅) newestFirst).2.
End buckets.

Section keep.
Context (inp : KeepInput).

Definition times_listed (id : string) : nat := count (λ s, bool_decide (sn_ID s = id)) (ki_Snapshots inp).
Definition listed (id : string) : bool := existsb (λ s, bool_decide (sn_ID s = id)) (ki_Snapshots inp).
Definition complete (s : Snapshot) : bool :=
  match ki_Recorded inp !! sn_ID s with Some r => rc_Complete r | None => false end.
Definition map_get (id : option string) : string := default "" id.

(** The grouping loop of [protect]. *)
Definition group_step (st : keep_map * groups_map) (s : Snapshot) : keep_map * groups_map :=
  let '(keep, groups) := st in
  if (1 <? times_listed (sn_ID s))%nat then (<[sn_ID s := KeepDuplicate]> keep, groups)
  else match ParseTags (sn_Tags s) (ki_EngineTag inp) with
  | None => (<[sn_ID s := KeepForeign]> keep, groups)
  | Some info =>
      if bool_decide (sn_ID s = "") then (<[sn_ID s := KeepForeign]> keep, groups)
      else (keep, <[ti_Group info := (default [] (groups !! ti_Group info) ++ [s])%list]> groups)
  end.

Definition orphan_group (g : Group) : bool :=
  match gr_Kind g with
  | VersionMedia => negb (bool_decide (gr_SourceID g ∈ ki_LiveSources inp))
  | VersionPlexDB | VersionArr => negb (bool_decide (gr_IntegrationID g ∈ ki_LiveIntegrations inp))
  | VersionManifest => false
  end.
Definition is_media (g : Group) : bool := bool_decide (gr_Kind g = VersionMedia).

(** The [switch] of a snapshot of a group. *)
Definition protection (g : Group) (s : Snapshot) : option reason :=
  if ki_Now inp <? sn_Time s then Some KeepFuture
  else if bool_decide (sn_ID s ∈ ki_Refs inp) then Some KeepReferenced
  else if is_media g && bool_decide (map_get (ki_Base inp !! gr_SourceID g) = sn_ID s) then Some KeepBase
  else if orphan_group g then Some KeepOrphan
  else if negb (is_media g) then None
  else match ki_Recorded inp !! sn_ID s with
  | Some r => if negb (rc_SourceID r =? 0) && negb (rc_SourceID r =? gr_SourceID g) then Some KeepMismatch else None
  | None => None
  end.

Definition protect_group (keep : keep_map) (g : Group) (snaps : list Snapshot) : keep_map :=
  let keep := match snaps with s :: _ => mark (sn_ID s) KeepNewest keep | [] => keep end in
  let keep := match List.find complete snaps with Some s => mark (sn_ID s) KeepComplete keep | None => keep end in
  foldl (λ keep s, match protection g s with Some why => mark (sn_ID s) why keep | None => keep end) keep snaps.

(** Every source's base, wherever it is listed. *)
Definition base_step (keep : keep_map) (b : Z * string) : keep_map :=
  match keep !! b.2 with
  | Some _ => keep
  | None => if listed b.2 && negb (b.1 =? 0) then <[b.2 := KeepBase]> keep else keep
  end.

(** The orders in which the ranges over [p.groups] (in [protect] and in
    [KeepMedia]) and over [in.Base] visit their entries. *)
Context (visit visit2 : groups_map → list (Group * list Snapshot)) (visit_base : gmap Z string → list (Z * string)).

(** The groups, sorted newest first, and the protections. *)
Definition protect : keep_map * groups_map :=
  let '(keep, groups) := foldl group_step (∅, ∅) (ki_Snapshots inp) in
  let groups := isort newest_first <$> groups in
  let keep := foldl (λ keep gs, protect_group keep gs.1 gs.2) keep (visit groups) in
  (foldl base_step keep (visit_base (ki_Base inp)), groups).

Definition mark_all (why : reason) (keep : keep_map) (snaps : list Snapshot) : keep_map :=
  foldl (λ keep s, mark (sn_ID s) why keep) keep snaps.
(** The reasons of [extra] where there is none yet. *)
Definition mark_map (extra keep : keep_map) : keep_map := keep ∪ extra.

Definition media_step (loc : location) (st : list Snapshot * keep_map) (gs : Group * list Snapshot) : list Snapshot * keep_map :=
  let '(candidates, keep) := st in
  let snaps := gs.2 in
  if negb (is_media gs.1) then (candidates, mark_all KeepConfig keep snaps)
  else
    let keep := mark_map (bucketKeep loc (List.filter complete snaps) (ki_Retention inp)) keep in
    ((candidates ++ List.filter (λ s, bool_decide (keep !! sn_ID s = None)) snaps)%list, keep).

Definition KeepMedia : list string * keep_map :=
  let '(keep, groups) := protect in
  let '(candidates, keep) := foldl (media_step (default UTC (ki_Loc inp))) ([], keep) (visit2 groups) in
  (sn_ID <$> isort oldest_first candidates, keep).

Inductive drop_reason := DropUnlisted | DropKept (why : reason) | DropMedia.

Definition media_ids (groups : list (Group * list Snapshot)) : list string :=
  concat ((λ gs, if is_media gs.1 then sn_ID <$> gs.2 else []) <$> groups).

Definition request_step (keep : keep_map) (media : list string)
    (st : list string * gmap string drop_reason * gset string) (id : string) : list string * gmap string drop_reason * gset string :=
  let '(forget, dropped, seen) := st in
  if bool_decide (id ∈ seen) then st
  else if negb (listed id) then (forget, <[id := DropUnlisted]> dropped, {[id]} ∪ seen)
  else match keep !! id with
  | Some why => (forget, <[id := DropKept why]> dropped, {[id]} ∪ seen)
  | None =>
      if mem id media then (forget, <[id := DropMedia]> dropped, {[id]} ∪ seen)
      else ((forget ++ [id])%list, dropped, {[id]} ∪ seen)
  end.

Definition FilterForget (requested : list string) : list string * gmap string drop_reason :=
  let '(keep, groups) := protect in
  (foldl (request_step keep (media_ids (visit2 groups))) ([], ∅, ∅) requested).1.
End keep.

Lemma and_iff_guard (A B C : Prop) : (A → (B ↔ C)) → (A ∧ B ↔ A ∧ C).
Proof. tauto. Qed.

(** ** Marks *)
Lemma mark_dom id why (keep : keep_map) : dom (mark id why keep) ≡ {[id]} ∪ dom keep.
Proof.
  unfold mark. destruct (keep !! id) eqn:E; [|by rewrite dom_insert].
  apply elem_of_dom_2 in E. set_solver.
Qed.
Lemma mark_elem id why (keep : keep_map) x : x ∈ dom (mark id why keep) ↔ x = id ∨ x ∈ dom keep.
Proof. rewrite mark_dom. set_solver. Qed.
Lemma mark_map_elem (extra keep : keep_map) x : x ∈ dom (mark_map extra keep) ↔ x ∈ dom keep ∨ x ∈ dom extra.
Proof. unfold mark_map. rewrite dom_union. set_solver. Qed.

(** A fold that only adds marks. *)
Lemma fold_dom {A} (f : keep_map → A → keep_map) (P : A → string → Prop) l keep x :
  (∀ keep a x, x ∈ dom (f keep a) ↔ x ∈ dom keep ∨ P a x) →
  x ∈ dom (foldl f keep l) ↔ x ∈ dom keep ∨ ∃ a, a ∈ l ∧ P a x.
Proof.
  intros Hf. revert keep. induction l as [|a l IH]; intros keep; simpl; [set_solver|].
  rewrite IH, Hf. setoid_rewrite elem_of_cons. naive_solver.
Qed.

(** ** Buckets

    The runs of equal keys: a snapshot starts a run when its key differs from the
    previous one's. A rule keeps the snapshots that start its first [n] runs. *)
Section runs.
Context (key : time → Z).
Definition last_key (before : list Snapshot) : Z := match last before with Some s => key (sn_Time s) | None => -1 end.
Definition starts_run (before : list Snapshot) (s : Snapshot) : bool := negb (key (sn_Time s) =? last_key before).
Fixpoint runs_from (before l : list Snapshot) : Z :=
  match l with
  | [] => 0
  | s :: l => (if starts_run before s then 1 else 0) + runs_from (before ++ [s]) l
  end.
Definition runs (l : list Snapshot) : Z := runs_from [] l.

Lemma runs_from_snoc before l s :
  runs_from before (l ++ [s]) = runs_from before l + (if starts_run (before ++ l) s then 1 else 0).
Proof.
  revert before. induction l as [|t l IH]; intros before; cbn [runs_from app]; [rewrite app_nil_r; lia|].
  rewrite IH, <-app_assoc. simpl. lia.
Qed.
Lemma runs_snoc l s : runs (l ++ [s]) = runs l + (if starts_run l s then 1 else 0).
Proof. apply runs_from_snoc. Qed.
Lemma runs_nonneg l : 0 ≤ runs l.
Proof. induction l as [|s l IH] using rev_ind; [done|]. rewrite runs_snoc. destruct (starts_run l s); lia. Qed.
End runs.

Definition rule_keeps (ru : rule) (l : list Snapshot) (s : Snapshot) : Prop :=
  ∃ before after, l = (before ++ s :: after)%list ∧ starts_run (ru_key ru) before s = true ∧ runs (ru_key ru) before < ru_n ru.

Definition rule_after (ru : rule) (l : list Snapshot) : rule := foldl (λ ru s, (rule_step s ru).1) ru l.

(** A rule with a count left remembers the key before it. *)
Lemma rule_after_spec ru l : ru_last ru = -1 → let ru' := rule_after ru l in
  ru_why ru' = ru_why ru ∧ ru_key ru' = ru_key ru ∧
  (if runs (ru_key ru) l <? ru_n ru then ru_n ru' = ru_n ru - runs (ru_key ru) l ∧ ru_last ru' = last_key (ru_key ru) l
   else ru_n ru' ≤ 0).
Proof.
  intros Hlast. cbv zeta. induction l as [|s l IH] using rev_ind.
  - simpl. split_and!; [done|done|]. unfold runs. simpl. destruct (Z.ltb_spec 0 (ru_n ru)); [split; [lia|done]|lia].
  - unfold rule_after in *. rewrite foldl_snoc. destruct IH as (Hw & Hk & IH). set (ru' := foldl _ ru l) in *.
    rewrite runs_snoc. pose proof (runs_nonneg (ru_key ru) l) as H0. unfold rule_step.
    assert (Hl : last_key (ru_key ru) (l ++ [s]) = ru_key ru (sn_Time s)) by (unfold last_key; by rewrite last_snoc).
    destruct (Z.ltb_spec (runs (ru_key ru) l) (ru_n ru)) as [Hlt|Hge].
    + destruct IH as [Hn Hla]. rewrite (proj2 (Z.leb_gt _ _)) by lia. unfold starts_run. rewrite Hk, Hla.
      destruct (Z.eqb_spec (ru_key ru (sn_Time s)) (last_key (ru_key ru) l)) as [E|E]; cbn.
      * split_and!; [done|done|]. rewrite (proj2 (Z.ltb_lt _ _)) by lia. rewrite Hl, E. split; [lia|done].
      * split_and!; [done|done|]. destruct (Z.ltb_spec (runs (ru_key ru) l + 1) (ru_n ru)); [|lia]. split; [lia|done].
    + rewrite (proj2 (Z.leb_le _ _)) by lia. split_and!; [done|done|].
      destruct (starts_run _ _ _); rewrite (proj2 (Z.ltb_ge _ _)) by lia; done.
Qed.

Lemma rule_step_keeps ru l s : ru_last ru = -1 →
  (rule_step s (rule_after ru l)).2 = starts_run (ru_key ru) l s && (runs (ru_key ru) l <? ru_n ru).
Proof.
  intros Hlast. destruct (rule_after_spec ru l Hlast) as (_ & Hk & H). unfold rule_step. rewrite Hk.
  destruct (Z.ltb_spec (runs (ru_key ru) l) (ru_n ru)) as [Hlt|Hge].
  - destruct H as [Hn Hla]. rewrite (proj2 (Z.leb_gt _ _)) by lia. rewrite Hla. unfold starts_run. by destruct (_ =? _).
  - rewrite (proj2 (Z.leb_le _ _)) by done. by rewrite andb_false_r.
Qed.

Lemma rules_step_spec s rus keep : let '(rus', keep') := rules_step s rus keep in
  rus' = (λ ru, (rule_step s ru).1) <$> rus ∧
  ∀ x, x ∈ dom keep' ↔ x ∈ dom keep ∨ (x = sn_ID s ∧ ∃ ru, ru ∈ rus ∧ (rule_step s ru).2 = true).
Proof.
  revert keep. induction rus as [|ru rus IH]; intros keep; simpl; [set_solver|].
  destruct (rule_step s ru) as [ru' keeps] eqn:E.
  specialize (IH (if keeps then mark (sn_ID s) (ru_why ru) keep else keep)).
  destruct (rules_step s rus _) as [rus' keep']. destruct IH as [-> IH]. split; [done|].
  intros x. rewrite IH.
  assert (Hm : x ∈ dom (if keeps then mark (sn_ID s) (ru_why ru) keep else keep) ↔
    x ∈ dom keep ∨ (x = sn_ID s ∧ (rule_step s ru).2 = true)).
  { rewrite E. destruct keeps; simpl; [rewrite mark_elem; tauto|]. split; [by left|]. intros [?|[_ ?]]; done. }
  rewrite Hm. split.
  - intros [[?|[-> H]]|[-> (ru2 & Hin & H)]]; [by left|right; split; [done|]; exists ru; split; [by left|done]|].
    right. split; [done|]. exists ru2. split; [by right|done].
  - intros [?|[-> (ru2 & [->|Hin]%elem_of_cons & H)]]; [by left; left|by left; right|]. right. split; [done|]. by exists ru2.
Qed.

Lemma bucketKeep_dom loc l r x : x ∈ dom (bucketKeep loc l r) ↔
  ∃ s, sn_ID s = x ∧ ∃ ru, ru ∈ rules loc r ∧ rule_keeps ru l s.
Proof.
  unfold bucketKeep.
  assert (Hr : ∀ ru, ru ∈ rules loc r → ru_last ru = -1).
  { unfold rules. intros ru. rewrite !elem_of_cons. naive_solver set_solver. }
  revert Hr. generalize (rules loc r) as rus. intros rus Hr.
  assert (H : let '(rus', keep) := foldl (λ st s, rules_step s st.1 st.2) (rus, ∅) l in
    rus' = (λ ru, rule_after ru l) <$> rus ∧ (x ∈ dom keep ↔ ∃ s, sn_ID s = x ∧ ∃ ru, ru ∈ rus ∧ rule_keeps ru l s)).
  2: { destruct (foldl _ _ l) as [rus' keep]. by destruct H. }
  induction l as [|s l IH] using rev_ind.
  - split; [symmetry; apply list_fmap_id|]. split; [set_solver|].
    intros (s & _ & ru & _ & before & after & Hl & _). by destruct before.
  - rewrite foldl_snoc. destruct (foldl _ _ l) as [rus' keep]. destruct IH as [-> IH]. cbn [fst snd].
    pose proof (rules_step_spec s ((λ ru, rule_after ru l) <$> rus) keep) as Hs.
    destruct (rules_step s _ keep) as [rus'' keep']. destruct Hs as [-> Hs]. split.
    + rewrite <-list_fmap_compose. apply list_fmap_ext. intros _ ru _. unfold rule_after. by rewrite foldl_snoc.
    + rewrite Hs, IH. split.
      * intros [(t & <- & ru & Hru & before & after & -> & Ht)|[-> (ru & Hru & Hk)]].
        -- exists t. split; [done|]. exists ru. split; [done|]. exists before, (after ++ [s])%list. split; [by rewrite <-app_assoc|done].
        -- apply list_elem_of_fmap in Hru as (ru0 & -> & Hru). exists s. split; [done|]. exists ru0. split; [done|].
           rewrite rule_step_keeps in Hk by (by apply Hr). apply andb_true_iff in Hk as [H1 H2%Z.ltb_lt].
           by exists l, [].
      * intros (t & <- & ru & Hru & before & after & Hl & Ht). destruct after as [|a after _] using rev_ind.
        -- apply app_inj_tail in Hl as [-> ->]. right. split; [done|]. exists (rule_after ru before).
           split; [apply list_elem_of_fmap; by exists ru|]. rewrite rule_step_keeps by (by apply Hr).
           destruct Ht as [-> Ht]. by apply Z.ltb_lt.
        -- rewrite app_comm_cons, app_assoc in Hl. apply app_inj_tail in Hl as [-> ->]. left. exists t. split; [done|].
           exists ru. split; [done|]. by exists before, after.
Qed.

(** ** Groups *)
Definition not_newer (a b : Snapshot) : Prop := sn_Time a < sn_Time b ∨ (sn_Time a = sn_Time b ∧ str_le (sn_ID a) (sn_ID b)).
Lemma oldest_first_le a b : oldest_first a b ≤ 0 ↔ not_newer a b.
Proof. apply then_zcmp. Qed.
Lemma newest_first_le a b : newest_first a b ≤ 0 ↔ not_newer b a.
Proof. unfold newest_first. rewrite then_zcmp. unfold not_newer, str_le. lia. Qed.
#[export] Instance oldest_first_ordering : Ordering oldest_first.
Proof. apply (lex_str_ordering sn_Time sn_ID), oldest_first_le. Qed.
#[export] Instance newest_first_ordering : Ordering newest_first.
Proof.
  split; intros *; rewrite !newest_first_le, <-!oldest_first_le.
  - pose proof (cmp_total oldest_first a b). tauto.
  - intros H1 H2. by eapply (cmp_trans oldest_first).
Qed.
Lemma not_newer_antisym a b : not_newer a b → not_newer b a → sn_ID a = sn_ID b.
Proof. intros [|[? H1]] [|[? H2]]; try lia. by apply str_le_antisym. Qed.
Lemma not_newer_refl a : not_newer a a.
Proof. rewrite <-oldest_first_le. pose proof (cmp_total oldest_first a a). tauto. Qed.

Section groups.
Context (inp : KeepInput).

(** The group of a snapshot that is listed once. *)
Definition group_of (s : Snapshot) : option Group :=
  if (1 <? times_listed inp (sn_ID s))%nat then None
  else match ParseTags (sn_Tags s) (ki_EngineTag inp) with
  | None => None
  | Some info => if bool_decide (sn_ID s = "") then None else Some (ti_Group info)
  end.
Definition in_group (g : Group) (s : Snapshot) : Prop := s ∈ ki_Snapshots inp ∧ group_of s = Some g.
Definition in_group_b (g : Group) (s : Snapshot) : bool := bool_decide (group_of s = Some g).

Lemma group_step_eq keep groups s : ∃ why,
  group_step inp (keep, groups) s = match group_of s with
    | None => (<[sn_ID s := why]> keep, groups)
    | Some g => (keep, <[g := (default [] (groups !! g) ++ [s])%list]> groups)
    end.
Proof. unfold group_step, group_of. repeat case_match; first [by exists KeepDuplicate|by exists KeepForeign]. Qed.

(** The groups after the loop: the snapshots of each, in the order of the listing. *)
Lemma group_loop l : let '(keep, groups) := foldl (group_step inp) (∅, ∅) l in
  (∀ x, x ∈ dom keep ↔ ∃ s, s ∈ l ∧ sn_ID s = x ∧ group_of s = None) ∧
  (∀ g, groups !! g = match List.filter (in_group_b g) l with [] => None | k => Some k end).
Proof.
  induction l as [|s l IH] using rev_ind; [split; [set_solver|done]|].
  rewrite foldl_snoc. destruct (foldl _ _ l) as [keep groups]. destruct IH as [IHk IHg].
  destruct (group_step_eq keep groups s) as [why ->]. unfold in_group_b in *.
  destruct (group_of s) as [g0|] eqn:Hg.
  - split.
    + intros x. rewrite IHk. setoid_rewrite elem_of_app. setoid_rewrite list_elem_of_singleton. naive_solver congruence.
    + intros g. rewrite List.filter_app. cbn [List.filter]. rewrite Hg. destruct (decide (g0 = g)) as [->|Hne].
      * rewrite lookup_insert_eq, IHg, bool_decide_eq_true_2 by done. by destruct (List.filter _ l).
      * rewrite lookup_insert_ne, IHg, bool_decide_eq_false_2 by congruence. by rewrite app_nil_r.
  - split.
    + intros x. rewrite dom_insert, elem_of_union, elem_of_singleton, IHk. setoid_rewrite elem_of_app.
      setoid_rewrite list_elem_of_singleton. naive_solver.
    + intros g. rewrite List.filter_app, IHg. cbn [List.filter]. rewrite Hg.
      rewrite bool_decide_eq_false_2 by done. by rewrite app_nil_r.
Qed.

(** A snapshot with a group is the only one with its id. *)
Lemma group_of_unique s t g :
  s ∈ ki_Snapshots inp → t ∈ ki_Snapshots inp → group_of s = Some g → sn_ID s = sn_ID t → s = t.
Proof.
  intros Hs Ht Hg Hid. unfold group_of in Hg. destruct (1 <? _)%nat eqn:E; [done|]. apply Nat.ltb_ge in E.
  unfold times_listed, count in E. destruct (decide (s = t)) as [|Hne]; [done|]. exfalso.
  assert (H1 : s ∈ List.filter (λ u, bool_decide (sn_ID u = sn_ID s)) (ki_Snapshots inp)) by
    (apply filter_bool_elem; by rewrite bool_decide_eq_true).
  assert (H2 : t ∈ List.filter (λ u, bool_decide (sn_ID u = sn_ID s)) (ki_Snapshots inp)) by
    (apply filter_bool_elem; by rewrite bool_decide_eq_true).
  destruct (List.filter _ (ki_Snapshots inp)) as [|a [|b k]]; [set_solver| |simpl in E; lia].
  apply list_elem_of_singleton in H1, H2. congruence.
Qed.

Lemma group_NoDup g : NoDup (sn_ID <$> List.filter (in_group_b g) (ki_Snapshots inp)).
Proof.
  apply NoDup_fmap_count. intros x.
  destruct (List.filter (in_group_b g) (ki_Snapshots inp)) as [|a0 l0] eqn:Hf; [unfold count; simpl; lia|]. rewrite <-Hf.
  destruct (decide (count (λ a, bool_decide (sn_ID a = x)) (List.filter (in_group_b g) (ki_Snapshots inp)) = 0%nat)) as [->|Hnz]; [lia|].
  assert (∃ s, s ∈ List.filter (in_group_b g) (ki_Snapshots inp) ∧ sn_ID s = x) as (s & [Hs Hg]%filter_bool_elem & Hid).
  { destruct (List.filter (λ a, bool_decide (sn_ID a = x)) (List.filter (in_group_b g) (ki_Snapshots inp))) as [|s k] eqn:E;
      [unfold count in Hnz; by rewrite E in Hnz|].
    assert (Hin : s ∈ s :: k) by set_solver. rewrite <-E in Hin. apply filter_bool_elem in Hin as [Hin Hx%bool_decide_eq_true].
    by exists s. }
  apply bool_decide_eq_true in Hg. unfold group_of in Hg. rewrite Hid in Hg.
  destruct (1 <? times_listed inp x)%nat eqn:E; [done|]. apply Nat.ltb_ge in E. etransitivity; [|exact E].
  unfold times_listed, count. clear. induction (ki_Snapshots inp) as [|a l IH]; simpl; [lia|].
  destruct (in_group_b g a); simpl; case_bool_decide; simpl; lia.
Qed.
End groups.

(** ** The protections *)
Section protections.
Context (inp : KeepInput).

(** The newest of a group, and the newest complete one. *)
Definition newest_in (g : Group) (P : Snapshot → bool) (s : Snapshot) : Prop :=
  P s = true ∧ ∀ t, in_group inp g t → P t = true → not_newer t s.

(** What keeps a snapshot of the group [g], whatever the retention is. *)
Definition safe (g : Group) (s : Snapshot) : Prop :=
  newest_in g (λ _, true) s ∨ newest_in g (complete inp) s ∨
  ki_Now inp < sn_Time s ∨ sn_ID s ∈ ki_Refs inp ∨
  (gr_Kind g = VersionMedia ∧ ki_Base inp !! gr_SourceID g = Some (sn_ID s)) ∨
  orphan_group inp g = true ∨
  (gr_Kind g = VersionMedia ∧ ∃ r, ki_Recorded inp !! sn_ID s = Some r ∧ rc_SourceID r ≠ 0 ∧ rc_SourceID r ≠ gr_SourceID g).

(** The listed ids that are never forgotten: listed twice or without a group of
    this row, protected in their group, or the base of some source. *)
Definition guarded (id : string) : Prop :=
  (∃ s, s ∈ ki_Snapshots inp ∧ sn_ID s = id ∧ group_of inp s = None) ∨
  (∃ g s, in_group inp g s ∧ sn_ID s = id ∧ safe g s) ∨
  (listed inp id = true ∧ ∃ src, src ≠ 0 ∧ ki_Base inp !! src = Some id).

Lemma protection_spec g s : sn_ID s ≠ "" → is_Some (protection inp g s) ↔
  ki_Now inp < sn_Time s ∨ sn_ID s ∈ ki_Refs inp ∨
  (gr_Kind g = VersionMedia ∧ ki_Base inp !! gr_SourceID g = Some (sn_ID s)) ∨
  orphan_group inp g = true ∨
  (gr_Kind g = VersionMedia ∧ ∃ r, ki_Recorded inp !! sn_ID s = Some r ∧ rc_SourceID r ≠ 0 ∧ rc_SourceID r ≠ gr_SourceID g).
Proof.
  intros Hid. unfold protection, is_media.
  destruct (Z.ltb_spec (ki_Now inp) (sn_Time s)); [naive_solver|].
  case_bool_decide; [naive_solver|].
  assert (Hb : map_get (ki_Base inp !! gr_SourceID g) = sn_ID s ↔ ki_Base inp !! gr_SourceID g = Some (sn_ID s)).
  { unfold map_get. destruct (ki_Base inp !! gr_SourceID g); simpl; naive_solver congruence. }
  case_bool_decide as Hm; cbn [andb negb]; [rewrite (bool_decide_ext _ _ Hb); case_bool_decide; [naive_solver|]|];
    (destruct (orphan_group inp g); [naive_solver|]).
  - destruct (ki_Recorded inp !! sn_ID s) as [r|]; [|split; [by intros []|naive_solver lia]].
    destruct (Z.eqb_spec (rc_SourceID r) 0), (Z.eqb_spec (rc_SourceID r) (gr_SourceID g)); simpl;
      split; try (by intros []); try naive_solver lia.
  - split; [by intros []|naive_solver lia].
Qed.

Lemma protect_group_dom keep g snaps x : x ∈ dom (protect_group inp keep g snaps) ↔ x ∈ dom keep ∨
  ∃ s, s ∈ snaps ∧ sn_ID s = x ∧
    (head snaps = Some s ∨ List.find (complete inp) snaps = Some s ∨ is_Some (protection inp g s)).
Proof.
  unfold protect_group. rewrite (fold_dom _ (λ s x, sn_ID s = x ∧ is_Some (protection inp g s))).
  2:{ intros k s y. destruct (protection inp g s); [rewrite mark_elem; naive_solver|]. split; [by left|]. by intros [?|[_ []]]. }
  assert (Hf : ∀ k, x ∈ dom (match List.find (complete inp) snaps with Some s => mark (sn_ID s) KeepComplete k | None => k end)
    ↔ x ∈ dom k ∨ ∃ s, s ∈ snaps ∧ sn_ID s = x ∧ List.find (complete inp) snaps = Some s).
  { intros k. destruct (List.find (complete inp) snaps) as [s|] eqn:E.
    - apply find_some in E as [E _]. apply list_elem_of_In in E. rewrite mark_elem. naive_solver.
    - naive_solver. }
  rewrite Hf. destruct snaps as [|s snaps]; [naive_solver set_solver|].
  rewrite mark_elem. cbn [head]. split; [|naive_solver].
  intros [[[->|?]|(t & ?)]|(t & ?)]; [right; exists s; split; [left|naive_solver]|by left|right; exists t; naive_solver..].
Qed.

(** The head of a sorted group is its newest; the first complete one its newest
    complete one. *)
Lemma find_sorted (P : Snapshot → bool) l s :
  StronglySorted (cmp_le newest_first) l → NoDup (sn_ID <$> l) → s ∈ l →
  List.find P l = Some s ↔ P s = true ∧ ∀ t, t ∈ l → P t = true → not_newer t s.
Proof.
  induction 1 as [|a l Hs IH Hall]; intros Hnd Hin; [set_solver|]. cbn [List.find].
  rewrite Forall_forall in Hall. rewrite fmap_cons, NoDup_cons in Hnd. destruct Hnd as [Ha Hnd].
  destruct (P a) eqn:E.
  - split.
    + intros [= <-]. split; [done|]. intros t [->|Ht]%elem_of_cons _; [apply not_newer_refl|]. by apply newest_first_le, Hall.
    + intros [Hp H]. specialize (H a ltac:(by left) E). apply elem_of_cons in Hin as [->|Hin]; [done|]. exfalso.
      assert (E' : sn_ID a = sn_ID s) by (apply not_newer_antisym; [done|]; by apply newest_first_le, Hall).
      apply Ha. rewrite E'. by apply list_elem_of_fmap_2.
  - apply elem_of_cons in Hin as [->|Hin]; [|rewrite IH by done; setoid_rewrite elem_of_cons; naive_solver congruence].
    split; [|by intros [? _]; congruence]. intros [_ ?]%find_some. congruence.
Qed.

Definition group_list (g : Group) : list Snapshot := isort newest_first (List.filter (in_group_b inp g) (ki_Snapshots inp)).
Lemma group_list_elem g s : s ∈ group_list g ↔ in_group inp g s.
Proof. unfold group_list, in_group, in_group_b. rewrite isort_elem, filter_bool_elem. by rewrite bool_decide_eq_true. Qed.
Lemma group_list_sorted g : StronglySorted (cmp_le newest_first) (group_list g).
Proof. apply isort_sorted; exact _. Qed.
Lemma group_list_NoDup g : NoDup (sn_ID <$> group_list g).
Proof. unfold group_list. rewrite isort_perm. apply group_NoDup. Qed.
Lemma in_group_id g s : in_group inp g s → sn_ID s ≠ "".
Proof. intros [_ H]. unfold group_of in H. repeat case_match; try done. by case_bool_decide. Qed.

Lemma protect_group_safe keep g x : x ∈ dom (protect_group inp keep g (group_list g)) ↔
  x ∈ dom keep ∨ ∃ s, in_group inp g s ∧ sn_ID s = x ∧ safe g s.
Proof.
  rewrite protect_group_dom. apply or_iff_compat_l. apply exist_proper. intros s. rewrite group_list_elem.
  apply and_iff_guard. intros Hs. apply and_iff_compat_l. rewrite protection_spec by (by eapply in_group_id).
  unfold safe. rewrite (find_sorted _ _ _ (group_list_sorted g) (group_list_NoDup g)) by (by apply group_list_elem).
  assert (Hh : head (group_list g) = List.find (λ _, true) (group_list g)) by (by destruct (group_list g)).
  rewrite Hh, (find_sorted _ _ _ (group_list_sorted g) (group_list_NoDup g)) by (by apply group_list_elem).
  unfold newest_in. setoid_rewrite group_list_elem. tauto.
Qed.
End protections.

(** ** [protect], [KeepMedia] and [FilterForget] *)
Section main.
Context (inp : KeepInput) (visit visit2 : groups_map → list (Group * list Snapshot)) (visit_base : gmap Z string → list (Z * string)).
(** A range over a map visits each entry once. *)
Definition visits_map {K V M} (to_list : M → list (K * V)) (v : M → list (K * V)) : Prop := ∀ m, v m ≡ₚ to_list m.
Context (Hvisit : visits_map map_to_list visit) (Hvisit2 : visits_map map_to_list visit2)
  (Hbase : visits_map map_to_list visit_base).

Lemma base_step_dom keep b x : x ∈ dom (base_step inp keep b) ↔ x ∈ dom keep ∨ (b.2 = x ∧ listed inp x = true ∧ b.1 ≠ 0).
Proof.
  unfold base_step. destruct (keep !! b.2) eqn:E.
  - apply elem_of_dom_2 in E. split; [by left|]. intros [?|(<- & _)]; done.
  - destruct (listed inp b.2) eqn:Hl; simpl; [|split; [by left|]; intros [?|(<- & ? & _)]; congruence].
    destruct (Z.eqb_spec b.1 0); simpl; [split; [by left|]; intros [?|(_ & _ & ?)]; done|].
    rewrite dom_insert, elem_of_union, elem_of_singleton. naive_solver.
Qed.

Definition groups_ok (groups : groups_map) : Prop :=
  ∀ g l, groups !! g = Some l ↔ l = group_list inp g ∧ ∃ s, in_group inp g s.

Lemma protect_spec : let '(keep, groups) := protect inp visit visit_base in
  (∀ x, x ∈ dom keep ↔ guarded inp x) ∧ groups_ok groups.
Proof using Hvisit Hbase.
  clear Hvisit2 visit2. unfold protect. pose proof (group_loop inp (ki_Snapshots inp)) as Hloop.
  destruct (foldl (group_step inp) (∅, ∅) (ki_Snapshots inp)) as [keep groups]. destruct Hloop as [Hk Hg].
  assert (Hok : groups_ok (isort newest_first <$> groups)).
  { intros g l. rewrite lookup_fmap, Hg. unfold group_list. setoid_rewrite <-group_list_elem. unfold group_list.
    destruct (List.filter _ _) as [|s k] eqn:E; cbn [fmap option_fmap option_map].
    - split; [done|]. intros [_ [s Hs]]. by apply elem_of_nil in Hs.
    - split; [intros [= <-]; split; [done|]; exists s; rewrite isort_elem; by left|]. by intros [-> _]. }
  split; [|done]. set (gs := isort newest_first <$> groups) in *. clearbody gs. clear Hg.
  intros x. rewrite (fold_dom _ (λ b x, b.2 = x ∧ listed inp x = true ∧ b.1 ≠ 0)) by (intros; apply base_step_dom).
  set (P := λ (gl : Group * list Snapshot) x, ∃ s, in_group inp gl.1 s ∧ sn_ID s = x ∧ safe inp gl.1 s).
  assert (Hf : ∀ l k, (∀ gl, gl ∈ l → gs !! gl.1 = Some gl.2) →
    x ∈ dom (foldl (λ keep gl, protect_group inp keep gl.1 gl.2) k l) ↔ x ∈ dom k ∨ ∃ gl, gl ∈ l ∧ P gl x).
  { induction l as [|[g sl] l IH]; intros k Hl; simpl; [set_solver|].
    rewrite IH by (intros; apply Hl; by right). pose proof (Hl (g, sl) ltac:(by left)) as Hgs. cbn [fst snd] in *.
    apply Hok in Hgs as [-> _]. rewrite protect_group_safe. setoid_rewrite elem_of_cons. unfold P. naive_solver. }
  rewrite Hf; [|intros [g sl] Hin; rewrite (Hvisit gs) in Hin; by apply elem_of_map_to_list in Hin].
  rewrite Hk. setoid_rewrite (Hvisit gs). setoid_rewrite (Hbase (ki_Base inp)). unfold guarded, P. clear Hf Hk P. split.
  - intros [[?|([g sl] & _ & s & H)]|([src b] & Hin & H)]; [by left|right; left; by exists g, s|].
    right. right. apply elem_of_map_to_list in Hin. destruct H as (<- & ? & ?). split; [done|]. by exists src.
  - intros [?|[(g & s & Hs & H)|[Hl (src & Hsrc & Hb)]]]; [by left; left| |].
    + left. right. exists (g, group_list inp g). split; [|by exists s]. apply elem_of_map_to_list. apply Hok.
      split; [done|]. by exists s.
    + right. exists (src, x). split; [by apply elem_of_map_to_list|done].
Qed.

End main.

Section media.
Context (inp : KeepInput).
(** The complete snapshots of a group, newest first, and those its buckets keep. *)
Definition complete_list (g : Group) : list Snapshot := List.filter (complete inp) (group_list inp g).
Definition bucket_kept (g : Group) (s : Snapshot) : Prop :=
  ∃ ru, ru ∈ rules (default UTC (ki_Loc inp)) (ki_Retention inp) ∧ rule_keeps ru (complete_list g) s.

Lemma bucket_kept_in g s : bucket_kept g s → in_group inp g s.
Proof.
  intros (ru & _ & before & after & Hl & _). apply group_list_elem.
  assert (H : s ∈ complete_list g) by (rewrite Hl; set_solver). by apply filter_bool_elem in H as [H _].
Qed.

Lemma mark_all_dom why keep snaps x : x ∈ dom (mark_all why keep snaps) ↔ x ∈ dom keep ∨ ∃ s, s ∈ snaps ∧ sn_ID s = x.
Proof. unfold mark_all. apply (fold_dom _ (λ s x, sn_ID s = x)). intros k s y. rewrite mark_elem. naive_solver. Qed.

(** The group loop of [KeepMedia], over groups that are not visited yet. *)
Definition forgettable (keep0 : keep_map) (g : Group) (s : Snapshot) : Prop :=
  in_group inp g s ∧ gr_Kind g = VersionMedia ∧ (sn_ID s ∉ dom keep0) ∧ ¬ bucket_kept g s.

Lemma in_group_same g g' s t : in_group inp g s → in_group inp g' t → sn_ID s = sn_ID t → s = t ∧ g = g'.
Proof.
  intros [Hs Hg] [Ht Hg'] E. assert (s = t) as <- by (by eapply group_of_unique). split; [done|]. congruence.
Qed.

Lemma bucket_id g s : in_group inp g s →
  sn_ID s ∈ dom (bucketKeep (default UTC (ki_Loc inp)) (complete_list g) (ki_Retention inp)) ↔ bucket_kept g s.
Proof.
  intros Hs. rewrite bucketKeep_dom. split.
  - intros (t & E & Ht). change (bucket_kept g t) in Ht. pose proof (bucket_kept_in _ _ Ht) as Hin.
    by destruct (in_group_same _ _ _ _ Hs Hin (eq_sym E)) as [-> _].
  - intros H. by exists s.
Qed.

Lemma media_loop gss : NoDup gss.*1 → (∀ gl, gl ∈ gss → gl.2 = group_list inp gl.1) → ∀ cands keep,
  (∀ gl s, gl ∈ gss → s ∈ gl.2 → s ∉ cands) → NoDup cands →
  let '(cands', keep') := foldl (media_step inp (default UTC (ki_Loc inp))) (cands, keep) gss in
  (∀ s, s ∈ cands' ↔ s ∈ cands ∨ ∃ gl, gl ∈ gss ∧ forgettable keep gl.1 s) ∧ NoDup cands' ∧
  (∀ x, x ∈ dom keep' ↔ x ∈ dom keep ∨ ∃ gl s, gl ∈ gss ∧ in_group inp gl.1 s ∧ sn_ID s = x ∧ (gr_Kind gl.1 = VersionMedia → bucket_kept gl.1 s)).
Proof.
  induction gss as [|[g sl] gss IH]; intros Hnd Hgl cands keep Hfresh Hndc; [simpl; set_solver|].
  pose proof (Hgl _ ltac:(by left)) as Hsl. cbn [fst snd] in Hsl. subst sl.
  rewrite fmap_cons, NoDup_cons in Hnd. destruct Hnd as [Hg Hnd]. cbn [foldl].
  specialize (IH Hnd ltac:(intros; apply Hgl; by right)).
  set (st := media_step _ _ _ _).
  assert (Hst : (∀ s, s ∈ st.1 ↔ s ∈ cands ∨ forgettable keep g s) ∧ NoDup st.1 ∧
    ∀ x, x ∈ dom st.2 ↔ x ∈ dom keep ∨ ∃ s, in_group inp g s ∧ sn_ID s = x ∧ (gr_Kind g = VersionMedia → bucket_kept g s)).
  { subst st. unfold media_step, is_media. cbn [fst snd]. case_bool_decide as Hm; cbn [negb fst snd].
    - fold (complete_list g). split_and!.
      + intros s. rewrite elem_of_app, filter_bool_elem, group_list_elem, bool_decide_eq_true, <-not_elem_of_dom, mark_map_elem.
        apply or_iff_compat_l. unfold forgettable. apply and_iff_guard. intros Hs. rewrite (bucket_id g s Hs). tauto.
      + apply NoDup_app. split_and!; [done| |].
        * intros s Hs [Hin _]%filter_bool_elem. by apply (Hfresh (g, group_list inp g) s ltac:(by left) Hin).
        * apply NoDup_ListNoDup, List.NoDup_filter, NoDup_ListNoDup. eapply NoDup_fmap_1, group_list_NoDup.
      + intros x. rewrite mark_map_elem, bucketKeep_dom. apply or_iff_compat_l. split.
        * intros (s & <- & H). change (bucket_kept g s) in H. exists s. split_and!; [by apply bucket_kept_in|done|done].
        * intros (s & Hs & <- & H). exists s. split; [done|]. by apply H.
    - split_and!; [|done|].
      + intros s. split; [by left|]. intros [?|(_ & ? & _)]; done.
      + intros x. rewrite mark_all_dom. setoid_rewrite group_list_elem. naive_solver. }
  clearbody st. destruct st as [cands1 keep1]. cbn [fst snd] in Hst. destruct Hst as (Hc & Hndc1 & Hk).
  assert (Hother : ∀ gl s, gl ∈ gss → in_group inp gl.1 s → sn_ID s ∈ dom keep1 ↔ sn_ID s ∈ dom keep).
  { intros gl s Hin Hs. rewrite Hk. split; [|by left]. intros [?|(t & Ht & E & _)]; [done|].
    destruct (in_group_same _ _ _ _ Ht Hs E) as [_ ->]. destruct Hg. exact (list_elem_of_fmap_2 fst gss gl Hin). }
  specialize (IH cands1 keep1). destruct (foldl _ _ gss) as [cands' keep']. destruct IH as (IH1 & IH2 & IH3); [|done|].
  { intros gl s Hin Hs. rewrite Hc. intros [H|[H _]]; [by apply (Hfresh gl s ltac:(by right) Hs)|].
    rewrite (Hgl gl ltac:(by right)), group_list_elem in Hs. destruct (in_group_same _ _ _ _ H Hs eq_refl) as [_ ->].
    destruct Hg. exact (list_elem_of_fmap_2 fst gss gl Hin). }
  split_and!; [|done|].
  - intros s. rewrite IH1, Hc. setoid_rewrite elem_of_cons. unfold forgettable. split.
    + intros [[?|?]|(gl & Hin & Hs & ? & Hd & ?)]; [by left|right; exists (g, group_list inp g); tauto|].
      right. exists gl. rewrite (Hother gl s Hin Hs) in Hd. tauto.
    + intros [?|(gl & [->|Hin] & Hs & ? & Hd & ?)]; [by left; left|by left; right|].
      right. exists gl. rewrite (Hother gl s Hin Hs). tauto.
  - intros x. rewrite IH3, Hk. setoid_rewrite elem_of_cons. split.
    + intros [[?|(s & ?)]|(gl & s & ?)]; [by left|right; exists (g, group_list inp g), s; tauto|right; exists gl, s; tauto].
    + intros [?|(gl & s & [->|?] & ?)]; [by left; left|left; right; by exists s|right; exists gl, s; tauto].
Qed.
End media.

Section results.
Context (inp : KeepInput) (visit visit2 : groups_map → list (Group * list Snapshot)) (visit_base : gmap Z string → list (Z * string)).
Context (Hvisit : visits_map map_to_list visit) (Hvisit2 : visits_map map_to_list visit2)
  (Hbase : visits_map map_to_list visit_base).

Lemma visited_groups groups gl : groups_ok inp groups →
  gl ∈ visit2 groups ↔ gl.2 = group_list inp gl.1 ∧ ∃ s, in_group inp gl.1 s.
Proof using Hvisit2.
  intros Hok. rewrite (Hvisit2 groups). destruct gl as [g sl]. rewrite elem_of_map_to_list. apply Hok.
Qed.

(** What the retention job forgets. *)
Definition must_forget (g : Group) (s : Snapshot) : Prop :=
  in_group inp g s ∧ gr_Kind g = VersionMedia ∧ ¬ guarded inp (sn_ID s) ∧ ¬ bucket_kept inp g s.

Lemma KeepMedia_spec : let '(forget, keep) := KeepMedia inp visit visit2 visit_base in
  (∃ cands, forget = sn_ID <$> cands ∧ StronglySorted not_newer cands ∧ NoDup cands ∧
            ∀ s, s ∈ cands ↔ ∃ g, must_forget g s) ∧
  (∀ s, s ∈ ki_Snapshots inp → sn_ID s ∈ dom keep ↔ sn_ID s ∉ forget).
Proof using Hvisit Hvisit2 Hbase.
  unfold KeepMedia. pose proof (protect_spec inp visit visit_base Hvisit Hbase) as Hp.
  destruct (protect inp visit visit_base) as [keep groups]. destruct Hp as [Hk Hok].
  pose proof (media_loop inp (visit2 groups)) as Hl.
  specialize (Hl ltac:(rewrite (Hvisit2 groups); apply NoDup_fst_map_to_list)
    ltac:(intros gl Hin; by apply (visited_groups groups gl Hok) in Hin as [? _])
    [] keep ltac:(intros; apply not_elem_of_nil) ltac:(constructor)).
  destruct (foldl _ _ (visit2 groups)) as [cands keep']. destruct Hl as (Hc & Hnd & Hk').
  assert (Hcands : ∀ s, s ∈ cands ↔ ∃ g, must_forget g s).
  { intros s. rewrite Hc. split.
    - intros [H|(gl & _ & Hs & Hm & Hd & Hb)]; [by apply not_elem_of_nil in H|]. exists gl.1. by rewrite Hk in Hd.
    - intros (g & Hs & Hm & Hd & Hb). right. exists (g, group_list inp g). rewrite (visited_groups groups _ Hok).
      split; [split; [done|by exists s]|]. unfold forgettable. rewrite Hk. done. }
  split.
  - exists (isort oldest_first cands). split_and!; [done| |by rewrite isort_perm|by intros s; rewrite isort_elem].
    eapply sorted_weaken; [|apply isort_sorted; exact _]. intros a b. apply oldest_first_le.
  - intros s Hs. rewrite Hk', Hk, list_elem_of_fmap. setoid_rewrite isort_elem. split.
    + intros H (t & E & (g & Ht & Hm & Hng & Hnb)%Hcands). rewrite <-E in Hng.
      destruct H as [?|(gl & u & Hgl & Hu & Eu & Hb)]; [done|].
      destruct (in_group_same inp _ _ _ _ Hu Ht ltac:(congruence)) as [-> <-]. by apply Hnb, Hb.
    + intros H. destruct (group_of inp s) as [g|] eqn:Hg; [|left; left; by exists s].
      assert (Hin : in_group inp g s) by done.
      destruct (decide (sn_ID s ∈ dom keep)) as [Hd%Hk|Hd]; [by left|]. rewrite Hk in Hd. right.
      exists (g, group_list inp g), s. split_and!; [apply (visited_groups groups _ Hok); split; [done|by exists s]|done|done|].
      intros Hm. cbn [fst] in *.
      destruct (decide (sn_ID s ∈ dom (bucketKeep (default UTC (ki_Loc inp)) (complete_list inp g) (ki_Retention inp)))) as [Hb|Hb];
        [by apply bucket_id|]. rewrite bucket_id in Hb by done. destruct H. exists s. split; [done|]. apply Hcands. by exists g.
Qed.

(** A request that passes: a listed id that nothing protects, not of a media group. *)
Definition may_forget (id : string) : Prop :=
  listed inp id = true ∧ ¬ guarded inp id ∧ ∀ g s, in_group inp g s → sn_ID s = id → gr_Kind g ≠ VersionMedia.

Lemma request_loop keep media requested :
  let allowed id := listed inp id = true ∧ keep !! id = None ∧ id ∉ media in
  let '(forget, dropped, seen) := foldl (request_step inp keep media) ([], ∅, ∅) requested in
  (∀ id, id ∈ seen ↔ id ∈ requested) ∧ NoDup forget ∧
  (∀ id, id ∈ forget ↔ id ∈ requested ∧ allowed id) ∧
  (∀ id, id ∈ dom dropped ↔ id ∈ requested ∧ ¬ allowed id).
Proof using Type.
  clear Hvisit Hvisit2 Hbase visit visit2 visit_base. cbv zeta. induction requested as [|id requested IH] using rev_ind.
  - simpl. split_and!; [set_solver|constructor|set_solver|set_solver].
  - rewrite foldl_snoc. destruct (foldl _ _ requested) as [[forget dropped] seen]. destruct IH as (Hs & Hnd & Hf & Hd).
    unfold request_step. case_bool_decide as Hseen.
    { assert (Hin : ∀ x, x ∈ (requested ++ [id])%list ↔ x ∈ requested).
      { intros x. rewrite elem_of_app, list_elem_of_singleton. split; [intros [?| ->]; [done|by apply Hs]|by left]. }
      split_and!; [|done|..]; intros x; rewrite ?Hs, ?Hf, ?Hd, Hin; done. }
    assert (Hnew : id ∉ requested) by (by rewrite <-Hs).
    assert (Hdrop : ∀ why, ¬ (listed inp id = true ∧ keep !! id = None ∧ id ∉ media) →
      (∀ x, x ∈ ({[id]} ∪ seen : gset string) ↔ x ∈ (requested ++ [id])%list) ∧ NoDup forget ∧
      (∀ x, x ∈ forget ↔ x ∈ (requested ++ [id])%list ∧ listed inp x = true ∧ keep !! x = None ∧ x ∉ media) ∧
      (∀ x, x ∈ dom (<[id := why]> dropped) ↔ x ∈ (requested ++ [id])%list ∧ ¬ (listed inp x = true ∧ keep !! x = None ∧ x ∉ media))).
    { intros why Hna. split_and!; [|done|..]; intros x; rewrite ?dom_insert, ?elem_of_union, ?elem_of_singleton, ?Hs, ?Hf, ?Hd,
        elem_of_app, list_elem_of_singleton; destruct (decide (x = id)) as [->|]; tauto. }
    destruct (listed inp id) eqn:Hl; cbn [negb]; [|apply Hdrop; intros [? _]; done].
    destruct (keep !! id) eqn:Hk; [apply Hdrop; intros (_ & ? & _); done|].
    destruct (mem id media) eqn:Hm; [apply Hdrop; intros (_ & _ & Hn); by apply Hn, mem_spec|].
    assert (Hnm : id ∉ media) by (intros H; apply mem_spec in H; congruence).
    split_and!.
    + intros x. rewrite elem_of_union, elem_of_singleton, Hs, elem_of_app, list_elem_of_singleton. tauto.
    + apply NoDup_app. split_and!; [done| |apply NoDup_singleton]. intros x Hx%Hf ->%list_elem_of_singleton. tauto.
    + intros x. rewrite !elem_of_app, Hf, list_elem_of_singleton. destruct (decide (x = id)) as [->|]; tauto.
    + intros x. rewrite Hd, elem_of_app, list_elem_of_singleton. destruct (decide (x = id)) as [->|]; tauto.
Qed.

Lemma FilterForget_spec requested : let '(forget, dropped) := FilterForget inp visit visit2 visit_base requested in
  NoDup forget ∧ (∀ id, id ∈ forget ↔ id ∈ requested ∧ may_forget id) ∧
  (∀ id, id ∈ dom dropped ↔ id ∈ requested ∧ ¬ may_forget id).
Proof using Hvisit Hvisit2 Hbase.
  unfold FilterForget. pose proof (protect_spec inp visit visit_base Hvisit Hbase) as Hp.
  destruct (protect inp visit visit_base) as [keep groups]. destruct Hp as [Hk Hok].
  pose proof (request_loop keep (media_ids (visit2 groups)) requested) as Hl. cbv zeta in Hl.
  destruct (foldl _ _ requested) as [[forget dropped] seen]. cbn [fst snd]. destruct Hl as (_ & Hnd & Hf & Hd).
  assert (Hm : ∀ id, id ∈ media_ids (visit2 groups) ↔ ∃ g s, in_group inp g s ∧ sn_ID s = id ∧ gr_Kind g = VersionMedia).
  { intros id. unfold media_ids. rewrite concat_fmap_elem. setoid_rewrite (visited_groups groups _ Hok). unfold is_media. split.
    - intros ([g sl] & [-> _] & Hin). cbn [fst snd] in Hin. case_bool_decide; [|by apply not_elem_of_nil in Hin].
      apply list_elem_of_fmap in Hin as (s & -> & Hs%group_list_elem). by exists g, s.
    - intros (g & s & Hs & <- & Hg). exists (g, group_list inp g). cbn [fst snd]. split; [split; [done|by exists s]|].
      rewrite bool_decide_eq_true_2 by done. by apply list_elem_of_fmap_2, group_list_elem. }
  assert (Ha : ∀ id, (listed inp id = true ∧ keep !! id = None ∧ id ∉ media_ids (visit2 groups)) ↔ may_forget id).
  { intros id. unfold may_forget. rewrite <-not_elem_of_dom, Hk, Hm. naive_solver. }
  split_and!; [done|..]; intros id; [rewrite Hf|rewrite Hd]; rewrite Ha; done.
Qed.
End results.

(** C30 (S24): the retention job forgets exactly the snapshots of this row's media
    groups that nothing guards and that no bucket keeps, once each and oldest
    first: never the newest (complete) snapshot of a group, one a record or a
    version references, a source's base, one of an orphan group, of another row, or
    dated after now. A complete snapshot is kept by a bucket when it starts one of
    the rule's first [n] periods, counted from the newest. Every other listed
    snapshot is in the keep map. The order of the ranges over maps has no
    influence. *)
Theorem keep_media_exact (inp : KeepInput) visit visit2 visit_base
    (Hvisit : visits_map map_to_list visit) (Hvisit2 : visits_map map_to_list visit2) (Hbase : visits_map map_to_list visit_base) :
  let '(forget, keep) := KeepMedia inp visit visit2 visit_base in
  (∃ cands, forget = sn_ID <$> cands ∧ StronglySorted not_newer cands ∧ NoDup cands ∧
            ∀ s, s ∈ cands ↔ ∃ g, in_group inp g s ∧ gr_Kind g = VersionMedia ∧
                                  ¬ guarded inp (sn_ID s) ∧ ¬ bucket_kept inp g s) ∧
  (∀ s, s ∈ ki_Snapshots inp → sn_ID s ∈ dom keep ↔ sn_ID s ∉ forget).
Proof. by apply KeepMedia_spec. Qed.

(** C31 (S24): of the forget requests exactly those pass that name a listed snapshot
    of a config version group of this row that nothing guards, once each in the
    order of the requests; every other request is dropped with a reason. *)
Theorem filter_forget_exact (inp : KeepInput) visit visit2 visit_base requested
    (Hvisit : visits_map map_to_list visit) (Hvisit2 : visits_map map_to_list visit2) (Hbase : visits_map map_to_list visit_base) :
  let '(forget, dropped) := FilterForget inp visit visit2 visit_base requested in
  NoDup forget ∧ (∀ id, id ∈ forget ↔ id ∈ requested ∧ may_forget inp id) ∧
  (∀ id, id ∈ dom dropped ↔ id ∈ requested ∧ ¬ may_forget inp id).
Proof. by apply FilterForget_spec. Qed.

Lemma visits_self {K V M} (to_list : M → list (K * V)) : visits_map to_list to_list.
Proof. by intros m. Qed.

(** *** A listing *)
Module KeepSample.
Definition row : string := "00112233445566778899aabbccddeeff".
Definition media (job : string) : list string :=
  ["bunkarr"; TagDestPrefix +:+ row; "bunkarr-kind:media"; TagJobPrefix +:+ job; "bunkarr-source:7"; "bunkarr-batch:1"].
Definition arr : list string :=
  ["bunkarr"; TagDestPrefix +:+ row; "bunkarr-kind:arr"; "bunkarr-job:5"; "bunkarr-integration:2"; "bunkarr-version:v1"].
Definition day (d : Z) : time := d * 24 * ns_per_hour.
Definition snapshots : list Snapshot :=
  [mkSnapshot "a" (day 100) (media "1"); mkSnapshot "b" (day 101) (media "2"); mkSnapshot "c" (day 102) (media "3");
   mkSnapshot "d" (day 103) (media "4"); mkSnapshot "x" (day 90) ["bunkarr"]; mkSnapshot "v" (day 90) arr; mkSnapshot "w" (day 91) arr].
Definition done_row : Recorded := mkRecorded 7 true 1.
Definition input : KeepInput :=
  mkKeepInput snapshots (<["a" := done_row]> (<["b" := done_row]> (<["c" := done_row]> ∅))) ∅ ∅ {[7]} {[2]}
    (mkRetention 2 0 0 0) row (day 110) None.
Example forgets : (KeepMedia input map_to_list map_to_list map_to_list).1 = ["a"].
Proof. vm_compute. reflexivity. Qed.
Example passes : (FilterForget input map_to_list map_to_list map_to_list ["w"; "v"; "a"; "x"; "v"]).1 = ["v"].
Proof. vm_compute. reflexivity. Qed.
End KeepSample.

Lemma keep_media_exact_witness :
  visits_map (K := Group) (V := list Snapshot) map_to_list map_to_list ∧
  let '(forget, keep) := KeepMedia KeepSample.input map_to_list map_to_list map_to_list in
  (∃ cands, forget = sn_ID <$> cands ∧ StronglySorted not_newer cands ∧ NoDup cands ∧
            ∀ s, s ∈ cands ↔ ∃ g, in_group KeepSample.input g s ∧ gr_Kind g = VersionMedia ∧
                                  ¬ guarded KeepSample.input (sn_ID s) ∧ ¬ bucket_kept KeepSample.input g s) ∧
  (∀ s, s ∈ ki_Snapshots KeepSample.input → sn_ID s ∈ dom keep ↔ sn_ID s ∉ forget).
Proof.
  split; [apply visits_self|].
  exact (keep_media_exact KeepSample.input map_to_list map_to_list map_to_list
           (visits_self _) (visits_self _) (visits_self _)).
Defined.

Lemma filter_forget_exact_witness :
  visits_map (K := Group) (V := list Snapshot) map_to_list map_to_list ∧
  let '(forget, dropped) := FilterForget KeepSample.input map_to_list map_to_list map_to_list ["w"; "v"; "a"; "x"; "v"] in
  NoDup forget ∧ (∀ id, id ∈ forget ↔ id ∈ ["w"; "v"; "a"; "x"; "v"] ∧ may_forget KeepSample.input id) ∧
  (∀ id, id ∈ dom dropped ↔ id ∈ ["w"; "v"; "a"; "x"; "v"] ∧ ¬ may_forget KeepSample.input id).
Proof.
  split; [apply visits_self|].
  exact (filter_forget_exact KeepSample.input map_to_list map_to_list map_to_list ["w"; "v"; "a"; "x"; "v"]
           (visits_self _) (visits_self _) (visits_self _)).
Defined.
