(* ===== verification/BwLimit.v ===== *)
(** * BwLimit: bandwidth limits and transfer windows ([internal/engines/bwlimit],
    [internal/engines/window.go])

    A configuration holds base limits, a weekly timetable of other limits and a
    transfer window, all in wall-clock times of a location. *)
From stdpp Require Import base gmap list strings pretty.
From Stdlib Require Import Ascii.
From S2P Require Import Prelude GoStrings GoTime.
Open Scope string_scope.
Open Scope Z_scope.

Definition MaxEntries : Z := 16.
Definition MaxKiBps : Z := 10000000.
Definition DefaultGraceMinutes : Z := 15.
Definition MaxGraceMinutes : Z := 120.
Definition Days : list string := ["mon"; "tue"; "wed"; "thu"; "fri"; "sat"; "sun"].
Definition minutesPerDay : Z := 24 * 60.
Definition minutesPerWeek : Z := 7 * minutesPerDay.

Record Entry := mkEntry { en_Days : list string; en_From : string; en_To : string; en_UploadKiBps : Z; en_DownloadKiBps : Z }.
Record Window := mkWindow { wi_Days : list string; wi_From : string; wi_To : string; wi_GraceMinutes : Z; wi_AllowOverrun : bool }.
Record Config := mkConfig { cf_UploadKiBps : Z; cf_DownloadKiBps : Z; cf_Timetable : list Entry; cf_Window : option Window }.
#[export] Instance Entry_eq_dec : EqDecision Entry.
Proof. solve_decision. Defined.
#[export] Instance Window_eq_dec : EqDecision Window.
Proof. solve_decision. Defined.
#[export] Instance Config_eq_dec : EqDecision Config.
Proof. solve_decision. Defined.

(** [ValidationError]: the field, and what the message says. *)
Inductive message :=
| TooManyEntries | BadRate (v : Z) | NoDay | UnknownDay (d : string) | RepeatedDay (d : string)
| BadTime (s : string) | EmptySpan (from : string) | BadGrace (v : Z) | Overlaps (entry : Z) (day on : string).
Record ValidationError := mkInvalid { ve_Field : string; ve_Message : message }.

Definition checkRate (field : string) (v : Z) : result ValidationError unit :=
  if (v <? 0) || (MaxKiBps <? v) then Err (mkInvalid field (BadRate v)) else Ok tt.

(** [slices.Index]: -1 when absent. *)
Definition dayIndex (d : string) : Z := match list_find (eq d) Days with Some (i, _) => Z.of_nat i | None => -1 end.

Fixpoint check_days (field : string) (seen : list string) (days : list string) : result ValidationError unit :=
  match days with
  | [] => Ok tt
  | d :: days =>
      guard? negb (dayIndex d <? 0) else mkInvalid field (UnknownDay d);
      guard? negb (mem d seen) else mkInvalid field (RepeatedDay d);
      check_days field (d :: seen) days
  end.
Definition normDays (field : string) (days : list string) : result ValidationError (list string) :=
  match days with
  | [] => Err (mkInvalid field NoDay)
  | _ => let? _ := check_days field [] days in Ok (List.filter (λ d, mem d days) Days)
  end.

(** [parseHM]: minutes after midnight. *)
Definition digit (c : ascii) : Z := byte_of c - 48.
Definition parseHM (s : string) : option Z :=
  match bytes s with
  | [a; b; c; d; e] =>
      if negb (bool_decide (c = ":"%char)) then None
      else if negb (forallb is_digit [a; b; d; e]) then None
      else
        let h := digit a * 10 + digit b in
        let m := digit d * 10 + digit e in
        if (23 <? h) || (59 <? m) then None else Some (h * 60 + m)
  | _ => None
  end.

Definition parseSpan (field from to : string) : result ValidationError (Z * Z) :=
  match parseHM from with
  | None => Err (mkInvalid (field +:+ ".from") (BadTime from))
  | Some f =>
      match parseHM to with
      | None => Err (mkInvalid (field +:+ ".to") (BadTime to))
      | Some t => if f =? t then Err (mkInvalid (field +:+ ".to") (EmptySpan from)) else Ok (f, t)
      end
  end.

(** Go's [%] truncates: [((to-from)%day + day) % day] *)
Definition spanMinutes (from to : Z) : Z := Z.rem (Z.rem (to - from) minutesPerDay + minutesPerDay) minutesPerDay.

Record interval := mkInterval { iv_entry : Z; iv_day : string; iv_start : Z; iv_end : Z }.
Definition entry_field (i : Z) : string := "timetable[" +:+ pretty i +:+ "]".

(** The loop over the timetable: the intervals and the entries of [out], in order. *)
Fixpoint norm_entries (i : Z) (es : list Entry) : result ValidationError (list interval * list Entry) :=
  match es with
  | [] => Ok ([], [])
  | e :: es =>
      let field := entry_field i in
      let? days := normDays (field +:+ ".days") (en_Days e) in
      let? (from, to) := parseSpan field (en_From e) (en_To e) in
      let? _ := checkRate (field +:+ ".uploadKiBps") (en_UploadKiBps e) in
      let? _ := checkRate (field +:+ ".downloadKiBps") (en_DownloadKiBps e) in
      let intervals := (λ d, let start := dayIndex d * minutesPerDay + from in
                             mkInterval i d start (start + spanMinutes from to)) <$> days in
      let? (ivs, out) := norm_entries (i + 1) es in
      Ok ((intervals ++ ivs)%list, mkEntry days (en_From e) (en_To e) (en_UploadKiBps e) (en_DownloadKiBps e) :: out)
  end.

Definition overlap_at (x y : interval) (shift : Z) : bool :=
  (iv_start x <? iv_end y + shift) && (iv_start y + shift <? iv_end x).
Definition overlaps (x y : interval) : bool := existsb (overlap_at x y) [- minutesPerWeek; 0; minutesPerWeek].

(** The first overlapping pair of intervals of different entries. *)
Definition overlap_with (x : interval) (ivs : list interval) : option interval :=
  List.find (λ y, negb (iv_entry x =? iv_entry y) && overlaps x y) ivs.
Fixpoint first_overlap (ivs : list interval) : option (interval * interval) :=
  match ivs with
  | [] => None
  | x :: ivs =>
      match overlap_with x ivs with
      | Some y => Some (x, y)
      | None => first_overlap ivs
      end
  end.

Definition norm_window (w : Window) : result ValidationError Window :=
  let? days := normDays "window.days" (wi_Days w) in
  let? _ := parseSpan "window" (wi_From w) (wi_To w) in
  guard? (0 <=? wi_GraceMinutes w) && (wi_GraceMinutes w <=? MaxGraceMinutes)
    else mkInvalid "window.graceMinutes" (BadGrace (wi_GraceMinutes w));
  Ok (mkWindow days (wi_From w) (wi_To w) (wi_GraceMinutes w) (wi_AllowOverrun w)).

Definition Normalize (c : Config) : result ValidationError Config :=
  let? _ := checkRate "uploadKiBps" (cf_UploadKiBps c) in
  let? _ := checkRate "downloadKiBps" (cf_DownloadKiBps c) in
  guard? Z.of_nat (length (cf_Timetable c)) <=? MaxEntries else mkInvalid "timetable" TooManyEntries;
  let? (intervals, out) := norm_entries 0 (cf_Timetable c) in
  match first_overlap intervals with
  | Some (x, y) => Err (mkInvalid (entry_field (iv_entry y)) (Overlaps (iv_entry x) (iv_day x) (iv_day y)))
  | None =>
      match cf_Window c with
      | None => Ok (mkConfig (cf_UploadKiBps c) (cf_DownloadKiBps c) out None)
      | Some w => let? w := norm_window w in Ok (mkConfig (cf_UploadKiBps c) (cf_DownloadKiBps c) out (Some w))
      end
  end.

(** ** Periods *)
Definition weekdayIndex (wd : Z) : Z := Z.rem (wd + 6) 7.

Record period := mkPeriod { pe_start : time; pe_end : time }.

Section location.
Context (loc : location).

(** The instant of minute [m] of the calendar day of [day]. *)
Definition at_ (day : time) (m : Z) : time :=
  let d := Date loc day in MakeDate loc (cv_year d) (cv_month d) (cv_day d) (m / 60) (m mod 60).

Definition day_name (i : Z) : string := nth (Z.to_nat i) Days "".

(** The period that starts [off] days after the day of [t], if that day is one of [days]. *)
Definition period_at (days : list string) (f e : Z) (t : time) (off : Z) : option period :=
  let d := Date loc t in
  let noon o := MakeDate loc (cv_year d) (cv_month d) (cv_day d + o) 12 0 in
  let day := noon off in
  if negb (mem (day_name (weekdayIndex (Weekday loc day))) days) then None
  else Some (mkPeriod (at_ day f) (if f <? e then at_ day e else at_ (noon (off + 1)) e)).

Definition offsets (firstDay lastDay : Z) : list Z :=
  (λ i, firstDay + Z.of_nat i) <$> seq 0 (Z.to_nat (lastDay - firstDay + 1)).

Definition periods (days : list string) (from to : string) (t : time) (firstDay lastDay : Z) : list period :=
  match parseHM from, parseHM to with
  | Some f, Some e => if f =? e then [] else omap (period_at days f e t) (offsets firstDay lastDay)
  | _, _ => []
  end.

Definition within (p : period) (t : time) : bool := (pe_start p <=? t) && (t <? pe_end p).

Definition covers (t : time) (e : Entry) : bool :=
  existsb (λ p, within p t) (periods (en_Days e) (en_From e) (en_To e) t (-1) 0).

Definition InForce (c : Config) (t : time) : Z * Z :=
  match List.find (covers t) (cf_Timetable c) with
  | Some e => (en_UploadKiBps e, en_DownloadKiBps e)
  | None => (cf_UploadKiBps c, cf_DownloadKiBps c)
  end.

Definition change_bounds (c : Config) (t : time) : list time :=
  isort zcmp (List.filter (λ b, t <? b)
    (concat ((λ e, concat ((λ p, [pe_start p; pe_end p]) <$> periods (en_Days e) (en_From e) (en_To e) t (-1) 8)) <$> cf_Timetable c))).
Definition NextChange (c : Config) (t : time) : time :=
  default zero_time (List.find (λ b, negb (bool_decide (InForce c b = InForce c t))) (change_bounds c t)).

(** A nil window is [None]. *)
Definition EndsAt (w : option Window) (t : time) : time :=
  match w with
  | None => zero_time
  | Some w =>
      match List.find (λ p, within p t) (periods (wi_Days w) (wi_From w) (wi_To w) t (-1) 0) with
      | Some p => pe_end p
      | None => zero_time
      end
  end.
Definition Open (w : option Window) (t : time) : bool :=
  match w with None => true | Some _ => negb (EndsAt w t =? zero_time) end.
Definition NextOpen (w : option Window) (t : time) : time :=
  if Open w t then t
  else match w with
  | None => t
  | Some w =>
      match List.find (λ p, t <? pe_start p) (periods (wi_Days w) (wi_From w) (wi_To w) t 0 8) with
      | Some p => pe_start p
      | None => zero_time
      end
  end.
End location.

Definition Length (w : option Window) : duration :=
  match w with
  | None => 0
  | Some w =>
      match parseHM (wi_From w), parseHM (wi_To w) with
      | Some f, Some t => i64 (spanMinutes f t * ns_per_min)
      | _, _ => 0
      end
  end.
Definition Grace (w : option Window) : duration :=
  match w with None => 0 | Some w => i64 (wi_GraceMinutes w * ns_per_min) end.

(** *** [engines.Window]: a job's window, or absolute test times *)
Record absoluteWindow := mkAbsolute { ab_open : time; ab_close : time; ab_reopen : time }.
Record JobWindow := mkJobWindow { jw_w : option Window; jw_loc : location; jw_test : option absoluteWindow }.

(** [testhooks.Window] is the argument [hook]. *)
Definition WindowFor (hook : Z → option absoluteWindow) (destinationID : Z) (bw : Config) (loc : location) : JobWindow :=
  mkJobWindow (cf_Window bw) loc (hook destinationID).
Definition Always (w : JobWindow) : bool := bool_decide (jw_w w = None) && match jw_test w with None => true | _ => false end.
Definition IsOpen (w : JobWindow) (t : time) : bool :=
  match jw_test w with
  | Some a => ((ab_open a <=? t) && (t <? ab_close a)) || (ab_reopen a <=? t)
  | None => Open (jw_loc w) (jw_w w) t
  end.
Definition JobNextOpen (w : JobWindow) (t : time) : time :=
  match jw_test w with
  | Some a => if IsOpen w t then t else if t <? ab_open a then ab_open a else ab_reopen a
  | None => NextOpen (jw_loc w) (jw_w w) t
  end.
Definition JobEndsAt (w : JobWindow) (t : time) : time :=
  match jw_test w with
  | Some a => if (ab_open a <=? t) && (t <? ab_close a) then ab_close a else zero_time
  | None => EndsAt (jw_loc w) (jw_w w) t
  end.
Definition JobGrace (w : JobWindow) : duration := Grace (jw_w w).
Definition AllowOverrun (w : JobWindow) : bool := match jw_w w with Some x => wi_AllowOverrun x | None => false end.
Definition JobLength (w : JobWindow) : duration :=
  match jw_test w with Some a => dsub (ab_close a) (ab_open a) | None => Length (jw_w w) end.

(** ** Clock times *)
Lemma is_digit_value c : is_digit c = true → 0 ≤ digit c ≤ 9.
Proof. unfold is_digit, digit. lia. Qed.

Lemma parseHM_range s m : parseHM s = Some m → 0 ≤ m < minutesPerDay.
Proof.
  unfold parseHM, minutesPerDay. destruct (bytes s) as [|a [|b [|c [|d [|e [|? ?]]]]]]; try done.
  destruct (negb (bool_decide _)); [done|]. destruct (forallb is_digit [a; b; d; e]) eqn:E; [|done].
  cbn [forallb] in E. rewrite !andb_true_iff in E. destruct E as (Ha & Hb & Hd & He & _).
  apply is_digit_value in Ha, Hb, Hd, He. cbn [negb].
  destruct ((23 <? _) || _) eqn:E; [done|]. apply orb_false_iff in E as [E1 E2]. intros [= <-]. lia.
Qed.

Lemma spanMinutes_eq f e : 0 ≤ f < minutesPerDay → 0 ≤ e < minutesPerDay → f ≠ e →
  spanMinutes f e = (if f <? e then e - f else e - f + minutesPerDay) ∧ 0 < spanMinutes f e < minutesPerDay.
Proof.
  unfold spanMinutes, minutesPerDay. intros Hf He Hne. change (24 * 60) with 1440 in *.
  assert (Hr : Z.rem (e - f) 1440 = e - f).
  { destruct (Z.ltb_spec f e); [apply Z.rem_small; lia|].
    replace (e - f) with (- (f - e)) by lia. rewrite Z.rem_opp_l by lia. rewrite Z.rem_small by lia. lia. }
  rewrite Hr. destruct (Z.ltb_spec f e).
  - replace (e - f + 1440) with ((e - f) + 1 * 1440) by lia. rewrite Z.rem_add by lia. rewrite Z.rem_small by lia. lia.
  - rewrite Z.rem_small by lia. lia.
Qed.

(** ** What a normalised configuration holds *)
Lemma parseSpan_ok field from to f e : parseSpan field from to = Ok (f, e) ↔ parseHM from = Some f ∧ parseHM to = Some e ∧ f ≠ e.
Proof.
  unfold parseSpan. destruct (parseHM from) as [f'|]; [|naive_solver]. destruct (parseHM to) as [e'|]; [|naive_solver].
  destruct (Z.eqb_spec f' e'); naive_solver.
Qed.

Lemma check_days_ok field seen days : check_days field seen days = Ok tt ↔
  Forall (λ d, 0 ≤ dayIndex d ∧ d ∉ seen) days ∧ NoDup days.
Proof.
  revert seen. induction days as [|d days IH]; intros seen; cbn [check_days].
  { split; [by repeat constructor|done]. }
  destruct (Z.ltb_spec (dayIndex d) 0); cbn [negb]; [split; [done|]; intros [Hf _]; inversion Hf; lia|].
  destruct (mem d seen) eqn:Hm; cbn [negb].
  - apply mem_spec in Hm. split; [done|]. intros [Hf _]. inversion Hf; naive_solver.
  - assert (Hn : d ∉ seen) by (intros Hin; apply mem_spec in Hin; congruence).
    rewrite IH, Forall_cons, NoDup_cons, !Forall_forall. setoid_rewrite elem_of_cons. split; [|naive_solver].
    intros [Hf Hnd]. split_and!; [done|done|naive_solver| |done]. intros Hin. destruct (Hf d Hin) as [_ Hx]. by apply Hx; left.
Qed.

Lemma normDays_ok field days out : normDays field days = Ok out ↔
  days ≠ [] ∧ Forall (λ d, 0 ≤ dayIndex d) days ∧ NoDup days ∧ out = List.filter (λ d, mem d days) Days.
Proof.
  assert (H : ∀ days, days ≠ [] → normDays field days = (let? _ := check_days field [] days in Ok (List.filter (λ d, mem d days) Days))).
  { by intros []. }
  destruct (decide (days = [])) as [->|Hne]; [split; [done|by intros [? _]]|]. rewrite (H _ Hne), rbind_ok. split.
  - intros ([] & Hc & [= <-]). apply check_days_ok in Hc as [Hf Hnd]. split_and!; try done.
    eapply Forall_impl; [exact Hf|]. by intros d [? _].
  - intros (_ & Hf & Hnd & ->). exists tt. split; [|done]. apply check_days_ok. split; [|done].
    eapply Forall_impl; [exact Hf|]. intros d ?. split; [done|apply not_elem_of_nil].
Qed.

Lemma dayIndex_Days d : 0 ≤ dayIndex d ↔ Days !! Z.to_nat (dayIndex d) = Some d.
Proof.
  unfold dayIndex. destruct (list_find (eq d) Days) as [[i d']|] eqn:E; [|split; [lia|]; intros [= <-]; by vm_compute in E].
  apply list_find_Some in E as (E & <- & _). rewrite Nat2Z.id. split; [done|lia].
Qed.

(** The normalised days are those given, each a known one. *)
Lemma normDays_elem field days out d : normDays field days = Ok out → d ∈ out ↔ d ∈ days.
Proof.
  intros (_ & Hf & _ & ->)%normDays_ok. rewrite filter_bool_elem, mem_spec. split; [by intros [_ ?]|]. intros Hd. split; [|done].
  rewrite Forall_forall in Hf. specialize (Hf d Hd). apply dayIndex_Days in Hf. by eapply list_elem_of_lookup_2.
Qed.

Lemma normDays_known field days out : normDays field days = Ok out → ∃ d, d ∈ out ∧ 0 ≤ dayIndex d.
Proof.
  intros H. pose proof H as (Hne & Hf & _)%normDays_ok. destruct days as [|d days]; [done|]. exists d.
  rewrite (normDays_elem _ _ _ _ H). split; [by left|]. by inversion Hf.
Qed.

(** ** Periods at a fixed offset from UTC

    [start_of] and [end_of] are the seconds of the local clock at which the period
    of the day number [j] starts and ends. *)
Definition day_sec : Z := 86400.
Definition day_in (days : list string) (j : Z) : bool := mem (day_name ((j + 3) mod 7)) days.
Definition start_of (f j : Z) : Z := j * day_sec + f * 60.
Definition end_of (f e j : Z) : Z := start_of f j + spanMinutes f e * 60.
Definition fixed (o : Z) : location := λ _, o.

(** The span of an entry or window that has one. *)
Definition span (from to : string) (f e : Z) : Prop := parseHM from = Some f ∧ parseHM to = Some e ∧ f ≠ e.

Section fixed.
Context (o : Z).
Definition clock (t : time) : Z := unix t + o.
Definition instant (s : Z) : time := (s - o) * ns_per_sec.
Definition period_of (f e j : Z) : period := mkPeriod (instant (start_of f j)) (instant (end_of f e j)).

Lemma unix_instant s : unix (instant s) = s - o.
Proof. unfold unix, instant, ns_per_sec. by rewrite Z.div_mul. Qed.
Lemma clock_instant s : clock (instant s) = s.
Proof. unfold clock. rewrite unix_instant. lia. Qed.
Lemma instant_le s t : instant s ≤ t ↔ s ≤ clock t.
Proof.
  unfold instant, clock, unix, ns_per_sec. pose proof (Z.div_mod t 1000000000 ltac:(lia)).
  pose proof (Z.mod_pos_bound t 1000000000 ltac:(lia)). lia.
Qed.
Lemma instant_lt s t : t < instant s ↔ clock t < s.
Proof. pose proof (instant_le s t). lia. Qed.
Lemma clock_mono t u : t ≤ u → clock t ≤ clock u.
Proof. unfold clock, unix. intros H. apply (Z.div_le_mono _ _ ns_per_sec) in H; [lia|done]. Qed.

Lemma local_day_fixed t : local_day (fixed o) t = clock t / day_sec.
Proof. done. Qed.

Lemma MakeDate_fixed t k h mi : let d := Date (fixed o) t in
  MakeDate (fixed o) (cv_year d) (cv_month d) (cv_day d + k) h mi =
    instant ((clock t / day_sec + k) * day_sec + h * 3600 + mi * 60).
Proof.
  cbv zeta. unfold MakeDate, Date, at_offset, fixed. rewrite day_of_civil_shift, day_of_civil_of_day.
  change (local_day (λ _, o) t) with (clock t / day_sec). unfold instant, sec_per_day, day_sec. lia.
Qed.

Lemma at_fixed day m : at_ (fixed o) day m = instant (clock day / day_sec * day_sec + m * 60).
Proof.
  unfold at_. pose proof (MakeDate_fixed day 0 (m / 60) (m mod 60)) as H. cbv zeta in H. rewrite Z.add_0_r in H. rewrite H.
  f_equal. pose proof (Z.div_mod m 60 ltac:(lia)). lia.
Qed.

Lemma period_at_fixed days f e t k : 0 ≤ f < minutesPerDay → 0 ≤ e < minutesPerDay → f ≠ e →
  period_at (fixed o) days f e t k =
    let j := clock t / day_sec + k in if day_in days j then Some (period_of f e j) else None.
Proof.
  intros Hf He Hne. destruct (spanMinutes_eq f e Hf He Hne) as [Hspan _].
  unfold period_at. cbv zeta. rewrite !MakeDate_fixed. set (j := clock t / day_sec + k).
  assert (Hnoon : ∀ i, clock (instant (i * day_sec + 12 * 3600 + 0 * 60)) / day_sec = i).
  { intros i. rewrite clock_instant. unfold day_sec. rewrite Z.add_0_r, Z.div_add_l by lia. rewrite Z.div_small by lia. lia. }
  rewrite !at_fixed, Hnoon. replace (clock t / day_sec + (k + 1)) with (j + 1) by lia. rewrite Hnoon.
  unfold Weekday. rewrite local_day_fixed, Hnoon. unfold day_in.
  assert (Hw : weekdayIndex (weekday_of_day j) = (j + 3) mod 7).
  { unfold weekdayIndex, weekday_of_day. pose proof (Z.mod_pos_bound (j + 4) 7 ltac:(lia)) as Hm.
    rewrite Z.rem_mod_nonneg by lia. rewrite Z.add_mod_idemp_l by lia. replace (j + 4 + 6) with (j + 3 + 1 * 7) by lia.
    by rewrite Z.mod_add by lia. }
  rewrite Hw. destruct (mem _ days); cbn [negb]; [|done]. unfold period_of, start_of, end_of. do 2 f_equal.
  rewrite Hspan. unfold start_of, minutesPerDay, day_sec. destruct (Z.ltb_spec f e); f_equal; lia.
Qed.

Lemma offsets_elem a b k : k ∈ offsets a b ↔ a ≤ k ≤ b.
Proof.
  unfold offsets. rewrite list_elem_of_fmap. setoid_rewrite elem_of_seq. split; [intros (i & -> & Hi); lia|].
  intros Hk. exists (Z.to_nat (k - a)). lia.
Qed.

Lemma periods_elem days from to t a b p : p ∈ periods (fixed o) days from to t a b ↔
  ∃ f e j, span from to f e ∧ a ≤ j - clock t / day_sec ≤ b ∧ day_in days j = true ∧ p = period_of f e j.
Proof.
  unfold periods, span. destruct (parseHM from) as [f|] eqn:Ef; [|split; [by intros ?%not_elem_of_nil|naive_solver]].
  destruct (parseHM to) as [e|] eqn:Ee; [|split; [by intros ?%not_elem_of_nil|naive_solver]].
  apply parseHM_range in Ef as Hf. apply parseHM_range in Ee as He.
  destruct (Z.eqb_spec f e) as [->|Hne]; [split; [by intros ?%not_elem_of_nil|naive_solver congruence]|].
  rewrite list_elem_of_omap. setoid_rewrite offsets_elem. setoid_rewrite period_at_fixed; [|done..]. cbv zeta. split.
  - intros (k & Hk & Hp). exists f, e, (clock t / day_sec + k). destruct (day_in days _); [|done].
    injection Hp as <-. split_and!; try done; lia.
  - intros (f' & e' & j & (Hf' & He' & _) & Hj & Hd & ->). injection Hf' as <-. injection He' as <-.
    exists (j - clock t / day_sec). split; [lia|]. replace (clock t / day_sec + (j - clock t / day_sec)) with j by lia.
    by rewrite Hd.
Qed.

Lemma within_period f e j t : within (period_of f e j) t = true ↔ start_of f j ≤ clock t < end_of f e j.
Proof.
  unfold within, period_of. cbn [pe_start pe_end]. rewrite andb_true_iff, Z.leb_le, Z.ltb_lt, instant_le, instant_lt. done.
Qed.

Lemma span_bounds from to f e : span from to f e →
  0 ≤ f < minutesPerDay ∧ 0 < spanMinutes f e < minutesPerDay.
Proof.
  intros (Hf & He & Hne). apply parseHM_range in Hf, He. split; [done|]. by apply spanMinutes_eq.
Qed.

(** The span is covered at [t]: a period of some day contains it. *)
Definition covered (days : list string) (from to : string) (t : time) : Prop :=
  ∃ f e j, span from to f e ∧ day_in days j = true ∧ start_of f j ≤ clock t < end_of f e j.

(** Only the periods of yesterday and today can contain an instant. *)
Lemma period_day from to f e j t : span from to f e → start_of f j ≤ clock t < end_of f e j →
  -1 ≤ j - clock t / day_sec ≤ 0.
Proof.
  intros Hs Ht. apply span_bounds in Hs as [Hf Hs]. unfold start_of, end_of, start_of, minutesPerDay, day_sec in *.
  pose proof (Z.div_mod (clock t) 86400 ltac:(lia)). pose proof (Z.mod_pos_bound (clock t) 86400 ltac:(lia)). lia.
Qed.

Lemma covered_periods days from to t : covered days from to t ↔
  ∃ p, p ∈ periods (fixed o) days from to t (-1) 0 ∧ within p t = true.
Proof.
  unfold covered. setoid_rewrite periods_elem. split.
  - intros (f & e & j & Hs & Hd & Ht). exists (period_of f e j). rewrite within_period. split; [|done].
    exists f, e, j. split_and!; try done; by eapply period_day.
  - intros (p & (f & e & j & Hs & _ & Hd & ->) & Ht%within_period). by exists f, e, j.
Qed.

Lemma covers_spec e t : covers (fixed o) t e = true ↔ covered (en_Days e) (en_From e) (en_To e) t.
Proof. unfold covers. by rewrite existsb_elem, covered_periods. Qed.

(** ** The transfer window *)

(** The period that contains an instant is unique. *)
Lemma period_unique from to f e j f' e' j' t : span from to f e → span from to f' e' →
  start_of f j ≤ clock t < end_of f e j → start_of f' j' ≤ clock t < end_of f' e' j' → f' = f ∧ e' = e ∧ j' = j.
Proof.
  intros Hs (Hf' & He' & _) H1 H2. pose proof Hs as (Hf & He & _). assert (f' = f) as -> by congruence.
  assert (e' = e) as -> by congruence. split_and!; [done|done|].
  apply span_bounds in Hs as [Hf0 Hs]. unfold start_of, end_of, start_of, minutesPerDay, day_sec in *. lia.
Qed.

Lemma EndsAt_spec w t : match List.find (λ p, within p t) (periods (fixed o) (wi_Days w) (wi_From w) (wi_To w) t (-1) 0) with
  | Some p => ∃ f e j, span (wi_From w) (wi_To w) f e ∧ day_in (wi_Days w) j = true ∧
                start_of f j ≤ clock t < end_of f e j ∧ p = period_of f e j
  | None => ¬ covered (wi_Days w) (wi_From w) (wi_To w) t
  end.
Proof.
  destruct (List.find _ _) as [p|] eqn:E.
  - apply find_some in E as [Hin Hw]. apply list_elem_of_In, periods_elem in Hin as (f & e & j & Hs & _ & Hd & ->).
    apply within_period in Hw. by exists f, e, j.
  - rewrite covered_periods. intros (p & Hin & Hw). apply list_elem_of_In in Hin.
    by rewrite (find_none _ _ E p Hin) in Hw.
Qed.

Definition open_at (w : Window) (t : time) : Prop := covered (wi_Days w) (wi_From w) (wi_To w) t.

(** [EndsAt] while the window is open. *)
Lemma EndsAt_open w t f e j : span (wi_From w) (wi_To w) f e → day_in (wi_Days w) j = true →
  start_of f j ≤ clock t < end_of f e j → EndsAt (fixed o) (Some w) t = instant (end_of f e j).
Proof.
  intros Hs Hd Ht. unfold EndsAt. pose proof (EndsAt_spec w t) as H. destruct (List.find _ _) as [p|].
  - destruct H as (f' & e' & j' & Hs' & _ & Ht' & ->).
    by destruct (period_unique _ _ _ _ _ _ _ _ _ Hs Hs' Ht Ht') as (-> & -> & ->).
  - destruct H. by exists f, e, j.
Qed.

(** Instants of the model lie after year 1: [EndsAt] is zero exactly outside. *)
Lemma Open_spec w t : zero_time < t → Open (fixed o) (Some w) t = true ↔ open_at w t.
Proof.
  intros Ht. unfold Open. rewrite negb_true_iff, Z.eqb_neq. split.
  - unfold EndsAt. pose proof (EndsAt_spec w t) as H. destruct (List.find _ _) as [p|]; [|done].
    intros _. destruct H as (f & e & j & Hs & Hd & Hj & _). by exists f, e, j.
  - intros (f & e & j & Hs & Hd & Hj). rewrite (EndsAt_open w t f e j Hs Hd Hj).
    destruct Hj as [_ Hj%instant_lt]. lia.
Qed.

(** A day of the window within a week. *)
Lemma weekday_soon days j : (∃ d, d ∈ days ∧ 0 ≤ dayIndex d) → ∃ k, 0 ≤ k ≤ 6 ∧ day_in days (j + k) = true.
Proof.
  intros (d & Hd & Hi). unfold dayIndex in Hi. destruct (list_find (eq d) Days) as [[i d']|] eqn:E; [|done].
  apply list_find_Some in E as (E & <- & _). assert (i < 7)%nat by (apply lookup_lt_Some in E; exact E).
  exists ((Z.of_nat i - (j + 3)) mod 7). pose proof (Z.mod_pos_bound (Z.of_nat i - (j + 3)) 7 ltac:(lia)) as Hm. split; [lia|].
  unfold day_in. apply mem_spec. assert (Hmod : (j + (Z.of_nat i - (j + 3)) mod 7 + 3) mod 7 = Z.of_nat i).
  { replace (j + (Z.of_nat i - (j + 3)) mod 7 + 3) with ((Z.of_nat i - (j + 3)) mod 7 + (j + 3)) by lia.
    rewrite Z.add_mod_idemp_l by lia. replace (Z.of_nat i - (j + 3) + (j + 3)) with (Z.of_nat i) by lia. apply Z.mod_small. lia. }
  rewrite Hmod. unfold day_name. rewrite Nat2Z.id. by rewrite (nth_lookup_Some _ _ _ _ E).
Qed.

Lemma weekday_week days j : day_in days (j + 7) = day_in days j.
Proof. unfold day_in. replace (j + 7 + 3) with (j + 3 + 1 * 7) by lia. by rewrite Z.mod_add by lia. Qed.

Lemma find_omap_first {B} (g : Z → option B) (P : B → bool) l x :
  StronglySorted Z.lt l → List.find P (omap g l) = Some x →
  ∃ k, k ∈ l ∧ g k = Some x ∧ P x = true ∧ ∀ k' y, k' ∈ l → k' < k → g k' = Some y → P y = false.
Proof.
  induction 1 as [|k l Hs IH Hall]; simpl; [done|]. rewrite Forall_forall in Hall.
  destruct (g k) as [y|] eqn:Hk; [destruct (P y) eqn:Hp; cbn [List.find]; rewrite Hp|].
  - intros [= ->]. exists k. split_and!; [by left|done|done|]. intros k' z [->|Hin]%elem_of_cons Hlt; [lia|].
    specialize (Hall k' Hin). lia.
  - intros (k0 & Hin & Hg & Hx & Hmin)%IH. exists k0. split_and!; [by right|done|done|].
    intros k' z [->|Hin']%elem_of_cons Hlt; [congruence|by apply Hmin].
  - intros (k0 & Hin & Hg & Hx & Hmin)%IH. exists k0. split_and!; [by right|done|done|].
    intros k' z [->|Hin']%elem_of_cons Hlt; [congruence|by apply Hmin].
Qed.

Lemma offsets_sorted a b : StronglySorted Z.lt (offsets a b).
Proof.
  unfold offsets. generalize 0%nat as i. generalize (Z.to_nat (b - a + 1)) as n. induction n as [|n IH]; intros i; simpl; [constructor|].
  constructor; [apply IH|]. apply Forall_forall. intros x (k & -> & Hk%elem_of_seq)%list_elem_of_fmap. lia.
Qed.

(** The first opening after [t] of the days [n], [n + 1], ... *)
Lemma next_start_spec w t f e : span (wi_From w) (wi_To w) f e →
  let n := clock t / day_sec in
  match List.find (λ p, t <? pe_start p) (periods (fixed o) (wi_Days w) (wi_From w) (wi_To w) t 0 8) with
  | Some p => ∃ j, n ≤ j ∧ day_in (wi_Days w) j = true ∧ clock t < start_of f j ∧ p = period_of f e j ∧
                ∀ j', n ≤ j' < j → day_in (wi_Days w) j' = true → start_of f j' ≤ clock t
  | None => ∀ j, n ≤ j ≤ n + 8 → day_in (wi_Days w) j = true → start_of f j ≤ clock t
  end.
Proof.
  intros Hs. pose proof Hs as (Hf & He & Hne). cbv zeta. set (n := clock t / day_sec).
  apply parseHM_range in Hf as Hfr. apply parseHM_range in He as Her.
  destruct (List.find _ _) as [p|] eqn:E.
  - unfold periods in E. rewrite Hf, He in E. destruct (Z.eqb_spec f e); [done|].
    apply find_omap_first in E as (k & Hk & Hg & Hp & Hmin); [|apply offsets_sorted].
    apply offsets_elem in Hk. rewrite period_at_fixed in Hg by done. cbv zeta in Hg. fold n in Hg.
    destruct (day_in _ (n + k)) eqn:Hd; [|done]. injection Hg as <-. apply Z.ltb_lt, instant_lt in Hp.
    exists (n + k). split_and!; [lia|done|done|done|]. intros j' Hj' Hd'.
    specialize (Hmin (j' - n) (period_of f e j')). rewrite period_at_fixed in Hmin by done. cbv zeta in Hmin. fold n in Hmin.
    replace (n + (j' - n)) with j' in Hmin by lia. rewrite Hd', offsets_elem in Hmin.
    specialize (Hmin ltac:(lia) ltac:(lia) eq_refl). cbn [pe_start period_of] in Hmin. apply Z.ltb_ge, instant_le in Hmin. done.
  - intros j Hj Hd. assert (Hin : period_of f e j ∈ periods (fixed o) (wi_Days w) (wi_From w) (wi_To w) t 0 8).
    { apply periods_elem. exists f, e, j. split_and!; try done; unfold n in Hj; lia. }
    apply list_elem_of_In in Hin. pose proof (find_none _ _ E _ Hin) as Hlt. cbn [pe_start period_of] in Hlt.
    by apply Z.ltb_ge, instant_le in Hlt.
Qed.

Definition window_ok (w : Window) : Prop := ∃ w0, norm_window w0 = Ok w.

Lemma window_ok_spec w : window_ok w → (∃ f e, span (wi_From w) (wi_To w) f e) ∧ ∃ d, d ∈ wi_Days w ∧ 0 ≤ dayIndex d.
Proof.
  intros (w0 & H). unfold norm_window in H. apply rbind_ok in H as (days & Hd & H).
  apply rbind_ok in H as ([f e] & Hs & H). destruct (_ && _); [|done]. injection H as <-. cbn [wi_From wi_To wi_Days].
  apply parseSpan_ok in Hs. split; [by exists f, e|]. by eapply normDays_known.
Qed.

(** A closed window: the next opening is the first instant it covers, at most a week away. *)
Lemma NextOpen_closed w t : window_ok w → zero_time < t → ¬ open_at w t →
  let u := NextOpen (fixed o) (Some w) t in
  t < u ≤ t + 7 * day_sec * ns_per_sec ∧ open_at w u ∧ ∀ v, t ≤ v < u → ¬ open_at w v.
Proof.
  intros Hok Ht Hclosed. destruct (window_ok_spec w Hok) as [(f & e & Hs) Hdays]. cbv zeta.
  unfold NextOpen. destruct (Open (fixed o) (Some w) t) eqn:Ho; [by apply Open_spec in Ho|].
  pose proof (next_start_spec w t f e Hs) as H. cbv zeta in H. set (n := clock t / day_sec) in *.
  pose proof (span_bounds _ _ _ _ Hs) as [Hfr Hsr].
  pose proof (Z.div_mod (clock t) day_sec ltac:(done)) as Hdm. pose proof (Z.mod_pos_bound (clock t) day_sec ltac:(done)) as Hmb. fold n in Hdm.
  assert (Hweek : ∃ j, n ≤ j ≤ n + 7 ∧ day_in (wi_Days w) j = true ∧ clock t < start_of f j ∧ start_of f j ≤ clock t + 7 * day_sec).
  { destruct (weekday_soon (wi_Days w) n Hdays) as (k & Hk & Hd).
    destruct (decide (clock t < start_of f (n + k))) as [Hlt|Hge].
    - exists (n + k). unfold start_of, day_sec, minutesPerDay in *. split_and!; try done; lia.
    - exists (n + k + 7). rewrite weekday_week. unfold start_of, day_sec, minutesPerDay in *. split_and!; try done; lia. }
  destruct Hweek as (j0 & Hj0 & Hd0 & Hlt0 & Hle0).
  destruct (List.find _ _) as [p|]; [|exfalso; specialize (H j0 ltac:(lia) Hd0); lia].
  destruct H as (j & Hj & Hd & Hlt & -> & Hmin). cbn [pe_start period_of].
  assert (Hjj : j ≤ j0) by (destruct (decide (j ≤ j0)); [done|]; specialize (Hmin j0 ltac:(lia) Hd0); lia).
  split_and!.
  - by apply instant_lt.
  - assert (Hsj : start_of f j ≤ clock t + 7 * day_sec) by (unfold start_of, day_sec in *; lia).
    assert (Hle : ¬ t + 7 * day_sec * ns_per_sec < instant (start_of f j)); [|lia]. rewrite instant_lt.
    unfold clock, unix in *. rewrite Z.div_add by done. lia.
  - exists f, e, j. rewrite clock_instant. split_and!; try done. unfold end_of. lia.
  - intros v [Hv1 Hv2%instant_lt] (f' & e' & j' & Hs' & Hd' & Hc'). pose proof Hs' as (Hf' & He' & _).
    pose proof Hs as (Hf & He & _). assert (f' = f) as -> by congruence. assert (e' = e) as -> by congruence.
    apply clock_mono in Hv1. destruct (decide (start_of f j' ≤ clock t)) as [Hle|Hgt].
    + apply Hclosed. exists f, e, j'. split_and!; try done; lia.
    + assert (Hj' : n ≤ j' < j) by (unfold start_of, day_sec, minutesPerDay in *; lia). specialize (Hmin j' Hj' Hd'). lia.
Qed.
End fixed.

(** C32 (S27): at a fixed offset from UTC a normalised transfer window is open exactly
    while the clock is in one of its periods. While it is open, [EndsAt] is the first
    instant after [t] at which it is closed, and it is open with the same end until
    then; while it is closed, [NextOpen] is the first instant at which it is open,
    and it comes within a week: a deferred job always has a time to resume. *)
Theorem window_schedule (o : Z) (w : Window) (t : time) (Hok : window_ok w) (Ht : zero_time < t) :
  (Open (fixed o) (Some w) t = true ↔ open_at o w t) ∧
  (open_at o w t →
     NextOpen (fixed o) (Some w) t = t ∧
     let u := EndsAt (fixed o) (Some w) t in
     t < u ∧ ¬ open_at o w u ∧ ∀ v, t ≤ v < u → open_at o w v ∧ EndsAt (fixed o) (Some w) v = u) ∧
  (¬ open_at o w t →
     EndsAt (fixed o) (Some w) t = zero_time ∧
     let u := NextOpen (fixed o) (Some w) t in
     t < u ≤ t + 7 * day_sec * ns_per_sec ∧ open_at o w u ∧ ∀ v, t ≤ v < u → ¬ open_at o w v).
Proof.
  pose proof (Open_spec o w t Ht) as Ho. split_and!; [done| |].
  - intros Hopen. split; [unfold NextOpen; by rewrite (proj2 Ho Hopen)|]. cbv zeta.
    destruct Hopen as (f & e & j & Hs & Hd & Hj). rewrite (EndsAt_open o w t f e j Hs Hd Hj).
    pose proof (span_bounds _ _ _ _ Hs) as [Hfr Hsr]. split_and!; [apply instant_lt; lia| |].
    + intros (f' & e' & j' & (Hf' & He' & _) & _ & Hc). pose proof Hs as (Hf & He & _). rewrite clock_instant in Hc.
      assert (f' = f) as -> by congruence. assert (e' = e) as -> by congruence.
      unfold end_of, start_of, day_sec, minutesPerDay in *. lia.
    + intros v [Hv1%(clock_mono o) Hv2%instant_lt]. split; [exists f, e, j; split_and!; try done; lia|].
      apply (EndsAt_open o w v f e j Hs Hd). lia.
  - intros Hclosed. split; [|by apply NextOpen_closed].
    unfold Open in Ho. destruct (Z.eqb_spec (EndsAt (fixed o) (Some w) t) zero_time); [done|]. by destruct (Hclosed (proj1 Ho eq_refl)).
Qed.

(** ** The timetable *)
Lemma interval_within o from to f e j t : span from to f e → start_of f j ≤ clock o t < end_of f e j →
  let m := clock o t / 60 in j * minutesPerDay + f ≤ m < j * minutesPerDay + f + spanMinutes f e.
Proof.
  intros Hs Hj. cbv zeta. unfold end_of, start_of, day_sec, minutesPerDay in *.
  pose proof (Z.div_mod (clock o t) 60 ltac:(lia)). pose proof (Z.mod_pos_bound (clock o t) 60 ltac:(lia)). lia.
Qed.

(** The interval of the week that the period of day [j] is. *)
Definition week_interval (i : Z) (d : string) (f e : Z) : interval :=
  let start := dayIndex d * minutesPerDay + f in mkInterval i d start (start + spanMinutes f e).

Lemma day_in_index days j : day_in days j = true → Forall (λ d, 0 ≤ dayIndex d) days →
  ∃ d, d ∈ days ∧ dayIndex d = (j + 3) mod 7.
Proof.
  intros Hd%mem_spec _. exists (day_name ((j + 3) mod 7)). split; [done|].
  pose proof (Z.mod_pos_bound (j + 3) 7 ltac:(lia)) as Hm. set (r := (j + 3) mod 7) in *. clearbody r.
  assert (Hr : r = 0 ∨ r = 1 ∨ r = 2 ∨ r = 3 ∨ r = 4 ∨ r = 5 ∨ r = 6) by lia.
  by repeat destruct Hr as [->|Hr]; try (subst r); vm_compute.
Qed.

(** Two spans that contain one instant overlap as intervals of the week. *)
Lemma overlap_of_common o t i1 i2 d1 d2 from1 to1 f1 e1 j1 from2 to2 f2 e2 j2 :
  span from1 to1 f1 e1 → span from2 to2 f2 e2 →
  dayIndex d1 = (j1 + 3) mod 7 → dayIndex d2 = (j2 + 3) mod 7 →
  start_of f1 j1 ≤ clock o t < end_of f1 e1 j1 → start_of f2 j2 ≤ clock o t < end_of f2 e2 j2 →
  overlaps (week_interval i1 d1 f1 e1) (week_interval i2 d2 f2 e2) = true.
Proof.
  intros Hs1 Hs2 Hd1 Hd2 H1 H2.
  pose proof (period_day o _ _ _ _ _ _ Hs1 H1) as Hj1. pose proof (period_day o _ _ _ _ _ _ Hs2 H2) as Hj2.
  pose proof (interval_within o _ _ _ _ _ _ Hs1 H1) as Hm1. pose proof (interval_within o _ _ _ _ _ _ Hs2 H2) as Hm2. cbv zeta in *.
  set (m := clock o t / 60) in *. set (n := clock o t / day_sec) in *. clearbody m n.
  pose proof (Z.div_mod (j1 + 3) 7 ltac:(lia)) as Hq1. pose proof (Z.mod_pos_bound (j1 + 3) 7 ltac:(lia)) as Hr1.
  pose proof (Z.div_mod (j2 + 3) 7 ltac:(lia)) as Hq2. pose proof (Z.mod_pos_bound (j2 + 3) 7 ltac:(lia)) as Hr2.
  rewrite <-Hd1 in *. rewrite <-Hd2 in *. set (q1 := (j1 + 3) / 7) in *. set (q2 := (j2 + 3) / 7) in *. clearbody q1 q2.
  assert (Hq : q2 - q1 = -1 ∨ q2 - q1 = 0 ∨ q2 - q1 = 1) by lia.
  unfold overlaps. apply existsb_elem. exists ((q2 - q1) * minutesPerWeek). split.
  - destruct Hq as [->|[->| ->]]; unfold minutesPerWeek; [by left|by right; left|by do 2 right; left].
  - unfold overlap_at, week_interval, minutesPerWeek, minutesPerDay in *. cbn [iv_start iv_end]. lia.
Qed.

Lemma overlaps_sym x y : overlaps x y = overlaps y x.
Proof. unfold overlaps, overlap_at. cbn [existsb]. unfold minutesPerWeek, minutesPerDay. lia. Qed.

Lemma first_overlap_none ivs : first_overlap ivs = None → ∀ x y,
  x ∈ ivs → y ∈ ivs → iv_entry x ≠ iv_entry y → overlaps x y = false.
Proof.
  induction ivs as [|z ivs IH]; [intros _ x y Hx; by apply not_elem_of_nil in Hx|]. cbn [first_overlap].
  destruct (overlap_with z ivs) eqn:E; [done|]. intros H.
  assert (Hz : ∀ y, y ∈ ivs → iv_entry z ≠ iv_entry y → overlaps z y = false).
  { intros y Hy Hne. apply list_elem_of_In in Hy. pose proof (find_none _ _ E y Hy) as Hn. cbn beta in Hn.
    apply andb_false_iff in Hn as [Hn|Hn]; [|done]. apply negb_false_iff, Z.eqb_eq in Hn. done. }
  intros x y [->|Hx]%elem_of_cons [->|Hy]%elem_of_cons Hne; [done|by apply Hz| |by apply IH].
  rewrite overlaps_sym. by apply Hz.
Qed.

(** The entries after normalisation, and their intervals. *)
Lemma norm_entries_ok i es ivs out : norm_entries i es = Ok (ivs, out) →
  length out = length es ∧ (∀ x, x ∈ ivs → i ≤ iv_entry x) ∧
  ∀ k e, out !! k = Some e → ∃ f t, span (en_From e) (en_To e) f t ∧ Forall (λ d, 0 ≤ dayIndex d) (en_Days e) ∧
    ∀ d, d ∈ en_Days e → week_interval (i + Z.of_nat k) d f t ∈ ivs.
Proof.
  revert i ivs out. induction es as [|e0 es IH]; intros i ivs out; cbn [norm_entries].
  { intros [= <- <-]. split_and!; [done|intros x Hx; by apply not_elem_of_nil in Hx|done]. }
  intros (days & Hd & H)%rbind_ok. apply rbind_ok in H as ([f t] & Hs & H).
  apply rbind_ok in H as (_ & _ & H). apply rbind_ok in H as (_ & _ & H). apply rbind_ok in H as ([ivs' out'] & Hr & H).
  injection H as <- <-. apply IH in Hr as (Hlen & Hge & Hall). apply parseSpan_ok in Hs. split_and!.
  - simpl. by rewrite Hlen.
  - intros x [(d & -> & _)%list_elem_of_fmap|Hx]%elem_of_app; [simpl; lia|]. specialize (Hge x Hx). lia.
  - intros [|k] e.
    + intros [= <-]. exists f, t. cbn [en_From en_To en_Days]. split_and!; [done| |].
      * apply Forall_forall. intros d Hin. rewrite (normDays_elem _ _ _ _ Hd) in Hin. apply normDays_ok in Hd as (_ & Hf & _).
        rewrite Forall_forall in Hf. by apply Hf.
      * intros d Hin. apply elem_of_app. left. apply list_elem_of_fmap. exists d. split; [|done].
        unfold week_interval. cbn. f_equal. lia.
    + intros Hk. destruct (Hall k e Hk) as (f' & t' & Hs' & Hf' & Hin). exists f', t'. split_and!; [done|done|].
      intros d Hd'. apply elem_of_app. right. replace (i + Z.of_nat (S k)) with (i + 1 + Z.of_nat k) by lia. by apply Hin.
Qed.

Definition config_ok (c : Config) : Prop := ∃ c0, Normalize c0 = Ok c.

Lemma config_ok_spec c : config_ok c → ∃ ivs es, norm_entries 0 es = Ok (ivs, cf_Timetable c) ∧ first_overlap ivs = None.
Proof.
  intros (c0 & H). unfold Normalize in H. apply rbind_ok in H as (_ & _ & H). apply rbind_ok in H as (_ & _ & H).
  destruct (_ <=? MaxEntries); [|done]. apply rbind_ok in H as ([ivs out] & Hn & H).
  destruct (first_overlap ivs) as [[? ?]|] eqn:Hf; [done|]. exists ivs, (cf_Timetable c0).
  destruct (cf_Window c0) as [w0|]; [apply rbind_ok in H as (w & _ & [= <-])|injection H as <-]; done.
Qed.

(** (S27) A normalised timetable is unambiguous: at a fixed offset from UTC no
    instant lies in two of its entries, whatever days and midnights they cross, so
    the limits in force never depend on the order of the entries. *)
Theorem timetable_unambiguous (o : Z) (c : Config) (t : time) (i k : nat) (x y : Entry)
    (Hok : config_ok c) (Hx : cf_Timetable c !! i = Some x) (Hy : cf_Timetable c !! k = Some y)
    (Hcx : covers (fixed o) t x = true) (Hcy : covers (fixed o) t y = true) :
  i = k ∧ InForce (fixed o) c t = (en_UploadKiBps x, en_DownloadKiBps x).
Proof.
  apply config_ok_spec in Hok as (ivs & es & Hn & Hov). apply norm_entries_ok in Hn as (_ & _ & Hall).
  assert (Hsame : ∀ i k x y, cf_Timetable c !! i = Some x → cf_Timetable c !! k = Some y →
    covers (fixed o) t x = true → covers (fixed o) t y = true → i = k).
  { clear i k x y Hx Hy Hcx Hcy. intros i k x y Hx Hy Hcx Hcy. destruct (decide (i = k)) as [|Hne]; [done|]. exfalso.
    apply covers_spec in Hcx as (fx & ex & jx & Hsx & Hdx & Hjx). apply covers_spec in Hcy as (fy & ey & jy & Hsy & Hdy & Hjy).
    destruct (Hall i x Hx) as (fx' & ex' & (Hfx & Hex & _) & Hkx & Hix). destruct (Hall k y Hy) as (fy' & ey' & (Hfy & Hey & _) & Hky & Hiy).
    pose proof Hsx as (Hfx' & Hex' & _). pose proof Hsy as (Hfy' & Hey' & _). simplify_eq.
    destruct (day_in_index _ _ Hdx Hkx) as (dx & Hinx & Hdix). destruct (day_in_index _ _ Hdy Hky) as (dy & Hiny & Hdiy).
    pose proof (overlap_of_common o t (0 + Z.of_nat i) (0 + Z.of_nat k) dx dy _ _ _ _ _ _ _ _ _ _ Hsx Hsy Hdix Hdiy Hjx Hjy) as Ho.
    rewrite (first_overlap_none ivs Hov) in Ho; [done|by apply Hix|by apply Hiy|]. cbn. lia. }
  split; [by eapply Hsame|]. unfold InForce.
  destruct (List.find (covers (fixed o) t) (cf_Timetable c)) as [z|] eqn:E.
  - apply find_some in E as [Hz Hcz]. apply list_elem_of_In, list_elem_of_lookup in Hz as [m Hz].
    assert (m = i) as -> by (by eapply Hsame). congruence.
  - exfalso. assert (Hin : In x (cf_Timetable c)) by (apply list_elem_of_In; by eapply list_elem_of_lookup_2).
    pose proof (find_none _ _ E x Hin). congruence.
Qed.

(** ** The next change *)
Definition week : duration := 7 * day_sec * ns_per_sec.

Lemma max_exists (l : list Z) : l = [] ∨ ∃ m, m ∈ l ∧ ∀ x, x ∈ l → x ≤ m.
Proof.
  induction l as [|a l [->|(m & Hm & Hl)]]; [by left|right..].
  - exists a. split; [by left|]. intros x ->%list_elem_of_singleton. lia.
  - exists (Z.max a m). split; [destruct (Z.max_spec a m) as [[_ ->]|[_ ->]]; [by right|by left]|].
    intros x [->|Hx]%elem_of_cons; [lia|]. specialize (Hl x Hx). lia.
Qed.

Section changes.
Context (o : Z) (c : Config).

(** The seconds at which a period of an entry starts or ends. *)
Definition edge (e : Entry) (s : Z) : Prop := ∃ f t j, span (en_From e) (en_To e) f t ∧ day_in (en_Days e) j = true ∧
  (s = start_of f j ∨ s = end_of f t j).

Lemma InForce_ext t u : (∀ e, e ∈ cf_Timetable c → covers (fixed o) t e = covers (fixed o) u e) →
  InForce (fixed o) c t = InForce (fixed o) c u.
Proof.
  intros H. unfold InForce. replace (List.find (covers (fixed o) u) (cf_Timetable c)) with (List.find (covers (fixed o) t) (cf_Timetable c)); [done|].
  revert H. induction (cf_Timetable c) as [|e l IH]; intros H; [done|]. cbn [List.find]. rewrite (H e) by (by left).
  destruct (covers _ u e); [done|]. apply IH. intros. apply H. by right.
Qed.

Lemma covers_between t u e : t ≤ u → (∀ s, edge e s → ¬ (clock o t < s ≤ clock o u)) →
  covers (fixed o) t e = covers (fixed o) u e.
Proof.
  intros Htu%(clock_mono o) Hno. apply eq_true_iff_eq. rewrite !covers_spec. split; intros (f & x & j & Hs & Hd & Hj).
  - exists f, x, j. split_and!; [done|done|lia|]. specialize (Hno (end_of f x j)).
    destruct (decide (clock o u < end_of f x j)); [done|]. destruct Hno; [exists f, x, j; tauto|lia].
  - exists f, x, j. split_and!; [done|done| |lia]. specialize (Hno (start_of f j)).
    destruct (decide (start_of f j ≤ clock o t)); [done|]. destruct Hno; [exists f, x, j; tauto|lia].
Qed.

Lemma InForce_week t : InForce (fixed o) c (t + week) = InForce (fixed o) c t.
Proof.
  apply InForce_ext. intros e _. apply eq_true_iff_eq. rewrite !covers_spec.
  assert (Hc : clock o (t + week) = clock o t + 7 * day_sec).
  { unfold clock, unix, week. rewrite Z.div_add by done. lia. }
  split; intros (f & x & j & Hs & Hd & Hj); exists f, x.
  - exists (j - 7). replace j with (j - 7 + 7) in Hd by lia. rewrite weekday_week in Hd.
    unfold end_of, start_of, day_sec in *. split_and!; try done; lia.
  - exists (j + 7). rewrite weekday_week. unfold end_of, start_of, day_sec in *. split_and!; try done; lia.
Qed.

Lemma InForce_weeks t (n : nat) : InForce (fixed o) c (t + Z.of_nat n * week) = InForce (fixed o) c t.
Proof.
  induction n as [|n IH]; [f_equal; lia|]. replace (t + Z.of_nat (S n) * week) with (t + Z.of_nat n * week + week) by lia.
  by rewrite InForce_week.
Qed.

(** Every edge of the next week is a bound. *)
Lemma bounds_elem t b : b ∈ change_bounds (fixed o) c t ↔ t < b ∧ ∃ e p, e ∈ cf_Timetable c ∧
  p ∈ periods (fixed o) (en_Days e) (en_From e) (en_To e) t (-1) 8 ∧ (b = pe_start p ∨ b = pe_end p).
Proof.
  unfold change_bounds. rewrite isort_elem, filter_bool_elem, Z.ltb_lt, concat_fmap_elem. setoid_rewrite concat_fmap_elem.
  setoid_rewrite elem_of_cons. setoid_rewrite list_elem_of_singleton. naive_solver.
Qed.

Lemma edge_bound t u e s : e ∈ cf_Timetable c → edge e s → clock o t < s ≤ clock o u → u ≤ t + week →
  instant o s ∈ change_bounds (fixed o) c t.
Proof.
  intros He (f & x & j & Hs & Hd & Hedge) Hts Hu. apply bounds_elem. split; [apply instant_lt; lia|].
  exists e, (period_of o f x j). split_and!; [done| |destruct Hedge as [->| ->]; [by left|by right]].
  apply periods_elem. exists f, x, j. split_and!; try done.
  all: apply (clock_mono o) in Hu; assert (Hw : clock o (t + week) = clock o t + 7 * day_sec) by
    (unfold clock, unix, week; rewrite Z.div_add by done; lia); rewrite Hw in Hu;
    pose proof (span_bounds _ _ _ _ Hs) as [Hf Hsp]; unfold end_of, start_of, day_sec, minutesPerDay in *;
    pose proof (Z.div_mod (clock o t) 86400 ltac:(lia)); pose proof (Z.mod_pos_bound (clock o t) 86400 ltac:(lia)); lia.
Qed.

Lemma InForce_between t v u : t ≤ v ≤ u → u ≤ t + week → (∀ b, b ∈ change_bounds (fixed o) c t → ¬ (v < b ≤ u)) →
  InForce (fixed o) c v = InForce (fixed o) c u.
Proof.
  intros Hv Hu Hno. apply InForce_ext. intros e He. apply covers_between; [lia|]. intros s Hs Hvs.
  pose proof (clock_mono o t v ltac:(lia)) as Hm.
  apply (Hno (instant o s)); [apply (edge_bound t u e s); [done|done|lia|done]|]. rewrite instant_le, instant_lt. lia.
Qed.

(** Within a week nothing changes before the first bound with other limits. *)
Lemma InForce_until t u : t ≤ u ≤ t + week →
  (∀ b, b ∈ change_bounds (fixed o) c t → b ≤ u → InForce (fixed o) c b = InForce (fixed o) c t) →
  InForce (fixed o) c u = InForce (fixed o) c t.
Proof.
  intros Hu Hsame. destruct (max_exists (List.filter (λ b, b <=? u) (change_bounds (fixed o) c t))) as [Hnil|(m & Hm & Hmax)].
  - symmetry. apply (InForce_between t); [lia|lia|]. intros b Hb Hbu.
    assert (Hin : b ∈ List.filter (λ b, b <=? u) (change_bounds (fixed o) c t)) by (apply filter_bool_elem; split; [done|lia]).
    rewrite Hnil in Hin. by apply not_elem_of_nil in Hin.
  - apply filter_bool_elem in Hm as [Hm Hmu]. apply Z.leb_le in Hmu. rewrite <-(Hsame m Hm Hmu).
    pose proof Hm as [Htm _]%bounds_elem. symmetry. apply (InForce_between t); [lia|lia|]. intros b Hb Hbu.
    assert (Hin : b ∈ List.filter (λ b, b <=? u) (change_bounds (fixed o) c t)) by (apply filter_bool_elem; split; [done|lia]).
    specialize (Hmax b Hin). lia.
Qed.

(** The first bound with other limits comes before any instant with other limits. *)
Lemma first_change t u : t ≤ u → InForce (fixed o) c u ≠ InForce (fixed o) c t →
  ∃ b, b ∈ change_bounds (fixed o) c t ∧ b ≤ u ∧ InForce (fixed o) c b ≠ InForce (fixed o) c t.
Proof.
  intros Htu Hne. set (q := (u - t) / week). set (v := t + (u - t) mod week).
  pose proof (Z.div_mod (u - t) week ltac:(done)) as Hdm. pose proof (Z.mod_pos_bound (u - t) week ltac:(done)) as Hmb.
  assert (Hq : 0 ≤ q) by (unfold q; apply Z.div_pos; [lia|done]).
  assert (Hvu : v ≤ u) by (unfold v; pose proof (Z.mod_le (u - t) week ltac:(lia) ltac:(done)); lia).
  assert (Hv : InForce (fixed o) c u = InForce (fixed o) c v).
  { rewrite <-(InForce_weeks v (Z.to_nat q)). f_equal. unfold v, q in *. rewrite Z2Nat.id by lia. lia. }
  destruct (existsb (λ b, (b <=? v) && negb (bool_decide (InForce (fixed o) c b = InForce (fixed o) c t))) (change_bounds (fixed o) c t)) eqn:E.
  - apply existsb_elem in E as (b & Hb & [Hbv Hbne]%andb_true_iff). exists b. split_and!; [done|lia|].
    apply negb_true_iff in Hbne. by case_bool_decide.
  - exfalso. apply Hne. rewrite Hv. apply InForce_until; [unfold v; lia|]. intros b Hb Hbv.
    rewrite existsb_false in E. specialize (E b Hb). cbn beta in E. rewrite (proj2 (Z.leb_le _ _) Hbv) in E. cbn [andb] in E.
    apply negb_false_iff in E. by case_bool_decide.
Qed.
End changes.

(** at a fixed offset from UTC [NextChange] is the first instant after [t] at which
    the limits in force differ from those at [t]; when it is the zero time they never
    change. The bounds of nine days are enough, because the timetable repeats every
    week. *)
Theorem next_change_exact (o : Z) (c : Config) (t : time) :
  let u := NextChange (fixed o) c t in
  (u = zero_time ∧ ∀ v, t ≤ v → InForce (fixed o) c v = InForce (fixed o) c t) ∨
  (t < u ∧ InForce (fixed o) c u ≠ InForce (fixed o) c t ∧ ∀ v, t ≤ v < u → InForce (fixed o) c v = InForce (fixed o) c t).
Proof.
  cbv zeta. unfold NextChange.
  destruct (List.find _ (change_bounds (fixed o) c t)) as [b|] eqn:E; cbn [default from_option id]; [right|left].
  - pose proof E as [Hin Hne]%find_some. apply list_elem_of_In in Hin. pose proof Hin as [Htb _]%bounds_elem.
    apply negb_true_iff in Hne. case_bool_decide; [done|]. split_and!; [done|done|]. intros v Hv.
    destruct (decide (InForce (fixed o) c v = InForce (fixed o) c t)) as [|Hd]; [done|]. exfalso.
    destruct (first_change o c t v ltac:(lia) Hd) as (b' & Hb' & Hle & Hne').
    assert (Hs : StronglySorted (cmp_le zcmp) (change_bounds (fixed o) c t)) by (apply isort_sorted; exact _).
    assert (Hmin : b ≤ b'); [|lia]. revert E Hs Hb' Hne'. generalize (change_bounds (fixed o) c t) as l. clear.
    induction l as [|a l IH]; [done|]. cbn [List.find]. intros E Hs Hb' Hne'. inversion Hs as [|? ? Hs' Hall]; subst.
    case_bool_decide as Ha; cbn [negb] in E.
    + apply elem_of_cons in Hb' as [->|Hb']; [done|]. by apply IH.
    + injection E as <-. apply elem_of_cons in Hb' as [->|Hb']; [lia|]. rewrite Forall_forall in Hall. specialize (Hall b' Hb').
      unfold cmp_le in Hall. pose proof (zcmp_spec a b'). lia.
  - split; [done|]. intros v Hv. destruct (decide (InForce (fixed o) c v = InForce (fixed o) c t)) as [|Hd]; [done|]. exfalso.
    destruct (first_change o c t v Hv Hd) as (b' & Hb' & _ & Hne'). apply list_elem_of_In in Hb'.
    pose proof (find_none _ _ E b' Hb') as Hn. cbn beta in Hn. apply negb_false_iff in Hn. by case_bool_decide.
Qed.

(** ** Normalisation *)
Lemma mem_ext (l k : list string) d : (d ∈ l ↔ d ∈ k) → mem d l = mem d k.
Proof. intros H. apply eq_true_iff_eq. by rewrite !mem_spec. Qed.

Lemma normDays_idem field days out : normDays field days = Ok out → normDays field out = Ok out.
Proof.
  intros H. pose proof H as (Hne & Hf & Hnd & Hout)%normDays_ok. apply normDays_ok. split_and!.
  - destruct (normDays_known _ _ _ H) as (d & Hd & _). intros ->. by apply not_elem_of_nil in Hd.
  - apply Forall_forall. intros d Hd. rewrite Forall_forall in Hf. apply Hf. by rewrite <-(normDays_elem _ _ _ _ H).
  - rewrite Hout. apply NoDup_ListNoDup, List.NoDup_filter. apply NoDup_ListNoDup, (bool_decide_unpack _). vm_compute. exact I.
  - rewrite Hout at 1. apply List.filter_ext. intros d. apply mem_ext. symmetry. by eapply normDays_elem.
Qed.

Lemma periods_days loc days days' from to t a b : (∀ d, d ∈ days ↔ d ∈ days') →
  periods loc days from to t a b = periods loc days' from to t a b.
Proof.
  intros H. unfold periods. destruct (parseHM from) as [f|]; [|done]. destruct (parseHM to) as [e|]; [|done].
  destruct (f =? e); [done|]. apply list_omap_ext. apply Forall_Forall2_diag, Forall_forall. intros k _.
  unfold period_at. by rewrite (mem_ext _ _ _ (H _)).
Qed.

Lemma norm_entries_fix loc i es ivs out : norm_entries i es = Ok (ivs, out) →
  norm_entries i out = Ok (ivs, out) ∧ Forall (λ e, 0 ≤ en_UploadKiBps e ≤ MaxKiBps ∧ 0 ≤ en_DownloadKiBps e ≤ MaxKiBps) out ∧
  Forall2 (λ e e', (∀ t, covers loc t e = covers loc t e') ∧ en_UploadKiBps e = en_UploadKiBps e' ∧ en_DownloadKiBps e = en_DownloadKiBps e') es out.
Proof.
  revert i ivs out. induction es as [|e es IH]; intros i ivs out; cbn [norm_entries].
  { intros [= <- <-]. split_and!; [done|by constructor..]. }
  intros (days & Hd & H)%rbind_ok. apply rbind_ok in H as ([f t] & Hs & H).
  apply rbind_ok in H as ([] & Hu & H). apply rbind_ok in H as ([] & Hdn & H). apply rbind_ok in H as ([ivs' out'] & Hr & H).
  injection H as <- <-. apply IH in Hr as (Hr & Hb & Hf). cbn [norm_entries en_Days en_From en_To en_UploadKiBps en_DownloadKiBps].
  rewrite (normDays_idem _ _ _ Hd). cbn [rbind]. rewrite Hs. cbn [rbind]. rewrite Hu, Hdn. cbn [rbind]. rewrite Hr. split_and!; [done| |].
  - constructor; [|done]. unfold checkRate in *. cbn.
    destruct (_ || _) eqn:Eu in Hu; [done|]. destruct (_ || _) eqn:Ed in Hdn; [done|]. lia.
  - constructor; [|done]. split_and!; [|done..]. intros u. unfold covers. cbn.
    f_equal. apply periods_days. intros d. symmetry. by eapply normDays_elem.
Qed.

Lemma InForce_norm loc c c' t : cf_UploadKiBps c = cf_UploadKiBps c' → cf_DownloadKiBps c = cf_DownloadKiBps c' →
  Forall2 (λ e e', (∀ t, covers loc t e = covers loc t e') ∧ en_UploadKiBps e = en_UploadKiBps e' ∧ en_DownloadKiBps e = en_DownloadKiBps e')
    (cf_Timetable c) (cf_Timetable c') → InForce loc c t = InForce loc c' t.
Proof.
  unfold InForce. intros Hu Hd. induction 1 as [|e e' es es' (Hc & He1 & He2) _ IH]; cbn [List.find]; [congruence|].
  rewrite (Hc t). destruct (covers loc t e'); [congruence|done].
Qed.

(** C33: [Normalize] accepts at most 16 entries and only rates from 0 to 10,000,000 KiB/s,
    its result is a fixed point of it, and the limits in force and the openings of the
    window are those of what was given, at every instant of every location. *)
Theorem normalize_canonical (c c' : Config) (H : Normalize c = Ok c') :
  Normalize c' = Ok c' ∧
  (Z.of_nat (length (cf_Timetable c')) ≤ MaxEntries ∧
   0 ≤ cf_UploadKiBps c' ≤ MaxKiBps ∧ 0 ≤ cf_DownloadKiBps c' ≤ MaxKiBps ∧
   Forall (λ e, 0 ≤ en_UploadKiBps e ≤ MaxKiBps ∧ 0 ≤ en_DownloadKiBps e ≤ MaxKiBps) (cf_Timetable c') ∧
   ∀ w, cf_Window c' = Some w → 0 ≤ wi_GraceMinutes w ≤ MaxGraceMinutes) ∧
  ∀ loc t, InForce loc c t = InForce loc c' t ∧ EndsAt loc (cf_Window c) t = EndsAt loc (cf_Window c') t ∧
           NextOpen loc (cf_Window c) t = NextOpen loc (cf_Window c') t.
Proof.
  unfold Normalize in H. apply rbind_ok in H as ([] & Hu & H). apply rbind_ok in H as ([] & Hd & H).
  destruct (_ <=? MaxEntries) eqn:Hlen; [|done]. apply rbind_ok in H as ([ivs out] & Hn & H).
  destruct (first_overlap ivs) as [[? ?]|] eqn:Hov; [done|].
  assert (Hw : ∃ w', c' = mkConfig (cf_UploadKiBps c) (cf_DownloadKiBps c) out w' ∧
    match cf_Window c with None => w' = None | Some w => ∃ w1, norm_window w = Ok w1 ∧ w' = Some w1 end).
  { destruct (cf_Window c) as [w|]; [apply rbind_ok in H as (w1 & Hw & [= <-]); eexists; split; [done|by exists w1]|].
    injection H as <-. by eexists. }
  clear H. destruct Hw as (w' & -> & Hw).
  assert (Hlen' : length out = length (cf_Timetable c)) by (by apply norm_entries_ok in Hn as [? _]).
  pose proof (norm_entries_fix UTC _ _ _ _ Hn) as (Hfix & Hb & _).
  assert (Hgrace : ∀ w, w' = Some w → norm_window w = Ok w ∧ 0 ≤ wi_GraceMinutes w ≤ MaxGraceMinutes).
  { intros w ->. destruct (cf_Window c) as [w0|]; [|done]. destruct Hw as (w1 & Hw1 & [= ->]). unfold norm_window in *.
    apply rbind_ok in Hw1 as (days & Hdays & Hw1). apply rbind_ok in Hw1 as ([f e] & Hs & Hw1).
    destruct (_ && _) eqn:Hg; [|done]. injection Hw1 as <-. cbn [wi_Days wi_From wi_To wi_GraceMinutes wi_AllowOverrun].
    rewrite (normDays_idem _ _ _ Hdays). cbn [rbind]. rewrite Hs. cbn [rbind]. rewrite Hg. split; [done|lia]. }
  split_and!.
  - unfold Normalize. cbn [cf_UploadKiBps cf_DownloadKiBps cf_Timetable cf_Window]. rewrite Hu, Hd. cbn [rbind].
    rewrite Hlen', Hlen, Hfix. cbn [rbind]. rewrite Hov. destruct w' as [w|]; [|done].
    by rewrite (proj1 (Hgrace w eq_refl)).
  - cbn. rewrite Hlen'. lia.
  - cbn. unfold checkRate in Hu. destruct (_ || _) eqn:E in Hu; [done|]. lia.
  - cbn. unfold checkRate in Hu. destruct (_ || _) eqn:E in Hu; [done|]. lia.
  - cbn. unfold checkRate in Hd. destruct (_ || _) eqn:E in Hd; [done|]. lia.
  - cbn. unfold checkRate in Hd. destruct (_ || _) eqn:E in Hd; [done|]. lia.
  - done.
  - intros w Hw1. by apply Hgrace.
  - intros loc t. split; [apply InForce_norm; [done|done|]; by eapply norm_entries_fix|]. cbn [cf_Window].
    destruct (cf_Window c) as [w0|]; [|by rewrite Hw]. destruct Hw as (w1 & Hw1 & ->). unfold norm_window in Hw1.
    apply rbind_ok in Hw1 as (days & Hdays & Hw1). apply rbind_ok in Hw1 as ([f e] & Hs & Hw1).
    destruct (_ && _) eqn:Hg; [|done]. injection Hw1 as <-.
    assert (Hp : ∀ a b, periods loc days (wi_From w0) (wi_To w0) t a b = periods loc (wi_Days w0) (wi_From w0) (wi_To w0) t a b).
    { intros a b. apply periods_days. intros d. by eapply normDays_elem. }
    unfold NextOpen, Open, EndsAt. cbn [wi_Days wi_From wi_To]. by rewrite !Hp.
Qed.

(** *** A configuration *)
Module LimitSample.
Definition entry1 : Entry := mkEntry ["mon"] "23:00" "06:00" 512 0.
Definition entry2 : Entry := mkEntry ["wed"; "tue"] "06:00" "08:30" 0 100.
Definition window : Window := mkWindow ["sun"; "mon"] "22:00" "04:00" 15 false.
Definition given : Config := mkConfig 1000 0 [entry1; entry2] (Some window).
Definition stored : Config :=
  mkConfig 1000 0 [entry1; mkEntry ["tue"; "wed"] "06:00" "08:30" 0 100] (Some (mkWindow ["mon"; "sun"] "22:00" "04:00" 15 false)).
Example normalized : Normalize given = Ok stored.
Proof. vm_compute. reflexivity. Qed.
Example overlapping : is_ok (Normalize (mkConfig 0 0 [entry1; mkEntry ["tue"] "05:59" "06:30" 1 1] None)) = false.
Proof. vm_compute. reflexivity. Qed.
(** Tuesday 28 July 2026, 05:00 at UTC+2. *)
Definition tuesday : time := (day_of_civil 2026 7 28 * 86400 + 3 * 3600) * ns_per_sec.
Example in_force : InForce (fixed 7200) stored tuesday = (512, 0).
Proof. vm_compute. reflexivity. Qed.
Example next_change : NextChange (fixed 7200) stored tuesday = tuesday + ns_per_hour.
Proof. vm_compute. reflexivity. Qed.
End LimitSample.

Lemma normalize_canonical_witness : Normalize LimitSample.given = Ok LimitSample.stored ∧ Normalize LimitSample.stored = Ok LimitSample.stored.
Proof.
  assert (H : Normalize LimitSample.given = Ok LimitSample.stored) by (vm_compute; reflexivity).
  split; [exact H|]. exact (proj1 (normalize_canonical _ _ H)).
Defined.

Lemma window_schedule_witness :
  let w := mkWindow ["mon"; "sun"] "22:00" "04:00" 15 false in
  window_ok w ∧ (Open (fixed 7200) (Some w) LimitSample.tuesday = true ↔ open_at 7200 w LimitSample.tuesday).
Proof.
  cbv zeta. assert (H : window_ok (mkWindow ["mon"; "sun"] "22:00" "04:00" 15 false)) by (exists LimitSample.window; vm_compute; reflexivity).
  split; [exact H|]. exact (proj1 (window_schedule 7200 _ LimitSample.tuesday H ltac:(vm_compute; reflexivity))).
Defined.

Lemma timetable_unambiguous_witness : (0 = 0)%nat ∧ InForce (fixed 7200) LimitSample.stored LimitSample.tuesday = (512, 0).
Proof.
  assert (H : config_ok LimitSample.stored) by (exists LimitSample.given; vm_compute; reflexivity).
  exact (timetable_unambiguous 7200 LimitSample.stored LimitSample.tuesday 0 0 LimitSample.entry1 LimitSample.entry1 H
           eq_refl eq_refl ltac:(vm_compute; reflexivity) ltac:(vm_compute; reflexivity)).
Defined.
