(* ===== verification/JobParams.v ===== *)
(** * JobParams: what a job works on ([internal/jobs/contract.go],
    [internal/jobqueue/jobqueue.go])

    The types, parameters and specs of jobs, their canonical form, their validation
    and the lock keys a job holds while it runs. The stored form of parameters is
    the JSON of the canonical form: two specs have equal stored parameters exactly
    when their canonical forms are equal, so the model compares canonical forms. *)
From stdpp Require Import base gmap list strings pretty.
From Stdlib Require Import Ascii.
From S2P Require Import Prelude GoStrings.
Open Scope string_scope.
Open Scope Z_scope.

Inductive job_type := TypeScan | TypeSync | TypePlexDBBackup | TypeRetention | TypeVerify | TypeRefresh | TypeArrBackup | TypeManifestExport.
Inductive job_status := StatusQueued | StatusRunning | StatusCompleted | StatusCompletedWithWarnings | StatusFailed | StatusCancelled.
Inductive job_trigger := TriggerSchedule | TriggerManual | TriggerWebhook | TriggerResume | TriggerStartup.
#[export] Instance job_type_eq_dec : EqDecision job_type.
Proof. solve_decision. Defined.
#[export] Instance job_status_eq_dec : EqDecision job_status.
Proof. solve_decision. Defined.
#[export] Instance job_trigger_eq_dec : EqDecision job_trigger.
Proof. solve_decision. Defined.

(** [Status.Final] *)
Definition Final (s : job_status) : bool := negb (bool_decide (s = StatusQueued)) && negb (bool_decide (s = StatusRunning)).

Definition MaxTargetPaths : Z := 1000.
Definition MaxTargetItems : Z := 500.

Record Params := mkParams {
  jp_DestinationID : Z;
  jp_SourceIDs : list Z;
  jp_IntegrationID : Z;
  jp_AllowChanges : bool;
  jp_Paths : list string;
  jp_ArrItemIDs : list Z;
  jp_SyncAfter : bool;
  jp_ReleaseDemoted : bool;
  jp_ReleaseOf : Z;
  jp_ReleaseRevision : Z;
  jp_Prune : bool;
  jp_ReadData : bool;
}.
#[export] Instance Params_eq_dec : EqDecision Params.
Proof. solve_decision. Defined.

Record Spec := mkSpec { sp_Type : job_type; sp_Trigger : option job_trigger; sp_DryRun : bool; sp_Params : Params }.

(** [ValidTargetPath] *)
Definition is_abs (p : string) : bool := has_prefix p "/".
Definition has_nul (p : string) : bool := mem (chr 0) (bytes p).
Definition ValidTargetPath (p : string) : bool :=
  if mem p [""; "."; ".."] || is_abs p || has_prefix p "../" || has_nul p then false
  else bool_decide (path_clean p = p).

(** [Params.Targeted] *)
Definition nonempty {A} (l : list A) : bool := match l with [] => false | _ => true end.
Definition Targeted (p : Params) : bool := nonempty (jp_Paths p) || nonempty (jp_ArrItemIDs p).

(** ** Canonical parameters *)

(** [sortedIDs]: [slices.Sort] and [slices.Compact]. *)
Fixpoint compact (l : list Z) : list Z :=
  match l with
  | x :: (y :: _) as l' => if x =? y then compact l' else x :: compact l'
  | l => l
  end.
Definition sortedIDs (ids : list Z) : list Z := compact (isort zcmp ids).

(** The directories above a path ([path.Dir] until ["."], ["/"] or [""]), nearest
    first: the loop of [insideAny]. Each is shorter, so the length of the path is
    enough fuel. *)
Fixpoint dirs_from (fuel : nat) (d : string) : list string :=
  match fuel with
  | 0%nat => []
  | S fuel => if mem d ["."; "/"; ""] then [] else d :: dirs_from fuel (path_dir d)
  end.
Definition dirs_above (p : string) : list string := dirs_from (S (String.length p)) (path_dir p).
Definition insideAny (p : string) (set : list string) : bool := existsb (λ d, mem d set) (dirs_above p).

(** [canonicalPaths]: the set of the paths without those inside another. *)
Definition canonicalPaths (ps : list string) : list string :=
  isort str_cmp (List.filter (λ p, negb (insideAny p ps)) (remove_dups ps)).

Definition normalizeParams (p : Params) : Params :=
  mkParams (jp_DestinationID p) (sortedIDs (jp_SourceIDs p)) (jp_IntegrationID p) (jp_AllowChanges p) (canonicalPaths (jp_Paths p))
    (sortedIDs (jp_ArrItemIDs p)) (jp_SyncAfter p) (jp_ReleaseDemoted p) (jp_ReleaseOf p) (jp_ReleaseRevision p) (jp_Prune p) (jp_ReadData p).

(** [coversSources] *)
Definition coversSources (have want : list Z) : bool :=
  match have, want with
  | [], _ => true
  | _, [] => false
  | _, _ => forallb (λ id, mem id have) want
  end.

(** ** Validation *)
Inductive param_error :=
| UnknownTrigger | NegativeID | BadSourceID | NotForType (t : job_type) | NeedsDestination | NeedsIntegration | BadItemID | TooManyItems
| SyncAfterWithoutItems | NeedsSource | OneSource | BadPath (p : string) | TooManyPaths | ReleaseWithPaths | ReleaseParams | ReleaseUnnamed.

Definition validateSyncTargets (p : Params) (dryRun : bool) : result param_error unit :=
  let? _ :=
    (if nonempty (jp_Paths p) then
      guard? (Z.of_nat (length (sortedIDs (jp_SourceIDs p))) =? 1) else OneSource;
      match List.find (λ tp, negb (ValidTargetPath tp)) (jp_Paths p) with
      | Some tp => Err (BadPath tp)
      | None =>
          guard? Z.of_nat (length (canonicalPaths (jp_Paths p))) <=? MaxTargetPaths else TooManyPaths;
          guard? negb (jp_ReleaseDemoted p) else ReleaseWithPaths;
          Ok tt
      end
    else Ok tt) in
  guard? negb (negb (jp_ReleaseDemoted p) && (negb (jp_ReleaseOf p =? 0) || negb (jp_ReleaseRevision p =? 0))) else ReleaseParams;
  guard? negb (jp_ReleaseDemoted p && negb dryRun && ((jp_ReleaseOf p =? 0) || (jp_ReleaseRevision p =? 0))) else ReleaseUnnamed;
  Ok tt.

Definition validateParams (t : job_type) (p : Params) (dryRun : bool) : result param_error unit :=
  guard? negb ((jp_DestinationID p <? 0) || (jp_IntegrationID p <? 0) || (jp_ReleaseOf p <? 0) || (jp_ReleaseRevision p <? 0)) else NegativeID;
  guard? forallb (λ id, 0 <? id) (jp_SourceIDs p) else BadSourceID;
  guard? negb (negb (bool_decide (t = TypeSync)) && (nonempty (jp_Paths p) || jp_ReleaseDemoted p || negb (jp_ReleaseOf p =? 0)
    || negb (jp_ReleaseRevision p =? 0))) else NotForType t;
  guard? negb (negb (bool_decide (t = TypeRefresh)) && (nonempty (jp_ArrItemIDs p) || jp_SyncAfter p)) else NotForType t;
  guard? negb (jp_Prune p && (negb (bool_decide (t = TypeRetention)) || (jp_DestinationID p =? 0))) else NotForType t;
  guard? negb (jp_ReadData p && negb (bool_decide (t = TypeVerify))) else NotForType t;
  match t with
  | TypeSync =>
      guard? negb (jp_DestinationID p =? 0) else NeedsDestination;
      validateSyncTargets p dryRun
  | TypeVerify | TypeManifestExport => guard? negb (jp_DestinationID p =? 0) else NeedsDestination; Ok tt
  | TypePlexDBBackup | TypeArrBackup => guard? negb (jp_IntegrationID p =? 0) else NeedsIntegration; Ok tt
  | TypeRefresh =>
      guard? negb (jp_IntegrationID p =? 0) else NeedsIntegration;
      guard? forallb (λ id, 0 <? id) (jp_ArrItemIDs p) else BadItemID;
      guard? Z.of_nat (length (sortedIDs (jp_ArrItemIDs p))) <=? MaxTargetItems else TooManyItems;
      guard? negb (jp_SyncAfter p && negb (nonempty (jp_ArrItemIDs p))) else SyncAfterWithoutItems;
      Ok tt
  | TypeScan => guard? nonempty (jp_SourceIDs p) else NeedsSource; Ok tt
  | TypeRetention => Ok tt
  end.

(** [normalizeSpec]: the trigger of a spec without one is manual. (Unknown triggers
    have no [job_trigger].) *)
Definition normalizeSpec (s : Spec) : result param_error Spec :=
  let trigger := default TriggerManual (sp_Trigger s) in
  let? _ := validateParams (sp_Type s) (sp_Params s) (sp_DryRun s) in
  Ok (mkSpec (sp_Type s) (Some trigger) (sp_DryRun s) (normalizeParams (sp_Params s))).

Definition resumesStoredPlan (t : job_type) : bool :=
  match t with TypeSync | TypeVerify | TypeRetention => true | _ => false end.

(** ** Lock keys *)
Definition ManifestBuildKey : string := "manifest-build".
Definition LockKeys (t : job_type) (p : Params) : list string :=
  match t with
  | TypeSync | TypeVerify | TypeRetention =>
      if jp_DestinationID p =? 0 then [] else ["dest:" +:+ pretty (jp_DestinationID p)]
  | TypePlexDBBackup => if jp_IntegrationID p =? 0 then [] else ["plexdb:" +:+ pretty (jp_IntegrationID p)]
  | TypeRefresh => if jp_IntegrationID p =? 0 then [] else ["integration:" +:+ pretty (jp_IntegrationID p)]
  | TypeArrBackup => if jp_IntegrationID p =? 0 then [] else ["arrbackup:" +:+ pretty (jp_IntegrationID p)]
  | TypeManifestExport =>
      if jp_DestinationID p =? 0 then [] else ["manifest:" +:+ pretty (jp_DestinationID p); ManifestBuildKey]
  | TypeScan => (λ id, "source:" +:+ pretty id) <$> sortedIDs (jp_SourceIDs p)
  end.

Definition refreshPool (t : job_type) : bool := bool_decide (t = TypeRefresh).

(** ** Sorted ids *)
Lemma compact_cons a b l : compact (a :: b :: l) = if a =? b then compact (b :: l) else a :: compact (b :: l).
Proof. done. Qed.
Lemma compact_elem l x : x ∈ compact l ↔ x ∈ l.
Proof.
  induction l as [|a l IH]; [done|]. destruct l as [|b l]; [done|]. rewrite compact_cons. destruct (Z.eqb_spec a b) as [->|].
  - rewrite IH. rewrite !elem_of_cons. tauto.
  - rewrite elem_of_cons, IH. by rewrite (elem_of_cons _ x a).
Qed.

Lemma compact_sorted l : StronglySorted Z.le l → StronglySorted Z.lt (compact l).
Proof.
  induction 1 as [|a l Hs IH Hall]; [constructor|]. destruct l as [|b l]; [by repeat constructor|]. rewrite compact_cons.
  destruct (Z.eqb_spec a b) as [|Hne]; [done|]. constructor; [done|]. apply Forall_forall. intros x Hx. rewrite compact_elem in Hx.
  rewrite Forall_forall in Hall. inversion Hs as [|? ? _ Hb]; subst. rewrite Forall_forall in Hb.
  pose proof (Hall b ltac:(by left)). apply elem_of_cons in Hx as [->|Hx]; [lia|]. specialize (Hb x Hx). lia.
Qed.

Lemma sortedIDs_elem ids x : x ∈ sortedIDs ids ↔ x ∈ ids.
Proof. unfold sortedIDs. by rewrite compact_elem, isort_elem. Qed.

Lemma sortedIDs_sorted ids : StronglySorted Z.lt (sortedIDs ids).
Proof.
  apply compact_sorted. eapply sorted_weaken; [|apply isort_sorted; exact _]. intros a b H. pose proof (zcmp_spec a b).
  unfold cmp_le in H. lia.
Qed.

(** A strictly sorted list is fixed by its elements. *)
Lemma sorted_unique {A} (R : A → A → Prop) (l k : list A) : (∀ a, ¬ R a a) → (∀ a b, R a b → R b a → False) →
  StronglySorted R l → StronglySorted R k → (∀ x, x ∈ l ↔ x ∈ k) → l = k.
Proof.
  intros Hirr Hasym Hl. revert k. induction Hl as [|a l Hs IH Ha]; intros k Hk Heq.
  - destruct k as [|b k]; [done|]. exfalso. assert (b ∈ ([] : list A)) as []%elem_of_nil by (apply Heq; left).
  - destruct Hk as [|b k Hk Hb]; [exfalso; assert (a ∈ ([] : list A)) as []%elem_of_nil by (apply Heq; left)|].
    rewrite Forall_forall in Ha, Hb.
    assert (a = b) as ->.
    { assert (Hab : a ∈ b :: k) by (apply Heq; left). assert (Hba : b ∈ a :: l) by (apply Heq; left).
      apply elem_of_cons in Hab as [|Hab]; [done|]. apply elem_of_cons in Hba as [|Hba]; [done|].
      by destruct (Hasym a b (Ha b Hba) (Hb a Hab)). }
    f_equal. apply IH; [done|]. intros x. split; intros Hx.
    + assert (Hx' : x ∈ b :: k) by (apply Heq; by right). apply elem_of_cons in Hx' as [->|]; [|done].
      by destruct (Hirr b (Ha b Hx)).
    + assert (Hx' : x ∈ b :: l) by (apply Heq; by right). apply elem_of_cons in Hx' as [->|]; [|done].
      by destruct (Hirr b (Hb b Hx)).
Qed.

Lemma sortedIDs_ext ids ids' : (∀ x, x ∈ ids ↔ x ∈ ids') → sortedIDs ids = sortedIDs ids'.
Proof.
  intros H. apply (sorted_unique Z.lt); [lia|lia|apply sortedIDs_sorted|apply sortedIDs_sorted|].
  intros x. rewrite !sortedIDs_elem. apply H.
Qed.
Lemma sortedIDs_idem ids : sortedIDs (sortedIDs ids) = sortedIDs ids.
Proof. apply sortedIDs_ext. intros x. apply sortedIDs_elem. Qed.
Lemma sortedIDs_nil ids : sortedIDs ids = [] ↔ ids = [].
Proof.
  split; [|by intros ->]. intros H. destruct ids as [|x ids]; [done|]. exfalso.
  assert (Hx : x ∈ sortedIDs (x :: ids)) by (apply sortedIDs_elem; left). rewrite H in Hx. by apply elem_of_nil in Hx.
Qed.

(** ** Canonical paths

    A path lies under another when it is the same or when the other is one of the
    directories above it. *)
Definition under_path (q p : string) : Prop := q = p ∨ p ∈ dirs_above q.
(** What a list of target paths covers; no paths is the whole source. *)
Definition covers_path (ps : list string) (q : string) : Prop := ∃ p, p ∈ ps ∧ under_path q p.

Definition stops (d : string) : bool := mem d ["."; "/"; ""].

Lemma path_dir_stops d : stops d = false → stops (path_dir d) = true ∨ (String.length (path_dir d) < String.length d)%nat.
Proof.
  intros _. destruct (path_dir_shorter d) as [->|[->|H]]; [left; by apply mem_spec; right; left|left; by apply mem_spec; left|by right].
Qed.

(** More fuel changes nothing. *)
Lemma dirs_from_fuel n m d : stops d = true ∨ (String.length d < n)%nat ∧ (String.length d < m)%nat → dirs_from n d = dirs_from m d.
Proof.
  revert m d. induction n as [|n IH]; intros m d H.
  - destruct H as [H|[H _]]; [|lia]. destruct m; [done|]. cbn [dirs_from]. fold (stops d). by rewrite H.
  - destruct m as [|m]; [destruct H as [H|[_ H]]; [|lia]; cbn [dirs_from]; fold (stops d); by rewrite H|].
    cbn [dirs_from]. fold (stops d). destruct (stops d) eqn:E; [done|]. f_equal. apply IH. destruct H as [|[H1 H2]]; [done|].
    destruct (path_dir_stops d E) as [|]; [by left|right; lia].
Qed.

Lemma dirs_above_step p : dirs_above p = if stops (path_dir p) then [] else path_dir p :: dirs_above (path_dir p).
Proof.
  unfold dirs_above at 1. cbn [dirs_from]. fold (stops (path_dir p)). destruct (stops (path_dir p)) eqn:E; [done|]. f_equal.
  apply dirs_from_fuel. destruct (path_dir_stops (path_dir p) E) as [|H]; [by left|right].
  destruct (path_dir_shorter p) as [Hp|[Hp|Hp]]; [by rewrite Hp in E|by rewrite Hp in E|]. lia.
Qed.

(** Induction over the directories above a path. *)
Lemma dirs_ind (P : string → Prop) : (∀ p, (stops (path_dir p) = false → P (path_dir p)) → P p) → ∀ p, P p.
Proof.
  intros H p. remember (String.length p) as n eqn:Hn. revert p Hn. induction (lt_wf n) as [n _ IH]. intros p ->. apply H.
  intros E. destruct (path_dir_shorter p) as [Hp|[Hp|Hp]]; [by rewrite Hp in E|by rewrite Hp in E|]. by eapply IH.
Qed.

Lemma dirs_above_shorter p d : d ∈ dirs_above p → (String.length d < String.length p)%nat.
Proof.
  revert p d. refine (dirs_ind _ _). intros p IH d. rewrite dirs_above_step. destruct (stops (path_dir p)) eqn:E; [by intros ?%elem_of_nil|].
  assert (Hlt : (String.length (path_dir p) < String.length p)%nat).
  { destruct (path_dir_shorter p) as [Hp|[Hp|Hp]]; [by rewrite Hp in E|by rewrite Hp in E|done]. }
  intros [->|Hd]%elem_of_cons; [done|]. specialize (IH eq_refl d Hd). lia.
Qed.

Lemma dirs_above_trans p d e : d ∈ dirs_above p → e ∈ dirs_above d → e ∈ dirs_above p.
Proof.
  revert p d. refine (dirs_ind _ _). intros p IH d. rewrite dirs_above_step. destruct (stops (path_dir p)) eqn:E; [by intros ?%elem_of_nil|].
  intros [->|Hd]%elem_of_cons He; [by right|right]. by apply (IH eq_refl d).
Qed.

Lemma under_trans q p r : under_path q p → under_path p r → under_path q r.
Proof. intros [->|H1] [->|H2]; [by left|by right|by right|right]. by eapply dirs_above_trans. Qed.

Lemma insideAny_spec p set : insideAny p set = true ↔ ∃ d, d ∈ dirs_above p ∧ d ∈ set.
Proof. unfold insideAny. rewrite existsb_elem. by setoid_rewrite mem_spec. Qed.

Lemma canonicalPaths_elem ps p : p ∈ canonicalPaths ps ↔ p ∈ ps ∧ ∀ d, d ∈ dirs_above p → d ∉ ps.
Proof.
  unfold canonicalPaths. rewrite isort_elem, filter_bool_elem, elem_of_remove_dups. apply and_iff_compat_l.
  rewrite negb_true_iff, <-not_true_iff_false, insideAny_spec. naive_solver.
Qed.

(** Every path of the list lies under one that no other contains. *)
Lemma canonicalPaths_cover ps p : p ∈ ps → ∃ c, c ∈ canonicalPaths ps ∧ under_path p c.
Proof.
  remember (String.length p) as n eqn:Hn. revert p Hn. induction (lt_wf n) as [n _ IH]. intros p -> Hp.
  destruct (insideAny p ps) eqn:E.
  - apply insideAny_spec in E as (d & Hd & Hin). destruct (IH _ (dirs_above_shorter p d Hd) d eq_refl Hin) as (c & Hc & Hu).
    exists c. split; [done|]. eapply under_trans; [by right|done].
  - exists p. split; [|by left]. apply canonicalPaths_elem. split; [done|]. intros d Hd Hin.
    assert (insideAny p ps = true) by (apply insideAny_spec; by exists d). congruence.
Qed.

Lemma covers_canonical ps q : covers_path (canonicalPaths ps) q ↔ covers_path ps q.
Proof.
  split; intros (p & Hp & Hq).
  - apply canonicalPaths_elem in Hp as [Hp _]. by exists p.
  - destruct (canonicalPaths_cover ps p Hp) as (c & Hc & Hu). exists c. split; [done|]. by eapply under_trans.
Qed.

Definition str_lt (s t : string) : Prop := str_le s t ∧ s ≠ t.

#[export] Instance str_cmp_ordering : Ordering str_cmp.
Proof. split; [intros a b; apply bytes_cmp_total|intros a b c; apply bytes_cmp_trans]. Qed.

Lemma canonicalPaths_sorted ps : StronglySorted str_lt (canonicalPaths ps).
Proof.
  assert (Hs : StronglySorted str_le (canonicalPaths ps)) by (apply isort_sorted; exact _).
  assert (Hnd : NoDup (canonicalPaths ps)).
  { unfold canonicalPaths. rewrite isort_perm. apply NoDup_ListNoDup, List.NoDup_filter, NoDup_ListNoDup, NoDup_remove_dups. }
  induction Hs as [|a l Hs IH Ha]; [constructor|]. apply NoDup_cons in Hnd as [Hnin Hnd]. constructor; [by apply IH|].
  rewrite Forall_forall in *. intros x Hx. split; [by apply Ha|]. by intros ->.
Qed.

Lemma canonicalPaths_ext ps ps' : (∀ p, p ∈ canonicalPaths ps ↔ p ∈ canonicalPaths ps') → canonicalPaths ps = canonicalPaths ps'.
Proof.
  apply (sorted_unique str_lt); [by intros a [_ ?]| |apply canonicalPaths_sorted|apply canonicalPaths_sorted].
  intros a b [H1 Hne] [H2 _]. by apply Hne, str_le_antisym.
Qed.

Lemma canonicalPaths_idem ps : canonicalPaths (canonicalPaths ps) = canonicalPaths ps.
Proof.
  apply canonicalPaths_ext. intros p. rewrite (canonicalPaths_elem (canonicalPaths ps)). split; [by intros [? _]|].
  intros Hp. split; [done|]. intros d Hd Hin. apply canonicalPaths_elem in Hp as [_ Hp], Hin as [Hin _]. by apply (Hp d).
Qed.

Lemma canonicalPaths_nil ps : canonicalPaths ps = [] ↔ ps = [].
Proof.
  split; [|by intros ->]. intros H. destruct ps as [|p ps]; [done|]. exfalso.
  destruct (canonicalPaths_cover (p :: ps) p ltac:(by left)) as (c & Hc & _). rewrite H in Hc. by apply elem_of_nil in Hc.
Qed.

Lemma normalizeParams_idem p : normalizeParams (normalizeParams p) = normalizeParams p.
Proof. unfold normalizeParams. cbn [jp_DestinationID jp_SourceIDs jp_IntegrationID jp_AllowChanges jp_Paths jp_ArrItemIDs jp_SyncAfter jp_ReleaseDemoted
  jp_ReleaseOf jp_ReleaseRevision jp_Prune jp_ReadData]. by rewrite !sortedIDs_idem, canonicalPaths_idem. Qed.

(** ** Equal canonical forms are equal work *)
Lemma canonicalPaths_antichain ps p q : p ∈ canonicalPaths ps → q ∈ canonicalPaths ps → under_path p q → p = q.
Proof.
  intros [_ Hp]%canonicalPaths_elem [Hq _]%canonicalPaths_elem [->|Hd]; [done|]. by destruct (Hp q Hd).
Qed.

Lemma under_antisym p q : under_path p q → under_path q p → p = q.
Proof.
  intros [H1|H1] [H2|H2]; try congruence. apply dirs_above_shorter in H1, H2. lia.
Qed.

Lemma canonicalPaths_exact ps ps' : canonicalPaths ps = canonicalPaths ps' ↔ ∀ q, covers_path ps q ↔ covers_path ps' q.
Proof.
  split; [intros H q; by rewrite <-(covers_canonical ps), H, covers_canonical|]. intros H.
  assert (Hsub : ∀ ps ps', (∀ q, covers_path ps q ↔ covers_path ps' q) → ∀ c, c ∈ canonicalPaths ps → c ∈ canonicalPaths ps').
  { clear. intros ps ps' H c Hc.
    assert (H1 : covers_path (canonicalPaths ps') c) by (apply covers_canonical, H, covers_canonical; exists c; split; [done|by left]).
    destruct H1 as (d & Hd & Hcd).
    assert (H2 : covers_path (canonicalPaths ps) d) by (apply covers_canonical, H, covers_canonical; exists d; split; [done|by left]).
    destruct H2 as (e & He & Hde). assert (c = e) as <- by (eapply canonicalPaths_antichain; [done..|by eapply under_trans]).
    by rewrite (under_antisym c d). }
  apply canonicalPaths_ext. intros p. split; apply Hsub; [done|]. intros q. symmetry. apply H.
Qed.

Lemma sortedIDs_exact ids ids' : sortedIDs ids = sortedIDs ids' ↔ ∀ x, x ∈ ids ↔ x ∈ ids'.
Proof. split; [intros H x; by rewrite <-(sortedIDs_elem ids), H, sortedIDs_elem|apply sortedIDs_ext]. Qed.

(** The parameters without their lists. *)
Definition scalars (p : Params) : Params :=
  mkParams (jp_DestinationID p) [] (jp_IntegrationID p) (jp_AllowChanges p) [] [] (jp_SyncAfter p) (jp_ReleaseDemoted p)
    (jp_ReleaseOf p) (jp_ReleaseRevision p) (jp_Prune p) (jp_ReadData p).
Definition same_work (p q : Params) : Prop :=
  scalars p = scalars q ∧ (∀ x, x ∈ jp_SourceIDs p ↔ x ∈ jp_SourceIDs q) ∧ (∀ x, x ∈ jp_ArrItemIDs p ↔ x ∈ jp_ArrItemIDs q) ∧
  ∀ f, covers_path (jp_Paths p) f ↔ covers_path (jp_Paths q) f.

Lemma nonempty_nil {A B} (l : list A) (k : list B) : (l = [] ↔ k = []) → nonempty l = nonempty k.
Proof. destruct l, k; naive_solver. Qed.

Lemma Targeted_normalize p : Targeted (normalizeParams p) = Targeted p.
Proof.
  unfold Targeted, normalizeParams. cbn [jp_Paths jp_ArrItemIDs].
  by rewrite (nonempty_nil _ _ (canonicalPaths_nil _)), (nonempty_nil _ _ (sortedIDs_nil _)).
Qed.

Lemma forallb_ext_elem {A} (f : A → bool) l k : (∀ x, x ∈ l ↔ x ∈ k) → forallb f l = forallb f k.
Proof. intros H. apply eq_true_iff_eq. rewrite !forallb_elem. by setoid_rewrite H. Qed.

Lemma validate_normalize t p dry : validateParams t p dry = Ok tt → validateParams t (normalizeParams p) dry = Ok tt.
Proof.
  unfold validateParams, validateSyncTargets, normalizeParams.
  cbn [jp_DestinationID jp_SourceIDs jp_IntegrationID jp_AllowChanges jp_Paths jp_ArrItemIDs jp_SyncAfter jp_ReleaseDemoted
    jp_ReleaseOf jp_ReleaseRevision jp_Prune jp_ReadData].
  rewrite !(nonempty_nil _ _ (canonicalPaths_nil _)), !(nonempty_nil _ _ (sortedIDs_nil _)), !sortedIDs_idem, canonicalPaths_idem.
  rewrite !(forallb_ext_elem _ (sortedIDs _) _ (sortedIDs_elem _)).
  assert (Hfind : List.find (λ tp, negb (ValidTargetPath tp)) (jp_Paths p) = None →
    List.find (λ tp, negb (ValidTargetPath tp)) (canonicalPaths (jp_Paths p)) = None).
  { intros H. destruct (List.find _ (canonicalPaths _)) as [q|] eqn:E; [|done]. exfalso.
    apply find_some in E as [Hin Hv]. apply list_elem_of_In, canonicalPaths_elem in Hin as [Hin _]. apply list_elem_of_In in Hin.
    pose proof (find_none _ _ H q Hin). cbn beta in *. congruence. }
  destruct (List.find _ (jp_Paths p)); [|by rewrite Hfind]. destruct (nonempty (jp_Paths p)); [|done].
  intros H. exfalso. revert H. destruct (bool_decide (t = TypeSync)) eqn:Et.
  - apply bool_decide_eq_true in Et as ->. repeat match goal with |- context [if ?b then _ else _] => destruct b end; done.
  - cbn [negb andb orb]. repeat match goal with |- context [if ?b then _ else _] => destruct b end; done.
Qed.

Lemma LockKeys_normalize t p : LockKeys t (normalizeParams p) = LockKeys t p.
Proof. unfold LockKeys, normalizeParams. cbn [jp_DestinationID jp_SourceIDs jp_IntegrationID]. by rewrite sortedIDs_idem. Qed.

(** C40: two requests have the same stored parameters exactly when they ask for the
    same work: equal options, the same sources and items, and paths that cover the
    same files. Canonical parameters are canonical, stay valid, hold the same lock
    keys and are targeted exactly when the given ones are. *)
Theorem canonical_params_exact (p q : Params) :
  (normalizeParams p = normalizeParams q ↔ same_work p q) ∧
  normalizeParams (normalizeParams p) = normalizeParams p ∧
  (∀ t dry, validateParams t p dry = Ok tt → validateParams t (normalizeParams p) dry = Ok tt) ∧
  (∀ t, LockKeys t (normalizeParams p) = LockKeys t p) ∧
  Targeted (normalizeParams p) = Targeted p.
Proof.
  split_and!; [|apply normalizeParams_idem|intros; by apply validate_normalize|intros; apply LockKeys_normalize|apply Targeted_normalize].
  unfold same_work. rewrite <-canonicalPaths_exact, <-!sortedIDs_exact. unfold normalizeParams, scalars. split.
  - by intros [= -> -> -> -> -> -> -> -> -> -> -> ->].
  - intros ([= -> -> -> -> -> -> -> -> ->] & -> & -> & ->). done.
Qed.

Example canonical_sample :
  canonicalPaths ["Show/Season 1"; "Heat (1995)"; "Show"; "Heat (1995)"; "Showcase"] = ["Heat (1995)"; "Show"; "Showcase"].
Proof. vm_compute. reflexivity. Qed.
