(* ===== verification/JobQueue.v ===== *)
(** * JobQueue: the jobs table ([internal/jobqueue/store.go], [coalesce.go], [defer.go])

    The table is the list of its rows in the order of their ids. Every operation of
    the store is one transaction, modelled as a function of the table. What only the
    UI shows of a job (progress, stats, warnings, summary, logs, heartbeat) is left
    out, and so are errors of the database itself. *)
From stdpp Require Import base gmap list strings.
From S2P Require Import Prelude GoStrings JobParams.
Open Scope Z_scope.

Inductive job_error := CrashedTimes (n : Z) | ErrorText (s : string).

Record Job := mkJob {
  jb_ID : Z;
  jb_Type : job_type;
  jb_Status : job_status;
  jb_Trigger : job_trigger;
  jb_DryRun : bool;
  jb_Params : Params;
  jb_Attempt : Z;
  jb_PlannedAt : option time;
  jb_QueuedAt : time;
  jb_StartedAt : option time;
  jb_FinishedAt : option time;
  jb_NotBefore : option time;
  jb_Deferrals : Z;
  jb_SupersededBy : option Z;
  jb_Error : option job_error;
}.
#[export] Instance job_error_eq_dec : EqDecision job_error.
Proof. solve_decision. Defined.
#[export] Instance Job_eq_dec : EqDecision Job.
Proof. solve_decision. Defined.

Abbreviation table := (list Job).

(** Updates of a row. *)
Definition with_params (p : Params) (j : Job) : Job :=
  mkJob (jb_ID j) (jb_Type j) (jb_Status j) (jb_Trigger j) (jb_DryRun j) p (jb_Attempt j) (jb_PlannedAt j) (jb_QueuedAt j)
    (jb_StartedAt j) (jb_FinishedAt j) (jb_NotBefore j) (jb_Deferrals j) (jb_SupersededBy j) (jb_Error j).
Definition with_superseded (by_ : option Z) (j : Job) : Job :=
  mkJob (jb_ID j) (jb_Type j) (jb_Status j) (jb_Trigger j) (jb_DryRun j) (jb_Params j) (jb_Attempt j) (jb_PlannedAt j) (jb_QueuedAt j)
    (jb_StartedAt j) (jb_FinishedAt j) (jb_NotBefore j) (jb_Deferrals j) by_ (jb_Error j).
(** A change of status, with the trigger, attempt, times and deferrals it sets. *)
Definition with_state (st : job_status) (trig : job_trigger) (attempt : Z) (started finished nb : option time) (def : Z)
    (err : option job_error) (j : Job) : Job :=
  mkJob (jb_ID j) (jb_Type j) st trig (jb_DryRun j) (jb_Params j) attempt (jb_PlannedAt j) (jb_QueuedAt j)
    started finished nb def (jb_SupersededBy j) err.

Definition queued (j : Job) : bool := bool_decide (jb_Status j = StatusQueued).
Definition running (j : Job) : bool := bool_decide (jb_Status j = StatusRunning).
(** [deferredCond] *)
Definition deferred (j : Job) : bool := (0 <? jb_Deferrals j) || negb (bool_decide (jb_NotBefore j = None)).

(** [UPDATE jobs SET ... WHERE id = ? AND cond]: the new table and whether a row matched. *)
Definition update_where (id : Z) (cond : Job → bool) (f : Job → Job) (db : table) : table :=
  (λ j, if (jb_ID j =? id) && cond j then f j else j) <$> db.
Definition matching (id : Z) (cond : Job → bool) (db : table) : option Job :=
  List.find (λ j, (jb_ID j =? id) && cond j) db.

(** [ORDER BY queued_at, id] *)
Definition queue_cmp (a b : Job) : Z := then_cmp (zcmp (jb_QueuedAt a) (jb_QueuedAt b)) (zcmp (jb_ID a) (jb_ID b)).

(** The columns [destination_id] and [integration_id] are NULL when the parameter is 0. *)
Definition col_is (v arg : Z) : bool := negb (v =? 0) && (v =? arg).

(** ** [coalesce] *)
Inductive enqueueOutcome := outcomeCreated | outcomeExisting | outcomeCovered | outcomeMerged | outcomeOverflow.

Definition withoutTargets (p : Params) : Params :=
  mkParams (jp_DestinationID p) (jp_SourceIDs p) (jp_IntegrationID p) (jp_AllowChanges p) [] [] (jp_SyncAfter p) (jp_ReleaseDemoted p)
    (jp_ReleaseOf p) (jp_ReleaseRevision p) (jp_Prune p) (jp_ReadData p).
Definition with_targets (paths : list string) (items : list Z) (p : Params) : Params :=
  mkParams (jp_DestinationID p) (jp_SourceIDs p) (jp_IntegrationID p) (jp_AllowChanges p) paths items (jp_SyncAfter p) (jp_ReleaseDemoted p)
    (jp_ReleaseOf p) (jp_ReleaseRevision p) (jp_Prune p) (jp_ReadData p).

Definition coversSpec (q : Params) (t : job_type) (p : Params) : bool :=
  if Targeted q || (jp_AllowChanges p && negb (jp_AllowChanges q)) then false
  else match t with
  | TypeSync =>
      negb (nonempty (jp_SourceIDs q)) ||
      match jp_SourceIDs p with [id] => mem id (jp_SourceIDs q) | _ => false end
  | TypeRefresh => negb (jp_SyncAfter p) || jp_SyncAfter q
  | _ => false
  end.

Definition mergeInto (db : table) (q : Job) (t : job_type) (s : Params) : table * Job * enqueueOutcome :=
  let '(p, outcome) :=
    match t with
    | TypeSync =>
        let paths := canonicalPaths (jp_Paths (jb_Params q) ++ jp_Paths s)%list in
        if MaxTargetPaths <? Z.of_nat (length paths) then (with_targets [] (jp_ArrItemIDs (jb_Params q)) (jb_Params q), outcomeOverflow)
        else (with_targets paths (jp_ArrItemIDs (jb_Params q)) (jb_Params q), outcomeMerged)
    | TypeRefresh =>
        let items := sortedIDs (jp_ArrItemIDs (jb_Params q) ++ jp_ArrItemIDs s)%list in
        if MaxTargetItems <? Z.of_nat (length items) then (with_targets (jp_Paths (jb_Params q)) [] (jb_Params q), outcomeOverflow)
        else (with_targets (jp_Paths (jb_Params q)) items (jb_Params q), outcomeMerged)
    | _ => (jb_Params q, outcomeMerged)
    end in
  if bool_decide (normalizeParams p = normalizeParams (jb_Params q)) then (db, q, outcomeCovered)
  else (update_where (jb_ID q) queued (with_params (normalizeParams p)) db, with_params (normalizeParams p) q, outcome).

(** The queued jobs a spec may be coalesced with: no dry runs, never started, not deferred. *)
Definition candidates (db : table) (t : job_type) (p : Params) : list Job :=
  let cond j :=
    match t with
    | TypeSync => col_is (jp_DestinationID (jb_Params j)) (jp_DestinationID p)
    | TypeRefresh => col_is (jp_IntegrationID (jb_Params j)) (jp_IntegrationID p)
    | _ => false
    end in
  isort queue_cmp (List.filter (λ j, queued j && bool_decide (jb_StartedAt j = None) && negb (jb_DryRun j) && negb (deferred j)
    && bool_decide (jb_Type j = t) && cond j) db).

Definition coalesce (db : table) (t : job_type) (p : Params) : table * option Job * enqueueOutcome :=
  match List.find (λ c, coversSpec (jb_Params c) t p) (candidates db t p) with
  | Some c => (db, Some c, outcomeCovered)
  | None =>
      let rest := normalizeParams (withoutTargets p) in
      match List.find (λ c, Targeted (jb_Params c) && bool_decide (normalizeParams (withoutTargets (jb_Params c)) = rest)) (candidates db t p) with
      | Some c => let '(db, j, out) := mergeInto db c t p in (db, Some j, out)
      | None => (db, None, outcomeCreated)
      end
  end.

(** ** [createJob]: the spec is normalised and then enqueued in one transaction *)
Definition next_id (db : table) : Z := foldr (λ j m, Z.max (jb_ID j) m) 0 db + 1.
Definition insert_job (db : table) (s : Spec) (now : time) : table * Job :=
  let j := mkJob (next_id db) (sp_Type s) StatusQueued (default TriggerManual (sp_Trigger s)) (sp_DryRun s) (sp_Params s) 1 None now
             None None None 0 None None in
  ((db ++ [j])%list, j).

Definition identical (s : Spec) (j : Job) : bool :=
  queued j && bool_decide (jb_Type j = sp_Type s) && bool_decide (jb_Params j = sp_Params s) && Bool.eqb (jb_DryRun j) (sp_DryRun s)
  && (negb (negb (sp_DryRun s) && resumesStoredPlan (sp_Type s)) || bool_decide (jb_PlannedAt j = None))
  && (jb_Deferrals j =? 0) && bool_decide (jb_NotBefore j = None).

Definition enqueue (db : table) (s : Spec) (now : time) : table * Job * enqueueOutcome :=
  match List.find (identical s) db with
  | Some j => (db, j, outcomeExisting)
  | None =>
      let created := let '(db, j) := insert_job db s now in (db, j, outcomeCreated) in
      if negb (sp_DryRun s) && Targeted (sp_Params s) then
        match coalesce db (sp_Type s) (sp_Params s) with
        | (db', Some j, out) => (db', j, out)
        | (_, None, _) => created
        end
      else created
  end.

Definition createJob (db : table) (spec : Spec) (now : time) : result param_error (table * Job * enqueueOutcome) :=
  let? s := normalizeSpec spec in Ok (enqueue db s now).

(** ** State transitions *)

(** [queuedJobs] *)
Definition queuedJobs (db : table) (limit : nat) : list Job := take limit (isort queue_cmp (List.filter queued db)).

(** The first start sets [started_at]. *)
Definition start_job (now : time) (j : Job) : Job :=
  with_state StatusRunning (jb_Trigger j) (jb_Attempt j) (Some (default now (jb_StartedAt j))) (jb_FinishedAt j) None (jb_Deferrals j) (jb_Error j) j.
Definition markRunning (db : table) (id : Z) (now : time) : table * option Job :=
  (update_where id queued (start_job now) db, start_job now <$> matching id queued db).

Definition end_job (st : job_status) (err : option job_error) (now : time) (j : Job) : Job :=
  with_state st (jb_Trigger j) (jb_Attempt j) (jb_StartedAt j) (Some now) (jb_NotBefore j) (jb_Deferrals j) err j.
Definition finishJob (db : table) (id : Z) (st : job_status) (err : option job_error) (now : time) : table * bool :=
  (update_where id running (end_job st err now) db, negb (bool_decide (matching id running db = None))).

Definition resume_job (j : Job) : Job :=
  with_state StatusQueued TriggerResume (jb_Attempt j) (jb_StartedAt j) (jb_FinishedAt j) (jb_NotBefore j) (jb_Deferrals j) (jb_Error j) j.
Definition requeue (db : table) (id : Z) : table := update_where id running resume_job db.

Definition drop_job (st : job_status) (err : option job_error) (now : time) (j : Job) : Job :=
  with_state st (jb_Trigger j) (jb_Attempt j) (jb_StartedAt j) (Some now) None (jb_Deferrals j) err j.
Definition finishQueued (db : table) (id : Z) (st : job_status) (err : option job_error) (now : time) : table * bool :=
  (update_where id queued (drop_job st err now) db, negb (bool_decide (matching id queued db = None))).
Definition cancelQueued (db : table) (id : Z) (now : time) : table * bool := finishQueued db id StatusCancelled None now.

(** [recoverCrashed] *)
Definition recover_job (maxAttempts : Z) (now : time) (j : Job) : Job :=
  if negb (running j) then j
  else if maxAttempts <? jb_Attempt j + 1 then end_job StatusFailed (Some (CrashedTimes (jb_Attempt j))) now j
  else with_state StatusQueued TriggerResume (jb_Attempt j + 1) (jb_StartedAt j) (jb_FinishedAt j) (jb_NotBefore j) (jb_Deferrals j) (jb_Error j) j.
Definition recoverCrashed (db : table) (maxAttempts : Z) (now : time) : table * (list Z * list Z) :=
  (recover_job maxAttempts now <$> db,
   (jb_ID <$> List.filter (λ j, running j && negb (maxAttempts <? jb_Attempt j + 1)) db,
    jb_ID <$> List.filter (λ j, running j && (maxAttempts <? jb_Attempt j + 1)) db)).

(** [deferJob]: the count goes on from the deferred syncs this job superseded. *)
Definition superseded_deferrals (db : table) (id : Z) : Z :=
  foldr (λ p m, if bool_decide (jb_SupersededBy p = Some id) then Z.max (jb_Deferrals p) m else m) 0 db.
Definition deferJob (db : table) (id : Z) (until : time) : table * bool :=
  (update_where id running (λ j, with_state StatusQueued (jb_Trigger j) (jb_Attempt j) (jb_StartedAt j) (jb_FinishedAt j) (Some until)
     (Z.max (jb_Deferrals j + 1) (superseded_deferrals db id)) (jb_Error j) j) db,
   negb (bool_decide (matching id running db = None))).

(** [supersedeDeferredSyncs] *)
Definition supersede_one (keep : Z) (now : time) (db : table) (j : Job) : table :=
  let db := update_where (jb_ID j) queued (λ r, with_superseded (Some keep) (drop_job StatusCancelled (jb_Error r) now r)) db in
  (λ r, if bool_decide (jb_SupersededBy r = Some (jb_ID j)) then with_superseded (Some keep) r else r) <$> db.
Definition supersedable (p : Params) (keep : Z) (j : Job) : bool :=
  queued j && negb (jb_DryRun j) && bool_decide (jb_Type j = TypeSync) && col_is (jp_DestinationID (jb_Params j)) (jp_DestinationID p)
  && negb (jb_ID j =? keep) && deferred j
  && coversSources (jp_SourceIDs p) (sortedIDs (jp_SourceIDs (jb_Params j)))
  && negb (jp_AllowChanges (jb_Params j) && negb (jp_AllowChanges p)) && negb (jp_ReleaseDemoted (jb_Params j)).
Definition supersedeDeferredSyncs (db : table) (p : Params) (keep : Z) (now : time) : table :=
  foldl (supersede_one keep now) db (List.filter (supersedable p keep) db).

(** What [AddItems] (of the last page of a plan) and [DeleteItems] do to the row. *)
Definition with_planned (at_ : option time) (j : Job) : Job :=
  mkJob (jb_ID j) (jb_Type j) (jb_Status j) (jb_Trigger j) (jb_DryRun j) (jb_Params j) (jb_Attempt j) at_ (jb_QueuedAt j)
    (jb_StartedAt j) (jb_FinishedAt j) (jb_NotBefore j) (jb_Deferrals j) (jb_SupersededBy j) (jb_Error j).
Definition set_planned (db : table) (id : Z) (at_ : option time) : table := update_where id (λ _, true) (with_planned at_) db.

(** ** Questions about the table *)
Definition hasRunningCovering (db : table) (t : job_type) (p : Params) : bool :=
  existsb (λ j, running j && negb (jb_DryRun j) && bool_decide (jb_Type j = t)
    && col_is (jp_DestinationID (jb_Params j)) (jp_DestinationID p) && negb (nonempty (jp_Paths (jb_Params j)))
    && coversSources (jp_SourceIDs (jb_Params j)) (sortedIDs (jp_SourceIDs p))) db.
Definition hasRunning (db : table) (t : job_type) (p : Params) : bool :=
  if (bool_decide (t = TypeSync) || bool_decide (t = TypeVerify)) && negb (jp_DestinationID p =? 0) then hasRunningCovering db t p
  else existsb (λ j, running j && negb (jb_DryRun j) && bool_decide (jb_Type j = t)
    && bool_decide (jb_Params j = normalizeParams p)) db.
Definition hasDeferred (db : table) (t : job_type) (destinationID : Z) : bool :=
  existsb (λ j, queued j && negb (jb_DryRun j) && bool_decide (jb_Type j = t)
    && col_is (jp_DestinationID (jb_Params j)) destinationID && deferred j) db.
Definition ActiveForSource (db : table) (id : Z) : bool :=
  existsb (λ j, (queued j || running j) && mem id (jp_SourceIDs (jb_Params j))) db.
Definition ActiveForIntegration (db : table) (id : Z) : bool :=
  existsb (λ j, (queued j || running j) && col_is (jp_IntegrationID (jb_Params j)) id) db.
Definition ActiveForDestination (db : table) (id : Z) : bool :=
  existsb (λ j, (queued j || running j) && col_is (jp_DestinationID (jb_Params j)) id) db.
Definition activeTypes : list job_type := [TypeSync; TypeVerify; TypeRetention; TypePlexDBBackup; TypeArrBackup; TypeManifestExport].
Definition ActiveForDestinationAnyType (db : table) (destinationID : Z) : bool :=
  existsb (λ j, col_is (jp_DestinationID (jb_Params j)) destinationID && mem (jb_Type j) activeTypes
    && (running j || (queued j && deferred j))) db.

(** [PruneHistory]: the jobs it deletes (in batches, with their items and logs). *)
Definition prunable (cutoff : time) (j : Job) : bool :=
  negb (queued j) && negb (running j) && match jb_FinishedAt j with Some t => t <? cutoff | None => false end.
Definition PruneHistory (db : table) (cutoff : time) : table := List.filter (λ j, negb (prunable cutoff j)) db.

(** ** Well-formed tables *)
Record row_ok (j : Job) : Prop := {
  ro_id : 0 < jb_ID j;
  ro_attempt : 1 ≤ jb_Attempt j;
  ro_deferrals : 0 ≤ jb_Deferrals j;
  ro_canonical : normalizeParams (jb_Params j) = jb_Params j;
  ro_targets : (jb_Type j ≠ TypeSync → jp_Paths (jb_Params j) = []) ∧ (jb_Type j ≠ TypeRefresh → jp_ArrItemIDs (jb_Params j) = []);
  ro_planned : jb_PlannedAt j ≠ None → jb_StartedAt j ≠ None;
  ro_waiting : jb_NotBefore j ≠ None → jb_Status j = StatusQueued ∧ jb_StartedAt j ≠ None ∧ 0 < jb_Deferrals j;
  ro_running : jb_Status j = StatusRunning → jb_StartedAt j ≠ None;
  ro_finished : jb_FinishedAt j ≠ None ↔ Final (jb_Status j) = true;
}.
Definition before (a b : Job) : Prop := jb_ID a < jb_ID b.
Record table_ok (db : table) : Prop := {
  to_ids : StronglySorted before db;
  to_rows : ∀ j, j ∈ db → row_ok j;
}.

Lemma table_ok_unique db i j : table_ok db → i ∈ db → j ∈ db → jb_ID i = jb_ID j → i = j.
Proof.
  intros [Hs _]. induction Hs as [|a l Hs IH Ha]; [by intros ?%elem_of_nil|]. rewrite Forall_forall in Ha. unfold before in Ha.
  intros [->|Hi]%elem_of_cons [->|Hj]%elem_of_cons E; [done| | |by apply IH].
  - specialize (Ha j Hj). lia.
  - specialize (Ha i Hi). lia.
Qed.

Lemma sorted_fmap (f : Job → Job) db : (∀ j, jb_ID (f j) = jb_ID j) → StronglySorted before db → StronglySorted before (f <$> db).
Proof.
  intros Hf. induction 1 as [|a l Hs IH Ha]; [constructor|]. rewrite fmap_cons. constructor; [done|].
  rewrite Forall_forall in *. intros x (b & -> & Hb)%list_elem_of_fmap. unfold before. rewrite !Hf. by apply Ha.
Qed.

(** A transformation of the rows that keeps ids and well-formed rows. *)
Lemma table_ok_fmap (f : Job → Job) db : table_ok db → (∀ j, jb_ID (f j) = jb_ID j) → (∀ j, j ∈ db → row_ok j → row_ok (f j)) → table_ok (f <$> db).
Proof.
  intros [Hs Hr] Hid Hok. split; [by apply sorted_fmap|]. intros x (j & -> & Hj)%list_elem_of_fmap. apply Hok; auto.
Qed.

Lemma table_ok_update id cond f db : table_ok db → (∀ j, jb_ID (f j) = jb_ID j) →
  (∀ j, j ∈ db → jb_ID j = id → cond j = true → row_ok j → row_ok (f j)) → table_ok (update_where id cond f db).
Proof.
  intros Hok Hid Hf. apply table_ok_fmap; [done|intros j; by destruct (_ && _)|].
  intros j Hj Hr. destruct (_ && _) eqn:E; [|done]. apply andb_true_iff in E as [Hid'%Z.eqb_eq E]. by apply Hf.
Qed.

Lemma table_ok_filter p db : table_ok db → table_ok (List.filter p db).
Proof.
  intros [Hs Hr]. split.
  - induction Hs as [|a l Hs IH Ha]; simpl; [constructor|]. assert (IH' := IH ltac:(intros; apply Hr; by right)).
    destruct (p a); [|done]. constructor; [done|]. rewrite Forall_forall in *. intros x [Hx _]%filter_bool_elem. by apply Ha.
  - intros j [Hj _]%filter_bool_elem. by apply Hr.
Qed.

Lemma next_id_above db j : j ∈ db → jb_ID j < next_id db.
Proof.
  unfold next_id. induction db as [|a db IH]; [by intros ?%elem_of_nil|]. simpl. intros [->|Hj]%elem_of_cons; [lia|].
  specialize (IH Hj). lia.
Qed.
Lemma next_id_pos db : 0 < next_id db.
Proof. unfold next_id. induction db; simpl; lia. Qed.

Lemma table_ok_insert db j : table_ok db → jb_ID j = next_id db → row_ok j → table_ok (db ++ [j]).
Proof.
  intros [Hs Hr] Hid Hj. split.
  - assert (Hall : ∀ i, i ∈ db → before i j) by (intros i Hi; unfold before; rewrite Hid; by apply next_id_above).
    clear Hr Hid Hj. induction Hs as [|a l Hs IH Ha]; simpl; [by repeat constructor|]. constructor; [apply IH; intros; apply Hall; by right|].
    apply Forall_app. split; [done|]. constructor; [apply Hall; by left|done].
  - intros i [Hi|Hi%list_elem_of_singleton]%elem_of_app; [by apply Hr|by subst i].
Qed.

(** [UPDATE ... RETURNING] changes exactly the row it returns. *)
Lemma matching_spec id cond db j : table_ok db → matching id cond db = Some j ↔ j ∈ db ∧ jb_ID j = id ∧ cond j = true.
Proof.
  intros Hok. unfold matching. split.
  - intros [Hin H]%find_some. apply list_elem_of_In in Hin. apply andb_true_iff in H as [H%Z.eqb_eq Hc]. done.
  - intros (Hj & <- & Hc). destruct (List.find _ db) as [i|] eqn:E.
    + apply find_some in E as [Hin H]. apply list_elem_of_In in Hin. apply andb_true_iff in H as [H%Z.eqb_eq _].
      f_equal. by eapply table_ok_unique.
    + apply list_elem_of_In in Hj. pose proof (find_none _ _ E j Hj) as H. cbn beta in H. rewrite Z.eqb_refl, Hc in H. done.
Qed.

Lemma update_where_elem id cond f db x : x ∈ update_where id cond f db ↔
  (∃ j, j ∈ db ∧ jb_ID j = id ∧ cond j = true ∧ x = f j) ∨ (x ∈ db ∧ ¬ (jb_ID x = id ∧ cond x = true)).
Proof.
  unfold update_where. rewrite list_elem_of_fmap. split.
  - intros (j & -> & Hj). destruct ((jb_ID j =? id) && cond j) eqn:E.
    + apply andb_true_iff in E as [E%Z.eqb_eq Hc]. left. by exists j.
    + right. split; [done|]. intros [Hi Hc]. rewrite Hi, Z.eqb_refl, Hc in E. done.
  - intros [(j & Hj & <- & Hc & ->)|[Hx Hn]].
    + exists j. by rewrite Z.eqb_refl, Hc.
    + exists x. split; [|done]. destruct ((jb_ID x =? id) && cond x) eqn:E; [|done].
      apply andb_true_iff in E as [E%Z.eqb_eq Hc]. by destruct Hn.
Qed.

(** ** What a job does *)

(** A job with parameters [q] does all that a request with parameters [p] asks for. *)
Definition does_work (t : job_type) (q p : Params) : Prop :=
  match t with
  | TypeSync =>
      jp_DestinationID q = jp_DestinationID p ∧
      (jp_SourceIDs q = [] ∨ (jp_SourceIDs p ≠ [] ∧ ∀ id, id ∈ jp_SourceIDs p → id ∈ jp_SourceIDs q)) ∧
      (jp_Paths q = [] ∨ (jp_Paths p ≠ [] ∧ ∀ f, covers_path (jp_Paths p) f → covers_path (jp_Paths q) f)) ∧
      (jp_AllowChanges p = true → jp_AllowChanges q = true) ∧
      (jp_ReleaseDemoted p = true → jp_ReleaseDemoted q = true ∧ jp_ReleaseOf q = jp_ReleaseOf p ∧ jp_ReleaseRevision q = jp_ReleaseRevision p)
  | TypeRefresh =>
      jp_IntegrationID q = jp_IntegrationID p ∧
      (jp_ArrItemIDs q = [] ∨ (jp_ArrItemIDs p ≠ [] ∧ ∀ id, id ∈ jp_ArrItemIDs p → id ∈ jp_ArrItemIDs q)) ∧
      (jp_SyncAfter p = true → jp_SyncAfter q = true) ∧ (jp_AllowChanges p = true → jp_AllowChanges q = true)
  | _ => q = p
  end.

Lemma does_work_refl t p : does_work t p p.
Proof.
  destruct t; simpl; try done.
  - split_and!; try done; [destruct (jp_SourceIDs p); [by left|by right]|destruct (jp_Paths p); [by left|by right]].
  - split_and!; try done. destruct (jp_ArrItemIDs p); [by left|by right].
Qed.

Lemma find_elem {A} (p : A → bool) l x : List.find p l = Some x → x ∈ l ∧ p x = true.
Proof. intros [H ?]%find_some. by rewrite list_elem_of_In. Qed.

Lemma candidates_elem db t p j : j ∈ candidates db t p → j ∈ db ∧ queued j = true ∧ jb_StartedAt j = None ∧ jb_DryRun j = false ∧
  deferred j = false ∧ jb_Type j = t ∧
  match t with TypeSync => jp_DestinationID (jb_Params j) = jp_DestinationID p | TypeRefresh => jp_IntegrationID (jb_Params j) = jp_IntegrationID p | _ => False end.
Proof.
  unfold candidates. rewrite isort_elem, filter_bool_elem, !andb_true_iff, !negb_true_iff, !bool_decide_eq_true.
  intros (Hj & ((((Hq & Hs) & Hd) & Hdef) & Ht) & Hc). split_and!; try done. destruct t; try done; unfold col_is in Hc; lia.
Qed.

(** A valid targeted sync is no release. *)
Lemma targeted_sync_valid p dry : validateParams TypeSync p dry = Ok tt → Targeted p = true → jp_ReleaseDemoted p = false.
Proof.
  unfold validateParams, validateSyncTargets. rewrite (bool_decide_eq_true_2 (TypeSync = TypeSync)) by done.
  rewrite (bool_decide_eq_false_2 (TypeSync = TypeRefresh)) by done. cbn [negb andb]. intros H Ht.
  repeat match type of H with (if ?b then _ else Err _) = Ok _ => destruct b eqn:?; [|discriminate H] end.
  assert (Hi : nonempty (jp_ArrItemIDs p) = false) by (by destruct (nonempty (jp_ArrItemIDs p))).
  unfold Targeted in Ht. rewrite Hi, orb_false_r in Ht. rewrite Ht in H. apply rbind_ok in H as ([] & H & _).
  repeat match type of H with (if ?b then _ else Err _) = Ok _ => destruct b eqn:?; [|discriminate H] end.
  destruct (List.find _ _); [done|].
  repeat match type of H with (if ?b then _ else Err _) = Ok _ => destruct b eqn:?; [|discriminate H] end.
  by apply negb_true_iff.
Qed.

(** An untargeted job that covers a valid targeted spec does its work. *)
Lemma coversSpec_work q t p : coversSpec q t p = true → Targeted p = true → validateParams t p false = Ok tt →
  match t with TypeSync => jp_DestinationID q = jp_DestinationID p | TypeRefresh => jp_IntegrationID q = jp_IntegrationID p | _ => False end →
  does_work t q p.
Proof.
  unfold coversSpec. destruct (Targeted q || _) eqn:E; [done|]. apply orb_false_iff in E as [Hq Ha].
  apply orb_false_iff in Hq as [Hqp Hqi]. assert (Hpaths : jp_Paths q = []) by (by destruct (jp_Paths q)).
  assert (Hitems : jp_ArrItemIDs q = []) by (by destruct (jp_ArrItemIDs q)).
  assert (Hallow : jp_AllowChanges p = true → jp_AllowChanges q = true) by (intros H; rewrite H in Ha; by destruct (jp_AllowChanges q)).
  destruct t; try done; simpl; intros Hc Ht Hv Hd.
  - split_and!; [done| |by left|done|].
    + apply orb_true_iff in Hc as [Hc|Hc]; [left; by destruct (jp_SourceIDs q)|right].
      destruct (jp_SourceIDs p) as [|id [|? ?]]; try done. split; [done|]. intros i Hi%list_elem_of_singleton. subst i. by apply mem_spec.
    + intros Hr. by rewrite (targeted_sync_valid p false) in Hr.
  - split_and!; [done|by left| |done]. intros Hs. rewrite Hs in Hc. apply orb_true_iff in Hc as [Hc|Hc]; [done|done].
Qed.

(** ** Merging *)
Definition merged_params (q : Params) (t : job_type) (s : Params) : Params * enqueueOutcome :=
  match t with
  | TypeSync =>
      let paths := canonicalPaths (jp_Paths q ++ jp_Paths s)%list in
      if MaxTargetPaths <? Z.of_nat (length paths) then (with_targets [] (jp_ArrItemIDs q) q, outcomeOverflow)
      else (with_targets paths (jp_ArrItemIDs q) q, outcomeMerged)
  | TypeRefresh =>
      let items := sortedIDs (jp_ArrItemIDs q ++ jp_ArrItemIDs s)%list in
      if MaxTargetItems <? Z.of_nat (length items) then (with_targets (jp_Paths q) [] q, outcomeOverflow)
      else (with_targets (jp_Paths q) items q, outcomeMerged)
  | _ => (q, outcomeMerged)
  end.

Lemma mergeInto_eq db q t s : mergeInto db q t s =
  let '(p, outcome) := merged_params (jb_Params q) t s in
  if bool_decide (normalizeParams p = normalizeParams (jb_Params q)) then (db, q, outcomeCovered)
  else (update_where (jb_ID q) queued (with_params (normalizeParams p)) db, with_params (normalizeParams p) q, outcome).
Proof. unfold mergeInto, merged_params. by destruct t. Qed.

(** The parameters other than the targets, of canonical parameters. *)
Lemma others_equal q s : normalizeParams q = q → normalizeParams s = s →
  normalizeParams (withoutTargets q) = normalizeParams (withoutTargets s) → withoutTargets q = withoutTargets s.
Proof.
  intros Hq Hs. assert (H : ∀ p, normalizeParams p = p → normalizeParams (withoutTargets p) = withoutTargets p).
  { intros p Hp. pose proof (f_equal jp_SourceIDs Hp) as Hsrc. unfold normalizeParams in Hsrc. cbn [jp_SourceIDs] in Hsrc.
    unfold normalizeParams, withoutTargets. cbn [jp_SourceIDs jp_Paths jp_ArrItemIDs]. by rewrite Hsrc. }
  by rewrite (H q Hq), (H s Hs).
Qed.

Lemma covers_app ps qs f : covers_path (ps ++ qs) f ↔ covers_path ps f ∨ covers_path qs f.
Proof. unfold covers_path. setoid_rewrite elem_of_app. naive_solver. Qed.

(** Reduces projections of parameters and nothing else. *)
Ltac params_simpl :=
  cbn [fst snd does_work jp_DestinationID jp_SourceIDs jp_IntegrationID jp_AllowChanges jp_Paths jp_ArrItemIDs jp_SyncAfter jp_ReleaseDemoted
    jp_ReleaseOf jp_ReleaseRevision jp_Prune jp_ReadData].

Lemma merged_work q t s : withoutTargets q = withoutTargets s → (t = TypeSync ∨ t = TypeRefresh) →
  (t = TypeSync → jp_Paths q ≠ [] ∧ jp_Paths s ≠ []) → (t = TypeRefresh → jp_ArrItemIDs q ≠ [] ∧ jp_ArrItemIDs s ≠ []) →
  let p := normalizeParams (fst (merged_params q t s)) in does_work t p q ∧ does_work t p s.
Proof.
  intros Ho Ht Hpaths Hitems. unfold withoutTargets in Ho. injection Ho as Hd Hsrc Hi Ha Hsy Hrd Hro Hrr Hpr Hre. cbv zeta.
  assert (Hs : ∀ p, jp_SourceIDs p = jp_SourceIDs s → sortedIDs (jp_SourceIDs q) = [] ∨
    (jp_SourceIDs p ≠ [] ∧ ∀ id, id ∈ jp_SourceIDs p → id ∈ sortedIDs (jp_SourceIDs q))).
  { intros p Hp. rewrite sortedIDs_nil. setoid_rewrite sortedIDs_elem. rewrite Hp, Hsrc. destruct (jp_SourceIDs s); [by left|by right]. }
  destruct Ht as [->| ->]; unfold merged_params, normalizeParams; params_simpl.
  - destruct (Hpaths eq_refl) as [Hq Hsp]. destruct (MaxTargetPaths <? _); unfold with_targets; params_simpl.
    + split; split_and!; try done; try (by apply Hs); try by left. all: try congruence. all: intros H; split_and!; congruence.
    + split; split_and!; try done; try (by apply Hs); try congruence.
      * right. split; [done|]. intros f Hf. apply covers_canonical, covers_canonical, covers_app. by left.
      * right. split; [done|]. intros f Hf. apply covers_canonical, covers_canonical, covers_app. by right.
      * intros H; split_and!; congruence.
  - destruct (Hitems eq_refl) as [Hq Hsi]. destruct (MaxTargetItems <? _); unfold with_targets; params_simpl.
    + split; split_and!; try done; try by left. all: congruence.
    + split; split_and!; try done; try congruence.
      * right. split; [done|]. intros id Hid. rewrite !sortedIDs_elem, elem_of_app. by left.
      * right. split; [done|]. intros id Hid. rewrite !sortedIDs_elem, elem_of_app. by right.
Qed.

(** ** Enqueueing *)
Lemma validate_targets t p dry : validateParams t p dry = Ok tt →
  (t ≠ TypeSync → jp_Paths p = []) ∧ (t ≠ TypeRefresh → jp_ArrItemIDs p = []).
Proof.
  unfold validateParams. intros H.
  do 4 (match type of H with (if ?b then _ else Err _) = Ok _ => destruct b eqn:?; [|discriminate H] end).
  split; intros Ht; rewrite (bool_decide_eq_false_2 _ Ht) in *; cbn [negb andb] in *.
  - by destruct (jp_Paths p).
  - by destruct (jp_ArrItemIDs p).
Qed.

Lemma normalizeSpec_ok spec s : normalizeSpec spec = Ok s ↔
  validateParams (sp_Type spec) (sp_Params spec) (sp_DryRun spec) = Ok tt ∧
  s = mkSpec (sp_Type spec) (Some (default TriggerManual (sp_Trigger spec))) (sp_DryRun spec) (normalizeParams (sp_Params spec)).
Proof. unfold normalizeSpec. destruct (validateParams _ _ _) as [[]|]; simpl; naive_solver. Qed.

Lemma with_params_ok p j : row_ok j → normalizeParams p = p →
  (jb_Type j ≠ TypeSync → jp_Paths p = []) → (jb_Type j ≠ TypeRefresh → jp_ArrItemIDs p = []) → row_ok (with_params p j).
Proof. intros [] Hp H1 H2. by split. Qed.

Lemma insert_ok db s now : table_ok db → normalizeParams (sp_Params s) = sp_Params s →
  validateParams (sp_Type s) (sp_Params s) (sp_DryRun s) = Ok tt → table_ok (insert_job db s now).1.
Proof.
  intros Hok Hn Hv. apply validate_targets in Hv. apply table_ok_insert; [done|done|].
  split; simpl; try done; [apply next_id_pos|lia..].
Qed.

(** The queued job of a targeted sync or refresh has targets of its type. *)
Lemma targets_of_type j : row_ok j → Targeted (jb_Params j) = true →
  (jb_Type j = TypeSync → jp_Paths (jb_Params j) ≠ []) ∧ (jb_Type j = TypeRefresh → jp_ArrItemIDs (jb_Params j) ≠ []).
Proof.
  intros [_ _ _ _ [Hp Hi] _ _ _ _] Ht. unfold Targeted in Ht. split; intros E Hnil; rewrite E in *.
  - rewrite (Hi ltac:(done)), Hnil in Ht. done.
  - rewrite (Hp ltac:(done)), Hnil in Ht. done.
Qed.

Lemma coalesce_spec db t p : table_ok db → normalizeParams p = p → validateParams t p false = Ok tt → Targeted p = true →
  match coalesce db t p with
  | (db', None, out) => db' = db ∧ out = outcomeCreated
  | (db', Some j, out) => ∃ q, q ∈ candidates db t p ∧ j = with_params (jb_Params j) q ∧
      does_work t (jb_Params j) p ∧ does_work t (jb_Params j) (jb_Params q) ∧ row_ok j ∧
      db' = update_where (jb_ID q) queued (with_params (jb_Params j)) db ∧ out ≠ outcomeCreated
  end.
Proof.
  intros Hok Hn Hv Ht. unfold coalesce.
  assert (Hself : ∀ q, q = with_params (jb_Params q) q) by (by intros []).
  assert (Hsame : ∀ q, q ∈ db → db = update_where (jb_ID q) queued (with_params (jb_Params q)) db).
  { intros q Hq. unfold update_where. rewrite <-(list_fmap_id db) at 1. apply list_fmap_ext. intros i j Hj.
    destruct ((jb_ID j =? jb_ID q) && queued j) eqn:E; [|done]. apply andb_true_iff in E as [E%Z.eqb_eq _].
    by rewrite (table_ok_unique db j q Hok (list_elem_of_lookup_2 _ _ _ Hj) Hq E). }
  destruct (List.find (λ c, coversSpec _ _ _) _) as [c|] eqn:E1.
  { apply find_elem in E1 as [Hc Hcov]. exists c. pose proof (candidates_elem _ _ _ _ Hc) as (Hin & _ & _ & _ & _ & Hty & Hd).
    split_and!; [done|apply Hself|by eapply coversSpec_work|apply does_work_refl|by apply Hok|by apply Hsame|done]. }
  destruct (List.find (λ c, Targeted _ && _) _) as [c|] eqn:E2; [|done].
  apply find_elem in E2 as [Hc [Htc Heq%bool_decide_eq_true]%andb_true_iff].
  pose proof (candidates_elem _ _ _ _ Hc) as (Hin & _ & _ & _ & _ & Hty & Hd). pose proof (to_rows _ Hok _ Hin) as Hrow.
  apply others_equal in Heq; [|by apply Hrow|done]. pose proof (targets_of_type c Hrow Htc) as [Htp Hti].
  pose proof (validate_targets _ _ _ Hv) as [Hvp Hvi].
  assert (Htt : t = TypeSync ∨ t = TypeRefresh) by (destruct t; try done; [by left|by right]).
  destruct (merged_work (jb_Params c) t p Heq Htt) as [Hw1 Hw2].
  { intros E. split; [apply Htp; congruence|]. intros Hnil. unfold Targeted in Ht. rewrite Hnil, Hvi in Ht by (by rewrite E). done. }
  { intros E. split; [apply Hti; congruence|]. intros Hnil. unfold Targeted in Ht. rewrite Hnil, Hvp in Ht by (by rewrite E). done. }
  rewrite mergeInto_eq. destruct (merged_params (jb_Params c) t p) as [m outc] eqn:Em. cbn [fst] in Hw1, Hw2.
  case_bool_decide as Hsm.
  - rewrite (ro_canonical _ Hrow) in Hsm. exists c. rewrite Hsm in Hw2.
    split_and!; [done|apply Hself|done|apply does_work_refl|done|by apply Hsame|done].
  - exists c. cbn [jb_Params with_params]. split_and!; [done|done|done|done| |done|].
    + apply with_params_ok; [done|apply normalizeParams_idem|..]; rewrite Hty; intros Hne; unfold merged_params in Em;
        destruct Htt as [->| ->]; try done; destruct (_ <? _) in Em; injection Em as <- _; unfold normalizeParams; params_simpl;
        unfold with_targets; params_simpl; rewrite ?(proj2 (ro_targets _ Hrow)), ?(proj1 (ro_targets _ Hrow)) by (by rewrite Hty); done.
    + unfold merged_params in Em. destruct Htt as [->| ->]; destruct (_ <? _) in Em; by injection Em as _ <-.
Qed.

(** Everything the result of an enqueue promises: the job the caller gets is queued
    and will do the work, and no queued work is lost to it. *)
Record answers (db db' : table) (j : Job) (t : job_type) (p : Params) (dry : bool) : Prop := {
  an_in : j ∈ db';
  an_queued : jb_Status j = StatusQueued;
  an_waiting : deferred j = false;
  an_kind : jb_Type j = t ∧ jb_DryRun j = dry;
  an_work : does_work t (jb_Params j) p;
  an_fresh : dry = false → resumesStoredPlan t = true → jb_PlannedAt j = None;
  an_others : ∀ i, jb_ID i ≠ jb_ID j → i ∈ db' ↔ i ∈ db;
  an_same : ∀ i, i ∈ db → jb_ID i = jb_ID j → j = with_params (jb_Params j) i ∧ does_work t (jb_Params j) (jb_Params i) ∧
    (jb_Params j = jb_Params i ∨ jb_StartedAt i = None);
  an_new : (∃ i, i ∈ db ∧ jb_ID i = jb_ID j) ∨ jb_Attempt j = 1;
}.

(** A row of the table that answers the request as it is. *)
Lemma answers_row db j t p dry : table_ok db → j ∈ db → jb_Status j = StatusQueued → deferred j = false → jb_Type j = t → jb_DryRun j = dry →
  does_work t (jb_Params j) p → (dry = false → resumesStoredPlan t = true → jb_PlannedAt j = None) → answers db db j t p dry.
Proof.
  intros Hok Hin Hq Hd Ht Hdry Hw Hf. split; try done; [|left; by exists j]. intros i Hi E. rewrite (table_ok_unique _ _ _ Hok Hi Hin E).
  split_and!; [by destruct j|apply does_work_refl|by left].
Qed.

Lemma queued_spec j : queued j = true ↔ jb_Status j = StatusQueued.
Proof. unfold queued. by rewrite bool_decide_eq_true. Qed.
Lemma running_spec j : running j = true ↔ jb_Status j = StatusRunning.
Proof. unfold running. by rewrite bool_decide_eq_true. Qed.

Lemma answers_insert db s now j db' : table_ok db → insert_job db s now = (db', j) →
  answers db db' j (sp_Type s) (sp_Params s) (sp_DryRun s).
Proof.
  intros Hok [= <- <-]. split; try done.
  - apply elem_of_app. right. by left.
  - apply does_work_refl.
  - intros i Hi. rewrite elem_of_app, list_elem_of_singleton. split; [|by left]. intros [|E]; [done|by subst i].
  - intros i Hi E. cbn [jb_ID] in E. pose proof (next_id_above db i Hi). lia.
  - by right.
Qed.

(** A row the coalescing changed answers the request, and still does its own work. *)
Lemma answers_coalesced db t p j q : table_ok db → q ∈ candidates db t p → j = with_params (jb_Params j) q →
  does_work t (jb_Params j) p → does_work t (jb_Params j) (jb_Params q) →
  answers db (update_where (jb_ID q) queued (with_params (jb_Params j)) db) j t p false.
Proof.
  intros Hok Hc Hj Hw Hwq. pose proof (candidates_elem _ _ _ _ Hc) as (Hin & Hq & Hs & Hdry & Hd & Ht & _).
  assert (Hid : jb_ID j = jb_ID q) by (by rewrite Hj).
  split; try (rewrite Hj; done); try done.
  - apply update_where_elem. left. by exists q.
  - rewrite Hj. by apply queued_spec.
  - intros _ _. rewrite Hj. cbn [jb_PlannedAt with_params]. destruct (jb_PlannedAt q) eqn:E; [|done].
    by destruct (ro_planned _ (to_rows _ Hok _ Hin) ltac:(by rewrite E)).
  - intros i Hi. rewrite update_where_elem, Hid in *. split; [intros [(k & _ & Hk & _ & ->)|[? _]]|intros Hx; right; split]; [|done|done|].
    + by destruct Hi.
    + by intros [? _].
  - intros i Hi E. rewrite Hid in E. rewrite (table_ok_unique _ _ _ Hok Hi Hin E). split_and!; [done|done|by right].
  - left. exists q. by rewrite Hj.
Qed.

Lemma identical_spec s j : identical s j = true → jb_Status j = StatusQueued ∧ jb_Type j = sp_Type s ∧ jb_Params j = sp_Params s ∧
  jb_DryRun j = sp_DryRun s ∧ (sp_DryRun s = false → resumesStoredPlan (sp_Type s) = true → jb_PlannedAt j = None) ∧ deferred j = false.
Proof.
  unfold identical. rewrite !andb_true_iff, !bool_decide_eq_true, queued_spec, Bool.eqb_true_iff, orb_true_iff, Z.eqb_eq.
  intros ((((((Hq & Ht) & Hp) & Hd) & Hpl) & Hde) & Hn). split_and!; try done.
  - intros Hdry Hr. rewrite Hdry, Hr in Hpl. destruct Hpl as [?|Hpl]; [done|]. by apply bool_decide_eq_true in Hpl.
  - unfold deferred. by rewrite Hde, (bool_decide_eq_true_2 _ Hn).
Qed.

Lemma enqueue_spec db s now db' j out : table_ok db → normalizeParams (sp_Params s) = sp_Params s →
  validateParams (sp_Type s) (sp_Params s) (sp_DryRun s) = Ok tt → enqueue db s now = (db', j, out) →
  table_ok db' ∧ answers db db' j (sp_Type s) (sp_Params s) (sp_DryRun s) ∧ (out = outcomeCreated ↔ db' = (db ++ [j])%list).
Proof.
  intros Hok Hn Hv. unfold enqueue. assert (Hne : ∀ x : Job, db ≠ (db ++ [x])%list).
  { intros x E. apply (f_equal length) in E. rewrite length_app in E. simpl in E. lia. }
  assert (Hins : let '(db1, j1) := insert_job db s now in (db1, j1, outcomeCreated) = (db', j, out) →
    table_ok db' ∧ answers db db' j (sp_Type s) (sp_Params s) (sp_DryRun s) ∧ (out = outcomeCreated ↔ db' = (db ++ [j])%list)).
  { pose proof (insert_ok db s now Hok Hn Hv) as Hi. destruct (insert_job db s now) as [db1 j1] eqn:E. intros [= <- <- <-].
    split_and!; [done|by eapply answers_insert|split; [by injection E as <- <-|done]]. }
  destruct (List.find (identical s) db) as [i|] eqn:Ei.
  { apply find_elem in Ei as [Hi (Hq & Ht & Hp & Hd & Hpl & Hde)%identical_spec]. intros [= <- <- <-].
    split_and!; [done|apply answers_row; try done; rewrite Hp; apply does_work_refl|split; [done|intros E; by destruct (Hne i)]]. }
  destruct (negb (sp_DryRun s) && Targeted (sp_Params s)) eqn:E; [|by destruct (insert_job db s now)].
  apply andb_true_iff in E as [Hd%negb_true_iff Htg]. rewrite Hd in Hv.
  pose proof (coalesce_spec db (sp_Type s) (sp_Params s) Hok Hn Hv Htg) as Hc.
  destruct (coalesce db (sp_Type s) (sp_Params s)) as [[db1 [c|]] oc]; [|by destruct (insert_job db s now)].
  intros [= <- <- <-]. destruct Hc as (q & Hq & Hj & Hw & Hwq & Hr & -> & Ho). rewrite Hd.
  split_and!; [|by apply answers_coalesced|split; [done|]].
  - apply table_ok_update; [done|done|]. intros i Hi E _ _. pose proof (candidates_elem _ _ _ _ Hq) as (Hin & _).
    by rewrite (table_ok_unique _ _ _ Hok Hi Hin E), <-Hj.
  - intros E. apply (f_equal length) in E. unfold update_where in E. rewrite length_fmap, length_app in E. simpl in E. lia.
Qed.

Lemma createJob_spec db spec now db' j out : table_ok db → createJob db spec now = Ok (db', j, out) →
  table_ok db' ∧ answers db db' j (sp_Type spec) (normalizeParams (sp_Params spec)) (sp_DryRun spec) ∧
  (out = outcomeCreated ↔ db' = (db ++ [j])%list).
Proof.
  intros Hok. unfold createJob. intros (s & Hs & Hd)%rbind_ok. apply normalizeSpec_ok in Hs as [Hv ->]. injection Hd as Hd.
  apply enqueue_spec in Hd; [done|done|apply normalizeParams_idem|by apply validate_normalize].
Qed.

(** C36: an enqueue answers with a queued job that will do the requested work: it
    is of the requested type and kind, does not wait for a window, and (when a run
    could resume a stored plan) has no plan yet, so it will see the current files.
    It is either new, or a queued job that was there before and does its earlier
    work too; every other job of the table is left as it was. *)
Theorem enqueue_loses_nothing (db db' : table) (spec : Spec) (now : time) (j : Job) (out : enqueueOutcome) :
  table_ok db → createJob db spec now = Ok (db', j, out) →
  table_ok db' ∧ answers db db' j (sp_Type spec) (normalizeParams (sp_Params spec)) (sp_DryRun spec) ∧
  (out = outcomeCreated ↔ db' = (db ++ [j])%list).
Proof. apply createJob_spec. Qed.

(** ** The life of a job *)

(** The transactions of the store. A plan is stored or cleared by the runner of a
    job that has started; like the code, this does not ask for the job's status. *)
Inductive db_step (maxAttempts : Z) (db : table) : table → Prop :=
| step_create spec now db' j out : createJob db spec now = Ok (db', j, out) → db_step maxAttempts db db'
| step_start id now : db_step maxAttempts db (markRunning db id now).1
| step_plan id j at_ : j ∈ db → jb_ID j = id → jb_StartedAt j ≠ None → db_step maxAttempts db (set_planned db id at_)
| step_finish id st err now : Final st = true → db_step maxAttempts db (finishJob db id st err now).1
| step_requeue id : db_step maxAttempts db (requeue db id)
| step_drop id st err now : Final st = true → db_step maxAttempts db (finishQueued db id st err now).1
| step_recover now : db_step maxAttempts db (recoverCrashed db maxAttempts now).1
| step_defer id until : db_step maxAttempts db (deferJob db id until).1
| step_supersede p keep now : db_step maxAttempts db (supersedeDeferredSyncs db p keep now)
| step_prune cutoff : db_step maxAttempts db (PruneHistory db cutoff).

(** What a transaction may do to a row. *)
Record evolves (maxAttempts : Z) (i j : Job) : Prop := {
  ev_fixed : jb_ID j = jb_ID i ∧ jb_Type j = jb_Type i ∧ jb_DryRun j = jb_DryRun i ∧ jb_QueuedAt j = jb_QueuedAt i;
  ev_params : jb_Params j = jb_Params i ∨ (jb_Status i = StatusQueued ∧ jb_Status j = StatusQueued ∧ jb_StartedAt i = None ∧
    does_work (jb_Type i) (jb_Params j) (jb_Params i));
  ev_keys : LockKeys (jb_Type j) (jb_Params j) = LockKeys (jb_Type i) (jb_Params i);
  ev_attempt : jb_Attempt j = jb_Attempt i ∨ (jb_Attempt j = jb_Attempt i + 1 ∧ jb_Attempt j ≤ maxAttempts ∧
    jb_Status i = StatusRunning ∧ jb_Status j = StatusQueued ∧ jb_Trigger j = TriggerResume);
  ev_deferrals : jb_Deferrals i ≤ jb_Deferrals j;
  ev_started : jb_StartedAt i ≠ None → jb_StartedAt j = jb_StartedAt i;
}.

Lemma does_work_keys t q p : does_work t q p → LockKeys t q = LockKeys t p.
Proof. destruct t; simpl; try (by intros ->); [intros (-> & _)|intros (-> & _)]; done. Qed.

Definition table_evolves (maxAttempts : Z) (db db' : table) : Prop :=
  table_ok db' ∧ (∀ i j, i ∈ db → j ∈ db' → jb_ID i = jb_ID j → evolves maxAttempts i j) ∧
  (∀ j, j ∈ db' → (∃ i, i ∈ db ∧ jb_ID i = jb_ID j) ∨ jb_Attempt j = 1).

Lemma evolves_refl M i : evolves M i i.
Proof. split; try done; by left. Qed.

Lemma evolve_fmap M f db : table_ok db → (∀ i, i ∈ db → row_ok (f i) ∧ evolves M i (f i)) → (∀ i, jb_ID (f i) = jb_ID i) →
  table_evolves M db (f <$> db).
Proof.
  intros Hok Hf Hid. split_and!; [apply table_ok_fmap; [done|done|intros j Hj _; by apply Hf]| |].
  2: { intros j (k & -> & Hk)%list_elem_of_fmap. left. exists k. by rewrite Hid. }
  intros i j Hi (k & -> & Hk)%list_elem_of_fmap E. rewrite Hid in E. rewrite (table_ok_unique _ _ _ Hok Hi Hk E). by apply Hf.
Qed.

Lemma evolve_update M db id cond f : table_ok db → (∀ i, jb_ID (f i) = jb_ID i) →
  (∀ i, i ∈ db → jb_ID i = id → cond i = true → row_ok (f i) ∧ evolves M i (f i)) → table_evolves M db (update_where id cond f db).
Proof.
  intros Hok Hid Hf. apply evolve_fmap; [done| |intros i; by destruct (_ && _)]. intros i Hi.
  destruct (_ && _) eqn:E; [apply andb_true_iff in E as [E%Z.eqb_eq Hc]; by apply Hf|].
  split; [by apply Hok|apply evolves_refl].
Qed.

(** A change of status of a row that is not final. *)
Lemma evolve_state M i st trig attempt started finished nb def err : row_ok i → Final (jb_Status i) = false →
  let j := with_state st trig attempt started finished nb def err i in
  (started = jb_StartedAt i ∨ jb_StartedAt i = None) → started ≠ None ∨ st ≠ StatusRunning ∧ nb = None →
  (finished ≠ None ↔ Final st = true) →
  (nb ≠ None → st = StatusQueued ∧ 0 < def) → jb_Deferrals i ≤ def →
  (attempt = jb_Attempt i ∨ (attempt = jb_Attempt i + 1 ∧ attempt ≤ M ∧ jb_Status i = StatusRunning ∧ st = StatusQueued ∧ trig = TriggerResume)) →
  row_ok j ∧ evolves M i j.
Proof.
  intros [] Hnf j Hs Hs' Hf Hnb Hd Ha. split.
  - split; subst j; cbn [with_state jb_ID jb_Attempt jb_Deferrals jb_Params jb_Type jb_PlannedAt jb_StartedAt jb_NotBefore jb_Status jb_FinishedAt];
      try done; try lia.
    + intros H. specialize (ro_planned0 H). destruct Hs as [->|?]; done.
    + intros H. destruct (Hnb H). split_and!; [done| |done]. destruct Hs' as [|[_ ->]]; done.
    + intros ->. destruct Hs' as [|[? _]]; done.
  - split; subst j; cbn [with_state jb_ID jb_Type jb_DryRun jb_QueuedAt jb_Params jb_Attempt jb_Deferrals jb_StartedAt jb_Status jb_Trigger]; try done.
    + by left.
    + intros H. destruct Hs as [|?]; done.
Qed.

Lemma running_row i : row_ok i → running i = true → Final (jb_Status i) = false ∧ jb_Status i = StatusRunning ∧ jb_StartedAt i ≠ None ∧
  jb_FinishedAt i = None ∧ jb_NotBefore i = None.
Proof.
  intros [] Hr%running_spec. rewrite Hr in *. split_and!; [done|done|by apply ro_running0| |].
  - destruct (jb_FinishedAt i) eqn:E; [|done]. by pose proof (proj1 ro_finished0 ltac:(done)).
  - destruct (jb_NotBefore i) eqn:E; [|done]. by destruct (ro_waiting0 ltac:(done)) as [? _].
Qed.
Lemma queued_row i : row_ok i → queued i = true → Final (jb_Status i) = false ∧ jb_Status i = StatusQueued ∧ jb_FinishedAt i = None.
Proof.
  intros [] Hr%queued_spec. rewrite Hr in *. split_and!; [done|done|]. destruct (jb_FinishedAt i) eqn:E; [|done].
  by pose proof (proj1 ro_finished0 ltac:(done)).
Qed.

Section Steps.
Variables (M : Z) (db : table).
Hypothesis Hok : table_ok db.

Lemma row_of i : i ∈ db → row_ok i.
Proof. apply Hok. Qed.

Lemma start_evolves id now : table_evolves M db (markRunning db id now).1.
Proof.
  apply evolve_update; [done|done|]. intros i Hi _ Hq. pose proof (row_of i Hi) as Hr. pose proof (queued_row i Hr Hq) as (Hf & Hs & Hn).
  apply evolve_state; try done; rewrite ?Hn; try by left.
  destruct (jb_StartedAt i); [by left|by right].
Qed.

Lemma finish_evolves id st err now : Final st = true → table_evolves M db (finishJob db id st err now).1.
Proof.
  intros Hst. apply evolve_update; [done|done|]. intros i Hi _ Hq. pose proof (row_of i Hi) as Hr.
  pose proof (running_row i Hr Hq) as (Hf & Hs & Hsa & Hn & Hnb). apply evolve_state; try done; try by left; by rewrite ?Hnb.
Qed.

Lemma requeue_evolves id : table_evolves M db (requeue db id).
Proof.
  apply evolve_update; [done|done|]. intros i Hi _ Hq. pose proof (row_of i Hi) as Hr.
  pose proof (running_row i Hr Hq) as (Hf & Hs & Hsa & Hn & Hnb). apply evolve_state; try done; try by left; by rewrite ?Hnb, ?Hn.
Qed.

Lemma drop_ok i st err now : row_ok i → queued i = true → Final st = true →
  row_ok (drop_job st err now i) ∧ evolves M i (drop_job st err now i).
Proof.
  intros Hr Hq Hst. pose proof (queued_row i Hr Hq) as (Hf & Hs & Hn). apply evolve_state; try done; try by left.
  destruct (jb_StartedAt i); [by left|right]. by destruct st.
Qed.

Lemma drop_evolves id st err now : Final st = true → table_evolves M db (finishQueued db id st err now).1.
Proof. intros Hst. apply evolve_update; [done|done|]. intros i Hi _ Hq. apply drop_ok; auto using row_of. Qed.

Lemma recover_evolves now : table_evolves M db (recoverCrashed db M now).1.
Proof.
  apply evolve_fmap; [done| |].
  - intros i Hi. pose proof (row_of i Hi) as Hr. unfold recover_job. destruct (running i) eqn:Hq; cbn [negb]; [|split; [done|apply evolves_refl]].
    pose proof (running_row i Hr Hq) as (Hf & Hs & Hsa & Hn & Hnb).
    destruct (Z.ltb_spec M (jb_Attempt i + 1)); apply evolve_state; try done; try by left; rewrite ?Hnb, ?Hn; try done. right. split_and!; done.
  - intros i. unfold recover_job. destruct (negb _); [done|by destruct (_ <? _)].
Qed.

Lemma defer_evolves id until : table_evolves M db (deferJob db id until).1.
Proof.
  apply evolve_update; [done|done|]. intros i Hi _ Hq. pose proof (row_of i Hi) as Hr.
  pose proof (running_row i Hr Hq) as (Hf & Hs & Hsa & Hn & Hnb). pose proof (ro_deferrals _ Hr).
  apply evolve_state; try done; rewrite ?Hn; try (by left); [intros _; split; [done|]|]; lia.
Qed.
End Steps.

(** *** Superseding deferred syncs changes the rows one by one *)
Definition superseded_row (now : time) (i j : Job) : Prop :=
  (jb_Status i ≠ StatusQueued ∧ j = with_superseded (jb_SupersededBy j) i) ∨
  (jb_Status i = StatusQueued ∧ (j = with_superseded (jb_SupersededBy j) i ∨
     j = with_superseded (jb_SupersededBy j) (drop_job StatusCancelled (jb_Error i) now i))).

Lemma superseded_row_set now k i j : superseded_row now i j → superseded_row now i (with_superseded k j).
Proof. by intros [[? ->]|[? [->| ->]]]; [left|right; split; [|left]|right; split; [|right]]. Qed.

Lemma superseded_row_drop now k i j : superseded_row now i j → queued j = true →
  superseded_row now i (with_superseded k (drop_job StatusCancelled (jb_Error j) now j)).
Proof.
  intros H Hq%queued_spec. destruct H as [[Hi Hj]|[Hi [Hj|Hj]]]; rewrite Hj in Hq |- *; [done| |done].
  right. split; [done|by right].
Qed.

Lemma supersede_rows p keep now db : ∃ f, supersedeDeferredSyncs db p keep now = f <$> db ∧ ∀ i, superseded_row now i (f i) ∧
  (f i = with_superseded (jb_SupersededBy (f i)) i ∨ ∃ c, c ∈ db ∧ supersedable p keep c = true ∧ jb_ID c = jb_ID i).
Proof.
  unfold supersedeDeferredSyncs.
  assert (Hgen : ∀ l g, (∀ c, c ∈ l → c ∈ db ∧ supersedable p keep c = true) →
    (∀ i, superseded_row now i (g i) ∧ (g i = with_superseded (jb_SupersededBy (g i)) i ∨ ∃ c, c ∈ db ∧ supersedable p keep c = true ∧ jb_ID c = jb_ID i)) →
    ∃ f, foldl (supersede_one keep now) (g <$> db) l = f <$> db ∧ ∀ i, superseded_row now i (f i) ∧
      (f i = with_superseded (jb_SupersededBy (f i)) i ∨ ∃ c, c ∈ db ∧ supersedable p keep c = true ∧ jb_ID c = jb_ID i)).
  { induction l as [|c l IH]; intros g Hl Hg; simpl; [by exists g|]. unfold supersede_one, update_where.
    rewrite <-!list_fmap_compose. apply IH; [intros; apply Hl; by right|]. intros i. unfold compose. destruct (Hg i) as [Hrow Hc].
    destruct ((jb_ID (g i) =? jb_ID c) && queued (g i)) eqn:E.
    - apply andb_true_iff in E as [E1%Z.eqb_eq E]. split.
      + destruct (bool_decide _); [|by apply superseded_row_drop]. by apply superseded_row_set, superseded_row_drop.
      + right. exists c. destruct (Hl c) as [? ?]; [by left|]. split_and!; [done|done|].
        rewrite <-E1. by destruct Hrow as [[_ ->]|[_ [->| ->]]].
    - destruct (bool_decide _); [|done]. split; [by apply superseded_row_set|]. destruct Hc as [Hc|Hc]; [left|by right]. rewrite Hc. done. }
  destruct (Hgen (List.filter (supersedable p keep) db) id) as (f & Hf & H); [intros c; by apply filter_bool_elem| |rewrite list_fmap_id in Hf; by exists f].
  intros i. split; [|left; by destruct i].
  destruct (decide (jb_Status i = StatusQueued)); [right; split; [done|left]|left; split; [done|]]; simpl; by destruct i.
Qed.

Lemma superseded_ok k i : row_ok i → row_ok (with_superseded k i).
Proof. by intros []. Qed.
Lemma superseded_evolves M k i j : evolves M i j → evolves M i (with_superseded k j).
Proof. by intros []. Qed.

Lemma supersede_evolves M p keep now db : table_ok db → table_evolves M db (supersedeDeferredSyncs db p keep now).
Proof.
  intros Hok. destruct (supersede_rows p keep now db) as (f & -> & Hf).
  assert (Hkey : ∀ i, row_ok i → row_ok (f i) ∧ evolves M i (f i)).
  { intros i Hr. destruct (Hf i) as [[[Hs Hj]|[Hs [Hj|Hj]]] _]; rewrite Hj.
    - split; [by apply superseded_ok|]. apply superseded_evolves, evolves_refl.
    - split; [by apply superseded_ok|]. apply superseded_evolves, evolves_refl.
    - destruct (drop_ok M i StatusCancelled (jb_Error i) now Hr) as [Ho He]; [by apply queued_spec|done|].
      split; [by apply superseded_ok|by apply superseded_evolves]. }
  apply evolve_fmap; [done|intros i Hi; by apply Hkey, Hok|].
  intros i. destruct (Hf i) as [[[_ ->]|[_ [->| ->]]] _]; done.
Qed.

Lemma plan_evolves M db id at_ j : table_ok db → j ∈ db → jb_ID j = id → jb_StartedAt j ≠ None → table_evolves M db (set_planned db id at_).
Proof.
  intros Hok Hj Hid Hs. apply evolve_update; [done|done|]. intros i Hi Ei _. subst id.
  rewrite (table_ok_unique _ _ _ Hok Hi Hj Ei). pose proof (to_rows _ Hok _ Hj) as []. split; [by split|].
  split; try done; [by left|by left].
Qed.

Lemma create_evolves M db spec now db' j out : table_ok db → createJob db spec now = Ok (db', j, out) → table_evolves M db db'.
Proof.
  intros Hok Hc. apply createJob_spec in Hc as (Hok' & Ha & _); [|done]. split_and!; [done| |].
  2: { intros k Hk. destruct (decide (jb_ID k = jb_ID j)) as [E|E].
    - rewrite (table_ok_unique _ _ _ Hok' Hk (an_in _ _ _ _ _ _ Ha) E). apply (an_new _ _ _ _ _ _ Ha).
    - left. exists k. split; [by apply (an_others _ _ _ _ _ _ Ha)|done]. }
  intros i k Hi Hk E. destruct (decide (jb_ID k = jb_ID j)) as [Ej|Ej].
  - rewrite (table_ok_unique _ _ _ Hok' Hk (an_in _ _ _ _ _ _ Ha) Ej) in *.
    destruct (an_same _ _ _ _ _ _ Ha i Hi E) as (Hj & Hw & Hp). destruct (an_kind _ _ _ _ _ _ Ha) as [Ht _].
    pose proof (an_queued _ _ _ _ _ _ Ha) as Hq. assert (Htype : jb_Type i = sp_Type spec) by (by rewrite Hj in Ht).
    assert (Hst : jb_Status i = StatusQueued) by (by rewrite Hj in Hq). rewrite <-Htype in Hw.
    split; try (rewrite Hj; done); try (rewrite Hj; by left).
    + destruct Hp as [Hp|Hp]; [by left|by right].
    + rewrite Ht, <-Htype. by apply does_work_keys.
  - apply (an_others _ _ _ _ _ _ Ha) in Hk; [|done]. rewrite (table_ok_unique _ _ _ Hok Hi Hk E). apply evolves_refl.
Qed.

Lemma prune_evolves M db cutoff : table_ok db → table_evolves M db (PruneHistory db cutoff).
Proof.
  intros Hok. split_and!; [by apply table_ok_filter| |].
  - intros i j Hi [Hj _]%filter_bool_elem E. rewrite (table_ok_unique _ _ _ Hok Hi Hj E). apply evolves_refl.
  - intros j [Hj _]%filter_bool_elem. left. by exists j.
Qed.

Lemma db_step_evolves M db db' : table_ok db → db_step M db db' → table_evolves M db db'.
Proof.
  intros Hok. destruct 1; eauto using create_evolves, start_evolves, plan_evolves, finish_evolves, requeue_evolves, drop_evolves,
    recover_evolves, defer_evolves, supersede_evolves, prune_evolves.
Qed.

Lemma empty_ok : table_ok [].
Proof. split; [constructor|by intros j ?%elem_of_nil]. Qed.

Lemma attempts_step M db db' : 1 ≤ M → table_ok db → (∀ j, j ∈ db → jb_Attempt j ≤ M) → db_step M db db' → ∀ j, j ∈ db' → jb_Attempt j ≤ M.
Proof.
  intros HM Hok Ha Hs j Hj. destruct (db_step_evolves M db db' Hok Hs) as (_ & He & Hn).
  destruct (Hn j Hj) as [(i & Hi & E)| ->]; [|done]. specialize (Ha i Hi). destruct (ev_attempt _ _ _ (He i j Hi Hj E)); lia.
Qed.

Lemma reach_ok M db : 1 ≤ M → rtc (db_step M) [] db → table_ok db ∧ ∀ j, j ∈ db → jb_Attempt j ≤ M.
Proof.
  intros HM Hr. cut (∀ db0, rtc (db_step M) db0 db → table_ok db0 ∧ (∀ j, j ∈ db0 → jb_Attempt j ≤ M) → table_ok db ∧ ∀ j, j ∈ db → jb_Attempt j ≤ M).
  { intros H. apply (H [] Hr). split; [apply empty_ok|by intros j ?%elem_of_nil]. }
  clear Hr. intros db0. induction 1 as [db0|db0 db1 db2 Hs _ IH]; [done|]. intros [Hok Ha]. apply IH. split.
  - by apply (db_step_evolves M db0).
  - by eapply attempts_step.
Qed.

(** *** What each transaction makes of the row it is about *)

(** [i] stays the same job. *)
Definition same_job (i j : Job) : Prop :=
  jb_ID j = jb_ID i ∧ jb_Type j = jb_Type i ∧ jb_DryRun j = jb_DryRun i ∧ jb_Params j = jb_Params i ∧
  jb_PlannedAt j = jb_PlannedAt i ∧ jb_QueuedAt j = jb_QueuedAt i ∧ jb_SupersededBy j = jb_SupersededBy i.
Definition started_as (now : time) (i j : Job) : Prop :=
  same_job i j ∧ jb_Status j = StatusRunning ∧ jb_Trigger j = jb_Trigger i ∧ jb_Attempt j = jb_Attempt i ∧ jb_Deferrals j = jb_Deferrals i ∧
  jb_NotBefore j = None ∧ jb_FinishedAt j = None ∧ (jb_StartedAt i = None → jb_StartedAt j = Some now) ∧
  (∀ t, jb_StartedAt i = Some t → jb_StartedAt j = Some t).
Definition ended_as (st : job_status) (err : option job_error) (now : time) (i j : Job) : Prop :=
  same_job i j ∧ jb_Status j = st ∧ jb_Error j = err ∧ jb_FinishedAt j = Some now ∧ jb_NotBefore j = None ∧ jb_Trigger j = jb_Trigger i ∧
  jb_Attempt j = jb_Attempt i ∧ jb_Deferrals j = jb_Deferrals i ∧ jb_StartedAt j = jb_StartedAt i.
Definition resumed_as (crashes : Z) (i j : Job) : Prop :=
  same_job i j ∧ jb_Status j = StatusQueued ∧ jb_Trigger j = TriggerResume ∧ jb_Attempt j = jb_Attempt i + crashes ∧
  jb_FinishedAt j = None ∧ jb_NotBefore j = None ∧ jb_Deferrals j = jb_Deferrals i ∧ jb_StartedAt j = jb_StartedAt i.
(** The deferrals of [i] after one more: one more than before, or the most a job it superseded had. *)
Definition deferrals_after (db : table) (i : Job) (n : Z) : Prop :=
  (n = jb_Deferrals i + 1 ∨ ∃ p, p ∈ db ∧ jb_SupersededBy p = Some (jb_ID i) ∧ n = jb_Deferrals p) ∧
  jb_Deferrals i < n ∧ ∀ p, p ∈ db → jb_SupersededBy p = Some (jb_ID i) → jb_Deferrals p ≤ n.
Definition put_off_as (db : table) (until : time) (i j : Job) : Prop :=
  same_job i j ∧ jb_Status j = StatusQueued ∧ jb_Trigger j = jb_Trigger i ∧ jb_Attempt j = jb_Attempt i ∧ jb_FinishedAt j = None ∧
  jb_NotBefore j = Some until ∧ jb_StartedAt j = jb_StartedAt i ∧ deferrals_after db i (jb_Deferrals j).

(** The row of [id], when [P] holds of it, becomes one in relation [R]; all other rows stay. *)
Record one_row (id : Z) (P : Job → Prop) (R : Job → Job → Prop) (db db' : table) : Prop := {
  or_ids : jb_ID <$> db' = jb_ID <$> db;
  or_row : ∀ i, i ∈ db → jb_ID i = id → P i → ∃ j, j ∈ db' ∧ R i j;
  or_others : ∀ i, i ∈ db → (jb_ID i = id → ¬ P i) → i ∈ db';
}.

(** A sync that a scheduled sync with parameters [p], queued as job [keep], makes superfluous. *)
Definition superfluous (p : Params) (keep : Z) (i : Job) : Prop :=
  jb_Status i = StatusQueued ∧ jb_DryRun i = false ∧ jb_Type i = TypeSync ∧ jb_ID i ≠ keep ∧
  jp_DestinationID (jb_Params i) ≠ 0 ∧ jp_DestinationID (jb_Params i) = jp_DestinationID p ∧
  (0 < jb_Deferrals i ∨ jb_NotBefore i ≠ None) ∧
  (jp_SourceIDs p = [] ∨ (jp_SourceIDs (jb_Params i) ≠ [] ∧ ∀ id, id ∈ jp_SourceIDs (jb_Params i) → id ∈ jp_SourceIDs p)) ∧
  (jp_AllowChanges (jb_Params i) = true → jp_AllowChanges p = true) ∧ jp_ReleaseDemoted (jb_Params i) = false.
Record superseded_as (p : Params) (keep : Z) (now : time) (db : table) (i j : Job) : Prop := {
  sa_dropped : superfluous p keep i → ∃ k, ended_as StatusCancelled (jb_Error i) now i k ∧ j = with_superseded (Some keep) k;
  sa_kept : ¬ superfluous p keep i → j = with_superseded (jb_SupersededBy j) i ∧
    ((∃ c, c ∈ db ∧ superfluous p keep c ∧ jb_SupersededBy i = Some (jb_ID c) ∧ jb_SupersededBy j = Some keep) ∨
     ((∀ c, c ∈ db → superfluous p keep c → jb_SupersededBy i ≠ Some (jb_ID c)) ∧ j = i));
}.

Lemma one_row_update id cond f db (P : Job → Prop) (R : Job → Job → Prop) : (∀ i, jb_ID (f i) = jb_ID i) → (∀ i, cond i = true ↔ P i) →
  (∀ i, i ∈ db → jb_ID i = id → P i → R i (f i)) → one_row id P R db (update_where id cond f db).
Proof.
  intros Hid Hc HR. split.
  - unfold update_where. rewrite <-list_fmap_compose. apply list_fmap_ext. intros _ i _. simpl. by destruct (_ && _).
  - intros i Hi E HP. exists (f i). split; [|by apply HR]. apply update_where_elem. left. exists i. split_and!; [done|done|by apply Hc|done].
  - intros i Hi Hn. apply update_where_elem. right. split; [done|]. intros [E Hci]. by apply Hn, Hc.
Qed.

Lemma superseded_deferrals_spec db id : (∃ p, p ∈ db ∧ jb_SupersededBy p = Some id ∧ superseded_deferrals db id = jb_Deferrals p) ∨
  superseded_deferrals db id = 0.
Proof.
  unfold superseded_deferrals. induction db as [|p db IH]; simpl; [by right|]. case_bool_decide as E.
  2: { destruct IH as [(q & Hq & H)|H]; [left; exists q; split; [by right|done]|by right]. }
  destruct (Z.max_spec (jb_Deferrals p) (foldr (λ p m, if bool_decide (jb_SupersededBy p = Some id) then Z.max (jb_Deferrals p) m else m) 0 db)) as [[_ ->]|[_ ->]].
  - destruct IH as [(q & Hq & H)|H]; [left; exists q; split; [by right|done]|by right].
  - left. exists p. split; [by left|done].
Qed.
Lemma superseded_deferrals_le db id p : p ∈ db → jb_SupersededBy p = Some id → jb_Deferrals p ≤ superseded_deferrals db id.
Proof.
  unfold superseded_deferrals. induction db as [|q db IH]; [by intros ?%elem_of_nil|]. simpl. intros [->|Hp]%elem_of_cons E.
  - rewrite bool_decide_eq_true_2 by done. lia.
  - specialize (IH Hp E). case_bool_decide; lia.
Qed.
Lemma defer_count db i : 0 ≤ jb_Deferrals i → deferrals_after db i (Z.max (jb_Deferrals i + 1) (superseded_deferrals db (jb_ID i))).
Proof.
  intros H0. split_and!; [|lia|intros p Hp E; pose proof (superseded_deferrals_le db (jb_ID i) p Hp E); lia].
  destruct (Z.max_spec (jb_Deferrals i + 1) (superseded_deferrals db (jb_ID i))) as [[Hlt ->]|[_ ->]]; [right|by left].
  destruct (superseded_deferrals_spec db (jb_ID i)) as [(p & Hp & E & ->)|E]; [by exists p|lia].
Qed.

Lemma coversSources_spec have want : coversSources have want = true ↔ have = [] ∨ (want ≠ [] ∧ ∀ id, id ∈ want → id ∈ have).
Proof.
  unfold coversSources. destruct have as [|h have]; [by split; [left|]|]. destruct want as [|w want].
  - split; [done|by intros [?|[? _]]].
  - rewrite forallb_elem. setoid_rewrite mem_spec. split; [intros H; by right|by intros [?|[_ H]]].
Qed.
Lemma col_is_spec v arg : col_is v arg = true ↔ v ≠ 0 ∧ v = arg.
Proof. unfold col_is. rewrite andb_true_iff, negb_true_iff, Z.eqb_neq, Z.eqb_eq. done. Qed.
Lemma deferred_spec j : deferred j = true ↔ 0 < jb_Deferrals j ∨ jb_NotBefore j ≠ None.
Proof. unfold deferred. by rewrite orb_true_iff, Z.ltb_lt, negb_true_iff, bool_decide_eq_false. Qed.

Lemma supersedable_spec p keep i : supersedable p keep i = true ↔ superfluous p keep i.
Proof.
  unfold supersedable, superfluous. rewrite !andb_true_iff, queued_spec, !negb_true_iff, bool_decide_eq_true, col_is_spec, deferred_spec,
    coversSources_spec, Z.eqb_neq, andb_false_iff, negb_false_iff, sortedIDs_nil. setoid_rewrite sortedIDs_elem.
  destruct (jp_AllowChanges (jb_Params i)), (jp_AllowChanges p); naive_solver.
Qed.

(** The fold over the superfluous syncs, row by row. *)
Definition superseded_by (keep : Z) (now : time) (ids : list Z) (i : Job) : Job :=
  let noted := match jb_SupersededBy i with Some c => mem c ids | None => false end in
  with_superseded (if mem (jb_ID i) ids || noted then Some keep else jb_SupersededBy i)
    (if mem (jb_ID i) ids then drop_job StatusCancelled (jb_Error i) now i else i).

Lemma superseded_by_snoc keep now ids c i : jb_ID c ≠ keep → mem (jb_ID c) ids = false → (jb_ID i = jb_ID c → queued i = true) →
  let j := superseded_by keep now ids i in
  let j1 := if (jb_ID j =? jb_ID c) && queued j then with_superseded (Some keep) (drop_job StatusCancelled (jb_Error j) now j) else j in
  (if bool_decide (jb_SupersededBy j1 = Some (jb_ID c)) then with_superseded (Some keep) j1 else j1) = superseded_by keep now (ids ++ [jb_ID c]) i.
Proof.
  intros Hk Hnew Hq. assert (Hm : ∀ x, mem x (ids ++ [jb_ID c]) = mem x ids || (x =? jb_ID c)).
  { intros x. apply eq_iff_eq_true. rewrite orb_true_iff, !mem_spec, elem_of_app, list_elem_of_singleton, Z.eqb_eq. done. }
  unfold superseded_by. rewrite !Hm. destruct (Z.eqb_spec (jb_ID i) (jb_ID c)) as [E|E].
  - rewrite E, Hnew. specialize (Hq E). cbn [orb with_superseded jb_ID jb_SupersededBy]. rewrite E, Z.eqb_refl.
    assert (Hq' : ∀ k, queued (with_superseded k i) = true) by done. rewrite Hq'. cbn [andb with_superseded jb_SupersededBy].
    rewrite bool_decide_eq_false_2 by congruence. done.
  - rewrite orb_false_r. assert (Hid : ∀ k b, jb_ID (with_superseded k (if b : bool then drop_job StatusCancelled (jb_Error i) now i else i)) = jb_ID i) by (by intros ? []).
    rewrite Hid, (proj2 (Z.eqb_neq _ _) E). cbn [andb with_superseded jb_SupersededBy].
    destruct (mem (jb_ID i) ids); cbn [orb]; [rewrite bool_decide_eq_false_2 by congruence; done|].
    destruct (jb_SupersededBy i) as [k|] eqn:Es; [|done]. rewrite Hm. destruct (mem k ids) eqn:Ek; cbn [orb].
    + by rewrite bool_decide_eq_false_2 by congruence.
    + destruct (Z.eqb_spec k (jb_ID c)) as [->|Hne]; [by rewrite bool_decide_eq_true_2|]. by rewrite bool_decide_eq_false_2 by congruence.
Qed.

Lemma supersede_by_ids p keep now db : table_ok db →
  supersedeDeferredSyncs db p keep now = superseded_by keep now (jb_ID <$> List.filter (supersedable p keep) db) <$> db.
Proof.
  intros Hok. unfold supersedeDeferredSyncs.
  assert (Hgen : ∀ l ids, NoDup (ids ++ (jb_ID <$> l)) → (∀ c, c ∈ l → c ∈ db ∧ supersedable p keep c = true) →
    foldl (supersede_one keep now) (superseded_by keep now ids <$> db) l = superseded_by keep now (ids ++ (jb_ID <$> l)) <$> db).
  { induction l as [|c l IH]; intros ids Hnd Hl; [simpl; by rewrite app_nil_r|]. rewrite fmap_cons in *. cbn [foldl].
    destruct (Hl c) as [Hc Hsup]; [by left|]. replace (supersede_one _ _ _ _) with (superseded_by keep now (ids ++ [jb_ID c]) <$> db).
    { replace (ids ++ jb_ID c :: (jb_ID <$> l))%list with ((ids ++ [jb_ID c]) ++ (jb_ID <$> l))%list in * by (by rewrite <-app_assoc).
      apply IH; [done|]. intros; apply Hl; by right. }
    apply supersedable_spec in Hsup as (Hq & _ & _ & Hk & _). unfold supersede_one, update_where. rewrite <-!list_fmap_compose.
    apply list_fmap_ext. intros _ i Hi%list_elem_of_lookup_2. unfold compose. symmetry. apply superseded_by_snoc; [done| |].
    - apply not_true_iff_false. rewrite mem_spec. intros Hin. apply NoDup_app in Hnd as (_ & Hd & _). apply (Hd _ Hin). by left.
    - intros E. by rewrite (table_ok_unique _ _ _ Hok Hi Hc E), queued_spec. }
  transitivity (foldl (supersede_one keep now) (superseded_by keep now [] <$> db) (List.filter (supersedable p keep) db)); [|apply (Hgen _ [])].
  - f_equal. rewrite <-(list_fmap_id db) at 1. apply list_fmap_ext. intros _ i _. unfold superseded_by. simpl. by destruct i as [? ? ? ? ? ? ? ? ? ? ? ? ? [] ?].
  - simpl. destruct (table_ok_filter (supersedable p keep) db Hok) as [Hs _]. induction Hs as [|a l Hs IH Ha]; [constructor|].
    rewrite fmap_cons. constructor; [|done]. intros (b & E & Hb)%list_elem_of_fmap. rewrite Forall_forall in Ha. specialize (Ha b Hb). unfold before in Ha. lia.
  - intros c. by apply filter_bool_elem.
Qed.

Lemma supersede_exact p keep now db i : table_ok db → i ∈ db → ∃ j, j ∈ supersedeDeferredSyncs db p keep now ∧ superseded_as p keep now db i j.
Proof.
  intros Hok Hi. rewrite supersede_by_ids by done. set (ids := jb_ID <$> _).
  assert (Hids : ∀ c, c ∈ ids ↔ ∃ k, k ∈ db ∧ superfluous p keep k ∧ c = jb_ID k).
  { intros c. unfold ids. rewrite list_elem_of_fmap. setoid_rewrite filter_bool_elem. setoid_rewrite supersedable_spec. naive_solver. }
  assert (Hself : jb_ID i ∈ ids ↔ superfluous p keep i).
  { rewrite Hids. split; [|by exists i]. intros (k & Hk & Hs & E). by rewrite (table_ok_unique _ _ _ Hok Hi Hk E). }
  exists (superseded_by keep now ids i). split; [by apply list_elem_of_fmap_2|]. unfold superseded_by. split.
  - intros Hs. rewrite (proj2 (mem_spec _ _)) by by apply Hself. exists (drop_job StatusCancelled (jb_Error i) now i). done.
  - intros Hn. assert (Hm : mem (jb_ID i) ids = false) by (apply not_true_iff_false; rewrite mem_spec; by rewrite Hself).
    rewrite Hm. split; [done|]. cbn [orb]. destruct (jb_SupersededBy i) as [c|] eqn:E; [|right; split; [by intros|by destruct i; simpl in *; subst]].
    destruct (mem c ids) eqn:Ec.
    + left. apply mem_spec, Hids in Ec as (k & Hk & Hs & ->). by exists k.
    + right. split; [|by destruct i; simpl in *; subst]. intros k Hk Hs [= ->]. apply not_true_iff_false in Ec. apply Ec, mem_spec, Hids. by exists k.
Qed.

(** Start-up recovery: a crashed job is tried again, or fails when it had its attempts. *)
Definition recovered_as (maxAttempts : Z) (now : time) (i j : Job) : Prop :=
  (jb_Status i ≠ StatusRunning → j = i) ∧
  (jb_Status i = StatusRunning → jb_Attempt i < maxAttempts → resumed_as 1 i j) ∧
  (jb_Status i = StatusRunning → maxAttempts ≤ jb_Attempt i → ended_as StatusFailed (Some (CrashedTimes (jb_Attempt i))) now i j).

(** Every transaction but the enqueue does its work, and nothing else. *)
Record transactions (maxAttempts : Z) (db : table) : Prop := {
  tx_start : ∀ id now, one_row id (λ i, jb_Status i = StatusQueued) (started_as now) db (markRunning db id now).1;
  tx_finish : ∀ id st err now, one_row id (λ i, jb_Status i = StatusRunning) (ended_as st err now) db (finishJob db id st err now).1;
  tx_requeue : ∀ id, one_row id (λ i, jb_Status i = StatusRunning) (resumed_as 0) db (requeue db id);
  tx_defer : ∀ id until, one_row id (λ i, jb_Status i = StatusRunning) (put_off_as db until) db (deferJob db id until).1;
  tx_drop : ∀ id st err now, one_row id (λ i, jb_Status i = StatusQueued) (ended_as st err now) db (finishQueued db id st err now).1;
  tx_plan : ∀ id at_, one_row id (λ _, True) (λ i j, jb_PlannedAt j = at_ ∧ with_planned (jb_PlannedAt i) j = i) db (set_planned db id at_);
  tx_recover : ∀ now, jb_ID <$> (recoverCrashed db maxAttempts now).1 = jb_ID <$> db ∧
    ∀ i, i ∈ db → ∃ j, j ∈ (recoverCrashed db maxAttempts now).1 ∧ recovered_as maxAttempts now i j;
  tx_supersede : ∀ p keep now, jb_ID <$> supersedeDeferredSyncs db p keep now = jb_ID <$> db ∧
    ∀ i, i ∈ db → ∃ j, j ∈ supersedeDeferredSyncs db p keep now ∧ superseded_as p keep now db i j;
  tx_prune : ∀ cutoff j, j ∈ PruneHistory db cutoff ↔ j ∈ db ∧ ¬ ∃ t, jb_FinishedAt j = Some t ∧ t < cutoff;
}.

Lemma start_as now i : row_ok i → queued i = true → started_as now i (start_job now i).
Proof.
  intros Hr Hq. destruct (queued_row i Hr Hq) as (_ & _ & Hn). unfold started_as, same_job. simpl.
  destruct (jb_StartedAt i); by split_and!.
Qed.
Lemma resumed_running i : row_ok i → running i = true → resumed_as 0 i (resume_job i).
Proof.
  intros Hr Hq. destruct (running_row i Hr Hq) as (_ & _ & _ & Hn & Hnb). unfold resumed_as. simpl. rewrite Hnb, Hn. split_and!; try done. lia.
Qed.

Lemma prunable_spec cutoff j : row_ok j → prunable cutoff j = true ↔ ∃ t, jb_FinishedAt j = Some t ∧ t < cutoff.
Proof.
  intros Hr. unfold prunable. destruct (jb_FinishedAt j) as [t|] eqn:E; [|rewrite andb_false_r; split; [done|by intros (? & ? & _)]].
  pose proof (proj1 (ro_finished _ Hr) ltac:(by rewrite E)) as Hf. unfold queued, running.
  destruct (jb_Status j); try done; simpl; rewrite Z.ltb_lt; naive_solver.
Qed.

Lemma transactions_work M db : table_ok db → transactions M db.
Proof.
  intros Hok. assert (Hrow : ∀ i, i ∈ db → row_ok i) by apply Hok. split.
  - intros id now. apply one_row_update; [done|apply queued_spec|]. intros i Hi _ Hq%queued_spec. by apply start_as; [apply Hrow|].
  - intros id st err now. apply one_row_update; [done|apply running_spec|]. intros i Hi _ Hq%running_spec.
    by destruct (running_row i (Hrow i Hi) Hq) as (_ & _ & _ & _ & Hnb).
  - intros id. apply one_row_update; [done|apply running_spec|]. intros i Hi _ Hq%running_spec. by apply resumed_running; [apply Hrow|].
  - intros id until. apply one_row_update; [done|apply running_spec|]. intros i Hi <- Hq%running_spec.
    destruct (running_row i (Hrow i Hi) Hq) as (_ & _ & _ & Hn & _). unfold put_off_as. simpl.
    split_and!; try done. apply defer_count, Hrow, Hi.
  - intros id st err now. by apply one_row_update; [|apply queued_spec|].
  - intros id at_. apply one_row_update; [done|done|]. intros i _ _ _. by destruct i.
  - intros now. split.
    + simpl. rewrite <-list_fmap_compose. apply list_fmap_ext. intros _ i _. unfold compose, recover_job. destruct (negb _); [done|by destruct (_ <? _)].
    + intros i Hi. exists (recover_job M now i). split; [by apply list_elem_of_fmap_2|]. unfold recover_job, recovered_as. rewrite <-running_spec.
      destruct (running i) eqn:Hq; [|done]. cbn [negb]. destruct (running_row i (Hrow i Hi) Hq) as (_ & _ & _ & Hn & Hnb).
      destruct (Z.ltb_spec M (jb_Attempt i + 1)); split_and!; try done; try lia; intros _ _; unfold resumed_as; simpl; by rewrite ?Hn, ?Hnb.
  - intros p keep now. split; [|intros i Hi; by apply supersede_exact].
    rewrite supersede_by_ids, <-list_fmap_compose by done. apply list_fmap_ext. intros _ i _. unfold compose, superseded_by. by destruct (mem _ _).
  - intros cutoff j. unfold PruneHistory. rewrite filter_bool_elem, negb_true_iff, <-not_true_iff_false.
    split; intros [Hj H]; (split; [done|]); by rewrite (prunable_spec cutoff j (Hrow j Hj)) in *.
Qed.

(** What may become of a finished job, and how a row disappears. *)
Definition finished_stays (db db' : table) (i : Job) : Prop :=
  i ∈ db' ∨ (∃ p keep now k, db' = supersedeDeferredSyncs db p keep now ∧ with_superseded k i ∈ db') ∨ (∃ at_, db' = set_planned db (jb_ID i) at_ ∧ with_planned at_ i ∈ db') ∨
  ∃ cutoff t, db' = PruneHistory db cutoff ∧ jb_FinishedAt i = Some t ∧ t < cutoff.
Definition row_stays (db db' : table) (i : Job) : Prop :=
  (∃ j, j ∈ db' ∧ jb_ID j = jb_ID i) ∨
  ∃ cutoff t, db' = PruneHistory db cutoff ∧ Final (jb_Status i) = true ∧ jb_FinishedAt i = Some t ∧ t < cutoff.

Lemma ids_stay db db' i : jb_ID <$> db' = jb_ID <$> db → i ∈ db → row_stays db db' i.
Proof.
  intros E Hi. left. assert (H : jb_ID i ∈ jb_ID <$> db') by (rewrite E; by apply list_elem_of_fmap_2).
  apply list_elem_of_fmap in H as (j & Hj & Hin). by exists j.
Qed.
Lemma one_row_final db db' id st (R : Job → Job → Prop) i : one_row id (λ i, jb_Status i = st) R db db' → Final st = false →
  i ∈ db → Final (jb_Status i) = true → finished_stays db db' i.
Proof.
  intros [_ _ Ho] Hst Hi Hf. left. apply Ho; [done|]. intros _ E. congruence.
Qed.

Lemma step_keeps M db db' i : table_ok db → db_step M db db' → i ∈ db → row_stays db db' i ∧ (Final (jb_Status i) = true → finished_stays db db' i).
Proof.
  intros Hok Hs Hi. destruct (transactions_work M db Hok) as [Hst Hfi Hre Hde Hdr Hpl Hrc Hsu Hpr].
  destruct Hs as [spec now db' j out Hc|id now|id j at_ Hj Hid Hsa|id st err now _|id|id st err now _|now|id until|p keep now|cutoff].
  - apply createJob_spec in Hc as (_ & Ha & _); [|done]. destruct (decide (jb_ID i = jb_ID j)) as [E|E].
    + split; [left; exists j; split; [apply (an_in _ _ _ _ _ _ Ha)|done]|]. destruct (an_same _ _ _ _ _ _ Ha i Hi E) as (Hj & _).
      pose proof (an_queued _ _ _ _ _ _ Ha) as Hq. rewrite Hj in Hq. cbn in Hq. by rewrite Hq.
    + apply (an_others _ _ _ _ _ _ Ha) in Hi as Hi'; [|done]. split; [left; by exists i|by left].
  - split; [apply ids_stay; [apply Hst|done]|by eapply one_row_final].
  - split; [apply ids_stay; [apply Hpl|done]|]. intros _. destruct (decide (jb_ID i = id)) as [<-|E].
    + do 2 right; left. exists at_. split; [done|]. apply update_where_elem. left. by exists i.
    + left. apply Hpl; [done|]. by intros.
  - split; [apply ids_stay; [apply Hfi|done]|by eapply one_row_final].
  - split; [apply ids_stay; [apply Hre|done]|by eapply one_row_final].
  - split; [apply ids_stay; [apply Hdr|done]|by eapply one_row_final].
  - destruct (Hrc now) as [He Hx]. split; [by apply ids_stay|]. intros Hf. destruct (Hx i Hi) as (j & Hj & H & _). left.
    rewrite <-H; [done|]. intros E. by rewrite E in Hf.
  - split; [apply ids_stay; [apply Hde|done]|by eapply one_row_final].
  - destruct (Hsu p keep now) as [He Hx]. split; [by apply ids_stay|]. intros Hf. destruct (Hx i Hi) as (j & Hj & _ & H). right; left. exists p, keep, now, (jb_SupersededBy j). split; [done|].
    destruct H as [<- _]; [|done]. intros (E & _). by rewrite E in Hf.
  - destruct (decide (prunable cutoff i = true)) as [Hp|Hp].
    + apply (prunable_spec cutoff i (to_rows _ Hok i Hi)) in Hp as (t & Ht & Hlt).
      pose proof (proj1 (ro_finished _ (to_rows _ Hok i Hi)) ltac:(by rewrite Ht)) as Hf.
      split; [right|do 3 right]; by exists cutoff, t.
    + rewrite (prunable_spec cutoff i (to_rows _ Hok i Hi)) in Hp. assert (Hin : i ∈ PruneHistory db cutoff) by (by apply Hpr).
      split; [left; by exists i|by left].
Qed.

(** C37: whatever the store did since the empty table, its rows are well-formed and
    no job has had more than the allowed number of attempts. In that table each
    transaction but the enqueue (C36) does exactly its move: the start, the end, the
    re-queueing, the deferral, the drop and the plan of the one job named change
    that job as stated and leave all other rows; recovery after a crash queues each
    running job for one more attempt or fails it when it had them all, so that none
    is left running; the superseded syncs are exactly the deferred ones the new sync
    covers. The next transaction, whichever it is, leaves the type, place and lock
    keys of every job as they were, changes the parameters only of a queued job that
    never started (which still does its work), counts an attempt only for a job that
    crashed, never lowers a count of deferrals and never forgets a start. A finished
    job is never touched, except to note which job superseded it and when its own
    runner stores or clears a plan; a row disappears only when its job finished
    before the cutoff of a pruning. *)
Theorem job_lifecycle (M : Z) (db : table) (HM : 1 ≤ M) (Hr : rtc (db_step M) [] db) :
  table_ok db ∧ (∀ j, j ∈ db → 1 ≤ jb_Attempt j ≤ M) ∧ transactions M db ∧
  (∀ db' i j, db_step M db db' → i ∈ db → j ∈ db' → jb_ID i = jb_ID j → evolves M i j) ∧
  (∀ db' i, db_step M db db' → i ∈ db → row_stays db db' i ∧ (Final (jb_Status i) = true → finished_stays db db' i)) ∧
  (∀ now j, j ∈ (recoverCrashed db M now).1 → jb_Status j ≠ StatusRunning).
Proof.
  destruct (reach_ok M db HM Hr) as [Hok Ha]. split_and!; [done| |by apply transactions_work| | |].
  - intros j Hj. split; [|by apply Ha]. by apply (to_rows _ Hok).
  - intros db' i j Hs. by apply (db_step_evolves M db).
  - intros db' i. by apply step_keeps.
  - intros now j (i & -> & Hi)%list_elem_of_fmap. unfold recover_job. destruct (running i) eqn:E; simpl.
    + by destruct (_ <? _).
    + intros H%running_spec. congruence.
Qed.

(** ** Frames: rows that stay, and transactions that leave the running rows running *)
Definition kept (db db' : table) : Prop := ∀ i, i ∈ db → ∃ j, j ∈ db' ∧ jb_ID j = jb_ID i.
Definition quiet (db db' : table) : Prop :=
  (∀ j, j ∈ db' → running j = true → ∃ i, i ∈ db ∧ running i = true ∧ jb_ID i = jb_ID j) ∧
  (∀ i, i ∈ db → running i = true → ∃ j, j ∈ db' ∧ running j = true ∧ jb_ID j = jb_ID i).

Lemma kept_fmap f db : (∀ i, jb_ID (f i) = jb_ID i) → kept db (f <$> db).
Proof. intros Hf i Hi. exists (f i). split; [|done]. by apply list_elem_of_fmap_2. Qed.
Lemma kept_update id cond f db : (∀ i, jb_ID (f i) = jb_ID i) → kept db (update_where id cond f db).
Proof. intros Hf. apply kept_fmap. intros i. by destruct (_ && _). Qed.

Lemma quiet_fmap f db : (∀ i, jb_ID (f i) = jb_ID i) → (∀ i, running (f i) = running i) → quiet db (f <$> db).
Proof.
  intros Hid Hr. split.
  - intros j (i & -> & Hi)%list_elem_of_fmap. rewrite Hr. exists i. by rewrite Hid.
  - intros i Hi Hri. exists (f i). rewrite Hr, Hid. split; [by apply list_elem_of_fmap_2|done].
Qed.
Lemma quiet_update id cond f db : (∀ i, jb_ID (f i) = jb_ID i) → (∀ i, cond i = true → running (f i) = running i) → quiet db (update_where id cond f db).
Proof. intros Hid Hr. apply quiet_fmap; intros i; destruct (_ && _) eqn:E; auto. apply andb_true_iff in E as [_ E]. auto. Qed.

Lemma queued_not_running i : queued i = true → running i = false.
Proof. intros Hq%queued_spec. unfold running. by rewrite Hq. Qed.

Lemma drop_quiet db id st err now : Final st = true → quiet db (finishQueued db id st err now).1.
Proof.
  intros Hst. apply quiet_update; [done|]. intros i Hq%queued_not_running. rewrite Hq. by destruct st.
Qed.
Lemma plan_quiet db id at_ : quiet db (set_planned db id at_).
Proof. by apply quiet_update. Qed.
Lemma supersede_quiet db p keep now : quiet db (supersedeDeferredSyncs db p keep now) ∧ kept db (supersedeDeferredSyncs db p keep now).
Proof.
  destruct (supersede_rows p keep now db) as (f & -> & Hf).
  assert (Hid : ∀ i, jb_ID (f i) = jb_ID i) by (intros i; by destruct (Hf i) as [[[_ ->]|[_ [->| ->]]] _]).
  split; [|by apply kept_fmap]. apply quiet_fmap; [done|]. intros i. unfold running. destruct (Hf i) as [[[_ ->]|[Hq [->| ->]]] _]; [done|done|].
  by rewrite Hq.
Qed.
Lemma prune_quiet db cutoff : quiet db (PruneHistory db cutoff).
Proof.
  split; [intros j [Hj _]%filter_bool_elem Hr; by exists j|]. intros i Hi Hr. exists i. split; [|done].
  apply filter_bool_elem. split; [done|]. unfold prunable. by rewrite Hr, andb_false_r.
Qed.
Lemma create_quiet db spec now db' j out : table_ok db → createJob db spec now = Ok (db', j, out) → quiet db db' ∧ kept db db'.
Proof.
  intros Hok Hc. apply createJob_spec in Hc as (Hok' & Ha & _); [|done].
  pose proof (an_in _ _ _ _ _ _ Ha) as Hj. assert (Hjr : running j = false).
  { apply queued_not_running, queued_spec, (an_queued _ _ _ _ _ _ Ha). }
  assert (Hsame : ∀ i, i ∈ db → jb_ID i = jb_ID j → running i = false).
  { intros i Hi E. destruct (an_same _ _ _ _ _ _ Ha i Hi E) as [H _]. by rewrite H in Hjr. }
  split; [split|].
  - intros k Hk Hr. destruct (decide (jb_ID k = jb_ID j)) as [E|E].
    + rewrite (table_ok_unique _ _ _ Hok' Hk Hj E) in Hr. congruence.
    + exists k. split; [by apply (an_others _ _ _ _ _ _ Ha)|done].
  - intros i Hi Hr. destruct (decide (jb_ID i = jb_ID j)) as [E|E]; [by rewrite Hsame in Hr|].
    exists i. split; [by apply (an_others _ _ _ _ _ _ Ha)|done].
  - intros i Hi. destruct (decide (jb_ID i = jb_ID j)) as [E|E]; [by exists j|]. exists i. split; [by apply (an_others _ _ _ _ _ _ Ha)|done].
Qed.

(** ** Examples *)
Definition no_params : Params := mkParams 0 [] 0 false [] [] false false 0 0 false false.
Definition sync_of (dest : Z) (source : Z) (paths : list string) : Params :=
  mkParams dest [source] 0 false paths [] false false 0 0 false false.
Definition webhook (p : Params) : Spec := mkSpec TypeSync (Some TriggerWebhook) false p.
Definition after (r : result param_error (table * Job * enqueueOutcome)) : table :=
  match r with Ok (db, _, _) => db | Err _ => [] end.
Definition sample_queue : table := after (createJob [] (webhook (sync_of 1 7 ["Show/Season 1"; "Heat (1995)"]%string)) 100).
Definition sample_job : Job := mkJob 1 TypeSync StatusQueued TriggerWebhook false (sync_of 1 7 ["Heat (1995)"; "Show/Season 1"]%string) 1 None 100
  None None None 0 None None.
(** The same job after a crash of its first run. *)
Definition sample_crashed : table := (recoverCrashed (markRunning sample_queue 1 200).1 3 300).1.

Lemma sample_queue_reached : rtc (db_step 3) [] sample_queue.
Proof.
  eapply rtc_l; [|apply rtc_refl]. apply (step_create 3 [] (webhook (sync_of 1 7 ["Show/Season 1"; "Heat (1995)"]%string)) 100 sample_queue sample_job outcomeCreated).
  vm_compute. reflexivity.
Qed.
Lemma sample_crashed_reached : rtc (db_step 3) [] sample_crashed.
Proof.
  transitivity sample_queue; [apply sample_queue_reached|]. eapply rtc_l; [apply (step_start 3 _ 1 200)|].
  eapply rtc_l; [apply (step_recover 3 _ 300)|]. apply rtc_refl.
Qed.

(** A second webhook is merged into the first one's job; once a sync crashed it has
    started, so the next request gets a job of its own. *)
Definition second_webhook : Spec := webhook (sync_of 1 7 ["Show"]%string).
Definition merged_queue : table := after (createJob sample_queue second_webhook 150).
Definition merged_job : Job := mkJob 1 TypeSync StatusQueued TriggerWebhook false (sync_of 1 7 ["Heat (1995)"; "Show"]%string) 1 None 100
  None None None 0 None None.

Example merged_sample : createJob sample_queue second_webhook 150 = Ok ([merged_job], merged_job, outcomeMerged).
Proof. vm_compute. reflexivity. Qed.
Example crashed_sample : jb_ID <$> after (createJob sample_crashed second_webhook 400) = [1; 2].
Proof. vm_compute. reflexivity. Qed.

Lemma enqueue_loses_nothing_witness :
  createJob sample_queue second_webhook 150 = Ok ([merged_job], merged_job, outcomeMerged) ∧
  table_ok [merged_job] ∧ answers sample_queue [merged_job] merged_job TypeSync (normalizeParams (sp_Params second_webhook)) false ∧
  (outcomeMerged = outcomeCreated ↔ [merged_job] = (sample_queue ++ [merged_job])%list).
Proof.
  assert (H : createJob sample_queue second_webhook 150 = Ok ([merged_job], merged_job, outcomeMerged)) by (vm_compute; reflexivity).
  split; [exact H|].
  exact (enqueue_loses_nothing sample_queue [merged_job] second_webhook 150 merged_job outcomeMerged
    (proj1 (reach_ok 3 _ ltac:(done) sample_queue_reached)) H).
Defined.

Lemma job_lifecycle_witness :
  rtc (db_step 3) [] sample_crashed ∧ jb_Attempt <$> sample_crashed = [2] ∧
  table_ok sample_crashed ∧ (∀ j, j ∈ sample_crashed → 1 ≤ jb_Attempt j ≤ 3) ∧ transactions 3 sample_crashed ∧
  (∀ db' i j, db_step 3 sample_crashed db' → i ∈ sample_crashed → j ∈ db' → jb_ID i = jb_ID j → evolves 3 i j) ∧
  (∀ db' i, db_step 3 sample_crashed db' → i ∈ sample_crashed →
     row_stays sample_crashed db' i ∧ (Final (jb_Status i) = true → finished_stays sample_crashed db' i)) ∧
  (∀ now j, j ∈ (recoverCrashed sample_crashed 3 now).1 → jb_Status j ≠ StatusRunning).
Proof.
  split; [exact sample_crashed_reached|]. split; [vm_compute; reflexivity|].
  exact (job_lifecycle 3 sample_crashed ltac:(lia) sample_crashed_reached).
Defined.
