(* ===== verification/JobManager.v ===== *)
(** * JobManager: the job manager ([internal/jobqueue/manager.go])

    The manager's state with the critical sections of its mutex as functions, and
    the interleavings of the dispatcher, the running jobs, the API and the scheduler
    as a step relation. A restart of the process is a step too. Times of the clock
    and the outcomes of runners are arbitrary. Errors of the database are left out,
    except that the start of a job may fail (at the end of a run, an error of the
    database would leave the row running with its keys freed), and so are logs,
    progress, hooks and simulated crashes. One assumption: history is pruned only of
    jobs that the dispatch pass under way did not read ([ms_prune]); it keeps days of
    history, a pass takes moments. *)
From stdpp Require Import base gmap list strings.
From Stdlib Require Import Lia.
From S2P Require Import Prelude GoStrings JobParams JobQueue.
Open Scope Z_scope.

Inductive cause := UserCancel | Shutdown.
(** How far the manager is with a job it has taken: its row is still queued, its
    runner runs, or its result is recorded and its keys are about to be freed. *)
Inductive stage := Taken | Executing | Recorded.
#[export] Instance cause_eq_dec : EqDecision cause.
Proof. solve_decision. Defined.
#[export] Instance stage_eq_dec : EqDecision stage.
Proof. solve_decision. Defined.

(** [activeJob] *)
Record activeJob := mkActive {
  aj_keys : list string;
  aj_slots : list string;
  aj_refresh : bool;
  aj_cause : option cause;
  aj_stage : stage;
}.

(** A dispatch pass: the rest of the queue it read, the job whose slots it looks up
    with the lock released, or the job it has taken and is about to start. The last
    component is the earliest [not_before] it skipped ([wakeAt]). *)
Inductive dispatch_pass :=
| PDone (wake : option time)
| PScan (now : time) (rest : list Job) (wake : option time)
| PSlots (now : time) (job : Job) (rest : list Job) (wake : option time)
| PMark (now : time) (job : Job) (rest : list Job) (wake : option time).

Record Manager := mkManager {
  mg_db : table;
  mg_started : bool;
  mg_workers : Z;
  mg_running : gmap Z activeJob;
  mg_keys : gmap string Z;
  mg_slots : gmap string Z;
  mg_holds : Z;
  mg_pass : dispatch_pass;
}.

Definition set_db (db : table) (m : Manager) : Manager :=
  mkManager db (mg_started m) (mg_workers m) (mg_running m) (mg_keys m) (mg_slots m) (mg_holds m) (mg_pass m).
Definition set_pass (p : dispatch_pass) (m : Manager) : Manager :=
  mkManager (mg_db m) (mg_started m) (mg_workers m) (mg_running m) (mg_keys m) (mg_slots m) (mg_holds m) p.
Definition set_running (r : gmap Z activeJob) (m : Manager) : Manager :=
  mkManager (mg_db m) (mg_started m) (mg_workers m) r (mg_keys m) (mg_slots m) (mg_holds m) (mg_pass m).
Definition set_resources (r : gmap Z activeJob) (keys : gmap string Z) (slots : gmap string Z) (m : Manager) : Manager :=
  mkManager (mg_db m) (mg_started m) (mg_workers m) r keys slots (mg_holds m) (mg_pass m).

(** A [SlotPool]; [sp_counts] is whether it has a [Needs] function. *)
Record SlotPool := mkPool { sl_name : string; sl_limit : Z; sl_counts : bool }.

Definition queuedScan : nat := 1000.
Definition DefaultWorkers : Z := 2.
Definition DefaultRefreshWorkers : Z := 2.
Definition DefaultMaxAttempts : Z := 3.

(** The sum of [f] over the running jobs. *)
Definition total (f : activeJob → Z) (r : gmap Z activeJob) : Z := map_fold (λ _ aj n, f aj + n) 0 r.
Definition is_refresh (aj : activeJob) : Z := if aj_refresh aj then 1 else 0.
Definition refreshes (m : Manager) : Z := total is_refresh (mg_running m).
Definition generals (m : Manager) : Z := Z.of_nat (size (mg_running m)) - refreshes m.

Definition earlier (w : option time) (t : time) : option time :=
  match w with Some w' => if t <? w' then Some t else Some w' | None => Some t end.
(** A deferred job whose [not_before] is in the future. *)
Definition waits (now : time) (j : Job) : option time :=
  match jb_NotBefore j with Some t => if now <? t then Some t else None | None => None end.

Section Manager.
(** The options of [New] and the registered runners. *)
Context (RefreshWorkers MaxAttempts : Z) (Slots : list SlotPool) (registered : job_type → bool).

(** [poolsFullLocked] *)
Definition poolsFull (m : Manager) (refresh : bool) : bool * bool :=
  let generalFull := mg_workers m <=? generals m in
  let refreshFull := RefreshWorkers <=? refreshes m in
  (generalFull && refreshFull, if refresh then refreshFull else generalFull).

Definition keysHeld (m : Manager) (keys : list string) : bool := existsb (λ k, bool_decide (is_Some (mg_keys m !! k))) keys.

Definition slots_used (m : Manager) (name : string) : Z := default 0 (mg_slots m !! name).
(** [slotsFreeLocked] *)
Definition slotsFree (m : Manager) (pools : list string) : bool :=
  forallb (λ name, forallb (λ p, negb (String.eqb (sl_name p) name && (sl_limit p <=? slots_used m name))) Slots) pools.

(** [slotsFor]; [needs] is the answer of each pool's [Needs], [None] an error. *)
Fixpoint slots_for (needs : string → Job → option bool) (pools : list SlotPool) (j : Job) : option (list string) :=
  match pools with
  | [] => Some []
  | p :: pools =>
      if negb (sl_counts p) then slots_for needs pools j
      else match needs (sl_name p) j with
           | None => None
           | Some need =>
               match slots_for needs pools j with
               | None => None
               | Some names => Some (if need then sl_name p :: names else names)
               end
           end
  end.
Definition slotsFor (needs : string → Job → option bool) (j : Job) : option (list string) := slots_for needs Slots j.

Definition in_running (m : Manager) (id : Z) : bool := bool_decide (is_Some (mg_running m !! id)).

(** ** The sections of [dispatch] *)
Definition begin_pass (now : time) (m : Manager) : Manager :=
  if fst (poolsFull m false) then set_pass (PDone None) m
  else set_pass (PScan now (queuedJobs (mg_db m) queuedScan) None) m.

Inductive verdict := VReturn | VSkip | VFail | VConsider.
Definition check_first (m : Manager) (j : Job) : verdict :=
  let '(all, own) := poolsFull m (refreshPool (jb_Type j)) in
  if all || negb (mg_started m) then VReturn
  else if in_running m (jb_ID j) || own then VSkip
  else if negb (registered (jb_Type j)) then VFail
  else if keysHeld m (LockKeys (jb_Type j) (jb_Params j)) then VSkip
  else VConsider.
(** The second look at the pools, keys and slots, once the lock is taken again. *)
Definition check_again (m : Manager) (j : Job) (slots : list string) : verdict :=
  let '(all, own) := poolsFull m (refreshPool (jb_Type j)) in
  if all || negb (mg_started m) then VReturn
  else if in_running m (jb_ID j) || own || keysHeld m (LockKeys (jb_Type j) (jb_Params j)) || negb (slotsFree m slots) then VSkip
  else VConsider.

Definition take_keys (id : Z) (keys : list string) (held : gmap string Z) : gmap string Z :=
  foldl (λ held k, <[k := id]> held) held keys.
Definition take_slots (slots : list string) (used : gmap string Z) : gmap string Z :=
  foldl (λ used p, <[p := default 0 (used !! p) + 1]> used) used slots.
Definition take_job (j : Job) (slots : list string) (m : Manager) : Manager :=
  let keys := LockKeys (jb_Type j) (jb_Params j) in
  set_resources (<[jb_ID j := mkActive keys slots (refreshPool (jb_Type j)) None Taken]> (mg_running m))
    (take_keys (jb_ID j) keys (mg_keys m)) (take_slots slots (mg_slots m)) m.

(** [forget] *)
Definition free_keys (id : Z) (keys : list string) (held : gmap string Z) : gmap string Z :=
  foldl (λ held k, if bool_decide (held !! k = Some id) then delete k held else held) held keys.
Definition free_slots (slots : list string) (used : gmap string Z) : gmap string Z :=
  foldl (λ used p, if 0 <? default 0 (used !! p) then <[p := default 0 (used !! p) - 1]> used else used) used slots.
Definition forget (id : Z) (m : Manager) : Manager :=
  match mg_running m !! id with
  | None => m
  | Some aj => set_resources (delete id (mg_running m)) (free_keys id (aj_keys aj) (mg_keys m)) (free_slots (aj_slots aj) (mg_slots m)) m
  end.

Definition set_stage (s : stage) (aj : activeJob) : activeJob :=
  mkActive (aj_keys aj) (aj_slots aj) (aj_refresh aj) (aj_cause aj) s.

(** One section of the pass. The error of a job type without a runner names the type. *)
Definition no_runner : option job_error := Some (ErrorText "no runner is registered for job type").
Definition advance (needs : string → Job → option bool) (m : Manager) : Manager :=
  match mg_pass m with
  | PDone _ => m
  | PScan now [] w => set_pass (PDone w) m
  | PScan now (j :: rest) w =>
      match waits now j with
      | Some t => set_pass (PScan now rest (earlier w t)) m
      | None =>
          match check_first m j with
          | VReturn => set_pass (PDone w) m
          | VSkip => set_pass (PScan now rest w) m
          | VFail => set_pass (PScan now rest w) (set_db (finishQueued (mg_db m) (jb_ID j) StatusFailed no_runner now).1 m)
          | VConsider => set_pass (PSlots now j rest w) m
          end
      end
  | PSlots now j rest w =>
      match slotsFor needs j with
      | None => set_pass (PScan now rest w) m
      | Some slots =>
          match check_again m j slots with
          | VReturn => set_pass (PDone w) m
          | VConsider => set_pass (PMark now j rest w) (take_job j slots m)
          | _ => set_pass (PScan now rest w) m
          end
      end
  | PMark now j rest w =>
      match markRunning (mg_db m) (jb_ID j) now with
      | (_, None) => set_pass (PScan now rest w) (forget (jb_ID j) m)
      | (db, Some _) =>
          set_pass (PScan now rest w)
            (set_running (alter (set_stage Executing) (jb_ID j) (mg_running m)) (set_db db m))
      end
  end.

(** The sections a pass has left at most. *)
Definition pass_fuel (p : dispatch_pass) : nat :=
  match p with
  | PDone _ => 0
  | PScan _ rest _ => S (3 * length rest)
  | PSlots _ _ rest _ => 3 + 3 * length rest
  | PMark _ _ rest _ => 2 + 3 * length rest
  end.
(** A whole pass that nothing interrupts. *)
Definition dispatch (needs : string → Job → option bool) (now : time) (m : Manager) : Manager :=
  let m := begin_pass now m in Nat.iter (pass_fuel (mg_pass m)) (advance needs) m.

(** ** [finish]: what the outcome of a runner means *)
Inductive run_error := RDeferred (until : option time) | RError (text : string).
Inductive outcome := Panicked (text : string) | Returned (err : option run_error) (warnings : Z).
Inductive decision := DFinal (st : job_status) (err : option job_error) | DDefer (until : time) | DRequeue.

Definition errNoResumeTime : string := "deferred without a time to resume".
Definition decide_outcome (c : option cause) (now : time) (o : outcome) : decision :=
  match o with
  | Panicked text => DFinal StatusFailed (Some (ErrorText ("runner panicked: " +:+ text)))
  | Returned None warnings => DFinal (if 0 <? warnings then StatusCompletedWithWarnings else StatusCompleted) None
  | Returned (Some e) _ =>
      if bool_decide (c = Some UserCancel) then DFinal StatusCancelled None
      else match e with
           | RDeferred (Some until) => if now <? until then DDefer until else DFinal StatusFailed (Some (ErrorText errNoResumeTime))
           | RDeferred None => DFinal StatusFailed (Some (ErrorText errNoResumeTime))
           | RError text =>
               if bool_decide (c = Some Shutdown) then DRequeue else DFinal StatusFailed (Some (ErrorText text))
           end
  end.

Definition record_decision (db : table) (id : Z) (now : time) (d : decision) : table :=
  match d with
  | DFinal st err => (finishJob db id st err now).1
  | DDefer until => (deferJob db id until).1
  | DRequeue => requeue db id
  end.
(** The transaction at the end of [finish], [deferJob] or [requeueInterrupted]. *)
Definition finish_job (id : Z) (now : time) (o : outcome) (m : Manager) : Manager :=
  match mg_running m !! id with
  | Some aj =>
      set_running (<[id := set_stage Recorded aj]> (mg_running m))
        (set_db (record_decision (mg_db m) id now (decide_outcome (aj_cause aj) now o)) m)
  | None => m
  end.

(** ** The API, shutdown and start *)
(** The first cause of a context stays. *)
Definition with_cause (c : cause) (aj : activeJob) : activeJob :=
  mkActive (aj_keys aj) (aj_slots aj) (aj_refresh aj) (Some (default c (aj_cause aj))) (aj_stage aj).
Definition cancelRunning (id : Z) (m : Manager) : Manager * bool :=
  (set_running (alter (with_cause UserCancel) id (mg_running m)) m, in_running m id).
Definition Cancel (id : Z) (now : time) (m : Manager) : Manager * bool :=
  match cancelRunning id m with
  | (m, true) => (m, true)
  | (_, false) => let '(db, ok) := JobQueue.cancelQueued (mg_db m) id now in (set_db db m, ok)
  end.

Definition SetWorkers (n : Z) (m : Manager) : Manager :=
  mkManager (mg_db m) (mg_started m) (Z.max n 1) (mg_running m) (mg_keys m) (mg_slots m) (mg_holds m) (mg_pass m).

(** [HoldKeys] and the release it returns. *)
Definition HoldKeys (keys : list string) (m : Manager) : option (Manager * Z) :=
  if keysHeld m keys then None
  else
    let id := mg_holds m - 1 in
    Some (mkManager (mg_db m) (mg_started m) (mg_workers m) (mg_running m) (take_keys id keys (mg_keys m)) (mg_slots m) id (mg_pass m), id).
Definition release_hold (id : Z) (keys : list string) (m : Manager) : Manager :=
  set_resources (mg_running m) (free_keys id keys (mg_keys m)) (mg_slots m) m.

(** [Stop]: no more dispatching; the running jobs are cancelled; the stragglers are
    re-queued and forgotten. *)
Definition stop_dispatch (m : Manager) : Manager :=
  mkManager (mg_db m) false (mg_workers m) (mg_running m) (mg_keys m) (mg_slots m) (mg_holds m) (mg_pass m).
Definition interrupt_jobs (m : Manager) : Manager := set_running (with_cause Shutdown <$> mg_running m) m.
Definition abandon (id : Z) (m : Manager) : Manager := forget id (set_db (requeue (mg_db m) id) m).

(** [New] and [Start] *)
Definition start_manager (workers : Z) (db : table) (now : time) : Manager :=
  mkManager (recoverCrashed db MaxAttempts now).1 true (if workers <? 1 then DefaultWorkers else workers) ∅ ∅ ∅ 0 (PDone None).

(** ** The interleavings *)
Definition pass_jobs (p : dispatch_pass) : list Job :=
  match p with
  | PDone _ => []
  | PScan _ rest _ => rest
  | PSlots _ j rest _ | PMark _ j rest _ => j :: rest
  end.

Inductive mstep (m : Manager) : Manager → Prop :=
(** The API, the scheduler and the runners. History is pruned of jobs that finished
    long before the dispatch pass under way read the queue. *)
| ms_enqueue spec now db j out : createJob (mg_db m) spec now = Ok (db, j, out) → mstep m (set_db db m)
| ms_cancel_queued id now : mstep m (set_db (JobQueue.cancelQueued (mg_db m) id now).1 m)
| ms_cancel_running id : mstep m (cancelRunning id m).1
| ms_plan id j at_ : j ∈ mg_db m → jb_ID j = id → jb_StartedAt j ≠ None → mstep m (set_db (set_planned (mg_db m) id at_) m)
| ms_supersede p keep now : mstep m (set_db (supersedeDeferredSyncs (mg_db m) p keep now) m)
| ms_prune cutoff : (∀ s j, s ∈ pass_jobs (mg_pass m) → j ∈ mg_db m → jb_ID j = jb_ID s → prunable cutoff j = false) →
    mstep m (set_db (PruneHistory (mg_db m) cutoff) m)
| ms_workers n : mstep m (SetWorkers n m)
| ms_hold keys m' id : HoldKeys keys m = Some (m', id) → mstep m m'
| ms_release_hold id keys : id < 0 → mstep m (release_hold id keys m)
(** The dispatcher. *)
| ms_begin now w : mg_pass m = PDone w → mstep m (begin_pass now m)
| ms_advance needs : mstep m (advance needs m)
| ms_start_fails now j rest w : mg_pass m = PMark now j rest w → mstep m (set_pass (PDone w) (forget (jb_ID j) m))
| ms_pass_ends now rest w : mg_pass m = PScan now rest w → mg_started m = false → mstep m (set_pass (PDone w) m)
(** The jobs. *)
| ms_finish id aj now o : mg_running m !! id = Some aj → aj_stage aj = Executing → mstep m (finish_job id now o m)
| ms_release id aj : mg_running m !! id = Some aj → aj_stage aj = Recorded → mstep m (forget id m)
(** Shutdown and restart. *)
| ms_stop : mstep m (stop_dispatch m)
| ms_interrupt : mg_started m = false → mstep m (interrupt_jobs m)
| ms_abandon id aj w : mg_started m = false → mg_pass m = PDone w → mg_running m !! id = Some aj → aj_stage aj = Executing → mstep m (abandon id m)
| ms_restart workers now : mstep m (start_manager workers (mg_db m) now).
End Manager.

(** ** Totals *)
Lemma total_insert f r id aj : r !! id = None → total f (<[id := aj]> r) = f aj + total f r.
Proof. intros H. unfold total. rewrite map_fold_insert_L; [done|intros; lia|done]. Qed.
Lemma total_delete f r id aj : r !! id = Some aj → total f r = f aj + total f (delete id r).
Proof. intros H. unfold total. rewrite (map_fold_delete_L _ _ id aj r); [done|intros; lia|done]. Qed.
Lemma total_update f r id aj aj' : r !! id = Some aj → f aj' = f aj → total f (<[id := aj']> r) = total f r.
Proof.
  intros H Hf. rewrite <-insert_delete_eq, total_insert by apply lookup_delete_eq. rewrite (total_delete f r id aj H). lia.
Qed.
Lemma total_fmap f g r : (∀ aj, f (g aj) = f aj) → total f (g <$> r) = total f r.
Proof.
  intros H. induction r as [|id aj r Hn IH] using map_ind; [done|]. rewrite fmap_insert, !total_insert; [by rewrite H, IH|done|].
  by rewrite lookup_fmap, Hn.
Qed.
Lemma total_nonneg f r : (∀ aj, 0 ≤ f aj) → 0 ≤ total f r.
Proof.
  intros H. induction r as [|id aj r Hn IH] using map_ind; [done|]. rewrite total_insert by done. specialize (H aj). lia.
Qed.

(** ** Keys *)
Lemma take_keys_lookup id ks held k : take_keys id ks held !! k = if mem k ks then Some id else held !! k.
Proof.
  revert held. induction ks as [|a ks IH]; intros held; [done|]. cbn [take_keys foldl]. fold (take_keys id ks (<[a := id]> held)).
  rewrite IH. destruct (mem k ks) eqn:E.
  - replace (mem k (a :: ks)) with true; [done|]. symmetry. apply mem_spec. right. by apply mem_spec.
  - destruct (decide (k = a)) as [->|Hne].
    + rewrite lookup_insert_eq. replace (mem a (a :: ks)) with true; [done|]. symmetry. apply mem_spec. by left.
    + rewrite lookup_insert_ne by done. replace (mem k (a :: ks)) with false; [done|]. symmetry. apply not_true_iff_false.
      rewrite mem_spec, elem_of_cons. intros [?|H%mem_spec]; [done|congruence].
Qed.

Lemma free_keys_lookup id ks held k : free_keys id ks held !! k = if bool_decide (held !! k = Some id) && mem k ks then None else held !! k.
Proof.
  revert held. induction ks as [|a ks IH]; intros held; [by rewrite andb_false_r|]. cbn [free_keys foldl].
  fold (free_keys id ks (if bool_decide (held !! a = Some id) then delete a held else held)). rewrite IH.
  assert (Hm : mem k (a :: ks) = bool_decide (k = a) || mem k ks).
  { apply eq_true_iff_eq. rewrite orb_true_iff, !mem_spec, bool_decide_eq_true, elem_of_cons. done. }
  rewrite Hm. clear Hm IH. destruct (decide (k = a)) as [->|Hne].
  - rewrite (bool_decide_eq_true_2 (a = a)) by done. cbn [orb]. rewrite andb_true_r. destruct (bool_decide (held !! a = Some id)) eqn:E.
    + by rewrite lookup_delete_eq, (bool_decide_eq_false_2 (None = Some id)) by done.
    + by rewrite E.
  - rewrite (bool_decide_eq_false_2 (k = a)) by done. destruct (bool_decide (held !! a = Some id)); [by rewrite lookup_delete_ne|done].
Qed.

(** ** Slots *)
Definition occurs (p : string) (l : list string) : Z := Z.of_nat (length (List.filter (String.eqb p) l)).
Lemma occurs_cons p a l : occurs p (a :: l) = (if String.eqb p a then 1 else 0) + occurs p l.
Proof. unfold occurs. simpl. destruct (String.eqb p a); cbn [length]; lia. Qed.
Lemma occurs_nonneg p l : 0 ≤ occurs p l.
Proof. unfold occurs. lia. Qed.

Lemma take_slots_lookup l used p : default 0 (take_slots l used !! p) = default 0 (used !! p) + occurs p l.
Proof.
  revert used. induction l as [|a l IH]; intros used; [by rewrite Z.add_0_r|]. cbn [take_slots foldl].
  fold (take_slots l (<[a := default 0 (used !! a) + 1]> used)). rewrite IH, occurs_cons. destruct (String.eqb_spec p a) as [->|Hne].
  - rewrite lookup_insert_eq. cbn [default from_option id]. lia.
  - rewrite lookup_insert_ne by done. lia.
Qed.
Lemma free_slots_lookup l used p : (∀ q, occurs q l ≤ default 0 (used !! q)) → default 0 (free_slots l used !! p) = default 0 (used !! p) - occurs p l.
Proof.
  revert used. induction l as [|a l IH]; intros used H; [by rewrite Z.sub_0_r|]. cbn [free_slots foldl].
  pose proof (H a) as Ha. rewrite occurs_cons, String.eqb_refl in Ha. pose proof (occurs_nonneg a l).
  destruct (Z.ltb_spec 0 (default 0 (used !! a))); [|lia].
  fold (free_slots l (<[a := default 0 (used !! a) - 1]> used)). rewrite IH, occurs_cons.
  - destruct (String.eqb_spec p a) as [->|Hne].
    + rewrite lookup_insert_eq. cbn [default from_option id]. lia.
    + rewrite lookup_insert_ne by done. lia.
  - intros q. specialize (H q). rewrite occurs_cons in H. destruct (decide (q = a)) as [E|Hne].
    + subst q. rewrite String.eqb_refl in H. rewrite lookup_insert_eq. cbn [default from_option id]. lia.
    + rewrite (proj2 (String.eqb_neq q a) Hne) in H. rewrite lookup_insert_ne by done. lia.
Qed.

Lemma alter_insert_some (g : activeJob → activeJob) (id : Z) (r : gmap Z activeJob) aj : r !! id = Some aj → alter g id r = <[id := g aj]> r.
Proof.
  intros E. apply map_eq. intros i. destruct (decide (i = id)) as [->|Hne]; [by rewrite lookup_alter_eq, lookup_insert_eq, E|].
  by rewrite lookup_alter_ne, lookup_insert_ne.
Qed.
Lemma alter_none (g : activeJob → activeJob) (id : Z) (r : gmap Z activeJob) : r !! id = None → alter g id r = r.
Proof.
  intros E. apply map_eq. intros i. destruct (decide (i = id)) as [->|Hne]; [by rewrite lookup_alter_eq, E|by rewrite lookup_alter_ne].
Qed.

(** ** The invariant, by component *)

(** Who holds which key: a job of this manager, or a caller of [HoldKeys] (a negative id). *)
Record keys_ok (r : gmap Z activeJob) (keys : gmap string Z) (holds : Z) : Prop := {
  ko_ids : ∀ id aj, r !! id = Some aj → 0 < id;
  ko_held : ∀ id aj k, r !! id = Some aj → k ∈ aj_keys aj → keys !! k = Some id;
  ko_owner : ∀ k id, keys !! k = Some id → id < 0 ∨ ∃ aj, r !! id = Some aj ∧ k ∈ aj_keys aj;
  ko_holds : holds ≤ 0;
}.
Definition slots_ok (r : gmap Z activeJob) (slots : gmap string Z) : Prop :=
  ∀ p, default 0 (slots !! p) = total (λ aj, occurs p (aj_slots aj)) r.
(** A running row is the row of a job this manager executes, which holds its keys. *)
Definition serves (j : Job) (aj : activeJob) : Prop :=
  aj_keys aj = LockKeys (jb_Type j) (jb_Params j) ∧ aj_refresh aj = refreshPool (jb_Type j).
Record rows_ok (db : table) (r : gmap Z activeJob) : Prop := {
  rk_row : ∀ j, j ∈ db → running j = true → ∃ aj, r !! jb_ID j = Some aj ∧ aj_stage aj = Executing ∧ serves j aj;
  rk_job : ∀ id aj, r !! id = Some aj → aj_stage aj = Executing → ∃ j, j ∈ db ∧ jb_ID j = id ∧ running j = true;
}.
(** The jobs of the queue a pass has read are still in the table, with the same keys. *)
Definition snap_ok (db : table) (s : Job) : Prop :=
  ∃ j, j ∈ db ∧ jb_ID j = jb_ID s ∧ jb_Type j = jb_Type s ∧ LockKeys (jb_Type j) (jb_Params j) = LockKeys (jb_Type s) (jb_Params s).
Record pass_ok (db : table) (r : gmap Z activeJob) (p : dispatch_pass) : Prop := {
  po_snap : ∀ s, s ∈ pass_jobs p → snap_ok db s;
  po_taken : ∀ id aj, r !! id = Some aj → aj_stage aj = Taken → ∃ now j rest w, p = PMark now j rest w ∧ jb_ID j = id;
  po_mark : ∀ now j rest w, p = PMark now j rest w → ∃ aj, r !! jb_ID j = Some aj ∧ aj_stage aj = Taken ∧ serves j aj;
}.

Lemma snap_evolves M db db' s : table_evolves M db db' → kept db db' → snap_ok db s → snap_ok db' s.
Proof.
  intros (_ & He & _) Hk (j & Hj & Hid & Ht & Hl). destruct (Hk j Hj) as (j' & Hj' & E). exists j'.
  destruct (He j j' Hj Hj' ltac:(done)) as [(_ & Ht' & _) _ Hl' _ _ _]. split_and!; congruence.
Qed.

(** Transactions that do not concern the running jobs. *)
Lemma rows_quiet M db db' r : table_evolves M db db' → quiet db db' → rows_ok db r → rows_ok db' r.
Proof.
  intros (Hok & He & _) [Hq1 Hq2] [Hr1 Hr2]. split.
  - intros j Hj Hr. destruct (Hq1 j Hj Hr) as (i & Hi & Hri & E). destruct (Hr1 i Hi Hri) as (aj & Ha & Hs & Hk & Hf).
    destruct (He i j Hi Hj E) as [(_ & Ht & _) _ Hl _ _ _]. exists aj. rewrite <-E. split_and!; [done|done|]. split; congruence.
  - intros id aj Ha Hs. destruct (Hr2 id aj Ha Hs) as (i & Hi & E & Hri). destruct (Hq2 i Hi Hri) as (j & Hj & Hr & E').
    exists j. split_and!; [done|congruence|done].
Qed.
Lemma pass_kept M db db' r p : table_evolves M db db' → kept db db' → pass_ok db r p → pass_ok db' r p.
Proof. intros He Hk [H1 H2 H3]. split; [|done|done]. intros s Hs. eapply snap_evolves; eauto. Qed.

(** Changes of the causes only. *)
Definition same_job (aj aj' : activeJob) : Prop :=
  aj_keys aj' = aj_keys aj ∧ aj_slots aj' = aj_slots aj ∧ aj_refresh aj' = aj_refresh aj ∧ aj_stage aj' = aj_stage aj.
Definition same_jobs (r r' : gmap Z activeJob) : Prop :=
  ∀ id, match r !! id, r' !! id with Some aj, Some aj' => same_job aj aj' | None, None => True | _, _ => False end.
Lemma same_jobs_some r r' id aj' : same_jobs r r' → r' !! id = Some aj' → ∃ aj, r !! id = Some aj ∧ same_job aj aj'.
Proof. intros H E. specialize (H id). rewrite E in H. destruct (r !! id) as [aj|]; [by exists aj|done]. Qed.
Lemma same_jobs_some' r r' id aj : same_jobs r r' → r !! id = Some aj → ∃ aj', r' !! id = Some aj' ∧ same_job aj aj'.
Proof. intros H E. specialize (H id). rewrite E in H. destruct (r' !! id) as [aj'|]; [by exists aj'|done]. Qed.
Lemma serves_same j aj aj' : same_job aj aj' → serves j aj → serves j aj'.
Proof. intros (? & ? & ? & ?) [? ?]. split; congruence. Qed.

Lemma same_keys_ok r r' keys holds : same_jobs r r' → keys_ok r keys holds → keys_ok r' keys holds.
Proof.
  intros Hs [H1 H2 H3 H4]. split; [| | |done].
  - intros id aj' E. destruct (same_jobs_some _ _ _ _ Hs E) as (aj & Ha & _). eauto.
  - intros id aj' k E Hk. destruct (same_jobs_some _ _ _ _ Hs E) as (aj & Ha & Hsame & _). rewrite Hsame in Hk. eauto.
  - intros k id E. destruct (H3 k id E) as [?|(aj & Ha & Hk)]; [by left|right].
    destruct (same_jobs_some' _ _ _ _ Hs Ha) as (aj' & Ha' & Hsame & _). exists aj'. by rewrite Hsame.
Qed.
Lemma same_rows_ok db r r' : same_jobs r r' → rows_ok db r → rows_ok db r'.
Proof.
  intros Hs [H1 H2]. split.
  - intros j Hj Hr. destruct (H1 j Hj Hr) as (aj & Ha & Hst & Hse). destruct (same_jobs_some' _ _ _ _ Hs Ha) as (aj' & Ha' & Hsame).
    exists aj'. split_and!; [done| |by eapply serves_same]. destruct Hsame as (_ & _ & _ & ->). done.
  - intros id aj' E Hst. destruct (same_jobs_some _ _ _ _ Hs E) as (aj & Ha & Hsame). apply (H2 id aj Ha).
    destruct Hsame as (_ & _ & _ & Hs'). congruence.
Qed.
Lemma same_pass_ok db r r' p : same_jobs r r' → pass_ok db r p → pass_ok db r' p.
Proof.
  intros Hs [H1 H2 H3]. split; [done| |].
  - intros id aj' E Hst. destruct (same_jobs_some _ _ _ _ Hs E) as (aj & Ha & Hsame). apply (H2 id aj Ha).
    destruct Hsame as (_ & _ & _ & Hs'). congruence.
  - intros now j rest w E. destruct (H3 now j rest w E) as (aj & Ha & Hst & Hse).
    destruct (same_jobs_some' _ _ _ _ Hs Ha) as (aj' & Ha' & Hsame). exists aj'.
    split_and!; [done| |by eapply serves_same]. destruct Hsame as (_ & _ & _ & ->). done.
Qed.

Lemma total_same f r r' : (∀ aj aj', same_job aj aj' → f aj' = f aj) → same_jobs r r' → total f r' = total f r.
Proof.
  intros Hf. revert r'. induction r as [|id aj r Hn IH] using map_ind; intros r' Hs.
  - replace r' with (∅ : gmap Z activeJob); [done|]. symmetry. apply map_empty. intros id. specialize (Hs id).
    rewrite lookup_empty in Hs. by destruct (r' !! id).
  - destruct (same_jobs_some' _ _ id aj Hs) as (aj' & Ha' & Hsame); [apply lookup_insert_eq|].
    rewrite total_insert by done. rewrite (total_delete f r' id aj' Ha'), (Hf _ _ Hsame). f_equal. apply IH. intros k. specialize (Hs k).
    destruct (decide (k = id)) as [->|Hne]; [by rewrite Hn, lookup_delete_eq|].
    by rewrite lookup_insert_ne in Hs by done; rewrite lookup_delete_ne by done.
Qed.
Lemma size_total r : Z.of_nat (size r) = total (λ _, 1) r.
Proof.
  induction r as [|id aj r Hn IH] using map_ind; [done|]. rewrite map_size_insert_None, total_insert by done. lia.
Qed.
Lemma same_generals r r' : same_jobs r r' → Z.of_nat (size r') = Z.of_nat (size r) ∧ total is_refresh r' = total is_refresh r.
Proof.
  intros Hs. rewrite !size_total. split; apply total_same; try done. intros aj aj' (_ & _ & H & _). unfold is_refresh. by rewrite H.
Qed.
Lemma same_slots_ok r r' slots : same_jobs r r' → slots_ok r slots → slots_ok r' slots.
Proof.
  intros Hs H p. rewrite H. symmetry. apply total_same; [|done]. intros aj aj' (_ & Hl & _). by rewrite Hl.
Qed.

Lemma same_jobs_refl r : same_jobs r r.
Proof. intros id. by destruct (r !! id). Qed.
Lemma same_jobs_alter g id r : (∀ aj, same_job aj (g aj)) → same_jobs r (alter g id r).
Proof.
  intros Hg k. destruct (decide (k = id)) as [->|Hne].
  - rewrite lookup_alter_eq. destruct (r !! id); [apply Hg|done].
  - rewrite lookup_alter_ne by done. apply same_jobs_refl.
Qed.
Lemma same_jobs_fmap g r : (∀ aj, same_job aj (g aj)) → same_jobs r (g <$> r).
Proof. intros Hg k. rewrite lookup_fmap. destruct (r !! k); [apply Hg|done]. Qed.

Lemma is_refresh_bounds aj : 0 ≤ is_refresh aj ≤ 1.
Proof. unfold is_refresh. destruct (aj_refresh aj); lia. Qed.

(** ** Taking and forgetting a job *)
Section Take.
Variables (db : table) (r : gmap Z activeJob) (keys slots : gmap string Z) (holds : Z) (id : Z) (aj : activeJob).

Lemma keys_take : keys_ok r keys holds → r !! id = None → 0 < id → (∀ k, k ∈ aj_keys aj → keys !! k = None) →
  keys_ok (<[id := aj]> r) (take_keys id (aj_keys aj) keys) holds.
Proof.
  intros [H1 H2 H3 H4] Hn Hpos Hfree. split; [| | |done].
  - intros i a [[<- <-]|[_ E]]%lookup_insert_Some; [done|by eapply H1].
  - intros i a k E Hk. rewrite take_keys_lookup. apply lookup_insert_Some in E as [[<- <-]|[_ E]].
    + by rewrite (proj2 (mem_spec k (aj_keys aj)) Hk).
    + destruct (mem k (aj_keys aj)) eqn:Em; [|by eapply H2]. apply mem_spec, Hfree in Em. rewrite (H2 i a k E Hk) in Em. done.
  - intros k i. rewrite take_keys_lookup. destruct (mem k (aj_keys aj)) eqn:Em.
    + intros [= <-]. right. exists aj. rewrite lookup_insert_eq. split; [done|]. by apply mem_spec.
    + intros E. destruct (H3 k i E) as [?|(a & Ha & Hk)]; [by left|right]. exists a. split; [|done].
      rewrite lookup_insert_ne; [done|]. intros <-. congruence.
Qed.

Lemma slots_take : slots_ok r slots → r !! id = None → slots_ok (<[id := aj]> r) (take_slots (aj_slots aj) slots).
Proof. intros H Hn p. rewrite take_slots_lookup, total_insert, H by done. lia. Qed.

Lemma rows_take : rows_ok db r → r !! id = None → aj_stage aj ≠ Executing → rows_ok db (<[id := aj]> r).
Proof.
  intros [H1 H2] Hn Hs. split.
  - intros j Hj Hr. destruct (H1 j Hj Hr) as (a & Ha & Hrest). exists a. split; [|done]. rewrite lookup_insert_ne; [done|]. intros E. congruence.
  - intros i a [[_ <-]|[_ E]]%lookup_insert_Some Ha; [done|by eapply H2].
Qed.

Hypothesis Hid : r !! id = Some aj.

Lemma keys_forget : keys_ok r keys holds → keys_ok (delete id r) (free_keys id (aj_keys aj) keys) holds.
Proof.
  intros [H1 H2 H3 H4]. split; [| | |done].
  - intros i a [_ E]%lookup_delete_Some. by eapply H1.
  - intros i a k [Hne E]%lookup_delete_Some Hk. rewrite free_keys_lookup, (H2 i a k E Hk).
    rewrite (bool_decide_eq_false_2 (Some i = Some id)); [done|]. by intros [= ->].
  - intros k i. rewrite free_keys_lookup. destruct (bool_decide (keys !! k = Some id) && mem k (aj_keys aj)) eqn:E; [done|].
    intros Ek. destruct (H3 k i Ek) as [?|(a & Ha & Hk)]; [by left|right]. exists a. split; [|done].
    rewrite lookup_delete_ne; [done|]. intros <-. rewrite Ha in Hid. injection Hid as ->.
    rewrite (bool_decide_eq_true_2 _ Ek), (proj2 (mem_spec k (aj_keys aj)) Hk) in E. done.
Qed.

Lemma slots_bound p : slots_ok r slots → occurs p (aj_slots aj) ≤ default 0 (slots !! p).
Proof.
  intros H. rewrite H, (total_delete _ r id aj Hid). pose proof (total_nonneg (λ a, occurs p (aj_slots a)) (delete id r) (λ a, occurs_nonneg p _)). lia.
Qed.
Lemma slots_forget : slots_ok r slots → slots_ok (delete id r) (free_slots (aj_slots aj) slots).
Proof.
  intros H p. rewrite free_slots_lookup by (intros q; by apply slots_bound). rewrite H, (total_delete _ r id aj Hid). lia.
Qed.

Lemma rows_forget : rows_ok db r → (∀ j, j ∈ db → jb_ID j = id → running j = false) → rows_ok db (delete id r).
Proof.
  intros [H1 H2] Hn. split.
  - intros j Hj Hr. destruct (H1 j Hj Hr) as (a & Ha & Hrest). exists a. split; [|done]. rewrite lookup_delete_ne; [done|].
    intros E. by rewrite (Hn j Hj (eq_sym E)) in Hr.
  - intros i a [_ E]%lookup_delete_Some Ha. by eapply H2.
Qed.

Lemma stage_keys_ok s : keys_ok r keys holds → keys_ok (<[id := set_stage s aj]> r) keys holds.
Proof.
  intros [H1 H2 H3 H4]. split; [| | |done].
  - intros i a [[<- <-]|[_ E]]%lookup_insert_Some; by eapply H1.
  - intros i a k [[<- <-]|[_ E]]%lookup_insert_Some Hk; by eapply H2.
  - intros k i Ek. destruct (H3 k i Ek) as [?|(a & Ha & Hk)]; [by left|right]. destruct (decide (i = id)) as [->|Hne].
    + rewrite Hid in Ha. injection Ha as <-. exists (set_stage s aj). by rewrite lookup_insert_eq.
    + exists a. by rewrite lookup_insert_ne.
Qed.
Lemma stage_slots_ok s : slots_ok r slots → slots_ok (<[id := set_stage s aj]> r) slots.
Proof. intros H p. by rewrite H, (total_update _ r id aj (set_stage s aj)). Qed.
Lemma stage_refresh s : total is_refresh (<[id := set_stage s aj]> r) = total is_refresh r.
Proof. by apply (total_update _ r id aj). Qed.
Lemma forget_refresh : total is_refresh (delete id r) ≤ total is_refresh r.
Proof. rewrite (total_delete _ r id aj Hid). pose proof (is_refresh_bounds aj). lia. Qed.
End Take.

(** What a transaction of one running job does: its row stops running. *)
Lemma stop_rows M db db' r id aj s : table_evolves M db db' → kept db db' → rows_ok db r → r !! id = Some aj → s ≠ Executing →
  (∀ j, j ∈ db' → running j = true → j ∈ db ∧ jb_ID j ≠ id) → (∀ j, j ∈ db → running j = true → jb_ID j ≠ id → j ∈ db') →
  rows_ok db' (<[id := set_stage s aj]> r).
Proof.
  intros He Hk [H1 H2] Hid Hs Hsub Hsup. split.
  - intros j Hj Hr. destruct (Hsub j Hj Hr) as [Hin Hne]. destruct (H1 j Hin Hr) as (a & Ha & Hrest). exists a.
    by rewrite lookup_insert_ne.
  - intros i a [[_ <-]|[Hne E]]%lookup_insert_Some Ha; [done|]. destruct (H2 i a E Ha) as (j & Hj & Hi & Hr). exists j.
    split; [apply Hsup; [done|done|congruence]|done].
Qed.

(** [finishJob], [deferJob] and [requeue] update the running row of one job. *)
Lemma running_update db id f : (∀ j, running (f j) = false) →
  let db' := update_where id running f db in
  (∀ j, j ∈ db' → running j = true → j ∈ db ∧ jb_ID j ≠ id) ∧ (∀ j, j ∈ db → running j = true → jb_ID j ≠ id → j ∈ db').
Proof.
  intros Hf db'. split.
  - intros j [(i & _ & _ & _ & ->)|[Hj Hn]]%update_where_elem Hr; [by rewrite Hf in Hr|]. split; [done|]. intros E. by destruct Hn.
  - intros j Hj Hr Hne. apply update_where_elem. right. split; [done|]. by intros [? _].
Qed.

Section Invariant.
Context (RefreshWorkers MaxAttempts : Z) (Slots : list SlotPool) (registered : job_type → bool).
Hypothesis limits : 1 ≤ RefreshWorkers ∧ 1 ≤ MaxAttempts ∧ NoDup (sl_name <$> Slots) ∧ ∀ p, p ∈ Slots → 1 ≤ sl_limit p.
Abbreviation mstep := (mstep RefreshWorkers MaxAttempts Slots registered).
Abbreviation advance := (advance RefreshWorkers Slots registered).

Record inv (m : Manager) : Prop := {
  iv_table : table_ok (mg_db m);
  iv_attempts : ∀ j, j ∈ mg_db m → jb_Attempt j ≤ MaxAttempts;
  iv_keys : keys_ok (mg_running m) (mg_keys m) (mg_holds m);
  iv_slots : slots_ok (mg_running m) (mg_slots m);
  iv_limits : ∀ p, p ∈ Slots → slots_used m (sl_name p) ≤ sl_limit p;
  iv_rows : rows_ok (mg_db m) (mg_running m);
  iv_pass : pass_ok (mg_db m) (mg_running m) (mg_pass m);
  iv_refresh : refreshes m ≤ RefreshWorkers;
}.

(** A transaction that leaves the running rows and the rows of the pass alone. *)
Lemma inv_db m db : inv m → db_step MaxAttempts (mg_db m) db → quiet (mg_db m) db → kept (mg_db m) db → inv (set_db db m).
Proof.
  intros [] Hs Hq Hk. pose proof (db_step_evolves _ _ _ iv_table0 Hs) as He. split; try done; simpl.
  - apply He.
  - destruct limits as (_ & ? & _). by eapply attempts_step.
  - by eapply rows_quiet.
  - by eapply pass_kept.
Qed.

Lemma inv_prune m cutoff : inv m →
  (∀ s j, s ∈ pass_jobs (mg_pass m) → j ∈ mg_db m → jb_ID j = jb_ID s → prunable cutoff j = false) → inv (set_db (PruneHistory (mg_db m) cutoff) m).
Proof.
  intros Hi Hp. pose proof Hi as []. assert (Hs : db_step MaxAttempts (mg_db m) (PruneHistory (mg_db m) cutoff)) by apply step_prune.
  pose proof (db_step_evolves _ _ _ iv_table0 Hs) as He. split; try done; simpl.
  - apply He.
  - destruct limits as (_ & ? & _). by eapply attempts_step.
  - eapply rows_quiet; [done|apply prune_quiet|done].
  - destruct iv_pass0 as [H1 H2 H3]. split; [|done|done]. intros s Hin. destruct (H1 s Hin) as (j & Hj & Hid & Hrest).
    exists j. split; [|done]. apply filter_bool_elem. split; [done|]. by rewrite (Hp s j Hin Hj Hid).
Qed.

Lemma inv_same m r : inv m → same_jobs (mg_running m) r → inv (set_running r m).
Proof.
  intros [] Hs. destruct (same_generals _ _ Hs) as [_ Hr]. split; try done; simpl.
  - by eapply same_keys_ok.
  - by eapply same_slots_ok.
  - by eapply same_rows_ok.
  - by eapply same_pass_ok.
  - unfold refreshes. simpl. by rewrite Hr.
Qed.

(** A move of the pass that does not start a job: the rest of the queue gets shorter. *)
Lemma inv_pass_moves m p : inv m → (∀ s, s ∈ pass_jobs p → snap_ok (mg_db m) s) →
  (∀ now j rest w, mg_pass m ≠ PMark now j rest w) → (∀ now j rest w, p ≠ PMark now j rest w) → inv (set_pass p m).
Proof.
  intros [] Hp Hm Hn. split; try done. simpl. destruct iv_pass0 as [H1 H2 H3]. split; [done| |].
  - intros id aj Ha Hs. destruct (H2 id aj Ha Hs) as (now & j & rest & w & E & _). by destruct (Hm now j rest w).
  - intros now j rest w E. by destruct (Hn now j rest w).
Qed.

Lemma inv_hold m keys m' id : inv m → HoldKeys keys m = Some (m', id) → inv m'.
Proof.
  intros [] H. unfold HoldKeys in H. destruct (keysHeld m keys) eqn:Hk; [done|]. injection H as <- _.
  assert (Hfree : ∀ k, k ∈ keys → mg_keys m !! k = None).
  { intros k Hin. destruct (mg_keys m !! k) eqn:E; [|done]. exfalso. revert Hk. apply not_false_iff_true. unfold keysHeld.
    apply existsb_elem. exists k. split; [done|]. by rewrite bool_decide_eq_true, E. }
  split; try done; simpl. destruct iv_keys0 as [H1 H2 H3 H4]. split; [done| | |lia].
  - intros id' aj k Ha Hin. rewrite take_keys_lookup. destruct (mem k keys) eqn:E; [|by eapply H2].
    apply mem_spec, Hfree in E. rewrite (H2 id' aj k Ha Hin) in E. done.
  - intros k id'. rewrite take_keys_lookup. destruct (mem k keys); [|apply H3]. intros [= <-]. left. lia.
Qed.

Lemma inv_release_hold m id keys : inv m → id < 0 → inv (release_hold id keys m).
Proof.
  intros [] Hid. split; try done; simpl. destruct iv_keys0 as [H1 H2 H3 H4]. split; [done| | |done].
  - intros id' aj k Ha Hin. rewrite free_keys_lookup, (H2 id' aj k Ha Hin). pose proof (H1 id' aj Ha).
    rewrite (bool_decide_eq_false_2 (Some id' = Some id)); [done|]. intros [= ->]. lia.
  - intros k id'. rewrite free_keys_lookup. destruct (_ && _); [done|apply H3].
Qed.

Lemma slots_for_sublist needs pools j l : slots_for needs pools j = Some l → l `sublist_of` (sl_name <$> pools).
Proof.
  revert l. induction pools as [|p pools IH]; intros l; cbn [slots_for]; [by intros [= <-]|]. rewrite fmap_cons.
  destruct (negb (sl_counts p)); [intros H; by apply sublist_cons, IH|]. destruct (needs _ _) as [need|]; [|done].
  destruct (slots_for needs pools j) as [names|]; [|done]. intros [= <-].
  destruct need; [by apply sublist_skip, IH|by apply sublist_cons, IH].
Qed.

Lemma occurs_NoDup p l : NoDup l → occurs p l = if mem p l then 1 else 0.
Proof.
  induction 1 as [|a l Hn Hnd IH]; [done|]. rewrite occurs_cons, IH. destruct (String.eqb_spec p a) as [->|Hne].
  - replace (mem a l) with false by (symmetry; by apply not_true_iff_false; rewrite mem_spec).
    replace (mem a (a :: l)) with true; [done|]. symmetry. apply mem_spec. by left.
  - replace (mem p (a :: l)) with (mem p l); [by destruct (mem p l)|]. apply eq_true_iff_eq. rewrite !mem_spec, elem_of_cons. tauto.
Qed.

Lemma slotsFree_spec m l p : slotsFree Slots m l = true → p ∈ Slots → sl_name p ∈ l → slots_used m (sl_name p) < sl_limit p.
Proof.
  unfold slotsFree. intros H Hp Hl. rewrite forallb_elem in H. specialize (H _ Hl). rewrite forallb_elem in H. specialize (H p Hp).
  rewrite String.eqb_refl in H. apply negb_true_iff in H. cbn [andb] in H. lia.
Qed.

Lemma keysHeld_false m ks : keysHeld m ks = false ↔ ∀ k, k ∈ ks → mg_keys m !! k = None.
Proof.
  rewrite <-not_true_iff_false. unfold keysHeld. rewrite existsb_elem. setoid_rewrite bool_decide_eq_true. split.
  - intros H k Hk. apply eq_None_not_Some. intros Hs. apply H. by exists k.
  - intros H (k & Hk & Hs). by rewrite (H k Hk) in Hs; apply is_Some_None in Hs.
Qed.

Lemma in_running_false m id : in_running m id = false ↔ mg_running m !! id = None.
Proof. unfold in_running. rewrite bool_decide_eq_false. symmetry. apply eq_None_not_Some. Qed.

Lemma check_again_spec m j slots : check_again RefreshWorkers Slots m j slots = VConsider ↔
  fst (poolsFull RefreshWorkers m (refreshPool (jb_Type j))) = false ∧ mg_started m = true ∧
  snd (poolsFull RefreshWorkers m (refreshPool (jb_Type j))) = false ∧ mg_running m !! jb_ID j = None ∧
  (∀ k, k ∈ LockKeys (jb_Type j) (jb_Params j) → mg_keys m !! k = None) ∧ slotsFree Slots m slots = true.
Proof.
  unfold check_again. destruct (poolsFull _ _ _) as [all own]. cbn [fst snd]. rewrite <-in_running_false, <-keysHeld_false.
  destruct all, (mg_started m), own, (in_running m _), (keysHeld m _), (slotsFree Slots m slots); cbn; intuition congruence.
Qed.

Lemma inv_take needs m now j rest w slots : inv m → mg_pass m = PSlots now j rest w → slotsFor Slots needs j = Some slots →
  check_again RefreshWorkers Slots m j slots = VConsider → inv (set_pass (PMark now j rest w) (take_job j slots m)).
Proof.
  intros [] Hp Hsl (Hall & Hst & Hown & Hr & Hk & Hf)%check_again_spec. pose proof iv_pass0 as [Hsnap Htaken _]. rewrite Hp in Hsnap.
  destruct (Hsnap j) as (row & Hrow & Hid & _); [by left|]. pose proof (ro_id _ (to_rows _ iv_table0 _ Hrow)) as Hpos. rewrite Hid in Hpos.
  split; simpl; try done.
  - by apply (keys_take _ _ _ _ (mkActive _ _ _ _ _)).
  - by apply (slots_take _ _ _ (mkActive _ _ _ _ _)).
  - intros p Hin. unfold slots_used. simpl. rewrite take_slots_lookup. specialize (iv_limits0 p Hin). unfold slots_used in iv_limits0.
    destruct limits as (_ & _ & Hnd & _). pose proof (slots_for_sublist _ _ _ _ Hsl) as Hsub.
    rewrite occurs_NoDup by (by eapply sublist_NoDup). destruct (mem (sl_name p) slots) eqn:E; [|lia].
    apply mem_spec in E. pose proof (slotsFree_spec m slots p Hf Hin E) as Hlt. unfold slots_used in Hlt. lia.
  - by apply rows_take.
  - split.
    + intros s Hs. apply Hsnap. done.
    + intros id aj Ha Hs. apply lookup_insert_Some in Ha as [[<- _]|[_ Ha]]; [by exists now, j, rest, w|].
      destruct (Htaken id aj Ha Hs) as (? & ? & ? & ? & E & _). congruence.
    + intros now' j' rest' w' [= <- <- <- <-]. exists (mkActive (LockKeys (jb_Type j) (jb_Params j)) slots (refreshPool (jb_Type j)) None Taken).
      by rewrite lookup_insert_eq.
  - unfold refreshes in *. simpl. rewrite total_insert by done. unfold is_refresh at 1. simpl.
    destruct (refreshPool (jb_Type j)); [|lia]. unfold poolsFull in Hown. simpl in Hown. unfold refreshes in Hown. lia.
Qed.
Lemma inv_forget m id aj p : inv m → mg_running m !! id = Some aj → (∀ j, j ∈ mg_db m → jb_ID j = id → running j = false) →
  pass_ok (mg_db m) (delete id (mg_running m)) p → inv (set_pass p (forget id m)).
Proof.
  intros [] Hid Hn Hp. unfold forget. rewrite Hid. split; simpl; try done.
  - by eapply keys_forget.
  - by eapply slots_forget.
  - intros q Hq. unfold slots_used. simpl. rewrite free_slots_lookup by (intros r; by eapply slots_bound).
    specialize (iv_limits0 q Hq). unfold slots_used in iv_limits0. pose proof (occurs_nonneg (sl_name q) (aj_slots aj)). lia.
  - by eapply rows_forget.
  - unfold refreshes in *. simpl. pose proof (forget_refresh _ _ _ Hid). lia.
Qed.

(** A row whose job this manager does not execute is not running. *)
Lemma not_executing m id aj : inv m → mg_running m !! id = Some aj → aj_stage aj ≠ Executing →
  ∀ j, j ∈ mg_db m → jb_ID j = id → running j = false.
Proof.
  intros [] Ha Hs j Hj <-. apply not_true_iff_false. intros Hr. destruct (rk_row _ _ iv_rows0 j Hj Hr) as (a & Ha' & Hs' & _). congruence.
Qed.

Lemma pass_ok_scan db r p : (∀ s, s ∈ pass_jobs p → snap_ok db s) → (∀ now j rest w, p ≠ PMark now j rest w) →
  (∀ id aj, r !! id = Some aj → aj_stage aj ≠ Taken) → pass_ok db r p.
Proof.
  intros H1 H2 H3. split; [done| |].
  - intros id aj Ha Hs. by destruct (H3 id aj Ha).
  - intros now j rest w E. by destruct (H2 now j rest w).
Qed.

(** The start of a taken job that is no longer queued, or whose start fails. *)
Lemma inv_untake m now j rest w p : inv m → mg_pass m = PMark now j rest w → (∀ s, s ∈ pass_jobs p → s ∈ rest) →
  (∀ now j rest w, p ≠ PMark now j rest w) → inv (set_pass p (forget (jb_ID j) m)).
Proof.
  intros Hi Hp Hsub Hm. pose proof Hi as []. destruct iv_pass0 as [H1 H2 H3]. destruct (H3 now j rest w Hp) as (aj & Ha & Hs & _).
  eapply inv_forget; [done|done|eapply not_executing; [done|done|by rewrite Hs]|]. apply pass_ok_scan; [|done|].
  - intros s Hin. apply H1. rewrite Hp. right. by apply Hsub.
  - intros id aj' [Hne E]%lookup_delete_Some Hst. destruct (H2 id aj' E Hst) as (? & ? & ? & ? & E' & Hid). rewrite Hp in E'.
    injection E' as _ <- _ _. congruence.
Qed.

Lemma inv_mark m now j rest w row : inv m → mg_pass m = PMark now j rest w → matching (jb_ID j) queued (mg_db m) = Some row →
  inv (set_pass (PScan now rest w)
    (set_running (alter (set_stage Executing) (jb_ID j) (mg_running m)) (set_db (markRunning (mg_db m) (jb_ID j) now).1 m))).
Proof.
  intros Hi Hp Hrow. pose proof Hi as []. destruct iv_pass0 as [H1 H2 H3]. destruct (H3 now j rest w Hp) as (aj & Ha & Hs & Hk & Hf).
  pose proof (start_evolves MaxAttempts (mg_db m) iv_table0 (jb_ID j) now) as He.
  assert (Hkept : kept (mg_db m) (markRunning (mg_db m) (jb_ID j) now).1) by (by apply kept_update).
  apply matching_spec in Hrow as (Hrow & Hid & Hq); [|done].
  destruct (H1 j) as (row' & Hrow' & Hid' & Ht & Hl); [rewrite Hp; by left|].
  rewrite (table_ok_unique _ row' row iv_table0 Hrow' Hrow) in Ht, Hl by congruence. clear Hrow' Hid'.
  rewrite (alter_insert_some _ _ _ aj Ha). split; simpl.
  - apply He.
  - destruct limits as (_ & ? & _). eapply attempts_step; [done|done|done|apply step_start].
  - by apply stage_keys_ok.
  - by apply stage_slots_ok.
  - done.
  - split.
    + intros x [(i & Hi' & Ei & _ & ->)|[Hx Hn]]%update_where_elem Hr.
      * exists (set_stage Executing aj). rewrite (table_ok_unique _ i row iv_table0 Hi' Hrow) by congruence.
        change (jb_ID (start_job now row)) with (jb_ID row). rewrite Hid, lookup_insert_eq. split_and!; [done|done|].
        split; [change (aj_keys (set_stage Executing aj)) with (aj_keys aj)|change (aj_refresh (set_stage Executing aj)) with (aj_refresh aj)]; simpl; congruence.
      * destruct (rk_row _ _ iv_rows0 x Hx Hr) as (a & Ha' & Hrest). exists a. split; [|done]. rewrite lookup_insert_ne; [done|].
        intros E. rewrite <-E, Ha in Ha'. injection Ha' as <-. destruct Hrest as [Hst _]. congruence.
    + intros i a [[<- <-]|[Hne E]]%lookup_insert_Some Hst.
      * exists (start_job now row). split_and!; [|done|done]. apply update_where_elem. left. by exists row.
      * destruct (rk_job _ _ iv_rows0 i a E Hst) as (x & Hx & Hxi & Hr). exists x. split_and!; [|done|done].
        apply update_where_elem. right. split; [done|]. intros [? Hqx%queued_not_running]. congruence.
  - apply pass_ok_scan; [|done|].
    + intros s Hin. eapply snap_evolves; [exact He|done|]. apply H1. rewrite Hp. by right.
    + intros i a [[<- <-]|[Hne E]]%lookup_insert_Some; [done|]. intros Hst. destruct (H2 i a E Hst) as (? & ? & ? & ? & E' & Hi').
      rewrite Hp in E'. injection E' as _ <- _ _. congruence.
  - unfold refreshes in *. simpl. by rewrite (stage_refresh _ _ _ Ha).
Qed.
(** *** The end of a job *)
Lemma decide_final c now o st err : decide_outcome c now o = DFinal st err → Final st = true.
Proof.
  destruct o as [text|[[[until|]|text]|] warnings]; simpl; repeat case_bool_decide; repeat case_match; by intros [= <- _].
Qed.

Lemma record_update db id now c o : ∃ f, record_decision db id now (decide_outcome c now o) = update_where id running f db ∧
  (∀ j, running (f j) = false) ∧ (∀ j, jb_ID (f j) = jb_ID j).
Proof.
  destruct (decide_outcome c now o) as [st err|until|] eqn:E; simpl; eexists; (split; [done|]); split; try done.
  apply decide_final in E. intros j. by destruct st.
Qed.
Lemma record_step db id now c o : db_step MaxAttempts db (record_decision db id now (decide_outcome c now o)).
Proof.
  destruct (decide_outcome c now o) as [st err|until|] eqn:E; simpl.
  - apply step_finish. by eapply decide_final.
  - apply step_defer.
  - apply step_requeue.
Qed.

(** The row of an executing job stops running, in one transaction. *)
Lemma inv_row_stops m id aj db f : inv m → mg_running m !! id = Some aj → aj_stage aj = Executing →
  db = update_where id running f (mg_db m) → (∀ j, running (f j) = false) → (∀ j, jb_ID (f j) = jb_ID j) → db_step MaxAttempts (mg_db m) db →
  inv (set_running (<[id := set_stage Recorded aj]> (mg_running m)) (set_db db m)).
Proof.
  intros Hi Ha Hst Hdb Hf Hid Hs. pose proof Hi as []. pose proof (db_step_evolves _ _ _ iv_table0 Hs) as He.
  assert (Hk : kept (mg_db m) db) by (subst db; by apply kept_update). split; simpl; try done.
  - apply He.
  - destruct limits as (_ & ? & _). by eapply attempts_step.
  - by apply stage_keys_ok.
  - by apply stage_slots_ok.
  - pose proof (running_update (mg_db m) id f Hf) as [H1 H2]. rewrite <-Hdb in H1, H2. by eapply stop_rows.
  - destruct iv_pass0 as [H1 H2 H3]. split.
    + intros s Hin. eapply snap_evolves; [exact He|done|by apply H1].
    + intros i a [[_ <-]|[_ E]]%lookup_insert_Some Hs'; [done|by eapply H2].
    + intros now j rest w E. destruct (H3 now j rest w E) as (a & Ha' & Hs' & Hse). exists a. split_and!; [|done|done].
      rewrite lookup_insert_ne; [done|]. intros ->. congruence.
  - unfold refreshes in *. simpl. by rewrite (stage_refresh _ _ _ Ha).
Qed.

Lemma inv_finish m id aj now o : inv m → mg_running m !! id = Some aj → aj_stage aj = Executing → inv (finish_job id now o m).
Proof.
  intros Hi Ha Hs. unfold finish_job. rewrite Ha. destruct (record_update (mg_db m) id now (aj_cause aj) o) as (f & Hf & Hr & Hid).
  eapply inv_row_stops; [done|done|done|exact Hf|done|done|apply record_step].
Qed.

Lemma inv_release m id aj : inv m → mg_running m !! id = Some aj → aj_stage aj = Recorded → inv (forget id m).
Proof.
  intros Hi Ha Hs. replace (forget id m) with (set_pass (mg_pass m) (forget id m)) by (unfold forget; rewrite Ha; by destruct m).
  eapply inv_forget; [done|done|eapply not_executing; [done|done|by rewrite Hs]|].
  pose proof Hi as []. destruct iv_pass0 as [H1 H2 H3]. split; [done| |].
  - intros i a [_ E]%lookup_delete_Some Hst. by eapply H2.
  - intros now j rest w E. destruct (H3 now j rest w E) as (a & Ha' & Hs' & Hse). exists a. split_and!; [|done|done].
    rewrite lookup_delete_ne; [done|]. intros ->. congruence.
Qed.

Lemma forget_stage s id aj r keys slots m : mg_running m !! id = Some aj → mg_running m = r → mg_keys m = keys → mg_slots m = slots →
  forget id (set_running (<[id := set_stage s aj]> r) m) = forget id m.
Proof.
  intros Ha <- <- <-. unfold forget. simpl. rewrite Ha, lookup_insert_eq. simpl. by rewrite delete_insert_eq.
Qed.

Lemma inv_abandon m id aj : inv m → mg_running m !! id = Some aj → aj_stage aj = Executing → inv (abandon id m).
Proof.
  intros Hi Ha Hs. unfold abandon.
  rewrite <-(forget_stage Recorded id aj (mg_running m) (mg_keys m) (mg_slots m) (set_db (requeue (mg_db m) id) m)) by done.
  eapply (inv_release _ id (set_stage Recorded aj)); [|simpl; by rewrite lookup_insert_eq|done].
  by eapply inv_row_stops; [done|done|done|reflexivity|done|done|apply step_requeue].
Qed.

(** *** The dispatcher *)
Lemma queuedJobs_elem db n j : j ∈ queuedJobs db n → j ∈ db ∧ queued j = true.
Proof.
  unfold queuedJobs. intros Hj. assert (Hin : j ∈ isort queue_cmp (List.filter queued db)) by (eapply elem_of_sublist; [exact Hj|apply sublist_take]).
  rewrite isort_elem in Hin. by apply filter_bool_elem in Hin.
Qed.

Lemma inv_begin m now w : inv m → mg_pass m = PDone w → inv (begin_pass RefreshWorkers now m).
Proof.
  intros Hi Hp. pose proof Hi as []. unfold begin_pass. destruct (fst _); (apply inv_pass_moves; [done| | |]); try done; try (by rewrite Hp).
  - by intros s ?%elem_of_nil.
  - intros s [Hs _]%queuedJobs_elem. by exists s.
Qed.

Lemma inv_scan m now j rest w p : inv m → mg_pass m = PScan now (j :: rest) w → (∀ s, s ∈ pass_jobs p → s ∈ j :: rest) →
  (∀ now j rest w, p ≠ PMark now j rest w) → inv (set_pass p m).
Proof.
  intros Hi Hp Hsub Hn. pose proof Hi as []. apply inv_pass_moves; [done| |by rewrite Hp|done].
  intros s Hs. apply (po_snap _ _ _ iv_pass0). rewrite Hp. by apply Hsub.
Qed.
Lemma inv_look m now j rest w p : inv m → mg_pass m = PSlots now j rest w → (∀ s, s ∈ pass_jobs p → s ∈ j :: rest) →
  (∀ now j rest w, p ≠ PMark now j rest w) → inv (set_pass p m).
Proof.
  intros Hi Hp Hsub Hn. pose proof Hi as []. apply inv_pass_moves; [done| |by rewrite Hp|done].
  intros s Hs. apply (po_snap _ _ _ iv_pass0). rewrite Hp. by apply Hsub.
Qed.

Lemma inv_drop m id st err now : inv m → Final st = true → inv (set_db (finishQueued (mg_db m) id st err now).1 m).
Proof.
  intros Hi Hs. apply inv_db; [done|by apply step_drop|by apply drop_quiet|by apply kept_update].
Qed.

Lemma inv_advance needs m : inv m → inv (advance needs m).
Proof.
  intros Hi. unfold JobManager.advance. destruct (mg_pass m) as [w|now [|j rest] w|now j rest w|now j rest w] eqn:Hp; [done| | | |].
  - apply inv_pass_moves; [done|by intros s ?%elem_of_nil|by rewrite Hp|done].
  - destruct (waits now j); [eapply inv_scan; [done|exact Hp|simpl; intros; by right|done]|].
    destruct (check_first _ _ _ _).
    + eapply inv_scan; [done|exact Hp|by intros s ?%elem_of_nil|done].
    + eapply inv_scan; [done|exact Hp|simpl; intros; by right|done].
    + eapply (inv_scan (set_db (finishQueued (mg_db m) (jb_ID j) StatusFailed no_runner now).1 m)); [by apply inv_drop|exact Hp|simpl; intros; by right|done].
    + eapply inv_scan; [done|exact Hp|done|done].
  - destruct (slotsFor Slots needs j) as [slots|] eqn:Hs; [|eapply inv_look; [done|exact Hp|simpl; intros; by right|done]].
    destruct (check_again _ _ _ _ _) eqn:Hc.
    + eapply inv_look; [done|exact Hp|by intros s ?%elem_of_nil|done].
    + eapply inv_look; [done|exact Hp|simpl; intros; by right|done].
    + eapply inv_look; [done|exact Hp|simpl; intros; by right|done].
    + by eapply inv_take.
  - unfold markRunning. destruct (matching _ _ _) as [row|] eqn:Hrow; simpl.
    + by apply (inv_mark m now j rest w row).
    + by eapply inv_untake; [done|exact Hp| |].
Qed.

Lemma inv_restart m workers now : inv m → inv (start_manager MaxAttempts workers (mg_db m) now).
Proof.
  intros []. destruct limits as (? & ? & _ & Hl). assert (Hs : db_step MaxAttempts (mg_db m) (recoverCrashed (mg_db m) MaxAttempts now).1) by apply step_recover.
  pose proof (db_step_evolves _ _ _ iv_table0 Hs) as He. split; simpl; try done.
  - apply He.
  - by eapply attempts_step.
  - intros p Hp. unfold slots_used. simpl. rewrite lookup_empty. specialize (Hl p Hp). simpl. lia.
  - split; [|done]. intros j (i & -> & Hi)%list_elem_of_fmap Hr. exfalso. revert Hr. unfold recover_job.
    destruct (running i) eqn:E; cbn [negb]; [by destruct (_ <? _)|congruence].
  - split; [by intros s ?%elem_of_nil|done|done].
  - unfold refreshes. simpl. unfold total. rewrite map_fold_empty. lia.
Qed.

Lemma inv_step m m' : inv m → mstep m m' → inv m'.
Proof.
  intros Hi Hs. pose proof Hi as Hi'. destruct Hi' as [Hok Hatt Hkeys Hslots Hlim Hrows Hpass Href]. destruct Hs.
  - pose proof (create_quiet _ _ _ _ _ _ Hok H) as [? ?]. apply inv_db; [done|by eapply step_create|done|done].
  - by apply inv_drop.
  - apply inv_same; [done|]. by apply same_jobs_alter.
  - apply inv_db; [done|by eapply step_plan|apply plan_quiet|by apply kept_update].
  - pose proof (supersede_quiet (mg_db m) p keep now) as [? ?]. apply inv_db; [done|apply step_supersede|done|done].
  - by apply inv_prune.
  - split; done.
  - by eapply inv_hold.
  - by apply inv_release_hold.
  - by eapply inv_begin.
  - by apply inv_advance.
  - eapply inv_untake; [done|done|by intros s ?%elem_of_nil|done].
  - apply inv_pass_moves; [done|by intros s ?%elem_of_nil|by rewrite H|done].
  - by eapply inv_finish.
  - by eapply inv_release.
  - split; done.
  - apply inv_same; [done|]. by apply same_jobs_fmap.
  - by eapply inv_abandon.
  - by apply inv_restart.
Qed.
Lemma inv_reachable workers now m : rtc mstep (start_manager MaxAttempts workers [] now) m → inv m.
Proof.
  intros Hr. assert (H0 : inv (start_manager MaxAttempts workers [] now)).
  { apply (inv_restart (start_manager MaxAttempts workers [] now) workers now). destruct limits as (? & ? & _ & Hl). split; simpl; try done.
    - apply empty_ok.
    - by intros j ?%elem_of_nil.
    - intros p Hp. unfold slots_used. simpl. rewrite lookup_empty. specialize (Hl p Hp). simpl. lia.
    - split; [by intros j ?%elem_of_nil|done].
    - split; [by intros s ?%elem_of_nil|done|done].
    - unfold refreshes. simpl. unfold total. rewrite map_fold_empty. lia. }
  revert H0. induction Hr as [|m1 m2 m3 Hs _ IH]; [done|]. intros H0. apply IH. by eapply inv_step.
Qed.

(** *** The general workers *)
Lemma generals_forget m id : generals (forget id m) ≤ generals m.
Proof.
  unfold generals, refreshes, forget. destruct (mg_running m !! id) as [aj|] eqn:E; [|lia]. simpl.
  rewrite (total_delete is_refresh _ id aj E), map_size_delete_Some by (by rewrite E). pose proof (is_refresh_bounds aj).
  assert (size (mg_running m) ≠ 0%nat) by (intros H0; apply map_size_empty_iff in H0; by rewrite H0, lookup_empty in E). lia.
Qed.
Lemma generals_same m r : same_jobs (mg_running m) r → generals (set_running r m) = generals m.
Proof. intros Hs. unfold generals, refreshes. simpl. destruct (same_generals _ _ Hs) as [-> ->]. done. Qed.
Lemma generals_stage s m id aj : mg_running m !! id = Some aj → generals (set_running (<[id := set_stage s aj]> (mg_running m)) m) = generals m.
Proof.
  intros E. unfold generals, refreshes. simpl. rewrite (stage_refresh _ _ _ E), map_size_insert_Some; done.
Qed.
Lemma generals_db db m : generals (set_db db m) = generals m.
Proof. done. Qed.
Lemma generals_pass p m : generals (set_pass p m) = generals m.
Proof. done. Qed.

Lemma generals_take m j slots : check_again RefreshWorkers Slots m j slots = VConsider → generals (take_job j slots m) ≤ Z.max (generals m) (mg_workers m).
Proof.
  intros (_ & _ & Hown & Hr & _)%check_again_spec. unfold generals, refreshes, take_job. simpl.
  rewrite map_size_insert_None, total_insert by done. unfold is_refresh at 1. simpl. unfold poolsFull in Hown. simpl in Hown.
  unfold generals, refreshes in Hown. destruct (refreshPool (jb_Type j)); lia.
Qed.

Lemma generals_advance needs m : generals (advance needs m) ≤ Z.max (generals m) (mg_workers m).
Proof.
  unfold JobManager.advance. destruct (mg_pass m) as [w|now [|j rest] w|now j rest w|now j rest w] eqn:Hp; [lia|by rewrite generals_pass; lia| | |].
  - destruct (waits now j); [|destruct (check_first _ _ _ _)]; rewrite ?generals_pass, ?generals_db; lia.
  - destruct (slotsFor Slots needs j) as [slots|]; [|rewrite generals_pass; lia].
    destruct (check_again _ _ _ _ _) eqn:Hc; rewrite generals_pass; try lia. by apply generals_take.
  - unfold markRunning. destruct (matching _ _ _); simpl; rewrite generals_pass; [|pose proof (generals_forget m (jb_ID j)); lia].
    destruct (mg_running m !! jb_ID j) as [aj|] eqn:E.
    + rewrite (alter_insert_some _ _ _ aj E). unfold generals, refreshes. simpl. rewrite (stage_refresh _ _ _ E), map_size_insert_Some by done. lia.
    + rewrite (alter_none _ _ _ E). unfold generals, refreshes. simpl. lia.
Qed.

Lemma generals_step m m' : mstep m m' → generals m' ≤ Z.max (generals m) (mg_workers m').
Proof.
  destruct 1; rewrite ?generals_db, ?generals_pass; try (simpl; lia).
  - simpl. rewrite generals_same by (by apply same_jobs_alter). lia.
  - unfold SetWorkers, generals, refreshes. simpl. lia.
  - unfold HoldKeys in H. destruct (keysHeld _ _); [done|]. injection H as <- _. unfold generals, refreshes. simpl. lia.
  - unfold release_hold, generals, refreshes. simpl. lia.
  - unfold begin_pass. destruct (fst _); rewrite generals_pass; lia.
  - assert (E : mg_workers (advance needs m) = mg_workers m); [|rewrite E; apply generals_advance].
    unfold JobManager.advance, forget, markRunning. by repeat case_match; simplify_eq.
  - pose proof (generals_forget m (jb_ID j)). lia.
  - unfold finish_job. rewrite H. set (db := record_decision _ _ _ _).
    pose proof (generals_stage Recorded (set_db db m) id aj H) as E. simpl in E. rewrite E, generals_db. lia.
  - pose proof (generals_forget m id). lia.
  - unfold stop_dispatch, generals, refreshes. simpl. lia.
  - unfold interrupt_jobs. rewrite generals_same by (by apply same_jobs_fmap). lia.
  - unfold abandon. pose proof (generals_forget (set_db (requeue (mg_db m) id) m) id). rewrite generals_db in *. lia.
  - unfold start_manager, generals, refreshes. simpl. unfold total. rewrite map_fold_empty, map_size_empty. case_match; [unfold DefaultWorkers|]; lia.
Qed.

(** C34: whatever the interleaving of the dispatcher, the running jobs, the API,
    the scheduler, shutdowns and restarts, two jobs that run at the same time never
    share a lock key (one job per destination, integration, source or manifest
    build); a running job holds the keys of its stored parameters, so a hold of
    one of them is refused; no slot pool and no refresh pool is over its limit, and
    no step takes the general jobs over the workers set. *)
Theorem jobs_exclusive (workers : Z) (now : time) (m : Manager) : rtc mstep (start_manager MaxAttempts workers [] now) m →
  (∀ i j k, i ∈ mg_db m → j ∈ mg_db m → running i = true → running j = true →
     k ∈ LockKeys (jb_Type i) (jb_Params i) → k ∈ LockKeys (jb_Type j) (jb_Params j) → i = j) ∧
  (∀ j k keys, j ∈ mg_db m → running j = true → k ∈ LockKeys (jb_Type j) (jb_Params j) →
     mg_keys m !! k = Some (jb_ID j) ∧ (k ∈ keys → HoldKeys keys m = None)) ∧
  (∀ p, p ∈ Slots → total (λ aj, occurs (sl_name p) (aj_slots aj)) (mg_running m) ≤ sl_limit p) ∧
  refreshes m ≤ RefreshWorkers ∧
  (∀ m', mstep m m' → generals m' ≤ Z.max (generals m) (mg_workers m')).
Proof.
  intros Hi%inv_reachable. destruct Hi as [Hok _ Hkeys Hslots Hlim Hrows _ Href].
  assert (Hheld : ∀ j k, j ∈ mg_db m → running j = true → k ∈ LockKeys (jb_Type j) (jb_Params j) → mg_keys m !! k = Some (jb_ID j)).
  { intros j k Hj Hr Hk. destruct (rk_row _ _ Hrows j Hj Hr) as (aj & Ha & _ & Hs & _). eapply (ko_held _ _ _ Hkeys); [done|by rewrite Hs]. }
  split_and!; [| | |done|apply generals_step].
  - intros i j k Hi Hj Hri Hrj Hki Hkj. eapply table_ok_unique; [done..|].
    pose proof (Hheld i k Hi Hri Hki) as E. rewrite (Hheld j k Hj Hrj Hkj) in E. by injection E as ->.
  - intros j k keys Hj Hr Hk. pose proof (Hheld j k Hj Hr Hk) as E. split; [done|]. intros Hin. unfold HoldKeys.
    destruct (keysHeld m keys) eqn:Hf; [done|]. rewrite keysHeld_false in Hf. by rewrite (Hf k Hin) in E.
  - intros p Hp. rewrite <-(Hslots (sl_name p)). by apply Hlim.
Qed.

(** *** A pass that nothing interrupts *)
Lemma pass_shrinks needs m : (pass_fuel (mg_pass (advance needs m)) < pass_fuel (mg_pass m))%nat ∨ ∃ w, mg_pass m = PDone w ∧ advance needs m = m.
Proof.
  unfold JobManager.advance. destruct (mg_pass m) as [w|now [|j rest] w|now j rest w|now j rest w] eqn:Hp; [right; by exists w|left; simpl; lia| | |]; left.
  - destruct (waits now j); [simpl; lia|]. destruct (check_first _ _ _ _); simpl; lia.
  - destruct (slotsFor Slots needs j); [|simpl; lia]. destruct (check_again _ _ _ _ _); simpl; lia.
  - unfold markRunning. destruct (matching _ _ _); simpl; lia.
Qed.

Lemma pass_ends needs n m : (pass_fuel (mg_pass m) ≤ n)%nat → ∃ w, mg_pass (Nat.iter n (advance needs) m) = PDone w.
Proof.
  revert m. induction n as [|n IH]; intros m H; simpl.
  - destruct (mg_pass m) eqn:E; simpl in H; [by exists wake|lia..].
  - rewrite <-Nat.iter_succ, Nat.iter_succ_r. destruct (pass_shrinks needs m) as [Hlt|(w & Hw & E)]; [apply IH; lia|].
    rewrite E. apply IH. rewrite Hw. simpl. lia.
Qed.

(** What may keep a queued job from starting. *)
Definition blocked (needs : string → Job → option bool) (now : time) (m : Manager) (j : Job) : Prop :=
  (∃ t, waits now j = Some t) ∨ is_Some (mg_running m !! jb_ID j) ∨ snd (poolsFull RefreshWorkers m (refreshPool (jb_Type j))) = true ∨
  (∃ k, k ∈ LockKeys (jb_Type j) (jb_Params j) ∧ is_Some (mg_keys m !! k)) ∨ slotsFor Slots needs j = None ∨
  (∃ slots, slotsFor Slots needs j = Some slots ∧ slotsFree Slots m slots = false).
(** All workers are busy, or the dispatcher wakes when the job's wait is over. *)
Definition wakes (now : time) (m : Manager) (w : option time) (j : Job) : Prop :=
  ∀ t, waits now j = Some t → fst (poolsFull RefreshWorkers m false) = true ∨ ∃ w', w = Some w' ∧ w' ≤ t.

Definition executing (m : Manager) (id : Z) : Prop := ∃ aj, mg_running m !! id = Some aj ∧ aj_stage aj = Executing.
(** What a pass at [now] may make of a queued job [j], whose row is then [i]. *)
Definition started_by_pass (now : time) (m : Manager) (j i : Job) : Prop :=
  started_as now j i ∧ executing m (jb_ID j) ∧ waits now j = None ∧ registered (jb_Type j) = true.
Definition failed_by_pass (now : time) (j i : Job) : Prop :=
  registered (jb_Type j) = false ∧ waits now j = None ∧ ended_as StatusFailed no_runner now j i.

(** A pass only takes workers, keys and slots. *)
Record grows (m m' : Manager) : Prop := {
  gr_executing : ∀ id, executing m id → executing m' id;
  gr_workers : mg_workers m' = mg_workers m;
  gr_running : ∀ id, is_Some (mg_running m !! id) → is_Some (mg_running m' !! id);
  gr_keys : ∀ k, is_Some (mg_keys m !! k) → is_Some (mg_keys m' !! k);
  gr_slots : ∀ p, slots_used m p ≤ slots_used m' p;
  gr_generals : generals m ≤ generals m';
  gr_refreshes : refreshes m ≤ refreshes m';
}.
Lemma grows_refl m m' : mg_workers m' = mg_workers m → mg_running m' = mg_running m → mg_keys m' = mg_keys m → mg_slots m' = mg_slots m → grows m m'.
Proof. intros ? Hr Hk Hs. split; try (by unfold executing; rewrite ?Hr, ?Hk); try done; unfold slots_used, generals, refreshes; rewrite ?Hr, ?Hs; done. Qed.

Lemma full_grows m m' b : grows m m' → (fst (poolsFull RefreshWorkers m b) = true → fst (poolsFull RefreshWorkers m' b) = true) ∧
  (snd (poolsFull RefreshWorkers m b) = true → snd (poolsFull RefreshWorkers m' b) = true).
Proof. intros [_ Hw _ _ _ Hg Hr]. unfold poolsFull. simpl. rewrite Hw, !andb_true_iff, !Z.leb_le. split; [lia|]. destruct b; lia. Qed.
Lemma full_all m b : fst (poolsFull RefreshWorkers m b) = true → snd (poolsFull RefreshWorkers m b) = true.
Proof. unfold poolsFull. simpl. rewrite andb_true_iff. by destruct b; intros [? ?]. Qed.

Lemma blocked_grows needs now m m' j : grows m m' → blocked needs now m j → blocked needs now m' j.
Proof.
  intros Hg. pose proof Hg as [_ Hw Hr Hk Hs _ _]. intros [H|[H|[H|[(k & Hin & H)|[H|(slots & E & H)]]]]].
  - by left.
  - right; left. by apply Hr.
  - do 2 right; left. by apply (full_grows m m').
  - do 3 right; left. exists k. split; [done|by apply Hk].
  - do 4 right; left. done.
  - do 5 right. exists slots. split; [done|]. revert H. unfold slotsFree. rewrite <-!not_true_iff_false, !forallb_elem.
    intros H H'. apply H. intros name Hin. specialize (H' name Hin). rewrite forallb_elem in H' |- *. intros p Hp. specialize (H' p Hp).
    specialize (Hs name). destruct (String.eqb (sl_name p) name); [|done]. cbn [andb] in *. rewrite negb_true_iff in *. lia.
Qed.
Lemma wakes_grows now m m' w j : grows m m' → wakes now m w j → wakes now m' w j.
Proof. intros Hg H t Ht. destruct (H t Ht) as [Hf|Hf]; [left; by apply (full_grows m m')|by right]. Qed.

Definition pass_now (p : dispatch_pass) : option time :=
  match p with PDone _ => None | PScan now _ _ | PSlots now _ _ _ | PMark now _ _ _ => Some now end.
Definition pass_wake (p : dispatch_pass) : option time :=
  match p with PDone w | PScan _ _ w | PSlots _ _ _ w | PMark _ _ _ w => w end.

Section Pass.
Context (needs : string → Job → option bool) (now : time) (Q : list Job).

Record pass_inv (m : Manager) : Prop := {
  pi_inv : inv m;
  pi_started : mg_started m = true;
  pi_now : ∀ t, pass_now (mg_pass m) = Some t → t = now;
  pi_rest : ∀ s, s ∈ pass_jobs (mg_pass m) → s ∈ mg_db m ∧ queued s = true;
  pi_ids : NoDup (jb_ID <$> pass_jobs (mg_pass m));
  pi_done : ∀ j, j ∈ Q → j ∈ mg_db m → queued j = true → j ∈ pass_jobs (mg_pass m) ∨
    (blocked needs now m j ∧ wakes now m (pass_wake (mg_pass m)) j);
  pi_look : ∀ t j rest w, mg_pass m = PSlots t j rest w ∨ mg_pass m = PMark t j rest w → waits t j = None ∧ registered (jb_Type j) = true;
  pi_left : ∀ j, j ∈ Q → ∃ i, i ∈ mg_db m ∧ jb_ID i = jb_ID j ∧ (i = j ∨ started_by_pass now m j i ∨ failed_by_pass now j i);
}.

(** The pass moves on to [p], whose jobs are some of those left, without touching the rows. *)
Lemma pass_moves m m' p : pass_inv m → inv (set_pass p m') → grows m m' → mg_db m' = mg_db m → mg_started m' = true →
  (∀ t, pass_now p = Some t → t = now) →
  (∀ t j rest w, p = PSlots t j rest w ∨ p = PMark t j rest w → waits t j = None ∧ registered (jb_Type j) = true) →
  pass_jobs p `sublist_of` pass_jobs (mg_pass m) →
  (∀ t, match pass_wake (mg_pass m) with Some w => w ≤ t | None => False end → match pass_wake p with Some w => w ≤ t | None => False end) →
  (∀ j, j ∈ pass_jobs (mg_pass m) → j ∉ pass_jobs p → blocked needs now m' j ∧ wakes now m' (pass_wake p) j) →
  pass_inv (set_pass p m').
Proof.
  intros [] Hi Hg Hdb Hst Hnow Hlook Hsub Hw Hb. split; simpl; try done.
  - intros s Hs. rewrite Hdb. apply pi_rest0. by eapply elem_of_sublist.
  - eapply sublist_NoDup; [exact pi_ids0|apply fmap_sublist, Hsub].
  - intros j HQ Hj Hq. rewrite Hdb in Hj. destruct (decide (j ∈ pass_jobs p)) as [Hin|Hn]; [by left|right].
    destruct (pi_done0 j HQ Hj Hq) as [Hin|[Hbl Hwa]]; [by apply Hb|]. split; [exact (blocked_grows _ _ _ _ _ Hg Hbl)|].
    intros t Ht. destruct (wakes_grows now m m' _ j Hg Hwa t Ht) as [Hf|(w' & E & Hle)]; [by left|right].
    specialize (Hw t). rewrite E in Hw. specialize (Hw Hle). destruct (pass_wake p) as [w2|]; [by exists w2|done].
  - intros j HQ. rewrite Hdb. destruct (pi_left0 j HQ) as (i & Hin & Hid & [H|[(Hs & He & H)|H]]); exists i; (split_and!; [done|done|]); [by left| |by auto].
    right; left. split_and!; [done|by apply (gr_executing _ _ Hg)|apply H..].
Qed.

(** Everything that is left is blocked when all pools are full. *)
Lemma all_full_blocked m p j : fst (poolsFull RefreshWorkers m (refreshPool (jb_Type j))) = true →
  ∀ i, blocked needs now m i ∧ wakes now m p i.
Proof.
  intros H i. split; [do 2 right; left; by apply full_all|]. intros t _. by left.
Qed.

(** The row of the job the pass is at leaves the queue. *)
Lemma row_leaves m m' j rest w id f p : pass_inv m → inv (set_pass p m') → grows m m' → mg_started m' = true →
  pass_jobs (mg_pass m) = j :: rest → id = jb_ID j → mg_db m' = update_where id queued f (mg_db m) → (∀ i, queued (f i) = false) →
  p = PScan now rest w → pass_wake (mg_pass m) = w → started_by_pass now m' j (f j) ∨ failed_by_pass now j (f j) → pass_inv (set_pass p m').
Proof.
  intros [] Hi Hg Hst Hp -> Hdb Hf -> Hw Hnew. pose proof (iv_table _ pi_inv0) as Hok. rewrite Hp in pi_rest0, pi_ids0, pi_done0. rewrite fmap_cons in pi_ids0.
  apply NoDup_cons in pi_ids0 as [Hnid Hnd].
  assert (Hstay : ∀ s, s ∈ mg_db m → jb_ID s ≠ jb_ID j → s ∈ mg_db m').
  { intros s Hs Hne. rewrite Hdb. apply update_where_elem. right. split; [done|]. by intros [? _]. }
  split; simpl; try done.
  - by intros t [= <-].
  - intros s Hs. destruct (pi_rest0 s) as [Hin Hq]; [by right|]. split; [|done]. apply Hstay; [done|].
    intros E. apply Hnid. rewrite <-E. by apply list_elem_of_fmap_2.
  - intros i HQ Hin Hq. rewrite Hdb in Hin. apply update_where_elem in Hin as [(x & _ & _ & _ & ->)|[Hin Hn]].
    { by rewrite Hf in Hq. }
    destruct (pi_done0 i HQ Hin Hq) as [[->|Hr]%elem_of_cons|[Hb Hwa]]; [by destruct Hn|by left|right].
    rewrite Hw in Hwa. split; [exact (blocked_grows _ _ _ _ _ Hg Hb)|exact (wakes_grows _ _ _ _ _ Hg Hwa)].
  - by intros ? ? ? ? [?|?].
  - destruct (pi_rest0 j) as [Hj Hqj]; [by left|]. intros x HQ. destruct (pi_left0 x HQ) as (i & Hin & Hid & H).
    destruct (decide (jb_ID i = jb_ID j)) as [E|E].
    + rewrite (table_ok_unique _ i j Hok Hin Hj E) in H. destruct H as [<-|[((_ & Hs & _) & _)|(_ & _ & _ & Hs & _)]];
        [|apply queued_spec in Hqj; congruence|apply queued_spec in Hqj; congruence].
      exists (f j). split_and!; [rewrite Hdb; apply update_where_elem; left; by exists j| |by right].
      by destruct Hnew as [((Hk & _) & _)|(_ & _ & Hk & _)]; apply Hk.
    + exists i. split_and!; [by apply Hstay|done|]. destruct H as [H|[(Hs & He & H)|H]]; [by left| |by auto].
      right; left. split_and!; [done|by apply (gr_executing _ _ Hg)|apply H..].
Qed.

Lemma earlier_le w t t' : match w with Some w' => w' ≤ t' | None => False end → match earlier w t with Some w' => w' ≤ t' | None => False end.
Proof. destruct w as [w'|]; [|done]. simpl. destruct (Z.ltb_spec t w'); lia. Qed.
Lemma earlier_new w t : ∃ w', earlier w t = Some w' ∧ w' ≤ t.
Proof. destruct w as [w'|]; simpl; [destruct (Z.ltb_spec t w')|]; eexists; (split; [done|]); lia. Qed.

Lemma grows_take m j slots : mg_running m !! jb_ID j = None → grows m (take_job j slots m).
Proof.
  intros Hn. split; unfold take_job, slots_used; simpl; [|done| | | | |].
  - intros id (aj & Ha & H). exists aj. split; [|done]. simpl. rewrite lookup_insert_ne; [done|]. intros <-. congruence.
  - intros id H. rewrite lookup_insert_is_Some'. by right.
  - intros k H. rewrite take_keys_lookup. by destruct (mem k _).
  - intros p. rewrite take_slots_lookup. pose proof (occurs_nonneg p slots). lia.
  - unfold generals, refreshes. simpl. rewrite map_size_insert_None, total_insert by done.
    pose proof (is_refresh_bounds (mkActive (LockKeys (jb_Type j) (jb_Params j)) slots (refreshPool (jb_Type j)) None Taken)). lia.
  - unfold refreshes. simpl. rewrite total_insert by done. pose proof (is_refresh_bounds (mkActive (LockKeys (jb_Type j) (jb_Params j)) slots (refreshPool (jb_Type j)) None Taken)). lia.
Qed.
Lemma grows_mark m id db : grows m (set_running (alter (set_stage Executing) id (mg_running m)) (set_db db m)).
Proof.
  assert (Hd : ∀ i, is_Some (mg_running m !! i) → is_Some (alter (set_stage Executing) id (mg_running m) !! i)).
  { intros i H. destruct (decide (i = id)) as [->|Hne]; [rewrite lookup_alter_eq; by apply fmap_is_Some|by rewrite lookup_alter_ne]. }
  assert (Hsz : size (alter (set_stage Executing) id (mg_running m)) = size (mg_running m) ∧ total is_refresh (alter (set_stage Executing) id (mg_running m)) = total is_refresh (mg_running m)).
  { destruct (mg_running m !! id) as [aj|] eqn:E.
    - rewrite (alter_insert_some _ _ _ aj E). split; [by rewrite map_size_insert_Some by done|by apply stage_refresh].
    - by rewrite alter_none. }
  destruct Hsz as [Hs Ht].
  assert (He : ∀ i, executing m i → executing (set_running (alter (set_stage Executing) id (mg_running m)) (set_db db m)) i).
  { intros i (aj & Ha & H). destruct (decide (i = id)) as [->|Hne]; [exists (set_stage Executing aj)|exists aj]; simpl.
    - by rewrite lookup_alter_eq, Ha.
    - by rewrite lookup_alter_ne. }
  split; try done; unfold generals, refreshes; simpl; rewrite ?Hs, Ht; lia.
Qed.

Lemma check_first_spec m j : mg_started m = true →
  match check_first RefreshWorkers registered m j with
  | VReturn => fst (poolsFull RefreshWorkers m (refreshPool (jb_Type j))) = true
  | VSkip => blocked needs now m j
  | VFail => registered (jb_Type j) = false
  | VConsider => registered (jb_Type j) = true
  end.
Proof.
  intros Hst. unfold check_first. destruct (poolsFull RefreshWorkers m (refreshPool (jb_Type j))) as [all own] eqn:E. rewrite Hst. cbn [negb fst].
  destruct all; [done|]. cbn [orb]. destruct (in_running m (jb_ID j)) eqn:Er; cbn [orb].
  { right; left. apply bool_decide_eq_true in Er. done. }
  destruct own; cbn [orb]; [do 2 right; left; by rewrite E|]. destruct (registered (jb_Type j)) eqn:Ereg; [|done]. cbn [negb].
  destruct (keysHeld m _) eqn:Ek; [|done]. do 3 right; left. unfold keysHeld in Ek. apply existsb_elem in Ek as (k & Hk & H).
  exists k. split; [done|]. by apply bool_decide_eq_true in H.
Qed.
Lemma check_again_blocked m j slots : mg_started m = true → slotsFor Slots needs j = Some slots →
  match check_again RefreshWorkers Slots m j slots with
  | VReturn => fst (poolsFull RefreshWorkers m (refreshPool (jb_Type j))) = true
  | VSkip => blocked needs now m j
  | VFail => False
  | VConsider => True
  end.
Proof.
  intros Hst Hsl. unfold check_again. destruct (poolsFull RefreshWorkers m (refreshPool (jb_Type j))) as [all own] eqn:E. rewrite Hst. cbn [negb fst].
  destruct all; [done|]. cbn [orb]. destruct (in_running m (jb_ID j)) eqn:Er; cbn [orb].
  { right; left. apply bool_decide_eq_true in Er. done. }
  destruct own; cbn [orb]; [do 2 right; left; by rewrite E|]. destruct (keysHeld m _) eqn:Ek; cbn [orb].
  { do 3 right; left. unfold keysHeld in Ek. apply existsb_elem in Ek as (k & Hk & H). exists k. split; [done|]. by apply bool_decide_eq_true in H. }
  destruct (slotsFree Slots m slots) eqn:Ef; [done|]. do 5 right. by exists slots.
Qed.

Lemma marked_executing m j t rest w db : inv m → mg_pass m = PMark t j rest w →
  executing (set_running (alter (set_stage Executing) (jb_ID j) (mg_running m)) (set_db db m)) (jb_ID j).
Proof.
  intros Hi Hp. destruct (po_mark _ _ _ (iv_pass _ Hi) t j rest w Hp) as (aj & Ha & _). exists (set_stage Executing aj). simpl.
  by rewrite lookup_alter_eq, Ha.
Qed.

(** The pass moves on and the side conditions are those of the step at hand. *)
Ltac pass_moves_on m Hp :=
  eapply (pass_moves m); rewrite ?Hp; try done; try (by intros ? ? ? ? [?|?]).

Lemma pass_inv_advance m : pass_inv m → pass_inv (advance needs m).
Proof.
  intros Hpi. pose proof Hpi as [Hi Hst Hnow Hrest Hids _ _ _]. pose proof (inv_advance needs m Hi) as Hi'. revert Hi'.
  unfold JobManager.advance. destruct (mg_pass m) as [w|now' [|j rest] w|now' j rest w|now' j rest w] eqn:Hp; [done| | | |];
    (assert (now' = now) as -> by (by apply Hnow)).
  - intros Hi'. pass_moves_on m Hp.
  - assert (Hone : ∀ i, i ∈ j :: rest → i ∉ rest → i = j) by (intros i [->|H]%elem_of_cons Hn; [done|by destruct Hn]).
    destruct (waits now j) as [t|] eqn:Hw.
    { intros Hi'. pass_moves_on m Hp; [by apply sublist_cons|intros t'; apply earlier_le|].
      intros i Hin Hn. rewrite (Hone i Hin Hn). split; [left; by exists t|]. intros t' E. right. rewrite Hw in E. injection E as <-. apply earlier_new. }
    pose proof (check_first_spec m j Hst) as Hc. destruct (check_first RefreshWorkers registered m j); intros Hi'.
    + pass_moves_on m Hp; [apply sublist_nil_l|]. intros i _ _. by eapply all_full_blocked.
    + pass_moves_on m Hp; [by apply sublist_cons|].
      intros i Hin Hn. rewrite (Hone i Hin Hn). split; [done|]. intros t' E. congruence.
    + eapply (row_leaves m _ j rest w (jb_ID j)); rewrite ?Hp; try done. by right.
    + pass_moves_on m Hp. intros ? ? ? ? [[= <- <- <- <-]|?]; [done|discriminate].
  - assert (Hone : ∀ i, i ∈ j :: rest → i ∉ rest → i = j) by (intros i [->|H]%elem_of_cons Hn; [done|by destruct Hn]).
    destruct (pi_look m Hpi now j rest w) as [Hw Hreg]; [by left|].
    destruct (slotsFor Slots needs j) as [slots|] eqn:Hsl.
    2: { intros Hi'. pass_moves_on m Hp; [by apply sublist_cons|].
         intros i Hin Hn. rewrite (Hone i Hin Hn). split; [do 4 right; by left|]. intros t' E. congruence. }
    pose proof (check_again_blocked m j slots Hst Hsl) as Hc. destruct (check_again RefreshWorkers Slots m j slots) eqn:Ec; intros Hi'; [| |done|].
    + pass_moves_on m Hp; [apply sublist_nil_l|]. intros i _ _. by eapply all_full_blocked.
    + pass_moves_on m Hp; [by apply sublist_cons|].
      intros i Hin Hn. rewrite (Hone i Hin Hn). split; [done|]. intros t' E. congruence.
    + apply check_again_spec in Ec as (_ & _ & _ & Hr & _). pass_moves_on m Hp; [by apply grows_take|].
      intros ? ? ? ? [?|[= <- <- <- <-]]; [discriminate|done].
  - destruct (Hrest j) as [Hj Hq]; [by left|]. unfold markRunning.
    assert (Hm : matching (jb_ID j) queued (mg_db m) = Some j) by (by apply matching_spec; [apply Hi|]). rewrite Hm. simpl. intros Hi'.
    eapply (row_leaves m _ j rest w (jb_ID j)); rewrite ?Hp; try done; [apply grows_mark|]. left.
    destruct (pi_look m Hpi now j rest w) as [Hw Hreg]; [by right|]. split_and!; [|by eapply marked_executing|done|done].
    apply start_as; [by apply (iv_table _ Hi)|done].
Qed.
End Pass.

Lemma queuedJobs_ids db n : table_ok db → NoDup (jb_ID <$> queuedJobs db n).
Proof.
  intros Hok. unfold queuedJobs. eapply sublist_NoDup; [|apply fmap_sublist, sublist_take]. rewrite isort_perm.
  destruct (table_ok_filter queued db Hok) as [Hs _]. induction Hs as [|a l Hs IH Ha]; [constructor|]. rewrite fmap_cons.
  constructor; [|done]. intros (b & E & Hb)%list_elem_of_fmap. rewrite Forall_forall in Ha. specialize (Ha b Hb). unfold before in Ha. lia.
Qed.

Lemma pass_inv_begin needs now m w : inv m → mg_started m = true → mg_pass m = PDone w → pass_inv needs now (queuedJobs (mg_db m) queuedScan) (begin_pass RefreshWorkers now m).
Proof.
  intros Hi Hst Hp. pose proof (inv_begin m now w Hi Hp) as Hi'. revert Hi'. unfold begin_pass.
  destruct (fst (poolsFull RefreshWorkers m false)) eqn:Hf; intros Hi'; split; try done; simpl.
  - by intros s ?%elem_of_nil.
  - constructor.
  - intros j _ _ _. right. by apply (all_full_blocked needs now m None (mkJob 0 TypeSync StatusQueued TriggerManual false no_params 1 None 0 None None None 0 None None)).
  - by intros ? ? ? ? [?|?].
  - intros j [Hj _]%queuedJobs_elem. exists j. by auto.
  - by intros t [= <-].
  - intros s. apply queuedJobs_elem.
  - apply queuedJobs_ids, Hi.
  - by left.
  - by intros ? ? ? ? [?|?].
  - intros j [Hj _]%queuedJobs_elem. exists j. by auto.
Qed.

Lemma pass_inv_iter needs now Q n m : pass_inv needs now Q m → pass_inv needs now Q (Nat.iter n (advance needs) m) ∧ rtc mstep m (Nat.iter n (advance needs) m).
Proof.
  induction n as [|n IH]; intros H; simpl; [done|]. destruct (IH H) as [H1 H2]. split; [by apply pass_inv_advance|].
  eapply rtc_r; [exact H2|]. apply ms_advance.
Qed.

(** C35: a dispatch pass that nothing interrupts ends, is a sequence of steps of the
    manager and decides every job of the queue it read. Such a job keeps its row and
    is left queued, in the row it had, or was started, with its start recorded, and
    its runner runs, or failed for want of a runner of its type, and for no other
    reason; neither happens before its window opens. A job left queued, in the state
    the pass leaves, waits for its window, is still being put back by its last run,
    or lacks a worker, a lock key or a slot (or the answer whether it needs one).
    When a job waits for its window, the dispatcher wakes at that time at the
    latest, or every pool is full. *)
Theorem dispatch_leaves_only_blocked (workers : Z) (start now : time) (m : Manager) (w0 : option time) (needs : string → Job → option bool) :
  rtc mstep (start_manager MaxAttempts workers [] start) m → mg_started m = true → mg_pass m = PDone w0 →
  let m' := dispatch RefreshWorkers Slots registered needs now m in
  rtc mstep m m' ∧ ∃ w, mg_pass m' = PDone w ∧
  ∀ j, j ∈ queuedJobs (mg_db m) queuedScan → ∃ i, i ∈ mg_db m' ∧ jb_ID i = jb_ID j ∧
    (started_by_pass now m' j i ∨ failed_by_pass now j i ∨ (i = j ∧ blocked needs now m' j ∧ wakes now m' w j)).
Proof.
  intros Hi%inv_reachable Hst Hp m'. pose proof (pass_inv_begin needs now m w0 Hi Hst Hp) as Hb.
  destruct (pass_inv_iter needs now _ (pass_fuel (mg_pass (begin_pass RefreshWorkers now m))) _ Hb) as [Hm Hs].
  fold (dispatch RefreshWorkers Slots registered needs now m) in Hm, Hs. fold m' in Hm, Hs.
  destruct (pass_ends needs (pass_fuel (mg_pass (begin_pass RefreshWorkers now m))) (begin_pass RefreshWorkers now m)) as [w Hw]; [done|].
  fold (dispatch RefreshWorkers Slots registered needs now m) in Hw. fold m' in Hw.
  split; [eapply rtc_l; [by eapply ms_begin|exact Hs]|]. exists w. split; [exact Hw|]. intros j HQ.
  destruct (pi_left _ _ _ _ Hm j HQ) as (i & Hin & Hid & [->|[H|H]]); [|exists i; by auto..].
  exists j. split_and!; [done|done|]. do 2 right. pose proof (proj2 (queuedJobs_elem _ _ _ HQ)) as Hq.
  destruct (pi_done _ _ _ _ Hm j HQ Hin Hq) as [Hpj|H]; rewrite Hw in *; [by apply elem_of_nil in Hpj|done].
Qed.

Lemma record_decision_row db id now d i : table_ok db → i ∈ db → jb_ID i = id → running i = true →
  ∃ j, j ∈ record_decision db id now d ∧ jb_ID j = id ∧ jb_Attempt j = jb_Attempt i ∧ jb_Params j = jb_Params i ∧
    match d with
    | DFinal st err => jb_Status j = st ∧ jb_Error j = err ∧ jb_FinishedAt j = Some now
    | DDefer until => jb_Status j = StatusQueued ∧ jb_NotBefore j = Some until ∧ deferrals_after db i (jb_Deferrals j) ∧ jb_Trigger j = jb_Trigger i
    | DRequeue => jb_Status j = StatusQueued ∧ jb_Trigger j = TriggerResume ∧ jb_NotBefore j = None
    end.
Proof.
  intros Hok Hi <- Hr. pose proof (running_row i (to_rows _ Hok _ Hi) Hr) as (_ & _ & _ & _ & Hnb). destruct d as [st err|until|]; simpl.
  - exists (end_job st err now i). split_and!; try done. apply update_where_elem. left. by exists i.
  - eexists. split; [apply update_where_elem; left; by exists i|]. simpl. split_and!; try done. apply defer_count, (to_rows _ Hok _ Hi).
  - exists (resume_job i). split_and!; try done. apply update_where_elem. left. by exists i.
Qed.

Lemma record_decision_others db id now d k : k ∈ db → jb_ID k ≠ id → k ∈ record_decision db id now d.
Proof. intros Hk Hne. destruct d; apply update_where_elem; right; (split; [done|]); by intros [? _]. Qed.

(** The ways a run can end. *)
Inductive ends (c : option cause) (now : time) : outcome → decision → Prop :=
| end_panic text : ends c now (Panicked text) (DFinal StatusFailed (Some (ErrorText ("runner panicked: " +:+ text)%string)))
| end_ok w : w ≤ 0 → ends c now (Returned None w) (DFinal StatusCompleted None)
| end_warned w : 0 < w → ends c now (Returned None w) (DFinal StatusCompletedWithWarnings None)
| end_cancel e w : c = Some UserCancel → ends c now (Returned (Some e) w) (DFinal StatusCancelled None)
| end_defer until w : c ≠ Some UserCancel → now < until → ends c now (Returned (Some (RDeferred (Some until))) w) (DDefer until)
| end_no_time u w err : c ≠ Some UserCancel → (∀ t, u = Some t → t ≤ now) → ends c now (Returned (Some (RDeferred u)) w) (DFinal StatusFailed (Some err))
| end_shutdown text w : c = Some Shutdown → ends c now (Returned (Some (RError text)) w) DRequeue
| end_error text w : c = None → ends c now (Returned (Some (RError text)) w) (DFinal StatusFailed (Some (ErrorText text))).

Lemma decide_ends c now o : ends c now o (decide_outcome c now o).
Proof.
  destruct o as [text|[e|] w]; [apply end_panic| |cbn [decide_outcome]; destruct (Z.ltb_spec 0 w); [by apply end_warned|by apply end_ok]].
  cbn [decide_outcome]. destruct (bool_decide (c = Some UserCancel)) eqn:Ec; [apply end_cancel; by apply bool_decide_eq_true in Ec|].
  apply bool_decide_eq_false in Ec. destruct e as [[until|]|text].
  - destruct (Z.ltb_spec now until); [by apply end_defer|]. apply end_no_time; [done|]. by intros t [= ->].
  - by apply end_no_time.
  - destruct (bool_decide (c = Some Shutdown)) eqn:Es; [apply end_shutdown; by apply bool_decide_eq_true in Es|].
    apply bool_decide_eq_false in Es. apply end_error. destruct c as [[]|]; done.
Qed.

(** What the row of a finished run says about the run; [db] is the table before. *)
Definition row_after (db : table) (c : option cause) (now : time) (o : outcome) (i j : Job) : Prop :=
  (jb_Status j = StatusCompleted ↔ ∃ w, o = Returned None w ∧ w ≤ 0) ∧
  (jb_Status j = StatusCompletedWithWarnings ↔ ∃ w, o = Returned None w ∧ 0 < w) ∧
  (jb_Status j = StatusCancelled ↔ c = Some UserCancel ∧ ∃ e w, o = Returned (Some e) w) ∧
  (jb_Status j = StatusQueued ↔ c ≠ Some UserCancel ∧
     ((∃ until w, o = Returned (Some (RDeferred (Some until))) w ∧ now < until ∧ jb_NotBefore j = Some until ∧
         deferrals_after db i (jb_Deferrals j) ∧ jb_Trigger j = jb_Trigger i) ∨
      (∃ text w, o = Returned (Some (RError text)) w ∧ c = Some Shutdown ∧ jb_Trigger j = TriggerResume ∧ jb_NotBefore j = None))) ∧
  (jb_Status j = StatusFailed → jb_Error j ≠ None) ∧
  (∀ text w, c = None → o = Returned (Some (RError text)) w → jb_Error j = Some (ErrorText text)) ∧ jb_Status j ≠ StatusRunning.

(** An end that is not the one asked about. *)
Ltac other_end :=
  first [discriminate | done | (intros (? & ? & ?); first [congruence | lia | (simplify_eq; lia)]) | by intros [?|?] | by intros [? ?] | (intros (? & _); congruence) | by intros (_ & ? & ? & ?)
    | by intros (_ & [(? & ? & ? & _)|(? & ? & ? & _)]) | (intros (_ & [(? & ? & ? & _)|(? & ? & _ & ? & _)]); congruence)].

Lemma ends_row db c now o d i j : ends c now o d →
  match d with
  | DFinal st err => jb_Status j = st ∧ jb_Error j = err ∧ jb_FinishedAt j = Some now
  | DDefer until => jb_Status j = StatusQueued ∧ jb_NotBefore j = Some until ∧ deferrals_after db i (jb_Deferrals j) ∧ jb_Trigger j = jb_Trigger i
  | DRequeue => jb_Status j = StatusQueued ∧ jb_Trigger j = TriggerResume ∧ jb_NotBefore j = None
  end → row_after db c now o i j.
Proof.
  intros He Hd. unfold row_after. generalize dependent (jb_Status j). intros s Hd.
  destruct He as [text|w Hw|w Hw|e w Hc|until w Hc Hlt|u w err Hc Hu|text w Hc|text w Hc].
  - destruct Hd as (-> & He & _). split_and!; [| | | |congruence|discriminate|discriminate]; split; other_end.
  - destruct Hd as (-> & He & _). split_and!; [| | | |discriminate|discriminate|discriminate]; split; try other_end. intros _. by exists w.
  - destruct Hd as (-> & He & _). split_and!; [| | | |discriminate|discriminate|discriminate]; split; try other_end. intros _. by exists w.
  - destruct Hd as (-> & He & _). split_and!; [| | | |discriminate|congruence|discriminate]; split; try other_end. intros _. split; [done|by exists e, w].
  - destruct Hd as (-> & Hd). split_and!; [| | | |discriminate|discriminate|discriminate]; split; try other_end.
    intros _. split; [done|]. left. exists until, w. split_and!; [done|done|apply Hd..].
  - destruct Hd as (-> & He & _). split_and!; [| | | |congruence|discriminate|discriminate]; split; try other_end.
    intros (_ & [(t & w' & E & Ht & _)|(? & ? & ? & _)]); [|discriminate]. injection E as -> _. specialize (Hu t eq_refl). lia.
  - destruct Hd as (-> & Hd). split_and!; [| | | |discriminate|congruence|discriminate]; split; try other_end.
    intros _. split; [congruence|]. right. exists text, w. split_and!; [done|done|apply Hd..].
  - destruct Hd as (-> & He & _). split_and!; [| | | |congruence| |discriminate]; try (intros t w' _ [= <- _]; exact He); split; try other_end.
Qed.

End Invariant.

(** ** Examples: one slot for uploads, every type has a runner *)
Definition sample_slots : list SlotPool := [mkPool "upload"%string 1 true].
Definition all_types (t : job_type) : bool := true.
Definition no_needs (name : string) (j : Job) : option bool := Some false.
Abbreviation sample_step := (mstep 2 3 sample_slots all_types).

(** Two syncs of one destination are queued, a full one and a targeted one of another
    source that the full one does not cover. *)
Definition sample_full : Spec := mkSpec TypeSync None false (sync_of 1 8 []).
Definition sample_db : table := after (createJob sample_queue sample_full 150).
Definition full_job : Job := mkJob 2 TypeSync StatusQueued TriggerManual false (sync_of 1 8 []) 1 None 150 None None None 0 None None.
Definition sample_start : Manager := start_manager 3 2 [] 50.
Definition sample_manager : Manager := set_db sample_db sample_start.
Definition sample_busy : Manager := dispatch 2 sample_slots all_types no_needs 200 sample_manager.

Lemma sample_limits : 1 ≤ 2 ∧ 1 ≤ 3 ∧ NoDup (sl_name <$> sample_slots) ∧ ∀ p, p ∈ sample_slots → 1 ≤ sl_limit p.
Proof.
  split_and!; [lia|lia|by repeat constructor; intros ?%elem_of_nil|]. by intros p ->%list_elem_of_singleton.
Qed.
Lemma sample_manager_reached : rtc sample_step sample_start sample_manager.
Proof.
  apply (rtc_l _ _ (set_db sample_queue sample_start)).
  - apply (ms_enqueue 2 3 sample_slots all_types sample_start (webhook (sync_of 1 7 ["Show/Season 1"; "Heat (1995)"]%string)) 100 sample_queue sample_job outcomeCreated).
    vm_compute. reflexivity.
  - apply rtc_once. apply (ms_enqueue 2 3 sample_slots all_types (set_db sample_queue sample_start) sample_full 150 sample_db full_job outcomeCreated).
    vm_compute. reflexivity.
Qed.
Lemma iter_reached n m : rtc sample_step m (Nat.iter n (advance 2 sample_slots all_types no_needs) m).
Proof. induction n as [|n IH]; simpl; [done|]. eapply rtc_r; [exact IH|apply ms_advance]. Qed.
Lemma sample_busy_reached : rtc sample_step sample_start sample_busy.
Proof.
  transitivity sample_manager; [apply sample_manager_reached|]. unfold sample_busy, dispatch.
  eapply rtc_l; [eapply (ms_begin _ _ _ _ sample_manager 200); reflexivity|]. apply iter_reached.
Qed.

(** The pass starts the first sync; the second waits for the key of the destination. *)
Example busy_sample : (jb_Status <$> mg_db sample_busy) = [StatusRunning; StatusQueued] ∧ mg_keys sample_busy !! "dest:1"%string = Some 1.
Proof. vm_compute. done. Qed.

Lemma jobs_exclusive_witness :
  (jb_Status <$> mg_db sample_busy) = [StatusRunning; StatusQueued] ∧
  (∀ i j k, i ∈ mg_db sample_busy → j ∈ mg_db sample_busy → running i = true → running j = true →
     k ∈ LockKeys (jb_Type i) (jb_Params i) → k ∈ LockKeys (jb_Type j) (jb_Params j) → i = j) ∧
  (∀ j k keys, j ∈ mg_db sample_busy → running j = true → k ∈ LockKeys (jb_Type j) (jb_Params j) →
     mg_keys sample_busy !! k = Some (jb_ID j) ∧ (k ∈ keys → HoldKeys keys sample_busy = None)) ∧
  (∀ p, p ∈ sample_slots → total (λ aj, occurs (sl_name p) (aj_slots aj)) (mg_running sample_busy) ≤ sl_limit p) ∧
  refreshes sample_busy ≤ 2 ∧
  (∀ m', sample_step sample_busy m' → generals m' ≤ Z.max (generals sample_busy) (mg_workers m')).
Proof.
  split; [vm_compute; reflexivity|].
  exact (jobs_exclusive 2 3 sample_slots all_types sample_limits 2 50 sample_busy sample_busy_reached).
Defined.

Lemma dispatch_leaves_only_blocked_witness :
  (jb_Status <$> mg_db sample_busy) = [StatusRunning; StatusQueued] ∧
  rtc sample_step sample_manager sample_busy ∧ ∃ w, mg_pass sample_busy = PDone w ∧
  ∀ j, j ∈ queuedJobs (mg_db sample_manager) queuedScan → ∃ i, i ∈ mg_db sample_busy ∧ jb_ID i = jb_ID j ∧
    (started_by_pass all_types 200 sample_busy j i ∨ failed_by_pass all_types 200 j i ∨
     (i = j ∧ blocked 2 sample_slots no_needs 200 sample_busy j ∧ wakes 2 200 sample_busy w j)).
Proof.
  split; [vm_compute; reflexivity|].
  exact (dispatch_leaves_only_blocked 2 3 sample_slots all_types sample_limits 2 50 200 sample_manager None no_needs
    sample_manager_reached eq_refl eq_refl).
Defined.

Definition busy_job : activeJob := mkActive ["dest:1"%string] [] false None Executing.
