(* ===== verification/Schedules.v ===== *)
(** * Schedules: the schedules table ([internal/jobqueue/schedules.go]) and the check
    of cron expressions ([parseCron] in [internal/jobqueue/scheduler.go])

    The table is the list of its rows in the order of their ids; (job type, params)
    is unique. [created_at] and [updated_at], which only the API shows, are left out.
    The cron library is a parameter: [cron_parse] its parser ([None] for an error or
    a panic) and [Next] the next activation time of a schedule ([None] for never). *)
From stdpp Require Import base gmap list strings.
From Stdlib Require Import Ascii Lia.
From S2P Require Import Prelude GoStrings JobParams JobQueue.
Open Scope Z_scope.

Record Schedule := mkSchedule {
  sc_ID : Z;
  sc_JobType : job_type;
  sc_Params : Params;
  sc_Cron : string;
  sc_Enabled : bool;
  sc_LastRunAt : option time;
}.
#[export] Instance Schedule_eq_dec : EqDecision Schedule.
Proof. solve_decision. Defined.

Inductive schedule_error :=
| CronEmpty | CronZone | CronDescriptor (e : string) | CronFields (e : string) (n : Z) | CronInvalid (e : string) | CronNeverFires (e : string)
| BadParams (e : param_error) | NoSelector | ParamsDoNotMatch (t : job_type) | SameParams (t : job_type) | ScheduleNotFound (id : Z).

(** [len(strings.Fields(s))]: the runs of runes that are no white space. *)
Fixpoint count_fields (inside : bool) (rs : list Z) : Z :=
  match rs with
  | [] => 0
  | r :: rs =>
      if mem r space_runes then count_fields false rs
      else (if inside then 0 else 1) + count_fields true rs
  end.
Definition fields_count (s : string) : Z := count_fields false (runes s).

Definition with_cron (cron : string) (enabled : bool) (s : Schedule) : Schedule :=
  mkSchedule (sc_ID s) (sc_JobType s) (sc_Params s) cron enabled (sc_LastRunAt s).
Definition with_last_run (at_ : time) (s : Schedule) : Schedule :=
  mkSchedule (sc_ID s) (sc_JobType s) (sc_Params s) (sc_Cron s) (sc_Enabled s) (Some at_).

Definition next_schedule_id (db : list Schedule) : Z := foldr (λ s m, Z.max (sc_ID s) m) 0 db + 1.
Definition same_key (t : job_type) (p : Params) (s : Schedule) : bool := bool_decide (sc_JobType s = t) && bool_decide (sc_Params s = p).

(** [INSERT ... ON CONFLICT (job_type, params) DO UPDATE SET cron, enabled RETURNING] *)
Definition upsert_row (t : job_type) (p : Params) (cron : string) (enabled : bool) (db : list Schedule) : list Schedule * Schedule :=
  match List.find (same_key t p) db with
  | Some s => ((λ x, if sc_ID x =? sc_ID s then with_cron cron enabled x else x) <$> db, with_cron cron enabled s)
  | None => let s := mkSchedule (next_schedule_id db) t p cron enabled None in ((db ++ [s])%list, s)
  end.

(** [paramsMatch] *)
Definition paramsMatch (p match_ : Params) : bool :=
  if negb (jp_DestinationID match_ =? 0) && negb (jp_DestinationID p =? jp_DestinationID match_) then false
  else if negb (jp_IntegrationID match_ =? 0) && negb (jp_IntegrationID p =? jp_IntegrationID match_) then false
  else forallb (λ id, mem id (jp_SourceIDs p)) (jp_SourceIDs match_).

Definition has_selector (match_ : Params) : bool :=
  negb (jp_DestinationID match_ =? 0) || negb (jp_IntegrationID match_ =? 0) || nonempty (jp_SourceIDs match_).

Record ScheduleSpec := mkScheduleSpec { ss_Params : Params; ss_Cron : string; ss_Enabled : bool }.
(** A checked [ScheduleSpec]: canonical params, trimmed cron. *)
Record wanted := mkWanted { wa_params : Params; wa_cron : string; wa_enabled : bool }.

(** [MarkRun] *)
Definition MarkRun (db : list Schedule) (id : Z) (at_ : time) : list Schedule :=
  (λ s, if sc_ID s =? id then with_last_run at_ s else s) <$> db.
Definition DeleteSchedule (db : list Schedule) (id : Z) : result schedule_error (list Schedule) :=
  if existsb (λ s, sc_ID s =? id) db then Ok (List.filter (λ s, negb (sc_ID s =? id)) db) else Err (ScheduleNotFound id).
Definition DeleteSchedulesFor (db : list Schedule) (match_ : Params) : result schedule_error (list Schedule) :=
  guard? has_selector match_ else NoSelector;
  Ok (List.filter (λ s, negb (paramsMatch (sc_Params s) match_)) db).

Section Cron.
Context {cron_spec : Type} (cron_parse : string → option cron_spec) (Next : cron_spec → time → option time).

Definition parseCron (now : time) (expr : string) : result schedule_error cron_spec :=
  let e := trim_space expr in
  if String.eqb e "" then Err CronEmpty
  else if has_prefix e "TZ=" || has_prefix e "CRON_TZ=" then Err CronZone
  else
    let? _ :=
      (if has_prefix e "@" then
         guard? mem e ["@hourly"; "@daily"; "@weekly"; "@monthly"]%string else CronDescriptor e; Ok tt
       else guard? fields_count e =? 5 else CronFields e (fields_count e); Ok tt) in
    match cron_parse e with
    | None => Err (CronInvalid e)
    | Some sp => match Next sp now with None => Err (CronNeverFires e) | Some _ => Ok sp end
    end.
Definition ValidateCron (now : time) (expr : string) : result schedule_error unit :=
  let? _ := parseCron now expr in Ok tt.

Definition check_params (t : job_type) (p : Params) : result schedule_error unit :=
  match validateParams t p false with Ok _ => Ok tt | Err e => Err (BadParams e) end.

Definition UpsertSchedule (now : time) (db : list Schedule) (t : job_type) (p : Params) (cron : string) (enabled : bool)
    : result schedule_error (list Schedule * Schedule) :=
  let? _ := check_params t p in
  let cron := trim_space cron in
  let? _ := ValidateCron now cron in
  Ok (upsert_row t (normalizeParams p) cron enabled db).

Definition UpdateSchedule (now : time) (db : list Schedule) (id : Z) (cron : string) (enabled : bool)
    : result schedule_error (list Schedule) :=
  let cron := trim_space cron in
  let? _ := ValidateCron now cron in
  guard? existsb (λ s, sc_ID s =? id) db else ScheduleNotFound id;
  Ok ((λ s, if sc_ID s =? id then with_cron cron enabled s else s) <$> db).

(** The checks of [SyncSchedules], one wanted schedule after the other. *)
Fixpoint check_wanted (now : time) (t : job_type) (match_ : Params) (seen : list Params) (want : list ScheduleSpec)
    : result schedule_error (list wanted) :=
  match want with
  | [] => Ok []
  | w :: want =>
      let? _ := check_params t (ss_Params w) in
      guard? paramsMatch (normalizeParams (ss_Params w)) match_ else ParamsDoNotMatch t;
      let cron := trim_space (ss_Cron w) in
      let? _ := ValidateCron now cron in
      let p := normalizeParams (ss_Params w) in
      guard? negb (mem p seen) else SameParams t;
      let? ws := check_wanted now t match_ (p :: seen) want in
      Ok (mkWanted p cron (ss_Enabled w) :: ws)
  end.

Definition id_cmp (a b : Schedule) : Z := zcmp (sc_ID a) (sc_ID b).
Definition drop_schedules (t : job_type) (match_ : Params) (keep : list Params) (db : list Schedule) : list Schedule :=
  List.filter (λ s, negb (bool_decide (sc_JobType s = t) && paramsMatch (sc_Params s) match_ && negb (mem (normalizeParams (sc_Params s)) keep))) db.
Fixpoint upsert_all (t : job_type) (ws : list wanted) (db : list Schedule) : list Schedule * list Schedule :=
  match ws with
  | [] => (db, [])
  | w :: ws =>
      let '(db, s) := upsert_row t (wa_params w) (wa_cron w) (wa_enabled w) db in
      let '(db, out) := upsert_all t ws db in (db, s :: out)
  end.

Definition SyncSchedules (now : time) (db : list Schedule) (t : job_type) (match_ : Params) (want : list ScheduleSpec)
    : result schedule_error (list Schedule * list Schedule) :=
  guard? has_selector match_ else NoSelector;
  let? ws := check_wanted now t match_ [] want in
  let '(db, out) := upsert_all t ws (drop_schedules t match_ (wa_params <$> ws) db) in
  Ok (db, isort id_cmp out).
End Cron.

(** ** Well-formed tables *)
Definition key (s : Schedule) : job_type * Params := (sc_JobType s, sc_Params s).
Record schedules_ok (db : list Schedule) : Prop := {
  so_ids : StronglySorted (λ a b, sc_ID a < sc_ID b) db;
  so_keys : ∀ a b, a ∈ db → b ∈ db → key a = key b → a = b;
  so_canonical : ∀ s, s ∈ db → normalizeParams (sc_Params s) = sc_Params s;
}.

Lemma schedule_unique db a b : schedules_ok db → a ∈ db → b ∈ db → sc_ID a = sc_ID b → a = b.
Proof.
  intros [Hs _ _]. induction Hs as [|x l Hs IH Hx]; [by intros ?%elem_of_nil|]. rewrite Forall_forall in Hx.
  intros [->|Ha]%elem_of_cons [->|Hb]%elem_of_cons E; [done| | |by apply IH].
  - specialize (Hx b Hb). lia.
  - specialize (Hx a Ha). lia.
Qed.

Lemma next_schedule_above db s : s ∈ db → sc_ID s < next_schedule_id db.
Proof.
  unfold next_schedule_id. induction db as [|a db IH]; [by intros ?%elem_of_nil|]. simpl. intros [->|H]%elem_of_cons; [lia|].
  specialize (IH H). lia.
Qed.

Lemma same_key_spec t p s : same_key t p s = true ↔ key s = (t, p).
Proof. unfold same_key, key. rewrite andb_true_iff, !bool_decide_eq_true. split; [by intros [-> ->]|by intros [= -> ->]]. Qed.

Lemma with_cron_id s : with_cron (sc_Cron s) (sc_Enabled s) s = s.
Proof. by destruct s. Qed.

(** An upsert writes one row, keeps its id and last run when it was there, and
    touches no other row. *)
Lemma upsert_spec t p cron enabled db db' s : schedules_ok db → normalizeParams p = p → upsert_row t p cron enabled db = (db', s) →
  schedules_ok db' ∧ s ∈ db' ∧ key s = (t, p) ∧ sc_Cron s = cron ∧ sc_Enabled s = enabled ∧
  (∀ x, key x ≠ (t, p) → x ∈ db' ↔ x ∈ db) ∧
  (∀ x, x ∈ db → key x = (t, p) → sc_ID s = sc_ID x ∧ sc_LastRunAt s = sc_LastRunAt x).
Proof.
  intros Hok Hp. unfold upsert_row. destruct (List.find (same_key t p) db) as [s0|] eqn:E; intros [= <- <-].
  - apply find_elem in E as [Hin Hk%same_key_spec]. set (f := λ x, if sc_ID x =? sc_ID s0 then with_cron cron enabled x else x).
    assert (Hf0 : f s0 = with_cron cron enabled s0) by (unfold f; by rewrite Z.eqb_refl).
    assert (Hkey : ∀ x, key (f x) = key x) by (intros x; unfold f; by destruct (_ =? _)).
    assert (Hid : ∀ x, sc_ID (f x) = sc_ID x) by (intros x; unfold f; by destruct (_ =? _)).
    assert (Hother : ∀ x, x ∈ db → key x ≠ (t, p) → f x = x).
    { intros x Hx Hne. unfold f. destruct (Z.eqb_spec (sc_ID x) (sc_ID s0)) as [E|]; [|done]. by rewrite (schedule_unique db x s0 Hok Hx Hin E) in Hne. }
    assert (Hin' : with_cron cron enabled s0 ∈ f <$> db) by (rewrite <-Hf0; by apply list_elem_of_fmap_2).
    split_and!; try done.
    + destruct Hok as [Hs Hu Hc]. split.
      * clear -Hs Hid. induction Hs as [|a l Hs IH Ha]; [constructor|]. rewrite fmap_cons. constructor; [done|].
        rewrite Forall_forall in *. intros x (b & -> & Hb)%list_elem_of_fmap. rewrite !Hid. by apply Ha.
      * intros a b (a0 & -> & Ha)%list_elem_of_fmap (b0 & -> & Hb)%list_elem_of_fmap. rewrite !Hkey. intros H. by rewrite (Hu a0 b0).
      * intros a (a0 & -> & Ha)%list_elem_of_fmap. pose proof (Hkey a0) as H. unfold key in H. injection H as _ ->. by apply Hc.
    + intros x Hx. rewrite list_elem_of_fmap. split.
      * intros (y & -> & Hy). rewrite Hkey in Hx. by rewrite Hother.
      * intros Hin2. exists x. by rewrite Hother.
    + intros x Hx Hkx. by rewrite (so_keys _ Hok x s0 Hx Hin) by congruence.
  - assert (Hnone : ∀ x, x ∈ db → key x ≠ (t, p)).
    { intros x Hx Hk. apply list_elem_of_In in Hx. pose proof (find_none _ _ E x Hx) as Hn. by rewrite (proj2 (same_key_spec t p x) Hk) in Hn. }
    assert (Hnew : mkSchedule (next_schedule_id db) t p cron enabled None ∈ (db ++ [mkSchedule (next_schedule_id db) t p cron enabled None])%list)
      by (apply elem_of_app; right; by left).
    split_and!; try done.
    + destruct Hok as [Hs Hu Hc]. split.
      * assert (Hall : ∀ x, x ∈ db → sc_ID x < next_schedule_id db) by (intros x; apply next_schedule_above).
        generalize dependent (next_schedule_id db). intros n _ Hall. clear -Hs Hall.
        induction Hs as [|a l Hs IH Ha]; simpl; [by repeat constructor|]. constructor; [apply IH; intros; apply Hall; by right|].
        apply Forall_app. split; [done|]. constructor; [simpl; apply Hall; by left|done].
      * intros a b [Ha|Ha%list_elem_of_singleton]%elem_of_app [Hb|Hb%list_elem_of_singleton]%elem_of_app H; [by apply Hu| | |congruence].
        -- subst b. by destruct (Hnone a Ha).
        -- subst a. by destruct (Hnone b Hb).
      * intros a [Ha|Ha%list_elem_of_singleton]%elem_of_app; [by apply Hc|by subst a].
    + intros x Hx. rewrite elem_of_app, list_elem_of_singleton. split; [intros [?|Hx']; [done|by subst x]|by left].
    + intros x Hx Hk. by destruct (Hnone x Hx).
Qed.

(** Upserts of distinct keys. *)
Lemma upsert_all_spec t ws db db' out : schedules_ok db → NoDup (wa_params <$> ws) → (∀ w, w ∈ ws → normalizeParams (wa_params w) = wa_params w) →
  upsert_all t ws db = (db', out) →
  schedules_ok db' ∧
  (∀ s, s ∈ out ↔ s ∈ db' ∧ ∃ w, w ∈ ws ∧ key s = (t, wa_params w)) ∧
  (∀ w, w ∈ ws → ∃ s, s ∈ db' ∧ key s = (t, wa_params w) ∧ sc_Cron s = wa_cron w ∧ sc_Enabled s = wa_enabled w ∧
     ∀ x, x ∈ db → key x = key s → sc_ID s = sc_ID x ∧ sc_LastRunAt s = sc_LastRunAt x) ∧
  (∀ x, (∀ w, w ∈ ws → key x ≠ (t, wa_params w)) → x ∈ db' ↔ x ∈ db).
Proof.
  revert db db' out. induction ws as [|w ws IH]; intros db db' out Hok Hnd Hc; cbn [upsert_all].
  - intros [= <- <-]. split_and!; [done| |by intros w ?%elem_of_nil|done]. intros s. split; [by intros ?%elem_of_nil|].
    by intros (_ & w & ?%elem_of_nil & _).
  - destruct (upsert_row t (wa_params w) (wa_cron w) (wa_enabled w) db) as [db1 s1] eqn:E1.
    destruct (upsert_all t ws db1) as [db2 out2] eqn:E2. intros [= <- <-]. rewrite fmap_cons in Hnd. apply NoDup_cons in Hnd as [Hnw Hnd].
    apply upsert_spec in E1 as (Hok1 & Hs1 & Hk1 & Hcr1 & Hen1 & Ho1 & Hold1); [|done|apply Hc; by left].
    apply IH in E2 as (Hok2 & Hout2 & Hw2 & Ho2); [|done|done|intros w' Hw'; apply Hc; by right].
    assert (Hne : ∀ w', w' ∈ ws → wa_params w ≠ wa_params w').
    { intros w' Hw' E. apply Hnw. rewrite E. by apply list_elem_of_fmap_2. }
    assert (Hs2 : s1 ∈ db2) by (apply Ho2; [intros w' Hw'; rewrite Hk1; intros [= E]; by destruct (Hne w' Hw')|done]).
    split_and!; [done| | |].
    + intros s. rewrite elem_of_cons, Hout2. split.
      * intros [->|(Hs & w' & Hw' & Hk)]; [split; [done|]; exists w; split; [by left|done]|split; [done|]; exists w'; split; [by right|done]].
      * intros (Hs & w' & [->|Hw']%elem_of_cons & Hk); [left|right; split; [done|by exists w']].
        apply (so_keys _ Hok2); [done|done|congruence].
    + intros w' [->|Hw']%elem_of_cons.
      * exists s1. split_and!; try done. intros x Hx Hk. apply Hold1; [done|congruence].
      * destruct (Hw2 w' Hw') as (s & Hs & Hk & Hcr & Hen & Hold). exists s. split_and!; try done. intros x Hx Hkx. apply Hold; [|done].
        apply Ho1; [|done]. rewrite Hkx, Hk. intros [= E]. by destruct (Hne w' Hw').
    + intros x Hx. rewrite Ho2, Ho1; [done|apply Hx; by left|intros w' Hw'; apply Hx; by right].
Qed.

#[export] Instance id_cmp_ordering : Ordering id_cmp.
Proof.
  split; unfold id_cmp.
  - intros a b. pose proof (zcmp_spec (sc_ID a) (sc_ID b)). pose proof (zcmp_spec (sc_ID b) (sc_ID a)). lia.
  - intros a b c. pose proof (zcmp_spec (sc_ID a) (sc_ID b)). pose proof (zcmp_spec (sc_ID b) (sc_ID c)). pose proof (zcmp_spec (sc_ID a) (sc_ID c)). lia.
Qed.

Lemma filter_schedules_ok f db : schedules_ok db → schedules_ok (List.filter f db).
Proof.
  intros [Hs Hu Hc]. split.
  - clear Hu Hc. induction Hs as [|a l Hs IH Ha]; simpl; [constructor|]. destruct (f a); [|done]. constructor; [done|].
    rewrite Forall_forall in *. intros x [Hx _]%filter_bool_elem. by apply Ha.
  - intros a b [Ha _]%filter_bool_elem [Hb _]%filter_bool_elem. by apply Hu.
  - intros a [Ha _]%filter_bool_elem. by apply Hc.
Qed.

(** The deletion removes what matches and is not wanted. *)
Lemma drop_elem t match_ (keep : list Params) db x : schedules_ok db → x ∈ drop_schedules t match_ keep db ↔ x ∈ db ∧
  ¬ (sc_JobType x = t ∧ paramsMatch (sc_Params x) match_ = true ∧ sc_Params x ∉ keep).
Proof.
  intros Hok. unfold drop_schedules. rewrite filter_bool_elem, negb_true_iff, <-not_true_iff_false, !andb_true_iff, negb_true_iff, bool_decide_eq_true.
  split; intros [Hx Hn]; (split; [done|]); intros Hc; apply Hn; rewrite (so_canonical _ Hok x Hx) in *;
    rewrite <-(not_true_iff_false (mem _ _)), mem_spec in *; tauto.
Qed.
Lemma wanted_keys t (ws : list wanted) x : (∃ w, w ∈ ws ∧ key x = (t, wa_params w)) ↔ sc_JobType x = t ∧ sc_Params x ∈ wa_params <$> ws.
Proof.
  unfold key. split; [intros (w & Hin & [= -> ->]); split; [done|by apply list_elem_of_fmap_2]|].
  intros [<- (w & E & Hin)%list_elem_of_fmap]. exists w. by rewrite E.
Qed.

Section Sync.
Context {cron_spec : Type} (cron_parse : string → option cron_spec) (Next : cron_spec → time → option time).

Lemma check_wanted_ok now t match_ seen want ws : check_wanted cron_parse Next now t match_ seen want = Ok ws →
  ws = (λ w, mkWanted (normalizeParams (ss_Params w)) (trim_space (ss_Cron w)) (ss_Enabled w)) <$> want ∧
  NoDup (wa_params <$> ws) ∧ (∀ w, w ∈ ws → (wa_params w ∉ seen) ∧ paramsMatch (wa_params w) match_ = true).
Proof.
  revert seen ws. induction want as [|w want IH]; intros seen ws; cbn [check_wanted].
  - intros [= <-]. split_and!; [done|constructor|by intros w ?%elem_of_nil].
  - intros ([] & _ & H)%rbind_ok. destruct (paramsMatch _ _) eqn:Hm; [|done]. apply rbind_ok in H as ([] & _ & H).
    destruct (negb (mem _ seen)) eqn:Hs; [|done]. apply rbind_ok in H as (ws' & Hws & [= <-]).
    apply IH in Hws as (-> & Hnd & Hall). apply negb_true_iff in Hs. split_and!; [done| |].
    + rewrite fmap_cons. constructor; [|done]. intros (x & E & Hx)%list_elem_of_fmap. destruct (Hall x Hx) as [Hn _]. apply Hn. rewrite <-E. by left.
    + intros x [->|Hx]%elem_of_cons; simpl.
      * split; [|done]. intros Hin. by rewrite (proj2 (mem_spec _ seen) Hin) in Hs.
      * destruct (Hall x Hx) as [Hn Hm']. split; [|done]. intros Hin. apply Hn. by right.
Qed.

(** when [SyncSchedules] succeeds, the schedules of the job type that match the
    selector are exactly the wanted ones: each has the cron expression and flag of
    its specification, and one that existed keeps its id and its last run; no other
    schedule changes, and the result lists the matching ones in the order of their
    ids. *)
Theorem sync_schedules_exact (now : time) (db db' out : list Schedule) (t : job_type) (match_ : Params) (want : list ScheduleSpec) :
  schedules_ok db → SyncSchedules cron_parse Next now db t match_ want = Ok (db', out) →
  schedules_ok db' ∧
  (∀ s, s ∈ out ↔ s ∈ db' ∧ sc_JobType s = t ∧ paramsMatch (sc_Params s) match_ = true) ∧
  StronglySorted (λ a b, sc_ID a ≤ sc_ID b) out ∧
  (∀ w, w ∈ want → ∃ s, s ∈ out ∧ sc_Params s = normalizeParams (ss_Params w) ∧ sc_Cron s = trim_space (ss_Cron w) ∧ sc_Enabled s = ss_Enabled w ∧
     ∀ x, x ∈ db → key x = key s → sc_ID s = sc_ID x ∧ sc_LastRunAt s = sc_LastRunAt x) ∧
  (∀ s, s ∈ out → ∃ w, w ∈ want ∧ sc_Params s = normalizeParams (ss_Params w)) ∧
  (∀ x, ¬ (sc_JobType x = t ∧ paramsMatch (sc_Params x) match_ = true) → x ∈ db' ↔ x ∈ db).
Proof.
  intros Hok. unfold SyncSchedules. destruct (has_selector match_); [|done]. intros (ws & Hws & H)%rbind_ok.
  apply check_wanted_ok in Hws as (Ews & Hnd & Hall).
  destruct (upsert_all t ws _) as [db1 out1] eqn:E. injection H as <- <-.
  assert (Hcan : ∀ w, w ∈ ws → normalizeParams (wa_params w) = wa_params w).
  { intros w Hw. rewrite Ews in Hw. apply list_elem_of_fmap in Hw as (w0 & -> & _). apply normalizeParams_idem. }
  apply upsert_all_spec in E as (Hok1 & Hout & Hw & Ho); [|by apply filter_schedules_ok|done|done].
  pose proof (λ x, drop_elem t match_ (wa_params <$> ws) db x Hok) as Hdrop. pose proof (λ x, wanted_keys t ws x) as Hkeys.
  assert (Hmatch : ∀ s, s ∈ db1 → (∃ w, w ∈ ws ∧ key s = (t, wa_params w)) ↔ sc_JobType s = t ∧ paramsMatch (sc_Params s) match_ = true).
  { intros s Hs. split; [intros (w & Hin & Hk); injection Hk as -> ->; split; [done|by apply Hall]|]. intros [Ht Hm]. apply Hkeys.
    split; [done|]. destruct (decide (sc_Params s ∈ wa_params <$> ws)) as [|Hn]; [done|exfalso].
    apply Ho, Hdrop in Hs as [_ Hs]; [by apply Hs|]. intros w Hin Hk. destruct (proj1 (Hkeys s)); [by exists w|done]. }
  split_and!; [done| | | | |].
  - intros s. rewrite isort_elem, Hout. split; intros [Hs H]; (split; [done|]); by apply (Hmatch s Hs).
  - eapply sorted_weaken; [|apply isort_sorted; exact _]. intros a b. unfold cmp_le, id_cmp. pose proof (zcmp_spec (sc_ID a) (sc_ID b)). lia.
  - intros w Hin. destruct (Hw (mkWanted (normalizeParams (ss_Params w)) (trim_space (ss_Cron w)) (ss_Enabled w))) as (s & Hs & Hk & Hcr & Hen & Hold).
    { rewrite Ews. apply list_elem_of_fmap. by exists w. }
    exists s. injection Hk as Hk1 Hk2. split_and!; try done.
    + rewrite isort_elem, Hout. split; [done|]. apply Hkeys. split; [done|]. rewrite Hk2, Ews, <-list_fmap_compose. apply list_elem_of_fmap. by exists w.
    + intros x Hx Hkx. apply Hold; [|done]. apply Hdrop. split; [done|]. injection Hkx as Hx1 Hx2. intros (_ & _ & Hn). apply Hn.
      rewrite Hx2, Hk2, Ews, <-list_fmap_compose. apply list_elem_of_fmap. by exists w.
  - intros s. rewrite isort_elem, Hout. intros (_ & w & Hin & Hk). rewrite Ews in Hin. apply list_elem_of_fmap in Hin as (w0 & -> & Hin).
    exists w0. split; [done|]. by injection Hk as _ ->.
  - intros x Hx. rewrite Ho.
    + rewrite Hdrop. tauto.
    + intros w Hin Hk. apply Hx. injection Hk as -> ->. split; [done|]. by apply Hall.
Qed.
End Sync.

(** ** An example: a cron library that knows only [@daily] *)
Definition daily_parse (e : string) : option unit := if String.eqb e "@daily" then Some tt else None.
Definition daily_next (_ : unit) (t : time) : option time := Some ((t / (24 * ns_per_hour) + 1) * (24 * ns_per_hour)).
Definition plexdb_of (integration dest : Z) : Params := mkParams dest [] integration false [] [] false false 0 0 false false.
Definition sample_schedules : list Schedule :=
  [mkSchedule 1 TypePlexDBBackup (plexdb_of 4 1) "@daily" true (Some 7); mkSchedule 2 TypePlexDBBackup (plexdb_of 4 2) "@daily" true None;
   mkSchedule 3 TypeSync (sync_of 1 1 []) "@daily" true None].
Definition sample_want : list ScheduleSpec := [mkScheduleSpec (plexdb_of 4 3) " @daily" true; mkScheduleSpec (plexdb_of 4 1) "@daily" false].
Definition backups_of (integration : Z) : Params := mkParams 0 [] integration false [] [] false false 0 0 false false.
Definition synced : list Schedule :=
  [mkSchedule 1 TypePlexDBBackup (plexdb_of 4 1) "@daily" false (Some 7); mkSchedule 3 TypeSync (sync_of 1 1 []) "@daily" true None;
   mkSchedule 4 TypePlexDBBackup (plexdb_of 4 3) "@daily" true None].
Definition synced_out : list Schedule :=
  [mkSchedule 1 TypePlexDBBackup (plexdb_of 4 1) "@daily" false (Some 7); mkSchedule 4 TypePlexDBBackup (plexdb_of 4 3) "@daily" true None].

Lemma sample_schedules_ok : schedules_ok sample_schedules.
Proof.
  split.
  - repeat constructor.
  - unfold sample_schedules. intros a b. rewrite !elem_of_cons. intros [->|[->|[->|[]%elem_of_nil]]] [->|[->|[->|[]%elem_of_nil]]]; done.
  - unfold sample_schedules. intros a. rewrite !elem_of_cons. intros [->|[->|[->|[]%elem_of_nil]]]; vm_compute; reflexivity.
Qed.

Lemma sync_schedules_exact_witness :
  SyncSchedules daily_parse daily_next 0 sample_schedules TypePlexDBBackup (backups_of 4) sample_want = Ok (synced, synced_out) ∧
  schedules_ok synced ∧
  (∀ s, s ∈ synced_out ↔ s ∈ synced ∧ sc_JobType s = TypePlexDBBackup ∧ paramsMatch (sc_Params s) (backups_of 4) = true) ∧
  StronglySorted (λ a b, sc_ID a ≤ sc_ID b) synced_out ∧
  (∀ w, w ∈ sample_want → ∃ s, s ∈ synced_out ∧ sc_Params s = normalizeParams (ss_Params w) ∧ sc_Cron s = trim_space (ss_Cron w) ∧
     sc_Enabled s = ss_Enabled w ∧ ∀ x, x ∈ sample_schedules → key x = key s → sc_ID s = sc_ID x ∧ sc_LastRunAt s = sc_LastRunAt x) ∧
  (∀ s, s ∈ synced_out → ∃ w, w ∈ sample_want ∧ sc_Params s = normalizeParams (ss_Params w)) ∧
  (∀ x, ¬ (sc_JobType x = TypePlexDBBackup ∧ paramsMatch (sc_Params x) (backups_of 4) = true) → x ∈ synced ↔ x ∈ sample_schedules).
Proof.
  assert (H : SyncSchedules daily_parse daily_next 0 sample_schedules TypePlexDBBackup (backups_of 4) sample_want = Ok (synced, synced_out))
    by (vm_compute; reflexivity).
  split; [exact H|].
  exact (sync_schedules_exact daily_parse daily_next 0 sample_schedules synced synced_out TypePlexDBBackup (backups_of 4) sample_want sample_schedules_ok H).
Defined.
