(* ===== verification/Scheduler.v ===== *)
(** * Scheduler: firing the schedules ([internal/jobqueue/scheduler.go])

    The scheduler's entries and what it remembers of its fires, its loading of the
    schedules, the fires that are due at a time, and what one fire does to the jobs.
    The cron library is a parameter; the theorems rely on its documented behaviour
    that the next activation is later than the time given. The clock may go back.
    The loop sleeps until the earliest next run or a minute, whichever is shorter. *)
From stdpp Require Import base gmap list strings.
From Stdlib Require Import Lia.
From S2P Require Import Prelude GoStrings JobParams JobQueue Schedules.
Open Scope Z_scope.

Inductive skip_reason := SkipRunning | SkipDeferred | SkipError (e : param_error).
Record Skip := mkSkip { sk_At : time; sk_Reason : skip_reason }.
(** One schedule firing for its scheduled time. *)
Record due := mkDue { du_sched : Schedule; du_at : time }.

Definition maxSleep : duration := ns_per_min.

(** Permutations. *)
Lemma filter_perm {A} (f : A → bool) (l k : list A) : l ≡ₚ k → List.filter f l ≡ₚ List.filter f k.
Proof.
  induction 1 as [|x l k _ IH|x y l|l k h _ IH1 _ IH2]; simpl; [done| | |by etrans].
  - by destruct (f x); [constructor|].
  - destruct (f x), (f y); try done. by constructor.
Qed.
Lemma concat_perm {A} (l k : list (list A)) : l ≡ₚ k → concat l ≡ₚ concat k.
Proof.
  induction 1 as [|x l k _ IH|x y l|l k h _ IH1 _ IH2]; simpl; [done|by rewrite IH| |by etrans].
  rewrite !app_assoc. by rewrite (Permutation_app_comm y x).
Qed.
#[export] Instance concat_proper {A} : Proper ((≡ₚ) ==> (≡ₚ)) (@concat A).
Proof. intros l k. apply concat_perm. Qed.
#[export] Instance filter_proper {A} (f : A → bool) : Proper ((≡ₚ) ==> (≡ₚ)) (List.filter f).
Proof. intros l k. apply filter_perm. Qed.
Lemma small_perm {A} (l k : list A) : l ≡ₚ k → (length k ≤ 1)%nat → l = k.
Proof.
  intros Hp. destruct k as [|x [|]]; simpl; [by apply Permutation_nil_r in Hp|by apply Permutation_singleton_r in Hp|lia].
Qed.

Section Scheduler.
Context {cron_spec : Type} (cron_parse : string → option cron_spec) (Next : cron_spec → time → option time).

Record entry := mkEntry { en_sched : Schedule; en_spec : cron_spec; en_next : option time }.
Record scheduler := mkScheduler { sd_entries : gmap Z entry; sd_lastFired : gmap Z time }.

(** ** [Reload] *)
Definition reload_base (st : scheduler) (now : time) (sc : Schedule) : time :=
  let base := match sd_lastFired st !! sc_ID sc with Some lf => if now <? lf then lf else now | None => now end in
  match sc_LastRunAt sc with Some lr => if base <? lr then lr else base | None => base end.
Definition reload_entry (st : scheduler) (now : time) (sc : Schedule) : option entry :=
  if negb (sc_Enabled sc) then None
  else
    let fresh :=
      match parseCron cron_parse Next now (sc_Cron sc) with
      | Ok spec => Some (mkEntry sc spec (Next spec (reload_base st now sc)))
      | Err _ => None
      end in
    match sd_entries st !! sc_ID sc with
    | Some old => if String.eqb (sc_Cron (en_sched old)) (sc_Cron sc) then Some (mkEntry sc (en_spec old) (en_next old)) else fresh
    | None => fresh
    end.
Definition reload_one (st : scheduler) (now : time) (entries : gmap Z entry) (sc : Schedule) : gmap Z entry :=
  match reload_entry st now sc with Some e => <[sc_ID sc := e]> entries | None => entries end.
Definition Reload (now : time) (list : list Schedule) (st : scheduler) : scheduler :=
  mkScheduler (foldl (reload_one st now) ∅ list) (sd_lastFired st).

Definition NextRun (st : scheduler) (id : Z) : option time :=
  match sd_entries st !! id with Some e => en_next e | None => None end.

(** ** [earliest] and the sleep of [loop] *)
Definition earliest (st : scheduler) : option time :=
  map_fold (λ _ e first,
    match en_next e with
    | None => first
    | Some n => match first with Some f => if n <? f then Some n else Some f | None => Some n end
    end) None (sd_entries st).
Definition sleep (now : time) (st : scheduler) : option duration :=
  match earliest st with Some n => Some (Z.min (dsub n now) maxSleep) | None => None end.

(** ** [fireDue] *)
Definition is_due (now : time) (e : entry) : option time :=
  match en_next e with Some n => if now <? n then None else Some n | None => None end.
Definition advance_entry (now : time) (e : entry) : entry :=
  match is_due now e with
  | Some n => mkEntry (en_sched e) (en_spec e) (Next (en_spec e) (if now <? n then n else now))
  | None => e
  end.
Definition due_cmp (a b : due) : Z := then_cmp (zcmp (du_at a) (du_at b)) (zcmp (sc_ID (du_sched a)) (sc_ID (du_sched b))).
Definition due_of (now : time) (e : entry) : list due :=
  match is_due now e with Some n => [mkDue (en_sched e) n] | None => [] end.
(** The range over the map is in any order; the fires are sorted. *)
Definition fireDue (now : time) (st : scheduler) : list due * scheduler :=
  (isort due_cmp (concat ((λ p, due_of now p.2) <$> map_to_list (sd_entries st))),
   mkScheduler (advance_entry now <$> sd_entries st)
     (map_imap (λ id e, match is_due now e with Some n => Some n | None => sd_lastFired st !! id end) (sd_entries st) ∪ sd_lastFired st)).

(** ** [fire] *)
Record system := mkSystem { sy_jobs : table; sy_scheds : list Schedule; sy_skips : gmap Z Skip }.
Definition skipped (d : due) (r : skip_reason) (sy : system) : system :=
  mkSystem (sy_jobs sy) (sy_scheds sy) (<[sc_ID (du_sched d) := mkSkip (du_at d) r]> (sy_skips sy)).
Definition fire (now : time) (d : due) (sy : system) : system :=
  let sc := du_sched d in
  let destID := jp_DestinationID (sc_Params sc) in
  if (bool_decide (sc_JobType sc = TypeVerify) || bool_decide (sc_JobType sc = TypeRetention)) && negb (destID =? 0)
     && hasDeferred (sy_jobs sy) (sc_JobType sc) destID then skipped d SkipDeferred sy
  else if hasRunning (sy_jobs sy) (sc_JobType sc) (sc_Params sc) then skipped d SkipRunning sy
  else match createJob (sy_jobs sy) (mkSpec (sc_JobType sc) (Some TriggerSchedule) false (sc_Params sc)) now with
  | Err e => skipped d (SkipError e) sy
  | Ok (db, job, _) =>
      mkSystem
        (if bool_decide (sc_JobType sc = TypeSync) && negb (destID =? 0) then supersedeDeferredSyncs db (sc_Params sc) (jb_ID job) now else db)
        (MarkRun (sy_scheds sy) (sc_ID sc) now)
        (delete (sc_ID sc) (sy_skips sy))
  end.

(** [RunNow] *)
Definition RunNow (now : time) (id : Z) (dry : bool) (jobs_ : table) (scheds : list Schedule)
    : option (result param_error (table * list Schedule)) :=
  match List.find (λ s, sc_ID s =? id) scheds with
  | None => None
  | Some sc =>
      Some (let? r := createJob jobs_ (mkSpec (sc_JobType sc) (Some TriggerManual) dry (sc_Params sc)) now in
            let '(db, _, _) := r in Ok (db, if dry then scheds else MarkRun scheds id now))
  end.

(** ** What has been fired *)
Inductive event := EReload (now : time) (list : list Schedule) | EFire (now : time).
Definition step (st : scheduler) (ev : event) : list due * scheduler :=
  match ev with EReload now l => ([], Reload now l st) | EFire now => fireDue now st end.
Fixpoint run (st : scheduler) (evs : list event) : list due * scheduler :=
  match evs with
  | [] => ([], st)
  | ev :: evs => let '(fires, st) := step st ev in let '(more, st) := run st evs in ((fires ++ more)%list, st)
  end.
Definition fired_for (id : Z) (fires : list due) : list time := du_at <$> List.filter (λ d, sc_ID (du_sched d) =? id) fires.

Hypothesis Next_later : ∀ sp t t', Next sp t = Some t' → t < t'.

(** Entries are stored under the ids of their schedules, and the next run of a
    schedule comes after the last one fired. *)
Record sched_inv (st : scheduler) : Prop := {
  si_id : ∀ id e, sd_entries st !! id = Some e → sc_ID (en_sched e) = id;
  si_next : ∀ id e n lf, sd_entries st !! id = Some e → en_next e = Some n → sd_lastFired st !! id = Some lf → lf < n;
}.

Lemma reload_base_later st now sc lf : sd_lastFired st !! sc_ID sc = Some lf → lf ≤ reload_base st now sc.
Proof.
  intros H. unfold reload_base. rewrite H. destruct (Z.ltb_spec now lf), (sc_LastRunAt sc) as [lr|]; try lia;
    match goal with |- context [?a <? ?b] => destruct (Z.ltb_spec a b) end; lia.
Qed.

Lemma reload_entry_ok st now sc e : sched_inv st → reload_entry st now sc = Some e →
  en_sched e = sc ∧ ∀ n lf, en_next e = Some n → sd_lastFired st !! sc_ID sc = Some lf → lf < n.
Proof.
  intros [Hid Hn]. unfold reload_entry. destruct (negb (sc_Enabled sc)); [done|].
  set (fresh := match parseCron cron_parse Next now (sc_Cron sc) with Ok spec => _ | Err _ => None end).
  assert (Hfresh : ∀ e, fresh = Some e → en_sched e = sc ∧ ∀ n lf, en_next e = Some n → sd_lastFired st !! sc_ID sc = Some lf → lf < n).
  { intros e0. unfold fresh. destruct (parseCron _ _ _ _) as [sp|]; [|done]. intros [= <-]. split; [done|]. intros n lf E Hl. cbn [en_next] in E.
    apply Next_later in E. pose proof (reload_base_later st now sc lf Hl). lia. }
  destruct (sd_entries st !! sc_ID sc) as [old|] eqn:E; [|apply Hfresh]. destruct (String.eqb _ _); [|apply Hfresh].
  intros [= <-]. split; [done|]. cbn [en_next]. intros n lf Hne Hl. by eapply Hn.
Qed.

Lemma reload_inv st now l : sched_inv st → sched_inv (Reload now l st).
Proof.
  intros Hi. assert (H : ∀ entries, (∀ id e, entries !! id = Some e → sc_ID (en_sched e) = id ∧ ∀ n lf, en_next e = Some n → sd_lastFired st !! id = Some lf → lf < n) →
    ∀ id e, foldl (reload_one st now) entries l !! id = Some e → sc_ID (en_sched e) = id ∧ ∀ n lf, en_next e = Some n → sd_lastFired st !! id = Some lf → lf < n).
  { induction l as [|sc l IH]; intros entries He; [done|]. simpl. apply IH. unfold reload_one. destruct (reload_entry st now sc) as [e0|] eqn:E; [|done].
    apply reload_entry_ok in E as [Hs Hn]; [|done]. intros id e [[<- <-]|[_ Hl]]%lookup_insert_Some; [by rewrite Hs|by apply He]. }
  split.
  - intros id e He. by apply (H ∅).
  - intros id e n lf He. by apply (H ∅).
Qed.

Lemma fire_entries now st id e' : sd_entries (fireDue now st).2 !! id = Some e' ↔ ∃ e, sd_entries st !! id = Some e ∧ e' = advance_entry now e.
Proof. simpl. rewrite lookup_fmap, fmap_Some. done. Qed.

Lemma fire_last now st id : sd_lastFired (fireDue now st).2 !! id =
  match sd_entries st !! id with
  | Some e => match is_due now e with Some n => Some n | None => sd_lastFired st !! id end
  | None => sd_lastFired st !! id
  end.
Proof.
  simpl. rewrite lookup_union, map_lookup_imap. destruct (sd_entries st !! id) as [e|]; simpl; [|by rewrite (left_id_L None _)].
  destruct (is_due now e); [by rewrite union_Some_l|]. by destruct (sd_lastFired st !! id).
Qed.

Lemma is_due_spec now e n : is_due now e = Some n ↔ en_next e = Some n ∧ n ≤ now.
Proof.
  unfold is_due. destruct (en_next e) as [k|]; [|split; [done|by intros [? _]]]. destruct (Z.ltb_spec now k); split; try done.
  - intros [[= ->] ?]. lia.
  - by intros [= ->].
  - by intros [[= ->] _].
Qed.

Lemma fire_inv now st : sched_inv st → sched_inv (fireDue now st).2.
Proof.
  intros [Hid Hn]. split.
  - intros id e' (e & He & ->)%fire_entries. unfold advance_entry. destruct (is_due now e); exact (Hid id e He).
  - intros id e' n lf (e & He & ->)%fire_entries. rewrite fire_last, He. unfold advance_entry. destruct (is_due now e) as [k|] eqn:E.
    + cbn [en_next]. intros H%Next_later [= <-]. destruct (Z.ltb_spec now k); lia.
    + by apply Hn.
Qed.

(** The other schedules contribute no fire for [id]. *)
Lemma no_fires now id (m : gmap Z entry) : (∀ i e, m !! i = Some e → sc_ID (en_sched e) = i) → m !! id = None →
  List.filter (λ d, sc_ID (du_sched d) =? id) (concat ((λ p, due_of now p.2) <$> map_to_list m)) = [].
Proof.
  intros Hm Hn. apply List.length_zero_iff_nil, (count_zero (λ d, sc_ID (du_sched d) =? id)). intros d ([i e] & Hp & Hd)%concat_fmap_elem.
  apply elem_of_map_to_list in Hp. simpl in Hd. unfold due_of in Hd. destruct (is_due now e); [|by apply elem_of_nil in Hd].
  apply list_elem_of_singleton in Hd as ->. simpl. rewrite (Hm i e Hp). apply Z.eqb_neq. intros ->. congruence.
Qed.

(** The fires of one schedule: at most one. *)
Lemma fired_once now st id : sched_inv st → fired_for id (fireDue now st).1 =
  match sd_entries st !! id with Some e => match is_due now e with Some n => [n] | None => [] end | None => [] end.
Proof.
  intros [Hid _]. unfold fired_for. simpl.
  rewrite (small_perm _ (List.filter (λ d, sc_ID (du_sched d) =? id) (concat ((λ p, due_of now p.2) <$> map_to_list (sd_entries st)))));
    [|apply filter_perm, isort_perm|].
  all: destruct (sd_entries st !! id) as [e|] eqn:He.
  - rewrite (small_perm _ (due_of now e)); [unfold due_of; by destruct (is_due now e)| |].
    + rewrite <-(map_to_list_delete _ _ _ He), fmap_cons. cbn [concat]. rewrite List.filter_app.
      rewrite (no_fires now id (delete id (sd_entries st))), (right_id_L [] app).
      * unfold due_of. cbn [snd]. destruct (is_due now e); [|done]. simpl. by rewrite (Hid id e He), Z.eqb_refl.
      * intros i e' [_ E]%lookup_delete_Some. by apply Hid.
      * apply lookup_delete_eq.
    + unfold due_of. destruct (is_due now e); simpl; lia.
  - by rewrite no_fires.
  - rewrite <-(map_to_list_delete _ _ _ He), fmap_cons. cbn [concat]. rewrite List.filter_app, length_app.
    rewrite (no_fires now id (delete id (sd_entries st))).
    + unfold due_of. cbn [snd]. destruct (is_due now e); simpl; [|lia]. destruct (_ =? _); simpl; lia.
    + intros i e' [_ E]%lookup_delete_Some. by apply Hid.
    + apply lookup_delete_eq.
  - rewrite no_fires by done. simpl. lia.
Qed.

Lemma run_fires id evs st : sched_inv st → sched_inv (run st evs).2 ∧
  StronglySorted Z.lt (fired_for id (run st evs).1) ∧
  ∀ x lf, x ∈ fired_for id (run st evs).1 → sd_lastFired st !! id = Some lf → lf < x.
Proof.
  revert st. induction evs as [|ev evs IH]; intros st Hi; simpl.
  - split_and!; [done|constructor|by intros x lf ?%elem_of_nil].
  - destruct (step st ev) as [fires st1] eqn:Es. destruct (run st1 evs) as [more st2] eqn:Er. simpl.
    destruct ev as [now l|now]; simpl in Es.
    + injection Es as <- <-. specialize (IH _ (reload_inv st now l Hi)). by rewrite Er in IH.
    + assert (Hst : st1 = (fireDue now st).2) by (by rewrite Es). assert (Hf : fires = (fireDue now st).1) by (by rewrite Es).
      specialize (IH st1 ltac:(rewrite Hst; by apply fire_inv)). rewrite Er in IH. simpl in IH. destruct IH as (Hi2 & Hs & Hlater).
      assert (Happ : fired_for id (fires ++ more) = (fired_for id fires ++ fired_for id more)%list) by (unfold fired_for; by rewrite List.filter_app, fmap_app).
      rewrite Happ, Hf, fired_once by done. pose proof (fire_last now st id) as Hl. rewrite <-Hst in Hl.
      destruct (sd_entries st !! id) as [e|] eqn:He; [destruct (is_due now e) as [n|] eqn:Ed|]; rewrite ?Ed in Hl; simpl.
      * apply is_due_spec in Ed as [Hn Hle]. split_and!; [done| |].
        -- constructor; [done|]. apply Forall_forall. intros x Hx. by eapply Hlater.
        -- intros x lf [->|Hx]%elem_of_cons Hlf; [by eapply (si_next _ Hi)|].
           assert (lf < n) by (by eapply (si_next _ Hi)). specialize (Hlater x n Hx Hl). lia.
      * split_and!; [done|done|]. intros x lf Hx Hlf. apply Hlater; [done|exact (eq_trans Hl Hlf)].
      * split_and!; [done|done|]. intros x lf Hx Hlf. apply Hlater; [done|exact (eq_trans Hl Hlf)].
Qed.

Lemma empty_inv : sched_inv (mkScheduler ∅ ∅).
Proof. by split. Qed.

(** whatever loads of the schedules and wake-ups happen, in whatever order and
    with whatever readings of the clock (it may go back, or jump over several runs),
    the times for which one schedule fires strictly increase: it never fires twice
    for the same time. *)
Theorem fires_increase (evs : list event) (id : Z) : StronglySorted Z.lt (fired_for id (run (mkScheduler ∅ ∅) evs).1).
Proof. apply (run_fires id evs), empty_inv. Qed.

Lemma earliest_spec st : (∀ f, earliest st = Some f → ∃ id, NextRun st id = Some f) ∧
  (∀ id n, NextRun st id = Some n → ∃ f, earliest st = Some f ∧ f ≤ n).
Proof.
  unfold NextRun, earliest. generalize (sd_entries st). intros m. induction m as [|id e m Hn Hfst IH] using map_first_key_ind.
  - split; [done|]. intros id n. by rewrite lookup_empty.
  - rewrite map_fold_insert_first_key by done. set (first := map_fold _ None m) in *. destruct IH as [IH1 IH2].
    assert (Hin : ∀ i f, match m !! i with Some e => en_next e | None => None end = Some f →
      match <[id := e]> m !! i with Some e => en_next e | None => None end = Some f).
    { intros i f H. rewrite lookup_insert_ne; [done|]. intros <-. by rewrite Hn in H. }
    split.
    + intros f. destruct (en_next e) as [n|] eqn:E; [|intros H; destruct (IH1 f H) as (i & Hi); exists i; by apply Hin].
      destruct first as [g|]; [|intros [= ->]; exists id; by rewrite lookup_insert_eq].
      destruct (Z.ltb_spec n g); intros [= <-]; [exists id; by rewrite lookup_insert_eq|]. destruct (IH1 g eq_refl) as (i & Hi). exists i. by apply Hin.
    + intros i k. destruct (decide (i = id)) as [->|Hne].
      * rewrite lookup_insert_eq. intros ->. destruct first as [g|]; [|by exists k]. destruct (Z.ltb_spec k g); eexists; (split; [done|lia]).
      * rewrite lookup_insert_ne by done. intros H. destruct (IH2 i k H) as (g & -> & Hle). destruct (en_next e) as [n|]; [|by exists g].
        destruct (Z.ltb_spec n g); eexists; (split; [done|lia]).
Qed.

#[local] Instance due_ordering : Ordering due_cmp.
Proof. by apply (lex_ordering du_at (λ d, sc_ID (du_sched d))). Qed.

Lemma run_inv evs st : sched_inv st → sched_inv (run st evs).2.
Proof. intros Hi. by apply (run_fires 0). Qed.

(** whatever happened before, a wake-up fires exactly the schedules whose next
    run has come, each once for that run, in the order of their times and ids, and
    leaves no schedule with a run that has passed: a run missed meanwhile is not
    caught up. The loop's timer is set to the earliest next run, at most a minute
    ahead, so no run is slept through. *)
Theorem fire_due_exact (evs : list event) (now : time) :
  let st := (run (mkScheduler ∅ ∅) evs).2 in
  (∀ d, d ∈ (fireDue now st).1 ↔ ∃ e, sd_entries st !! sc_ID (du_sched d) = Some e ∧ en_next e = Some (du_at d) ∧ du_at d ≤ now ∧ du_sched d = en_sched e) ∧
  StronglySorted (λ a b, due_cmp a b ≤ 0) (fireDue now st).1 ∧
  (∀ id n, NextRun (fireDue now st).2 id = Some n → now < n) ∧
  (∀ id n, NextRun st id = Some n → ∃ f, earliest st = Some f ∧ f ≤ n) ∧
  (∀ f, earliest st = Some f → ∃ id, NextRun st id = Some f) ∧
  (∀ s, sleep now st = Some s → s ≤ maxSleep).
Proof.
  intros st. pose proof (run_inv evs (mkScheduler ∅ ∅) empty_inv) as Hi. fold st in Hi. pose proof (earliest_spec st) as [He1 He2].
  split_and!; [|apply isort_sorted; exact _| |done|done|].
  - intros d. simpl. rewrite isort_elem, concat_fmap_elem. split.
    + intros ([i e] & Hp & Hd). apply elem_of_map_to_list in Hp. simpl in Hd. unfold due_of in Hd.
      destruct (is_due now e) as [n|] eqn:E; [|by apply elem_of_nil in Hd]. apply list_elem_of_singleton in Hd as ->.
      apply is_due_spec in E as [? ?]. exists e. simpl. by rewrite (si_id _ Hi i e Hp).
    + intros (e & He & Hn & Hle & Hs). exists (sc_ID (du_sched d), e). split; [by apply elem_of_map_to_list|]. simpl. unfold due_of.
      rewrite (proj2 (is_due_spec now e (du_at d))) by done. apply list_elem_of_singleton. rewrite <-Hs. by destruct d.
  - intros id n. unfold NextRun. destruct (sd_entries (fireDue now st).2 !! id) as [e'|] eqn:E; [|done].
    apply fire_entries in E as (e & He & ->). unfold advance_entry. destruct (is_due now e) as [k|] eqn:Ed.
    + apply is_due_spec in Ed as [_ Hle]. cbn [en_next]. intros H%Next_later. destruct (Z.ltb_spec now k); lia.
    + intros Hn. unfold is_due in Ed. rewrite Hn in Ed. destruct (Z.ltb_spec now n); done.
  - intros s. unfold sleep. destruct (earliest st); [|done]. intros [= <-]. lia.
Qed.
End Scheduler.

(** ** One fire *)
Section Fire.
Lemma does_work_trans t a b c : does_work t a b → does_work t b c → does_work t a c.
Proof.
  destruct t; simpl; try (by intros -> ->).
  - intros (Hd & Hs & Hp & Ha & Hr) (Hd' & Hs' & Hp' & Ha' & Hr'). split_and!; [congruence| | |auto|].
    + destruct Hs as [->|[Hne Hs]]; [by left|]. destruct Hs' as [?|[Hne' Hs']]; [done|]. right. split; [done|]. auto.
    + destruct Hp as [->|[Hne Hp]]; [by left|]. destruct Hp' as [?|[Hne' Hp']]; [done|]. right. split; [done|]. auto.
    + intros H. destruct (Hr' H) as (Hb & <- & <-). auto.
  - intros (Hd & Hs & Hp & Ha) (Hd' & Hs' & Hp' & Ha'). split_and!; [congruence| |auto|auto].
    destruct Hs as [->|[Hne Hs]]; [by left|]. destruct Hs' as [?|[Hne' Hs']]; [done|]. right. split; [done|]. auto.
Qed.

(** A job that does the work of a scheduled sync does the work of every deferred
    sync the fire supersedes, when the schedule is not limited to paths. *)
Lemma supersedes_work p q keep j : jp_Paths p = [] → supersedable p keep j = true → row_ok j → does_work TypeSync q p → does_work TypeSync q (jb_Params j).
Proof.
  unfold supersedable. rewrite !andb_true_iff, !negb_true_iff. intros Hp ((((((_ & Hc) & _) & _) & Hs) & Ha) & Hr) Hok (Hd & Hsrc & Hpaths & Hallow & _).
  rewrite Hp in Hpaths. apply coversSources_spec in Hs. rewrite sortedIDs_nil in Hs. setoid_rewrite sortedIDs_elem in Hs. unfold col_is in Hc. simpl. split_and!.
  - rewrite Hd. lia.
  - destruct Hsrc as [->|[Hne Hsub]]; [by left|]. destruct Hs as [?|[Hne' Hsub']]; [done|]. right. split; [done|]. intros id Hid. by apply Hsub, Hsub'.
  - left. by destruct Hpaths as [|[? _]].
  - intros H. apply Hallow. rewrite H in Ha. by destruct (jp_AllowChanges p).
  - congruence.
Qed.

Lemma does_work_normalized q p : does_work TypeSync q (normalizeParams p) → does_work TypeSync q p.
Proof.
  unfold normalizeParams. params_simpl. intros (Hd & Hs & Hp & Ha & Hr). split_and!; [done| | |done|done].
  - rewrite sortedIDs_nil in Hs. setoid_rewrite sortedIDs_elem in Hs. done.
  - rewrite canonicalPaths_nil in Hp. setoid_rewrite covers_canonical in Hp. done.
Qed.

(** The work of the queued jobs of [db] is still queued in [db']. *)
Definition work_kept (db db' : table) : Prop :=
  ∀ i, i ∈ db → queued i = true → ∃ j, j ∈ db' ∧ queued j = true ∧ jb_Type j = jb_Type i ∧ jb_DryRun j = jb_DryRun i ∧
    does_work (jb_Type i) (jb_Params j) (jb_Params i).
(** A queued job of the schedule that does the work of the fire. *)
Definition fired_job (d : due) (db : table) (j : Job) : Prop :=
  j ∈ db ∧ queued j = true ∧ jb_Type j = sc_JobType (du_sched d) ∧ jb_DryRun j = false ∧ deferred j = false ∧
  does_work (sc_JobType (du_sched d)) (jb_Params j) (normalizeParams (sc_Params (du_sched d))).

Lemma create_work_kept db spec now db' j out : table_ok db → createJob db spec now = Ok (db', j, out) → work_kept db db'.
Proof.
  intros Hok Hc i Hi Hq. apply createJob_spec in Hc as (_ & Ha & _); [|done]. destruct (decide (jb_ID i = jb_ID j)) as [E|E].
  - destruct (an_same _ _ _ _ _ _ Ha i Hi E) as (Hj & Hw & _). destruct (an_kind _ _ _ _ _ _ Ha) as [Ht Hd]. exists j.
    split_and!; [apply (an_in _ _ _ _ _ _ Ha)|apply queued_spec, (an_queued _ _ _ _ _ _ Ha)|by rewrite Hj|by rewrite Hj|].
    replace (jb_Type i) with (sp_Type spec); [done|]. by rewrite Hj in Ht.
  - exists i. split_and!; [by apply (an_others _ _ _ _ _ _ Ha)|done|done|done|apply does_work_refl].
Qed.

(** Superseding the deferred syncs that [keep] covers. *)
Lemma supersede_work_kept db p now keep : table_ok db → keep ∈ db → queued keep = true → jb_Type keep = TypeSync → jb_DryRun keep = false →
  jp_Paths p = [] → does_work TypeSync (jb_Params keep) p →
  work_kept db (supersedeDeferredSyncs db p (jb_ID keep) now) ∧
  ∃ k, with_superseded k keep ∈ supersedeDeferredSyncs db p (jb_ID keep) now.
Proof.
  intros Hok Hk Hq Ht Hd Hp Hw. destruct (supersede_rows p (jb_ID keep) now db) as (f & -> & Hf).
  assert (Hkeep : f keep = with_superseded (jb_SupersededBy (f keep)) keep).
  { destruct (Hf keep) as [_ [H|(c & Hc & Hs & E)]]; [done|]. exfalso. unfold supersedable in Hs. rewrite !andb_true_iff in Hs.
    lia. }
  assert (Hin : with_superseded (jb_SupersededBy (f keep)) keep ∈ f <$> db) by (rewrite <-Hkeep; by apply list_elem_of_fmap_2).
  split; [|by eexists]. intros i Hi Hqi. destruct (Hf i) as [_ [H|(c & Hc & Hs & E)]].
  - exists (f i). split; [by apply list_elem_of_fmap_2|]. rewrite H. split_and!; [done|done|done|apply does_work_refl].
  - rewrite (table_ok_unique _ c i Hok Hc Hi E) in Hs. assert (Hti : jb_Type i = TypeSync ∧ jb_DryRun i = false).
    { unfold supersedable in Hs. rewrite !andb_true_iff, negb_true_iff, bool_decide_eq_true in Hs. tauto. }
    destruct Hti as [Hti Hdi]. exists (with_superseded (jb_SupersededBy (f keep)) keep). split_and!; [done|done|by rewrite Hti|by rewrite Hdi|].
    rewrite Hti. eapply supersedes_work; [done|done|by apply Hok|done].
Qed.

(** The job of a schedule of type [t] and parameters [p] runs: a job with these
    parameters, or, for the sync or verify of a destination, one of the whole of it
    that is not limited to paths and takes in all sources of the schedule. *)
Definition runs_already (db : table) (t : job_type) (p : Params) : Prop :=
  ∃ j, j ∈ db ∧ jb_Status j = StatusRunning ∧ jb_DryRun j = false ∧ jb_Type j = t ∧
    (jb_Params j = normalizeParams p ∨
     ((t = TypeSync ∨ t = TypeVerify) ∧ jp_DestinationID p ≠ 0 ∧ jp_DestinationID (jb_Params j) = jp_DestinationID p ∧ jp_Paths (jb_Params j) = [] ∧
      (jp_SourceIDs (jb_Params j) = [] ∨ (jp_SourceIDs p ≠ [] ∧ ∀ id, id ∈ jp_SourceIDs p → id ∈ jp_SourceIDs (jb_Params j))))).
(** The verify or retention of its destination was put off and waits in the queue. *)
Definition waits_already (db : table) (t : job_type) (p : Params) : Prop :=
  (t = TypeVerify ∨ t = TypeRetention) ∧ jp_DestinationID p ≠ 0 ∧
  ∃ j, j ∈ db ∧ jb_Status j = StatusQueued ∧ jb_DryRun j = false ∧ jb_Type j = t ∧ jp_DestinationID (jb_Params j) = jp_DestinationID p ∧
    (0 < jb_Deferrals j ∨ jb_NotBefore j ≠ None).

Lemma hasRunning_spec db t p : jp_Paths p = [] → hasRunning db t p = true ↔ runs_already db t p.
Proof.
  intros Hp. unfold hasRunning, hasRunningCovering, runs_already.
  destruct ((bool_decide (t = TypeSync) || bool_decide (t = TypeVerify)) && negb (jp_DestinationID p =? 0)) eqn:E; rewrite existsb_elem.
  - rewrite andb_true_iff, orb_true_iff, !bool_decide_eq_true, negb_true_iff, Z.eqb_neq in E. destruct E as [Ht Hd]. split.
    + intros (j & Hj & H). rewrite !andb_true_iff, running_spec, !negb_true_iff, bool_decide_eq_true, col_is_spec, coversSources_spec, sortedIDs_nil in H.
      setoid_rewrite sortedIDs_elem in H. destruct H as (((((Hr & Hdry) & Hty) & Hdest) & Hpaths) & Hcov). exists j. split_and!; try done.
      right. split_and!; [done|done|apply Hdest|by destruct (jp_Paths (jb_Params j))|done].
    + intros (j & Hj & Hr & Hdry & Hty & H). exists j. split; [done|].
      rewrite !andb_true_iff, running_spec, !negb_true_iff, bool_decide_eq_true, col_is_spec, coversSources_spec, sortedIDs_nil.
      setoid_rewrite sortedIDs_elem. destruct H as [H|(_ & _ & Hdest & Hpaths & Hcov)].
      * rewrite H. unfold normalizeParams. params_simpl. rewrite Hp, sortedIDs_nil. setoid_rewrite sortedIDs_elem.
        split_and!; try done. destruct (jp_SourceIDs p); [by left|by right].
      * rewrite Hpaths, Hdest. by split_and!.
  - split.
    + intros (j & Hj & H). rewrite !andb_true_iff, running_spec, negb_true_iff, !bool_decide_eq_true in H. destruct H as (((Hr & Hdry) & Hty) & H).
      exists j. by split_and!; [..|left].
    + intros (j & Hj & Hr & Hdry & Hty & H). exists j. split; [done|]. rewrite !andb_true_iff, running_spec, negb_true_iff, !bool_decide_eq_true.
      split_and!; [done..|]. destruct H as [H|(Ht & Hd & _)]; [done|]. exfalso. apply not_true_iff_false in E. apply E.
      rewrite andb_true_iff, orb_true_iff, !bool_decide_eq_true, negb_true_iff, Z.eqb_neq. done.
Qed.

Lemma hasDeferred_spec db t p :
  (bool_decide (t = TypeVerify) || bool_decide (t = TypeRetention)) && negb (jp_DestinationID p =? 0) && hasDeferred db t (jp_DestinationID p) = true ↔
  waits_already db t p.
Proof.
  unfold hasDeferred, waits_already. rewrite !andb_true_iff, orb_true_iff, !bool_decide_eq_true, negb_true_iff, Z.eqb_neq, existsb_elem.
  split.
  - intros ((Ht & Hd) & j & Hj & H). rewrite !andb_true_iff, queued_spec, negb_true_iff, bool_decide_eq_true, col_is_spec, deferred_spec in H.
    destruct H as ((((Hq & Hdry) & Hty) & Hdest) & Hw). split_and!; [done..|]. exists j. split_and!; [done..|apply Hdest|done].
  - intros (Ht & Hd & j & Hj & Hq & Hdry & Hty & Hdest & Hw). split; [done|]. exists j. split; [done|].
    rewrite !andb_true_iff, queued_spec, negb_true_iff, bool_decide_eq_true, col_is_spec, deferred_spec, Hdest. done.
Qed.

(** C39: a fire loses no work. Whatever it skips, queues or supersedes, the work of
    every job that was queued is still the work of a queued job of the same kind;
    running jobs go on. Its own work is skipped, with the reason recorded and no
    job changed, exactly when the verify or retention of its destination was put
    off and waits in the queue, or (otherwise) the same job runs, or its parameters
    are refused; else it is the work of a queued job that does not wait for a
    window, and the fire is no longer shown as skipped. (The schedules of this
    program name no paths.) *)
Theorem fire_loses_nothing (now : time) (d : due) (sy : system) :
  table_ok (sy_jobs sy) → jp_Paths (sc_Params (du_sched d)) = [] →
  let sy' := fire now d sy in
  let waits := waits_already (sy_jobs sy) (sc_JobType (du_sched d)) (sc_Params (du_sched d)) in
  let runs := runs_already (sy_jobs sy) (sc_JobType (du_sched d)) (sc_Params (du_sched d)) in
  table_ok (sy_jobs sy') ∧ work_kept (sy_jobs sy) (sy_jobs sy') ∧ quiet (sy_jobs sy) (sy_jobs sy') ∧
  ((∃ r, sy_skips sy' !! sc_ID (du_sched d) = Some (mkSkip (du_at d) r) ∧ sy_jobs sy' = sy_jobs sy ∧
      match r with
      | SkipDeferred => waits
      | SkipRunning => ¬ waits ∧ runs
      | SkipError e => ¬ waits ∧ ¬ runs ∧ validateParams (sc_JobType (du_sched d)) (sc_Params (du_sched d)) false = Err e
      end) ∨
   (¬ waits ∧ ¬ runs ∧ sy_skips sy' !! sc_ID (du_sched d) = None ∧ ∃ j, fired_job d (sy_jobs sy') j)).
Proof.
  intros Hok Hp sy' waits runs. subst sy'. unfold fire. assert (Hrefl : work_kept (sy_jobs sy) (sy_jobs sy) ∧ quiet (sy_jobs sy) (sy_jobs sy)).
  { split; [|split; intros i Hi Hr; by exists i]. intros i Hi Hq. exists i. split_and!; try done. apply does_work_refl. }
  destruct Hrefl as [Hk0 Hq0].
  destruct (_ && hasDeferred _ _ _) eqn:E1.
  { apply hasDeferred_spec in E1. split_and!; try done. left. exists SkipDeferred. simpl. by rewrite lookup_insert_eq. }
  apply not_true_iff_false in E1. rewrite hasDeferred_spec in E1.
  destruct (hasRunning _ _ _) eqn:E2.
  { apply hasRunning_spec in E2; [|done]. split_and!; try done. left. exists SkipRunning. simpl. by rewrite lookup_insert_eq. }
  apply not_true_iff_false in E2. rewrite hasRunning_spec in E2 by done.
  change (¬ waits) in E1. change (¬ runs) in E2. clearbody waits runs.
  destruct (createJob _ _ _) as [[[db j] out]|e] eqn:E3.
  2: { split_and!; try done. left. exists (SkipError e). simpl. rewrite lookup_insert_eq. split_and!; [done|done|done|done|].
       unfold createJob, normalizeSpec in E3. simpl in E3. by destruct (validateParams _ _ _); simpl in E3; [|injection E3 as ->]. }
  pose proof (create_work_kept _ _ _ _ _ _ Hok E3) as Hkept. pose proof (create_quiet _ _ _ _ _ _ Hok E3) as [Hquiet _].
  apply createJob_spec in E3 as (Hok' & Ha & _); [|done]. simpl in Ha. destruct Ha as [Hin Hq Hwait [Ht Hd] Hw _ _ _ _]. apply queued_spec in Hq.
  destruct (bool_decide (sc_JobType (du_sched d) = TypeSync) && _) eqn:E4; simpl.
  2: { split_and!; try done. right. rewrite lookup_delete_eq. split_and!; [done|done|done|]. by exists j. }
  apply andb_true_iff in E4 as [Hts%bool_decide_eq_true _]. unfold fired_job. rewrite Hts in *.
  destruct (supersede_work_kept db (sc_Params (du_sched d)) now j Hok' Hin Hq Ht Hd Hp (does_work_normalized _ _ Hw)) as [Hsk (k & Hkin)].
  pose proof (supersede_quiet db (sc_Params (du_sched d)) (jb_ID j) now) as [[Hs1 Hs2] _]. destruct Hquiet as [Hc1 Hc2]. split_and!.
  - by apply (supersede_evolves 0).
  - intros i Hi Hqi. destruct (Hkept i Hi Hqi) as (i1 & Hi1 & Hq1 & Ht1 & Hd1 & Hw1). destruct (Hsk i1 Hi1 Hq1) as (i2 & Hi2 & Hq2 & Ht2 & Hd2 & Hw2).
    exists i2. split_and!; [done|done|congruence|congruence|]. rewrite Ht1 in Hw2. by eapply does_work_trans.
  - split.
    + intros x Hx Hr. destruct (Hs1 x Hx Hr) as (y & Hy & Hry & E). destruct (Hc1 y Hy Hry) as (z & Hz & Hrz & E'). exists z. by rewrite E', E.
    + intros x Hx Hr. destruct (Hc2 x Hx Hr) as (y & Hy & Hry & E). destruct (Hs2 y Hy Hry) as (z & Hz & Hrz & E'). exists z. by rewrite E', E.
  - right. rewrite lookup_delete_eq. do 3 (split; [done|]). by exists (with_superseded k j).
Qed.
End Fire.

(** ** Examples *)
Lemma daily_next_later sp t t' : daily_next sp t = Some t' → t < t'.
Proof.
  unfold daily_next. intros [= <-]. unfold ns_per_hour, ns_per_sec. pose proof (Z.div_mod t (24 * (3600 * 1000000000)) ltac:(lia)).
  pose proof (Z.mod_pos_bound t (24 * (3600 * 1000000000)) ltac:(lia)). lia.
Qed.

Definition day : Z := 24 * ns_per_hour.
(** The first day's run is missed until the fourth day; then the clock goes back two
    days, the schedules are loaded again, and the fifth day comes. *)
Definition sample_events : list event :=
  [EReload 5 sample_schedules; EFire (3 * day + 7); EReload (day + 1) sample_schedules; EFire (day + 2); EFire (4 * day)].
Abbreviation sample_run := (run daily_parse daily_next (mkScheduler ∅ ∅)).

Lemma fires_increase_witness :
  fired_for 3 (sample_run sample_events).1 = [day; 4 * day] ∧ StronglySorted Z.lt (fired_for 3 (sample_run sample_events).1).
Proof.
  split; [vm_compute; reflexivity|]. exact (fires_increase daily_parse daily_next daily_next_later sample_events 3).
Defined.

Lemma fire_due_exact_witness :
  let st := (sample_run sample_events).2 in
  du_at <$> (fireDue daily_next (5 * day) st).1 = [5 * day; 5 * day; 5 * day] ∧
  (∀ d, d ∈ (fireDue daily_next (5 * day) st).1 ↔
     ∃ e, sd_entries st !! sc_ID (du_sched d) = Some e ∧ en_next e = Some (du_at d) ∧ du_at d ≤ 5 * day ∧ du_sched d = en_sched e) ∧
  StronglySorted (λ a b, due_cmp a b ≤ 0) (fireDue daily_next (5 * day) st).1 ∧
  (∀ id n, NextRun (fireDue daily_next (5 * day) st).2 id = Some n → 5 * day < n) ∧
  (∀ id n, NextRun st id = Some n → ∃ f, earliest st = Some f ∧ f ≤ n) ∧
  (∀ f, earliest st = Some f → ∃ id, NextRun st id = Some f) ∧
  (∀ s, sleep (5 * day) st = Some s → s ≤ maxSleep).
Proof.
  split; [vm_compute; reflexivity|]. exact (fire_due_exact daily_parse daily_next daily_next_later sample_events (5 * day)).
Defined.

(** A seed sync of source 7 waits for its window when the daily sync of all sources fires. *)
Definition waiting_table : table := (deferJob (markRunning sample_queue 1 200).1 1 90000).1.
Definition daily_sync : due := mkDue (mkSchedule 3 TypeSync (mkParams 1 [] 0 false [] [] false false 0 0 false false) "@daily" true None) 500.
Definition sample_system : system := mkSystem waiting_table sample_schedules {[ 3 := mkSkip 400 SkipRunning ]}.

Lemma waiting_table_ok : table_ok waiting_table.
Proof.
  assert (H : rtc (db_step 3) [] waiting_table); [|by apply (reach_ok 3 waiting_table)].
  transitivity sample_queue; [apply sample_queue_reached|]. eapply rtc_l; [apply (step_start 3 _ 1 200)|]. apply rtc_once. apply (step_defer 3 _ 1 90000).
Qed.

Lemma fire_loses_nothing_witness :
  (λ j, (jb_Status j, jb_SupersededBy j)) <$> sy_jobs (fire 600 daily_sync sample_system) = [(StatusCancelled, Some 2); (StatusQueued, None)] ∧
  table_ok (sy_jobs (fire 600 daily_sync sample_system)) ∧
  work_kept waiting_table (sy_jobs (fire 600 daily_sync sample_system)) ∧
  quiet waiting_table (sy_jobs (fire 600 daily_sync sample_system)) ∧
  ((∃ r, sy_skips (fire 600 daily_sync sample_system) !! 3 = Some (mkSkip 500 r) ∧ sy_jobs (fire 600 daily_sync sample_system) = waiting_table ∧
      match r with
      | SkipDeferred => waits_already waiting_table TypeSync (sc_Params (du_sched daily_sync))
      | SkipRunning => ¬ waits_already waiting_table TypeSync (sc_Params (du_sched daily_sync)) ∧
          runs_already waiting_table TypeSync (sc_Params (du_sched daily_sync))
      | SkipError e => ¬ waits_already waiting_table TypeSync (sc_Params (du_sched daily_sync)) ∧
          ¬ runs_already waiting_table TypeSync (sc_Params (du_sched daily_sync)) ∧ validateParams TypeSync (sc_Params (du_sched daily_sync)) false = Err e
      end) ∨
   (¬ waits_already waiting_table TypeSync (sc_Params (du_sched daily_sync)) ∧ ¬ runs_already waiting_table TypeSync (sc_Params (du_sched daily_sync)) ∧
    sy_skips (fire 600 daily_sync sample_system) !! 3 = None ∧ ∃ j, fired_job daily_sync (sy_jobs (fire 600 daily_sync sample_system)) j)).
Proof.
  split; [vm_compute; reflexivity|]. exact (fire_loses_nothing 600 daily_sync sample_system waiting_table_ok eq_refl).
Defined.
