(* ===== verification/Limiter.v ===== *)
(** * Limiter: the limit on failed logins ([internal/auth/limiter.go])

    The failures of each client in the window, with the operations under the
    limiter's mutex. A client is its bucket, the result of [limiterKey] (an IPv4
    address or an IPv6 /64; the parsing of addresses is left out). Each operation
    reads the clock once; a range over the map is given by the order of the keys. *)
From stdpp Require Import base gmap list strings.
From Stdlib Require Import Lia.
From S2P Require Import Prelude.
Open Scope Z_scope.

Definition maxTracked : Z := 10000.
Abbreviation failures := (gmap string (list time)).

Section Limiter.
Context (max_fails : Z) (window : duration).

(** [recent] *)
Fixpoint drop_expired (cutoff : time) (f : list time) : list time :=
  match f with
  | [] => []
  | t :: f' => if cutoff <? t then f else drop_expired cutoff f'
  end.
Definition recent (now : time) (key : string) (fails : failures) : list time * failures :=
  match drop_expired (now - window) (default [] (fails !! key)) with
  | [] => ([], delete key fails)
  | f => (f, <[key := f]> fails)
  end.

(** [prune]: the expired entries go, then, if the map is still full, the entry
    whose last failure is the oldest; [oldest] is [""] before one is found. *)
Definition last_time (f : list time) : time := List.last f 0.
Definition prune_step (now : time) (acc : failures * string * time) (k : string) : failures * string * time :=
  let '(fails, oldest, at_) := acc in
  let '(f, fails) := recent now k fails in
  if negb (bool_decide (f = [])) && (String.eqb oldest "" || (last_time f <? at_)) then (fails, k, last_time f) else (fails, oldest, at_).
Definition prune (now : time) (order : list string) (fails : failures) : failures * option string :=
  let '(fails, oldest, _) := foldl (prune_step now) (fails, ""%string, 0) order in
  if maxTracked <=? Z.of_nat (size fails) then (delete oldest fails, Some oldest) else (fails, None).

(** [record]: the failures after it, and the key evicted for it. *)
Definition record (now : time) (order : list string) (key : string) (fails : failures) : failures * option string :=
  let '(fails, evicted) :=
    if bool_decide (fails !! key = None) && (maxTracked <=? Z.of_nat (size fails)) then prune now order fails else (fails, None) in
  let '(f, fails) := recent now key fails in
  (<[key := (f ++ [now])%list]> fails, evicted).

Definition Blocked (now : time) (key : string) (fails : failures) : failures * option duration :=
  match recent now key fails with
  | (f, fails) => if Z.of_nat (length f) <? max_fails then (fails, None)
                  else (fails, match f with t :: _ => Some (t + window - now) | [] => None end)
  end.

(** [Attempt]: [None] when the check may run (and counts as a failure at once),
    else how long to wait. *)
Definition Attempt (now : time) (order : list string) (key : string) (fails : failures) : failures * option string * option duration :=
  let '(f, fails) := recent now key fails in
  if max_fails <=? Z.of_nat (length f) then (fails, None, Some (match f with t :: _ => t + window - now | [] => 0 end))
  else let '(fails, evicted) := record now order key fails in (fails, evicted, None).

(** [forget] takes back one attempt. *)
Fixpoint delete_first (t : time) (f : list time) : list time :=
  match f with [] => [] | x :: f => if x =? t then f else x :: delete_first t f end.
Definition forget_attempt (key : string) (at_ : time) (fails : failures) : failures :=
  match fails !! key with
  | None => fails
  | Some f => if negb (mem at_ f) then fails
              else match delete_first at_ f with [] => delete key fails | f => <[key := f]> fails end
  end.
Definition Success (key : string) (fails : failures) : failures := delete key fails.

(** ** Sequences of operations *)
Inductive op := OpAttempt (key : string) (order : list string) | OpFail (key : string) (order : list string) | OpBlocked (key : string)
  | OpForget (key : string) (at_ : time) | OpSuccess (key : string).
(** What happened: the key whose check was allowed, and the key that was evicted. *)
Definition apply_op (now : time) (o : op) (fails : failures) : failures * option string * option string :=
  match o with
  | OpAttempt key order =>
      match Attempt now order key fails with (fails, evicted, None) => (fails, Some key, evicted) | (fails, evicted, Some _) => (fails, None, evicted) end
  | OpFail key order => let '(fails, evicted) := record now order key fails in (fails, None, evicted)
  | OpBlocked key => (fst (Blocked now key fails), None, None)
  | OpForget key at_ => (forget_attempt key at_ fails, None, None)
  | OpSuccess key => (Success key fails, None, None)
  end.
(** The operation gives [key] a new allowance: a right password, an attempt taken
    back, or an eviction. *)
Definition relieves (key : string) (now : time) (o : op) (fails : failures) : bool :=
  match o with
  | OpForget k _ | OpSuccess k => String.eqb k key
  | _ => bool_decide ((apply_op now o fails).2 = Some key)
  end.
(** The times of the checks allowed to [key]. *)
Fixpoint checks (key : string) (ops : list (time * op)) (fails : failures) : list time :=
  match ops with
  | [] => []
  | (now, o) :: ops =>
      let '(fails', allowed, _) := apply_op now o fails in
      let rest := checks key ops fails' in
      if bool_decide (allowed = Some key) then now :: rest else rest
  end.
Fixpoint unrelieved (key : string) (ops : list (time * op)) (fails : failures) : bool :=
  match ops with
  | [] => true
  | (now, o) :: ops => negb (relieves key now o fails) && unrelieved key ops (apply_op now o fails).1.1
  end.
Fixpoint run_ops (ops : list (time * op)) (fails : failures) : failures :=
  match ops with [] => fails | (now, o) :: ops => run_ops ops (apply_op now o fails).1.1 end.
(** A range over the map visits all its keys, in whatever order. *)
Definition op_ranges (o : op) (fails : failures) : Prop :=
  match o with OpAttempt _ order | OpFail _ order => ∀ k, is_Some (fails !! k) → k ∈ order | _ => True end.

(** ** Expiry *)
Definition get (k : string) (fails : failures) : list time := default [] (fails !! k).

Lemma drop_expired_count c d f : StronglySorted Z.le f → d ≤ c → count (λ t, c <? t) (drop_expired d f) = count (λ t, c <? t) f.
Proof.
  intros Hs Hd. induction Hs as [|t f Hs IH Ht]; [done|]. cbn [drop_expired]. destruct (Z.ltb_spec d t); [done|]. rewrite IH.
  unfold count. simpl. destruct (Z.ltb_spec c t); [lia|done].
Qed.
Lemma drop_expired_idem c f : drop_expired c (drop_expired c f) = drop_expired c f.
Proof. induction f as [|t f IH]; [done|]. cbn [drop_expired]. destruct (c <? t) eqn:E; [cbn [drop_expired]; by rewrite E|done]. Qed.
Lemma drop_expired_incl c f x : x ∈ drop_expired c f → x ∈ f.
Proof. induction f as [|t f IH]; [done|]. cbn [drop_expired]. destruct (c <? t); [done|]. intros H. right. by apply IH. Qed.
Lemma drop_expired_sorted c f : StronglySorted Z.le f → StronglySorted Z.le (drop_expired c f) ∧ ∀ x, x ∈ drop_expired c f → c < x.
Proof.
  induction 1 as [|t f Hs IH Ht]; [split; [constructor|by intros x ?%elem_of_nil]|]. cbn [drop_expired]. destruct (Z.ltb_spec c t); [|done].
  split; [by constructor|]. rewrite Forall_forall in Ht. intros x [->|Hx]%elem_of_cons; [done|]. specialize (Ht x Hx). lia.
Qed.

Lemma recent_fst now k fails : (recent now k fails).1 = drop_expired (now - window) (get k fails).
Proof. unfold recent, get. by destruct (drop_expired _ _). Qed.
Lemma recent_get now k key fails : get k (recent now key fails).2 = if String.eqb k key then drop_expired (now - window) (get k fails) else get k fails.
Proof.
  unfold recent, get. destruct (String.eqb_spec k key) as [->|Hne].
  - destruct (drop_expired _ _) eqn:E; simpl; [by rewrite lookup_delete_eq|by rewrite lookup_insert_eq].
  - destruct (drop_expired _ _); simpl; [by rewrite lookup_delete_ne|by rewrite lookup_insert_ne].
Qed.

(** Within one operation the failures of a key stay or lose their expired part. *)
Definition expired (now : time) (f f' : list time) : Prop := f' = f ∨ f' = drop_expired (now - window) f.
Lemma expired_trans now f g h : expired now f g → expired now g h → expired now f h.
Proof. intros [->| ->] [->| ->]; unfold expired; rewrite ?drop_expired_idem; tauto. Qed.
Lemma recent_expired now k key fails : expired now (get k fails) (get k (recent now key fails).2).
Proof. rewrite recent_get. destruct (String.eqb k key); [by right|by left]. Qed.

Lemma prune_step_fst now acc k : (prune_step now acc k).1.1 = (recent now k acc.1.1).2.
Proof. destruct acc as [[fails oldest] at_]. unfold prune_step. simpl. destruct (recent now k fails) as [f fails']. simpl. by destruct (_ && _). Qed.
Lemma prune_fold_expired now k order acc : expired now (get k acc.1.1) (get k (foldl (prune_step now) acc order).1.1).
Proof.
  revert acc. induction order as [|x order IH]; intros acc; simpl; [by left|]. eapply expired_trans; [|apply IH].
  rewrite prune_step_fst. apply recent_expired.
Qed.
Lemma prune_expired now k order fails : (prune now order fails).2 ≠ Some k → expired now (get k fails) (get k (prune now order fails).1).
Proof.
  unfold prune. pose proof (prune_fold_expired now k order (fails, ""%string, 0)) as H. destruct (foldl _ _ _) as [[fails' oldest] at_]. simpl in H.
  destruct (_ <=? _); simpl; [|done]. intros Hne. unfold get at 2. rewrite lookup_delete_ne; [done|]. congruence.
Qed.

(** [record] adds the failure to its key and only expires those of the others. *)
Lemma record_get now order key k fails fails' evicted : record now order key fails = (fails', evicted) → evicted ≠ Some k →
  if String.eqb k key then get k fails' = (drop_expired (now - window) (get k fails) ++ [now])%list else expired now (get k fails) (get k fails').
Proof.
  unfold record. set (pr := if bool_decide (fails !! key = None) && _ then _ else _).
  assert (Hpr : pr.2 ≠ Some k → expired now (get k fails) (get k pr.1)).
  { unfold pr. destruct (_ && _); [apply prune_expired|by left]. }
  destruct pr as [fails1 ev]. simpl in Hpr. pose proof (recent_get now k key fails1) as Hr. pose proof (recent_fst now key fails1) as Hf.
  destruct (recent now key fails1) as [f fails2]. simpl in Hr, Hf. intros [= <- <-] Hne. specialize (Hpr Hne).
  destruct (String.eqb_spec k key) as [->|Hk].
  - unfold get at 1. rewrite lookup_insert_eq. simpl. rewrite Hf. by destruct Hpr as [->| ->]; rewrite ?drop_expired_idem.
  - unfold get at 2. rewrite lookup_insert_ne by done. fold (get k fails2). by rewrite Hr.
Qed.

(** The failures of [key] after an operation that gives it no new allowance. *)
Definition failed_once (now : time) (f f' : list time) : Prop := f' = (drop_expired (now - window) f ++ [now])%list.

Lemma op_effect key now o fails : relieves key now o fails = false →
  let r := apply_op now o fails in let f := get key fails in let f' := get key r.1.1 in
  (r.1.2 = Some key ∧ Z.of_nat (length (drop_expired (now - window) f)) < max_fails ∧ failed_once now f f') ∨
  (r.1.2 ≠ Some key ∧ (expired now f f' ∨ failed_once now f f')).
Proof.
  intros Hr. cbv zeta. unfold failed_once. destruct o as [k order|k order|k|k at_|k]; cbn [relieves] in Hr.
  - apply bool_decide_eq_false in Hr. cbn [apply_op] in *. unfold Attempt in *.
    pose proof (recent_get now key k fails) as Hg. pose proof (recent_fst now k fails) as Hf. destruct (recent now k fails) as [f fails1]. simpl in Hg, Hf.
    destruct (Z.leb_spec max_fails (Z.of_nat (length f))); simpl.
    { right. split; [done|]. left. rewrite Hg. destruct (String.eqb key k); [by right|by left]. }
    destruct (record now order k fails1) as [fails2 ev] eqn:Er. simpl in *.
    pose proof (record_get now order k key _ _ _ Er Hr) as H'. destruct (String.eqb_spec key k) as [->|Hne].
    + left. split_and!; [done|by rewrite <-Hf|]. by rewrite H', Hg, drop_expired_idem.
    + right. split; [congruence|]. left. by rewrite Hg in H'.
  - apply bool_decide_eq_false in Hr. cbn [apply_op] in *. destruct (record now order k fails) as [fails2 ev] eqn:Er. simpl in *.
    right. split; [done|]. pose proof (record_get now order k key _ _ _ Er Hr) as H'. destruct (String.eqb key k); [by right|by left].
  - right. split; [done|]. left. cbn [apply_op]. unfold Blocked. pose proof (recent_expired now key k fails) as H.
    destruct (recent now k fails) as [f fails1]. by destruct (_ <? _).
  - right. split; [done|]. left. left. cbn [apply_op fst]. unfold forget_attempt. apply String.eqb_neq in Hr.
    destruct (fails !! k) as [f|]; [|done]. destruct (negb _); [done|].
    destruct (delete_first at_ f); unfold get; [by rewrite lookup_delete_ne|by rewrite lookup_insert_ne].
  - right. split; [done|]. left. left. cbn [apply_op fst]. apply String.eqb_neq in Hr. unfold Success, get. by rewrite lookup_delete_ne.
Qed.

(** The failures of a client are in order and none is later than the last operation. *)
Record history (now : time) (f : list time) : Prop := {
  hi_sorted : StronglySorted Z.le f;
  hi_past : ∀ x, x ∈ f → x ≤ now;
}.
Lemma history_later now now' f : now ≤ now' → history now f → history now' f.
Proof. intros Hle [H1 H2]. split; [done|]. intros x Hx. specialize (H2 x Hx). lia. Qed.
Lemma history_expired now f f' : expired now f f' → history now f → history now f'.
Proof.
  intros [->| ->] [H1 H2]; [done|]. split; [by apply drop_expired_sorted|]. intros x Hx. by eapply H2, drop_expired_incl.
Qed.
Lemma history_failed now f f' : failed_once now f f' → history now f → history now f'.
Proof.
  intros -> H. apply (history_expired now f (drop_expired (now - window) f)) in H as [H1 H2]; [|by right]. split.
  - clear -H1 H2. induction H1 as [|x l Hs IH Hx]; simpl; [by repeat constructor|]. constructor; [apply IH; intros; apply H2; by right|].
    apply Forall_app. split; [done|]. constructor; [apply H2; by left|done].
  - intros x [Hx|Hx%list_elem_of_singleton]%elem_of_app; [by apply H2|lia].
Qed.

Definition after (c : time) (l : list time) : nat := count (λ t, c <? t) l.
(** At most [max_fails] of the times [A] lie in any one window. *)
Definition bounded (A : list time) : Prop := ∀ t, Z.of_nat (count (λ a, (t - window <? a) && (a <=? t)) A) ≤ max_fails.

Lemma bounded_snoc now A : (∀ a, a ∈ A → a ≤ now) → bounded A → Z.of_nat (after (now - window) A) < max_fails → bounded (A ++ [now]).
Proof.
  intros Hp Hb Hc t. rewrite count_app. destruct (Z.leb_spec now t) as [Hle|Hlt].
  - assert (H1 : Nat.le (count (λ a, (t - window <? a) && (a <=? t)) A) (after (now - window) A)) by (apply count_le; intros; lia). change Nat.le with le in H1.
    pose proof (count_bound (λ a, (t - window <? a) && (a <=? t)) [now]). simpl in *. lia.
  - specialize (Hb t). assert (H0 : count (λ a, (t - window <? a) && (a <=? t)) [now] = 0%nat).
    { apply count_zero. intros x ->%list_elem_of_singleton. apply andb_false_iff. right. lia. }
    lia.
Qed.

Lemma checks_bounded key ops : ∀ fails A now0, StronglySorted Z.le (now0 :: (fst <$> ops)) → unrelieved key ops fails = true →
  history now0 (get key fails) → (∀ a, a ∈ A → a ≤ now0) → (∀ c, now0 - window ≤ c → (after c A ≤ after c (get key fails))%nat) →
  bounded A → bounded (A ++ checks key ops fails).
Proof.
  induction ops as [|[now o] ops IH]; intros fails A now0 Hs Hu Hh Hp Hg Hb; cbn [checks]; [by rewrite app_nil_r|].
  cbn [unrelieved] in Hu. apply andb_true_iff in Hu as [Hr%negb_true_iff Hu]. rewrite fmap_cons in Hs.
  apply StronglySorted_inv in Hs as [Hs Hall]. assert (Hle : now0 ≤ now) by (rewrite Forall_forall in Hall; apply Hall; by left).
  pose proof (op_effect key now o fails Hr) as He. destruct (apply_op now o fails) as [[fails' allowed] ev]. simpl in He, Hu.
  pose proof (history_later _ _ _ Hle Hh) as Hh'. set (f := get key fails) in *.
  (* Expiry drops nothing that a later window can see. *)
  assert (Hexp : ∀ c, now - window ≤ c → after c (drop_expired (now - window) f) = after c f) by (intros c Hc; apply drop_expired_count; [apply Hh|lia]).
  destruct He as [(-> & Hlen & Hf)|(Hne & Hf)].
  - rewrite bool_decide_eq_true_2 by done. cut (bounded ((A ++ [now]) ++ checks key ops fails')); [by rewrite <-app_assoc|].
    apply (IH fails' _ now); [done|done|by eapply history_failed| | |].
    + intros a [Ha|Ha%list_elem_of_singleton]%elem_of_app; [specialize (Hp a Ha)|]; lia.
    + intros c Hc. unfold failed_once in Hf. rewrite Hf. unfold after. rewrite !count_app. fold (after c (drop_expired (now - window) f)). rewrite Hexp by done.
      specialize (Hg c ltac:(lia)). unfold after, time in *. lia.
    + apply bounded_snoc; [|done|].
      * intros a Ha. specialize (Hp a Ha). lia.
      * specialize (Hg (now - window) ltac:(lia)). rewrite <-Hexp in Hg by lia. pose proof (count_bound (λ t, now - window <? t) (drop_expired (now - window) f)).
        unfold after, time in *. lia.
  - rewrite bool_decide_eq_false_2 by done. apply (IH fails' A now); [done|done| |intros a Ha; specialize (Hp a Ha); lia| |done].
    + destruct Hf as [Hf|Hf]; [by eapply history_expired|by eapply history_failed].
    + intros c Hc. specialize (Hg c ltac:(lia)). destruct Hf as [[->| ->]|Hf]; [done|by rewrite Hexp|].
      unfold failed_once in Hf. rewrite Hf. unfold after, time in *. rewrite count_app, Hexp by done. lia.
Qed.

(** *** Histories under every operation *)
Lemma history_nil now : history now [].
Proof. split; [constructor|by intros x ?%elem_of_nil]. Qed.
Lemma history_one now : history now [now].
Proof. split; [by repeat constructor|]. intros x Hx%list_elem_of_singleton. lia. Qed.
Lemma delete_first_incl t f x : x ∈ delete_first t f → x ∈ f.
Proof. induction f as [|y f IH]; [done|]. simpl. destruct (y =? t); [by right|]. intros [->|Hx]%elem_of_cons; [by left|right; auto]. Qed.
Lemma delete_first_history now t f : history now f → history now (delete_first t f).
Proof.
  intros [Hs Hp]. split; [|intros x Hx; by eapply Hp, delete_first_incl]. clear Hp. induction Hs as [|y f Hs IH Hy]; simpl; [constructor|].
  destruct (y =? t); [done|]. constructor; [done|]. rewrite Forall_forall in *. intros x Hx%delete_first_incl. by apply Hy.
Qed.

(** An evicted key has no failures left, but the new one. *)
Lemma record_evicted now order key k fails fails' : record now order key fails = (fails', Some k) → get k fails' = [] ∨ get k fails' = [now].
Proof.
  unfold record. destruct (_ && _); [|by destruct (recent now key fails)].
  assert (Hpr : (prune now order fails).2 = Some k → get k (prune now order fails).1 = []).
  { unfold prune. destruct (foldl _ _ _) as [[f oldest] at_]. destruct (_ <=? _); simpl; [|done]. intros [= ->]. unfold get. by rewrite lookup_delete_eq. }
  destruct (prune now order fails) as [fails1 ev]. simpl in Hpr. pose proof (recent_get now k key fails1) as Hr. pose proof (recent_fst now key fails1) as Hf.
  destruct (recent now key fails1) as [f fails2]. simpl in Hr, Hf. intros [= <- ->]. specialize (Hpr eq_refl). rewrite Hpr in Hr.
  unfold get at 1 2. destruct (String.eqb_spec k key) as [->|Hk].
  - right. rewrite lookup_insert_eq. simpl. by rewrite Hf, Hpr.
  - left. by rewrite lookup_insert_ne by done.
Qed.

Lemma op_history now o fails k : (∀ k, history now (get k fails)) → history now (get k (apply_op now o fails).1.1).
Proof.
  intros Hh. destruct (relieves k now o fails) eqn:Hr.
  - destruct o as [key order|key order|key|key at_|key]; cbn [relieves] in Hr.
    + apply bool_decide_eq_true in Hr. cbn [apply_op] in *. unfold Attempt in *. destruct (recent now key fails) as [f fails1].
      destruct (_ <=? _); [done|]. destruct (record now order key fails1) as [fails2 ev] eqn:Er. simpl in *. subst ev.
      apply record_evicted in Er as [->| ->]; [apply history_nil|apply history_one].
    + apply bool_decide_eq_true in Hr. cbn [apply_op] in *. destruct (record now order key fails) as [fails2 ev] eqn:Er. simpl in *. subst ev.
      apply record_evicted in Er as [->| ->]; [apply history_nil|apply history_one].
    + done.
    + apply String.eqb_eq in Hr as ->. cbn [apply_op fst]. unfold forget_attempt. destruct (fails !! k) as [f|] eqn:E; [|apply Hh].
      destruct (negb _); [apply Hh|]. assert (Hf : history now (delete_first at_ f)) by (apply delete_first_history; specialize (Hh k); unfold get in Hh; by rewrite E in Hh).
      destruct (delete_first at_ f) eqn:Ed; unfold get; [rewrite lookup_delete_eq; apply history_nil|by rewrite lookup_insert_eq].
    + apply String.eqb_eq in Hr as ->. cbn [apply_op fst]. unfold Success, get. rewrite lookup_delete_eq. apply history_nil.
  - destruct (op_effect k now o fails Hr) as [(_ & _ & H)|(_ & [H|H])]; [by eapply history_failed|by eapply history_expired|by eapply history_failed].
Qed.

Lemma run_history pre : ∀ fails now0, StronglySorted Z.le (now0 :: (fst <$> pre)) → (∀ k, history now0 (get k fails)) →
  ∀ now, (∀ t, t ∈ now0 :: (fst <$> pre) → t ≤ now) → ∀ k, history now (get k (run_ops pre fails)).
Proof.
  induction pre as [|[t o] pre IH]; intros fails now0 Hs Hh now Hn k; cbn [run_ops].
  - eapply history_later; [|apply Hh]. apply Hn. by left.
  - rewrite fmap_cons in Hs. apply StronglySorted_inv in Hs as [Hs Hall]. eapply (IH _ t); [done| |intros x Hx; apply Hn; by right].
    intros k'. apply op_history. intros k''. eapply history_later; [|apply Hh]. rewrite Forall_forall in Hall. apply Hall. by left.
Qed.

(** however its requests are interleaved with those of others, a client is
    allowed at most the configured number of password checks in any window of time,
    until it is given a new allowance: by a right password, by an attempt that is
    taken back because no guess was checked, or by an eviction from the full map.
    What happened before does not matter. *)
Theorem guesses_limited (key : string) (pre post : list (time * op)) :
  StronglySorted Z.le (fst <$> (pre ++ post)) → unrelieved key post (run_ops pre ∅) = true → 0 ≤ max_fails →
  ∀ t, Z.of_nat (count (λ a, (t - window <? a) && (a <=? t)) (checks key post (run_ops pre ∅))) ≤ max_fails.
Proof.
  intros Hs Hu Hm. destruct post as [|[now o] post]; [intros t; unfold count; simpl; lia|].
  rewrite fmap_app, fmap_cons in Hs. simpl in Hs.
  assert (Hpost : StronglySorted Z.le (now :: (fst <$> ((now, o) :: post))) ∧ ∀ x, x ∈ fst <$> pre → x ≤ now).
  { clear Hu. induction pre as [|[x ox] pre IH]; simpl in Hs.
    - split; [|by intros x ?%elem_of_nil]. rewrite fmap_cons. simpl. constructor; [done|]. inversion Hs as [|? ? ? Hall]; subst. by constructor.
    - apply StronglySorted_inv in Hs as [Hs Hall]. destruct (IH Hs) as [H1 H2]. split; [done|]. rewrite fmap_cons. intros y [->|Hy]%elem_of_cons; [|by apply H2].
      rewrite Forall_forall in Hall. apply Hall, elem_of_app. right. by left. }
  destruct Hpost as [Hpost Hpre].
  change (bounded ([] ++ checks key ((now, o) :: post) (run_ops pre ∅))). apply (checks_bounded key _ _ [] now); [done|done| |by intros a ?%elem_of_nil|intros c _; unfold after, count; simpl; lia|].
  - destruct pre as [|[x ox] pre]; [apply history_nil|]. simpl in Hs. eapply (run_history ((x, ox) :: pre) ∅ x); [|intros k; apply history_nil|].
    + rewrite fmap_cons. simpl. apply StronglySorted_inv in Hs as [Hs Hall]. apply Forall_app in Hall as [Hall _].
      apply StronglySorted_app in Hs as (_ & Hs & _). constructor; [by constructor|]. constructor; [lia|done].
    + rewrite fmap_cons. simpl. intros y. rewrite !elem_of_cons. intros [->|[->|Hy]]; apply Hpre; rewrite fmap_cons; [by left|by left|by right].
  - intros t. unfold count. simpl. lia.
Qed.

(** *** The memory of the limiter *)
Definition live (now : time) (fails : failures) (k : string) : Prop := drop_expired (now - window) (get k fails) ≠ [].
Abbreviation covers order fails := (∀ k, is_Some ((fails : failures) !! k) → k ∈ order).

Lemma recent_live now key fails k : live now (recent now key fails).2 k ↔ live now fails k.
Proof. unfold live. rewrite recent_get. destruct (String.eqb k key); by rewrite ?drop_expired_idem. Qed.
Lemma recent_keys now key fails k : is_Some ((recent now key fails).2 !! k) → (k = key → live now fails k) ∧ (k ≠ key → is_Some (fails !! k)).
Proof.
  unfold recent, live, get. destruct (decide (k = key)) as [->|Hne].
  - intros H. split; [|done]. intros _ E. rewrite E in H. simpl in H. rewrite lookup_delete_eq in H. by apply is_Some_None in H.
  - intros H. split; [done|]. intros _. destruct (drop_expired _ _); simpl in H; [by rewrite lookup_delete_ne in H|by rewrite lookup_insert_ne in H].
Qed.
Lemma live_key now fails k : live now fails k → is_Some (fails !! k).
Proof. unfold live, get. destruct (fails !! k); [done|]. simpl. done. Qed.
Lemma recent_size now key fails : (size (recent now key fails).2 ≤ size fails)%nat.
Proof.
  unfold recent, get. destruct (drop_expired _ _) as [|t f] eqn:E; simpl.
  - destruct (fails !! key) eqn:Ek; [rewrite map_size_delete_Some by done; lia|by rewrite delete_id].
  - rewrite map_size_insert_Some; [done|]. destruct (fails !! key); done.
Qed.

Lemma step_live now acc x k : live now (prune_step now acc x).1.1 k ↔ live now acc.1.1 k.
Proof. by rewrite prune_step_fst, recent_live. Qed.

(** A step makes a live key the oldest, or there was one. *)
Lemma step_oldest now acc x : (prune_step now acc x).1.2 = acc.1.2 ∧ (live now acc.1.1 x → acc.1.2 ≠ ""%string) ∨
  (prune_step now acc x).1.2 = x ∧ live now acc.1.1 x.
Proof.
  destruct acc as [[fails oldest] at_]. simpl. pose proof (recent_fst now x fails) as Hf. unfold live, prune_step.
  destruct (recent now x fails) as [f fails']. simpl in Hf. subst f. destruct (decide (drop_expired (now - window) (get x fails) = [])) as [E|E].
  - rewrite (bool_decide_eq_true_2 _ E). left. simpl. split; [done|]. by intros ?.
  - rewrite (bool_decide_eq_false_2 _ E). simpl. destruct (String.eqb_spec oldest ""); simpl; [by right|]. destruct (_ <? _); simpl; [by right|by left].
Qed.

Lemma prune_fold_keys now order k : ∀ acc, is_Some ((foldl (prune_step now) acc order).1.1 !! k) →
  is_Some (acc.1.1 !! k) ∧ (k ∈ order → live now acc.1.1 k).
Proof.
  induction order as [|x order IH]; intros acc; cbn [foldl]; [intros H; split; [done|by intros ?%elem_of_nil]|]. intros H.
  apply IH in H as [H Hin]. rewrite step_live in Hin. rewrite prune_step_fst in H. apply recent_keys in H as [H1 H2]. split.
  - destruct (decide (k = x)) as [E|E]; [by eapply live_key, H1|by apply H2].
  - intros [E|Hk]%elem_of_cons; [by apply H1|by apply Hin].
Qed.
Lemma prune_fold_size now order : ∀ acc, (size (foldl (prune_step now) acc order).1.1 ≤ size acc.1.1)%nat.
Proof.
  induction order as [|x order IH]; intros acc; cbn [foldl]; [done|]. specialize (IH (prune_step now acc x)). rewrite prune_step_fst in IH.
  pose proof (recent_size now x acc.1.1). lia.
Qed.
Lemma prune_fold_live now order k : ∀ acc, live now (foldl (prune_step now) acc order).1.1 k ↔ live now acc.1.1 k.
Proof. induction order as [|x order IH]; intros acc; cbn [foldl]; [done|]. by rewrite IH, step_live. Qed.
Lemma prune_fold_oldest now order : ∀ acc, (acc.1.2 ≠ ""%string → live now acc.1.1 acc.1.2) →
  live now acc.1.1 acc.1.2 ∨ (∃ k, k ∈ order ∧ live now acc.1.1 k) → live now acc.1.1 (foldl (prune_step now) acc order).1.2.
Proof.
  induction order as [|x order IH]; intros acc Ho Hex; cbn [foldl]; [destruct Hex as [?|(k & []%elem_of_nil & _)]; done|].
  rewrite <-(step_live now acc x). destruct (step_oldest now acc x) as [[E Hx]|[E Hx]].
  - apply IH; rewrite E, !step_live; [done|]. destruct Hex as [Hl|(k & [->|Hk]%elem_of_cons & Hl)]; [by left|by left; apply Ho, Hx|].
    right. exists k. by rewrite step_live.
  - apply IH; rewrite E, !step_live; [done|by left].
Qed.

(** [prune] leaves room for one more key. *)
Lemma prune_size now order fails : covers order fails → Z.of_nat (size fails) ≤ maxTracked → Z.of_nat (size (prune now order fails).1) < maxTracked.
Proof.
  intros Hc Hs. unfold prune. pose proof (prune_fold_size now order (fails, ""%string, 0)) as Hsz. pose proof (λ k, prune_fold_keys now order k (fails, ""%string, 0)) as Hk.
  pose proof (prune_fold_oldest now order (fails, ""%string, 0)) as Ho. pose proof (λ k, prune_fold_live now order k (fails, ""%string, 0)) as Hl.
  destruct (foldl _ _ _) as [[fails' oldest] at_]. simpl in *. destruct (Z.leb_spec maxTracked (Z.of_nat (size fails'))); simpl; [|lia].
  assert (Hold : is_Some (fails' !! oldest)).
  { eapply live_key, Hl, Ho; [done|]. right. destruct (map_choose fails') as (k & f & Hkf).
    - intros E. rewrite E, map_size_empty in H. unfold maxTracked in H. lia.
    - destruct (Hk k ltac:(by exists f)) as [Hin Hlive]. exists k. split; [by apply Hc|]. by apply Hlive, Hc. }
  rewrite map_size_delete_Some by done. unfold maxTracked in *. lia.
Qed.

Lemma record_size now order key fails : covers order fails → Z.of_nat (size fails) ≤ maxTracked → Z.of_nat (size (record now order key fails).1) ≤ maxTracked.
Proof.
  intros Hc Hs. unfold record. set (pr := if bool_decide (fails !! key = None) && _ then _ else _).
  assert (Hpr : Z.of_nat (size pr.1) ≤ maxTracked ∧ (pr.1 !! key = None → Z.of_nat (size pr.1) < maxTracked)).
  { unfold pr. destruct (bool_decide (fails !! key = None)) eqn:En; cbn [andb].
    - destruct (Z.leb_spec maxTracked (Z.of_nat (size fails))); [|simpl; lia]. pose proof (prune_size now order fails Hc Hs). lia.
    - apply bool_decide_eq_false in En. simpl. done. }
  destruct pr as [fails1 ev]. simpl in Hpr. pose proof (recent_size now key fails1) as Hr.
  assert (Hkey : is_Some (fails1 !! key) → (size (recent now key fails1).2 ≤ size fails1)%nat ∧ ((recent now key fails1).2 !! key = None → S (size (recent now key fails1).2) = size fails1)).
  { intros Hk. split; [done|]. unfold recent. destruct (drop_expired _ _); simpl; [|by rewrite lookup_insert_eq].
    intros _. rewrite map_size_delete_Some by done. assert (size fails1 ≠ 0%nat); [|lia]. intros E. apply map_size_empty_iff in E. rewrite E, lookup_empty in Hk.
    by apply is_Some_None in Hk. }
  destruct (recent now key fails1) as [f fails2]. simpl in *. destruct Hpr as [H1 H2].
  destruct (fails2 !! key) eqn:E2.
  - rewrite map_size_insert_Some by (by rewrite E2). lia.
  - rewrite map_size_insert_None by done. destruct (fails1 !! key) eqn:E1; [destruct (Hkey ltac:(done)) as [_ Hk]; specialize (Hk eq_refl); lia|].
    specialize (H2 eq_refl). lia.
Qed.

Fixpoint ranges_ok (ops : list (time * op)) (fails : failures) : Prop :=
  match ops with [] => True | (now, o) :: ops => op_ranges o fails ∧ ranges_ok ops (apply_op now o fails).1.1 end.

Lemma op_size now o fails : op_ranges o fails → Z.of_nat (size fails) ≤ maxTracked → Z.of_nat (size (apply_op now o fails).1.1) ≤ maxTracked.
Proof.
  destruct o as [key order|key order|key|key at_|key]; cbn [op_ranges apply_op]; intros Hc Hs.
  - unfold Attempt. pose proof (recent_size now key fails) as Hr. assert (Hc' : covers order (recent now key fails).2).
    { intros k Hk. apply Hc. apply recent_keys in Hk as [H1 H2]. destruct (decide (k = key)) as [E|E]; [by eapply live_key, H1|by apply H2]. }
    destruct (recent now key fails) as [f fails1]. simpl in *. destruct (_ <=? _); simpl; [lia|].
    pose proof (record_size now order key fails1 Hc' ltac:(lia)) as H. by destruct (record now order key fails1).
  - pose proof (record_size now order key fails Hc Hs) as H. by destruct (record now order key fails).
  - unfold Blocked. pose proof (recent_size now key fails) as Hr. destruct (recent now key fails) as [f fails1]. simpl in *. destruct (_ <? _); simpl; lia.
  - cbn [fst]. unfold forget_attempt. destruct (fails !! key) as [f|] eqn:E; [|done]. destruct (negb _); [done|].
    destruct (delete_first at_ f); [rewrite map_size_delete_Some by (by rewrite E); lia|by rewrite map_size_insert_Some by (by rewrite E)].
  - cbn [fst]. unfold Success. destruct (fails !! key) eqn:E; [rewrite map_size_delete_Some by (by rewrite E); lia|by rewrite delete_id].
Qed.

(** the limiter never tracks more clients than its bound, however many fail
    and in whatever order the ranges over its map go. *)
Theorem tracked_bounded (ops : list (time * op)) : ranges_ok ops ∅ → Z.of_nat (size (run_ops ops ∅)) ≤ maxTracked.
Proof.
  assert (H0 : Z.of_nat (size (∅ : failures)) ≤ maxTracked) by (rewrite map_size_empty; unfold maxTracked; lia).
  revert H0. generalize (∅ : failures). induction ops as [|[now o] ops IH]; intros fails Hs; [done|]. intros [Ho Hr]. cbn [run_ops].
  apply IH; [by apply op_size|done].
Qed.
End Limiter.

(** ** Examples: two failures a minute *)
Definition minute : duration := 60.
Definition guess (t : time) (key : string) : time * op := (t, OpAttempt key []).
Definition sample_before : list (time * op) := [guess 0 "10.0.0.7"; guess 5 "10.0.0.7"; (6, OpSuccess "10.0.0.7")]%string.
Definition sample_after : list (time * op) :=
  [guess 10 "10.0.0.7"; guess 20 "10.0.0.8"; guess 20 "10.0.0.7"; guess 21 "10.0.0.7"; (22, OpForget "10.0.0.8" 20); guess 70 "10.0.0.7"; guess 71 "10.0.0.7"]%string.

Lemma guesses_limited_witness :
  checks 2 minute "10.0.0.7" sample_after (run_ops 2 minute sample_before ∅) = [10; 20; 70] ∧
  unrelieved 2 minute "10.0.0.7" sample_after (run_ops 2 minute sample_before ∅) = true ∧
  ∀ t, Z.of_nat (count (λ a, (t - minute <? a) && (a <=? t)) (checks 2 minute "10.0.0.7" sample_after (run_ops 2 minute sample_before ∅))) ≤ 2.
Proof.
  assert (H : unrelieved 2 minute "10.0.0.7" sample_after (run_ops 2 minute sample_before ∅) = true) by (vm_compute; reflexivity).
  split; [vm_compute; reflexivity|]. split; [exact H|].
  refine (guesses_limited 2 minute "10.0.0.7" sample_before sample_after _ H _); [|lia].
  unfold sample_before, sample_after, guess. simpl. repeat (constructor; [|repeat constructor; lia]). constructor.
Defined.

Lemma tracked_bounded_witness :
  size (run_ops 2 minute sample_after ∅) = 1%nat ∧ ranges_ok 2 minute [(10, OpAttempt "10.0.0.7" []); (20, OpFail "10.0.0.8" ["10.0.0.7"%string])] ∅ ∧
  Z.of_nat (size (run_ops 2 minute [(10, OpAttempt "10.0.0.7" []); (20, OpFail "10.0.0.8" ["10.0.0.7"%string])] ∅)) ≤ maxTracked.
Proof.
  assert (H : ranges_ok 2 minute [(10, OpAttempt "10.0.0.7" []); (20, OpFail "10.0.0.8" ["10.0.0.7"%string])] ∅).
  { split; [|split; [|done]].
    - intros k Hk. rewrite lookup_empty in Hk. by apply is_Some_None in Hk.
    - intros k Hk. cbn [apply_op fst] in Hk. assert (E : (Attempt 2 minute 10 [] "10.0.0.7" ∅).1.1 = {[ "10.0.0.7"%string := [10] ]}) by (vm_compute; reflexivity).
      destruct (Attempt 2 minute 10 [] "10.0.0.7" ∅) as [[f ev] w] eqn:Ea. simpl in E. subst f.
      destruct w; simpl in Hk; (destruct (decide (k = "10.0.0.7"%string)) as [->|Hne]; [by left|]; rewrite lookup_singleton_ne in Hk by done; by apply is_Some_None in Hk). }
  split; [vm_compute; reflexivity|]. split; [exact H|]. exact (tracked_bounded 2 minute _ H).
Defined.
